(* ===== verification/_CoqProject ===== *)
-Q . S2P
Prelude.v
GoStrings.v
StringFacts.v
GoValue.v
Numbers.v
Format.v
CredType.v
Validity.v
StatusList.v
SDJWT.v
SDJWTFacts.v
WalletState.v
WalletStatus.v
WalletStore.v
ClaimPath.v
ClaimPathFacts.v
DCQL.v
DCQLFacts.v
Batch.v
Consent.v
ConsentFacts.v
Present.v
PresentFacts.v
PresentWire.v
Certs.v
Mdoc.v
StatusListCwt.v
Validate.v
ValidateFacts.v
MdocFacts.v
Conc.v
GoMap.v
Storage.v
StorageFacts.v
Persist.v
PersistFacts.v
PersistShare.v
Deferred.v
DeferredFacts.v
Rooms.v
IssuerAuth.v
Issuer.v
IssuerState.v
IssuerSteps.v
IssuerFacts.v
IssuerProps.v
IssuerAuthFacts.v
UriQuery.v
Requests.v
Jwe.v
ClientAuth.v
RequestChecks.v
Response.v
Registration.v
RequestFacts.v
ResponseFacts.v
MdocPresent.v
MdocPresentFacts.v
MdocRoundtrip.v
PresentFlow.v
BrowserApi.v
ConsentFlow.v
ConsentErrors.v
ConsentFlowFacts.v
VciNet.v
VciMetadata.v
VciAuth.v
VciRequests.v
VciExchangeFacts.v
VciFlow.v
VerifierChecks.v
VerifierFacts.v
VerifierProps.v
VerifierRequest.v
Verifier.v
VerifierState.v
VerifierServer.v
VerifierWallet.v
VciIssuer.v
VciFlowFacts.v
