(* ===== verification/Prelude.v ===== *)
(** * A verification of the core of eudi-dev

    eudi-dev is a development wallet for the EU Digital Identity ecosystem with
    a demo issuer and a demo verifier (src/, written in Go).  A verifier sends
    a presentation request; the wallet parses and validates it, evaluates its
    DCQL query against the stored credentials, asks the user, and presents the
    chosen credentials with the chosen claims, which the verifier checks.  An
    issuer gives the wallet credentials, possibly several copies of one and
    possibly later, and publishes a status list that tells which are revoked.
    This library models that path as executable definitions, the servers as
    transition systems, and proves what makes it correct.

    ** Parts of the program and the files that model them

    - _Shared_: this file (results and their [let?] notation, tactics, hint
      databases, stable sorting, list lemmas); GoStrings and StringFacts
      (packages strings and strconv, and [why], an error as its format and
      arguments); GoValue (a decoded JSON or CBOR document as Go's [any],
      float64 as [SpecFloat.spec_float]); Numbers (doubles as array indices);
      GoMap (ranging over a map in an order the class [MapOrder] picks, and
      [fmt.Sprint]); Conc (programs of atomic steps, pools of threads, and
      rely-guarantee reasoning).
    - _Encodings_: Format (internal/format: base64url, compact JWTs); UriQuery
      (net/url queries and internal/oid4vc's use of them); Jwe (internal/jwe
      and internal/wallet/jwe.go).
    - _SD-JWT_: SDJWT (internal/sdjwt: parser, RFC 9901 processing), SDJWTFacts.
    - _mdoc_: Mdoc (internal/mdoc and internal/format/cbor.go: parsing, issuer
      signature, digests, device authentication, transcripts), MdocFacts.
    - _Trust and validation_: Certs (internal/certchain, internal/keys and the
      JOSE side of internal/sdjwt), Validity (time.Time, Duration
      and Unix; internal/validity), StatusList and StatusListCwt
      (internal/statuslist: tokens in JWT and in CWT format), CredType
      (internal/credtype), Validate (internal/validate), ValidateFacts.
    - _The store_: WalletState (the stored credentials and status entries of
      wallet.go, wallet_import.go, credentials_file.go, wallet_status.go),
      WalletStore, WalletStatus.
    - _Persistence_: Storage (internal/storage), StorageFacts; Persist
      (store.go, store_entities.go, ResetToBaseline of demo.go: rows,
      revisions, the status counter, run by several servers on one store),
      PersistFacts, PersistShare.
    - _Deferred issuance_: Deferred (deferred.go, deferred_poller.go),
      DeferredFacts.
    - _Queries_: ClaimPath and DCQL (dcql.go), ClaimPathFacts, DCQLFacts; Batch
      (issuance_batch.go).
    - _Requests_: Requests (internal/oid4vc and requestobj.go), ClientAuth
      (clientid.go, requestobj.go), RequestChecks (validation.go, haip.go,
      client_metadata.go), Registration (verifier_info.go, arf_trust.go, and
      ValidateAuthorizationRequest), RequestFacts.
    - _Presentation_: Present (SD-JWT, jws.go), PresentFacts, PresentWire;
      MdocPresent (presentation_mdoc.go), MdocPresentFacts, MdocRoundtrip;
      Response (presentation_encrypt.go, response.go), ResponseFacts (with the
      round trip of Jwe); PresentFlow (createVPToken, CreateVPTokenMap, idtoken.go,
      submitting a presentation or an error).
    - _The wallet server_: Consent (consent_selection.go), ConsentFacts;
      BrowserApi (server_presentation.go, browser_api.go, server_browser.go);
      ConsentFlow (handleAuthFlow of server_auth.go, wallet_events.go,
      server_owner.go, server_requests.go), ConsentErrors, ConsentFlowFacts.
    - _The demo issuer_ (internal/demorp): Rooms (maps of bounded size),
      IssuerAuth (clients, DPoP, proofs), Issuer (the endpoints), IssuerState,
      IssuerSteps, IssuerFacts, IssuerProps, IssuerAuthFacts.
    - _Issuance_ (the wallet as an issuer's client): VciNet (requests, clock and
      randomness as programs of Conc over any world, and the rules for what a
      program sends); VciMetadata (metadata of the issuer and its
      authorization servers: issuance.go), VciAuth (attestations, DPoP, key
      proofs: issuance_authcode.go, issuance_batch.go), VciRequests
      (doDPoPRequest and the token, nonce, credential, deferred and notification
      requests), VciFlow (issuance_interactive.go, issuance_steps.go,
      credential_refresh.go: the flows from an offer to a credential and the
      renewal); VciExchangeFacts and VciFlowFacts; VciIssuer joins it to the
      demo issuer.
    - _The demo verifier_: VerifierChecks (the verification of a vp_token),
      VerifierFacts, VerifierProps; VerifierRequest and Verifier (requests and
      handlers), VerifierState, VerifierServer; VerifierWallet
      joins it to the wallet.

    ** How the parts meet

    The classes [Json], [Hash], [Pki], [Jose], [Cbor], [Cose], [Signer],
    [CoseSigner], [JweCrypto], [CredentialReader], [World], [Cwt] and [Store] are the
    interfaces to libraries and I/O; [JweLaws], [CborLaws], [CborReads],
    [CoseSignerLaws], [JwtLaws] and [StoreLaws] state what a proof relies on, each with an
    instance.  Requests parses what ClientAuth, RequestChecks and Registration
    check and Registration judges.  ConsentFlow calls Registration, DCQL,
    Consent and PresentFlow, which calls Present, MdocPresent and Response.
    VerifierChecks reads what Present and MdocPresent write.  Requests and
    Verifier take the decryption of a JWE as a parameter, which
    [Jwe.DecryptCompactJWE] is; the components that check a status take the
    parser of CWT tokens as one, which [parseCWTStatusListToken] is.  The list
    the wallet publishes (WalletState) is read by StatusList.

    ** What the theorems show

    - The verifier: an accepted SD-JWT or mdoc is genuine (trusted issuer,
      live, unrevoked, nothing added, bound to this request); an
      accepted vp_token answers the query; a request shown as verified earned
      it; a request takes one response; the object served is the one checked.
      Requests of the issuer's Interactive Authorization are verified alike, but
      may be answered in the clear, after they expire and more than once.
    - Consent: nothing is presented without consent, a strict wallet server
      sends only what was asked, a consent request is decided once, and a
      decision is carried out.  Errors show no credential.
    - Presentation: what is sent lies on or below a selected path, every
      selected value arrives, the key binding and the device signature are for
      one request, a presented mdoc reads back, a response encrypted with
      AES-GCM opens with the verifier's key and with the debug key (nothing is
      said of opening one in A128CBC-HS256).
    - Requests: an accepted request is signed by the client it names, is
      registered under the ARF profile, is the answer to the wallet's own post;
      the validation mode decides only what a finding does.
    - Queries: strict mode presents full answers to well-formed queries, in
      every mode only requested claims; a path selects what the processing of
      OpenID4VP selects, except that elements of the wrong type are skipped.
    - The issuer: tokens are earned and grants spent once under any
      interleaving, proofs are for this issuer, its maps are bounded.
    - Issuance: a request ends after three attempts whatever a server answers;
      a code is redeemed with the verifier, the state and the server of its own
      request (in strict mode, without Interactive Authorization); access tokens
      go to the endpoints of the offer's issuer only, renewals to the endpoint
      the credential keeps; what the wallet signs for the demo issuer, the demo issuer accepts.
    - Persistence and deferred issuance: caches are current when nothing runs
      and status indices are distinct across servers until a save resets the
      counter, each server running one operation at a time; collections do not
      overlap and end.
    - SD-JWT and status lists: strict parsing accepts what RFC 9901 does,
      processing terminates, a checked status is genuine, entries are read at
      their width.  Batches rotate fairly.

    Some theorems and lemmas state where the code does not do this, such as a
    document type that is not compared, a decoy digest that shifts an array
    index and a status index that repeats after a reset.

    ** Transition systems

    Handlers of the issuer, the verifier and the store are threads of Conc: the
    code between a lock and its release is one step, and steps of all threads
    interleave.  ConsentFlow and Deferred are step functions with one action per
    locked operation or channel operation.  What a theorem says about the past
    is read from history that no step consults: granted codes, imports, claims,
    outcomes, and for consent the flow's decisions, presentations and errors.
    Random values are arguments: identifiers of the issuer and the verifier
    come from an injective source, and a consent id is one not named before.
    What the world answers (time, HTTP, renewal) is a function of the moment or
    an argument of the step.

    ** Bounds and fuel

    Recursion through disclosures takes fuel ([process_value], the collection
    of nested disclosures, [Parse]); [processing_terminates] and
    [presentation_shows_selected_claims] prove that enough fuel gives a result
    whenever no disclosure contains its own digest, which hashing excludes.
    Other fuel is the size of the input and proved or evidently enough: the
    length of the chain of types plus two, of a string, of a selector, the
    weight of a CBOR document, the size of a map when it makes room, the 634
    decimal exponents of a double.  The loops over HTTP run as often as the
    code allows: three attempts of a request and of a metadata document, eight
    rounds of Interactive Authorization.  Persistence retries as often as the code;
    versions of rows come from a counter that does not wrap.  Status lists are
    read below 2^59 bytes and written below 2^40 entries, so that int64
    positions do not wrap; path indices are below 2^53.  Dates are computed in
    UTC.  [map_to_list] fixes an order where Go ranges over a map and the order
    decides at most which of several errors is reported.

    ** Not modelled

    - JSON, CBOR, DEFLATE, hashes, ECDSA, RSA, AES, X.509, net/url and HTTP:
      libraries or I/O, behind the classes and parameters above.
    - Of the issuance flows: reading an offer at its URI, the presentation an
      authorization server may ask for during authorization, the ARF and
      catalogue checks of an issuer, the checks of received credentials, their
      display and import (arguments of VciFlow), and logs.
    - The rest of the wallet's HTTP server: routing, logs, event streams, pages
      and the consent requests of issuance, which share the registry.
    - Operations of one server on its rows that overlap (a reload during a log
      append is shown to lose a row of the cache), the single-file format of the
      store, and the encoding of the wallet's data in rows, whose codecs are the
      libraries' own.
    - The registrar, the debugging proxy, the remote client, the command line,
      the web UI, terminal output and templates: they sign, show or forward
      documents and keep no protocol state of the wallet. *)

From stdpp Require Import base list strings gmap sorting.
From Stdlib Require Import ZArith Lia.

(** ** Results

    A Go function returning [(T, error)] is modelled by [result E T]: [Ok]
    is the nil-error return, [Err] carries what distinguishes the error. *)

Inductive result (E A : Type) : Type :=
| Ok (a : A)
| Err (e : E).
Arguments Ok {E A} a.
Arguments Err {E A} e.

Declare Scope go_scope.
Delimit Scope go_scope with go.
Open Scope go_scope.

(** [let? x := c in k] is Go's [x, err := c; if err != nil { return err }; k]. *)
Notation "'let?' x := c 'in' k" :=
  (match c with Ok x => k | Err e => Err e end)
  (at level 10, x pattern, c at level 100, k at level 200) : go_scope.

Definition is_ok {E A} (r : result E A) : bool :=
  match r with Ok _ => true | Err _ => false end.

(** ** Boolean and option automation *)

Create HintDb godb.
Create Rewrite HintDb gobool.
#[export] Hint Rewrite andb_true_iff orb_true_iff negb_true_iff andb_false_iff
  orb_false_iff negb_false_iff String.eqb_eq Z.eqb_eq Z.ltb_lt Z.leb_le
  Z.ltb_ge Z.leb_gt Z.eqb_neq String.eqb_neq Nat.eqb_eq Nat.ltb_lt Nat.leb_le
  : gobool.

(** [bsimpl] turns boolean tests into the propositions they decide. *)
Ltac bsimpl := autorewrite with gobool in *.

(** [dmatch] splits on the innermost stuck [match] or [if] of the goal,
    [dmatch_in H] on one of a hypothesis. *)
Ltac dmatch :=
  match goal with
  | |- context [match ?x with _ => _ end] =>
      lazymatch x with
      | context [match _ with _ => _ end] => fail
      | _ => let E := fresh "E" in destruct x eqn:E
      end
  end.

Ltac dmatch_in H :=
  match type of H with
  | context [match ?x with _ => _ end] =>
      lazymatch x with
      | context [match _ with _ => _ end] => fail
      | _ => let E := fresh "E" in destruct x eqn:E
      end
  end.

(** [bind_inv] opens the successful binds of a computation in the option
    monad over pairs. *)
Ltac bind_inv :=
  repeat match goal with
  | H : (_ ≫= _) = Some _ |- _ =>
      let E := fresh "E" in apply bind_Some in H as ([? ?] & E & H); simplify_eq/=
  end; simplify_eq/=.

(** [by_decide] proves a closed decidable proposition by evaluation. *)
Ltac by_decide := apply (bool_decide_eq_true_1 _); vm_compute; reflexivity.

(** [zlia] is [lia] with the Euclidean equations of [/] and [mod]. *)
Ltac zlia := Z.to_euclidean_division_equations; lia.

(** ** sort.SliceStable

    Go sorts blocks of twenty elements by insertion: element [i] moves left
    past each neighbour [j-1] with [less(i, j-1)].  The accumulator of
    [insertion_sort] is the sorted prefix, last element first.  Longer slices
    are merged block by block, comparing only an element of the right block
    with one of the left block; for a strict weak order that gives the same
    list, since a stable sort is unique. *)

Section stable_sort.
Context {A : Type} (less : A -> A -> bool).

Fixpoint insert_back (x : A) (acc : list A) : list A :=
  match acc with
  | [] => [x]
  | y :: ys => if less x y then y :: insert_back x ys else x :: y :: ys
  end.

Definition sort_onto (acc l : list A) : list A :=
  fold_left (fun acc x => insert_back x acc) l acc.

Definition slice_stable (l : list A) : list A := reverse (sort_onto [] l).

Lemma insert_back_perm x acc : insert_back x acc ≡ₚ x :: acc.
Proof.
  induction acc as [|y ys IH]; simpl; [done|].
  destruct (less x y); [|done]. rewrite IH. constructor.
Qed.

Lemma sort_onto_perm l acc : sort_onto acc l ≡ₚ acc ++ l.
Proof.
  revert acc; induction l as [|x l IH]; intros acc; simpl.
  - by rewrite app_nil_r.
  - unfold sort_onto in *. simpl. rewrite IH, insert_back_perm.
    by rewrite <- Permutation_middle.
Qed.

Lemma slice_stable_perm l : slice_stable l ≡ₚ l.
Proof.
  unfold slice_stable. rewrite reverse_Permutation. apply sort_onto_perm.
Qed.

Lemma slice_stable_elem_of x l : x ∈ slice_stable l <-> x ∈ l.
Proof. by rewrite slice_stable_perm. Qed.

(** Elements that are never less than what stands before them stay put, so
    blocks that do not interact sort independently. *)
Lemma insert_back_app x acc1 acc2 :
  Forall (fun y => less x y = false) acc2 ->
  insert_back x (acc1 ++ acc2) = insert_back x acc1 ++ acc2.
Proof.
  intros H. induction acc1 as [|y ys IH]; simpl.
  - destruct acc2 as [|z zs]; simpl; [done|].
    apply Forall_cons in H as [-> _]. done.
  - destruct (less x y); simpl; [by rewrite IH|done].
Qed.

Lemma sort_onto_app l acc1 acc2 :
  (forall x y, x ∈ l -> y ∈ acc2 -> less x y = false) ->
  sort_onto (acc1 ++ acc2) l = sort_onto acc1 l ++ acc2.
Proof.
  revert acc1; induction l as [|x l IH]; intros acc1 H; simpl; [done|].
  unfold sort_onto in *; simpl. rewrite insert_back_app.
  - apply IH. intros; apply H; [by right|done].
  - apply Forall_forall. intros y Hy. apply H; [by left|done].
Qed.

Lemma slice_stable_app l1 l2 :
  (forall x y, x ∈ l2 -> y ∈ l1 -> less x y = false) ->
  slice_stable (l1 ++ l2) = slice_stable l1 ++ slice_stable l2.
Proof.
  intros H. unfold slice_stable.
  assert (Hl : sort_onto [] (l1 ++ l2) = sort_onto [] l2 ++ sort_onto [] l1).
  { unfold sort_onto at 1. rewrite fold_left_app. fold (sort_onto [] l1).
    apply (sort_onto_app l2 [] (sort_onto [] l1)).
    intros x y Hx Hy. apply H; [done|]. by rewrite sort_onto_perm in Hy. }
  by rewrite Hl, reverse_app.
Qed.

Lemma slice_stable_concat gs :
  (forall i j g g' x y, i < j -> gs !! i = Some g -> gs !! j = Some g' ->
     x ∈ g' -> y ∈ g -> less x y = false) ->
  slice_stable (concat gs) = concat (map slice_stable gs).
Proof.
  induction gs as [|g gs IH]; intros H; simpl; [done|].
  rewrite slice_stable_app.
  - rewrite IH; [done|]. intros i j g1 g2 x y Hij Hi Hj.
    apply (H (S i) (S j) g1 g2 x y); [lia|done|done].
  - intros x y Hx Hy. apply list_elem_of_In, in_concat in Hx as (g' & Hg' & Hx).
    apply list_elem_of_In, list_elem_of_lookup in Hg' as [j Hj].
    apply (H 0 (S j) g g' x y); [lia|done|done| |done].
    by apply list_elem_of_In.
Qed.

(** Sorting a list already in [R]-order gives the lexicographic order:
    first by [less], then by [R]. *)
Context (asym : forall x y, less x y = true -> less y x = false).
Context (neg_trans : forall x y z, less x y = false -> less y z = false -> less x z = false).
Context (R : A -> A -> Prop).

Definition lex (a b : A) : Prop := less a b = true \/ (less b a = false /\ R a b).

Lemma lex_not_less a b : lex a b -> less b a = false.
Proof using asym. intros [H|[H _]]; auto. Qed.

Lemma insert_back_sorted x acc :
  StronglySorted (flip lex) acc ->
  (forall y, y ∈ acc -> R y x) ->
  StronglySorted (flip lex) (insert_back x acc).
Proof using asym neg_trans.
  induction acc as [|y ys IH]; intros Hs HR; simpl; [by repeat constructor|].
  apply StronglySorted_inv in Hs as [Hs Hy]. destruct (less x y) eqn:E.
  - constructor; [apply IH; [done|]; intros; apply HR; by right|].
    rewrite insert_back_perm. constructor; [by left|done].
  - constructor; [by constructor|]. rewrite Forall_forall in Hy |- *.
    intros z Hz. right. split; [|by apply HR].
    apply elem_of_cons in Hz as [->|Hz]; [done|].
    apply (neg_trans x y z E). by apply lex_not_less, Hy.
Qed.

Lemma sort_onto_sorted l acc :
  StronglySorted (flip lex) acc ->
  StronglySorted R l ->
  (forall y x, y ∈ acc -> x ∈ l -> R y x) ->
  StronglySorted (flip lex) (sort_onto acc l).
Proof using asym neg_trans.
  revert acc; induction l as [|x l IH]; intros acc Ha Hl HR; [done|].
  apply StronglySorted_inv in Hl as [Hl Hx]. rewrite Forall_forall in Hx.
  unfold sort_onto in *; simpl. apply IH; [|done|].
  - apply insert_back_sorted; [done|]. intros; apply HR; set_solver.
  - intros y z Hy Hz. rewrite insert_back_perm in Hy.
    apply elem_of_cons in Hy as [->|Hy]; [by apply Hx|]. apply HR; [done|by right].
Qed.

Lemma slice_stable_sorted l :
  StronglySorted R l -> StronglySorted lex (slice_stable l).
Proof using asym neg_trans.
  intros H. unfold slice_stable.
  assert (Hs : StronglySorted (flip lex) (sort_onto [] l)).
  { apply sort_onto_sorted; [constructor|done|set_solver]. }
  clear H. induction Hs as [|x acc Hs IH Hx]; [constructor|].
  rewrite reverse_cons. apply StronglySorted_app_2; [|done|by repeat constructor].
  rewrite Forall_forall in Hx. intros y z Hy Hz.
  rewrite elem_of_reverse in Hy. apply list_elem_of_singleton in Hz as ->.
  exact (Hx y Hy).
Qed.
End stable_sort.

(** A sort depends on the comparisons of the list's elements only. *)
Lemma insert_back_ext {A} (f g : A -> A -> bool) x acc :
  (forall y, y ∈ acc -> f x y = g x y) -> insert_back f x acc = insert_back g x acc.
Proof.
  induction acc as [|y ys IH]; intros H; simpl; [done|].
  rewrite H by (by left). destruct (g x y); [|done]. f_equal. apply IH. set_solver.
Qed.

Lemma slice_stable_ext {A} (f g : A -> A -> bool) l :
  (forall x y, x ∈ l -> y ∈ l -> f x y = g x y) -> slice_stable f l = slice_stable g l.
Proof.
  unfold slice_stable. intros H. f_equal.
  assert (Hgen : forall l' acc, (forall x, x ∈ l' -> x ∈ l) -> (forall x, x ∈ acc -> x ∈ l) ->
            sort_onto f acc l' = sort_onto g acc l'); [|by apply Hgen; set_solver].
  induction l' as [|x l' IH]; intros acc Hl Ha; [done|]. unfold sort_onto in *; simpl.
  rewrite (insert_back_ext f g x acc) by (intros y Hy; apply H; set_solver).
  apply IH; [set_solver|]. intros y Hy. rewrite insert_back_perm in Hy. set_solver.
Qed.

(** A strongly sorted list has a least head. *)
Lemma StronglySorted_head {A} (R : A -> A -> Prop) x l y :
  StronglySorted R (x :: l) -> y ∈ l -> R x y.
Proof. intros [_ H]%StronglySorted_inv Hy. by eapply Forall_forall in H. Qed.

Lemma StronglySorted_weaken {A} (R S : A -> A -> Prop) l :
  (forall x y, x ∈ l -> y ∈ l -> R x y -> S x y) -> StronglySorted R l -> StronglySorted S l.
Proof.
  intros HRS Hs. induction Hs as [|x l Hs IH Hx]; [constructor|]. constructor.
  - apply IH. intros; apply HRS; set_solver.
  - rewrite Forall_forall in Hx |- *. intros y Hy. apply HRS; set_solver.
Qed.

Lemma StronglySorted_true {A} (l : list A) : StronglySorted (fun _ _ => True) l.
Proof. induction l; constructor; [done|by apply Forall_true]. Qed.

(** ** Loops that collect

    [filter_map f l] is the Go loop that appends [f x] for the elements on
    which [f] gives a value and [continue]s on the others. *)
Fixpoint filter_map {A B} (f : A -> option B) (l : list A) : list B :=
  match l with
  | [] => []
  | x :: l => match f x with Some y => y :: filter_map f l | None => filter_map f l end
  end.

Lemma elem_of_filter_map {A B} (f : A -> option B) l y :
  y ∈ filter_map f l <-> exists x, x ∈ l /\ f x = Some y.
Proof.
  induction l as [|x l IH]; simpl; [set_solver|].
  destruct (f x) eqn:E; set_solver.
Qed.

Lemma filter_map_app {A B} (f : A -> option B) l1 l2 :
  filter_map f (l1 ++ l2) = filter_map f l1 ++ filter_map f l2.
Proof. induction l1 as [|x l IH]; simpl; [done|]. destruct (f x); simpl; by rewrite IH. Qed.

Lemma elem_of_Lfilter {A} (f : A -> bool) x l : x ∈ List.filter f l <-> x ∈ l /\ f x = true.
Proof. by rewrite !list_elem_of_In, filter_In. Qed.

(** The loop that returns the first value found. *)
Fixpoint find_map {A B} (f : A -> option B) (l : list A) : option B :=
  match l with
  | [] => None
  | x :: l => match f x with Some y => Some y | None => find_map f l end
  end.

Lemma find_map_Some {A B} (f : A -> option B) l y :
  find_map f l = Some y -> exists x, x ∈ l /\ f x = Some y.
Proof.
  induction l as [|x l IH]; simpl; [done|].
  destruct (f x) eqn:E; intros H; simplify_eq; [set_solver|]. set_solver.
Qed.

Lemma find_map_None {A B} (f : A -> option B) l :
  find_map f l = None <-> forall x, x ∈ l -> f x = None.
Proof.
  induction l as [|x l IH]; simpl; [set_solver|].
  destruct (f x) eqn:E; [|set_solver]. split; [done|]. intros H.
  rewrite (H x) in E; [done|by left].
Qed.

Lemma find_map_head {A B} (f : A -> option B) l : find_map f l = head (filter_map f l).
Proof. induction l as [|x l IH]; simpl; [done|]. by destruct (f x). Qed.

(** [imap] with the index first, for [for i, x := range l]. *)
Fixpoint enumerate_from {A} (n : Z) (l : list A) : list (Z * A) :=
  match l with [] => [] | x :: l => (n, x) :: enumerate_from (n + 1)%Z l end.
Abbreviation enumerate := (enumerate_from 0%Z).

(** [existsb]-style tests on lists of strings ([slices.Contains]). *)
Definition contains (l : list string) (s : string) : bool := bool_decide (s ∈ l).

Lemma contains_spec l s : contains l s = true <-> s ∈ l.
Proof. apply bool_decide_eq_true. Qed.

Lemma contains_false l s : contains l s = false <-> s ∉ l.
Proof. apply bool_decide_eq_false. Qed.
#[export] Hint Rewrite contains_spec contains_false : gobool.

(** ** Sublists *)

Lemma sublist_fmap {A B} (f : A -> B) l k : sublist l k -> sublist (f <$> l) (f <$> k).
Proof. induction 1; simpl; by constructor. Qed.

Lemma NoDup_key_inj {A B} (f : A -> B) l x y : NoDup (f <$> l) -> x ∈ l -> y ∈ l -> f x = f y -> x = y.
Proof.
  induction l as [|z l IH]; simpl; [set_solver|]. rewrite NoDup_cons. intros [Hz Hn] Hx Hy E.
  apply elem_of_cons in Hx as [->|Hx]; apply elem_of_cons in Hy as [->|Hy]; [done| | |by apply IH].
  - destruct Hz. apply list_elem_of_fmap. by exists y.
  - destruct Hz. apply list_elem_of_fmap. by exists x.
Qed.

Lemma NoDup_fmap_sublist {A B} (f : A -> B) l k : sublist l k -> NoDup (f <$> k) -> NoDup (f <$> l).
Proof. intros H Hn. eapply sublist_NoDup; [exact Hn|]. by apply sublist_fmap. Qed.
