(* ===== verification/GoStrings.v ===== *)
(** * GoStrings: the parts of Go's [strings], [strconv] and [time] packages the
    sources use.

    A Go string is a byte sequence, as is Rocq's [string]. *)

From Stdlib Require Import Ascii.
From stdpp Require Import base list strings.
From Stdlib Require Import ZArith Lia DecimalString DecimalN DecimalZ.
From S2P Require Import Prelude.



(** ** package strings *)

Fixpoint has_prefix (p s : string) : bool :=
  match p, s with
  | EmptyString, _ => true
  | String a p', String b s' => Ascii.eqb a b && has_prefix p' s'
  | _, EmptyString => false
  end.

(** [strings.CutPrefix]. *)
Fixpoint cut_prefix (p s : string) : option string :=
  match p, s with
  | EmptyString, _ => Some s
  | String a p', String b s' => if Ascii.eqb a b then cut_prefix p' s' else None
  | _, EmptyString => None
  end.

(** [strings.Cut(s, sep)] on a one-byte separator: before, after, found. *)
Fixpoint cut (sep : ascii) (s : string) : string * string * bool :=
  match s with
  | EmptyString => ("", "", false)
  | String c s' =>
      if Ascii.eqb c sep then ("", s', true)
      else match cut sep s' with (b, a, f) => (String c b, a, f) end
  end.

(** [strings.Split(s, sep)]: never empty, [Split "" sep] is [[""]]. *)
Fixpoint split (sep : ascii) (s : string) : list string :=
  match s with
  | EmptyString => [""]
  | String c s' =>
      if Ascii.eqb c sep then "" :: split sep s'
      else match split sep s' with
           | w :: ws => String c w :: ws
           | [] => [String c ""]
           end
  end.

(** [strings.SplitN(s, sep, n)] for [n > 0]. *)
Fixpoint split_n (n : nat) (sep : ascii) (s : string) : list string :=
  match n with
  | 0 => []
  | 1 => [s]
  | S m => match cut sep s with
           | (b, a, true) => b :: split_n m sep a
           | (b, _, false) => [b]
           end
  end.

Definition count (c : ascii) (s : string) : nat := pred (length (split c s)).

Fixpoint join (sep : string) (l : list string) : string :=
  match l with
  | [] => ""
  | [s] => s
  | s :: l => s +:+ sep +:+ join sep l
  end.

(** [s[:n]] for [n <= len(s)]. *)
Definition slice_to (n : nat) (s : string) : string := String.substring 0 n s.

(** *** strings.TrimSpace

    The UTF-8 encodings of the code points [unicode.IsSpace] accepts.  A space
    code point starts (ends) a string exactly when its encoding is a prefix
    (suffix) of it. *)
Definition bytes (l : list nat) : string := String.string_of_list_ascii (map ascii_of_nat l).

Definition space_encodings : list string :=
  map bytes
    ([[9]; [10]; [11]; [12]; [13]; [32]; [194; 133]; [194; 160]; [225; 154; 128]]
     ++ map (fun i => [226; 128; 128 + i]) (seq 0 11)
     ++ [[226; 128; 168]; [226; 128; 169]; [226; 128; 175]; [226; 129; 159]; [227; 128; 128]]).

Fixpoint trim_left_fuel (encs : list string) (fuel : nat) (s : string) : string :=
  match fuel with
  | 0 => s
  | S fuel =>
      match find_map (fun e => cut_prefix e s) encs with
      | Some s' => trim_left_fuel encs fuel s'
      | None => s
      end
  end.

(** Every encoding is at least one byte long, so [String.length s] rounds
    exhaust the spaces. *)
Definition trim_left (encs : list string) (s : string) : string :=
  trim_left_fuel encs (String.length s) s.

Definition rev_string (s : string) : string :=
  String.string_of_list_ascii (reverse (String.list_ascii_of_string s)).

Definition trim_space (s : string) : string :=
  let s := trim_left space_encodings s in
  rev_string (trim_left (map rev_string space_encodings) (rev_string s)).

(** [strings.Fields]: the words between spaces.  Every word is at least one
    byte long, so the length of the string is enough fuel. *)
Fixpoint take_word (s : string) : string * string :=
  match s with
  | "" => ("", "")
  | String c s' =>
      if existsb (fun e => has_prefix e s) space_encodings then ("", s)
      else let '(word, rest) := take_word s' in (String c word, rest)
  end.

Fixpoint fields_fuel (fuel : nat) (s : string) : list string :=
  match fuel with
  | 0 => []
  | S fuel =>
      match trim_left space_encodings s with
      | "" => []
      | s => let '(word, rest) := take_word s in word :: fields_fuel fuel rest
      end
  end.

Definition fields (s : string) : list string := fields_fuel (String.length s) s.

(** [strings.ToLower] on the ASCII letters; the callers compare the result
    with ASCII constants. *)
Definition lower_ascii (c : ascii) : ascii :=
  let n := nat_of_ascii c in
  if (65 <=? n)%nat && (n <=? 90)%nat then ascii_of_nat (n + 32) else c.

Fixpoint to_lower (s : string) : string :=
  match s with "" => "" | String c s' => String (lower_ascii c) (to_lower s') end.

Fixpoint all_bytes (f : ascii -> bool) (s : string) : bool :=
  match s with "" => true | String c s' => f c && all_bytes f s' end.

Definition is_digit (c : ascii) : bool :=
  let n := nat_of_ascii c in (48 <=? n)%nat && (n <=? 57)%nat.

(** [strings.EqualFold] against an ASCII string.  The letters k and s have one
    more case variant each, U+212A and U+017F. *)
Fixpoint fold_ascii (s : string) : string :=
  match s with
  | "" => ""
  | String c s' =>
      match s' with
      | String d s'' =>
          if (nat_of_ascii c =? 197)%nat && (nat_of_ascii d =? 191)%nat then String "s" (fold_ascii s'')
          else match s'' with
               | String e s3 =>
                   if (nat_of_ascii c =? 226)%nat && (nat_of_ascii d =? 132)%nat && (nat_of_ascii e =? 170)%nat
                   then String "k" (fold_ascii s3)
                   else String (lower_ascii c) (fold_ascii s')
               | "" => String (lower_ascii c) (fold_ascii s')
               end
      | "" => String (lower_ascii c) ""
      end
  end.

Definition EqualFold (s t : string) : bool := (fold_ascii s =? fold_ascii t)%string.

(** ** package strconv *)

(** [strconv.Itoa], [%d]. *)
Definition itoa (z : Z) : string := NilZero.string_of_int (Z.to_int z).

Definition max_int64 : Z := 2 ^ 63 - 1.
Definition min_int64 : Z := - 2 ^ 63.

Definition in_int64 (z : Z) : bool := (min_int64 <=? z)%Z && (z <=? max_int64)%Z.

Definition digits_value (s : string) : option Z :=
  match s with
  | "" => None
  | _ => Z.of_uint <$> NilEmpty.uint_of_string s
  end.

(** [strconv.Atoi]: an optional sign, decimal digits, and the int64 range. *)
Definition atoi (s : string) : option Z :=
  let v := match s with
           | String "+" s' => digits_value s'
           | String "-" s' => Z.opp <$> digits_value s'
           | _ => digits_value s
           end in
  match v with Some z => if in_int64 z then Some z else None | None => None end.

(** ** package fmt: error messages *)

(** A message: a format string and what it prints. *)
Inductive why : Type :=
| Text (s : string)
| Fmt (format : string) (args : list why).
