(* ===== verification/StringFacts.v ===== *)
(** * StringFacts: splitting, cutting and trimming strings *)

From Stdlib Require Import Ascii Lia.
From stdpp Require Import base list strings.
From S2P Require Import Prelude GoStrings.

#[local] Arguments String.append : simpl nomatch.

(** ** Concatenation *)

Lemma append_assoc s1 s2 s3 : (s1 +:+ s2) +:+ s3 = s1 +:+ (s2 +:+ s3).
Proof. induction s1 as [|c s1 IH]; simpl; [done|]. f_equal. exact IH. Qed.

Lemma append_nil s : s +:+ "" = s.
Proof. induction s as [|c s IH]; simpl; [done|]. f_equal. exact IH. Qed.

Lemma append_length s1 s2 : String.length (s1 +:+ s2) = (String.length s1 + String.length s2).
Proof. induction s1 as [|c s1 IH]; simpl; [done|]. f_equal. exact IH. Qed.

Lemma append_not_empty s1 s2 : s1 <> "" -> s1 +:+ s2 <> "".
Proof. by destruct s1. Qed.

(** ** Cut and split *)

Lemma all_bytes_app f a b : all_bytes f (a +:+ b) = all_bytes f a && all_bytes f b.
Proof. induction a as [|c a IH]; simpl; [done|]. rewrite <- andb_assoc. f_equal. exact IH. Qed.

(** The byte [c] does not occur in [s]. *)
Definition free (c : ascii) (s : string) : bool := all_bytes (fun d => negb (Ascii.eqb d c)) s.

Lemma cut_found c s R :
  all_bytes (fun d => negb (Ascii.eqb d c)) s = true -> cut c (s +:+ String c R) = (s, R, true).
Proof.
  induction s as [|d s IH]; simpl; [by rewrite Ascii.eqb_refl|].
  intros [Hd Hs]%andb_true_iff. apply negb_true_iff in Hd. by rewrite Hd, IH.
Qed.

Lemma split_not_nil c s : split c s <> [].
Proof. destruct s as [|d s]; simpl; [done|]. destruct (Ascii.eqb d c); [done|]. by destruct (split c s). Qed.

Lemma split_free c s : free c s = true -> split c s = [s].
Proof.
  induction s as [|d s IH]; simpl; [done|]. intros [Hd Hs]%andb_true_iff. apply negb_true_iff in Hd.
  by rewrite Hd, (IH Hs).
Qed.

Lemma split_sep c a b : free c a = true -> split c (a +:+ String c b) = a :: split c b.
Proof.
  induction a as [|d a IH]; simpl; [by rewrite Ascii.eqb_refl|]. intros [Hd Ha]%andb_true_iff.
  apply negb_true_iff in Hd. by rewrite Hd, (IH Ha).
Qed.

Lemma split_elem_free c s w : w ∈ split c s -> free c w = true.
Proof.
  unfold free. revert w. induction s as [|d s IH]; intros w; simpl; [by intros ->%list_elem_of_singleton|].
  destruct (Ascii.eqb d c) eqn:Hd; [intros [->|Hw]%elem_of_cons; [done|by apply IH]|].
  destruct (split c s) as [|w0 ws] eqn:Es; intros [->|Hw]%elem_of_cons.
  - simpl. by rewrite Hd.
  - by apply not_elem_of_nil in Hw.
  - simpl. rewrite Hd. apply IH. by left.
  - apply IH. by right.
Qed.

(** The first part of a split starts the string. *)
Lemma split_head c s w ws : split c s = w :: ws -> (ws = [] /\ s = w) \/ exists s', s = w +:+ String c s' /\ split c s' = ws.
Proof.
  revert w. induction s as [|d s IH]; intros w; simpl; [intros [= <- <-]; by left|].
  destruct (Ascii.eqb_spec d c) as [->|]; [intros [= <- <-]; right; by exists s|].
  destruct (split c s) as [|w0 ws0] eqn:Es; [by destruct (split_not_nil c s)|]. intros [= <- <-].
  destruct (IH w0 eq_refl) as [[-> ->]|(s' & -> & Hs)]; [by left|]. right. by exists s'.
Qed.

Lemma split_n_exact s a b d : split "." s = [a; b; d] -> split_n 3 "." s = [a; b; d].
Proof.
  intros H. assert (Hf : forall w, w ∈ [a; b; d] -> free "." w = true) by (intros w; rewrite <- H; apply split_elem_free).
  destruct (split_head _ _ _ _ H) as [[? _]|(s1 & -> & H1)]; [done|].
  destruct (split_head _ _ _ _ H1) as [[? _]|(s2 & -> & H2)]; [done|].
  destruct (split_head _ _ _ _ H2) as [[_ ->]|(s3 & _ & H3)]; [|by destruct (split_not_nil "." s3)].
  assert (Ha := Hf a ltac:(by left)). assert (Hb := Hf b ltac:(by right; left)). unfold free in Ha, Hb.
  simpl. by rewrite cut_found, cut_found.
Qed.

(** ** Trimming *)

Lemma cut_prefix_spec e s z : cut_prefix e s = Some z <-> s = e +:+ z.
Proof.
  revert s. induction e as [|c e IH]; intros s; simpl; [naive_solver|].
  destruct s as [|d s]; [done|]. destruct (Ascii.eqb_spec c d) as [->|Hne].
  - rewrite IH. split; [by intros ->|by intros [= ->]].
  - split; [done|]. intros [= ? _]. congruence.
Qed.

Lemma cut_prefix_app e a b z : cut_prefix e a = Some z -> cut_prefix e (a +:+ b) = Some (z +:+ b).
Proof. rewrite !cut_prefix_spec. intros ->. apply append_assoc. Qed.

Lemma cut_prefix_before c e a b z :
  free c e = true -> cut_prefix e (a +:+ String c b) = Some z -> is_Some (cut_prefix e a).
Proof.
  unfold free. revert a. induction e as [|d e IH]; intros a; simpl; [by eexists|]. intros [Hd He]%andb_true_iff.
  apply negb_true_iff in Hd. destruct a as [|x a]; simpl; [by rewrite Hd|].
  destruct (Ascii.eqb d x); [by apply IH|done].
Qed.

Section trim.
Context (encs : list string).

Lemma trim_left_fuel_le n s : String.length (trim_left_fuel encs n s) <= String.length s.
Proof.
  revert s. induction n as [|n IH]; intros s; simpl; [done|].
  destruct (find_map _ encs) as [s'|] eqn:E; [|done]. apply find_map_Some in E as (e & _ & He).
  apply cut_prefix_spec in He as ->. rewrite append_length. specialize (IH s'). lia.
Qed.

Lemma trim_left_fixed s e : "" ∉ encs -> e ∈ encs -> trim_left encs s = s -> cut_prefix e s = None.
Proof.
  intros He Hin Ht. destruct (cut_prefix e s) as [z|] eqn:Hz; [|done]. exfalso.
  unfold trim_left in Ht. destruct s as [|c s0].
  { destruct e; [done|]. done. }
  set (s := String c s0) in *. change (String.length s) with (S (String.length s0)) in Ht. simpl in Ht.
  destruct (find_map (fun e => cut_prefix e s) encs) as [s'|] eqn:E.
  - apply find_map_Some in E as (e' & Hin' & He'). apply cut_prefix_spec in He'.
    pose proof (trim_left_fuel_le (String.length s0) s') as Hl. rewrite Ht, He', append_length in Hl.
    destruct e'; [done|]. simpl in Hl. lia.
  - rewrite find_map_None in E. by rewrite (E e Hin) in Hz.
Qed.

Lemma trim_left_length s :
  "" ∉ encs -> String.length s <= String.length (trim_left encs s) -> trim_left encs s = s.
Proof.
  intros He. unfold trim_left. destruct (String.length s) as [|n] eqn:En; [done|]. simpl.
  destruct (find_map (fun e => cut_prefix e s) encs) as [s'|] eqn:E; [|done]. intros Hl. exfalso.
  apply find_map_Some in E as (e & Hin & Hs). apply cut_prefix_spec in Hs as ->. rewrite append_length in En.
  pose proof (trim_left_fuel_le n s'). destruct e; [done|]. simpl in En. lia.
Qed.

Lemma trim_left_none s : (forall e, e ∈ encs -> cut_prefix e s = None) -> trim_left encs s = s.
Proof.
  intros H. unfold trim_left. destruct (String.length s); [done|]. simpl.
  assert (find_map (fun e => cut_prefix e s) encs = None) as -> by (by apply find_map_None). done.
Qed.
End trim.

(** *** Reversal *)

Lemma rev_string_app a b : rev_string (a +:+ b) = rev_string b +:+ rev_string a.
Proof.
  unfold rev_string.
  assert (Hl : forall a b, String.list_ascii_of_string (a +:+ b) = String.list_ascii_of_string a ++ String.list_ascii_of_string b).
  { intros x y. induction x as [|c x IH]; simpl; [done|]. by f_equal. }
  assert (Hs : forall x y, String.string_of_list_ascii (x ++ y) = String.string_of_list_ascii x +:+ String.string_of_list_ascii y).
  { intros x y. induction x as [|c x IH]; simpl; [done|]. by f_equal. }
  by rewrite Hl, reverse_app, Hs.
Qed.

Lemma rev_string_involutive s : rev_string (rev_string s) = s.
Proof.
  unfold rev_string. rewrite String.list_ascii_of_string_of_list_ascii, reverse_involutive.
  apply String.string_of_list_ascii_of_string.
Qed.

Lemma rev_string_length s : String.length (rev_string s) = String.length s.
Proof.
  assert (Hl : forall s, length (String.list_ascii_of_string s) = String.length s).
  { intros x. induction x as [|c x IH]; simpl; [done|]. by f_equal. }
  rewrite <- !Hl. unfold rev_string. by rewrite String.list_ascii_of_string_of_list_ascii, length_reverse.
Qed.

(** A visible ASCII byte; no space encoding starts or ends with one. *)
Definition visible (c : ascii) : bool := let n := nat_of_ascii c in (33 <=? n) && (n <=? 126).

Lemma cut_prefix_first p c s : (match p with String d _ => negb (Ascii.eqb d c) | "" => false end) = true ->
  cut_prefix p (String c s) = None.
Proof. destruct p as [|d p]; [done|]. simpl. destruct (Ascii.eqb d c); done. Qed.

Definition starts_invisible (p : string) : bool :=
  match p with String d _ => negb (visible d) | "" => false end.

Lemma spaces_invisible :
  forallb starts_invisible space_encodings && forallb starts_invisible (map rev_string space_encodings) = true.
Proof. vm_compute. reflexivity. Qed.

Lemma cut_prefix_visible p c s : starts_invisible p = true -> visible c = true -> cut_prefix p (String c s) = None.
Proof.
  intros Hp Hc. apply cut_prefix_first. destruct p as [|d p]; [done|]. simpl in Hp.
  destruct (Ascii.eqb_spec d c) as [->|]; [|done]. by rewrite Hc in Hp.
Qed.

Lemma encs_not_empty encs : forallb starts_invisible encs = true -> "" ∉ encs.
Proof. intros H Hin. rewrite forallb_forall in H. apply list_elem_of_In, H in Hin. done. Qed.

(** A string that starts with no space and ends in a visible byte. *)
Lemma trim_space_fixed s s' c :
  s = s' +:+ String c "" -> visible c = true ->
  (forall e, e ∈ space_encodings -> cut_prefix e s = None) -> trim_space s = s.
Proof.
  intros -> Hc Hs. unfold trim_space. rewrite (trim_left_none space_encodings) by done.
  rewrite rev_string_app. change (rev_string (String c "")) with (String c "").
  change (String c "" +:+ rev_string s') with (String c (rev_string s')).
  rewrite (trim_left_none (map rev_string space_encodings)).
  - change (String c (rev_string s')) with (String c "" +:+ rev_string s').
    change (String c "") with (rev_string (String c "")) at 1.
    rewrite <- rev_string_app. apply rev_string_involutive.
  - intros e He. apply cut_prefix_visible; [|done].
    pose proof spaces_invisible as [_ Hi]%andb_true_iff. rewrite forallb_forall in Hi. by apply Hi, list_elem_of_In.
Qed.

Lemma trim_space_start s e : trim_space s = s -> e ∈ space_encodings -> cut_prefix e s = None.
Proof.
  intros Ht He.
  assert (Hne : "" ∉ space_encodings) by (apply encs_not_empty; by pose proof spaces_invisible as [? _]%andb_true_iff).
  apply (trim_left_fixed space_encodings); [done|done|]. apply trim_left_length; [done|].
  assert (Hl := f_equal String.length Ht). unfold trim_space in Hl. rewrite rev_string_length in Hl.
  rewrite <- Hl. rewrite <- (rev_string_length (trim_left space_encodings s)). apply trim_left_fuel_le.
Qed.
