(* ===== verification/GoValue.v ===== *)
(** * GoValue: Go's [any] as produced by the JSON and CBOR decoders.

    A decoded document is a tree of [map[string]any], [[]any] and scalars.
    Type assertions such as [v.(string)] become partial projections, and
    [m[k]] on a missing key reads [nil].  Numbers are IEEE-754 doubles
    ([SpecFloat.spec_float]) when they come from JSON; CBOR integers keep
    their Go integer type. *)

From Stdlib Require Import Ascii ZArith Lia SpecFloat.
From stdpp Require Import base list strings gmap.
From S2P Require Import Prelude GoStrings.

(** ** float64 *)

Abbreviation float64 := spec_float.

(** [float64(z)]: round to nearest, ties to even. *)
Definition float64_of_Z (z : Z) : float64 := binary_normalize 53 1024 z 0 false.

(** The truncation of [m * 2^e]. *)
Definition trunc_mag (m : positive) (e : Z) : Z :=
  if (0 <=? e)%Z then Z.pos m * 2 ^ e else Z.pos m / 2 ^ (- e).

(** [int(f)] and [int64(f)] on amd64, where an unrepresentable value (NaN,
    infinities, out of range) converts to the least int64. *)
Definition int_of_float64 (f : float64) : Z :=
  match f with
  | S754_zero _ => 0
  | S754_finite s m e =>
      let z := if s then (- trunc_mag m e)%Z else trunc_mag m e in
      if in_int64 z then z else min_int64
  | _ => min_int64
  end.

(** Go's [==], [<] and [<=] on float64. *)
Definition f64_eqb : float64 -> float64 -> bool := SFeqb.
Definition f64_ltb : float64 -> float64 -> bool := SFltb.
Definition f64_leb : float64 -> float64 -> bool := SFleb.

(** [f] is a double whose exact value is the integer [z]. *)
Definition f64_is_int (f : float64) (z : Z) : Prop :=
  match f with
  | S754_zero false => z = 0%Z
  | S754_finite s m e =>
      if (0 <=? e)%Z then z = ((if s then -1 else 1) * (Z.pos m * 2 ^ e))%Z
      else (z * 2 ^ (- e) = (if s then -1 else 1) * Z.pos m)%Z
  | _ => False
  end.

(** *** strconv.FormatFloat(f, 'f', -1, 64)

    The shortest decimal [d * 10^k] inside the rounding interval of
    [m * 2^e]: the interval's bounds are half-way to the neighbouring doubles
    and belong to it when [m] is even.  [k] runs down from 309 (the largest
    double is below 10^309) and at [k = -325] every double is a candidate. *)
Definition scale_num (k e : Z) : Z := 10 ^ Z.max 0 k * 2 ^ Z.max 0 (- e).
Definition scale_den (k e : Z) : Z := 2 ^ Z.max 0 e * 10 ^ Z.max 0 (- k).

Definition shortest_at (m : positive) (e k : Z) : option Z :=
  let v := (4 * Z.pos m)%Z in
  let lo := (if (Z.pos m =? 2 ^ 52)%Z && (-1074 <? e)%Z then v - 1 else v - 2)%Z in
  let hi := (v + 2)%Z in
  let incl := Z.even (Z.pos m) in
  let P := scale_num k (e - 2) in
  let Q := scale_den k (e - 2) in
  let d := (v * Q / P)%Z in
  let okdown := (lo * Q <? d * P)%Z || (incl && (lo * Q =? d * P)%Z) in
  let okup := ((d + 1) * P <? hi * Q)%Z || (incl && ((d + 1) * P =? hi * Q)%Z) in
  let down := (v * Q - d * P)%Z in
  let up := ((d + 1) * P - v * Q)%Z in
  match okdown, okup with
  | true, true =>
      Some (if (down <? up)%Z then d
            else if (up <? down)%Z then (d + 1)%Z
            else if Z.even d then d else (d + 1)%Z)
  | true, false => Some d
  | false, true => Some (d + 1)%Z
  | false, false => None
  end.

Fixpoint shortest_from (fuel : nat) (m : positive) (e k : Z) : Z * Z :=
  match shortest_at m e k with
  | Some d => (d, k)
  | None => match fuel with
            | 0 => (0%Z, k)
            | S fuel => shortest_from fuel m e (k - 1)
            end
  end.

Definition drop_first (s : string) : string :=
  match s with "" => "" | String _ s' => s' end.

Definition format_decimal (d k : Z) : string :=
  if (0 <=? k)%Z then itoa (d * 10 ^ k)
  else itoa (d / 10 ^ (- k)) +:+ "." +:+ drop_first (itoa (10 ^ (- k) + d mod 10 ^ (- k))).

Definition format_float (f : float64) : string :=
  match f with
  | S754_zero s => if s then "-0" else "0"
  | S754_infinity s => if s then "-Inf" else "+Inf"
  | S754_nan => "NaN"
  | S754_finite s m e =>
      let '(d, k) := shortest_from 634 m e 309 in
      (if s then "-" else "") +:+ format_decimal d k
  end.

(** ** any *)

(** The Go integer types the CBOR decoder and the wallet put into an [any]. *)
Inductive int_kind : Set :=
| KInt | KInt8 | KInt16 | KInt32 | KInt64
| KUint | KUint8 | KUint16 | KUint32 | KUint64.

#[global] Instance int_kind_eq_dec : EqDecision int_kind.
Proof. solve_decision. Defined.

(** An object is a list of its members with distinct keys (the decoder keeps
    the last of several members with one name).  A [time.Time] is its Unix
    time in seconds. *)
Inductive value : Type :=
| VNil
| VBool (b : bool)
| VFloat (f : float64)
| VFloat32 (f : float64)
| VInt (k : int_kind) (z : Z)
| VNumber (lit : string)
| VString (s : string)
| VBytes (b : string)
| VTime (unix : Z)
| VArr (l : list value)
| VObj (m : list (string * value)).

Abbreviation object := (list (string * value)).

(** Induction through the nested lists. *)
Section value_ind.
Context (P : value -> Prop).
Context (HNil : P VNil) (HBool : forall b, P (VBool b)) (HFloat : forall f, P (VFloat f))
  (HFloat32 : forall f, P (VFloat32 f)) (HInt : forall k z, P (VInt k z))
  (HNumber : forall s, P (VNumber s)) (HString : forall s, P (VString s))
  (HBytes : forall s, P (VBytes s)) (HTime : forall t, P (VTime t))
  (HArr : forall l, Forall P l -> P (VArr l))
  (HObj : forall m, Forall (fun kv => P (snd kv)) m -> P (VObj m)).

Fixpoint value_ind' (v : value) : P v :=
  match v with
  | VNil => HNil | VBool b => HBool b | VFloat f => HFloat f | VFloat32 f => HFloat32 f
  | VInt k z => HInt k z | VNumber s => HNumber s | VString s => HString s
  | VBytes s => HBytes s | VTime t => HTime t
  | VArr l => HArr l ((fix go l : Forall P l :=
                         match l with
                         | [] => List.Forall_nil _
                         | x :: l => List.Forall_cons _ _ _ (value_ind' x) (go l)
                         end) l)
  | VObj m => HObj m ((fix go m : Forall (fun kv => P (snd kv)) m :=
                         match m with
                         | [] => List.Forall_nil _
                         | x :: m => List.Forall_cons _ _ _ (value_ind' (snd x)) (go m)
                         end) m)
  end.
End value_ind.

(** ** Objects *)

(** [v, ok := m[k]]. *)
Fixpoint get (k : string) (m : object) : option value :=
  match m with
  | [] => None
  | (k', v) :: m => if String.eqb k k' then Some v else get k m
  end.

(** [m[k]]: the zero value [nil] when the key is missing. *)
Definition index (m : object) (k : string) : value := default VNil (get k m).

(** [m[k] = v]. *)
Fixpoint set (k : string) (v : value) (m : object) : object :=
  match m with
  | [] => [(k, v)]
  | (k', v') :: m => if String.eqb k k' then (k, v) :: m else (k', v') :: set k v m
  end.

Definition keys (m : object) : list string := map fst m.

Definition wf_object (m : object) : Prop := NoDup (keys m).

(** ** Type assertions *)

Definition as_string (v : value) : option string :=
  match v with VString s => Some s | _ => None end.
Definition as_bool (v : value) : option bool :=
  match v with VBool b => Some b | _ => None end.
Definition as_float64 (v : value) : option float64 :=
  match v with VFloat f => Some f | _ => None end.
Definition as_arr (v : value) : option (list value) :=
  match v with VArr l => Some l | _ => None end.
Definition as_obj (v : value) : option object :=
  match v with VObj m => Some m | _ => None end.

(** [s, _ := m[k].(string)] and its siblings: the zero value when the
    assertion fails.  A nil map or slice reads like an empty one. *)
Definition get_string (m : object) (k : string) : string := default "" (as_string (index m k)).
Definition get_arr (m : object) (k : string) : list value := default [] (as_arr (index m k)).
Definition get_obj (m : object) (k : string) : object := default [] (as_obj (index m k)).

(** The strings of a slice: [for _, v := range l { if s, ok := v.(string); ok ... }]. *)
Definition strings_of (l : list value) : list string := filter_map as_string l.

(** ** Lemmas on objects *)

Lemma get_set_eq k v m : get k (set k v m) = Some v.
Proof.
  induction m as [|[k' v'] m IH]; simpl; [by rewrite String.eqb_refl|].
  destruct (String.eqb k k') eqn:E; simpl; [by rewrite String.eqb_refl|by rewrite E].
Qed.

Lemma get_set_ne k k' v m : k <> k' -> get k (set k' v m) = get k m.
Proof.
  intros Hne. induction m as [|[k0 v0] m IH]; simpl.
  - destruct (String.eqb_spec k k'); [done|done].
  - destruct (String.eqb_spec k' k0) as [->|]; simpl.
    + by destruct (String.eqb_spec k k0).
    + by rewrite IH.
Qed.

Lemma get_set k k' v m :
  get k (set k' v m) = if String.eqb k k' then Some v else get k m.
Proof.
  destruct (String.eqb_spec k k') as [->|]; [apply get_set_eq|by apply get_set_ne].
Qed.

Lemma get_None_keys k m : get k m = None <-> k ∉ keys m.
Proof.
  induction m as [|[k' v] m IH]; simpl; [set_solver|].
  destruct (String.eqb_spec k k') as [->|]; [set_solver|]. rewrite IH. set_solver.
Qed.

Lemma get_Some_In k v m : get k m = Some v -> (k, v) ∈ m.
Proof.
  induction m as [|[k' v'] m IH]; simpl; [done|].
  destruct (String.eqb_spec k k') as [->|]; intros ?; simplify_eq; set_solver.
Qed.

Lemma In_get_Some k v m : wf_object m -> (k, v) ∈ m -> get k m = Some v.
Proof.
  unfold wf_object. induction m as [|[k' v'] m IH]; simpl; [set_solver|].
  rewrite NoDup_cons. intros [Hk Hm] Hin.
  apply elem_of_cons in Hin as [[= -> ->]|Hin]; [by rewrite String.eqb_refl|].
  destruct (String.eqb_spec k k') as [->|]; [|by apply IH].
  exfalso. apply Hk. apply list_elem_of_fmap. by exists (k', v).
Qed.

Lemma keys_set k v m : forall k', k' ∈ keys (set k v m) <-> k' = k \/ k' ∈ keys m.
Proof.
  induction m as [|[k0 v0] m IH]; intros k'; simpl; [set_solver|].
  destruct (String.eqb_spec k k0) as [->|]; simpl; [set_solver|].
  rewrite !elem_of_cons, IH. naive_solver.
Qed.

Lemma wf_set k v m : wf_object m -> wf_object (set k v m).
Proof.
  unfold wf_object. induction m as [|[k0 v0] m IH]; simpl; [intros; repeat constructor; set_solver|].
  rewrite NoDup_cons. intros [H1 H2]. destruct (String.eqb_spec k k0) as [->|]; simpl.
  - by constructor.
  - constructor; [|by apply IH]. rewrite keys_set. naive_solver.
Qed.

#[export] Hint Resolve get_set_eq wf_set : godb.
#[export] Hint Rewrite get_set_eq : gobool.

(** ** Numbers *)

(** *** numericClaimValue (internal/wallet/dcql.go) *)
Definition numericClaimValue (v : value) : option float64 :=
  match v with
  | VFloat f => Some f
  | VFloat32 f => Some f
  | VInt _ z => Some (float64_of_Z z)
  | _ => None
  end.
