(* ===== verification/Numbers.v ===== *)
(** * Numbers: decimal text of machine numbers

    [strconv.Itoa] followed by [strconv.Atoi] is the identity on int64, and
    [strconv.FormatFloat(f, 'f', -1, 64)] writes a double that holds an
    integer below 2^53 as that integer's digits. *)

From Stdlib Require Import Ascii ZArith Lia SpecFloat DecimalString DecimalFacts DecimalPos DecimalZ.
From stdpp Require Import base list strings.
From S2P Require Import Prelude GoStrings GoValue.

Local Open Scope Z_scope.

(** ** Itoa and Atoi *)

Lemma all_bytes_uint d : all_bytes is_digit (NilEmpty.string_of_uint d) = true.
Proof. induction d; simpl; done. Qed.

Lemma itoa_pos p : itoa (Zpos p) = NilEmpty.string_of_uint (Pos.to_uint p).
Proof.
  unfold itoa. simpl. unfold NilZero.string_of_uint.
  pose proof (Unsigned.to_uint_nonnil p). by destruct (Pos.to_uint p).
Qed.

Lemma itoa_digits z : 0 <= z -> all_bytes is_digit (itoa z) = true /\ itoa z <> "".
Proof.
  intros Hz. destruct z as [|p|p]; [done| |lia]. rewrite itoa_pos. split; [apply all_bytes_uint|].
  pose proof (Unsigned.to_uint_nonnil p). by destruct (Pos.to_uint p).
Qed.

Lemma atoi_digits s : all_bytes is_digit s = true -> s <> "" ->
  atoi s = match digits_value s with Some z => if in_int64 z then Some z else None | None => None end.
Proof.
  destruct s as [|c s]; [done|]. simpl. intros [Hc _]%andb_true_iff _.
  destruct c as [[] [] [] [] [] [] [] []]; try done.
Qed.

Lemma digits_value_itoa z : 0 <= z -> digits_value (itoa z) = Some z.
Proof.
  intros Hz. destruct z as [|p|p]; [done| |lia]. destruct (itoa_digits (Zpos p) Hz) as [_ Hne].
  unfold digits_value. destruct (itoa (Zpos p)) eqn:E; [done|]. rewrite <- E, itoa_pos, NilEmpty.usu.
  simpl. f_equal. unfold Z.of_uint. by rewrite Unsigned.of_to.
Qed.

Lemma atoi_itoa z : 0 <= z <= max_int64 -> atoi (itoa z) = Some z.
Proof.
  intros [Hz Hm]. destruct (itoa_digits z Hz) as [Hd Hne].
  rewrite (atoi_digits _ Hd Hne), digits_value_itoa by done. unfold in_int64, min_int64.
  destruct (Z.leb_spec (- 2 ^ 63) z); [|lia]. destruct (Z.leb_spec z max_int64); [done|lia].
Qed.

(** ** FormatFloat *)

(** [f] is the double of the non-negative integer [z] below 2^53. *)
Definition index_float (f : float64) (z : Z) : Prop :=
  valid_binary 53 1024 f = true /\ 0 <= z < 2 ^ 53 /\ f64_is_int f z.

Lemma digits2_pos_lower m : 2 ^ (Zpos (digits2_pos m) - 1) <= Zpos m.
Proof.
  induction m as [m IH|m IH|]; simpl digits2_pos; [| |done].
  - rewrite Pos2Z.inj_succ. replace (Z.succ _ - 1) with (Z.succ (Z.pos (digits2_pos m) - 1)) by lia.
    rewrite Z.pow_succ_r by lia. lia.
  - rewrite Pos2Z.inj_succ. replace (Z.succ _ - 1) with (Z.succ (Z.pos (digits2_pos m) - 1)) by lia.
    rewrite Z.pow_succ_r by lia. lia.
Qed.

(** Its exponent is not positive, by canonicity. *)
Lemma index_float_cases f z :
  index_float f z ->
  (f = S754_zero false /\ z = 0) \/
  (exists m e, f = S754_finite false m e /\ e <= 0 /\ z * 2 ^ (- e) = Zpos m).
Proof.
  intros (Hv & Hz & Hi). destruct f as [[]|[]| |s m e]; simpl in *; try done; [by left|]. right.
  destruct s.
  { exfalso. destruct (Z.leb_spec 0 e); nia. }
  exists m, e. split; [done|]. destruct (Z.leb_spec 0 e) as [He|He].
  - destruct (decide (e = 0)) as [->|]; [split; [lia|]; simpl; lia|]. exfalso.
    apply andb_true_iff in Hv as [Hc _]. unfold canonical_mantissa in Hc.
    apply Z.eqb_eq in Hc. unfold fexp, SpecFloat.emin in Hc.
    pose proof (digits2_pos_lower m) as Hl.
    assert (Hd : Zpos (digits2_pos m) = 53) by lia. rewrite Hd in Hl.
    assert (2 <= 2 ^ e) by (change 2 with (2 ^ 1) at 1; apply Z.pow_le_mono_r; lia).
    change (53 - 1) with 52 in Hl. lia.
  - split; [lia|]. lia.
Qed.

(** At a scale [10^k], [k >= 0], the only candidate is the integer itself. *)
Lemma shortest_at_int m e k z d :
  e <= 0 -> z * 2 ^ (- e) = Zpos m -> 0 <= k -> shortest_at m e k = Some d -> d * 10 ^ k = z.
Proof.
  intros He Hz Hk H.
  set (P := scale_num k (e - 2)). set (Q := scale_den k (e - 2)).
  assert (HQ : Q = 1).
  { unfold Q, scale_den. rewrite !Z.max_l by lia. done. }
  assert (HP : P = 10 ^ k * (4 * 2 ^ (- e))).
  { unfold P, scale_num. rewrite !Z.max_r by lia. f_equal.
    replace (- (e - 2)) with (2 + - e) by lia. by rewrite Z.pow_add_r by lia. }
  assert (Hb : 4 * Zpos m - 2 <= d * P <= 4 * Zpos m + 2).
  { revert H. unfold shortest_at. fold P Q. rewrite HQ, !Z.mul_1_r.
    set (lo := if _ && _ then _ else _).
    assert (Hlo : 4 * Zpos m - 2 <= lo) by (unfold lo; destruct (_ && _); lia).
    set (q := 4 * Z.pos m / P).
    assert (HPpos : 0 < P) by (rewrite HP; apply Z.mul_pos_pos; [apply Z.pow_pos_nonneg; lia|];
      apply Z.mul_pos_pos; [lia|apply Z.pow_pos_nonneg; lia]).
    assert (Hq : q * P <= 4 * Zpos m < (q + 1) * P)
      by (pose proof (Z.mul_div_le (4 * Zpos m) P HPpos); pose proof (Z.mul_succ_div_gt (4 * Zpos m) P HPpos); unfold q; nia).
    repeat dmatch; intros [= <-]; bsimpl; nia. }
  rewrite HP, <- Hz in Hb.
  assert (1 <= 2 ^ (- e)) by (apply (Z.pow_le_mono_r 2 0); lia).
  assert (Habs : -2 <= (d * 10 ^ k - z) * (4 * 2 ^ (- e)) <= 2) by nia. nia.
Qed.

Lemma shortest_at_zero m e z :
  e <= 0 -> z * 2 ^ (- e) = Zpos m -> is_Some (shortest_at m e 0).
Proof.
  intros He Hz.
  assert (HQ : scale_den 0 (e - 2) = 1).
  { unfold scale_den. rewrite !Z.max_l by lia. done. }
  assert (HP : scale_num 0 (e - 2) = 4 * 2 ^ (- e)).
  { unfold scale_num. rewrite (Z.max_l 0 0), Z.max_r by lia. rewrite Z.mul_1_l.
    replace (- (e - 2)) with (2 + - e) by lia. by rewrite Z.pow_add_r by lia. }
  assert (Hpos : 1 <= 2 ^ (- e)) by (apply (Z.pow_le_mono_r 2 0); lia).
  unfold shortest_at. rewrite HQ, HP, !Z.mul_1_r, <- Hz.
  replace (4 * (z * 2 ^ (- e))) with (z * (4 * 2 ^ (- e))) by lia. rewrite Z.div_mul by lia.
  set (lo := if _ && _ then _ else _).
  assert (Hlo : lo < z * (4 * 2 ^ (- e))) by (unfold lo; destruct (_ && _); lia).
  apply Z.ltb_lt in Hlo. rewrite Hlo. simpl. by destruct (_ || _).
Qed.

Lemma shortest_from_int m e z fuel k :
  e <= 0 -> z * 2 ^ (- e) = Zpos m -> 0 <= k <= Z.of_nat fuel ->
  let '(d, k') := shortest_from fuel m e k in 0 <= k' /\ d * 10 ^ k' = z.
Proof.
  intros He Hz. revert k; induction fuel as [|fuel IH]; intros k Hk; simpl.
  - destruct (shortest_at m e k) as [d|] eqn:E.
    + split; [lia|]. by eapply shortest_at_int; [..|done]; [done|done|lia].
    + assert (k = 0) as -> by lia. destruct (shortest_at_zero m e z He Hz). congruence.
  - destruct (shortest_at m e k) as [d|] eqn:E.
    + split; [lia|]. apply (shortest_at_int m e k z d He Hz ltac:(lia) E).
    + apply IH. destruct (decide (k = 0)) as [->|]; [|lia].
      destruct (shortest_at_zero m e z He Hz). congruence.
Qed.

Lemma format_float_int f z : index_float f z -> format_float f = itoa z.
Proof.
  intros [[-> ->]|(m & e & -> & He & Hz)]%index_float_cases; [done|]. unfold format_float.
  pose proof (shortest_from_int m e z 634 309 He Hz ltac:(lia)) as H.
  destruct (shortest_from 634 m e 309) as [d k]. destruct H as [Hk Hd].
  unfold format_decimal. destruct (Z.leb_spec 0 k); [|lia]. by rewrite Hd.
Qed.

(** ** The index a double stands for *)

Lemma int_of_index_float f z : index_float f z -> int_of_float64 f = z.
Proof.
  intros H. pose proof H as (_ & Hz & _). apply index_float_cases in H as [[-> ->]|(m & e & -> & He & Hm)]; [done|].
  unfold int_of_float64, trunc_mag.
  assert (Ht : (if 0 <=? e then Z.pos m * 2 ^ e else Z.pos m / 2 ^ (- e)) = z).
  { destruct (Z.leb_spec 0 e).
    - assert (e = 0) as -> by lia. simpl in *. lia.
    - rewrite <- Hm. apply Z.div_mul. apply Z.pow_nonzero; lia. }
  rewrite Ht. unfold in_int64, min_int64, max_int64.
  destruct (Z.leb_spec (- 2 ^ 63) z); [|lia]. destruct (Z.leb_spec z (2 ^ 63 - 1)); [done|lia].
Qed.

(** ** The double of an integer *)

Lemma iter_xO p d : Zpos (Pos.iter xO p d) = Zpos p * 2 ^ Zpos d.
Proof.
  induction d as [|d IH] using Pos.peano_ind; [simpl; lia|].
  rewrite Pos.iter_succ, Pos2Z.inj_succ, Z.pow_succ_r by lia.
  change (Z.pos (Pos.iter xO p d)~0) with (2 * Zpos (Pos.iter xO p d)). rewrite IH. lia.
Qed.

Lemma digits_iter_xO p d :
  Zpos (digits2_pos (Pos.iter xO p d)) = Zpos (digits2_pos p) + Zpos d.
Proof.
  induction d as [|d IH] using Pos.peano_ind; [simpl; lia|].
  rewrite Pos.iter_succ. simpl digits2_pos. rewrite !Pos2Z.inj_succ, IH. lia.
Qed.

(** A canonical significand survives both rounding passes. *)
Lemma round_exact m e :
  Zpos (digits2_pos m) = 53 -> -1074 <= e <= 0 ->
  binary_round_aux 53 1024 false (Zpos m) e loc_Exact = S754_finite false m e.
Proof.
  intros Hd He. unfold binary_round_aux, shr_fexp. simpl Zdigits2. rewrite Hd.
  assert (Hf : fexp 53 1024 (53 + e) - e = 0) by (unfold fexp, SpecFloat.emin; lia). rewrite Hf. simpl.
  rewrite Hd, Hf. simpl. destruct (Z.leb_spec e (1024 - 53)); [done|lia].
Qed.

Lemma index_float_digits m e z :
  valid_binary 53 1024 (S754_finite false m e) = true -> 0 <= z < 2 ^ 53 ->
  e <= 0 -> z * 2 ^ (- e) = Zpos m -> Zpos (digits2_pos m) = 53 /\ -1074 <= e.
Proof.
  intros Hv Hz He Hm. apply andb_true_iff in Hv as [Hc _]. unfold canonical_mantissa in Hc.
  apply Z.eqb_eq in Hc. unfold fexp, SpecFloat.emin in Hc.
  assert (Hup : Zpos m < 2 ^ Zpos (digits2_pos m)).
  { clear. induction m as [m IH|m IH|]; simpl digits2_pos; [| |done];
      rewrite Pos2Z.inj_succ, Z.pow_succ_r by lia; lia. }
  destruct (decide (Zpos (digits2_pos m) + e - 53 < -1074)) as [Hs|]; [|lia]. exfalso.
  assert (He' : e = -1074) by lia. subst e.
  assert (2 ^ 53 <= 2 ^ 1074) by (apply Z.pow_le_mono_r; lia).
  assert (2 ^ Zpos (digits2_pos m) <= 2 ^ 53) by (apply Z.pow_le_mono_r; lia).
  change (- -1074) with 1074 in Hm.
  assert (1 <= z) by (destruct (decide (z = 0)) as [->|]; lia). nia.
Qed.

Lemma float64_of_index f z : index_float f z -> float64_of_Z z = f.
Proof.
  intros H. pose proof H as (Hv & Hz & _).
  apply index_float_cases in H as [[-> ->]|(m & e & -> & He & Hm)]; [done|].
  destruct (index_float_digits m e z Hv Hz He Hm) as [Hd He'].
  assert (Hpos : exists p, z = Zpos p) by (destruct z as [|p|p]; [lia|by exists p|lia]).
  destruct Hpos as [p ->]. unfold float64_of_Z. simpl. unfold binary_round.
  destruct e as [|e|d]; [|lia|].
  - assert (p = m) as -> by (simpl in Hm; lia).
    assert (Hf : fexp 53 1024 (Zpos (digits2_pos m) + 0) = 0) by (rewrite Hd; done).
    rewrite Hf. by apply round_exact.
  - change (- Z.neg d) with (Zpos d) in Hm. rewrite <- iter_xO in Hm.
    injection Hm as Hm. rewrite <- Hm in *. rewrite digits_iter_xO in Hd.
    assert (Hf : fexp 53 1024 (Zpos (digits2_pos p) + 0) = Z.neg d)
      by (unfold fexp, SpecFloat.emin; lia).
    rewrite Hf. simpl. apply round_exact; [by rewrite digits_iter_xO|done].
Qed.

Lemma f64_eqb_finite s m e : f64_eqb (S754_finite s m e) (S754_finite s m e) = true.
Proof.
  unfold f64_eqb, SFeqb, SFcompare. by destruct s; rewrite Z.compare_refl, Pos.compare_cont_refl.
Qed.

Lemma index_float_eqb f z : index_float f z -> f64_eqb f (float64_of_Z z) = true.
Proof.
  intros H. rewrite (float64_of_index f z H).
  apply index_float_cases in H as [[-> _]|(m & e & -> & _)]; [done|apply f64_eqb_finite].
Qed.

Lemma float64_of_pos p :
  Zpos p < 2 ^ 53 -> exists m e, float64_of_Z (Zpos p) = S754_finite false m e /\ e <= 0 /\ Zpos p * 2 ^ (- e) = Zpos m.
Proof.
  intros Hp. pose proof (digits2_pos_lower p) as Hd.
  assert (Hd53 : Zpos (digits2_pos p) <= 53).
  { destruct (Z.leb_spec (Zpos (digits2_pos p)) 53); [done|].
    assert (2 ^ 53 <= 2 ^ (Zpos (digits2_pos p) - 1)) by (apply Z.pow_le_mono_r; lia). lia. }
  unfold float64_of_Z. simpl. unfold binary_round. destruct (decide (Zpos (digits2_pos p) = 53)) as [E|Hne].
  - exists p, 0. assert (Hf : fexp 53 1024 (Zpos (digits2_pos p) + 0) = 0) by (rewrite E; done).
    rewrite Hf. split_and!; [by apply round_exact|done|simpl; lia].
  - assert (Hf : exists d, fexp 53 1024 (Zpos (digits2_pos p) + 0) = Zneg d /\ Zpos d = 53 - Zpos (digits2_pos p)).
    { exists (Z.to_pos (53 - Zpos (digits2_pos p))). unfold fexp, SpecFloat.emin. lia. }
    destruct Hf as (d & -> & Hd'). exists (Pos.iter xO p d), (Zneg d). simpl shl_align.
    split_and!; [|done|by rewrite iter_xO]. apply round_exact; [rewrite digits_iter_xO; lia|lia].
Qed.

(** A double holds a time in seconds exactly. *)
Lemma int_of_float64_of_Z z : 0 <= z < 2 ^ 53 -> int_of_float64 (float64_of_Z z) = z.
Proof.
  intros Hz. destruct z as [|p|p]; [done| |lia].
  destruct (float64_of_pos p) as (m & e & -> & He & Hm); [lia|]. unfold int_of_float64, trunc_mag.
  assert (Ht : (if 0 <=? e then Z.pos m * 2 ^ e else Z.pos m / 2 ^ (- e)) = Zpos p).
  { destruct (Z.leb_spec 0 e).
    - assert (e = 0) as -> by lia. simpl in *. lia.
    - rewrite <- Hm. apply Z.div_mul. apply Z.pow_nonzero; lia. }
  rewrite Ht. unfold in_int64, min_int64, max_int64.
  destruct (Z.leb_spec (- 2 ^ 63) (Zpos p)); [|lia]. destruct (Z.leb_spec (Zpos p) (2 ^ 63 - 1)); [done|lia].
Qed.
