(* ===== verification/Format.v ===== *)
(** * Format: internal/format, base64url and JWS compact serialization.

    [base64.RawURLEncoding] and [base64.URLEncoding] as the sources use them:
    decoding skips line breaks, the last quantum may be short (raw) or padded. *)

From Stdlib Require Import Ascii ZArith Lia.
From stdpp Require Import base list strings.
From S2P Require Import Prelude GoStrings GoValue.

Local Open Scope Z_scope.

(** ** encoding/base64, URL alphabet *)

(** A byte string as the list of its byte values. *)
Definition byte_of (c : ascii) : Z := Z.of_nat (nat_of_ascii c).
Definition ascii_of (z : Z) : ascii := ascii_of_nat (Z.to_nat z).
Fixpoint bytes_of (s : string) : list Z :=
  match s with "" => [] | String c s => byte_of c :: bytes_of s end.
Fixpoint string_of (l : list Z) : string :=
  match l with [] => "" | b :: l => String (ascii_of b) (string_of l) end.

(** The character of a six-bit digit: A-Z a-z 0-9 - _. *)
Definition b64_char (d : Z) : Z :=
  if d <? 26 then d + 65
  else if d <? 52 then d + 71
  else if d <? 62 then d - 4
  else if d =? 62 then 45 else 95.

Definition b64_digit (c : Z) : option Z :=
  if (65 <=? c) && (c <=? 90) then Some (c - 65)
  else if (97 <=? c) && (c <=? 122) then Some (c - 71)
  else if (48 <=? c) && (c <=? 57) then Some (c + 4)
  else if c =? 45 then Some 62
  else if c =? 95 then Some 63
  else None.

Fixpoint b64_encode (l : list Z) : list Z :=
  match l with
  | [] => []
  | [a] => [b64_char (a / 4); b64_char (a mod 4 * 16)]
  | [a; b] => [b64_char (a / 4); b64_char (a mod 4 * 16 + b / 16); b64_char (b mod 16 * 4)]
  | a :: b :: c :: l =>
      b64_char (a / 4) :: b64_char (a mod 4 * 16 + b / 16)
      :: b64_char (b mod 16 * 4 + c / 64) :: b64_char (c mod 64) :: b64_encode l
  end.

Definition b64_pair (a b : Z) : option (list Z) :=
  match b64_digit a, b64_digit b with
  | Some a, Some b => Some [(a * 4 + b / 16)]
  | _, _ => None
  end.
Definition b64_triple (a b c : Z) : option (list Z) :=
  match b64_digit a, b64_digit b, b64_digit c with
  | Some a, Some b, Some c => Some [a * 4 + b / 16; b mod 16 * 16 + c / 4]
  | _, _, _ => None
  end.
Definition b64_quad (a b c d : Z) : option (list Z) :=
  match b64_digit a, b64_digit b, b64_digit c, b64_digit d with
  | Some a, Some b, Some c, Some d =>
      Some [a * 4 + b / 16; b mod 16 * 16 + c / 4; c mod 4 * 64 + d]
  | _, _, _, _ => None
  end.

(** The padding character [=] is 61. *)
Fixpoint b64_decode (padded : bool) (l : list Z) : option (list Z) :=
  match l with
  | [] => Some []
  | [a; b] => if padded then None else b64_pair a b
  | [a; b; c] => if padded then None else b64_triple a b c
  | a :: b :: c :: d :: l' =>
      if padded && (c =? 61) && (d =? 61) && bool_decide (l' = []) then b64_pair a b
      else if padded && (d =? 61) && bool_decide (l' = []) then b64_triple a b c
      else match b64_quad a b c d, b64_decode padded l' with
           | Some q, Some r => Some (q ++ r)
           | _, _ => None
           end
  | _ => None
  end.

Definition strip_newlines (l : list Z) : list Z :=
  filter (fun c => c <> 10 /\ c <> 13) l.

(** ** encoding.go *)

Definition DecodeBase64URL (s : string) : option string :=
  let l := strip_newlines (bytes_of s) in
  string_of <$> (match b64_decode false l with Some b => Some b | None => b64_decode true l end).

Definition EncodeBase64URL (b : string) : string := string_of (b64_encode (bytes_of b)).

(** [RawURLEncoding] and [StdEncoding] of encoding/base64. *)
Definition RawURL_Decode (s : string) : option string := string_of <$> b64_decode false (strip_newlines (bytes_of s)).

(** The standard alphabet has + and / where the URL alphabet has - and _. *)
Definition url_digit_of_std (c : Z) : Z :=
  if c =? 43 then 45 else if c =? 47 then 95 else if (c =? 45) || (c =? 95) then 0 else c.

Definition Std_Decode (s : string) : option string :=
  string_of <$> b64_decode true (map url_digit_of_std (strip_newlines (bytes_of s))).

(** With padding or without. *)
Definition DecodeBase64Std (s : string) : option string :=
  let l := map url_digit_of_std (strip_newlines (bytes_of s)) in
  string_of <$> (match b64_decode true l with Some b => Some b | None => b64_decode false l end).

(** [StdEncoding.EncodeToString]: the other alphabet, padded to four digits. *)
Definition std_digit_of_url (c : Z) : Z := if c =? 45 then 43 else if c =? 95 then 47 else c.

Definition Std_Encode (b : string) : string :=
  let l := map std_digit_of_url (b64_encode (bytes_of b)) in
  string_of (l ++ repeat 61 ((4 - length l mod 4) mod 4)%nat).

(** [encoding/hex] *)
Definition hex_value (c : ascii) : option Z :=
  let n := byte_of c in
  if (48 <=? n) && (n <=? 57) then Some (n - 48)
  else if (97 <=? n) && (n <=? 102) then Some (n - 87)
  else if (65 <=? n) && (n <=? 70) then Some (n - 55)
  else None.

Fixpoint hex_decode (s : string) : option string :=
  match s with
  | "" => Some ""
  | String a (String b s) => h ← hex_value a; l ← hex_value b; rest ← hex_decode s; Some (String (ascii_of (16 * h + l)) rest)
  | String _ "" => None
  end.

(** An even number of hexadecimal digits, at least two. *)
Definition isHex (s : string) : bool :=
  (2 <=? String.length s)%nat && Nat.even (String.length s) && all_bytes (fun c => bool_decide (is_Some (hex_value c))) s.

Definition DecodeHexOrBase64URL (s : string) : option string :=
  let s := trim_space s in
  match (if isHex s then hex_decode s else None) with
  | Some b => Some b
  | None => DecodeBase64URL s
  end.

(** ** Round trip *)

Definition is_byte (b : Z) : Prop := 0 <= b < 256.

Lemma bytes_ok l : forallb (fun b => (0 <=? b) && (b <? 256)) l = true -> Forall is_byte l.
Proof.
  intros H. apply Forall_forall. intros b Hb. rewrite forallb_forall in H.
  apply list_elem_of_In, H in Hb. unfold is_byte. bsimpl. lia.
Qed.

Lemma b64_digit_char d : 0 <= d < 64 -> b64_digit (b64_char d) = Some d.
Proof.
  intros H. unfold b64_char, b64_digit.
  repeat (case_match; bsimpl; simplify_eq; try lia; try (f_equal; lia)).
Qed.

Lemma b64_char_range d : 0 <= d < 64 -> 45 <= b64_char d < 123.
Proof. intros H. unfold b64_char. repeat case_match; bsimpl; lia. Qed.

(** Strong induction three bytes at a time. *)
Lemma triple_ind {A} (P : list A -> Prop) :
  P [] -> (forall a, P [a]) -> (forall a b, P [a; b]) ->
  (forall a b c l, P l -> P (a :: b :: c :: l)) -> forall l, P l.
Proof.
  intros H0 H1 H2 H3. fix IH 1. intros [|a [|b [|c l]]];
    [exact H0|apply H1|apply H2|apply H3, IH].
Qed.

Ltac b64_digits :=
  unfold b64_pair, b64_triple, b64_quad; rewrite ?b64_digit_char by (unfold is_byte in *; zlia).

Lemma b64_decode_encode l : Forall is_byte l -> b64_decode false (b64_encode l) = Some l.
Proof.
  induction l as [|a|a b|a b c l IH] using triple_ind; intros H; rewrite ?Forall_cons in H;
    destruct_and?; simpl; [done|b64_digits|b64_digits|b64_digits].
  - do 2 f_equal. unfold is_byte in *. zlia.
  - do 2 f_equal; [|f_equal]; unfold is_byte in *; zlia.
  - rewrite IH by done. simpl. unfold is_byte in *. repeat f_equal; zlia.
Qed.

Lemma strip_newlines_id l : Forall (fun c => 45 <= c) l -> strip_newlines l = l.
Proof.
  intros H. unfold strip_newlines. induction H as [|c l Hc Hl IH]; [done|].
  rewrite filter_cons_True by lia. by rewrite IH.
Qed.

Lemma b64_encode_range l : Forall is_byte l -> Forall (fun c => 45 <= c < 123) (b64_encode l).
Proof.
  induction l as [|a|a b|a b c l IH] using triple_ind; intros H; rewrite ?Forall_cons in H;
    destruct_and?; simpl; repeat constructor; try (apply b64_char_range; unfold is_byte in *; zlia).
  by apply IH.
Qed.

Lemma bytes_of_string_of l : Forall is_byte l -> bytes_of (string_of l) = l.
Proof.
  induction 1 as [|b l Hb Hl IH]; simpl; [done|]. f_equal; [|done].
  unfold byte_of, ascii_of. rewrite nat_ascii_embedding; unfold is_byte in Hb; lia.
Qed.

Lemma string_of_bytes_of s : string_of (bytes_of s) = s.
Proof.
  induction s as [|c s IH]; simpl; [done|]. f_equal; [|done].
  unfold byte_of, ascii_of. by rewrite Nat2Z.id, ascii_nat_embedding.
Qed.

Lemma bytes_of_is_byte s : Forall is_byte (bytes_of s).
Proof.
  induction s as [|c s IH]; simpl; constructor; [|done].
  unfold byte_of, is_byte. pose proof (nat_ascii_bounded c). lia.
Qed.

Lemma Decode_Encode b : DecodeBase64URL (EncodeBase64URL b) = Some b.
Proof.
  unfold DecodeBase64URL, EncodeBase64URL.
  pose proof (b64_encode_range _ (bytes_of_is_byte b)) as Hr.
  rewrite bytes_of_string_of.
  - rewrite strip_newlines_id by (eapply Forall_impl; [exact Hr|]; simpl; lia).
    rewrite b64_decode_encode by apply bytes_of_is_byte. simpl. by rewrite string_of_bytes_of.
  - eapply Forall_impl; [exact Hr|]. unfold is_byte. simpl. lia.
Qed.

Lemma RawURL_Decode_Encode b : RawURL_Decode (EncodeBase64URL b) = Some b.
Proof.
  unfold RawURL_Decode, EncodeBase64URL.
  pose proof (b64_encode_range _ (bytes_of_is_byte b)) as Hr.
  rewrite bytes_of_string_of.
  - rewrite strip_newlines_id by (eapply Forall_impl; [exact Hr|]; simpl; lia).
    rewrite b64_decode_encode by apply bytes_of_is_byte. simpl. by rewrite string_of_bytes_of.
  - eapply Forall_impl; [exact Hr|]. unfold is_byte. simpl. lia.
Qed.

(** ** jwt.go *)

(** The JSON decoder of the Go standard library, as the sources use it: into a
    [map[string]any] ([null] gives the nil map, which reads as empty) and into
    a [[]any]. *)
Class Json := {
  unmarshal_object : string -> option object;
  unmarshal_array : string -> option (list value)
}.

Inductive jwt_error := JwtPartCount (n : Z) | JwtHeaderBase64 | JwtPayloadBase64
                     | JwtHeaderJson | JwtPayloadJson.

(** An undecodable signature reads as the bytes decoded so far in Go and is
    used for display only; the model keeps [None]. *)
Record jwt_parts := mkJwtParts {
  jp_header : object; jp_payload : object; jp_sig : option string }.

Definition ParseJWTParts `{Json} (raw : string) : result jwt_error jwt_parts :=
  match split_n 3 "."%char raw with
  | [h; p; s] =>
      match DecodeBase64URL h with
      | None => Err JwtHeaderBase64
      | Some hb =>
          match DecodeBase64URL p with
          | None => Err JwtPayloadBase64
          | Some pb =>
              match unmarshal_object hb with
              | None => Err JwtHeaderJson
              | Some header =>
                  match unmarshal_object pb with
                  | None => Err JwtPayloadJson
                  | Some payload => Ok (mkJwtParts header payload (DecodeBase64URL s))
                  end
              end
          end
      end
  | parts => Err (JwtPartCount (Z.of_nat (length parts)))
  end.
