(* ===== verification/CredType.v ===== *)
(** * CredType: credential types and the inheritance between them

    internal/credtype/credtype.go.  [Chain] is the list of every type of a
    credential, [Answers] the test a request for a type makes. *)

From Stdlib Require Import Ascii.
From stdpp Require Import base list strings gmap.
From Stdlib Require Import ZArith Lia.
From S2P Require Import Prelude GoStrings GoValue.

Definition PIDVCT := "urn:eudi:pid:1".
Definition PIDDocType := "eu.europa.ec.eudi.pid.1".
Definition AkaVCTsClaim := "aka_vcts".
Definition PIDVCTPrefix := "urn:eudi:pid:".

Definition isNumber (s : string) : bool :=
  all_bytes is_digit s && negb (String.eqb s "").

(** The type a type extends, if any. *)
Definition Extends (vct : string) : option string :=
  match cut_prefix PIDVCTPrefix vct with
  | None => None
  | Some rest =>
      if String.eqb rest "" then None
      else let '(country, _, _) := cut ":" rest in
           if String.eqb country "" || isNumber country then None else Some PIDVCT
  end.

(** ** Chain

    [chain] and [seen] are the two variables the closure [add] updates. *)
Definition chain_add (st : list string * gset string) (t : string) : list string * gset string :=
  let '(chain, seen) := st in
  if String.eqb t "" || bool_decide (t ∈ seen) then st else (chain ++ [t], {[t]} ∪ seen).

(** [for i := 0; i < len(chain); i++]: the chain grows while it is walked. *)
Fixpoint chain_parents (fuel i : nat) (st : list string * gset string) : list string * gset string :=
  match fuel with
  | 0 => st
  | S fuel =>
      match fst st !! i with
      | None => st
      | Some t =>
          chain_parents fuel (S i)
            (match Extends t with Some parent => chain_add st parent | None => st end)
      end
  end.

(** The only parent is [PIDVCT], so the loop makes at most one round more
    than the chain it starts with has elements. *)
Definition Chain (vct : string) (akaVCTs : list string) : list string :=
  if String.eqb vct "" then []
  else
    let st := fold_left chain_add akaVCTs ([vct], {[vct]}) in
    fst (chain_parents (length (fst st) + 2) 0 st).

Definition Answers (vct : string) (akaVCTs : list string) (requested : string) : bool :=
  if String.eqb requested "" || String.eqb vct "" then false
  else existsb (fun t => String.eqb t requested) (Chain vct akaVCTs).

Definition AkaVCTs (claims : object) : list string :=
  match index claims AkaVCTsClaim with
  | VArr raw =>
      filter_map (fun v => match v with
                           | VString s => if String.eqb s "" then None else Some s
                           | _ => None
                           end) raw
  | _ => []
  end.

Definition IsPIDType (t : string) : bool :=
  let t := trim_space t in
  has_prefix PIDVCTPrefix t || has_prefix "eu.europa.ec.eudi.pid." t.

(** ** The loops keep the chain a duplicate-free list of the seen types *)

Definition chain_inv (vct : string) (st : list string * gset string) : Prop :=
  NoDup (fst st) /\ head (fst st) = Some vct /\ (forall t, t ∈ fst st <-> t ∈ snd st).

Lemma chain_add_inv vct st t : chain_inv vct st -> chain_inv vct (chain_add st t).
Proof.
  destruct st as [chain seen]. intros (Hn & Hh & Hs); unfold chain_add; simpl in *.
  case_bool_decide as Ht; [by rewrite orb_true_r|]. destruct (String.eqb t ""); [done|]. simpl.
  split; [|split]; simpl.
  - apply NoDup_app. split; [done|]. split; [set_solver|apply NoDup_singleton].
  - by destruct chain.
  - intros u. rewrite elem_of_app, elem_of_union, Hs. set_solver.
Qed.

Lemma chain_add_elem st t u :
  (forall t, t ∈ fst st <-> t ∈ snd st) ->
  u ∈ fst (chain_add st t) <-> u ∈ fst st \/ (u = t /\ t <> "").
Proof.
  destruct st as [chain seen]; unfold chain_add; simpl. intros Hs.
  destruct (String.eqb_spec t ""); simpl; [naive_solver|].
  case_bool_decide; simpl; set_solver.
Qed.

Lemma chain_akas_inv vct akas st :
  chain_inv vct st ->
  chain_inv vct (fold_left chain_add akas st) /\
  (forall u, u ∈ fst (fold_left chain_add akas st) <-> u ∈ fst st \/ (u ∈ akas /\ u <> "")).
Proof.
  revert st; induction akas as [|a akas IH]; intros st Hi; simpl; [set_solver|].
  destruct (IH _ (chain_add_inv vct st a Hi)) as [H1 H2]. split; [done|].
  intros u. rewrite H2, chain_add_elem by apply Hi. set_solver.
Qed.

Lemma Extends_PIDVCT vct parent : Extends vct = Some parent -> parent = PIDVCT.
Proof. unfold Extends. intros H. repeat dmatch_in H; by simplify_eq. Qed.

Lemma Extends_base : Extends PIDVCT = None.
Proof. reflexivity. Qed.

Lemma chain_parents_stable fuel i st :
  PIDVCT ∈ snd st -> chain_parents fuel i st = st.
Proof.
  revert i; induction fuel as [|fuel IH]; intros i H; simpl; [done|].
  destruct (fst st !! i) as [t|]; [|done]. destruct (Extends t) as [p|] eqn:E; [|by apply IH].
  apply Extends_PIDVCT in E as ->. destruct st as [chain seen]; unfold chain_add; simpl in *.
  rewrite bool_decide_true by done. by apply IH.
Qed.

Lemma chain_parents_spec vct fuel i st :
  chain_inv vct st -> (length (fst st) <= i + fuel)%nat ->
  chain_inv vct (chain_parents fuel i st) /\
  (forall u, u ∈ fst (chain_parents fuel i st) <->
     u ∈ fst st \/ (u = PIDVCT /\ exists j t, (i <= j)%nat /\ fst st !! j = Some t /\ Extends t = Some PIDVCT)).
Proof.
  revert i; induction fuel as [|fuel IH]; intros i Hi Hf; simpl.
  { split; [done|]. intros u. split; [by left|]. intros [?|(_ & j & t & Hj & Ht & _)]; [done|].
    apply lookup_lt_Some in Ht. lia. }
  destruct (fst st !! i) as [t|] eqn:Et.
  2:{ split; [done|]. intros u. split; [by left|]. intros [?|(_ & j & t & Hj & Ht & _)]; [done|].
      apply lookup_lt_Some in Ht. apply lookup_ge_None in Et. lia. }
  destruct (Extends t) as [p|] eqn:E.
  - pose proof (Extends_PIDVCT _ _ E) as ->.
    assert (Hp : PIDVCT ∈ fst (chain_add st PIDVCT)) by (rewrite chain_add_elem by apply Hi; by right).
    pose proof (chain_add_inv vct st PIDVCT Hi) as Hi'.
    rewrite chain_parents_stable by (apply Hi'; done). split; [done|]. intros u.
    rewrite chain_add_elem by apply Hi. split; [|naive_solver].
    intros [?|[-> _]]; [by left|right]. split; [done|]. by exists i, t.
  - destruct (IH (S i) Hi ltac:(lia)) as [H1 H2]. split; [done|]. intros u. rewrite H2.
    split; (intros [?|(-> & j & t' & Hj & Ht' & He)]; [by left|right; split; [done|]]).
    + exists j, t'. split; [lia|done].
    + exists j, t'. split; [|done]. destruct (decide (j = i)); [simplify_eq|lia].
Qed.

(** The types a credential states about itself. *)
Definition stated (vct : string) (akas : list string) (t : string) : Prop :=
  t = vct \/ (t ∈ akas /\ t <> "").

Lemma Chain_spec vct akas :
  vct <> "" ->
  NoDup (Chain vct akas) /\ head (Chain vct akas) = Some vct /\
  (forall t, t ∈ Chain vct akas <->
     stated vct akas t \/ (t = PIDVCT /\ exists u, stated vct akas u /\ Extends u = Some PIDVCT)).
Proof.
  intros Hv. unfold Chain. destruct (String.eqb_spec vct ""); [done|].
  assert (Hi : chain_inv vct ([vct], {[vct]})).
  { split; [apply NoDup_singleton|]. split; [done|]. intros t; set_solver. }
  destruct (chain_akas_inv vct akas _ Hi) as [Ha He].
  destruct (chain_parents_spec vct (length (fst (fold_left chain_add akas ([vct], {[vct]}))) + 2) 0 _ Ha
              ltac:(lia)) as [(Hn & Hh & _) Hc].
  split; [done|]. split; [done|]. intros t. rewrite Hc, He. unfold stated.
  assert (Hex : (exists j u, (0 <= j)%nat /\ fst (fold_left chain_add akas ([vct], {[vct]})) !! j = Some u
                  /\ Extends u = Some PIDVCT) <->
                exists u, (u = vct \/ (u ∈ akas /\ u <> "")) /\ Extends u = Some PIDVCT).
  { split.
    - intros (j & u & _ & Hj & Hu). exists u. split; [|done].
      apply list_elem_of_lookup_2, He in Hj as [Hj|Hj]; [|by right].
      left. by apply list_elem_of_singleton in Hj.
    - intros (u & Hu & Hx). assert (Hin : u ∈ fst (fold_left chain_add akas ([vct], {[vct]}))).
      { apply He. destruct Hu as [->|Hu]; [by left; left|by right]. }
      apply list_elem_of_lookup in Hin as [j Hj]. exists j, u. split; [lia|done]. }
  rewrite Hex. simpl. by rewrite list_elem_of_singleton.
Qed.

(** A credential answers a request for exactly these types: its own
    [vct], the non-empty types its [aka_vcts] claim lists, and the base PID
    type when one of those is a domestic PID type.  Inheritance is one-directional: the
    general PID answers no domestic type it does not state. *)
Theorem Answers_iff vct akas requested :
  Answers vct akas requested = true <->
  vct <> "" /\ requested <> "" /\
  (stated vct akas requested \/
   (requested = PIDVCT /\ exists u, stated vct akas u /\ Extends u = Some PIDVCT)).
Proof.
  unfold Answers. destruct (String.eqb_spec requested ""); simpl; [naive_solver|].
  destruct (String.eqb_spec vct ""); [naive_solver|].
  destruct (Chain_spec vct akas ltac:(done)) as (_ & _ & H).
  rewrite existsb_exists. setoid_rewrite String.eqb_eq. rewrite <- H.
  setoid_rewrite <- list_elem_of_In. naive_solver.
Qed.
