(* ===== verification/Validity.v ===== *)
(** * Validity: Go times and validity periods

    A [time.Time] is a count of seconds since January 1, year 1 UTC, held in an
    int64, and nanoseconds.  The zero time is second 0.

    A duration is a count of nanoseconds in an int64. *)

From Stdlib Require Import ZArith Lia.
From stdpp Require Import prelude.
From S2P Require Import Prelude GoStrings.

Local Open Scope Z_scope.

(** Two's complement wrap-around of int64 arithmetic. *)
Definition wrap64 (z : Z) : Z := (z + 2 ^ 63) mod 2 ^ 64 - 2 ^ 63.

Record time := Time { t_sec : Z; t_nsec : Z }.

#[global] Instance time_eq_dec : EqDecision time.
Proof. solve_decision. Defined.

Definition zero_time : time := Time 0 0.
Definition is_zero (t : time) : bool := (t_sec t =? 0) && (t_nsec t =? 0).

(** Seconds between year 1 and 1970. *)
Definition unix_to_internal : Z := 62135596800.

(** [time.Unix(sec, 0)]; the int64 sum wraps for times far beyond year 9999. *)
Definition unix (sec : Z) : time := Time (wrap64 (sec + unix_to_internal)) 0.

Definition after (t u : time) : bool :=
  (t_sec u <? t_sec t) || ((t_sec t =? t_sec u) && (t_nsec u <? t_nsec t)).
Definition before (t u : time) : bool := after u t.

(** [t.Add(d)] for a whole number of seconds. *)
Definition add_seconds (t : time) (s : Z) : time := Time (wrap64 (t_sec t + s)) (t_nsec t).

(** ** internal/validity *)

Definition ClockSkew : Z := 60.

Definition Expired (notAfter : option time) (now : time) : bool :=
  match notAfter with Some t => after now (add_seconds t ClockSkew) | None => false end.

Definition NotYet (notBefore : option time) (now : time) : bool :=
  match notBefore with Some t => before (add_seconds now ClockSkew) t | None => false end.

(** ** Lemmas *)

Lemma wrap64_small z : - 2 ^ 63 <= z < 2 ^ 63 -> wrap64 z = z.
Proof. intros H. unfold wrap64. rewrite Z.mod_small; lia. Qed.

Lemma wrap64_bounds z : - 2 ^ 63 <= wrap64 z < 2 ^ 63.
Proof. unfold wrap64. pose proof (Z.mod_pos_bound (z + 2 ^ 63) (2 ^ 64)). lia. Qed.

Lemma after_spec t u :
  after t u = true <-> t_sec u < t_sec t \/ (t_sec t = t_sec u /\ t_nsec u < t_nsec t).
Proof. unfold after. bsimpl. tauto. Qed.

Lemma after_asym t u : after t u = true -> after u t = false.
Proof.
  intros H. apply not_true_iff_false. intros H'. rewrite after_spec in *. lia.
Qed.

Lemma after_neg_trans t u v : after t u = false -> after u v = false -> after t v = false.
Proof.
  rewrite <- !not_true_iff_false, !after_spec. lia.
Qed.

(** A time is in the ordinary range when a clock skew can be added without
    leaving int64. *)
Definition ordinary (t : time) : Prop := 0 <= t_sec t < 2 ^ 62.

Lemma ordinary_add t s : ordinary t -> 0 <= s < 2 ^ 62 -> t_sec (add_seconds t s) = t_sec t + s.
Proof. unfold ordinary, add_seconds; simpl. intros. apply wrap64_small. lia. Qed.

(** A validity window is never both expired and not yet reached, when its end
    does not precede its start. *)
Lemma not_expired_and_not_yet nb na now :
  ordinary nb -> ordinary na -> ordinary now -> after nb na = false ->
  NotYet (Some nb) now = true -> Expired (Some na) now = false.
Proof.
  unfold Expired, NotYet, before. intros Hb Ha Hn Hord Hny.
  apply not_true_iff_false. intros He. rewrite <- not_true_iff_false in Hord.
  rewrite after_spec in *. rewrite !ordinary_add in * by (try done; unfold ClockSkew; lia).
  simpl in *. unfold ClockSkew in *. lia.
Qed.

Definition Second : Z := 1000000000.
Definition Minute : Z := 60 * Second.
Definition Hour : Z := 3600 * Second.

(** [t.Unix()] *)
Definition Unix (t : time) : Z := wrap64 (t_sec t - unix_to_internal).

(** [t.Add(d)] *)
Definition add (t : time) (d : Z) : time :=
  let ns := t_nsec t + Z.rem d Second in
  let s := t_sec t + Z.quot d Second in
  if Second <=? ns then Time (wrap64 (s + 1)) (ns - Second)
  else if ns <? 0 then Time (wrap64 (s - 1)) (ns + Second)
  else Time (wrap64 s) ns.

(** [t.Sub(u)] saturates. *)
Definition sub (t u : time) : Z :=
  let d := (t_sec t - t_sec u) * Second + (t_nsec t - t_nsec u) in
  Z.max (- 2 ^ 63) (Z.min d (2 ^ 63 - 1)).

(** [time.Duration(n) * time.Second] *)
Definition seconds (n : Z) : Z := wrap64 (n * Second).

(** [time.Since(t)] at the instant [now]. *)
Definition since (now t : time) : Z := sub now t.

(** ** Lemmas *)

(** A time whose nanoseconds are in range and whose year is no more than
    seventy thousand million years away. *)
Definition civil (t : time) : Prop := - 2 ^ 61 <= t_sec t <= 2 ^ 61 /\ 0 <= t_nsec t < Second.

(** Adding whole seconds moves a time by that much, without overflow. *)
Lemma add_whole t n : civil t -> 0 <= n <= 2 ^ 30 -> add t (n * Second) = Time (t_sec t + n) (t_nsec t).
Proof.
  intros [Hs Hn] Hd. unfold add, Second in *. rewrite Z.rem_mul, Z.quot_mul by lia.
  rewrite Z.add_0_r. destruct (Z.leb_spec 1000000000 (t_nsec t)); [lia|].
  destruct (Z.ltb_spec (t_nsec t) 0); [lia|]. rewrite wrap64_small; [done|lia].
Qed.
