(* ===== verification/StatusList.v ===== *)
(** * StatusList: internal/statuslist, Token Status Lists.

    The reading side (checker.go): the reference in a credential, the Status
    List Token and its checks, and the entry at an index of the bit string.
    The widths of types.go and provider.go.  The parser of tokens in CWT format
    is an argument here and a definition of StatusListCwt. *)

From Stdlib Require Import Ascii ZArith Lia.
From stdpp Require Import base list strings gmap.
From S2P Require Import Prelude GoStrings GoValue Format Validity.

Local Open Scope Z_scope.

(** ** types.go *)

(** [%02X]. *)
Definition hex_digit (d : Z) : string := slice_to 1 (String.substring (Z.to_nat d) 1 "0123456789ABCDEF").
Fixpoint hex_digits (fuel : nat) (n : Z) : string :=
  match fuel with
  | O => ""
  | S fuel => (if n <? 16 then "" else hex_digits fuel (n / 16)) +:+ hex_digit (n mod 16)
  end.
Definition hex02 (n : Z) : string :=
  if n <? 0 then "-" +:+ hex_digits 17 (- n)
  else if n <? 16 then "0" +:+ hex_digit n else hex_digits 17 n.

Definition StatusName (value : Z) : string :=
  if value =? 0 then "VALID"
  else if value =? 1 then "INVALID"
  else if value =? 2 then "SUSPENDED"
  else if (value =? 3) || ((12 <=? value) && (value <=? 15)) then
    "APPLICATION_SPECIFIC(0x" +:+ hex02 value +:+ ")"
  else "UNKNOWN(0x" +:+ hex02 value +:+ ")".

Inductive width_error := StatusNegative (max : Z) | StatusAbove255 (max : Z).

Definition BitsForStatus (max : Z) : result width_error Z :=
  if max <? 0 then Err (StatusNegative max)
  else if max <=? 1 then Ok 1
  else if max <=? 3 then Ok 2
  else if max <=? 15 then Ok 4
  else if max <=? 255 then Ok 8
  else Err (StatusAbove255 max).

(** provider.go *)
Definition normalizeBits (bits : Z) : result Z Z :=
  if (bits =? 0) || (bits =? 1) then Ok 1
  else if (bits =? 2) || (bits =? 4) || (bits =? 8) then Ok bits
  else Err bits.

Definition valid_width (bits : Z) : bool :=
  (bits =? 1) || (bits =? 2) || (bits =? 4) || (bits =? 8).

(** ** The reference in a credential (checker.go) *)

(** [asInt]: [json.Number.Int64] is [strconv.ParseInt] in base ten, which
    accepts what [Atoi] accepts. *)
Definition asInt (v : value) : option Z :=
  match v with
  | VInt KInt n => Some n
  | VInt KInt64 n => Some n
  | VInt KUint64 n => if 2 ^ 62 <? n then None else Some n
  | VFloat f => if f64_eqb f (float64_of_Z (int_of_float64 f)) then Some (int_of_float64 f) else None
  | VNumber lit => atoi lit
  | _ => None
  end.

Inductive invalid_ref := NoUri | NoIdx | IdxNotInteger | IdxNegative (idx : Z).

Record StatusRef := mkStatusRef {
  ref_URI : string; ref_Idx : Z; ref_Invalid : option invalid_ref }.

Definition ExtractStatusRef (claims : object) : option StatusRef :=
  match as_obj (index claims "status") with
  | None => None
  | Some status =>
      match as_obj (index status "status_list") with
      | None => None
      | Some sl =>
          let uri := get_string sl "uri" in
          if String.eqb uri "" then Some (mkStatusRef "" 0 (Some NoUri))
          else match get "idx" sl with
               | None => Some (mkStatusRef uri 0 (Some NoIdx))
               | Some rawIdx =>
                   match asInt rawIdx with
                   | None => Some (mkStatusRef uri 0 (Some IdxNotInteger))
                   | Some idx =>
                       if idx <? 0 then Some (mkStatusRef uri 0 (Some (IdxNegative idx)))
                       else Some (mkStatusRef uri idx None)
                   end
               end
      end
  end.

(** ** The bit string (checker.go) *)

Inductive extract_error :=
| IdxIsNegative (idx : Z)
| WidthNotAllowed (bits : Z)
| IdxOutOfRange (idx entries : Z)
| IndexPanic (byteIdx : Z).

(** [bitstring[byteIdx]] panics out of range; [IndexPanic] marks that branch. *)
Definition extractStatus (bitstring : list Z) (idx bits : Z) : result extract_error Z :=
  if idx <? 0 then Err (IdxIsNegative idx)
  else if negb (valid_width bits) then Err (WidthNotAllowed bits)
  else
    let entries := wrap64 (Z.of_nat (length bitstring) * 8) / bits in
    if entries <=? idx then Err (IdxOutOfRange idx entries)
    else
      let bitPos := wrap64 (idx * bits) in
      let byteIdx := bitPos ÷ 8 in
      let bitOffset := Z.rem bitPos 8 in
      let mask := Z.shiftl 1 bits - 1 in
      match bitstring !! Z.to_nat byteIdx with
      | Some b => Ok (Z.land (Z.shiftr b bitOffset) mask)
      | None => Err (IndexPanic byteIdx)
      end.

(** *** Specification: a status list is one little-endian number, entry [i]
    being its [i]-th digit in base [2^bits]. *)

Fixpoint le_value (bs : list Z) : Z :=
  match bs with [] => 0 | b :: bs => b + 256 * le_value bs end.

Definition entry_spec (bs : list Z) (idx bits : Z) : Z :=
  le_value bs / 2 ^ (idx * bits) mod 2 ^ bits.

Lemma valid_width_cases bits :
  valid_width bits = true <-> bits = 1 \/ bits = 2 \/ bits = 4 \/ bits = 8.
Proof. unfold valid_width. bsimpl. tauto. Qed.

Lemma testbit_above b w n : 0 <= b < 2 ^ w -> 0 <= w <= n -> Z.testbit b n = false.
Proof.
  intros Hb Hn. destruct (decide (b = 0)) as [->|]; [apply Z.testbit_0_l|].
  apply Z.bits_above_log2; [lia|]. apply Z.log2_lt_pow2; [lia|].
  apply Z.lt_le_trans with (2 ^ w); [lia|]. apply Z.pow_le_mono_r; lia.
Qed.

Lemma byte_lor_shift b v : is_byte b -> b + 256 * v = Z.lor b (Z.shiftl v 8).
Proof.
  intros Hb. rewrite Z.mul_comm. change 256 with (2 ^ 8). rewrite <- Z.shiftl_mul_pow2 by lia.
  assert (Hdisj : Z.land b (Z.shiftl v 8) = 0).
  { apply Z.bits_inj'. intros i Hi. rewrite Z.land_spec, Z.testbit_0_l, Z.shiftl_spec by done.
    destruct (Z.lt_ge_cases i 8); [rewrite (Z.testbit_neg_r _ (i - 8)) by lia; apply andb_false_r|].
    by rewrite (testbit_above b 8 i). }
  rewrite Z.add_nocarry_lxor, Z.lxor_lor by done. done.
Qed.

Lemma le_value_testbit bs n :
  Forall is_byte bs -> 0 <= n ->
  Z.testbit (le_value bs) n =
    match bs !! Z.to_nat (n / 8) with Some b => Z.testbit b (n mod 8) | None => false end.
Proof.
  intros H. revert n. induction H as [|b bs Hb Hbs IH]; intros n Hn; simpl.
  - by rewrite Z.testbit_0_l.
  - rewrite byte_lor_shift, Z.lor_spec, Z.shiftl_spec by done.
    destruct (Z.lt_ge_cases n 8) as [Hlt|Hge].
    + rewrite (Z.testbit_neg_r _ (n - 8)), orb_false_r by lia.
      rewrite Z.div_small, Z.mod_small by lia. done.
    + rewrite IH, (testbit_above b 8 n) by (unfold is_byte in *; lia). simpl.
      replace ((n - 8) / 8) with (n / 8 - 1) by zlia.
      replace ((n - 8) mod 8) with (n mod 8) by zlia.
      by replace (Z.to_nat (n / 8)) with (S (Z.to_nat (n / 8 - 1))) by zlia.
Qed.

(** A list of at most [2^59] bytes: its bit count fits an int. *)
Definition fits (bs : list Z) : Prop := Z.of_nat (length bs) * 8 < 2 ^ 62.

Lemma width_div bits x : valid_width bits = true -> 0 <= x -> (x * 8) / bits * bits = x * 8.
Proof. rewrite valid_width_cases. intros [-> | [-> | [-> | ->]]] Hx; zlia. Qed.

(** A width divides eight, so an entry never straddles two bytes. *)
Lemma width_fits_byte idx bits n :
  valid_width bits = true -> 0 <= idx -> 0 <= n < bits ->
  (idx * bits + n) / 8 = (idx * bits) / 8 /\ (idx * bits + n) mod 8 = (idx * bits) mod 8 + n.
Proof. rewrite valid_width_cases. intros [-> | [-> | [-> | ->]]] Hi Hn; zlia. Qed.

Lemma land_mask v bits : 0 <= bits -> Z.land v (Z.shiftl 1 bits - 1) = v mod 2 ^ bits.
Proof.
  intros H. rewrite Z.shiftl_1_l, <- Z.land_ones by done. by rewrite Z.ones_equiv, Z.sub_1_r.
Qed.

Lemma entry_byte bs idx bits b :
  Forall is_byte bs -> valid_width bits = true -> 0 <= idx ->
  bs !! Z.to_nat (idx * bits / 8) = Some b ->
  Z.land (Z.shiftr b ((idx * bits) mod 8)) (Z.shiftl 1 bits - 1) = entry_spec bs idx bits.
Proof.
  intros Hbs Hw Hidx Hb. pose proof Hw as Hc. rewrite valid_width_cases in Hc.
  unfold entry_spec. rewrite land_mask by lia.
  rewrite <- !Z.land_ones, <- Z.shiftr_div_pow2 by nia.
  apply Z.bits_inj'. intros n Hn. rewrite !Z.land_spec, !Z.testbit_ones_nonneg by lia.
  destruct (Z.ltb_spec n bits) as [Hlt|]; [|by rewrite !andb_false_r].
  rewrite !andb_true_r, !Z.shiftr_spec by done.
  destruct (width_fits_byte idx bits n Hw Hidx) as [Hd Hm]; [lia|].
  rewrite (Z.add_comm n), le_value_testbit by (try done; nia).
  rewrite (Z.add_comm n), Hd, Hb. by rewrite Hm.
Qed.

Lemma extractStatus_equation bs idx bits :
  Forall is_byte bs -> fits bs ->
  extractStatus bs idx bits =
    if idx <? 0 then Err (IdxIsNegative idx)
    else if negb (valid_width bits) then Err (WidthNotAllowed bits)
    else let entries := Z.of_nat (length bs) * 8 / bits in
         if entries <=? idx then Err (IdxOutOfRange idx entries)
         else Ok (entry_spec bs idx bits).
Proof.
  intros Hbs Hfit. unfold extractStatus, fits in *.
  destruct (Z.ltb_spec idx 0) as [|Hidx]; [done|].
  destruct (valid_width bits) eqn:Hw; simpl; [|done].
  rewrite (wrap64_small (Z.of_nat (length bs) * 8)) by lia.
  destruct (Z.leb_spec (Z.of_nat (length bs) * 8 / bits) idx) as [|Hin]; [done|].
  pose proof (width_div bits (Z.of_nat (length bs)) Hw) as Hdiv.
  pose proof Hw as Hc. rewrite valid_width_cases in Hc.
  assert (Hpos : 0 <= idx * bits <= (Z.of_nat (length bs) * 8) - bits) by nia.
  rewrite wrap64_small by lia. rewrite Z.quot_div_nonneg, Z.rem_mod_nonneg by lia.
  destruct (lookup_lt_is_Some_2 bs (Z.to_nat (idx * bits / 8))) as [b Hb]; [zlia|].
  rewrite Hb. f_equal. by apply entry_byte.
Qed.

Lemma entry_spec_bounds bs idx bits : 0 <= bits -> 0 <= entry_spec bs idx bits < 2 ^ bits.
Proof. intros. apply Z.mod_pos_bound. lia. Qed.

(** ** The Status List Token (checker.go)

    X.509 parsing and path validation, JOSE signature verification and the
    DEFLATE decoders are libraries. *)

Class Crypto := {
  PublicKey : Type;
  Certificate : Type;
  cert_key : Certificate -> PublicKey;
  cert_name : Certificate -> string;
  (** [certchain.FromX5C]: DER certificates of an x5c header. *)
  from_x5c : value -> option (list Certificate);
  (** [keys.ParseJWK] of the marshalled header value. *)
  parse_jwk : value -> option PublicKey;
  (** [certchain.Verify] of a chain against parsed trust anchors. *)
  verify_chain : list Certificate -> list string -> option Certificate;
  (** [jws.Valid]: the compact serialization verifies with the key. *)
  jws_valid : string -> PublicKey -> bool;
  (** A decoder's output before its first error, and whether it errs. [zlib]
      is [None] when the ZLIB header does not parse. *)
  zlib : string -> option (list Z * bool);
  flate : string -> list Z * bool;
  (** [keys.DIDReference]. *)
  did_reference : string -> string
}.

Inductive token_error :=
| FetchFailed | NotCompactJWS | HeaderBase64 | HeaderJson | TypHeader (typ : string)
| BadX5C | NoChainForTrustList | ChainNotTrusted | KeyNamedByDID (did : string) | NoKey
| AlgNotAccepted (alg : string) | SignatureInvalid | PayloadBase64 | PayloadJson
| NoStatusListClaim | BitsNotInteger | LstBase64 | CwtError (e : why)
| NoSubject | SubjectMismatch (sub uri : string) | NoIssuedAt | TokenExpired
| NoBits | BadBits (bits : Z) | NoLst
| DecompressFailed | DecompressTooLarge
| RefMissing | RefInvalid (r : invalid_ref) | RefNoUri | RefNegative (idx : Z)
| ExtractFailed (e : extract_error).

Inductive token_warning :=
| ChainNotValidated | SelfCarriedKey | TtlNotPositive | NoExp | IssuedInFuture
| FormatWarning (contentType : string) | RawDeflate | TypeByContentFormat (id : Z).

Record statusListToken := mkToken {
  tok_format : string;
  tok_subject : string;
  tok_issuedAt : option time;
  tok_expiresAt : option time;
  tok_bits : Z;
  tok_lst : string;
  tok_signatureInfo : string;
  tok_trustAnchored : bool;
  tok_warnings : list token_warning }.

Definition MediaTypeJWT : string := "application/statuslist+jwt".
Definition MediaTypeCWT : string := "application/statuslist+cwt".
Definition TypJWT : string := "statuslist+jwt".
Definition FormatJWT : string := "jwt".
Definition FormatCWT : string := "cwt".

Definition isStatusListTyp (typ want : string) : bool :=
  let typ := to_lower (trim_space typ) in
  String.eqb typ want || String.eqb typ ("application/" +:+ want).

Definition unixClaim (v : value) : option time := unix <$> asInt v.

Definition acceptHeader (prefer : string) : string :=
  if String.eqb prefer FormatJWT then MediaTypeJWT +:+ ", " +:+ MediaTypeCWT +:+ ";q=0.5"
  else if String.eqb prefer FormatCWT then MediaTypeCWT +:+ ", " +:+ MediaTypeJWT +:+ ";q=0.5"
  else MediaTypeJWT +:+ ", " +:+ MediaTypeCWT.

Definition FormatForCredential (credentialFormat : string) : string :=
  if String.eqb credentialFormat "mso_mdoc" || String.eqb credentialFormat "mdoc"
  then FormatCWT else FormatJWT.

Definition looksLikeCompactJWS (body : string) : bool :=
  let trimmed := trim_space body in
  (count "."%char trimmed =? 2)%nat &&
  all_bytes (fun c => let n := Z.of_nat (Ascii.nat_of_ascii c) in (32 <=? n) && (n <=? 126)) trimmed.

(** [mediaType] is what [mime.ParseMediaType] gave, in lower case, or [""]. *)
Definition detectFormat (contentType mediaType body : string) : string * option token_warning :=
  if String.eqb mediaType MediaTypeJWT then (FormatJWT, None)
  else if String.eqb mediaType MediaTypeCWT then (FormatCWT, None)
  else (if looksLikeCompactJWS body then FormatJWT else FormatCWT, Some (FormatWarning contentType)).

Definition maxBitstringBytes : Z := Z.shiftl 16 20.

Section checker.
Context `{Json} `{Crypto}.

Record CheckOptions := mkOptions {
  opt_TrustListCerts : list string;
  opt_CandidateAnchors : list string;
  opt_Keys : list PublicKey;
  opt_now : time }.

Record keyCandidates := mkCandidates {
  kc_keys : list PublicKey;
  kc_info : string;
  kc_anchored : bool;
  kc_warning : option token_warning }.

Definition chain_candidates (leaf : Certificate) : keyCandidates :=
  mkCandidates [cert_key leaf] ("x5c chain valid, signed by " +:+ cert_name leaf) true None.

(** The keys found without a trust anchor: the token's own certificate, or
    the key in its header. *)
Definition own_candidates (certs : list Certificate) (embedded : list PublicKey) (named : string) :
  result token_error keyCandidates :=
  match certs with
  | leaf :: _ =>
      Ok (mkCandidates [cert_key leaf]
            ("signed by the token's own certificate for " +:+ cert_name leaf) false
            (Some ChainNotValidated))
  | [] =>
      match embedded with
      | _ :: _ => Ok (mkCandidates embedded "signed by the key the token carries in its own header"
                        false (Some SelfCarriedKey))
      | [] => let did := did_reference named in
              if String.eqb did "" then Err NoKey else Err (KeyNamedByDID did)
      end
  end.

Definition resolveKeys (certs : list Certificate) (embedded : list PublicKey) (named : string)
  (opts : CheckOptions) : result token_error keyCandidates :=
  match opt_TrustListCerts opts with
  | _ :: _ =>
      match certs with
      | [] => Err NoChainForTrustList
      | _ => match verify_chain certs (opt_TrustListCerts opts) with
             | None => Err ChainNotTrusted
             | Some leaf => Ok (chain_candidates leaf)
             end
      end
  | [] =>
      match opt_Keys opts with
      | _ :: _ => Ok (mkCandidates (opt_Keys opts) "signed by a key the caller resolved out of band" true None)
      | [] =>
          match opt_CandidateAnchors opts, certs with
          | _ :: _, _ :: _ =>
              match verify_chain certs (opt_CandidateAnchors opts) with
              | Some leaf => Ok (chain_candidates leaf)
              | None => own_candidates certs embedded named
              end
          | _, _ => own_candidates certs embedded named
          end
      end
  end.

Definition embedded_key (header : object) : list PublicKey :=
  match get "jwk" header with
  | Some jwk => match parse_jwk jwk with Some k => [k] | None => [] end
  | None => []
  end.

Definition ttl_warnings (payload : object) : list token_warning :=
  match get "ttl" payload with
  | Some ttl => match asInt ttl with
                | Some n => if n <=? 0 then [TtlNotPositive] else []
                | None => [TtlNotPositive]
                end
  | None => []
  end.

(** The payload part: claims to token. *)
Definition token_of_payload (cand : keyCandidates) (payload : object) : result token_error statusListToken :=
  match as_obj (index payload "status_list") with
  | None => Err NoStatusListClaim
  | Some sl =>
      let bits := match get "bits" sl with Some b => asInt b | None => Some 0 end in
      match bits with
      | None => Err BitsNotInteger
      | Some bits =>
          let lst := match as_string (index sl "lst") with
                     | Some l => DecodeBase64URL l
                     | None => Some ""
                     end in
          match lst with
          | None => Err LstBase64
          | Some lst =>
              Ok {| tok_format := FormatJWT;
                    tok_subject := get_string payload "sub";
                    tok_issuedAt := unixClaim (index payload "iat");
                    tok_expiresAt := unixClaim (index payload "exp");
                    tok_bits := bits;
                    tok_lst := lst;
                    tok_signatureInfo := kc_info cand;
                    tok_trustAnchored := kc_anchored cand;
                    tok_warnings := option_list (kc_warning cand) ++ ttl_warnings payload |}
          end
      end
  end.

Definition parseJWTStatusListToken (body : string) (opts : CheckOptions) :
  result token_error statusListToken :=
  let compact := trim_space body in
  match split_n 3 "."%char compact with
  | [p0; p1; _] =>
      match DecodeBase64URL p0 with
      | None => Err HeaderBase64
      | Some headerBytes =>
          match unmarshal_object headerBytes with
          | None => Err HeaderJson
          | Some header =>
              let typ := get_string header "typ" in
              if negb (isStatusListTyp typ TypJWT) then Err (TypHeader typ)
              else match from_x5c (index header "x5c") with
              | None => Err BadX5C
              | Some certs =>
                  let? cand := resolveKeys certs (embedded_key header) (get_string header "kid") opts in
                  let alg := get_string header "alg" in
                  if negb (String.eqb alg "ES256" || String.eqb alg "ES384") then Err (AlgNotAccepted alg)
                  else if negb (existsb (jws_valid compact) (kc_keys cand)) then Err SignatureInvalid
                  else match DecodeBase64URL p1 with
                       | None => Err PayloadBase64
                       | Some payloadBytes =>
                           match unmarshal_object payloadBytes with
                           | None => Err PayloadJson
                           | Some payload => token_of_payload cand payload
                           end
                       end
              end
          end
      end
  | _ => Err NotCompactJWS
  end.

Definition add_warnings (t : statusListToken) (ws : list token_warning) : statusListToken :=
  {| tok_format := tok_format t; tok_subject := tok_subject t; tok_issuedAt := tok_issuedAt t;
     tok_expiresAt := tok_expiresAt t; tok_bits := tok_bits t; tok_lst := tok_lst t;
     tok_signatureInfo := tok_signatureInfo t; tok_trustAnchored := tok_trustAnchored t;
     tok_warnings := tok_warnings t ++ ws |}.

(** Section 4.1 requires the ZLIB format around the DEFLATE stream. *)
Definition note_raw (raw : bool) (t : statusListToken) : statusListToken :=
  if raw then add_warnings t [RawDeflate] else t.

(** [validate] mutates the token's warnings: it returns the new token. *)
Definition validate (t : statusListToken) (ref : StatusRef) (opts : CheckOptions) :
  result token_error statusListToken :=
  if String.eqb (tok_subject t) "" then Err NoSubject
  else if negb (String.eqb (tok_subject t) (ref_URI ref))
  then Err (SubjectMismatch (tok_subject t) (ref_URI ref))
  else match tok_issuedAt t with
  | None => Err NoIssuedAt
  | Some iat =>
      if Expired (tok_expiresAt t) (opt_now opts) then Err TokenExpired
      else
        let ws := match tok_expiresAt t with Some _ => [] | None => [NoExp] end
                  ++ if NotYet (Some iat) (opt_now opts) then [IssuedInFuture] else [] in
        if tok_bits t =? 0 then Err NoBits
        else if negb (valid_width (tok_bits t)) then Err (BadBits (tok_bits t))
        else if String.eqb (tok_lst t) "" then Err NoLst
        else Ok (add_warnings t ws)
  end.

(** [io.ReadAll(io.LimitReader(r, max+1))]: an error past the limit is not
    reached. *)
Definition readBounded (r : list Z * bool) : result token_error (list Z) :=
  let '(out, err) := r in
  if maxBitstringBytes <? Z.of_nat (length out) then Err DecompressTooLarge
  else if err then Err DecompressFailed
  else Ok out.

Definition zlibDecompress (data : string) : result token_error (list Z * bool) :=
  match zlib data with
  | Some r => let? out := readBounded r in Ok (out, false)
  | None => let? out := readBounded (flate data) in Ok (out, true)
  end.

Record StatusResult := mkResult {
  res_URI : string; res_Index : Z; res_Status : Z; res_StatusName : string;
  res_IsValid : bool; res_BitsPerEntry : Z; res_Format : string; res_Subject : string;
  res_SignatureValid : bool; res_SignatureInfo : string; res_TrustAnchored : bool;
  res_Warnings : list token_warning }.

(** What the HTTP request gave: body, Content-Type and its media type. *)
Context (fetch : string -> option (string * string * string)).
(** [parseCWTStatusListToken] of StatusListCwt (cwt.go). *)
Context (parseCWT : string -> CheckOptions -> result token_error statusListToken).

Definition CheckWithOptions (ref : option StatusRef) (opts : CheckOptions) : result token_error StatusResult :=
  match ref with
  | None => Err RefMissing
  | Some ref =>
      match ref_Invalid ref with
      | Some r => Err (RefInvalid r)
      | None =>
          if String.eqb (ref_URI ref) "" then Err RefNoUri
          else if ref_Idx ref <? 0 then Err (RefNegative (ref_Idx ref))
          else match fetch (ref_URI ref) with
          | None => Err FetchFailed
          | Some (body, contentType, mediaType) =>
              let '(fmt, warn) := detectFormat contentType mediaType body in
              let? tok := (if String.eqb fmt FormatCWT then parseCWT body opts
                           else parseJWTStatusListToken body opts) in
              let? tok := validate (add_warnings tok (option_list warn)) ref opts in
              let? d := zlibDecompress (tok_lst tok) in
              let tok := note_raw (snd d) tok in
              match extractStatus (fst d) (ref_Idx ref) (tok_bits tok) with
              | Err e => Err (ExtractFailed e)
              | Ok status =>
                  Ok {| res_URI := ref_URI ref; res_Index := ref_Idx ref; res_Status := status;
                        res_StatusName := StatusName status; res_IsValid := status =? 0;
                        res_BitsPerEntry := tok_bits tok; res_Format := tok_format tok;
                        res_Subject := tok_subject tok; res_SignatureValid := true;
                        res_SignatureInfo := tok_signatureInfo tok;
                        res_TrustAnchored := tok_trustAnchored tok;
                        res_Warnings := tok_warnings tok |}
              end
          end
      end
  end.

(** ** What a successful check establishes *)

(** Keys that something other than the token vouches for: the leaf of a chain
    to the trust list or, without one, keys of the caller or a chain to the
    candidate anchors. *)
Inductive trusted_keys (certs : list Certificate) (opts : CheckOptions) : list PublicKey -> Prop :=
| trusted_by_list leaf :
    opt_TrustListCerts opts <> [] -> verify_chain certs (opt_TrustListCerts opts) = Some leaf ->
    trusted_keys certs opts [cert_key leaf]
| trusted_by_caller : opt_TrustListCerts opts = [] -> opt_Keys opts <> [] -> trusted_keys certs opts (opt_Keys opts)
| trusted_by_candidate leaf :
    opt_TrustListCerts opts = [] -> verify_chain certs (opt_CandidateAnchors opts) = Some leaf ->
    trusted_keys certs opts [cert_key leaf].

(** Where the candidate keys come from: something vouches for them, or they
    are the token's own, which takes a check without trust list and without
    keys of the caller and leaves a warning. *)
Lemma resolveKeys_source certs emb named opts cand :
  resolveKeys certs emb named opts = Ok cand ->
  kc_anchored cand = true /\ trusted_keys certs opts (kc_keys cand) \/
  kc_anchored cand = false /\ opt_TrustListCerts opts = [] /\ opt_Keys opts = [] /\
  ((exists leaf rest, certs = leaf :: rest /\ kc_keys cand = [cert_key leaf] /\ kc_warning cand = Some ChainNotValidated) \/
   (certs = [] /\ kc_keys cand = emb /\ kc_warning cand = Some SelfCarriedKey)).
Proof.
  assert (Hown : own_candidates certs emb named = Ok cand -> kc_anchored cand = false /\
    ((exists leaf rest, certs = leaf :: rest /\ kc_keys cand = [cert_key leaf] /\ kc_warning cand = Some ChainNotValidated) \/
     (certs = [] /\ kc_keys cand = emb /\ kc_warning cand = Some SelfCarriedKey))).
  { unfold own_candidates. intros Ho. repeat case_match; simplify_eq; simpl; split; eauto 6. }
  unfold resolveKeys. intros Hr. destruct (opt_TrustListCerts opts) as [|a l] eqn:El.
  - destruct (opt_Keys opts) as [|k ks] eqn:Ek.
    + assert (Hc : forall leaf, verify_chain certs (opt_CandidateAnchors opts) = Some leaf ->
        cand = chain_candidates leaf -> kc_anchored cand = true /\ trusted_keys certs opts (kc_keys cand)).
      { intros leaf Hv ->. split; [done|]. by apply trusted_by_candidate. }
      repeat case_match; simplify_eq; try (left; by eapply Hc); right; by destruct (Hown Hr).
    + simplify_eq. left. split; [done|]. simpl. rewrite <- Ek. apply trusted_by_caller; [done|by rewrite Ek].
  - repeat case_match; simplify_eq. left. split; [done|]. apply trusted_by_list; [by rewrite El|congruence].
Qed.

Lemma token_of_payload_inv cand payload tok :
  token_of_payload cand payload = Ok tok ->
  tok_trustAnchored tok = kc_anchored cand /\ forall w, kc_warning cand = Some w -> w ∈ tok_warnings tok.
Proof.
  unfold token_of_payload. intros H1. repeat case_match; simplify_eq; (split; [done|]); intros w ->; simpl; by left.
Qed.

(** The signature of the compact serialization is checked with a resolved
    key, and the payload read is the one it signs. *)
Definition signed_token (body : string) (opts : CheckOptions) (cand : keyCandidates) (certs : list Certificate) (payload : object) : Prop :=
  exists p0 p1 p2 headerBytes header payloadBytes key,
    split_n 3 "."%char (trim_space body) = [p0; p1; p2] /\
    DecodeBase64URL p0 = Some headerBytes /\ unmarshal_object headerBytes = Some header /\
    isStatusListTyp (get_string header "typ") TypJWT = true /\
    DecodeBase64URL p1 = Some payloadBytes /\ unmarshal_object payloadBytes = Some payload /\
    from_x5c (index header "x5c") = Some certs /\
    resolveKeys certs (embedded_key header) (get_string header "kid") opts = Ok cand /\
    key ∈ kc_keys cand /\ jws_valid (trim_space body) key = true.

Lemma parseJWT_inv body opts tok :
  parseJWTStatusListToken body opts = Ok tok ->
  exists cand certs payload, signed_token body opts cand certs payload /\ token_of_payload cand payload = Ok tok.
Proof.
  unfold parseJWTStatusListToken. intros H1.
  repeat (case_match; simplify_eq; try done).
  match goal with
  | Hs : negb (existsb _ (kc_keys ?c)) = false, Hx : from_x5c _ = Some ?certs, Hp : token_of_payload _ ?p = Ok _ |- _ =>
      apply negb_false_iff, existsb_exists in Hs as (key & Hin & Hv); exists c, certs, p;
      split; [|done]; do 6 eexists; exists key; repeat split; try done; [by apply negb_false_iff|by apply list_elem_of_In]
  end.
Qed.

Lemma validate_inv tok ref opts tok' :
  validate tok ref opts = Ok tok' ->
  tok_subject tok = ref_URI ref /\ is_Some (tok_issuedAt tok) /\ Expired (tok_expiresAt tok) (opt_now opts) = false /\
  valid_width (tok_bits tok) = true /\ exists ws, tok' = add_warnings tok ws.
Proof.
  unfold validate. intros H1. repeat (case_match; simplify_eq; try done).
  all: bsimpl; repeat split; try done; by eexists.
Qed.

Lemma zlibDecompress_bounded data out raw :
  zlibDecompress data = Ok (out, raw) -> Z.of_nat (length out) <= maxBitstringBytes.
Proof.
  unfold zlibDecompress, readBounded. intros H1.
  repeat (case_match; simplify_eq; try done); bsimpl; lia.
Qed.

End checker.

(** Reading an entry computes the entry of the specification (the digit
    of the list's little-endian value in base [2^bits]), below [2^bits], exactly
    on the indices the list holds, with no arithmetic overflow and no index
    panic; every other input is refused with its error. *)
Theorem extractStatus_refines bs idx bits :
  Forall is_byte bs -> fits bs ->
  (extractStatus bs idx bits =
    if idx <? 0 then Err (IdxIsNegative idx)
    else if negb (valid_width bits) then Err (WidthNotAllowed bits)
    else let entries := Z.of_nat (length bs) * 8 / bits in
         if entries <=? idx then Err (IdxOutOfRange idx entries)
         else Ok (entry_spec bs idx bits)) /\
  (forall v, extractStatus bs idx bits = Ok v -> 0 <= v < 2 ^ bits).
Proof.
  intros Hbs Hf. pose proof (extractStatus_equation bs idx bits Hbs Hf) as He.
  split; [done|]. intros v Hv. rewrite He in Hv. clear He. cbv zeta in Hv.
  repeat (case_match; simplify_eq; try done). apply entry_spec_bounds.
  match goal with Hw : negb _ = false |- _ =>
    apply negb_false_iff, valid_width_cases in Hw end. lia.
Qed.

Lemma extractStatus_refines_witness :
  extractStatus [226; 21; 196] 5 4 = Ok 12 /\ 0 <= 12 < 2 ^ 4.
Proof.
  split; [reflexivity|].
  apply (extractStatus_refines [226; 21; 196] 5 4); [|unfold fits; simpl; lia|reflexivity].
  by apply bytes_ok.
Defined.

(** [BitsForStatus] picks the least of the widths 1, 2, 4 and 8 that
    can hold the value, and fails exactly outside 0..255. *)
Theorem BitsForStatus_least max :
  match BitsForStatus max with
  | Ok bits => valid_width bits = true /\ 0 <= max < 2 ^ bits /\
               forall b, valid_width b = true -> max < 2 ^ b -> bits <= b
  | Err _ => max < 0 \/ 255 < max
  end.
Proof.
  unfold BitsForStatus.
  repeat case_match; simplify_eq; bsimpl; try lia;
    (split; [done|split; [lia|]]; intros b Hb; rewrite valid_width_cases in Hb;
     destruct Hb as [-> | [-> | [-> | ->]]]; simpl; lia).
Qed.
