(* ===== verification/SDJWT.v ===== *)
(** * SDJWT: internal/sdjwt, RFC 9901 processing.

    process.go walks the issuer-signed payload with a mutable [processor]:
    digests seen and used, deviations found.  Here the processor is threaded
    as a state, and the recursion through disclosures, which is not
    structural, is cut by fuel; [None] is a recursion deeper than the fuel. *)

From Stdlib Require Import Ascii ZArith Lia.
From stdpp Require Import base list strings gmap.
From S2P Require Import Prelude GoStrings GoValue Format.

(** ** types.go *)

Record Disclosure := mkDisclosure {
  d_Raw : string;
  d_Decoded : string;
  d_Salt : string;
  d_Name : string;
  d_Value : value;
  d_Digest : string;
  d_IsArrayEntry : bool }.

(** The errors of parseDisclosure. *)
Inductive disclosure_error :=
| DiscBase64 | DiscJson | DiscAlg (alg : string) | SaltNotString | NameNotString
| DiscLength (n : Z).

(** The messages appended to [deviations], with their arguments. *)
Inductive deviation :=
| DisclosureRepeated (digest : string)
| DisclosureUnreferenced (digest : string) (isArrayEntry : bool) (name : string)
| NestedSdAlg
| SdNotArray
| SdEntryNotString
| DigestRepeatedInSd (digest : string)
| TwoElementsInSd (digest : string)
| ForbiddenName (digest name : string)
| ClaimExists (digest name : string)
| PlaceholderOtherKeys (n : Z)
| PlaceholderNotString
| ThreeElementsInArray (digest : string)
| SameDigestTwice
| SdAlgNotString
| SdAlgUnknown (alg : string)
| DisclosureUnparsable (position : Z) (e : disclosure_error).

(** ** process.go *)

Record processor := mkProcessor {
  p_seen : gset string;
  p_used : gset string;
  p_deviations : list deviation;
  p_reportedDuplicateDigest : bool }.

Definition deviate (d : deviation) (p : processor) : processor :=
  mkProcessor (p_seen p) (p_used p) (p_deviations p ++ [d]) (p_reportedDuplicateDigest p).

Definition mark_used (digest : string) (p : processor) : processor :=
  mkProcessor (p_seen p) ({[digest]} ∪ p_used p) (p_deviations p) (p_reportedDuplicateDigest p).

Definition markSeen (digest : string) (p : processor) : processor :=
  if decide (digest ∈ p_seen p) then
    if p_reportedDuplicateDigest p then p
    else mkProcessor (p_seen p) (p_used p) (p_deviations p ++ [SameDigestTwice]) true
  else mkProcessor ({[digest]} ∪ p_seen p) (p_used p) (p_deviations p) (p_reportedDuplicateDigest p).

Inductive placeholder := NotPlaceholder | Placeholder (digest : string) | BadPlaceholder (d : deviation).

Definition arrayElementDigest (item : value) : placeholder :=
  match item with
  | VObj obj =>
      match get "..." obj with
      | None => NotPlaceholder
      | Some raw =>
          if negb (length obj =? 1)%nat then BadPlaceholder (PlaceholderOtherKeys (Z.of_nat (length obj) - 1))
          else match as_string raw with
               | Some digest => Placeholder digest
               | None => BadPlaceholder PlaceholderNotString
               end
      end
  | _ => NotPlaceholder
  end.

(** Why a disclosure found for a digest of an [_sd] array is not inserted
    (steps 3.c.ii.1 to 3.c.ii.3). *)
Definition sd_refusal (digest : string) (disc : Disclosure) (result : object) : option deviation :=
  if d_IsArrayEntry disc then Some (TwoElementsInSd digest)
  else if String.eqb (d_Name disc) "_sd" || String.eqb (d_Name disc) "..."
  then Some (ForbiddenName digest (d_Name disc))
  else match get (d_Name disc) result with
       | Some _ => Some (ClaimExists digest (d_Name disc))
       | None => None
       end.

Section process.
Context (byDigest : gmap string Disclosure).

(** [p.value] on a member, an element or a disclosed value. *)
Context (rec : value -> processor -> option (value * processor)).

(** The first loop of [object].  Go visits the members in no particular
    order; the model visits them in the object's. *)
Fixpoint object_members (top : bool) (obj : object) (result : object) (p : processor) :
  option (object * processor) :=
  match obj with
  | [] => Some (result, p)
  | (k, v) :: obj =>
      if String.eqb k "_sd" then object_members top obj result p
      else if String.eqb k "_sd_alg" then
        object_members top obj result (if top then p else deviate NestedSdAlg p)
      else '(v', p) ← rec v p; object_members top obj (set k v' result) p
  end.

(** The loop over the [_sd] array. *)
Fixpoint sd_entries (entries : list value) (localSeen : gset string) (result : object) (p : processor) :
  option (object * processor) :=
  match entries with
  | [] => Some (result, p)
  | entry :: entries =>
      match as_string entry with
      | None => sd_entries entries localSeen result (deviate SdEntryNotString p)
      | Some digest =>
          if decide (digest ∈ localSeen) then
            sd_entries entries localSeen result (deviate (DigestRepeatedInSd digest) p)
          else
            let localSeen := {[digest]} ∪ localSeen in
            let p := markSeen digest p in
            match byDigest !! digest with
            | None => sd_entries entries localSeen result p
            | Some disc =>
                match sd_refusal digest disc result with
                | Some d => sd_entries entries localSeen result (deviate d p)
                | None =>
                    '(v', p) ← rec (d_Value disc) (mark_used digest p);
                    sd_entries entries localSeen (set (d_Name disc) v' result) p
                end
            end
      end
  end.

Definition process_object (obj : object) (top : bool) (p : processor) : option (object * processor) :=
  '(result, p) ← object_members top obj [] p;
  match get "_sd" obj with
  | None => Some (result, p)
  | Some rawSD =>
      match as_arr rawSD with
      | None => Some (result, deviate SdNotArray p)
      | Some entries => sd_entries entries ∅ result p
      end
  end.

Fixpoint process_array (arr : list value) (p : processor) : option (list value * processor) :=
  match arr with
  | [] => Some ([], p)
  | item :: arr =>
      match arrayElementDigest item with
      | BadPlaceholder d => process_array arr (deviate d p)
      | NotPlaceholder =>
          '(v', p) ← rec item p;
          '(l, p) ← process_array arr p;
          Some (v' :: l, p)
      | Placeholder digest =>
          let p := markSeen digest p in
          match byDigest !! digest with
          | None => process_array arr p
          | Some disc =>
              if d_IsArrayEntry disc then
                '(v', p) ← rec (d_Value disc) (mark_used digest p);
                '(l, p) ← process_array arr p;
                Some (v' :: l, p)
              else process_array arr (deviate (ThreeElementsInArray digest) p)
          end
      end
  end.
End process.

Fixpoint process_value (fuel : nat) (bd : gmap string Disclosure) (v : value) (p : processor) :
  option (value * processor) :=
  match fuel with
  | 0 => None
  | S fuel =>
      match v with
      | VObj obj => '(o, p) ← process_object bd (process_value fuel bd) obj false p; Some (VObj o, p)
      | VArr arr => '(l, p) ← process_array bd (process_value fuel bd) arr p; Some (VArr l, p)
      | _ => Some (v, p)
      end
  end.

(** The digest index, and the repeated disclosures it skips. *)
Fixpoint index_disclosures (ds : list Disclosure) (bd : gmap string Disclosure) (p : processor) :
  gmap string Disclosure * processor :=
  match ds with
  | [] => (bd, p)
  | d :: ds =>
      match bd !! d_Digest d with
      | Some _ => index_disclosures ds bd (deviate (DisclosureRepeated (d_Digest d)) p)
      | None => index_disclosures ds (<[d_Digest d := d]> bd) p
      end
  end.

Definition new_processor : processor := mkProcessor ∅ ∅ [] false.

(** Step 5: the disclosures no digest referenced. *)
Definition unreferenced (used : gset string) (ds : list Disclosure) : list deviation :=
  filter_map (fun d => if decide (d_Digest d ∈ used) then None
                       else Some (DisclosureUnreferenced (d_Digest d) (d_IsArrayEntry d) (d_Name d))) ds.

Definition processPayload (fuel : nat) (payload : object) (ds : list Disclosure) :
  option (object * list deviation) :=
  let '(bd, p) := index_disclosures ds ∅ new_processor in
  '(resolved, p) ← process_object bd (process_value fuel bd) payload true p;
  Some (resolved, p_deviations p ++ unreferenced (p_used p) ds).

(** ** parser.go *)

Class Hash := { sha256 : string -> string; sha384 : string -> string; sha512 : string -> string }.

Definition defaultSDAlg : string := "sha-256".

Definition hashForSDAlg `{Hash} (sdAlg : string) : option (string -> string) :=
  if String.eqb sdAlg "sha-256" then Some sha256
  else if String.eqb sdAlg "sha-384" then Some sha384
  else if String.eqb sdAlg "sha-512" then Some sha512
  else None.

Definition SDAlgFromPayload (payload : object) : string :=
  match as_string (index payload "_sd_alg") with
  | Some alg => if String.eqb alg "" then defaultSDAlg else alg
  | None => defaultSDAlg
  end.

Definition computeDigest `{Hash} (raw sdAlg : string) : result disclosure_error string :=
  match hashForSDAlg sdAlg with
  | None => Err (DiscAlg sdAlg)
  | Some h => Ok (EncodeBase64URL (h raw))
  end.

Definition parseDisclosure `{Json} `{Hash} (raw sdAlg : string) : result disclosure_error Disclosure :=
  match DecodeBase64URL raw with
  | None => Err DiscBase64
  | Some decoded =>
      match unmarshal_array decoded with
      | None => Err DiscJson
      | Some arr =>
          let? digest := computeDigest raw sdAlg in
          match arr with
          | [salt; name; v] =>
              match as_string salt, as_string name with
              | Some salt, Some name => Ok (mkDisclosure raw decoded salt name v digest false)
              | None, _ => Err SaltNotString
              | _, None => Err NameNotString
              end
          | [salt; v] =>
              match as_string salt with
              | Some salt => Ok (mkDisclosure raw decoded salt "" v digest true)
              | None => Err SaltNotString
              end
          | _ => Err (DiscLength (Z.of_nat (length arr)))
          end
      end
  end.

Record JWT := mkJWT { j_Raw : string; j_Header : object; j_Payload : object; j_Signature : option string }.

Definition parseJWT `{Json} (raw : string) : result jwt_error JWT :=
  let? p := ParseJWTParts raw in
  Ok (mkJWT raw (jp_header p) (jp_payload p) (jp_sig p)).

Definition parseKeyBindingJWT `{Json} (component : string) : option JWT :=
  if negb (count "."%char component =? 2)%nat then None
  else match parseJWT component with
       | Err _ => None
       | Ok jwt =>
           match as_string (index (j_Header jwt) "typ") with
           | Some typ => if String.eqb typ "kb+jwt" then Some jwt else None
           | None => None
           end
       end.

Inductive token_warning :=
| MissingLastTilde
| ArrayUndisclosed (name : string) (n : Z)
| ObjectUndisclosed (name : string) (n : Z).

Inductive parse_error := NoJwtPart | JwtError (e : jwt_error) | EmptyComponent (position : Z).

(** The first empty component between two tildes. *)
Fixpoint empty_component (position : Z) (parts : list string) : option Z :=
  match parts with
  | [] => None
  | d :: parts => if String.eqb (trim_space d) "" then Some position
                  else empty_component (position + 1) parts
  end.

Definition splitComponents `{Json} (components : list string) :
  result parse_error (list string * option JWT * option token_warning) :=
  match last components with
  | None => Ok ([], None, None)
  | Some lastc =>
      let lastc := trim_space lastc in
      let front := take (length components - 1) components in
      let '(discParts, kb, warning) :=
        if String.eqb lastc "" then (front, None, None)
        else match parseKeyBindingJWT lastc with
             | Some jwt => (front, Some jwt, None)
             | None => (components, None, Some MissingLastTilde)
             end in
      match empty_component 1 discParts with
      | Some i => Err (EmptyComponent i)
      | None => Ok (discParts, kb, warning)
      end
  end.

(** A disclosed array or object whose children are all undisclosed. *)
Definition array_undisclosed (digests : gset string) (l : list value) : bool :=
  negb (bool_decide (l = [])) &&
  forallb (fun item => match arrayElementDigest item with
                       | Placeholder ds => negb (bool_decide (ds ∈ digests))
                       | _ => false
                       end) l.

Definition object_undisclosed (digests : gset string) (m : object) (sdArr : list value) : bool :=
  negb (bool_decide (sdArr = [])) &&
  forallb (fun k => String.eqb k "_sd" || String.eqb k "_sd_alg") (keys m) &&
  forallb (fun item => match as_string item with
                       | Some ds => negb (bool_decide (ds ∈ digests))
                       | None => true
                       end) sdArr.

Definition checkFullyUndisclosedChildren (ds : list Disclosure) : list token_warning :=
  let digests : gset string := list_to_set (map d_Digest ds) in
  filter_map (fun d =>
    if d_IsArrayEntry d then None
    else match d_Value d with
         | VArr l => if array_undisclosed digests l
                     then Some (ArrayUndisclosed (d_Name d) (Z.of_nat (length l))) else None
         | VObj m => match as_arr (index m "_sd") with
                     | Some sdArr => if object_undisclosed digests m sdArr
                                     then Some (ObjectUndisclosed (d_Name d) (Z.of_nat (length sdArr)))
                                     else None
                     | None => None
                     end
         | _ => None
         end) ds.

Record Token := mkToken {
  t_Raw : string;
  t_Header : object;
  t_Payload : object;
  t_Signature : option string;
  t_Disclosures : list Disclosure;
  t_KeyBindingJWT : option JWT;
  t_ResolvedClaims : object;
  t_Warnings : list token_warning;
  t_Deviations : list deviation }.

(** The hash the disclosures are matched with, and the deviation when the
    payload names none that can be computed. *)
Definition structure_alg `{Hash} (payload : object) : string * list deviation :=
  match get "_sd_alg" payload with
  | None => (defaultSDAlg, [])
  | Some rawAlg =>
      match as_string rawAlg with
      | None => (defaultSDAlg, [SdAlgNotString])
      | Some alg => match hashForSDAlg alg with
                    | None => (defaultSDAlg, [SdAlgUnknown alg])
                    | Some _ => (alg, [])
                    end
      end
  end.

Fixpoint parse_disclosures `{Json} `{Hash} (sdAlg : string) (position : Z) (parts : list string) :
  list Disclosure * list deviation :=
  match parts with
  | [] => ([], [])
  | d :: parts =>
      let '(ds, devs) := parse_disclosures sdAlg (position + 1) parts in
      match parseDisclosure d sdAlg with
      | Ok disc => (disc :: ds, devs)
      | Err e => (ds, DisclosureUnparsable position e :: devs)
      end
  end.

Definition parseStructure `{Json} `{Hash} (raw : string) : result parse_error Token :=
  let raw := trim_space raw in
  let parts := split "~"%char raw in
  match parts with
  | [] => Err NoJwtPart
  | first :: rest =>
      if String.eqb first "" then Err NoJwtPart
      else match parseJWT first with
      | Err e => Err (JwtError e)
      | Ok jwt =>
          let '(sdAlg, algDevs) := structure_alg (j_Payload jwt) in
          match splitComponents rest with
          | Err e => Err e
          | Ok (discParts, kb, warning) =>
              let '(ds, devs) := parse_disclosures sdAlg 1 discParts in
              Ok {| t_Raw := raw; t_Header := j_Header jwt; t_Payload := j_Payload jwt;
                    t_Signature := j_Signature jwt; t_Disclosures := ds; t_KeyBindingJWT := kb;
                    t_ResolvedClaims := []; t_Warnings := option_list warning;
                    t_Deviations := algDevs ++ devs |}
          end
      end
  end.

Definition resolve_token (t : Token) (resolved : object) (devs : list deviation) : Token :=
  {| t_Raw := t_Raw t; t_Header := t_Header t; t_Payload := t_Payload t;
     t_Signature := t_Signature t; t_Disclosures := t_Disclosures t;
     t_KeyBindingJWT := t_KeyBindingJWT t; t_ResolvedClaims := resolved;
     t_Warnings := t_Warnings t ++ checkFullyUndisclosedChildren (t_Disclosures t);
     t_Deviations := t_Deviations t ++ devs |}.

(** [None] when the fuel does not cover the nesting of the disclosures. *)
Definition ParseLenient `{Json} `{Hash} (fuel : nat) (raw : string) : option (result parse_error Token) :=
  match parseStructure raw with
  | Err e => Some (Err e)
  | Ok t => '(resolved, devs) ← processPayload fuel (t_Payload t) (t_Disclosures t);
            Some (Ok (resolve_token t resolved devs))
  end.

Inductive strict_error := Malformed (e : parse_error) | Deviates (ds : list deviation).

Definition Parse `{Json} `{Hash} (fuel : nat) (raw : string) : option (result strict_error Token) :=
  r ← ParseLenient fuel raw;
  Some (match r with
        | Err e => Err (Malformed e)
        | Ok t => match t_Deviations t with [] => Ok t | ds => Err (Deviates ds) end
        end).

(** *** ReferencedDigests *)

Definition sd_strings (v : value) : gset string :=
  match as_arr v with Some l => list_to_set (strings_of l) | None => ∅ end.

Fixpoint collectDigests (v : value) (out : gset string) : gset string :=
  match v with
  | VObj m =>
      match arrayElementDigest (VObj m) with
      | Placeholder digest => {[digest]} ∪ out
      | _ => (fix go (m : object) (out : gset string) : gset string :=
                match m with
                | [] => out
                | (k, x) :: m => go m (if String.eqb k "_sd" then sd_strings x ∪ out
                                       else collectDigests x out)
                end) m out
      end
  | VArr l => (fix go (l : list value) (out : gset string) : gset string :=
                 match l with [] => out | x :: l => go l (collectDigests x out) end) l out
  | _ => out
  end.

Definition ReferencedDigests (t : Token) : gset string :=
  foldl (fun out d => collectDigests (d_Value d) out)
        (collectDigests (VObj (t_Payload t)) ∅) (t_Disclosures t).
