(* ===== verification/SDJWTFacts.v ===== *)
(** * SDJWTFacts: what RFC 9901 processing guarantees.

    The walk of process.go is related to a specification without state: a
    function giving the resolved value and the list of events (digests marked
    seen, digests used, deviations) in order.  The processor's final state is
    the run of those events, so the resolved claims do not depend on it. *)

From Stdlib Require Import Ascii ZArith Lia.
From stdpp Require Import base list strings gmap.
From S2P Require Import Prelude GoStrings GoValue Format SDJWT.

(** ** The stateless walk *)

Inductive event := ESeen (digest : string) | EUsed (digest : string) | EDev (d : deviation).

Definition run_event (p : processor) (e : event) : processor :=
  match e with
  | ESeen digest => markSeen digest p
  | EUsed digest => mark_used digest p
  | EDev d => deviate d p
  end.

Definition run (es : list event) (p : processor) : processor := foldl run_event p es.

Lemma run_app es1 es2 p : run (es1 ++ es2) p = run es2 (run es1 p).
Proof. apply foldl_app. Qed.

Section walk.
Context (bd : gmap string Disclosure) (rec : value -> option (value * list event)).

Fixpoint walk_members (top : bool) (obj : object) (result : object) : option (object * list event) :=
  match obj with
  | [] => Some (result, [])
  | (k, v) :: obj =>
      if String.eqb k "_sd" then walk_members top obj result
      else if String.eqb k "_sd_alg" then
        '(r, es) ← walk_members top obj result;
        Some (r, (if top then [] else [EDev NestedSdAlg]) ++ es)
      else '(v', es1) ← rec v; '(r, es2) ← walk_members top obj (set k v' result);
           Some (r, es1 ++ es2)
  end.

Fixpoint walk_sd (entries : list value) (localSeen : gset string) (result : object) :
  option (object * list event) :=
  match entries with
  | [] => Some (result, [])
  | entry :: entries =>
      match as_string entry with
      | None => '(r, es) ← walk_sd entries localSeen result; Some (r, EDev SdEntryNotString :: es)
      | Some digest =>
          if decide (digest ∈ localSeen) then
            '(r, es) ← walk_sd entries localSeen result;
            Some (r, EDev (DigestRepeatedInSd digest) :: es)
          else
            let localSeen := {[digest]} ∪ localSeen in
            match bd !! digest with
            | None => '(r, es) ← walk_sd entries localSeen result; Some (r, ESeen digest :: es)
            | Some disc =>
                match sd_refusal digest disc result with
                | Some d => '(r, es) ← walk_sd entries localSeen result;
                            Some (r, ESeen digest :: EDev d :: es)
                | None =>
                    '(v', es1) ← rec (d_Value disc);
                    '(r, es2) ← walk_sd entries localSeen (set (d_Name disc) v' result);
                    Some (r, ESeen digest :: EUsed digest :: es1 ++ es2)
                end
            end
      end
  end.

Definition walk_object (obj : object) (top : bool) : option (object * list event) :=
  '(result, es1) ← walk_members top obj [];
  match get "_sd" obj with
  | None => Some (result, es1)
  | Some rawSD =>
      match as_arr rawSD with
      | None => Some (result, es1 ++ [EDev SdNotArray])
      | Some entries => '(r, es2) ← walk_sd entries ∅ result; Some (r, es1 ++ es2)
      end
  end.

Fixpoint walk_array (arr : list value) : option (list value * list event) :=
  match arr with
  | [] => Some ([], [])
  | item :: arr =>
      match arrayElementDigest item with
      | BadPlaceholder d => '(l, es) ← walk_array arr; Some (l, EDev d :: es)
      | NotPlaceholder => '(v', es1) ← rec item; '(l, es2) ← walk_array arr; Some (v' :: l, es1 ++ es2)
      | Placeholder digest =>
          match bd !! digest with
          | None => '(l, es) ← walk_array arr; Some (l, ESeen digest :: es)
          | Some disc =>
              if d_IsArrayEntry disc then
                '(v', es1) ← rec (d_Value disc);
                '(l, es2) ← walk_array arr;
                Some (v' :: l, ESeen digest :: EUsed digest :: es1 ++ es2)
              else '(l, es) ← walk_array arr;
                   Some (l, ESeen digest :: EDev (ThreeElementsInArray digest) :: es)
          end
      end
  end.
End walk.

Fixpoint walk_value (fuel : nat) (bd : gmap string Disclosure) (v : value) : option (value * list event) :=
  match fuel with
  | 0 => None
  | S fuel =>
      match v with
      | VObj obj => '(o, es) ← walk_object bd (walk_value fuel bd) obj false; Some (VObj o, es)
      | VArr arr => '(l, es) ← walk_array bd (walk_value fuel bd) arr; Some (VArr l, es)
      | _ => Some (v, [])
      end
  end.

(** ** The processor runs the walk's events *)

Section refine.
Context (bd : gmap string Disclosure).
Context (prec : value -> processor -> option (value * processor)).
Context (wrec : value -> option (value * list event)).
Context (Hrec : forall v p, prec v p = '(v', es) ← wrec v; Some (v', run es p)).

Lemma members_refine top obj result p :
  object_members prec top obj result p =
    '(r, es) ← walk_members wrec top obj result; Some (r, run es p).
Proof using Hrec.
  revert result p. induction obj as [|[k v] obj IH]; intros result p; simpl; [done|].
  repeat case_match; rewrite ?Hrec, ?IH; simpl.
  - by destruct (walk_members _ _ _ _) as [[]|].
  - by destruct (walk_members _ _ _ _) as [[]|].
  - by destruct (walk_members _ _ _ _) as [[]|].
  - destruct (wrec v) as [[v' es]|]; simpl; [|done]. rewrite IH.
    destruct (walk_members _ _ _ _) as [[]|]; simpl; [|done]. by rewrite run_app.
Qed.

Lemma sd_refine entries ls result p :
  sd_entries bd prec entries ls result p =
    '(r, es) ← walk_sd bd wrec entries ls result; Some (r, run es p).
Proof using Hrec.
  revert ls result p. induction entries as [|e entries IH]; intros ls result p; simpl; [done|].
  repeat (case_match || case_decide); rewrite ?IH; simpl.
  all: try (destruct (walk_sd _ _ _ _ _) as [[]|]; simpl; done).
  all: rewrite Hrec; destruct (wrec _) as [[v' es]|]; simpl; [|done]; rewrite IH;
    destruct (walk_sd _ _ _ _ _) as [[]|]; simpl; [|done]; by rewrite run_app.
Qed.

Lemma object_refine obj top p :
  process_object bd prec obj top p = '(r, es) ← walk_object bd wrec obj top; Some (r, run es p).
Proof using Hrec.
  unfold process_object, walk_object. rewrite members_refine.
  destruct (walk_members _ _ _ _) as [[r es]|]; simpl; [|done].
  repeat case_match; simpl; try done.
  - rewrite sd_refine. destruct (walk_sd _ _ _ _ _) as [[]|]; simpl; [|done]. by rewrite run_app.
  - by rewrite run_app.
Qed.

Lemma array_refine arr p :
  process_array bd prec arr p = '(l, es) ← walk_array bd wrec arr; Some (l, run es p).
Proof using Hrec.
  revert p. induction arr as [|item arr IH]; intros p; simpl; [done|].
  repeat case_match; rewrite ?IH; simpl.
  all: try (destruct (walk_array _ _ _) as [[]|]; simpl; done).
  all: rewrite Hrec; destruct (wrec _) as [[v' es]|]; simpl; [|done]; rewrite IH;
    destruct (walk_array _ _ _) as [[]|]; simpl; [|done]; by rewrite run_app.
Qed.
End refine.

Lemma value_refine fuel bd v p :
  process_value fuel bd v p = '(v', es) ← walk_value fuel bd v; Some (v', run es p).
Proof.
  revert v p. induction fuel as [|fuel IH]; intros v p; simpl; [done|].
  destruct v; simpl; try done.
  - rewrite (array_refine _ _ _ IH). by destruct (walk_array _ _ _) as [[]|].
  - rewrite (object_refine _ _ _ IH). by destruct (walk_object _ _ _ _) as [[]|].
Qed.

(** ** Members and disclosed claims of one object *)

Definition hidden (k : string) : bool := String.eqb k "_sd" || String.eqb k "_sd_alg".

Section object_facts.
Context (bd : gmap string Disclosure) (rec : value -> option (value * list event)).

Lemma walk_members_get top obj result r es k :
  walk_members rec top obj result = Some (r, es) -> wf_object obj ->
  get k r = if hidden k then get k result
            else match get k obj with Some v => fst <$> rec v | None => get k result end.
Proof.
  unfold wf_object. revert result r es.
  induction obj as [|[k0 v0] obj IH]; intros result r es Hw Hnd; simpl in *.
  { simplify_eq. by destruct (hidden k). }
  apply NoDup_cons in Hnd as [Hk0 Hnd].
  destruct (hidden k0) eqn:Hh.
  - assert (exists es', walk_members rec top obj result = Some (r, es')) as [es' Hw'].
    { unfold hidden in Hh. destruct (String.eqb k0 "_sd"); [by eauto|]. simpl in Hh. rewrite Hh in Hw.
      destruct (walk_members _ _ _ _) as [[]|]; simplify_option_eq. by eauto. }
    rewrite (IH _ _ _ Hw' Hnd). destruct (hidden k) eqn:Hk; [done|].
    destruct (String.eqb_spec k k0) as [->|]; [congruence|done].
  - unfold hidden in Hh. apply orb_false_iff in Hh as [Hh1 Hh2]. rewrite Hh1, Hh2 in Hw.
    destruct (rec v0) as [[v' es1]|] eqn:Hr; simplify_option_eq.
    destruct (walk_members _ _ _ _) as [[r' es2]|] eqn:Hw'; simplify_option_eq.
    rewrite (IH _ _ _ Hw' Hnd), get_set.
    destruct (String.eqb_spec k k0) as [->|]; [|done].
    assert (get k0 obj = None) as -> by (by apply get_None_keys).
    unfold hidden. rewrite Hh1, Hh2. by rewrite Hr.
Qed.

(** A claim present at the level is never replaced by a disclosure. *)
Lemma walk_sd_mono entries ls result r es k v :
  walk_sd bd rec entries ls result = Some (r, es) -> get k result = Some v -> get k r = Some v.
Proof.
  revert ls result r es. induction entries as [|e entries IH]; intros ls result r es Hw Hk; simpl in *.
  { by simplify_eq. }
  destruct (as_string e) as [digest|]; [case_decide; [|case_match; [case_match|]]|]; bind_inv; eauto.
  eapply IH; [done|]. rewrite get_set_ne; [done|]. intros ->.
  unfold sd_refusal in *. rewrite Hk in *. by repeat case_match.
Qed.

(** What a disclosure may add: a three-element disclosure that the [_sd]
    array lists, under a name that is not reserved. *)
Definition disclosed (entries : list value) (k : string) (v : value) : Prop :=
  exists digest disc es,
    VString digest ∈ entries /\ bd !! digest = Some disc /\ d_Name disc = k /\
    d_IsArrayEntry disc = false /\ k <> "_sd" /\ k <> "..." /\ rec (d_Value disc) = Some (v, es).

Lemma disclosed_cons e entries k v : disclosed entries k v -> disclosed (e :: entries) k v.
Proof. intros (d & disc & es & Hin & ?). exists d, disc, es. split; [by right|done]. Qed.

Lemma walk_sd_origin entries ls result r es k v :
  walk_sd bd rec entries ls result = Some (r, es) -> get k r = Some v ->
  get k result = Some v \/ disclosed entries k v.
Proof.
  revert ls result r es. induction entries as [|e entries IH]; intros ls result r es Hw Hk; simpl in *.
  { simplify_eq. by left. }
  destruct (as_string e) as [digest|] eqn:Ee; [case_decide; [|case_match; [case_match|]]|]; bind_inv;
    match goal with Hw' : walk_sd _ _ entries _ ?res = Some (r, _) |- _ =>
      destruct (IH _ _ _ _ Hw' Hk) as [?|?]; [|right; by apply disclosed_cons] end;
    try (by left).
  rewrite get_set in *. destruct (String.eqb_spec k (d_Name d)) as [->|]; [|by left]. simplify_eq.
  right. destruct e; simplify_eq/=. exists digest, d, l. unfold sd_refusal in *.
  repeat (case_match; simplify_eq). bsimpl. destruct_and?. set_solver.
Qed.

Lemma walk_object_inv obj top r es :
  walk_object bd rec obj top = Some (r, es) ->
  exists r0 es0, walk_members rec top obj [] = Some (r0, es0) /\
    (r = r0 \/ exists entries es2, get "_sd" obj = Some (VArr entries) /\
                                   walk_sd bd rec entries ∅ r0 = Some (r, es2)).
Proof.
  unfold walk_object. intros H. apply bind_Some in H as ([r0 es0] & Hm & H).
  exists r0, es0. split; [done|]. destruct (get "_sd" obj) as [[]|]; simplify_eq/=; eauto.
  bind_inv. right. by eauto.
Qed.
End object_facts.

(** *** Signed claims and the origin of claims *)

Lemma walk_object_signed bd rec obj top r es k v :
  walk_object bd rec obj top = Some (r, es) -> wf_object obj -> hidden k = false ->
  get k obj = Some v -> exists v' es', rec v = Some (v', es') /\ get k r = Some v'.
Proof.
  intros Hw Hwf Hh Hk. destruct (walk_object_inv _ _ _ _ _ _ Hw) as (r0 & es0 & Hm & Hr).
  assert (Hg : get k r0 = fst <$> rec v).
  { rewrite (walk_members_get _ _ _ _ _ _ _ Hm Hwf), Hh. by rewrite Hk. }
  destruct (rec v) as [[v' es']|] eqn:Er; simpl in Hg.
  - exists v', es'. split; [done|]. destruct Hr as [->|(entries & es2 & _ & Hs)]; [done|].
    by eapply walk_sd_mono.
  - exfalso. clear Hg Hr Hwf r es Hw. revert Hm. generalize (@nil (string * value)) as res.
    revert r0 es0 Hk. induction obj as [|[k0 v0] obj IH]; intros r0 es0 Hk res Hm; simpl in *; [done|].
    unfold hidden in Hh. apply orb_false_iff in Hh as [Hh1 Hh2].
    destruct (String.eqb_spec k k0) as [->|]; simplify_eq; rewrite ?Hh1, ?Hh2, ?Er in Hm; [done|].
    repeat case_match; bind_inv; eauto.
Qed.

Lemma walk_object_origin bd rec obj top r es k v :
  walk_object bd rec obj top = Some (r, es) -> wf_object obj -> get k r = Some v ->
  (hidden k = false /\ exists v0 es0, get k obj = Some v0 /\ rec v0 = Some (v, es0)) \/
  exists entries, get "_sd" obj = Some (VArr entries) /\ disclosed bd rec entries k v.
Proof.
  intros Hw Hwf Hk. destruct (walk_object_inv _ _ _ _ _ _ Hw) as (r0 & es0 & Hm & Hr).
  assert (Hg : get k r0 = Some v -> hidden k = false /\ exists v0 es0, get k obj = Some v0 /\ rec v0 = Some (v, es0)).
  { rewrite (walk_members_get _ _ _ _ _ _ _ Hm Hwf). simpl. destruct (hidden k); [done|].
    destruct (get k obj) as [v0|]; [|done]. destruct (rec v0) as [[]|] eqn:E; simpl; [|done].
    intros; simplify_eq. eauto. }
  destruct Hr as [->|(entries & es2 & Hsd & Hs)]; [auto|].
  destruct (walk_sd_origin _ _ _ _ _ _ _ _ _ Hs Hk); eauto.
Qed.

(** ** No digest array survives *)

(** No object of the value, at any depth, has an [_sd] member. *)
Inductive clean : value -> Prop :=
| clean_arr l : Forall clean l -> clean (VArr l)
| clean_obj m : get "_sd" m = None -> Forall (fun kv => clean (snd kv)) m -> clean (VObj m)
| clean_scalar v : as_arr v = None -> as_obj v = None -> clean v.

Definition clean_object (m : object) : Prop :=
  get "_sd" m = None /\ Forall (fun kv => clean (snd kv)) m.

Lemma clean_set k v m : k <> "_sd" -> clean v -> clean_object m -> clean_object (set k v m).
Proof.
  intros Hk Hv [Hm Hf]. split; [by rewrite get_set_ne|].
  clear Hm. induction Hf as [|[k' v'] m Hv' Hf IH]; simpl; [constructor; [done|constructor]|].
  destruct (String.eqb k k'); by constructor.
Qed.

Section clean_facts.
Context (bd : gmap string Disclosure) (rec : value -> option (value * list event)).
Context (Hrec : forall v v' es, rec v = Some (v', es) -> clean v').

Lemma walk_members_clean top obj result r es :
  walk_members rec top obj result = Some (r, es) -> clean_object result -> clean_object r.
Proof using Hrec.
  revert result r es. induction obj as [|[k v] obj IH]; intros result r es Hw Hc; simpl in *.
  { by simplify_eq. }
  destruct (String.eqb_spec k "_sd"); [by eauto|]. case_match; bind_inv; [by eauto|].
  eapply IH; [done|]. apply clean_set; eauto.
Qed.

Lemma walk_sd_clean entries ls result r es :
  walk_sd bd rec entries ls result = Some (r, es) -> clean_object result -> clean_object r.
Proof using Hrec.
  revert ls result r es. induction entries as [|e entries IH]; intros ls result r es Hw Hc; simpl in *.
  { by simplify_eq. }
  destruct (as_string e) as [digest|]; [case_decide; [|case_match; [case_match|]]|]; bind_inv; eauto.
  eapply IH; [done|]. apply clean_set; eauto. intros Hn. unfold sd_refusal in *.
  rewrite Hn in *. simpl in *. by case_match.
Qed.

Lemma walk_object_clean obj top r es : walk_object bd rec obj top = Some (r, es) -> clean_object r.
Proof using Hrec.
  intros Hw. destruct (walk_object_inv _ _ _ _ _ _ Hw) as (r0 & es0 & Hm & Hr).
  apply walk_members_clean in Hm; [|by split].
  destruct Hr as [->|(entries & es2 & _ & Hs)]; [done|]. by eapply walk_sd_clean.
Qed.

Lemma walk_array_clean arr l es : walk_array bd rec arr = Some (l, es) -> Forall clean l.
Proof using Hrec.
  revert l es. induction arr as [|item arr IH]; intros l es Hw; simpl in *.
  { simplify_eq. constructor. }
  destruct (arrayElementDigest item); [|case_match; [case_match|]|]; bind_inv; eauto.
  all: constructor; eauto.
Qed.
End clean_facts.

Lemma walk_value_clean fuel bd v v' es : walk_value fuel bd v = Some (v', es) -> clean v'.
Proof.
  revert v v' es. induction fuel as [|fuel IH]; intros v v' es Hw; simpl in *; [done|].
  destruct v; simplify_eq/=; try (by apply clean_scalar); bind_inv.
  - constructor. by eapply walk_array_clean.
  - match goal with Ho : walk_object _ _ _ _ = _ |- _ => apply walk_object_clean in Ho as [? ?] end; [|done].
    by constructor.
Qed.

(** ** Termination

    A disclosure's digest is a hash of the disclosure, so a disclosure cannot
    contain, directly or through others, its own digest: the digests of its
    value have a lower rank. *)

Inductive refs : value -> string -> Prop :=
| refs_sd m entries d : get "_sd" m = Some (VArr entries) -> VString d ∈ entries -> refs (VObj m) d
| refs_member m k v d : (k, v) ∈ m -> refs v d -> refs (VObj m) d
| refs_placeholder l item d : item ∈ l -> arrayElementDigest item = Placeholder d -> refs (VArr l) d
| refs_element l item d : item ∈ l -> refs item d -> refs (VArr l) d.

Definition acyclic (bd : gmap string Disclosure) (rank : string -> nat) : Prop :=
  forall digest disc d, bd !! digest = Some disc -> refs (d_Value disc) d -> is_Some (bd !! d) ->
    rank d < rank digest.

(** The walk is defined on [v] from some fuel on. *)
Definition settles (bd : gmap string Disclosure) (v : value) : Prop :=
  exists f, forall f', f <= f' -> is_Some (walk_value f' bd v).

Lemma settles_all bd (l : list value) :
  (forall v, v ∈ l -> settles bd v) ->
  exists f, forall f', f <= f' -> forall v, v ∈ l -> is_Some (walk_value f' bd v).
Proof.
  induction l as [|x l IH]; intros H; [exists 0; set_solver|].
  destruct (H x) as [f1 H1]; [by left|]. destruct IH as [f2 H2]; [intros; apply H; by right|].
  exists (f1 `max` f2). intros f' Hf' v [->|Hv]%elem_of_cons; [apply H1|apply H2]; try done; lia.
Qed.

Section total.
Context (bd : gmap string Disclosure) (rec : value -> option (value * list event)).

Lemma walk_members_total top obj result :
  (forall k v, (k, v) ∈ obj -> is_Some (rec v)) -> is_Some (walk_members rec top obj result).
Proof.
  revert result. induction obj as [|[k v] obj IH]; intros result H; simpl; [by eexists|].
  assert (Ht : forall result, is_Some (walk_members rec top obj result)).
  { intros. apply IH. intros k' v' Hin. apply (H k'). by right. }
  destruct (String.eqb k "_sd"); [done|]. destruct (String.eqb k "_sd_alg").
  - destruct (Ht result) as [[r es] ->]. by eexists.
  - destruct (H k v) as [[v' es1] ->]; [by left|]. simpl.
    destruct (Ht (set k v' result)) as [[r es] ->]. by eexists.
Qed.

Lemma walk_sd_total entries ls result :
  (forall d disc, VString d ∈ entries -> bd !! d = Some disc -> is_Some (rec (d_Value disc))) ->
  is_Some (walk_sd bd rec entries ls result).
Proof.
  revert ls result. induction entries as [|e entries IH]; intros ls result H; simpl; [by eexists|].
  assert (Ht : forall ls result, is_Some (walk_sd bd rec entries ls result)).
  { intros. apply IH. intros d disc Hin. apply H. by right. }
  destruct (as_string e) as [digest|] eqn:Ee; [case_decide; [|case_match; [case_match|]]|].
  all: try (match goal with |- context [walk_sd _ _ _ ?l ?r] => destruct (Ht l r) as [[? ?] ->] end; by eexists).
  destruct e; simplify_eq/=. destruct (H digest d) as [[v' es1] ->]; [by left|done|]. simpl.
  destruct (Ht ({[digest]} ∪ ls) (set (d_Name d) v' result)) as [[? ?] ->]. by eexists.
Qed.

Lemma walk_object_total obj top :
  (forall k v, (k, v) ∈ obj -> is_Some (rec v)) ->
  (forall entries d disc, get "_sd" obj = Some (VArr entries) -> VString d ∈ entries ->
     bd !! d = Some disc -> is_Some (rec (d_Value disc))) ->
  is_Some (walk_object bd rec obj top).
Proof.
  intros Hm Hs. unfold walk_object. destruct (walk_members_total top obj [] Hm) as [[r es] ->]. simpl.
  destruct (get "_sd" obj) as [[]|] eqn:E; simpl; try (by eexists).
  destruct (walk_sd_total l ∅ r) as [[? ?] ->]; [by eauto|]. by eexists.
Qed.

Lemma walk_array_total arr :
  (forall v, v ∈ arr -> is_Some (rec v)) ->
  (forall item d disc, item ∈ arr -> arrayElementDigest item = Placeholder d ->
     bd !! d = Some disc -> is_Some (rec (d_Value disc))) ->
  is_Some (walk_array bd rec arr).
Proof.
  induction arr as [|item arr IH]; intros Hv Hp; simpl; [by eexists|].
  destruct IH as [[l es] Hl].
  { intros; apply Hv; by right. } { intros; eapply Hp; [by right|done|done]. }
  rewrite Hl. destruct (arrayElementDigest item) eqn:Ei; simpl.
  - destruct (Hv item) as [[? ?] ->]; [by left|]. by eexists.
  - case_match; simpl; [|by eexists]. case_match; simpl; [|by eexists].
    edestruct Hp as [[? ?] ->]; [by left|done|done|]. by eexists.
  - by eexists.
Qed.
End total.

Lemma settles_below bd rank n :
  acyclic bd rank ->
  forall v, (forall d, refs v d -> is_Some (bd !! d) -> rank d < n) -> settles bd v.
Proof.
  intros Hac. induction n as [n IHn] using lt_wf_ind.
  assert (Hdisc : forall v d disc, (forall d, refs v d -> is_Some (bd !! d) -> rank d < n) ->
            refs v d -> bd !! d = Some disc -> settles bd (d_Value disc)).
  { intros v d disc Hv Hr Hd. apply (IHn (rank d)); [by apply Hv|].
    intros d' Hr' Hd'. by eapply Hac. }
  assert (Hone : forall v, as_arr v = None -> as_obj v = None -> settles bd v).
  { intros v Ha Ho. exists 1. intros [|f] Hf; [lia|]. simpl. destruct v; simplify_eq/=; by eexists. }
  induction v as [| | | | | | | | |l IHl|m IHm] using value_ind'; intros Hv; try (by apply Hone).
  - rewrite Forall_forall in IHl.
    destruct (settles_all bd l) as [f1 H1].
    { intros v Hin. apply IHl; [done|]. intros d Hr. apply Hv. by eapply refs_element. }
    destruct (settles_all bd (filter_map (fun item => match arrayElementDigest item with
                Placeholder d => d_Value <$> bd !! d | _ => None end) l)) as [f2 H2].
    { intros v (item & Hin & Hi)%elem_of_filter_map. case_match; simplify_option_eq.
      eapply Hdisc; [exact Hv| |done]. by eapply refs_placeholder. }
    exists (S (f1 `max` f2)). intros [|f] Hf; [lia|]. simpl.
    destruct (walk_array_total bd (walk_value f bd) l) as [[? ?] ->]; [| |by eexists].
    + intros; apply H1; [lia|done].
    + intros item d disc Hin Hi Hd. apply H2; [lia|]. apply elem_of_filter_map.
      exists item. by rewrite Hi, Hd.
  - rewrite Forall_forall in IHm.
    destruct (settles_all bd (map snd m)) as [f1 H1].
    { intros v ([k v'] & -> & Hin)%list_elem_of_fmap. apply (IHm (k, v')); [done|].
      intros d Hr. apply Hv. by eapply refs_member. }
    destruct (settles_all bd (filter_map (fun e => as_string e ≫= fun d => d_Value <$> bd !! d)
                (default [] (get "_sd" m ≫= as_arr)))) as [f2 H2].
    { intros v (e & Hin & He)%elem_of_filter_map. destruct (get "_sd" m) as [[]|] eqn:Es; simpl in Hin;
        try (by apply not_elem_of_nil in Hin).
      destruct e; simplify_option_eq. eapply Hdisc; [exact Hv| |done]. by eapply refs_sd. }
    exists (S (f1 `max` f2)). intros [|f] Hf; [lia|]. simpl.
    destruct (walk_object_total bd (walk_value f bd) m false) as [[? ?] ->]; [| |by eexists].
    + intros k v Hin. apply H1; [lia|]. apply list_elem_of_fmap. by exists (k, v).
    + intros entries d disc Hs Hin Hd. apply H2; [lia|]. apply elem_of_filter_map.
      exists (VString d). rewrite Hs. simpl. by rewrite Hd.
Qed.

Lemma settles_acyclic bd rank v : acyclic bd rank -> settles bd v.
Proof.
  intros Hac.
  assert (exists n, forall d disc, bd !! d = Some disc -> rank d < n) as [n Hn].
  { clear Hac. induction bd as [|d disc bd Hd IH] using map_ind.
    - exists 0. intros d disc. by rewrite lookup_empty.
    - destruct IH as [n IH]. exists (S (rank d) `max` n). intros d' disc' Hd'.
      apply lookup_insert_Some in Hd' as [[<- _]|[_ Hd']]; [lia|]. apply IH in Hd'. lia. }
  apply (settles_below bd rank n Hac). intros d _ [disc Hd]. by eapply Hn.
Qed.

(** More fuel gives the same result. *)
Section mono.
Context (bd : gmap string Disclosure) (rec rec' : value -> option (value * list event)).
Context (Hrec : forall v r, rec v = Some r -> rec' v = Some r).

Lemma walk_members_mono top obj result r :
  walk_members rec top obj result = Some r -> walk_members rec' top obj result = Some r.
Proof using Hrec.
  revert result r. induction obj as [|[k v] obj IH]; intros result r Hw; simpl in *; [done|].
  destruct (String.eqb k "_sd"); [by apply IH|]. destruct (String.eqb k "_sd_alg"); bind_inv.
  - by erewrite IH by done.
  - erewrite Hrec by done. simpl. by erewrite IH by done.
Qed.

Lemma walk_sd_fuel_mono entries ls result r :
  walk_sd bd rec entries ls result = Some r -> walk_sd bd rec' entries ls result = Some r.
Proof using Hrec.
  revert ls result r. induction entries as [|e entries IH]; intros ls result r Hw; simpl in *; [done|].
  destruct (as_string e) as [digest|]; [case_decide; [|case_match; [case_match|]]|]; bind_inv.
  all: try (by erewrite IH by done).
  erewrite Hrec by done. simpl. by erewrite IH by done.
Qed.

Lemma walk_object_mono obj top r :
  walk_object bd rec obj top = Some r -> walk_object bd rec' obj top = Some r.
Proof using Hrec.
  unfold walk_object. intros Hw. bind_inv. erewrite walk_members_mono by done. simpl.
  repeat case_match; bind_inv; try done. by erewrite walk_sd_fuel_mono by done.
Qed.

Lemma walk_array_mono arr r : walk_array bd rec arr = Some r -> walk_array bd rec' arr = Some r.
Proof using Hrec.
  revert r. induction arr as [|item arr IH]; intros r Hw; simpl in *; [done|].
  destruct (arrayElementDigest item); [|case_match; [case_match|]|]; bind_inv.
  all: repeat match goal with
       | E : rec _ = Some _ |- _ => rewrite (Hrec _ _ E); clear E; simpl
       | E : walk_array _ _ _ = Some _ |- _ => rewrite (IH _ E); clear E; simpl
       end; done.
Qed.
End mono.

Lemma walk_value_mono f f' bd v r : f <= f' -> walk_value f bd v = Some r -> walk_value f' bd v = Some r.
Proof.
  revert f' v r. induction f as [|f IH]; intros f' v r Hf Hw; simpl in *; [done|].
  destruct f' as [|f']; [lia|]. simpl. destruct v; simpl in *; try done; bind_inv.
  all: assert (Hm : forall v r, walk_value f bd v = Some r -> walk_value f' bd v = Some r)
    by (intros; apply IH; [lia|done]).
  - match goal with E : walk_array _ _ _ = _ |- _ => by rewrite (walk_array_mono _ _ _ Hm _ _ E) end.
  - match goal with E : walk_object _ _ _ _ = _ |- _ => by rewrite (walk_object_mono _ _ _ Hm _ _ _ E) end.
Qed.

(** ** Strict processing *)

Definition seen_of (es : list event) : list string :=
  filter_map (fun e => match e with ESeen d => Some d | _ => None end) es.
Definition used_of (es : list event) : list string :=
  filter_map (fun e => match e with EUsed d => Some d | _ => None end) es.

Lemma run_event_devs e p : p_deviations p `prefix_of` p_deviations (run_event p e).
Proof.
  destruct e; simpl; unfold markSeen; repeat (case_decide || case_match); simpl; try done; by eexists.
Qed.

Lemma run_devs es p : p_deviations p `prefix_of` p_deviations (run es p).
Proof.
  revert p. induction es as [|e es IH]; intros p; simpl; [done|].
  etrans; [apply run_event_devs|]. apply IH.
Qed.

Lemma run_used es p : p_used (run es p) = list_to_set (used_of es) ∪ p_used p.
Proof.
  revert p. induction es as [|e es IH]; intros p; simpl; [set_solver|].
  rewrite IH. destruct e; simpl; [|set_solver|done].
  unfold markSeen. repeat (case_decide || case_match); done.
Qed.

Lemma run_strict es p :
  p_deviations (run es p) = [] -> p_reportedDuplicateDigest p = false ->
  p_deviations p = [] /\ (forall d, EDev d ∉ es) /\ NoDup (seen_of es) /\
  (forall d, d ∈ seen_of es -> d ∉ p_seen p).
Proof.
  revert p. induction es as [|e es IH]; intros p Hd Hr; simpl in *.
  { repeat split; [done|set_solver|constructor|set_solver]. }
  assert (Hpre : p_deviations (run_event p e) = []).
  { apply prefix_nil_inv. rewrite <- Hd. apply run_devs. }
  destruct e as [d|d|d]; simpl in *.
  - unfold markSeen in *. case_decide as Hin; [rewrite Hr in *; simpl in Hpre; by destruct (p_deviations p)|].
    destruct (IH _ Hd Hr) as (H1 & H2 & H3 & H4). simpl in *. repeat split; [done| | |].
    + set_solver.
    + constructor; [|done]. intros Hs. apply H4 in Hs. set_solver.
    + intros d' [->|Hs]%elem_of_cons; [done|]. apply H4 in Hs. set_solver.
  - destruct (IH _ Hd Hr) as (H1 & H2 & H3 & H4). simpl in *. repeat split; try done. set_solver.
  - by destruct (p_deviations p).
Qed.

Definition digest_index (ds : list Disclosure) : gmap string Disclosure :=
  fst (index_disclosures ds ∅ new_processor).

Lemma index_disclosures_inv ds bd p bd' p' :
  index_disclosures ds bd p = (bd', p') ->
  p_reportedDuplicateDigest p' = p_reportedDuplicateDigest p /\ p_used p' = p_used p /\
  p_deviations p `prefix_of` p_deviations p' /\
  (p_deviations p' = [] -> NoDup (map d_Digest ds) /\ forall d, d ∈ ds -> bd !! d_Digest d = None).
Proof.
  revert bd p. induction ds as [|d ds IH]; intros bd p Hi; simpl in *.
  { simplify_eq. repeat split; [done|constructor|set_solver]. }
  destruct (bd !! d_Digest d) eqn:E; apply IH in Hi as (H1 & H2 & H3 & H4); simpl in *.
  - split_and!; [done|done|by etrans; [apply prefix_app_r|]|]. intros Hp.
    rewrite Hp in H3. apply prefix_nil_inv in H3. by destruct (p_deviations p).
  - split_and!; [done..|]. intros Hp. destruct (H4 Hp) as [Hn Hf]. split.
    + constructor; [|done]. intros (d' & Heq & Hin)%list_elem_of_fmap.
      specialize (Hf _ Hin). rewrite <- Heq, lookup_insert_eq in Hf. done.
    + intros d' [->|Hin]%elem_of_cons; [done|]. specialize (Hf _ Hin).
      rewrite lookup_insert in Hf. by case_decide.
Qed.

Lemma processPayload_walk fuel payload ds resolved devs :
  processPayload fuel payload ds = Some (resolved, devs) ->
  exists es p, walk_object (digest_index ds) (walk_value fuel (digest_index ds)) payload true = Some (resolved, es) /\
    index_disclosures ds ∅ new_processor = (digest_index ds, p) /\
    devs = p_deviations (run es p) ++ unreferenced (p_used (run es p)) ds.
Proof.
  unfold processPayload, digest_index. intros H.
  destruct (index_disclosures ds ∅ new_processor) as [bd p] eqn:Ei. simpl.
  rewrite (object_refine _ _ _ (value_refine fuel bd)) in H. bind_inv. by eexists _, _.
Qed.

(** Processing has a result from some fuel on. *)
Lemma processPayload_total payload ds rank :
  acyclic (digest_index ds) rank ->
  exists fuel r, forall fuel', fuel <= fuel' -> processPayload fuel' payload ds = Some r.
Proof.
  intros Hac. set (bd := digest_index ds) in *.
  assert (Hs : settles bd (VObj payload)) by (by eapply settles_acyclic).
  assert (exists f r, walk_object bd (walk_value f bd) payload true = Some r) as (f & [r es] & Hr).
  { destruct (settles_all bd (map snd payload)) as [f1 H1].
    { intros. by eapply settles_acyclic. }
    destruct (settles_all bd (map d_Value (map snd (map_to_list bd)))) as [f2 H2].
    { intros. by eapply settles_acyclic. }
    exists (f1 `max` f2). apply walk_object_total.
    - intros k v Hin. apply H1; [lia|]. apply list_elem_of_fmap. by exists (k, v).
    - intros entries d disc _ _ Hd. apply H2; [lia|]. apply list_elem_of_fmap. exists disc.
      split; [done|]. apply list_elem_of_fmap. exists (d, disc). split; [done|].
      by apply elem_of_map_to_list. }
  exists f. destruct (index_disclosures ds ∅ new_processor) as [bd' p] eqn:Ei.
  assert (bd' = bd) as -> by (unfold bd, digest_index; by rewrite Ei).
  eexists. intros f' Hf'. unfold processPayload. rewrite Ei.
  rewrite (object_refine _ _ _ (value_refine f' bd)).
  rewrite (walk_object_mono _ _ _ (fun v r => walk_value_mono f f' bd v r Hf') _ _ _ Hr). done.
Qed.

(** ** The properties *)

(** A claim of the signed payload, other than the digest bookkeeping
    members, keeps its place: the resolved claims hold under its name the
    resolution of the signed value, which for a scalar is the signed value
    itself, whatever disclosures the holder sends (step 3.c.ii.3). *)
Theorem signed_claims_stand fuel payload ds resolved devs k v :
  processPayload fuel payload ds = Some (resolved, devs) ->
  wf_object payload -> hidden k = false -> get k payload = Some v ->
  exists v' es, walk_value fuel (digest_index ds) v = Some (v', es) /\
                get k resolved = Some v' /\
                (as_arr v = None -> as_obj v = None -> v' = v).
Proof.
  intros Hp Hwf Hh Hk. destruct (processPayload_walk _ _ _ _ _ Hp) as (es & p & Hw & _).
  destruct (walk_object_signed _ _ _ _ _ _ _ _ Hw Hwf Hh Hk) as (v' & es' & Hv & Hg).
  exists v', es'. split_and!; [done|done|]. intros Ha Ho.
  destruct fuel as [|fuel]; [done|]. by destruct v; simplify_eq/=.
Qed.

(** Nothing appears from nowhere: a resolved claim is a signed member,
    or the value of a three-element disclosure whose digest the signed [_sd]
    array lists, under a name other than [_sd] and [...]. *)
Theorem resolved_claims_origin fuel payload ds resolved devs k v :
  processPayload fuel payload ds = Some (resolved, devs) ->
  wf_object payload -> get k resolved = Some v ->
  (hidden k = false /\ is_Some (get k payload)) \/
  exists entries digest disc es,
    get "_sd" payload = Some (VArr entries) /\ VString digest ∈ entries /\
    digest_index ds !! digest = Some disc /\ d_Name disc = k /\ d_IsArrayEntry disc = false /\
    k <> "_sd" /\ k <> "..." /\ walk_value fuel (digest_index ds) (d_Value disc) = Some (v, es).
Proof.
  intros Hp Hwf Hk. destruct (processPayload_walk _ _ _ _ _ Hp) as (es & p & Hw & _).
  destruct (walk_object_origin _ _ _ _ _ _ _ _ Hw Hwf Hk)
    as [(Hh & v0 & es0 & Hv0 & _)|(entries & Hs & digest & disc & es' & Hd)]; [by left; eauto|].
  right. exists entries, digest, disc, es'. by destruct_and!.
Qed.

(** Digest arrays are gone from the processed payload: no object at any
    depth of the resolved claims has an [_sd] member (step 3.e). *)
Theorem resolved_claims_clean fuel payload ds resolved devs :
  processPayload fuel payload ds = Some (resolved, devs) -> clean (VObj resolved).
Proof.
  intros Hp. destruct (processPayload_walk _ _ _ _ _ Hp) as (es & p & Hw & _).
  apply walk_object_clean in Hw as [H1 H2]; [by constructor|]. intros; by eapply walk_value_clean.
Qed.

(** C36: Processing terminates: when no disclosure contains its own digest
    through others (digests are hashes of the disclosures), there is a result
    that every large enough fuel gives. *)
Theorem processing_terminates payload ds rank :
  acyclic (digest_index ds) rank ->
  exists fuel r, forall fuel', fuel <= fuel' -> processPayload fuel' payload ds = Some r.
Proof. apply processPayload_total. Qed.

(** C35: Strict parsing accepts only credentials that RFC 9901 section 7.1
    steps 3 to 5 accept: the disclosures are distinct, no embedded digest is
    encountered twice, every disclosure is referenced, and no step deviated. *)
Theorem strict_parse_sound `{Json} `{Hash} fuel raw t :
  Parse fuel raw = Some (Ok t) ->
  exists es, walk_object (digest_index (t_Disclosures t))
               (walk_value fuel (digest_index (t_Disclosures t))) (t_Payload t) true
             = Some (t_ResolvedClaims t, es) /\
    NoDup (map d_Digest (t_Disclosures t)) /\ NoDup (seen_of es) /\
    (forall d, d ∈ t_Disclosures t -> d_Digest d ∈ used_of es) /\ (forall d, EDev d ∉ es).
Proof.
  unfold Parse, ParseLenient. intros Hp. destruct (parseStructure raw) as [t0|]; simplify_eq/=.
  destruct (processPayload fuel (t_Payload t0) (t_Disclosures t0)) as [[resolved devs]|] eqn:E; simplify_eq/=.
  destruct (t_Deviations t0 ++ devs) eqn:Ed; simplify_eq/=. apply app_nil in Ed as [_ ->].
  destruct (processPayload_walk _ _ _ _ _ E) as (es & p & Hw & Hi & Hd). exists es. split; [done|].
  symmetry in Hd. apply app_nil in Hd as [Hd Hu].
  destruct (index_disclosures_inv _ _ _ _ _ Hi) as (Hr & Hus & _ & Hn). simpl in *.
  destruct (run_strict _ _ Hd Hr) as (Hp0 & He & Hs & _).
  split_and!; [by apply Hn|done| |done]. intros d Hin.
  destruct (decide (d_Digest d ∈ used_of es)) as [|Hnot]; [done|]. exfalso.
  assert (Hc : DisclosureUnreferenced (d_Digest d) (d_IsArrayEntry d) (d_Name d)
               ∈ unreferenced (p_used (run es p)) (t_Disclosures t0)).
  { apply elem_of_filter_map. exists d. split; [done|]. rewrite decide_False; [done|].
    rewrite run_used, Hus. set_solver. }
  rewrite Hu in Hc. by apply not_elem_of_nil in Hc.
Qed.

(** ** Instances for the witnesses *)
Module Toy.
(** The digest of the disclosure "ZDE" under the identity hash below. *)
Definition digest : string := EncodeBase64URL "ZDE".
Definition header : object := [("typ", VString "dc+sd-jwt")].
Definition payload : object :=
  [("vct", VString "urn:eudi:pid:1"); ("_sd", VArr [VString digest; VString "decoy"])].
Definition disclosure : Disclosure :=
  mkDisclosure "ZDE" "d1" "salt" "given_name" (VString "Erika") digest false.
Definition resolved : object := [("vct", VString "urn:eudi:pid:1"); ("given_name", VString "Erika")].

#[local] Instance json : Json := {
  unmarshal_object s := if String.eqb s "hdr" then Some header
                        else if String.eqb s "pld" then Some payload else None;
  unmarshal_array s := if String.eqb s "d1" then Some [VString "salt"; VString "given_name"; VString "Erika"]
                       else None }.
#[local] Instance hash : Hash := { sha256 s := s; sha384 s := s; sha512 s := s }.

Definition raw : string := "aGRy.cGxk.c2ln~ZDE~".

Lemma processed : processPayload 1 payload [disclosure] = Some (resolved, []).
Proof. vm_compute. reflexivity. Qed.

Lemma index_eq : digest_index [disclosure] = {[digest := disclosure]}.
Proof. vm_compute. reflexivity. Qed.

Lemma signed_claims_stand_witness :
  exists v', get "vct" resolved = Some v' /\ v' = VString "urn:eudi:pid:1".
Proof.
  destruct (signed_claims_stand 1 payload [disclosure] resolved [] "vct" (VString "urn:eudi:pid:1"))
    as (v' & es & _ & Hg & Hs); [exact processed|by_decide|reflexivity|reflexivity|].
  exists v'. split; [exact Hg|apply Hs; reflexivity].
Defined.

Lemma resolved_claims_origin_witness :
  exists entries d, get "_sd" payload = Some (VArr entries) /\ VString d ∈ entries /\
                    digest_index [disclosure] !! d = Some disclosure.
Proof.
  destruct (resolved_claims_origin 1 payload [disclosure] resolved [] "given_name" (VString "Erika"))
    as [[_ [? Hs]]|(entries & d & disc & es & He & Hin & Hd & _)];
    [exact processed|by_decide|reflexivity|discriminate Hs|].
  exists entries, d. split; [exact He|split; [exact Hin|]].
  rewrite index_eq in *. apply lookup_singleton_Some in Hd as [<- _]. apply lookup_singleton_eq.
Defined.

Lemma resolved_claims_clean_witness : clean (VObj resolved).
Proof. apply (resolved_claims_clean 1 payload [disclosure] resolved []). exact processed. Defined.

Lemma processing_terminates_witness :
  exists fuel r, forall fuel', fuel <= fuel' -> processPayload fuel' payload [disclosure] = Some r.
Proof.
  apply (processing_terminates payload [disclosure] (fun _ => 0)).
  intros d disc d' Hd Hr _. exfalso.
  rewrite index_eq in Hd. apply lookup_singleton_Some in Hd as [_ <-]. inversion Hr.
Defined.

Lemma strict_parse_sound_witness :
  exists t, Parse 1 raw = Some (Ok t) /\ t_ResolvedClaims t = resolved /\
            NoDup (map d_Digest (t_Disclosures t)).
Proof.
  destruct (Parse 1 raw) as [[t|]|] eqn:E; [|by vm_compute in E|by vm_compute in E].
  exists t. split; [reflexivity|]. split; [vm_compute in E; simplify_eq; reflexivity|].
  destruct (strict_parse_sound 1 raw t E) as (es & _ & Hn & _). exact Hn.
Defined.
End Toy.

(** The comment on [Token.ResolvedClaims] says that the [_sd] and
    [_sd_alg] keys are gone.  Digest arrays are, but a disclosure named
    [_sd_alg] is inserted like any claim: step 3.c.ii.2 refuses only the names
    [_sd] and [...]. *)
Theorem sd_alg_can_be_disclosed :
  processPayload 1 [("_sd", VArr [VString "x"])] [mkDisclosure "r" "" "s" "_sd_alg" (VString "none") "x" false]
  = Some ([("_sd_alg", VString "none")], []).
Proof. vm_compute. reflexivity. Qed.
