(* ===== verification/WalletState.v ===== *)
(** * WalletState: the credentials a wallet stores

    internal/wallet/wallet.go, wallet_import.go and credentials_file.go: the
    stored credential, the part of the wallet its store operations touch, and
    those operations, each run under the wallet's lock. *)

From Stdlib Require Import Ascii ZArith Lia.
From stdpp Require Import base list strings gmap.
From S2P Require Import Prelude GoStrings GoValue Validity StatusList SDJWT.

Local Open Scope Z_scope.

(** ** Data *)

Record ClientAuthentication := mkClientAuth {
  auth_Method : string;
  auth_Audience : string;
  auth_ChallengeEndpoint : string;
  auth_ABCADraft : Z;
  auth_CombinedPoP : bool;
  auth_LegacyClientID : string }.

Record CredentialRenewal := mkRenewal {
  ren_Issuer : string;
  ren_TokenEndpoint : string;
  ren_CredentialEndpoint : string;
  ren_ConfigurationID : string;
  ren_ClientID : string;
  ren_RefreshToken : string;
  ren_UseDPoP : bool;
  ren_ClientAuth : option ClientAuthentication }.

Record CredentialDisplay := mkDisplay {
  disp_Name : string;
  disp_Description : string;
  disp_Locale : string;
  disp_LogoURI : string;
  disp_LogoAltText : string;
  disp_BackgroundColor : string;
  disp_TextColor : string;
  disp_BackgroundURI : string }.

(** mdoc/types.go *)
Record IssuerSignedItem := mkItem {
  item_DigestID : Z;
  item_Random : list Z;
  item_ElementIdentifier : string;
  item_ElementValue : value;
  item_RawCBOR : list Z }.

Record StoredCredential := mkCred {
  ID : string;
  CFormat : string;
  Raw : string;
  Claims : object;
  VCT : string;
  DocType : string;
  Protected : bool;
  Renewal : option CredentialRenewal;
  Display : option CredentialDisplay;
  BatchGroup : string;
  BindingKeyPEM : string;
  Uses : Z;
  LastPresentedAt : time;
  Disclosures : list Disclosure;
  issuedAt : time;
  NameSpaces : list (string * list IssuerSignedItem) }.

Record StatusEntry := mkEntry { Index : Z; Status : Z }.

(** The fields of [Wallet] and [PersistedState] the store operations read or
    write.  [has_sink] tells whether [credentialSink] is set. *)
Record Wallet := mkWallet {
  Credentials : list StoredCredential;
  StatusEntries : gmap string StatusEntry;
  StatusListCounter : Z;
  capacity : Z;
  has_sink : bool }.

Definition with_credentials (w : Wallet) (cs : list StoredCredential) : Wallet :=
  mkWallet cs (StatusEntries w) (StatusListCounter w) (capacity w) (has_sink w).
Definition with_entries (w : Wallet) (es : gmap string StatusEntry) : Wallet :=
  mkWallet (Credentials w) es (StatusListCounter w) (capacity w) (has_sink w).

Definition with_ID (c : StoredCredential) (id : string) : StoredCredential :=
  mkCred id (CFormat c) (Raw c) (Claims c) (VCT c) (DocType c) (Protected c) (Renewal c) (Display c)
    (BatchGroup c) (BindingKeyPEM c) (Uses c) (LastPresentedAt c) (Disclosures c) (issuedAt c) (NameSpaces c).
Definition with_Protected (c : StoredCredential) (p : bool) : StoredCredential :=
  mkCred (ID c) (CFormat c) (Raw c) (Claims c) (VCT c) (DocType c) p (Renewal c) (Display c)
    (BatchGroup c) (BindingKeyPEM c) (Uses c) (LastPresentedAt c) (Disclosures c) (issuedAt c) (NameSpaces c).
Definition with_Renewal (c : StoredCredential) (r : option CredentialRenewal) : StoredCredential :=
  mkCred (ID c) (CFormat c) (Raw c) (Claims c) (VCT c) (DocType c) (Protected c) r (Display c)
    (BatchGroup c) (BindingKeyPEM c) (Uses c) (LastPresentedAt c) (Disclosures c) (issuedAt c) (NameSpaces c).
Definition with_batch (c : StoredCredential) (group key : string) : StoredCredential :=
  mkCred (ID c) (CFormat c) (Raw c) (Claims c) (VCT c) (DocType c) (Protected c) (Renewal c) (Display c)
    group key (Uses c) (LastPresentedAt c) (Disclosures c) (issuedAt c) (NameSpaces c).
Definition with_use (c : StoredCredential) (uses : Z) (at_ : time) : StoredCredential :=
  mkCred (ID c) (CFormat c) (Raw c) (Claims c) (VCT c) (DocType c) (Protected c) (Renewal c) (Display c)
    (BatchGroup c) (BindingKeyPEM c) uses at_ (Disclosures c) (issuedAt c) (NameSpaces c).

(** [StoredCredential.CanRenew]. *)
Definition CanRenew (c : StoredCredential) : bool :=
  match Renewal c with
  | None => false
  | Some r => negb (String.eqb (ren_RefreshToken r) "") && negb (String.eqb (ren_TokenEndpoint r) "")
              && negb (String.eqb (ren_CredentialEndpoint r) "")
  end.

(** ** Lookup *)

Fixpoint resolve_scan (creds : list StoredCredential) (idOrPrefix prefixMatch : string) (prefixCount : nat) : string :=
  match creds with
  | [] => if (prefixCount =? 1)%nat then prefixMatch else ""
  | c :: creds =>
      if String.eqb (ID c) idOrPrefix then ID c
      else if has_prefix idOrPrefix (ID c) then resolve_scan creds idOrPrefix (ID c) (S prefixCount)
      else resolve_scan creds idOrPrefix prefixMatch prefixCount
  end.

Definition resolveIDLocked (w : Wallet) (idOrPrefix : string) : string :=
  if String.eqb idOrPrefix "" then "" else resolve_scan (Credentials w) idOrPrefix "" 0.

(** The loops that return at the first credential with an ID. *)
Definition first_with_id (creds : list StoredCredential) (id : string) : option StoredCredential :=
  find_map (fun c => if String.eqb (ID c) id then Some c else None) creds.

Definition credentialByExactID (w : Wallet) (id : string) : option StoredCredential :=
  first_with_id (Credentials w) id.

Definition GetCredential (w : Wallet) (id : string) : option StoredCredential :=
  first_with_id (Credentials w) (resolveIDLocked w id).

Definition IsProtected (w : Wallet) (id : string) : bool :=
  match first_with_id (Credentials w) (resolveIDLocked w id) with
  | Some c => Protected c
  | None => false
  end.

Definition GetCredentials (w : Wallet) : list StoredCredential := Credentials w.

Definition BatchGroupSize (w : Wallet) (group : string) : nat :=
  if String.eqb group "" then O
  else length (List.filter (fun c => String.eqb (BatchGroup c) group) (Credentials w)).

Definition batchRepresentative (creds : list StoredCredential) (member : StoredCredential) : StoredCredential :=
  if String.eqb (BindingKeyPEM member) "" then member
  else default member
         (find_map (fun c => if String.eqb (BatchGroup c) (BatchGroup member) && String.eqb (BindingKeyPEM c) ""
                             then Some c else None) creds).

Fixpoint listed_loop (creds rest : list StoredCredential) (seen : gset string) : list StoredCredential :=
  match rest with
  | [] => []
  | c :: rest =>
      if String.eqb (BatchGroup c) "" then c :: listed_loop creds rest seen
      else if bool_decide (BatchGroup c ∈ seen) then listed_loop creds rest seen
      else batchRepresentative creds c :: listed_loop creds rest ({[BatchGroup c]} ∪ seen)
  end.

Definition ListedCredentials (w : Wallet) : list StoredCredential :=
  listed_loop (GetCredentials w) (GetCredentials w) ∅.

(** ** Removal *)

Definition removeByType (w : Wallet) (format vct : string) : Wallet * nat :=
  let hit c := String.eqb (CFormat c) format && (String.eqb vct "" || String.eqb (VCT c) vct) in
  (with_credentials w (List.filter (fun c => negb (hit c) || Protected c) (Credentials w)),
   length (List.filter (fun c => hit c && Protected c) (Credentials w))).

Definition removeProtected (w : Wallet) : Wallet :=
  with_credentials w (List.filter (fun c => negb (Protected c)) (Credentials w)).

Definition ClearCredentials (w : Wallet) : Wallet * nat :=
  let kept := List.filter Protected (Credentials w) in
  (with_credentials w kept, (length (Credentials w) - length kept)%nat).

(** The copies that leave the wallet with a credential. *)
Definition removed_with (full group : string) (c : StoredCredential) : bool :=
  String.eqb (ID c) full || (negb (String.eqb group "") && String.eqb (BatchGroup c) group).

Definition RemoveCredential (w : Wallet) (id : string) : Wallet * bool :=
  let full := resolveIDLocked w id in
  let found := first_with_id (Credentials w) full in
  if match found with Some c => Protected c | None => false end then (w, false)
  else
    let group := match found with Some c => BatchGroup c | None => "" end in
    if negb (String.eqb group "")
       && existsb (fun c => String.eqb (BatchGroup c) group && Protected c) (Credentials w)
    then (w, false)
    else (with_credentials w (List.filter (fun c => negb (removed_with full group c)) (Credentials w)),
          existsb (removed_with full group) (Credentials w)).

(** *** mdocs are told apart by their namespaces *)

Definition credentialNamespaces (c : StoredCredential) : list string :=
  match NameSpaces c with
  | [] =>
      (fix names (ks : list string) (seen : gset string) : list string :=
         match ks with
         | [] => []
         | k :: ks =>
             let '(ns, _, found) := cut ":" k in
             if negb found || bool_decide (ns ∈ seen) then names ks seen
             else ns :: names ks ({[ns]} ∪ seen)
         end) (keys (Claims c)) ∅
  | nss => fst <$> nss
  end.

Definition nul : string := String (Ascii.ascii_of_nat 0) "".

Definition namespaceKey (namespaces : list string) : string :=
  join nul (slice_stable String.ltb namespaces).

Definition removeMDocsByNamespace (w : Wallet) (docType : string) (namespaces : list string) : Wallet * nat :=
  let wanted := namespaceKey namespaces in
  let hit c := String.eqb (CFormat c) "mso_mdoc" && String.eqb (DocType c) docType
               && String.eqb (namespaceKey (credentialNamespaces c)) wanted in
  (with_credentials w (List.filter (fun c => negb (hit c) || Protected c) (Credentials w)),
   length (List.filter (fun c => hit c && Protected c) (Credentials w))).

(** ** Addition *)

(** [slices.IndexFunc] and [slices.Delete]: drops the first credential that is
    not protected, if there is one. *)
Fixpoint drop_oldest (cs : list StoredCredential) : option (list StoredCredential) :=
  match cs with
  | [] => None
  | c :: cs => if Protected c then cons c <$> drop_oldest cs else Some cs
  end.

Fixpoint make_room (fuel : nat) (cap : Z) (cs : list StoredCredential) : list StoredCredential :=
  match fuel with
  | O => cs
  | S fuel =>
      if Z.of_nat (length cs) <? cap then cs
      else match drop_oldest cs with
           | None => cs
           | Some cs' => make_room fuel cap cs'
           end
  end.

(** Each round drops a credential, so as many rounds as there are credentials
    reach an end. *)
Definition makeCredentialRoomLocked (w : Wallet) : Wallet :=
  if capacity w <=? 0 then w
  else with_credentials w (make_room (length (Credentials w)) (capacity w) (Credentials w)).

(** The second result is what the sink is called with. *)
Definition appendCredential (w : Wallet) (cred : StoredCredential) : Wallet * option StoredCredential :=
  let w := makeCredentialRoomLocked w in
  (with_credentials w (Credentials w ++ [cred]), if has_sink w then Some cred else None).

Definition RestoreCredential (w : Wallet) (cred : StoredCredential) : Wallet :=
  if existsb (fun e => String.eqb (ID e) (ID cred)) (Credentials w) then w
  else with_credentials w (Credentials w ++ [cred]).

(** The first credential on which [f] gives a replacement. *)
Fixpoint update_first (f : StoredCredential -> option StoredCredential) (cs : list StoredCredential) :
    option (list StoredCredential) :=
  match cs with
  | [] => None
  | c :: cs => match f c with Some c' => Some (c' :: cs) | None => cons c <$> update_first f cs end
  end.

Definition PutCredential (w : Wallet) (cred : StoredCredential) : Wallet :=
  match update_first (fun c => if String.eqb (ID c) (ID cred) then Some cred else None) (Credentials w) with
  | Some cs => with_credentials w cs
  | None => let w := makeCredentialRoomLocked w in with_credentials w (Credentials w ++ [cred])
  end.

(** ** Changes in place *)

Definition rememberRenewal (w : Wallet) (credentialID : string) (renewal : CredentialRenewal) : Wallet :=
  if String.eqb (ren_RefreshToken renewal) "" || String.eqb (ren_CredentialEndpoint renewal) ""
     || String.eqb (ren_TokenEndpoint renewal) "" then w
  else match update_first (fun c => if String.eqb (ID c) credentialID
                                    then Some (with_Renewal c (Some renewal)) else None) (Credentials w) with
       | Some cs => with_credentials w cs
       | None => w
       end.

Definition setBatchFields (w : Wallet) (id group bindingKeyPEM : string) : Wallet :=
  match update_first (fun c => if String.eqb (ID c) id then Some (with_batch c group bindingKeyPEM) else None)
          (Credentials w) with
  | Some cs => with_credentials w cs
  | None => w
  end.

Definition renameCredential (w : Wallet) (oldID newID : string) : Wallet :=
  let cs := map (fun c => if String.eqb (ID c) oldID then with_ID c newID else c) (Credentials w) in
  let es := match StatusEntries w !! oldID with
            | Some entry => <[newID := entry]> (delete oldID (StatusEntries w))
            | None => StatusEntries w
            end in
  with_entries (with_credentials w cs) es.

Definition replaceCredential (w : Wallet) (id added : string) : Wallet :=
  if String.eqb id added then w
  else
    let w := with_entries
               (with_credentials w (List.filter (fun c => negb (String.eqb (ID c) id)) (Credentials w)))
               (delete id (StatusEntries w)) in
    renameCredential w added id.

Definition setProtected (w : Wallet) (id : string) (protected : bool) : Wallet :=
  with_credentials w
    (map (fun c => if String.eqb (ID c) id then with_Protected c protected else c) (Credentials w)).

(** issuance_batch.go; [now] is what [time.Now] returned, the second result
    the call of [batchPresentedSink]. *)
Definition recordBatchPresentation (w : Wallet) (id : string) (now : time) : Wallet * option string :=
  match first_with_id (Credentials w) id with
  | Some c =>
      if String.eqb (BatchGroup c) "" then (w, None)
      else
        let bump c := if String.eqb (ID c) id then Some (with_use c (wrap64 (Uses c + 1)) now) else None in
        (with_credentials w (default (Credentials w) (update_first bump (Credentials w))), Some id)
  | None => (w, None)
  end.

(** ** Status entries (wallet_status.go) *)

Definition SetCredentialStatus (w : Wallet) (credID : string) (status : Z) : Wallet * option StatusEntry :=
  if (status <? 0) || (255 <? status) then (w, None)
  else
    let found := first_with_id (Credentials w) credID in
    if match found with Some c => Protected c | None => false end then (w, None)
    else
      let group := match found with Some c => BatchGroup c | None => "" end in
      let members := List.filter (fun c => String.eqb (BatchGroup c) group) (Credentials w) in
      if negb (String.eqb group "") && existsb Protected members then (w, None)
      else
        let ids := if String.eqb group "" then [credID] else ID <$> members in
        match StatusEntries w !! credID with
        | None => (w, None)
        | Some entry =>
            let '(es, entry) :=
              fold_left (fun '(es, entry) id =>
                           match es !! id with
                           | None => (es, entry)
                           | Some e =>
                               let e := mkEntry (Index e) status in
                               (<[id := e]> es, if String.eqb id credID then e else entry)
                           end) ids (StatusEntries w, entry) in
            (with_entries w es, Some entry)
        end.

(** [allocate] is the shared backend counter, when the store has one. *)
Definition NextStatusIndex (allocate : option (Wallet -> result string Z)) (w : Wallet) : Wallet * result string Z :=
  match allocate with
  | Some f => (w, f w)
  | None =>
      (mkWallet (Credentials w) (StatusEntries w) (wrap64 (StatusListCounter w + 1)) (capacity w) (has_sink w),
       Ok (StatusListCounter w))
  end.

Definition registerStatusEntry (w : Wallet) (credID : string) (idx : Z) : Wallet :=
  if idx <? 0 then w else with_entries w (<[credID := mkEntry idx 0]> (StatusEntries w)).

Definition StatusEntryFor (w : Wallet) (credID : string) : option StatusEntry := StatusEntries w !! credID.

(** [mdoc_status] is [mdoc.Parse] followed by [StatusClaims]. *)
Definition CredentialStatusRef (mdoc_status : string -> option object) (c : StoredCredential) : option StatusRef :=
  if String.eqb (CFormat c) "mso_mdoc"
  then match mdoc_status (Raw c) with Some claims => ExtractStatusRef claims | None => None end
  else ExtractStatusRef (Claims c).

(** [url] is [StatusListURL]. *)
Definition ownStatusRef (mdoc_status : string -> option object) (url : string) (c : StoredCredential) : option StatusRef :=
  let own := trim_space url in
  match CredentialStatusRef mdoc_status c with
  | None => None
  | Some ref => if String.eqb own "" || negb (String.eqb (ref_URI ref) own) then None else Some ref
  end.

Definition adoptOwnStatusEntry (mdoc_status : string -> option object) (url : string) (w : Wallet) (c : StoredCredential) : Wallet :=
  match ownStatusRef mdoc_status url c with
  | None => w
  | Some ref =>
      match StatusEntryFor w (ID c) with
      | Some _ => w
      | None => registerStatusEntry w (ID c) (ref_Idx ref)
      end
  end.

(** [bitstring[i] |= b]; [i] is in range whenever [capacity] was checked. *)
Definition or_byte (bs : list Z) (i b : Z) : list Z := alter (Z.lor b) (Z.to_nat i) bs.

(** The body of the last loop of [BuildStatusList], and the conversion to
    [byte], which keeps the low eight bits. *)
Definition write_entry (bits cap : Z) (bs : list Z) (entry : StatusEntry) : list Z :=
  if Status entry =? 0 then bs
  else if (Index entry <? 0) || (cap <=? Index entry) then bs
  else
    let bitPos := wrap64 (Index entry * bits) in
    let mask := Z.shiftl 1 bits - 1 in
    or_byte bs (bitPos ÷ 8) (Z.land (Z.shiftl (Z.land (Status entry) mask) (Z.rem bitPos 8)) 255).

Definition max_status (es : list StatusEntry) : Z :=
  fold_left (fun m e => if (0 <=? Index e) && (m <? Status e) then Status e else m) es 0.

(** Go ranges over the map in an unspecified order; [map_to_list] fixes one. *)
Definition BuildStatusList (w : Wallet) : Z * list Z :=
  let es := (map_to_list (StatusEntries w)).*2 in
  let bits := match BitsForStatus (max_status es) with Ok b => b | Err _ => 8 end in
  let entries := StatusListCounter w in
  let numBytes := wrap64 (wrap64 (entries * bits) + 7) ÷ 8 in
  let numBytes := if numBytes <? 16 then 16 else numBytes in
  let bitstring := replicate (Z.to_nat numBytes) 0 in
  let cap := wrap64 (Z.of_nat (length bitstring) * 8) ÷ bits in
  (bits, fold_left (write_entry bits cap) es bitstring).
