(* ===== verification/WalletStatus.v ===== *)
(** * WalletStatus: the status list a wallet publishes

    [BuildStatusList] (wallet_status.go) writes the entries of the wallet into
    a bit string; [extractStatus] (statuslist/checker.go) is what every
    relying party reads it with.  The two agree: an index reads back the
    bitwise or of the statuses stored for it, whatever the map order. *)

From Stdlib Require Import ZArith Lia.
From stdpp Require Import base list strings gmap.
From S2P Require Import Prelude GoStrings GoValue Format Validity StatusList SDJWT WalletState.

Local Open Scope Z_scope.

(** What relying parties read at [idx]. *)
Definition status_at (es : list StatusEntry) (idx : Z) : Z :=
  foldr Z.lor 0 (map (fun e => if Index e =? idx then Status e else 0) es).

Definition status_ok (bits : Z) (e : StatusEntry) : Prop := 0 <= Status e < 2 ^ bits.

Lemma or_byte_lookup bs i b k :
  0 <= i -> or_byte bs i b !! k = if decide (k = Z.to_nat i) then Z.lor b <$> bs !! k else bs !! k.
Proof.
  intros Hi. unfold or_byte. case_decide as Hk.
  - subst k. by rewrite list_lookup_alter_eq.
  - by rewrite list_lookup_alter_ne by congruence.
Qed.

Lemma lor_byte a b : is_byte a -> is_byte b -> is_byte (Z.lor a b).
Proof.
  unfold is_byte. intros Ha Hb. split; [apply Z.lor_nonneg; lia|].
  change 256 with (2 ^ 8). destruct (decide (Z.lor a b = 0)) as [->|Hn]; [lia|].
  assert (0 <= Z.lor a b) by (apply Z.lor_nonneg; lia).
  apply Z.log2_lt_pow2; [lia|]. rewrite Z.log2_lor by lia.
  apply Z.max_lub_lt.
  - destruct (decide (a = 0)) as [->|]; [done|]. apply Z.log2_lt_pow2; lia.
  - destruct (decide (b = 0)) as [->|]; [done|]. apply Z.log2_lt_pow2; lia.
Qed.

Lemma land_255_byte v : is_byte (Z.land v 255).
Proof. change 255 with (Z.ones 8). rewrite Z.land_ones by lia. apply Z.mod_pos_bound. lia. Qed.

Lemma write_entry_length bits cap bs e : length (write_entry bits cap bs e) = length bs.
Proof. unfold write_entry, or_byte. repeat dmatch; by rewrite ?length_alter. Qed.

Lemma or_byte_bytes bs i b : Forall is_byte bs -> is_byte b -> Forall is_byte (or_byte bs i b).
Proof.
  intros H Hb. unfold or_byte. apply (Forall_alter is_byte); [done|].
  intros x _ Hx. by apply lor_byte.
Qed.

Lemma write_entry_bytes bits cap bs e : Forall is_byte bs -> Forall is_byte (write_entry bits cap bs e).
Proof.
  intros H. unfold write_entry. repeat dmatch; try done.
  apply or_byte_bytes; [done|apply land_255_byte].
Qed.

(** Adding [s], shifted to the entry at offset [off'], to a byte changes the
    entry at offset [off] only when the offsets agree. *)
Lemma byte_entry_lor bits s b off off' :
  valid_width bits = true -> 0 <= s < 2 ^ bits -> 0 <= off < 8 -> 0 <= off' < 8 ->
  off mod bits = 0 -> off' mod bits = 0 ->
  Z.land (Z.shiftr (Z.lor (Z.land (Z.shiftl s off') 255) b) off) (Z.shiftl 1 bits - 1) =
  Z.lor (if off' =? off then s else 0) (Z.land (Z.shiftr b off) (Z.shiftl 1 bits - 1)).
Proof.
  intros Hw Hs Ho Ho' Hm Hm'. pose proof Hw as Hc. rewrite valid_width_cases in Hc.
  replace (Z.shiftl 1 bits - 1) with (Z.ones bits)
    by (rewrite Z.ones_equiv, Z.sub_1_r; f_equal; symmetry; apply Z.shiftl_1_l).
  apply Z.bits_inj'. intros n Hn.
  rewrite Z.lor_spec, !Z.land_spec, !Z.shiftr_spec, Z.lor_spec, Z.land_spec, Z.shiftl_spec by lia.
  change 255 with (Z.ones 8). rewrite !Z.testbit_ones_nonneg by lia.
  destruct (Z.ltb_spec n bits) as [Hlt|Hge].
  - rewrite !andb_true_r. f_equal.
    assert (Hoff : off + bits <= 8) by (destruct Hc as [-> | [-> | [-> | ->]]]; zlia).
    destruct (Z.ltb_spec (n + off) 8); [|lia]. rewrite andb_true_r.
    destruct (Z.eqb_spec off' off) as [->|Hne]; [by replace (n + off - off) with n by lia|].
    rewrite Z.testbit_0_l. destruct (Z.lt_ge_cases (n + off) off').
    + apply Z.testbit_neg_r. lia.
    + apply (testbit_above s bits); [done|]. destruct Hc as [-> | [-> | [-> | ->]]]; zlia.
  - rewrite !andb_false_r, orb_false_r. destruct (Z.eqb_spec off' off); [|by rewrite Z.testbit_0_l].
    symmetry. apply (testbit_above s bits); lia.
Qed.

Lemma offset_width idx bits : valid_width bits = true -> ((idx * bits) mod 8) mod bits = 0.
Proof. rewrite valid_width_cases. intros [-> | [-> | [-> | ->]]]; zlia. Qed.

Lemma same_slot i j bits :
  valid_width bits = true -> i * bits / 8 = j * bits / 8 -> (i * bits) mod 8 = (j * bits) mod 8 -> i = j.
Proof. rewrite valid_width_cases. intros [-> | [-> | [-> | ->]]]; zlia. Qed.

(** One round of the loop. *)
Lemma write_entry_spec bits cap bs e idx :
  valid_width bits = true -> Forall is_byte bs -> fits bs ->
  cap = Z.of_nat (length bs) * 8 / bits -> status_ok bits e -> 0 <= idx < cap ->
  entry_spec (write_entry bits cap bs e) idx bits =
  Z.lor (if Index e =? idx then Status e else 0) (entry_spec bs idx bits).
Proof.
  intros Hw Hbs Hfit Hcap He Hidx. unfold status_ok, fits in *.
  pose proof Hw as Hc. rewrite valid_width_cases in Hc.
  pose proof (width_div bits (Z.of_nat (length bs)) Hw ltac:(lia)) as Hdiv. rewrite <- Hcap in Hdiv.
  unfold write_entry. destruct (Z.eqb_spec (Status e) 0) as [H0|H0].
  { rewrite H0. by destruct (Index e =? idx). }
  destruct (Z.ltb_spec (Index e) 0) as [Hn|Hn]; simpl.
  { destruct (Z.eqb_spec (Index e) idx); [lia|done]. }
  destruct (Z.leb_spec cap (Index e)) as [Hx|Hx].
  { destruct (Z.eqb_spec (Index e) idx); [lia|done]. }
  rewrite wrap64_small by nia. rewrite Z.quot_div_nonneg, Z.rem_mod_nonneg by nia.
  assert (Hmask : Z.land (Status e) (Z.shiftl 1 bits - 1) = Status e)
    by (rewrite land_mask by lia; by apply Z.mod_small). rewrite Hmask.
  destruct (lookup_lt_is_Some_2 bs (Z.to_nat (idx * bits / 8))) as [b Hb]; [zlia|].
  pose proof (or_byte_lookup bs (Index e * bits / 8)
    (Z.land (Z.shiftl (Status e) ((Index e * bits) mod 8)) 255) (Z.to_nat (idx * bits / 8)) ltac:(zlia)) as Hl.
  rewrite Hb in Hl. rewrite <- (entry_byte bs idx bits b) by (done || lia).
  pose proof (Z.mod_pos_bound (idx * bits) 8 ltac:(lia)). pose proof (Z.mod_pos_bound (Index e * bits) 8 ltac:(lia)).
  set (b' := Z.land (Z.shiftl (Status e) _) 255) in *.
  assert (Hbs' : Forall is_byte (or_byte bs (Index e * bits / 8) b')) by (apply or_byte_bytes; [done|apply land_255_byte]).
  case_decide as Hk; rewrite <- (entry_byte _ idx bits _ Hbs' Hw ltac:(lia) Hl); subst b'.
  - rewrite byte_entry_lor by (auto using offset_width).
    f_equal. apply Z2Nat.inj in Hk; [|zlia|zlia].
    destruct (Z.eqb_spec (Index e) idx) as [->|Hne]; [by rewrite Z.eqb_refl|].
    destruct (Z.eqb_spec ((Index e * bits) mod 8) ((idx * bits) mod 8)); [|done].
    destruct Hne. by apply (same_slot _ _ bits).
  - destruct (Z.eqb_spec (Index e) idx) as [<-|]; [done|]. done.
Qed.

Lemma write_entries_spec bits cap es bs idx :
  valid_width bits = true -> Forall is_byte bs -> fits bs ->
  cap = Z.of_nat (length bs) * 8 / bits -> Forall (status_ok bits) es -> 0 <= idx < cap ->
  let bs' := fold_left (write_entry bits cap) es bs in
  Forall is_byte bs' /\ length bs' = length bs /\
  entry_spec bs' idx bits = Z.lor (status_at es idx) (entry_spec bs idx bits).
Proof.
  intros Hw Hbs Hfit Hcap Hes Hidx. revert bs Hbs Hfit Hcap.
  induction Hes as [|e es He Hes IH]; intros bs Hbs Hfit Hcap; simpl; [done|].
  pose proof (write_entry_length bits cap bs e) as Hlen.
  destruct (IH (write_entry bits cap bs e)) as (H1 & H2 & H3).
  { by apply write_entry_bytes. }
  { unfold fits in *. by rewrite Hlen. }
  { by rewrite Hlen. }
  split; [done|]. split; [congruence|]. rewrite H3, write_entry_spec by done.
  unfold status_at at 2; simpl. fold (status_at es idx).
  by rewrite !Z.lor_assoc, (Z.lor_comm (status_at es idx)).
Qed.

Lemma le_value_zero n : le_value (replicate n 0) = 0.
Proof. induction n as [|n IH]; simpl; [done|]. by rewrite IH. Qed.

Lemma entry_spec_zero n idx bits : 0 <= bits -> entry_spec (replicate n 0) idx bits = 0.
Proof. intros H. unfold entry_spec. rewrite le_value_zero, Zdiv_0_l. apply Z.mod_0_l. lia. Qed.

(** ** The width of the list *)

Lemma max_status_le es m :
  0 <= m ->
  let r := fold_left (fun m e => if (0 <=? Index e) && (m <? Status e) then Status e else m) es m in
  m <= r /\ Forall (fun e => 0 <= Index e -> Status e <= r) es.
Proof.
  revert m; induction es as [|e es IH]; intros m Hm; simpl; [done|].
  set (m' := if _ : bool then _ else _).
  assert (Hm' : m <= m' /\ (0 <= Index e -> Status e <= m')).
  { subst m'. destruct (Z.leb_spec 0 (Index e)), (Z.ltb_spec m (Status e)); simpl; lia. }
  destruct (IH m' ltac:(lia)) as [H1 H2]. split; [lia|]. constructor; [lia|done].
Qed.

Lemma max_status_from es B m :
  m <= B -> Forall (fun e => Status e <= B) es ->
  fold_left (fun m e => if (0 <=? Index e) && (m <? Status e) then Status e else m) es m <= B.
Proof.
  intros Hm H. revert m Hm. induction H as [|e es He Hes IH]; intros m Hm; simpl; [done|].
  apply IH. by destruct (_ && _).
Qed.

Lemma max_status_bound es B :
  0 <= B -> Forall (fun e => Status e <= B) es -> 0 <= max_status es <= B.
Proof.
  intros HB H. split; [by apply (max_status_le es 0)|by apply max_status_from].
Qed.

Lemma BitsForStatus_fits m b : BitsForStatus m = Ok b -> valid_width b = true /\ m < 2 ^ b.
Proof.
  unfold BitsForStatus. intros H. repeat dmatch_in H; simplify_eq; bsimpl; split; try done; lia.
Qed.

Lemma BitsForStatus_ok m : 0 <= m <= 255 -> exists b, BitsForStatus m = Ok b.
Proof.
  intros H. unfold BitsForStatus. destruct (Z.ltb_spec m 0); [lia|].
  repeat dmatch; bsimpl; eauto; lia.
Qed.

(** A wallet whose indices and statuses are in range, as the operations keep
    them. *)
Definition entries_ok (w : Wallet) : Prop :=
  0 <= StatusListCounter w <= 2 ^ 40 /\
  map_Forall (fun _ e => 0 <= Index e /\ 0 <= Status e <= 255) (StatusEntries w).

Lemma map_entries_Forall (P : StatusEntry -> Prop) (m : gmap string StatusEntry) :
  map_Forall (fun _ e => P e) m -> Forall P (map_to_list m).*2.
Proof.
  intros H. apply Forall_fmap, Forall_forall. intros [k e] He.
  apply elem_of_map_to_list in He. exact (H k e He).
Qed.

Lemma BuildStatusList_reads w idx :
  entries_ok w -> 0 <= idx < StatusListCounter w ->
  extractStatus (snd (BuildStatusList w)) idx (fst (BuildStatusList w)) =
  Ok (status_at (map_to_list (StatusEntries w)).*2 idx).
Proof.
  intros [Hc He] Hidx. unfold BuildStatusList. set (es := (map_to_list _).*2).
  assert (Hes : Forall (fun e => 0 <= Index e /\ 0 <= Status e <= 255) es)
    by (by apply (map_entries_Forall (fun e => _ /\ _))).
  assert (Hm : 0 <= max_status es <= 255)
    by (apply max_status_bound; [lia|]; eapply Forall_impl; [exact Hes|]; simpl; lia).
  destruct (BitsForStatus (max_status es)) as [bits|] eqn:Eb.
  2:{ destruct (BitsForStatus_ok _ Hm) as [b Hb]. congruence. }
  apply BitsForStatus_fits in Eb as [Hw Hb]. cbn [fst snd].
  pose proof Hw as Hcs. rewrite valid_width_cases in Hcs.
  assert (Hcb : 0 <= StatusListCounter w * bits <= 2 ^ 43)
    by (destruct Hcs as [-> | [-> | [-> | ->]]]; lia).
  rewrite (wrap64_small (StatusListCounter w * bits)),
    (wrap64_small (StatusListCounter w * bits + 7)) by lia.
  rewrite (Z.quot_div_nonneg (_ + 7) 8) by lia. set (n := if _ <? 16 then 16 else _).
  assert (Hn : (StatusListCounter w * bits + 7) / 8 <= n <= 2 ^ 44 /\ 0 <= n).
  { subst n. destruct (Z.ltb_spec ((StatusListCounter w * bits + 7) / 8) 16); zlia. }
  rewrite length_replicate, Z2Nat.id by lia. rewrite wrap64_small by lia.
  rewrite (Z.quot_div_nonneg (n * 8) bits) by lia.
  pose proof (width_div bits n Hw ltac:(lia)) as Hdiv.
  assert (Hcap : idx < n * 8 / bits) by (destruct Hcs as [-> | [-> | [-> | ->]]]; zlia).
  destruct (write_entries_spec bits (n * 8 / bits) es (replicate (Z.to_nat n) 0) idx)
    as (H1 & H2 & H3); try done.
  { apply Forall_replicate. unfold is_byte. lia. }
  { unfold fits. rewrite length_replicate. lia. }
  { rewrite length_replicate, Z2Nat.id by lia. done. }
  { rewrite Forall_forall in Hes |- *. intros e Hin. unfold status_ok.
    destruct (max_status_le es 0 ltac:(lia)) as [_ Hle]. rewrite Forall_forall in Hle.
    specialize (Hes e Hin). specialize (Hle e Hin). fold (max_status es) in Hle. lia. }
  { lia. }
  rewrite extractStatus_equation; [|done|unfold fits; rewrite H2, length_replicate; lia].
  destruct (Z.ltb_spec idx 0); [lia|]. rewrite Hw. simpl.
  rewrite H2, length_replicate, Z2Nat.id by lia.
  destruct (Z.leb_spec (n * 8 / bits) idx); [lia|].
  by rewrite H3, entry_spec_zero, Z.lor_0_r by lia.
Qed.

(** ** What a status list shows of one credential *)

Definition indices_distinct (w : Wallet) : Prop :=
  forall id id' e e', StatusEntries w !! id = Some e -> StatusEntries w !! id' = Some e' ->
    Index e = Index e' -> id = id'.

Lemma status_at_zero es idx : Forall (fun e => Index e <> idx) es -> status_at es idx = 0.
Proof.
  unfold status_at. induction 1 as [|e es He Hes IH]; simpl; [done|].
  destruct (Z.eqb_spec (Index e) idx); [done|]. by rewrite IH.
Qed.

Lemma status_at_perm es es' idx : es ≡ₚ es' -> status_at es idx = status_at es' idx.
Proof.
  unfold status_at. induction 1 as [|e es es' _ IH|e e' es|es es' es'' _ IH1 _ IH2]; simpl; try congruence.
  rewrite !Z.lor_assoc. f_equal. apply Z.lor_comm.
Qed.

(** A bit set for one entry of an index stays set whatever other entries say. *)
Lemma status_at_bits es e n :
  e ∈ es -> Z.testbit (Status e) n = true -> Z.testbit (status_at es (Index e)) n = true.
Proof.
  unfold status_at. intros Hin Hb. induction Hin as [es|e' es e Hin IH]; simpl; rewrite Z.lor_spec.
  - by rewrite Z.eqb_refl, Hb.
  - by rewrite IH, orb_true_r.
Qed.

Lemma status_at_lookup w id e :
  indices_distinct w -> StatusEntries w !! id = Some e ->
  status_at (map_to_list (StatusEntries w)).*2 (Index e) = Status e.
Proof.
  intros Hd He. pose proof (map_to_list_delete (StatusEntries w) id e He) as Hp.
  apply (fmap_Permutation snd) in Hp. rewrite <- (status_at_perm _ _ _ Hp). simpl.
  change (Z.lor (if Index e =? Index e then Status e else 0)
            (status_at (map_to_list (delete id (StatusEntries w))).*2 (Index e)) = Status e).
  rewrite Z.eqb_refl, status_at_zero, Z.lor_0_r; [done|].
  apply Forall_fmap, Forall_forall. intros [id' e'] Hin Heq.
  apply elem_of_map_to_list, lookup_delete_Some in Hin as [Hne Hin].
  destruct Hne. by apply (Hd id id' e e').
Qed.

(** The status list the wallet publishes says of every credential it
    manages what the wallet stores: reading the built list at the index of an
    entry, with the width the list declares, gives the entry's status.  The
    list is wide enough for every stored value, so a suspended credential
    (status 2) is not read as anything else. *)
Theorem published_status_reads_back w id e :
  entries_ok w -> indices_distinct w -> StatusEntries w !! id = Some e -> Index e < StatusListCounter w ->
  extractStatus (snd (BuildStatusList w)) (Index e) (fst (BuildStatusList w)) = Ok (Status e).
Proof.
  intros Hok Hd He Hi. rewrite BuildStatusList_reads; [|done|].
  - by rewrite (status_at_lookup w id e).
  - destruct Hok as [_ Hok]. by destruct (Hok id e He).
Qed.

(** Registering further entries for an index cannot clear a status.  A
    credential can be imported again under another ID with the same status
    reference; its new entry starts at 0, and the published list still shows
    every bit the old entry sets, so a revoked credential stays revoked. *)
Theorem published_status_not_cleared w id e id' :
  entries_ok w -> StatusEntries w !! id = Some e -> Index e < StatusListCounter w ->
  id' <> id ->
  let w' := registerStatusEntry w id' (Index e) in
  exists s, extractStatus (snd (BuildStatusList w')) (Index e) (fst (BuildStatusList w')) = Ok s /\
    Z.land s (Status e) = Status e.
Proof.
  intros [Hc Hok] He Hi Hne w'. destruct (Hok id e He) as [Hpos _].
  assert (Hw' : w' = with_entries w (<[id' := mkEntry (Index e) 0]> (StatusEntries w))).
  { unfold w', registerStatusEntry. destruct (Z.ltb_spec (Index e) 0); [lia|done]. }
  assert (He' : StatusEntries w' !! id = Some e) by (rewrite Hw'; by apply lookup_insert_Some; right).
  exists (status_at (map_to_list (StatusEntries w')).*2 (Index e)). split.
  - apply BuildStatusList_reads; rewrite Hw'; [|simpl; lia]. split; [done|].
    apply map_Forall_insert_2; [simpl; lia|done].
  - apply Z.bits_inj'. intros n _. rewrite Z.land_spec.
    destruct (Z.testbit (Status e) n) eqn:Hb; [|apply andb_false_r].
    rewrite (status_at_bits _ e n); [done| |done].
    apply list_elem_of_fmap. exists (id, e). split; [done|]. by apply elem_of_map_to_list.
Qed.

(** ** Setting a status *)

Definition restatus (s : Z) (e : StatusEntry) : StatusEntry := mkEntry (Index e) s.

(** The copies a credential stands for: itself, or its whole batch. *)
Definition copies_of (w : Wallet) (credID : string) : list StoredCredential :=
  match first_with_id (Credentials w) credID with
  | Some c => if String.eqb (BatchGroup c) "" then [c]
              else List.filter (fun c' => String.eqb (BatchGroup c') (BatchGroup c)) (Credentials w)
  | None => []
  end.

Definition copy_ids (w : Wallet) (credID : string) : list string :=
  match first_with_id (Credentials w) credID with
  | Some c => ID <$> copies_of w credID
  | None => [credID]
  end.

Lemma first_with_id_Some cs id c : first_with_id cs id = Some c -> c ∈ cs /\ ID c = id.
Proof.
  unfold first_with_id. intros (x & Hx & H)%find_map_Some.
  destruct (String.eqb_spec (ID x) id); simplify_eq. done.
Qed.

Lemma first_with_id_None cs id : first_with_id cs id = None <-> forall c, c ∈ cs -> ID c <> id.
Proof.
  unfold first_with_id. rewrite find_map_None.
  split; intros H c Hc; specialize (H c Hc); destruct (String.eqb_spec (ID c) id); done.
Qed.

Definition set_all (status : Z) (credID : string) :=
  fun '(es, entry) id =>
    match es !! id with
    | None => (es, entry)
    | Some e =>
        let e := mkEntry (Index e) status in
        (<[id := e]> es, if String.eqb id credID then e else entry)
    end : gmap string StatusEntry * StatusEntry.

Lemma set_all_lookup s credID ids es entry k :
  fst (fold_left (set_all s credID) ids (es, entry)) !! k =
  if decide (k ∈ ids) then restatus s <$> es !! k else es !! k.
Proof.
  revert es entry; induction ids as [|id ids IH]; intros es entry; simpl; [done|].
  destruct (es !! id) as [e|] eqn:E; rewrite IH.
  - destruct (decide (k = id)) as [->|Hne].
    + rewrite lookup_insert_eq, E. rewrite (decide_True (P := id ∈ id :: ids)) by (by left).
      by case_decide.
    + rewrite lookup_insert_ne by done. do 2 case_decide; try done; set_solver.
  - destruct (decide (k = id)) as [->|Hne]; [|do 2 case_decide; try done; set_solver].
    rewrite E. do 2 case_decide; done.
Qed.

Lemma set_all_entry s credID ids es entry i :
  Index entry = i -> (Index <$> es !! credID) = Some i ->
  snd (fold_left (set_all s credID) ids (es, entry)) = if decide (credID ∈ ids) then mkEntry i s else entry.
Proof.
  revert es entry; induction ids as [|id ids IH]; intros es entry Hi He; simpl; [done|].
  destruct (es !! id) as [e|] eqn:E.
  - destruct (String.eqb_spec id credID) as [->|Hne].
    + rewrite E in He. simplify_eq/=. rewrite IH by (rewrite ?lookup_insert_eq; simpl; congruence).
      rewrite (decide_True (P := credID ∈ credID :: ids)) by (by left). case_decide; by f_equal.
    + rewrite IH by (by rewrite ?lookup_insert_ne). do 2 case_decide; try done; set_solver.
  - rewrite IH by done. assert (credID <> id) by (intros ->; by rewrite E in He).
    do 2 case_decide; try done; set_solver.
Qed.

Lemma SetCredentialStatus_equation w credID s :
  SetCredentialStatus w credID s =
  if (s <? 0) || (255 <? s) || existsb Protected (copies_of w credID)
     || match first_with_id (Credentials w) credID with Some c => Protected c | None => false end
  then (w, None)
  else match StatusEntries w !! credID with
       | None => (w, None)
       | Some entry =>
           let r := fold_left (set_all s credID) (copy_ids w credID) (StatusEntries w, entry) in
           (with_entries w (fst r), Some (snd r))
       end.
Proof.
  unfold SetCredentialStatus, copies_of, copy_ids, copies_of.
  destruct ((s <? 0) || (255 <? s)); [done|]. simpl.
  destruct (first_with_id (Credentials w) credID) as [c|] eqn:Ef.
  - apply first_with_id_Some in Ef as [_ Hid]. destruct (Protected c) eqn:Ep; [by rewrite orb_true_r|].
    rewrite orb_false_r. destruct (String.eqb_spec (BatchGroup c) "") as [Hg|Hg]; simpl.
    + rewrite Ep, Hid. simpl. destruct (StatusEntries w !! credID) as [e|] eqn:Ee; [|done].
      done.
    + destruct (existsb _ _); [done|]. destruct (StatusEntries w !! credID) as [e|]; [|done].
      fold (set_all s credID). by destruct (fold_left _ _ _).
  - simpl. destruct (StatusEntries w !! credID) as [e|]; done.
Qed.

Lemma SetCredentialStatus_effect w credID s :
  match SetCredentialStatus w credID s with
  | (w', Some e') =>
      0 <= s <= 255 /\ Forall (fun c => Protected c = false) (copies_of w credID) /\
      Credentials w' = Credentials w /\ StatusListCounter w' = StatusListCounter w /\
      restatus s <$> StatusEntries w !! credID = Some e' /\
      (forall id, StatusEntries w' !! id =
         if decide (id ∈ copy_ids w credID) then restatus s <$> StatusEntries w !! id
         else StatusEntries w !! id)
  | (w', None) =>
      w' = w /\ (s < 0 \/ 255 < s \/ (exists c, c ∈ copies_of w credID /\ Protected c = true)
                 \/ StatusEntries w !! credID = None)
  end.
Proof.
  rewrite SetCredentialStatus_equation.
  assert (Hown : forall c, first_with_id (Credentials w) credID = Some c ->
                   c ∈ copies_of w credID /\ credID ∈ copy_ids w credID).
  { intros c Hc. unfold copy_ids. rewrite Hc.
    assert (Hin : c ∈ copies_of w credID).
    { unfold copies_of. rewrite Hc. apply first_with_id_Some in Hc as [Hin _].
      destruct (String.eqb_spec (BatchGroup c) ""); [by left|].
      apply list_elem_of_In, filter_In. rewrite String.eqb_refl. by rewrite <- list_elem_of_In. }
    split; [done|]. apply list_elem_of_fmap. exists c. by apply first_with_id_Some in Hc as [_ <-]. }
  destruct (Z.ltb_spec s 0); simpl; [split; [done|by left]|].
  destruct (Z.ltb_spec 255 s); simpl; [split; [done|by right; left]|].
  destruct (existsb Protected (copies_of w credID)) eqn:Ex; simpl.
  { split; [done|]. apply existsb_exists in Ex as (c & Hc & Hp). right; right; left.
    exists c. by rewrite list_elem_of_In. }
  assert (Hun : Forall (fun c => Protected c = false) (copies_of w credID)).
  { apply Forall_forall. intros c Hc. destruct (Protected c) eqn:Ep; [|done].
    rewrite <- Ex. symmetry. apply existsb_exists. exists c. by rewrite <- list_elem_of_In. }
  destruct (first_with_id (Credentials w) credID) as [c|] eqn:Ef; simpl.
  - destruct (Hown c eq_refl) as [Hc Hid]. rewrite Forall_forall in Hun. rewrite (Hun c Hc).
    destruct (StatusEntries w !! credID) as [e|] eqn:Ee; [|by eauto 6].
    split; [lia|]. split; [by apply Forall_forall|]. repeat (split; [done|]).
    split; [|intros; apply set_all_lookup].
    rewrite (set_all_entry _ _ _ _ _ (Index e)) by (by rewrite ?Ee). by rewrite decide_True.
  - destruct (StatusEntries w !! credID) as [e|] eqn:Ee; [|by eauto 6].
    split; [lia|]. split; [done|]. repeat (split; [done|]). split; [|intros; apply set_all_lookup].
    rewrite (set_all_entry _ _ _ _ _ (Index e)) by (by rewrite ?Ee). rewrite decide_True; [done|].
    unfold copy_ids. rewrite Ef. by left.
Qed.

(** Setting a status changes the whole logical credential or nothing.  A
    call that succeeds was given a value from 0 to 255 and a credential no
    copy of which is protected; it sets that value on the entry of every copy
    of the batch, keeps their indices and every other entry, and returns the
    new entry.  A call that fails leaves the wallet as it was, and fails only
    for a value out of range, a protected copy or a credential without an
    entry. *)
Theorem SetCredentialStatus_spec w credID s :
  match SetCredentialStatus w credID s with
  | (w', Some e') =>
      0 <= s <= 255 /\ Forall (fun c => Protected c = false) (copies_of w credID) /\
      Credentials w' = Credentials w /\ StatusListCounter w' = StatusListCounter w /\
      restatus s <$> StatusEntries w !! credID = Some e' /\
      (forall id, StatusEntries w' !! id =
         if decide (id ∈ copy_ids w credID) then restatus s <$> StatusEntries w !! id
         else StatusEntries w !! id)
  | (w', None) =>
      w' = w /\ (s < 0 \/ 255 < s \/ (exists c, c ∈ copies_of w credID /\ Protected c = true)
                 \/ StatusEntries w !! credID = None)
  end.
Proof. apply SetCredentialStatus_effect. Qed.

(** ** A wallet with a revoked and a suspended credential *)

Definition two_entries : Wallet :=
  mkWallet [] (<["a" := mkEntry 0 1]> {["b" := mkEntry 1 2]}) 2 0 false.

Lemma two_entries_ok : entries_ok two_entries.
Proof. split; [simpl; lia|]. by_decide. Defined.

Lemma two_entries_distinct : indices_distinct two_entries.
Proof.
  intros id id' e e' He He' Hi. simpl in *.
  apply lookup_insert_Some in He as [[<- <-]|[_ He]];
    apply lookup_insert_Some in He' as [[<- <-]|[_ He']];
    rewrite ?lookup_singleton_Some in *; destruct_and?; simplify_eq/=; congruence.
Qed.

Lemma published_status_reads_back_witness :
  extractStatus (snd (BuildStatusList two_entries)) 1 (fst (BuildStatusList two_entries)) = Ok 2.
Proof.
  apply (published_status_reads_back two_entries "b" (mkEntry 1 2)).
  - exact two_entries_ok.
  - exact two_entries_distinct.
  - reflexivity.
  - reflexivity.
Defined.

Lemma published_status_not_cleared_witness :
  let w' := registerStatusEntry two_entries "c" 0 in
  exists s, extractStatus (snd (BuildStatusList w')) 0 (fst (BuildStatusList w')) = Ok s /\ Z.land s 1 = 1.
Proof.
  apply (published_status_not_cleared two_entries "a" (mkEntry 0 1) "c").
  - exact two_entries_ok.
  - reflexivity.
  - reflexivity.
  - done.
Defined.
