(* ===== verification/WalletStore.v ===== *)
(** * WalletStore: what the store operations keep

    Invariants of the operations of WalletState as a transition system: every
    step a request can cause is a constructor of [user_step]; the operator's
    credential file and the baseline setup ([replaceCredential],
    [setProtected], [removeProtected]) are not steps of it. *)

From Stdlib Require Import ZArith Lia.
From stdpp Require Import base list strings gmap relations.
From S2P Require Import Prelude GoStrings GoValue Validity StatusList SDJWT WalletState WalletStatus.

Local Open Scope Z_scope.

Definition ids (w : Wallet) : list string := ID <$> Credentials w.

(** The parts of a credential no user operation changes. *)
Definition same_credential (c c' : StoredCredential) : Prop :=
  ID c = ID c' /\ CFormat c = CFormat c' /\ Raw c = Raw c' /\ Claims c = Claims c' /\
  VCT c = VCT c' /\ DocType c = DocType c' /\ Protected c = Protected c'.

#[export] Instance same_credential_equivalence : Equivalence same_credential.
Proof. split; unfold same_credential; [intros c|intros c c'|intros c1 c2 c3]; intuition congruence. Qed.

Inductive user_step : Wallet -> Wallet -> Prop :=
| us_import w cred : ID cred ∉ ids w -> user_step w (fst (appendCredential w cred))
| us_restore w cred : user_step w (RestoreCredential w cred)
| us_put w cred :
    (forall c, c ∈ Credentials w -> Protected c = true -> ID c <> ID cred) ->
    user_step w (PutCredential w cred)
| us_remove w id : user_step w (fst (RemoveCredential w id))
| us_clear w : user_step w (fst (ClearCredentials w))
| us_remove_type w format vct : user_step w (fst (removeByType w format vct))
| us_remove_mdocs w docType nss : user_step w (fst (removeMDocsByNamespace w docType nss))
| us_renewal w id r : user_step w (rememberRenewal w id r)
| us_batch w id group key : user_step w (setBatchFields w id group key)
| us_presented w id now : user_step w (fst (recordBatchPresentation w id now))
| us_status w id s : user_step w (fst (SetCredentialStatus w id s))
| us_index allocate w : user_step w (fst (NextStatusIndex allocate w))
| us_register w id idx :
    (forall c, c ∈ Credentials w -> Protected c = true -> ID c <> id) ->
    user_step w (registerStatusEntry w id idx).

(** ** Lists of credentials *)

(** [cs'] holds every protected credential of [cs]. *)
Definition keeps (cs cs' : list StoredCredential) : Prop :=
  forall c, c ∈ cs -> Protected c = true -> exists c', c' ∈ cs' /\ same_credential c c'.

Lemma keeps_refl cs : keeps cs cs.
Proof. intros c Hc _. by exists c. Qed.

Lemma keeps_trans cs1 cs2 cs3 : keeps cs1 cs2 -> keeps cs2 cs3 -> keeps cs1 cs3.
Proof.
  intros H12 H23 c Hc Hp. destruct (H12 c Hc Hp) as (c' & Hc' & Hs).
  destruct (H23 c' Hc') as (c'' & Hc'' & Hs'); [by rewrite <- (proj2 (proj2 (proj2 (proj2 (proj2 (proj2 Hs))))))|].
  exists c''. split; [done|by etrans].
Qed.

Lemma keeps_filter f cs :
  (forall c, c ∈ cs -> Protected c = true -> f c = true) -> keeps cs (List.filter f cs).
Proof. intros H c Hc Hp. exists c. split; [|done]. rewrite elem_of_Lfilter. auto. Qed.

Lemma keeps_app cs cs' x : keeps cs cs' -> keeps cs (cs' ++ [x]).
Proof. intros H c Hc Hp. destruct (H c Hc Hp) as (c' & ? & ?). exists c'. set_solver. Qed.

Lemma NoDup_ids_filter (f : StoredCredential -> bool) cs :
  NoDup (ID <$> cs) -> NoDup (ID <$> List.filter f cs).
Proof.
  induction cs as [|c cs IH]; simpl; [done|]. rewrite NoDup_cons. intros [Hc Hn].
  destruct (f c); simpl; [|by apply IH]. apply NoDup_cons. split; [|by apply IH].
  intros Hin. apply Hc. apply list_elem_of_fmap in Hin as (c' & -> & Hin).
  apply elem_of_Lfilter in Hin as [Hin _]. apply list_elem_of_fmap. by exists c'.
Qed.

Lemma NoDup_ids_inj cs c c' : NoDup (ID <$> cs) -> c ∈ cs -> c' ∈ cs -> ID c = ID c' -> c = c'.
Proof. apply NoDup_key_inj. Qed.

Lemma update_first_keeps f cs cs' :
  (forall c c', c ∈ cs -> f c = Some c' -> Protected c = true -> same_credential c c') ->
  update_first f cs = Some cs' -> keeps cs cs'.
Proof.
  revert cs'; induction cs as [|x cs IH]; intros cs' Hf H; simplify_eq/=.
  destruct (f x) as [x'|] eqn:E; simplify_eq/=.
  - intros c Hc Hp. apply elem_of_cons in Hc as [->|Hc]; [exists x'|exists c]; set_solver.
  - apply fmap_Some in H as (cs1 & H1 & ->). intros c Hc Hp.
    apply elem_of_cons in Hc as [->|Hc]; [exists x; set_solver|].
    destruct (IH cs1) with (c := c) as (c' & ? & ?); [set_solver|done|done|done|]. exists c'. set_solver.
Qed.

Lemma update_first_ids f cs cs' :
  (forall c c', f c = Some c' -> ID c' = ID c) ->
  update_first f cs = Some cs' -> ID <$> cs' = ID <$> cs.
Proof.
  revert cs'; induction cs as [|x cs IH]; intros cs' Hf H; simplify_eq/=.
  destruct (f x) as [x'|] eqn:E; simplify_eq/=; [by rewrite (Hf x x')|].
  apply fmap_Some in H as (cs1 & H1 & ->). simpl. f_equal. by apply IH.
Qed.

Lemma update_id_ids id g cs cs' :
  (forall c, ID c = id -> ID (g c) = ID c) ->
  update_first (fun c => if String.eqb (ID c) id then Some (g c) else None) cs = Some cs' ->
  ID <$> cs' = ID <$> cs.
Proof.
  intros Hg. apply update_first_ids. intros c c' H.
  destruct (String.eqb_spec (ID c) id); simplify_eq. auto.
Qed.

Lemma update_first_None f cs : update_first f cs = None <-> forall c, c ∈ cs -> f c = None.
Proof.
  induction cs as [|x cs IH]; simpl; [set_solver|].
  destruct (f x) eqn:E.
  - split; [done|]. intros H. rewrite (H x) in E; [done|by left].
  - rewrite fmap_None, IH. set_solver.
Qed.

(** ** Making room *)

Definition protected_of (cs : list StoredCredential) : list StoredCredential := List.filter Protected cs.
Definition unprotected_of (cs : list StoredCredential) : list StoredCredential :=
  List.filter (fun c => negb (Protected c)) cs.

Lemma protected_unprotected_length cs :
  length cs = (length (protected_of cs) + length (unprotected_of cs))%nat.
Proof.
  unfold protected_of, unprotected_of. induction cs as [|c cs IH]; simpl; [done|].
  destruct (Protected c); simpl; lia.
Qed.

Lemma drop_oldest_Some cs cs' :
  drop_oldest cs = Some cs' ->
  protected_of cs' = protected_of cs /\ (exists c, unprotected_of cs = c :: unprotected_of cs') /\
  sublist cs' cs.
Proof.
  unfold protected_of, unprotected_of. revert cs'; induction cs as [|c cs IH]; intros cs' H; simplify_eq/=.
  destruct (Protected c) eqn:Ep; simplify_eq/=.
  - apply fmap_Some in H as (cs1 & H1 & ->). simpl. rewrite Ep. simpl.
    destruct (IH cs1 H1) as (-> & Hc & Hs). split; [done|]. split; [done|by constructor].
  - split; [done|]. split; [by exists c|by constructor].
Qed.

Lemma drop_oldest_None cs : drop_oldest cs = None -> unprotected_of cs = [].
Proof.
  unfold unprotected_of. induction cs as [|c cs IH]; intros H; simplify_eq/=; [done|].
  destruct (Protected c); simplify_eq/=. apply fmap_None in H. auto.
Qed.

(** How many of the oldest unprotected credentials go. *)
Definition room_needed (cap : Z) (cs : list StoredCredential) : nat :=
  (length (unprotected_of cs) `min` Z.to_nat (Z.of_nat (length cs) - cap + 1))%nat.

Lemma make_room_spec fuel cap cs :
  (room_needed cap cs <= fuel)%nat ->
  protected_of (make_room fuel cap cs) = protected_of cs /\
  unprotected_of (make_room fuel cap cs) = drop (room_needed cap cs) (unprotected_of cs) /\
  sublist (make_room fuel cap cs) cs.
Proof.
  revert cs; induction fuel as [|fuel IH]; intros cs Hf; simpl.
  { assert (room_needed cap cs = 0)%nat as -> by lia. by rewrite drop_0. }
  unfold room_needed in *. destruct (Z.ltb_spec (Z.of_nat (length cs)) cap).
  { replace (Z.to_nat _) with O by lia. by rewrite Nat.min_0_r, drop_0. }
  destruct (drop_oldest cs) as [cs'|] eqn:Ed.
  - apply drop_oldest_Some in Ed as (Hp & [c Hu] & Hs).
    assert (Hul : length (unprotected_of cs) = S (length (unprotected_of cs'))) by (by rewrite Hu).
    assert (Hl : length cs = S (length cs')).
    { rewrite (protected_unprotected_length cs), (protected_unprotected_length cs'). rewrite Hp. lia. }
    destruct (IH cs') as (G1 & G2 & G3); [lia|].
    split; [congruence|]. split; [|by etrans]. rewrite G2, Hul, Hu.
    replace (Z.to_nat (Z.of_nat (length cs) - cap + 1)) with
      (S (Z.to_nat (Z.of_nat (length cs') - cap + 1))) by lia. done.
  - apply drop_oldest_None in Ed. rewrite Ed. by rewrite drop_nil.
Qed.

Lemma make_room_credentials w :
  sublist (Credentials (makeCredentialRoomLocked w)) (Credentials w) /\
  protected_of (Credentials (makeCredentialRoomLocked w)) = protected_of (Credentials w).
Proof.
  unfold makeCredentialRoomLocked. destruct (capacity w <=? 0); [done|]. simpl.
  pose proof (protected_unprotected_length (Credentials w)).
  destruct (make_room_spec (length (Credentials w)) (capacity w) (Credentials w)) as (? & ? & ?); [|done].
  unfold room_needed. lia.
Qed.

Lemma make_room_keeps w : keeps (Credentials w) (Credentials (makeCredentialRoomLocked w)).
Proof.
  destruct (make_room_credentials w) as [_ Hp]. intros c Hc Hpr. exists c. split; [|done].
  assert (Hin : c ∈ protected_of (Credentials w)) by (by apply elem_of_Lfilter).
  rewrite <- Hp in Hin. by apply elem_of_Lfilter in Hin as [? _].
Qed.

(** A bounded wallet makes room by dropping its oldest unprotected
    credentials and only as many as needed.  After an import the protected
    credentials are all there in their order, the unprotected ones are the
    new credential preceded by a suffix of the old ones, and the wallet holds
    at most [capacity] credentials, or only protected ones and the new one. *)
Theorem import_makes_room w cred :
  0 < capacity w -> Protected cred = false ->
  let w' := fst (appendCredential w cred) in
  protected_of (Credentials w') = protected_of (Credentials w) /\
  unprotected_of (Credentials w') =
    drop (room_needed (capacity w) (Credentials w)) (unprotected_of (Credentials w)) ++ [cred] /\
  (Z.of_nat (length (Credentials w')) <= capacity w \/ unprotected_of (Credentials w') = [cred]).
Proof.
  intros Hcap Hp w'. subst w'. unfold appendCredential, makeCredentialRoomLocked.
  destruct (Z.leb_spec (capacity w) 0); [lia|]. simpl.
  pose proof (protected_unprotected_length (Credentials w)) as Hl.
  destruct (make_room_spec (length (Credentials w)) (capacity w) (Credentials w)) as (G1 & G2 & _);
    [unfold room_needed; lia|].
  set (cs' := make_room _ _ _) in *. pose proof (protected_unprotected_length cs') as Hl'.
  assert (Ha : protected_of (cs' ++ [cred]) = protected_of cs')
    by (unfold protected_of; rewrite List.filter_app; simpl; by rewrite Hp, app_nil_r).
  assert (Hb : unprotected_of (cs' ++ [cred]) = unprotected_of cs' ++ [cred])
    by (unfold unprotected_of; rewrite List.filter_app; simpl; by rewrite Hp).
  rewrite Ha, Hb, G1, G2. split; [done|]. split; [done|].
  rewrite G1, G2, length_drop in Hl'. rewrite length_app. simpl. unfold room_needed in *.
  destruct (decide (length (unprotected_of (Credentials w)) <= Z.to_nat (Z.of_nat (length (Credentials w)) - capacity w + 1))%nat).
  - right. by rewrite drop_ge by lia.
  - left. lia.
Qed.

Lemma sublist_elem {A} (x : A) l k : sublist l k -> x ∈ l -> x ∈ k.
Proof. intros H Hx. by eapply elem_of_submseteq; [|apply sublist_submseteq]. Qed.


(** ** Unique IDs *)

Lemma ids_app_fresh w w0 cred :
  sublist (Credentials w0) (Credentials w) -> NoDup (ids w) -> ID cred ∉ ids w ->
  NoDup (ID <$> (Credentials w0 ++ [cred])).
Proof.
  intros Hs Hn Hf. rewrite fmap_app. apply NoDup_app.
  split; [by eapply NoDup_fmap_sublist|]. split; [|apply NoDup_singleton].
  intros id Hid. simpl. rewrite list_elem_of_singleton. intros ->. apply Hf.
  apply list_elem_of_fmap in Hid as (c & Hid & Hc). rewrite Hid.
  apply list_elem_of_fmap. exists c. split; [done|]. by eapply sublist_elem.
Qed.

Lemma id_of_elem w c : c ∈ Credentials w -> ID c ∈ ids w.
Proof. intros H. apply list_elem_of_fmap. by exists c. Qed.

Lemma PutCredential_ids w cred : NoDup (ids w) -> NoDup (ids (PutCredential w cred)).
Proof.
  intros Hn. unfold PutCredential, ids. destruct (update_first _ _) as [cs|] eqn:E; simpl.
  - by rewrite (update_id_ids (ID cred) (fun _ => cred) (Credentials w) cs).
  - apply (ids_app_fresh w); [apply make_room_credentials|done|].
    rewrite update_first_None in E. intros Hin. apply list_elem_of_fmap in Hin as (c & Hid & Hc).
    specialize (E c Hc). rewrite Hid, String.eqb_refl in E. done.
Qed.

Lemma step_ids w w' : user_step w w' -> NoDup (ids w) -> NoDup (ids w').
Proof.
  destruct 1; intros Hn; unfold ids in *.
  - apply (ids_app_fresh w); [apply make_room_credentials|done|done].
  - unfold RestoreCredential. destruct (existsb _ _) eqn:E; [done|]. simpl.
    apply (ids_app_fresh w); [done|done|]. intros Hin. apply list_elem_of_fmap in Hin as (c & Hid & Hc).
    assert (Ht : existsb (fun e => String.eqb (ID e) (ID cred)) (Credentials w) = true).
    { apply existsb_exists. exists c. rewrite <- list_elem_of_In, Hid. by rewrite String.eqb_refl. }
    congruence.
  - by apply PutCredential_ids.
  - unfold RemoveCredential. repeat dmatch; simpl; try done; by apply NoDup_ids_filter.
  - by apply NoDup_ids_filter.
  - by apply NoDup_ids_filter.
  - by apply NoDup_ids_filter.
  - unfold rememberRenewal. destruct (_ || _); [done|]. destruct (update_first _ _) as [cs|] eqn:E; [|done].
    simpl. apply update_id_ids in E; [by rewrite E|done].
  - unfold setBatchFields. destruct (update_first _ _) as [cs|] eqn:E; [|done].
    simpl. apply update_id_ids in E; [by rewrite E|done].
  - unfold recordBatchPresentation. repeat dmatch; simpl; try done.
    destruct (update_first _ _) as [cs|] eqn:E'; simpl; [|done].
    apply update_id_ids in E'; [by rewrite E'|done].
  - rewrite SetCredentialStatus_equation. repeat dmatch; done.
  - unfold NextStatusIndex. by destruct allocate.
  - unfold registerStatusEntry. by dmatch.
Qed.

(** ** Protected credentials *)

Lemma first_with_id_unique w c id :
  NoDup (ids w) -> c ∈ Credentials w -> ID c = id -> first_with_id (Credentials w) id = Some c.
Proof.
  intros Hn Hc Hid. destruct (first_with_id (Credentials w) id) as [c'|] eqn:E.
  - apply first_with_id_Some in E as [Hc' Hid']. f_equal.
    apply (NoDup_ids_inj (Credentials w)); [done|done|done|congruence].
  - rewrite first_with_id_None in E. by destruct (E c Hc).
Qed.

Lemma RemoveCredential_keeps w id :
  NoDup (ids w) -> keeps (Credentials w) (Credentials (fst (RemoveCredential w id))).
Proof.
  intros Hn. unfold RemoveCredential. set (full := resolveIDLocked w id).
  destruct (first_with_id (Credentials w) full) as [c0|] eqn:Ef; simpl.
  - destruct (Protected c0) eqn:Ep; [apply keeps_refl|].
    destruct (negb _ && existsb _ _) eqn:Eg; [apply keeps_refl|]. simpl.
    apply keeps_filter. intros c Hc Hp. unfold removed_with.
    destruct (String.eqb_spec (ID c) full) as [Hid|Hid]; simpl.
    { rewrite (first_with_id_unique w c full) in Ef by done. simplify_eq. congruence. }
    destruct (String.eqb (BatchGroup c0) "") eqn:Eb; [done|].
    destruct (String.eqb (BatchGroup c) (BatchGroup c0)) eqn:Ebc; [|done]. simpl in *.
    rewrite <- Eg. apply existsb_exists. exists c. rewrite <- list_elem_of_In. by rewrite Ebc, Hp.
  - apply keeps_filter. intros c Hc Hp. rewrite first_with_id_None in Ef. unfold removed_with.
    destruct (String.eqb_spec (ID c) full); [by destruct (Ef c Hc)|done].
Qed.

Lemma PutCredential_keeps w cred :
  (forall c, c ∈ Credentials w -> Protected c = true -> ID c <> ID cred) ->
  keeps (Credentials w) (Credentials (PutCredential w cred)).
Proof.
  intros H. unfold PutCredential. destruct (update_first _ _) as [cs|] eqn:E; simpl.
  - eapply update_first_keeps; [|exact E]. intros c c' Hc Hf Hp. simpl in Hf.
    destruct (String.eqb_spec (ID c) (ID cred)); [by destruct (H c Hc Hp)|done].
  - apply keeps_app, make_room_keeps.
Qed.

Lemma update_id_keeps id g cs cs' :
  (forall c, same_credential c (g c)) ->
  update_first (fun c => if String.eqb (ID c) id then Some (g c) else None) cs = Some cs' ->
  keeps cs cs'.
Proof.
  intros Hg. apply update_first_keeps. intros c c' _ H _. by dmatch_in H; simplify_eq.
Qed.

Lemma step_keeps w w' : user_step w w' -> NoDup (ids w) -> keeps (Credentials w) (Credentials w').
Proof.
  destruct 1; intros Hn.
  - apply keeps_app, make_room_keeps.
  - unfold RestoreCredential. dmatch; [apply keeps_refl|]. apply keeps_app, keeps_refl.
  - by apply PutCredential_keeps.
  - by apply RemoveCredential_keeps.
  - apply keeps_filter. done.
  - apply keeps_filter. intros c _ ->. apply orb_true_r.
  - apply keeps_filter. intros c _ ->. apply orb_true_r.
  - unfold rememberRenewal. dmatch; [apply keeps_refl|]. destruct (update_first _ _) as [cs|] eqn:E'; [|apply keeps_refl].
    by apply update_id_keeps in E'.
  - unfold setBatchFields. destruct (update_first _ _) as [cs|] eqn:E'; [|apply keeps_refl].
    by apply update_id_keeps in E'.
  - unfold recordBatchPresentation. repeat dmatch; simpl; try apply keeps_refl.
    destruct (update_first _ _) as [cs|] eqn:E'; [|apply keeps_refl].
    by apply update_id_keeps in E'.
  - rewrite SetCredentialStatus_equation. repeat dmatch; apply keeps_refl.
  - unfold NextStatusIndex. destruct allocate; apply keeps_refl.
  - unfold registerStatusEntry. dmatch; apply keeps_refl.
Qed.

Lemma copies_in w credID x : x ∈ copies_of w credID -> x ∈ Credentials w.
Proof.
  unfold copies_of. destruct (first_with_id (Credentials w) credID) as [c0|] eqn:E; [|set_solver].
  destruct (String.eqb (BatchGroup c0) ""); [|by intros [? _]%elem_of_Lfilter].
  intros ->%list_elem_of_singleton. by apply first_with_id_Some in E as [? _].
Qed.

Lemma SetCredentialStatus_protected w credID s c :
  NoDup (ids w) -> c ∈ Credentials w -> Protected c = true ->
  StatusEntries (fst (SetCredentialStatus w credID s)) !! ID c = StatusEntries w !! ID c.
Proof.
  intros Hn Hc Hp. pose proof (SetCredentialStatus_effect w credID s) as Hs.
  destruct (SetCredentialStatus w credID s) as [w' [e'|]]; [|by destruct Hs as [-> _]].
  destruct Hs as (_ & Hun & _ & _ & _ & He). simpl. rewrite He, decide_False; [done|].
  unfold copy_ids. destruct (first_with_id (Credentials w) credID) as [c0|] eqn:E.
  - intros Hin. apply list_elem_of_fmap in Hin as (x & Hid & Hx).
    assert (c = x) as ->.
    { apply (NoDup_ids_inj (Credentials w)); [done|done| |done]. by eapply copies_in. }
    rewrite Forall_forall in Hun. rewrite (Hun x Hx) in Hp. done.
  - rewrite list_elem_of_singleton. rewrite first_with_id_None in E. by apply E.
Qed.

Lemma make_room_entries w : StatusEntries (makeCredentialRoomLocked w) = StatusEntries w.
Proof. unfold makeCredentialRoomLocked. by destruct (capacity w <=? 0). Qed.

Lemma step_status w w' c :
  user_step w w' -> NoDup (ids w) -> c ∈ Credentials w -> Protected c = true ->
  StatusEntries w' !! ID c = StatusEntries w !! ID c.
Proof.
  destruct 1 as [| |w cred Hcred|w id| | | | | | | |allocate w|w id idx Hid]; intros Hn Hc Hp.
  - simpl. by rewrite make_room_entries.
  - unfold RestoreCredential. by dmatch.
  - unfold PutCredential. destruct (update_first _ _); simpl; [done|]. by rewrite make_room_entries.
  - unfold RemoveCredential. by repeat dmatch.
  - done.
  - done.
  - done.
  - unfold rememberRenewal. destruct (_ || _); [done|]. by destruct (update_first _ _).
  - unfold setBatchFields. by destruct (update_first _ _).
  - unfold recordBatchPresentation. destruct (first_with_id _ _); [|done]. by destruct (String.eqb _ _).
  - by apply SetCredentialStatus_protected.
  - unfold NextStatusIndex. by destruct allocate.
  - unfold registerStatusEntry. dmatch; [done|]. simpl. rewrite lookup_insert_ne; [done|].
    specialize (Hid c Hc Hp). congruence.
Qed.

(** Protected credentials survive every sequence of user operations.
    Whatever imports, removals, clearings, presentations, renewals, status
    changes and restores follow each other, a protected credential is still
    stored under its ID with its content and its protection, its status entry
    is what it was, and credential IDs stay unique. *)
Theorem protected_credentials_survive w w' c :
  rtc user_step w w' -> NoDup (ids w) -> c ∈ Credentials w -> Protected c = true ->
  NoDup (ids w') /\
  (exists c', c' ∈ Credentials w' /\ same_credential c c') /\
  StatusEntries w' !! ID c = StatusEntries w !! ID c.
Proof.
  intros Hr. revert c. induction Hr as [w|w w1 w' Hs Hr IH]; intros c Hn Hc Hp.
  - split; [done|]. split; [by exists c|done].
  - destruct (step_keeps _ _ Hs Hn c Hc Hp) as (c1 & Hc1 & Hs1).
    pose proof Hs1 as (Hid & _ & _ & _ & _ & _ & Hp1).
    destruct (IH c1) as (H1 & (c' & Hc' & Hs') & H3); [by eapply step_ids|done|congruence|].
    split; [done|]. split; [exists c'; split; [done|by etrans]|].
    rewrite Hid, H3, <- Hid. by eapply step_status.
Qed.

(** ** Removing a credential *)

Lemma existsb_elem {A} (f : A -> bool) l : existsb f l = true <-> exists x, x ∈ l /\ f x = true.
Proof. rewrite existsb_exists. by setoid_rewrite list_elem_of_In. Qed.

Lemma existsb_none {A} (f : A -> bool) l : (forall x, x ∈ l -> f x = false) -> existsb f l = false.
Proof. intros H. apply not_true_iff_false. intros (x & Hx & Hf)%existsb_elem. by rewrite H in Hf. Qed.

Lemma Lfilter_all {A} (f : A -> bool) l : (forall x, x ∈ l -> f x = true) -> List.filter f l = l.
Proof.
  induction l as [|x l IH]; intros H; simpl; [done|]. rewrite H by (by left).
  f_equal. apply IH. set_solver.
Qed.

Lemma removed_with_copies w full c0 c :
  NoDup (ids w) -> first_with_id (Credentials w) full = Some c0 -> c ∈ Credentials w ->
  removed_with full (BatchGroup c0) c = contains (copy_ids w full) (ID c).
Proof.
  intros Hn Ef Hc. unfold copy_ids, copies_of, removed_with. rewrite Ef.
  apply first_with_id_Some in Ef as [Hc0 Hid0]. apply eq_true_iff_eq.
  rewrite contains_spec, orb_true_iff, andb_true_iff, String.eqb_eq, negb_true_iff.
  destruct (String.eqb (BatchGroup c0) "") eqn:Eb.
  - simpl. rewrite list_elem_of_singleton, Hid0. naive_solver.
  - rewrite list_elem_of_fmap. split.
    + intros [Hid|[_ Hb]]; [exists c0|exists c]; (split; [congruence|]); apply elem_of_Lfilter;
        [by rewrite String.eqb_refl|done].
    + intros (x & Hid & [Hx Hb]%elem_of_Lfilter). right. split; [done|].
      by rewrite (NoDup_ids_inj (Credentials w) c x).
Qed.

Lemma RemoveCredential_found w id c0 :
  NoDup (ids w) -> first_with_id (Credentials w) (resolveIDLocked w id) = Some c0 ->
  RemoveCredential w id =
    if existsb Protected (copies_of w (resolveIDLocked w id)) then (w, false)
    else (with_credentials w
            (List.filter (fun c => negb (contains (copy_ids w (resolveIDLocked w id)) (ID c))) (Credentials w)),
          true).
Proof.
  intros Hn Ef. unfold RemoveCredential, copies_of. rewrite Ef.
  assert (Hr : existsb (removed_with (resolveIDLocked w id) (BatchGroup c0)) (Credentials w) = true).
  { apply existsb_elem. exists c0. apply first_with_id_Some in Ef as [Hc0 Hid].
    unfold removed_with. by rewrite Hid, String.eqb_refl. }
  rewrite Hr, (filter_ext_in _ (fun c => negb (contains (copy_ids w (resolveIDLocked w id)) (ID c))))
    by (intros c Hc%list_elem_of_In; f_equal; by apply removed_with_copies).
  assert (Hx : existsb (fun c => String.eqb (BatchGroup c) (BatchGroup c0) && Protected c) (Credentials w)
             = existsb Protected (List.filter (fun c' => String.eqb (BatchGroup c') (BatchGroup c0)) (Credentials w))).
  { apply eq_true_iff_eq. rewrite !existsb_elem. setoid_rewrite elem_of_Lfilter.
    setoid_rewrite andb_true_iff. naive_solver. }
  destruct (Protected c0) eqn:Ep; destruct (String.eqb_spec (BatchGroup c0) "") as [Hb|Hb]; simpl;
    rewrite ?Ep, ?Hx; simpl; try done.
  replace (existsb Protected _) with true; [done|]. symmetry. apply existsb_elem. exists c0.
  split; [|done]. apply elem_of_Lfilter. rewrite String.eqb_refl. by apply first_with_id_Some in Ef as [? _].
Qed.

Lemma RemoveCredential_missing w id :
  first_with_id (Credentials w) (resolveIDLocked w id) = None -> RemoveCredential w id = (w, false).
Proof.
  intros Ef. unfold RemoveCredential. rewrite Ef. simpl. rewrite first_with_id_None in Ef.
  assert (Hf : forall c, c ∈ Credentials w -> removed_with (resolveIDLocked w id) "" c = false).
  { intros c Hc. unfold removed_with. simpl. rewrite orb_false_r. by apply String.eqb_neq, Ef. }
  rewrite (existsb_none _ _ Hf), Lfilter_all by (intros c Hc; by rewrite Hf). by destruct w.
Qed.

(** Removing a credential removes exactly the logical credential the ID or
    prefix resolves to: the credential and every copy of its batch.  It
    happens exactly when the reference resolves to a stored credential and no
    copy is protected; otherwise the wallet does not change.  The status
    entries stay, so the published list keeps reporting a removed
    credential's status. *)
Theorem RemoveCredential_spec w id :
  NoDup (ids w) ->
  let full := resolveIDLocked w id in
  let '(w', removed) := RemoveCredential w id in
  StatusEntries w' = StatusEntries w /\
  (removed = true <->
     full ∈ ids w /\ Forall (fun c' => Protected c' = false) (copies_of w full)) /\
  Credentials w' =
    (if removed then List.filter (fun c => negb (contains (copy_ids w full) (ID c))) (Credentials w)
     else Credentials w).
Proof.
  intros Hn full. destruct (first_with_id (Credentials w) full) as [c0|] eqn:Ef.
  - rewrite (RemoveCredential_found w id c0) by done. fold full.
    assert (Hin : full ∈ ids w) by (apply first_with_id_Some in Ef as [Hc <-]; by apply id_of_elem).
    destruct (existsb Protected (copies_of w full)) eqn:Ex; simpl; (split; [done|]); (split; [|done]).
    + split; [done|]. intros [_ Hall]. apply existsb_elem in Ex as (x & Hx & Hp).
      rewrite Forall_forall in Hall. by rewrite Hall in Hp.
    + split; [intros _; split; [done|]|done]. apply Forall_forall. intros x Hx.
      apply not_true_iff_false. intros Hp. apply not_true_iff_false in Ex. apply Ex, existsb_elem. by exists x.
  - rewrite RemoveCredential_missing by done. split; [done|]. split; [|done]. split; [done|].
    intros [Hin _]. apply list_elem_of_fmap in Hin as (c & Hid & Hc).
    rewrite first_with_id_None in Ef. by destruct (Ef c Hc).
Qed.

(** ** References by ID or prefix *)

Lemma has_prefix_refl s : has_prefix s s = true.
Proof. induction s as [|a s IH]; simpl; [done|]. by rewrite Ascii.eqb_refl. Qed.

Lemma resolve_scan_exact cs id pm n : id ∈ ID <$> cs -> resolve_scan cs id pm n = id.
Proof.
  revert pm n; induction cs as [|c cs IH]; intros pm n H; simpl; [set_solver|].
  apply elem_of_cons in H as [->|H]; [by rewrite String.eqb_refl|].
  destruct (String.eqb_spec (ID c) id); [done|]. destruct (has_prefix _ _); by apply IH.
Qed.

Lemma resolve_scan_prefix cs id pm n :
  id ∉ ID <$> cs ->
  resolve_scan cs id pm n =
  match n, List.filter (has_prefix id) (ID <$> cs) with
  | O, [x] => x
  | S O, [] => pm
  | _, _ => ""
  end.
Proof.
  revert pm n; induction cs as [|c cs IH]; intros pm n H; simpl.
  { by destruct n as [|[|n]]. }
  destruct (String.eqb_spec (ID c) id) as [<-|]; [set_solver|].
  assert (Hcs : id ∉ ID <$> cs) by set_solver.
  destruct (has_prefix id (ID c)); rewrite IH by done; [|done].
  destruct n as [|n]; [done|]. by destruct n.
Qed.

(** A reference names at most one credential.  An exact ID wins, even if
    it is a prefix of other IDs; otherwise a prefix of exactly one stored ID
    resolves to it; a missing or ambiguous prefix and the empty reference
    resolve to nothing. *)
Theorem resolveID_spec w id :
  resolveIDLocked w id =
  if String.eqb id "" then ""
  else if contains (ids w) id then id
  else match List.filter (has_prefix id) (ids w) with [x] => x | _ => "" end.
Proof.
  unfold resolveIDLocked. destruct (String.eqb id ""); [done|].
  destruct (contains (ids w) id) eqn:E.
  - rewrite contains_spec in E. by apply resolve_scan_exact.
  - rewrite contains_false in E. rewrite resolve_scan_prefix by done. done.
Qed.

(** ** The listing *)

Lemma batchRepresentative_in creds c :
  c ∈ creds -> batchRepresentative creds c ∈ creds /\ BatchGroup (batchRepresentative creds c) = BatchGroup c.
Proof.
  intros Hc. unfold batchRepresentative. destruct (String.eqb (BindingKeyPEM c) ""); [done|].
  destruct (find_map _ creds) as [x|] eqn:E; simpl; [|done].
  apply find_map_Some in E as (y & Hy & Hf). dmatch_in Hf; simplify_eq.
  match goal with E : _ && _ = true |- _ => apply andb_true_iff in E as [E _]; apply String.eqb_eq in E end.
  done.
Qed.

Definition in_group (g : string) (c : StoredCredential) : bool := String.eqb (BatchGroup c) g.

Lemma listed_loop_spec creds rest seen :
  (forall c, c ∈ rest -> c ∈ creds) ->
  (forall l, l ∈ listed_loop creds rest seen -> l ∈ creds) /\
  List.filter (in_group "") (listed_loop creds rest seen) = List.filter (in_group "") rest /\
  (forall g, g <> "" ->
     length (List.filter (in_group g) (listed_loop creds rest seen)) =
     if decide (g ∈ seen) then O else if existsb (in_group g) rest then 1%nat else O).
Proof.
  unfold in_group. revert seen; induction rest as [|c rest IH]; intros seen Hsub; simpl.
  { split; [set_solver|]. split; [done|]. intros g Hg. by case_decide. }
  assert (Hsub' : forall c, c ∈ rest -> c ∈ creds) by set_solver.
  destruct (String.eqb_spec (BatchGroup c) "") as [Hg0|Hg0].
  - destruct (IH seen Hsub') as (H1 & H2 & H3). split; [set_solver|]. simpl. rewrite Hg0. simpl.
    split; [by rewrite H2|]. intros g Hg.
    destruct g as [|a g]; [done|]. by apply H3.
  - case_bool_decide as Hseen.
    + destruct (IH seen Hsub') as (H1 & H2 & H3). split; [done|]. split; [done|]. intros g Hg.
      rewrite H3 by done. case_decide; [done|].
      destruct (String.eqb_spec (BatchGroup c) g) as [<-|]; done.
    + destruct (IH ({[BatchGroup c]} ∪ seen) Hsub') as (H1 & H2 & H3).
      destruct (batchRepresentative_in creds c) as [Hr Hrg]; [by apply Hsub; left|].
      split; [set_solver|]. simpl. rewrite Hrg.
      destruct (String.eqb_spec (BatchGroup c) ""); [done|]. split; [done|]. intros g Hg.
      destruct (String.eqb_spec (BatchGroup c) g) as [<-|Hne]; simpl; rewrite H3 by done.
      * rewrite decide_True by set_solver. by rewrite decide_False.
      * do 2 case_decide; try done; set_solver.
Qed.

(** The listing shows each logical credential once: it lists stored
    credentials only, the unbatched ones all and in their order, and exactly
    one copy of every stored batch. *)
Theorem ListedCredentials_spec w :
  (forall l, l ∈ ListedCredentials w -> l ∈ Credentials w) /\
  List.filter (in_group "") (ListedCredentials w) = List.filter (in_group "") (Credentials w) /\
  (forall g, g <> "" -> length (List.filter (in_group g) (ListedCredentials w)) =
                        if existsb (in_group g) (Credentials w) then 1%nat else O).
Proof.
  destruct (listed_loop_spec (Credentials w) (Credentials w) ∅ ltac:(done)) as (H1 & H2 & H3).
  split; [done|]. split; [done|]. intros g Hg.
  unfold ListedCredentials, GetCredentials. rewrite H3 by done. by rewrite decide_False by set_solver.
Qed.

(** ** The operator's credential file *)

(** Replacing a credential moves the new one to the old ID: afterwards the
    ID names the added credential and nothing else, IDs stay unique, and the
    ID has the status entry of the added credential, not of the removed one. *)
Theorem replaceCredential_spec w id c :
  NoDup (ids w) -> c ∈ Credentials w -> ID c <> id ->
  let w' := replaceCredential w id (ID c) in
  NoDup (ids w') /\ first_with_id (Credentials w') id = Some (with_ID c id) /\
  (ID c ∉ ids w') /\ StatusEntries w' !! id = StatusEntries w !! ID c.
Proof.
  intros Hn Hc Hne w'. unfold w', replaceCredential.
  destruct (String.eqb_spec id (ID c)) as [->|_]; [done|]. simpl.
  set (cs := List.filter _ (Credentials w)). set (ren := fun x => if String.eqb (ID x) (ID c) then with_ID x id else x).
  assert (Hcs : forall x, x ∈ cs <-> x ∈ Credentials w /\ ID x <> id).
  { intros x. unfold cs. rewrite elem_of_Lfilter, negb_true_iff, String.eqb_neq. done. }
  assert (Hncs : NoDup (ID <$> cs)) by (by apply NoDup_ids_filter).
  assert (Hren : forall x, x ∈ cs -> ID (ren x) = if String.eqb (ID x) (ID c) then id else ID x).
  { intros x _. unfold ren. by destruct (String.eqb _ _). }
  assert (Hin : with_ID c id ∈ map ren cs).
  { apply list_elem_of_fmap. exists c. unfold ren. rewrite String.eqb_refl. by rewrite Hcs. }
  assert (Hids : NoDup (ID <$> map ren cs)).
  { rewrite <- list_fmap_compose. apply NoDup_fmap_2_strong; [|by eapply NoDup_fmap_1].
    intros x y Hx Hy. simpl. rewrite (Hren x Hx), (Hren y Hy). apply Hcs in Hx as [Hx Hxi], Hy as [Hy Hyi].
    destruct (String.eqb_spec (ID x) (ID c)), (String.eqb_spec (ID y) (ID c)); intros Heq; try congruence;
      apply (NoDup_ids_inj (Credentials w) x y Hn Hx Hy); congruence. }
  split; [done|]. split; [by apply (first_with_id_unique (with_credentials w (map ren cs)))|].
  split.
  - unfold ids. simpl. intros Hx. apply list_elem_of_fmap in Hx as (y & Hy & Hx).
    apply list_elem_of_fmap in Hx as (x & -> & Hx).
    change (ID c = ID (ren x)) in Hy. rewrite (Hren x Hx) in Hy. rewrite Hcs in Hx.
    destruct (String.eqb_spec (ID x) (ID c)); congruence.
  - rewrite lookup_delete_ne by congruence.
    destruct (StatusEntries w !! ID c) as [e|] eqn:Ee; [by rewrite lookup_insert_eq|by rewrite lookup_delete_eq].
Qed.

(** ** A wallet with a protected credential and a batch *)

Definition plain (id group key : string) (p : bool) : StoredCredential :=
  mkCred id "dc+sd-jwt" "" [] "urn:eudi:pid:1" "" p None None group key 0 zero_time [] zero_time [].

Definition demo_wallet : Wallet :=
  mkWallet [plain "base" "" "" true; plain "b1" "g" "" false; plain "b2" "g" "k" false; plain "x" "" "" false]
    {["base" := mkEntry 0 0]} 1 4 false.

Lemma demo_wallet_ids : NoDup (ids demo_wallet).
Proof. by_decide. Defined.

Lemma import_makes_room_witness :
  let w' := fst (appendCredential demo_wallet (plain "y" "" "" false)) in
  (ids w' = ["base"; "b2"; "x"; "y"]) /\ protected_of (Credentials w') = protected_of (Credentials demo_wallet).
Proof.
  split; [reflexivity|].
  refine (proj1 (import_makes_room demo_wallet (plain "y" "" "" false) _ _)); reflexivity.
Defined.

Lemma protected_credentials_survive_witness :
  exists w', rtc user_step demo_wallet w' /\ (length (Credentials w') = 1)%nat /\
    exists c', c' ∈ Credentials w' /\ same_credential (plain "base" "" "" true) c'.
Proof.
  set (w1 := fst (RemoveCredential demo_wallet "b1")).
  set (w2 := fst (SetCredentialStatus w1 "base" 1)).
  exists (fst (ClearCredentials w2)).
  assert (Hr : rtc user_step demo_wallet (fst (ClearCredentials w2))).
  { apply (rtc_l _ _ w1); [apply us_remove|]. apply (rtc_l _ _ w2); [apply us_status|].
    apply rtc_once, us_clear. }
  split; [exact Hr|]. split; [reflexivity|].
  refine (proj1 (proj2 (protected_credentials_survive demo_wallet _ (plain "base" "" "" true) Hr
    demo_wallet_ids _ _))); [by left|reflexivity].
Defined.

Lemma RemoveCredential_spec_witness :
  snd (RemoveCredential demo_wallet "b1") = true /\
  ids (fst (RemoveCredential demo_wallet "b1")) = ["base"; "x"] /\
  StatusEntries (fst (RemoveCredential demo_wallet "b1")) = StatusEntries demo_wallet.
Proof.
  split; [reflexivity|]. split; [reflexivity|].
  exact (proj1 (RemoveCredential_spec demo_wallet "b1" demo_wallet_ids)).
Defined.

Lemma replaceCredential_spec_witness :
  NoDup (ids (replaceCredential demo_wallet "base" "x")) /\
  ids (replaceCredential demo_wallet "base" "x") = ["b1"; "b2"; "base"].
Proof.
  split; [|reflexivity].
  refine (proj1 (replaceCredential_spec demo_wallet "base" (plain "x" "" "" false) demo_wallet_ids _ _)).
  - by do 3 right; left.
  - done.
Defined.
