(* ===== verification/ClaimPath.v ===== *)
(** * ClaimPath: claims path pointers and claim selectors

    internal/wallet/dcql.go: the claims path pointers of a DCQL query
    (OpenID4VP 1.0 section 7), the claims they select in a credential, and the
    selector strings ([address.street], [nationalities[*]]) that name a
    selected claim from the evaluation of a query to its presentation. *)

From Stdlib Require Import Ascii ZArith Lia SpecFloat.
From stdpp Require Import base list strings gmap.
From S2P Require Import Prelude GoStrings GoValue Format Validity SDJWT WalletState.

Local Open Scope Z_scope.

(** ** Printing a path *)

Definition path_segment (i : nat) (segment : value) : string :=
  let dot := if (0 <? i)%nat then "." else "" in
  match segment with
  | VString v => dot +:+ v
  | VFloat f => "[" +:+ format_float f +:+ "]"
  | VNil => "[*]"
  | _ => dot +:+ "?"
  end.

Fixpoint path_segments (i : nat) (path : list value) : string :=
  match path with
  | [] => ""
  | segment :: path => path_segment i segment +:+ path_segments (S i) path
  end.

Definition claimPathString (path : list value) : string :=
  match path with [] => "<empty>" | _ => path_segments 0 path end.

(** ** Resolving a path *)

(** [int(segment)] truncates. *)
Fixpoint claimPathExists (v : value) (path : list value) : bool :=
  match path with
  | [] => true
  | VString segment :: rest =>
      match as_obj v with
      | None => false
      | Some obj => match get segment obj with
                    | None => false
                    | Some next => claimPathExists next rest
                    end
      end
  | VFloat segment :: rest =>
      match as_arr v with
      | None => false
      | Some arr =>
          let idx := int_of_float64 segment in
          if (idx <? 0) || (Z.of_nat (length arr) <=? idx) then false
          else match arr !! Z.to_nat idx with
               | Some next => claimPathExists next rest
               | None => false
               end
      end
  | VNil :: rest =>
      match as_arr v with
      | None => false
      | Some arr => match rest with
                    | [] => true
                    | _ => existsb (fun item => claimPathExists item rest) arr
                    end
      end
  | _ :: _ => false
  end.

Definition mdocClaimKeyFromPath (cred : StoredCredential) (path : list value) : string :=
  match path with
  | [VString namespace; VString element] =>
      let key := namespace +:+ ":" +:+ element in
      match get key (Claims cred) with Some _ => key | None => "" end
  | _ => ""
  end.

Definition claimKeyFromPath (cred : StoredCredential) (path : list value) : string :=
  match path with
  | [] => ""
  | first :: rest =>
      if String.eqb (CFormat cred) "mso_mdoc" then mdocClaimKeyFromPath cred path
      else match first with
           | VString key =>
               match get key (Claims cred) with
               | None => ""
               | Some val => if claimPathExists val rest then key else ""
               end
           | _ => ""
           end
  end.

Definition claimSelectorFromPath (cred : StoredCredential) (path : list value) : string :=
  match path with
  | [] => ""
  | _ =>
      if String.eqb (CFormat cred) "mso_mdoc" then claimKeyFromPath cred path
      else if String.eqb (claimKeyFromPath cred path) "" then ""
      else claimPathString path
  end.

Definition missingClaimLabel (cred : StoredCredential) (path : list value) : string :=
  match path with
  | [VString ns; VString el] =>
      if String.eqb (CFormat cred) "mso_mdoc" then ns +:+ ":" +:+ el else claimPathString path
  | _ => claimPathString path
  end.

(** ** The claims a path selects *)

Definition claimPathIndex (segment : value) : option Z :=
  match segment with
  | VFloat v =>
      if f64_ltb v (S754_zero false) || negb (f64_eqb v (float64_of_Z (int_of_float64 v))) then None
      else Some (int_of_float64 v)
  | VInt KInt v => if v <? 0 then None else Some v
  | _ => None
  end.

(** One round of the outer loop: [None] is the early [return nil] on a bad
    index, taken as soon as one value is selected. *)
Fixpoint select_step (segment : value) (selection : list value) : option (list value) :=
  match selection with
  | [] => Some []
  | v :: selection =>
      match segment with
      | VString seg =>
          match as_obj v with
          | None => select_step segment selection
          | Some obj =>
              match get seg obj with
              | Some x => cons x <$> select_step segment selection
              | None => select_step segment selection
              end
          end
      | VNil =>
          match as_arr v with
          | None => select_step segment selection
          | Some arr => app arr <$> select_step segment selection
          end
      | _ =>
          match claimPathIndex segment with
          | None => None
          | Some idx =>
              match as_arr v with
              | None => select_step segment selection
              | Some arr =>
                  match arr !! Z.to_nat idx with
                  | None => select_step segment selection
                  | Some x => cons x <$> select_step segment selection
                  end
              end
          end
      end
  end.

Fixpoint select_loop (selection path : list value) : list value :=
  match path with
  | [] => selection
  | segment :: path =>
      match select_step segment selection with
      | None | Some [] => []
      | Some next => select_loop next path
      end
  end.

Definition selectJSONClaims (root : object) (path : list value) : list value :=
  select_loop [VObj root] path.

(** *** Times in RFC 3339

    [t.UTC().Format(time.RFC3339)] for the whole seconds a CBOR date carries. *)
Definition pad (n : nat) (z : Z) : string :=
  let s := itoa z in String.concat "" (replicate (n - String.length s) "0") +:+ s.

(** Days since 1970 to year, month, day of the proleptic Gregorian calendar. *)
Definition civil_of_days (days : Z) : Z * Z * Z :=
  let z := days + 719468 in
  let era := z / 146097 in
  let doe := z - era * 146097 in
  let yoe := (doe - doe / 1460 + doe / 36524 - doe / 146096) / 365 in
  let doy := doe - (365 * yoe + yoe / 4 - yoe / 100) in
  let mp := (5 * doy + 2) / 153 in
  let d := doy - (153 * mp + 2) / 5 + 1 in
  let m := if mp <? 10 then mp + 3 else mp - 9 in
  (yoe + era * 400 + (if m <=? 2 then 1 else 0), m, d).

Definition format_rfc3339 (secs : Z) : string :=
  let '(y, m, d) := civil_of_days (secs / 86400) in
  let s := secs mod 86400 in
  pad 4 y +:+ "-" +:+ pad 2 m +:+ "-" +:+ pad 2 d +:+ "T"
  +:+ pad 2 (s / 3600) +:+ ":" +:+ pad 2 (s / 60 mod 60) +:+ ":" +:+ pad 2 (s mod 60) +:+ "Z".

Definition mdocValueAsJSON (v : value) : value :=
  match v with
  | VBytes b => VString (EncodeBase64URL b)
  | VTime t => VString (format_rfc3339 t)
  | _ => match numericClaimValue v with Some n => VFloat n | None => v end
  end.

Definition claimValuesAtPath (cred : StoredCredential) (path : list value) : list value :=
  match path with
  | [] => []
  | _ =>
      if String.eqb (CFormat cred) "mso_mdoc" then
        let key := mdocClaimKeyFromPath cred path in
        if String.eqb key "" then [] else [mdocValueAsJSON (index (Claims cred) key)]
      else selectJSONClaims (Claims cred) path
  end.

(** ** Values restrictions *)

Definition claimValueEquals (claim want : value) : bool :=
  match want with
  | VString expected => match claim with VString got => String.eqb got expected | _ => false end
  | VBool expected => match claim with VBool got => Bool.eqb got expected | _ => false end
  | _ =>
      match numericClaimValue want with
      | None => false
      | Some wantNum =>
          match numericClaimValue claim with
          | None => false
          | Some gotNum => f64_eqb gotNum wantNum
          end
      end
  end.

Definition valuesConstraintSatisfied (selected values : list value) : bool :=
  existsb (fun claim => existsb (claimValueEquals claim) values) selected.

(** ** Selectors back to claims *)

Fixpoint claimValueAtPath (v : value) (path : list value) : option value :=
  match path with
  | [] => Some v
  | VString segment :: rest =>
      match as_obj v with
      | None => None
      | Some obj => match get segment obj with
                    | None => None
                    | Some next => claimValueAtPath next rest
                    end
      end
  | VInt KInt segment :: rest =>
      match as_arr v with
      | None => None
      | Some arr =>
          if (segment <? 0) || (Z.of_nat (length arr) <=? segment) then None
          else match arr !! Z.to_nat segment with
               | Some next => claimValueAtPath next rest
               | None => None
               end
      end
  | VNil :: rest =>
      match as_arr v with
      | None => None
      | Some arr =>
          match rest with
          | [] => Some (VArr arr)
          | _ =>
              match filter_map (fun item => claimValueAtPath item rest) arr with
              | [] => None
              | out => Some (VArr out)
              end
          end
      end
  | _ :: _ => None
  end.

(** [path] and [name] are the variables of the scanner. *)
Definition flush_name (path : list value) (name : string) : list value :=
  if String.eqb name "" then path else path ++ [VString name].

Fixpoint scan_selector (fuel : nat) (s : string) (path : list value) (name : string) : option (list value) :=
  match fuel with
  | O => None
  | S fuel =>
      match s with
      | "" => Some (flush_name path name)
      | String c rest =>
          if Ascii.eqb c "." then
            if String.eqb name "" then
              match path with [] => None | _ => scan_selector fuel rest path "" end
            else scan_selector fuel rest (path ++ [VString name]) ""
          else if Ascii.eqb c "[" then
            let path := flush_name path name in
            let '(content, after, found) := cut "]" rest in
            if negb found || String.eqb content "" then None
            else if String.eqb content "*" then scan_selector fuel after (path ++ [VNil]) ""
            else match atoi content with
                 | None => None
                 | Some idx => scan_selector fuel after (path ++ [VInt KInt idx]) ""
                 end
          else scan_selector fuel rest path (name +:+ String c "")
      end
  end.

(** Every round consumes at least a byte. *)
Definition parseSDJWTSelector (selector : string) : option (list value) :=
  if String.eqb selector "" then None
  else match scan_selector (S (String.length selector)) selector [] "" with
       | None | Some [] => None
       | Some path => Some path
       end.

Definition claimValueBySelector (cred : StoredCredential) (selector : string) : option value :=
  if String.eqb (CFormat cred) "mso_mdoc" then get selector (Claims cred)
  else match parseSDJWTSelector selector with
       | Some (VString key :: rest) =>
           match get key (Claims cred) with
           | None => None
           | Some v => claimValueAtPath v rest
           end
       | _ => None
       end.

Definition filterClaims (cred : StoredCredential) (selectedKeys : list string) : object :=
  fold_left (fun filtered k =>
               match claimValueBySelector cred k with
               | Some v => set k v filtered
               | None => filtered
               end) selectedKeys [].
