(* ===== verification/ClaimPathFacts.v ===== *)
(** * ClaimPathFacts: selectors name the claims their paths select

    A query path becomes a selector string when a claim is selected and the
    selector is parsed again when the claim is filtered and presented.  For
    the paths OpenID4VP allows (names, non-negative integers, null) whose
    names hold no dot and no bracket, nothing is lost on the way. *)

From Stdlib Require Import Ascii ZArith Lia SpecFloat.
From stdpp Require Import base list strings gmap.
From S2P Require Import Prelude GoStrings StringFacts GoValue Numbers Validity SDJWT WalletState ClaimPath.

Local Open Scope Z_scope.
#[local] Arguments String.append : simpl nomatch.

(** ** Well-formed paths *)

(** A byte a name can hold. *)
Definition name_byte (c : ascii) : bool := negb (Ascii.eqb c ".") && negb (Ascii.eqb c "[").

(** A query segment and the segment its selector parses to. *)
Inductive good_segment : value -> value -> Prop :=
| good_name s : s <> "" -> all_bytes name_byte s = true -> good_segment (VString s) (VString s)
| good_index f z : index_float f z -> good_segment (VFloat f) (VInt KInt z)
| good_all : good_segment VNil VNil.

(** ** The scanner *)

Lemma scan_name s R fuel acc n :
  all_bytes name_byte s = true ->
  scan_selector (String.length s + fuel) (s +:+ R) acc n = scan_selector fuel R acc (n +:+ s).
Proof.
  revert n; induction s as [|c s IH]; intros n H; simpl in *; [by rewrite append_nil|].
  apply andb_true_iff in H as [Hc H]. unfold name_byte in Hc. apply andb_true_iff in Hc as [Hd Hb].
  apply negb_true_iff in Hd, Hb. rewrite Hd, Hb, IH by done. by rewrite append_assoc.
Qed.

Lemma digits_no_bracket s : all_bytes is_digit s = true -> all_bytes (fun d => negb (Ascii.eqb d "]")) s = true.
Proof.
  induction s as [|c s IH]; simpl; [done|]. intros [Hc Hs]%andb_true_iff. rewrite IH, andb_true_r by done.
  by destruct c as [[] [] [] [] [] [] [] []].
Qed.

Lemma scan_bracket fuel content R acc n :
  all_bytes (fun d => negb (Ascii.eqb d "]")) content = true -> content <> "" ->
  scan_selector (S fuel) ("[" +:+ content +:+ "]" +:+ R) acc n =
  if String.eqb content "*" then scan_selector fuel R (flush_name acc n ++ [VNil]) ""
  else match atoi content with
       | None => None
       | Some idx => scan_selector fuel R (flush_name acc n ++ [VInt KInt idx]) ""
       end.
Proof.
  intros Hc Hne. simpl. rewrite cut_found by done. simpl.
  destruct (String.eqb_spec content ""); done.
Qed.

Lemma digits_not_star s : all_bytes is_digit s = true -> String.eqb s "*" = false.
Proof. intros H. apply String.eqb_neq. intros ->. done. Qed.

Lemma flush_empty acc : flush_name acc "" = acc.
Proof. done. Qed.

Lemma scan_segments path path' i acc n fuel :
  Forall2 good_segment path path' -> (0 < i)%nat -> flush_name acc n <> [] ->
  (String.length (path_segments i path) < fuel)%nat ->
  scan_selector fuel (path_segments i path) acc n = Some (flush_name acc n ++ path').
Proof.
  intros HF. revert i acc n fuel.
  induction HF as [|seg seg' path path' Hseg HF IH]; intros i acc n fuel Hi Hne Hf.
  { simpl in *. destruct fuel; [lia|]. simpl. by rewrite app_nil_r. }
  simpl in Hf |- *. rewrite append_length in Hf. destruct i as [|i]; [lia|].
  destruct Hseg as [s Hs Hb|f z Hz|]; simpl in Hf |- *; rewrite ?append_length in Hf; simpl in Hf;
    (destruct fuel as [|fuel]; [lia|]).
  - assert (Hstep : scan_selector (S fuel) (String "." (s +:+ path_segments (S (S i)) path)) acc n
      = scan_selector fuel (s +:+ path_segments (S (S i)) path) (flush_name acc n) "").
    { unfold flush_name in *. simpl. destruct (String.eqb n ""); [|done]. by destruct acc. }
    rewrite Hstep. replace fuel with (String.length s + (fuel - String.length s))%nat by lia.
    rewrite scan_name, IH by (done || lia || (unfold flush_name at 1; simpl;
      destruct (String.eqb_spec s ""); [done|by destruct (flush_name acc n)])).
    unfold flush_name at 1. simpl. destruct (String.eqb_spec s ""); [done|]. by rewrite <- app_assoc.
  - pose proof Hz as (_ & Hr & _). destruct (itoa_digits z) as [Hd Hn]; [lia|].
    rewrite (format_float_int f z Hz) in *.
    assert (Hb := scan_bracket fuel (itoa z) (path_segments (S (S i)) path) acc n (digits_no_bracket _ Hd) Hn).
    rewrite append_assoc. etrans; [exact Hb|]. rewrite digits_not_star, atoi_itoa by (done || unfold max_int64; lia).
    rewrite IH by (done || lia || by destruct (flush_name acc n)).
    by rewrite flush_empty, <- app_assoc.
  - assert (Hb := scan_bracket fuel "*" (path_segments (S (S i)) path) acc n eq_refl ltac:(done)).
    etrans; [exact Hb|]. simpl. rewrite IH by (done || lia || by destruct (flush_name acc n)).
    by rewrite flush_empty, <- app_assoc.
Qed.

Lemma parse_print s rest rest' :
  s <> "" -> all_bytes name_byte s = true -> Forall2 good_segment rest rest' ->
  parseSDJWTSelector (claimPathString (VString s :: rest)) = Some (VString s :: rest').
Proof.
  intros Hs Hb HF. unfold parseSDJWTSelector, claimPathString.
  change (path_segments 0 (VString s :: rest)) with (s +:+ path_segments 1 rest).
  destruct (String.eqb_spec (s +:+ path_segments 1 rest) "") as [He|_]; [by destruct s|].
  rewrite append_length.
  replace (S (String.length s + String.length (path_segments 1 rest)))
    with (String.length s + S (String.length (path_segments 1 rest)))%nat by lia.
  rewrite scan_name by done. rewrite (scan_segments rest rest' 1 [] s) by
    (done || lia || (unfold flush_name; by destruct (String.eqb_spec s ""))).
  unfold flush_name. destruct (String.eqb_spec s ""); done.
Qed.

(** Printing a claims path pointer as a selector and parsing the selector
    gives the path back, with its JSON numbers as integers, for every path
    OpenID4VP section 7 allows that starts with a name and whose names are
    non-empty and hold no [.] and no [[]: any nesting, any index below 2^53
    and any number of nulls. *)
Theorem selector_roundtrip s rest rest' :
  s <> "" -> all_bytes name_byte s = true -> Forall2 good_segment rest rest' ->
  parseSDJWTSelector (claimPathString (VString s :: rest)) = Some (VString s :: rest').
Proof. apply parse_print. Qed.

(** ** What a path selects *)

(** The elements the code selects, in document order; an element of the wrong
    type contributes nothing. *)
Fixpoint selected (v : value) (path : list value) : list value :=
  match path with
  | [] => [v]
  | VString seg :: rest =>
      match v with VObj obj => match get seg obj with Some x => selected x rest | None => [] end | _ => [] end
  | VInt KInt i :: rest =>
      match v with VArr arr => match arr !! Z.to_nat i with Some x => selected x rest | None => [] end | _ => [] end
  | VNil :: rest => match v with VArr arr => arr ≫= (fun x => selected x rest) | _ => [] end
  | _ :: _ => []
  end.

Lemma claimPathIndex_good f z : index_float f z -> claimPathIndex (VFloat f) = Some z.
Proof.
  intros H. unfold claimPathIndex. rewrite (int_of_index_float f z H).
  assert (Hlt : f64_ltb f (S754_zero false) = false).
  { by apply index_float_cases in H as [[-> _]|(m & e & -> & _)]. }
  rewrite Hlt. simpl. by rewrite (index_float_eqb f z H).
Qed.

(** What one segment selects in one element. *)
Definition pick (seg v : value) : list value :=
  match seg, v with
  | VString s, VObj obj => from_option (fun x => [x]) [] (get s obj)
  | VInt KInt i, VArr arr => from_option (fun x => [x]) [] (arr !! Z.to_nat i)
  | VNil, VArr arr => arr
  | _, _ => []
  end.

Lemma select_step_spec seg seg' sel :
  good_segment seg seg' -> select_step seg sel = Some (sel ≫= pick seg').
Proof.
  intros Hg. induction sel as [|v sel IH]; [by destruct Hg|].
  destruct Hg as [s Hs Hb|f z Hz|].
  - simpl. rewrite IH. destruct v; simpl; try done. by destruct (get s m).
  - cbn [select_step]. rewrite (claimPathIndex_good f z Hz). rewrite IH.
    destruct v; simpl; try done. by destruct (l !! Z.to_nat z).
  - simpl. rewrite IH. by destruct v.
Qed.

Lemma selected_cons seg' rest v : selected v (seg' :: rest) = pick seg' v ≫= (fun x => selected x rest).
Proof.
  destruct seg' as [| | | |[] z| |s| | | |]; destruct v; try done; simpl.
  - destruct (l !! Z.to_nat z); simpl; by rewrite ?app_nil_r.
  - destruct (get s m); simpl; by rewrite ?app_nil_r.
Qed.

Lemma bind_selected_cons seg' sel rest :
  (sel ≫= (fun v => selected v (seg' :: rest))) = ((sel ≫= pick seg') ≫= (fun v => selected v rest)).
Proof.
  induction sel as [|v sel IH]; [done|].
  change ((v :: sel) ≫= pick seg') with (pick seg' v ++ (sel ≫= pick seg')).
  rewrite bind_app, <- IH, <- selected_cons. done.
Qed.

Lemma select_loop_spec path path' sel :
  Forall2 good_segment path path' -> select_loop sel path = sel ≫= (fun v => selected v path').
Proof.
  intros HF. revert sel. induction HF as [|seg seg' path path' Hg HF IH]; intros sel.
  { simpl. induction sel as [|v sel IHs]; simpl; [done|]. by rewrite <- IHs at 1. }
  simpl select_loop. rewrite (select_step_spec seg seg' sel Hg), bind_selected_cons.
  destruct (sel ≫= pick seg') as [|v next]; [done|]. apply IH.
Qed.

(** The processing of OpenID4VP section 7.1.1.  A string selects that member
    of an object, an index that element of an array and null every element of
    an array; what is missing is removed from the selection. *)
Inductive chooses : value -> value -> list value -> Prop :=
| choose_member s obj x : get s obj = Some x -> chooses (VString s) (VObj obj) [x]
| choose_no_member s obj : get s obj = None -> chooses (VString s) (VObj obj) []
| choose_element f z arr x : index_float f z -> arr !! Z.to_nat z = Some x -> chooses (VFloat f) (VArr arr) [x]
| choose_no_element f z arr : index_float f z -> arr !! Z.to_nat z = None -> chooses (VFloat f) (VArr arr) []
| choose_all arr : chooses VNil (VArr arr) arr.

(** A selection that becomes empty is an error, as is an element of another
    type: neither has a result. *)
Inductive resolves : list value -> list value -> list value -> Prop :=
| resolves_end sel : sel <> [] -> resolves [] sel sel
| resolves_step seg path sel nexts out :
    Forall2 (chooses seg) sel nexts -> resolves path (concat nexts) out -> resolves (seg :: path) sel out.

Definition right_type (seg v : value) : bool :=
  match seg, v with VString _, VObj _ | VFloat _, VArr _ | VNil, VArr _ => true | _, _ => false end.

(** The processing meets an element of the wrong type. *)
Inductive aborts : list value -> list value -> Prop :=
| aborts_here seg path sel v : v ∈ sel -> right_type seg v = false -> aborts (seg :: path) sel
| aborts_later seg path sel nexts : Forall2 (chooses seg) sel nexts -> aborts path (concat nexts) -> aborts (seg :: path) sel.

(** The segments section 7 allows. *)
Definition allowed (seg : value) : Prop :=
  match seg with VString _ | VNil => True | VFloat f => exists z, index_float f z | _ => False end.

Lemma resolves_nonempty path sel out : resolves path sel out -> sel <> [].
Proof.
  induction 1 as [sel Hne|seg path sel nexts out HF _ IH]; [done|]. intros ->. by apply Forall2_nil_inv_l in HF as ->.
Qed.

Lemma chooses_step seg sel nexts : Forall2 (chooses seg) sel nexts -> select_step seg sel = Some (concat nexts).
Proof.
  induction 1 as [|v l sel nexts Hc HF IH]; [by destruct seg|].
  destruct Hc as [s obj x Hx|s obj Hx|f z arr x Hz Hx|f z arr Hz Hx|arr]; cbn [select_step as_obj as_arr concat].
  - by rewrite Hx, IH.
  - by rewrite Hx, IH.
  - by rewrite (claimPathIndex_good f z Hz), Hx, IH.
  - by rewrite (claimPathIndex_good f z Hz), Hx, IH.
  - by rewrite IH.
Qed.

Lemma resolves_loop path sel out : resolves path sel out -> select_loop sel path = out.
Proof.
  induction 1 as [sel Hne|seg path sel nexts out HF Hr IH]; [done|]. cbn [select_loop]. rewrite (chooses_step _ _ _ HF).
  apply resolves_nonempty in Hr. by destruct (concat nexts).
Qed.

Lemma chooses_total seg v : allowed seg -> right_type seg v = true -> exists l, chooses seg v l.
Proof.
  intros Ha Ht. destruct seg as [| | | |k z|f|s| | | |]; destruct v; try done.
  - eexists. apply choose_all.
  - destruct Ha as [z Hz]. destruct (l !! Z.to_nat z) eqn:E; eexists; [by eapply choose_element|by eapply choose_no_element].
  - destruct (get s m) eqn:E; eexists; [by apply choose_member|by apply choose_no_member].
Qed.

Lemma loop_resolves path sel :
  Forall allowed path -> sel <> [] -> ~ aborts path sel -> select_loop sel path <> [] -> resolves path sel (select_loop sel path).
Proof.
  revert sel. induction path as [|seg path IH]; intros sel Ha Hne Hab Hl; [by apply resolves_end|].
  apply Forall_cons in Ha as [Hseg Ha].
  assert (Hn : exists nexts, Forall2 (chooses seg) sel nexts).
  { clear Hl Hne. assert (Hall : forall v, v ∈ sel -> exists l, chooses seg v l).
    { intros v Hv. apply chooses_total; [done|]. destruct (right_type seg v) eqn:Et; [done|]. destruct Hab. by eapply aborts_here. }
    clear Hab. induction sel as [|v sel IHs]; [by exists []|].
    destruct (Hall v) as [l Hc]; [by left|]. destruct IHs as [ls Hcs]; [intros; apply Hall; by right|]. exists (l :: ls). by constructor. }
  destruct Hn as [nexts HF]. cbn [select_loop] in Hl |- *. rewrite (chooses_step _ _ _ HF) in Hl |- *.
  destruct (concat nexts) as [|x xs] eqn:Ec; [done|]. rewrite <- Ec in *. eapply resolves_step; [exact HF|].
  apply IH; [done|by rewrite Ec| |done]. intros Hab'. apply Hab. by eapply aborts_later.
Qed.

(** C38: [selectJSONClaims] against the processing of a claims path pointer in
    OpenID4VP section 7.1.1, for any claims and any path.  Whenever that
    processing selects elements, the code returns exactly those, in the same
    order.  Conversely, for a path of the segments section 7 allows, what the
    code returns is empty or the selection of that processing, unless the
    processing aborts on a selected element of the wrong type: there the code
    skips the element and goes on with the others. *)
Theorem selectJSONClaims_refines root path :
  (forall sel, resolves path [VObj root] sel -> selectJSONClaims root path = sel) /\
  (Forall allowed path -> ~ aborts path [VObj root] ->
   selectJSONClaims root path = [] \/ resolves path [VObj root] (selectJSONClaims root path)).
Proof.
  split; [intros sel; apply resolves_loop|]. intros Ha Hab. unfold selectJSONClaims.
  destruct (select_loop [VObj root] path) as [|x l] eqn:E; [by left|]. right. rewrite <- E.
  apply loop_resolves; [done|done|done|by rewrite E].
Qed.

(** An element of the wrong type is skipped where the processing aborts. *)
Lemma wrong_type_is_skipped :
  let root := [("a", VArr [VString "x"; VObj [("b", VString "y")]])] in
  let path := [VString "a"; VNil; VString "b"] in
  selectJSONClaims root path = [VString "y"] /\ aborts path [VObj root].
Proof.
  split; [by vm_compute|].
  eapply (aborts_later _ _ _ [[_]]); [by constructor; [by apply choose_member|]|].
  eapply (aborts_later _ _ _ [_]); [by constructor; [by apply choose_all|]|].
  eapply aborts_here; [by left|done].
Qed.

Lemma exists_value path path' v :
  Forall2 good_segment path path' ->
  claimPathExists v path = true <-> is_Some (claimValueAtPath v path').
Proof.
  intros HF. revert v. induction HF as [|seg seg' path path' Hg HF IH]; intros v; [by simpl; split; eauto|].
  destruct Hg as [s Hs Hb|f z Hz|]; cbn [claimPathExists claimValueAtPath].
  - destruct (as_obj v) as [obj|]; [|by split; [|intros [? ?]]].
    destruct (get s obj); [apply IH|by split; [|intros [? ?]]].
  - rewrite (int_of_index_float f z Hz). destruct (as_arr v) as [arr|]; [|by split; [|intros [? ?]]].
    destruct (_ || _); [by split; [|intros [? ?]]|].
    destruct (arr !! Z.to_nat z); [apply IH|by split; [|intros [? ?]]].
  - destruct (as_arr v) as [arr|]; [|by split; [|intros [? ?]]].
    destruct HF as [|x x' path path' Hx HF]; [by split; eauto|].
    rewrite existsb_exists. split.
    + intros (item & Hin & Hex). apply IH in Hex as [y Hy]. rewrite <- list_elem_of_In in Hin.
      destruct (filter_map _ arr) eqn:Ef; [|by eauto].
      assert (Hel : y ∈ filter_map (fun item => claimValueAtPath item (x' :: path')) arr)
        by (apply elem_of_filter_map; eauto). rewrite Ef in Hel. set_solver.
    + intros [y Hy]. destruct (filter_map _ arr) as [|o os] eqn:Ef; [done|].
      assert (Hel : o ∈ filter_map (fun item => claimValueAtPath item (x' :: path')) arr)
        by (rewrite Ef; by left). apply elem_of_filter_map in Hel as (item & Hin & Hi).
      exists item. rewrite <- list_elem_of_In. split; [done|]. apply IH. eauto.
Qed.

Lemma bind_nonempty {A B} (f : A -> list B) l : (l ≫= f) <> [] <-> exists x, x ∈ l /\ f x <> [].
Proof.
  induction l as [|x l IH]; simpl; [set_solver|].
  change (foldr _ _ _) with (l ≫= f). destruct (f x) as [|y ys] eqn:E; simpl.
  - rewrite IH. set_solver.
  - split; [|done]. intros _. exists x. rewrite E. set_solver.
Qed.

Lemma exists_selected path path' v :
  Forall2 good_segment path path' -> last path <> Some VNil ->
  claimPathExists v path = true <-> selected v path' <> [].
Proof.
  intros HF. revert v. induction HF as [|seg seg' path path' Hg HF IH]; intros v Hl; [done|].
  assert (Hl' : last path <> Some VNil) by (destruct path; [done|by rewrite last_cons_cons in Hl]).
  destruct Hg as [s Hs Hb|f z Hz|]; cbn [claimPathExists].
  - simpl. destruct v; try done. simpl. destruct (get s m); [by apply IH|done].
  - rewrite (int_of_index_float f z Hz). pose proof Hz as (_ & Hr & _). destruct v; try done. simpl.
    destruct (Z.ltb_spec z 0); [lia|]. simpl. destruct (Z.leb_spec (Z.of_nat (length l)) z).
    + rewrite lookup_ge_None_2 by lia. done.
    + destruct (l !! Z.to_nat z); [by apply IH|done].
  - destruct v; try done. simpl as_arr. cbn iota. destruct path as [|x path]; [done|].
    rewrite existsb_exists. simpl selected. rewrite bind_nonempty.
    setoid_rewrite <- list_elem_of_In. setoid_rewrite IH; [done|done].
Qed.

(** The four readings of a path agree.  For a JSON-based credential and an
    allowed path starting with a name, the query evaluation selects the claim
    exactly when the selector it hands on finds a value in the credential, so
    no selected claim is lost when claims are filtered; and unless the path
    ends in null, exactly when section 7.1 selects at least one element. *)
Theorem selected_claim_is_found cred s rest rest' :
  CFormat cred <> "mso_mdoc" -> s <> "" -> all_bytes name_byte s = true ->
  Forall2 good_segment rest rest' ->
  let path := VString s :: rest in
  let sel := claimSelectorFromPath cred path in
  (sel <> "" <-> is_Some (claimValueBySelector cred (claimPathString path))) /\
  (sel <> "" -> sel = claimPathString path) /\
  (last path <> Some VNil -> (sel <> "" <-> claimValuesAtPath cred path <> [])).
Proof.
  intros Hf Hs Hb HF path sel. apply String.eqb_neq in Hf.
  assert (Hpath : claimPathString path <> "").
  { unfold path, claimPathString. change (path_segments 0 _) with (s +:+ path_segments 1 rest).
    by apply append_not_empty. }
  assert (Hsel : sel = if match get s (Claims cred) with Some v => claimPathExists v rest | None => false end
                       then claimPathString path else "").
  { unfold sel, claimSelectorFromPath, path, claimKeyFromPath. rewrite Hf.
    destruct (get s (Claims cred)) as [v|]; [|done]. destruct (claimPathExists v rest); [|done].
    destruct (String.eqb_spec s ""); done. }
  split; [|split].
  - unfold claimValueBySelector, path. rewrite Hf, (parse_print s rest rest') by done. fold path.
    rewrite Hsel. destruct (get s (Claims cred)) as [v|]; [|by split; [|intros [? ?]]].
    rewrite <- (exists_value rest rest' v HF). by destruct (claimPathExists v rest).
  - rewrite Hsel. by destruct (match get _ _ with Some _ => _ | None => _ end).
  - intros Hl. unfold claimValuesAtPath, path. rewrite Hf.
    unfold selectJSONClaims. rewrite (select_loop_spec _ (VString s :: rest')) by (by constructor; [constructor|]).
    simpl. rewrite app_nil_r, Hsel.
    destruct (get s (Claims cred)) as [v|]; [|done].
    assert (Hl' : last rest <> Some VNil) by (unfold path in Hl; destruct rest; [done|by rewrite last_cons_cons in Hl]).
    rewrite <- (exists_selected rest rest' v HF Hl'). by destruct (claimPathExists v rest).
Qed.

(** ** Where the readings differ *)

Definition json_cred (claims : object) : StoredCredential :=
  mkCred "1" "dc+sd-jwt" "" claims "" "" false None None "" "" 0 zero_time [] zero_time [].

(** A claim whose name holds a dot is selected and then lost.  The query
    evaluation finds the claim [a.b] of the credential and reports it under
    the selector [a.b]; that selector parses as the path a, b, so the claim is
    missing from the filtered claims although the query matched. *)
Theorem dotted_claim_is_lost :
  let cred := json_cred [("a.b", VString "v")] in
  claimValuesAtPath cred [VString "a.b"] = [VString "v"] /\
  claimSelectorFromPath cred [VString "a.b"] = "a.b" /\
  filterClaims cred ["a.b"] = [].
Proof. vm_compute. done. Qed.

(** The double 1.5. *)
Definition one_and_a_half : float64 := S754_finite false 6755399441055744 (-52).

(** A fractional index is accepted by [claimPathExists], which truncates
    it, and refused by [claimPathIndex]: the path ["a", 1.5] counts as present
    and yields the selector [a[1.5]], but it selects no value and the selector
    does not parse. *)
Theorem fractional_index_is_inconsistent :
  let cred := json_cred [("a", VArr [VString "x"; VString "y"])] in
  let path := [VString "a"; VFloat one_and_a_half] in
  claimSelectorFromPath cred path = "a[1.5]" /\
  claimValuesAtPath cred path = [] /\ parseSDJWTSelector "a[1.5]" = None.
Proof. vm_compute. done. Qed.

(** ** Instances *)

Definition two : float64 := S754_finite false 4503599627370496 (-51).

Lemma two_is_index : index_float two 2.
Proof. split; [reflexivity|]. split; [lia|reflexivity]. Defined.

Definition deep_path : list value := [VFloat two; VNil; VString "street"].
Definition deep_path' : list value := [VInt KInt 2; VNil; VString "street"].

Lemma deep_path_good : Forall2 good_segment deep_path deep_path'.
Proof.
  constructor; [exact (good_index _ _ two_is_index)|]. constructor; [exact good_all|].
  constructor; [by apply good_name|constructor].
Defined.

Lemma selector_roundtrip_witness :
  claimPathString (VString "addr" :: deep_path) = "addr[2][*].street" /\
  parseSDJWTSelector (claimPathString (VString "addr" :: deep_path)) = Some (VString "addr" :: deep_path').
Proof.
  split; [vm_compute; reflexivity|].
  apply (selector_roundtrip "addr" deep_path deep_path'); [done|reflexivity|exact deep_path_good].
Defined.

Definition deep_claims : object :=
  [("addr", VArr [VNil; VNil; VArr [VObj [("street", VString "A")]; VObj [("street", VString "B")]]])].

Lemma selectJSONClaims_refines_witness :
  selectJSONClaims deep_claims (VString "addr" :: deep_path) = [VString "A"; VString "B"].
Proof.
  apply (proj1 (selectJSONClaims_refines deep_claims (VString "addr" :: deep_path))).
  eapply (resolves_step _ _ _ [[_]]); [by constructor; [by apply choose_member|]|].
  eapply (resolves_step _ _ _ [[_]]); [by constructor; [by eapply choose_element; [apply two_is_index|]|]|].
  eapply (resolves_step _ _ _ [_]); [by constructor; [apply choose_all|]|].
  eapply (resolves_step _ _ _ [[_]; [_]]); [by repeat constructor; apply choose_member|].
  by apply resolves_end.
Defined.

Lemma selected_claim_is_found_witness :
  let cred := json_cred deep_claims in
  is_Some (claimValueBySelector cred (claimPathString (VString "addr" :: deep_path))).
Proof.
  apply (selected_claim_is_found (json_cred deep_claims) "addr" deep_path deep_path').
  - done.
  - done.
  - reflexivity.
  - exact deep_path_good.
  - by vm_compute.
Defined.
