(* ===== verification/DCQL.v ===== *)
(** * DCQL: evaluating a verifier's query against the stored credentials

    internal/wallet/dcql.go, with [collapseBatchMatches] of issuance_batch.go
    and the match and consent types of wallet.go.  A query is a decoded JSON
    object (OpenID4VP 1.0 section 6). *)

From Stdlib Require Import Ascii ZArith Lia.
From stdpp Require Import base list strings gmap.
From S2P Require Import Prelude GoStrings GoValue Format Validity CredType SDJWT WalletState ClaimPath.

Local Open Scope Z_scope.

(** ** Data (wallet.go) *)

Record ConsentClaimSet := mkClaimSet { cs_Index : Z; cs_Keys : list string; cs_Claims : object }.

Record CredentialMatch := mkMatch {
  QueryID : string;
  CredentialID : string;
  MFormat : string;
  MVCT : string;
  MDocType : string;
  MClaims : object;
  SelectedKeys : list string;
  UntrustedAuthority : bool;
  Unbound : bool;
  EmptyArrayClaims : list string;
  MissingClaims : list string;
  Mismatches : list string;
  ClaimSets : list ConsentClaimSet }.

Record ConsentSetOptions := mkSetOptions {
  so_Options : list (list string); so_Optional : bool; so_Unmatched : list Z }.

Record ConsentQueryOptions := mkQueryOptions {
  qo_ID : string; qo_Multiple : bool;
  qo_Candidates : list CredentialMatch; qo_NonMatching : list CredentialMatch }.

Record ConsentCredentialOptions := mkOptions {
  co_Sets : list ConsentSetOptions; co_Queries : list ConsentQueryOptions }.

Inductive ValidationMode := Strict | Debug.

#[export] Instance mode_eq_dec : EqDecision ValidationMode.
Proof. solve_decision. Defined.

Definition is_debug (m : ValidationMode) : bool := match m with Debug => true | Strict => false end.
Definition is_strict (m : ValidationMode) : bool := match m with Strict => true | Debug => false end.

(** ** Query findings *)

Inductive finding :=
| CredentialsRequired
| NotAnObject (i : Z)
| BadIdentifier (i : Z) (id : string)
| DuplicateIdentifier (id : string)
| MissingFormat (label : string)
| MultipleNotBool (label : string)
| BindingNotBool (label : string)
| MissingMeta (label : string)
| MetaNotObject (label : string).

Definition is_id_byte (c : ascii) : bool :=
  let n := nat_of_ascii c in
  ((97 <=? n)%nat && (n <=? 122)%nat) || ((65 <=? n)%nat && (n <=? 90)%nat) || is_digit c
  || Ascii.eqb c "_" || Ascii.eqb c "-".

Definition isDCQLIdentifier (id : string) : bool :=
  negb (String.eqb id "") && all_bytes is_id_byte id.

(** The checks of one credential query, after its id. *)
Definition member_findings (cqMap : object) (label : string) : list finding :=
  (if String.eqb (get_string cqMap "format") "" then [MissingFormat label] else [])
  ++ match get "multiple" cqMap with
     | Some (VBool _) | None => []
     | Some _ => [MultipleNotBool label]
     end
  ++ match get "require_cryptographic_holder_binding" cqMap with
     | Some (VBool _) | None => []
     | Some _ => [BindingNotBool label]
     end
  ++ match get "meta" cqMap with
     | None => [MissingMeta label]
     | Some (VObj _) => []
     | Some _ => [MetaNotObject label]
     end.

Fixpoint query_findings (i : Z) (cqs : list value) (seen : gset string) : list finding :=
  match cqs with
  | [] => []
  | cq :: cqs =>
      match as_obj cq with
      | None => NotAnObject i :: query_findings (i + 1) cqs seen
      | Some cqMap =>
          let id := get_string cqMap "id" in
          let '(id_findings, seen) :=
            if negb (isDCQLIdentifier id) then ([BadIdentifier i id], seen)
            else if bool_decide (id ∈ seen) then ([DuplicateIdentifier id], seen)
            else ([], {[id]} ∪ seen) in
          let label := if String.eqb id "" then "credentials[" +:+ itoa i +:+ "]" else id in
          id_findings ++ member_findings cqMap label ++ query_findings (i + 1) cqs seen
      end
  end.

(** [None] is a nil query. *)
Definition DCQLQueryFindings (query : option object) : list finding :=
  match query with
  | None => []
  | Some q =>
      match as_arr (index q "credentials") with
      | None | Some [] => [CredentialsRequired]
      | Some cqs => query_findings 0 cqs ∅
      end
  end.

(** ** Matching one credential *)

Definition matchesFormat (cred : StoredCredential) (queryFormat : string) : bool :=
  String.eqb queryFormat "" || String.eqb (CFormat cred) queryFormat.

Definition vct_values_match (cred : StoredCredential) (vctValues : list value) : bool :=
  negb (String.eqb (VCT cred) "") &&
  let types := Chain (VCT cred) (AkaVCTs (Claims cred)) in
  existsb (fun v => match v with
                    | VString s => negb (String.eqb s "") && existsb (fun t => String.eqb t s) types
                    | _ => false
                    end) vctValues.

Definition matchesMeta (cred : StoredCredential) (cqMap : object) : bool :=
  match as_obj (index cqMap "meta") with
  | None => true
  | Some meta =>
      (match as_arr (index meta "vct_values") with
       | None => true
       | Some vctValues => vct_values_match cred vctValues
       end)
      && match as_string (index meta "doctype_value") with
         | None => true
         | Some docType => String.eqb (DocType cred) docType
         end
  end.

Definition requiresHolderBinding (cqMap : object) : bool :=
  match as_bool (index cqMap "require_cryptographic_holder_binding") with
  | Some required => required
  | None => true
  end.

Definition first_nonempty (a b : string) : string := if String.eqb a "" then b else a.

Definition metaMismatch (cred : StoredCredential) (cqMap : object) : string :=
  let meta := get_obj cqMap "meta" in
  match as_arr (index meta "vct_values") with
  | Some values =>
      "type " +:+ first_nonempty (VCT cred) (DocType cred) +:+ ", the query asks for "
      +:+ join " or " (strings_of values)
  | None =>
      match as_string (index meta "doctype_value") with
      | None => "meta does not match"
      | Some docType =>
          "type " +:+ first_nonempty (DocType cred) (VCT cred) +:+ ", the query asks for " +:+ docType
      end
  end.

(** ** Selecting claims *)

Definition claimSelectorFor (cred : StoredCredential) (cqMap : object) : string :=
  match as_arr (index cqMap "path") with
  | None => ""
  | Some path =>
      let selector := claimSelectorFromPath cred path in
      if String.eqb selector "" then ""
      else match as_arr (index cqMap "values") with
           | None | Some [] => selector
           | Some values =>
               if valuesConstraintSatisfied (claimValuesAtPath cred path) values then selector else ""
           end
  end.

(** Last entry with the id; a query without id or path is left out. *)
Definition buildClaimByID (claimsQuery : list value) (id : string) : option object :=
  find_map (fun cq => match cq with
                      | VObj cqMap =>
                          match as_arr (index cqMap "path") with
                          | Some _ => if negb (String.eqb (get_string cqMap "id") "")
                                         && String.eqb (get_string cqMap "id") id
                                      then Some cqMap else None
                          | None => None
                          end
                      | _ => None
                      end) (reverse claimsQuery).

Fixpoint claim_set_loop (cred : StoredCredential) (claimByID : string -> option object) (ids : list value) :
    option (list string) :=
  match ids with
  | [] => Some []
  | VString id :: ids =>
      match claimByID id with
      | None => None
      | Some cqMap =>
          let selector := claimSelectorFor cred cqMap in
          if String.eqb selector "" then None
          else cons selector <$> claim_set_loop cred claimByID ids
      end
  | _ :: _ => None
  end.

Definition claimSetSelectors (cred : StoredCredential) (claimByID : string -> option object) (claimSet : value) :
    option (list string) :=
  match as_arr claimSet with
  | None => None
  | Some ids => match claim_set_loop cred claimByID ids with
                | None | Some [] => None
                | Some selected => Some selected
                end
  end.

Definition selectFromClaimSets (cred : StoredCredential) (claimsQuery claimSets : list value) : list string :=
  default [] (find_map (claimSetSelectors cred (buildClaimByID claimsQuery)) claimSets).

Definition satisfiableClaimSets (cred : StoredCredential) (cqMap : object) : list ConsentClaimSet :=
  let claimsQuery := get_arr cqMap "claims" in
  let claimSets := get_arr cqMap "claim_sets" in
  if bool_decide (claimsQuery = []) || bool_decide (claimSets = []) then []
  else filter_map (fun '(i, cs) =>
                     match claimSetSelectors cred (buildClaimByID claimsQuery) cs with
                     | Some selected => Some (mkClaimSet i selected (filterClaims cred selected))
                     | None => None
                     end) (enumerate claimSets).

(** *** Arrays that would be disclosed empty (presentation.go) *)

(** [digestMap[digest]]: the last disclosure with the digest. *)
Definition digest_lookup (ds : list Disclosure) (digest : string) : option Disclosure :=
  find_map (fun d => if String.eqb (d_Digest d) digest then Some d else None) (reverse ds).

(** Strings only; a selectively disclosable member resolves to its disclosure
    value.  [VNil] stands for the nil results. *)
Fixpoint placeholderValueAtPath (v : value) (path : list value) (ds : list Disclosure) : value :=
  match path with
  | [] => v
  | VString segment :: rest =>
      match as_obj v with
      | None => VNil
      | Some obj =>
          match get segment obj with
          | Some next => placeholderValueAtPath next rest ds
          | None =>
              match find_map (fun item =>
                                match item with
                                | VString digest =>
                                    match digest_lookup ds digest with
                                    | Some d => if d_IsArrayEntry d || negb (String.eqb (d_Name d) segment)
                                                then None else Some d
                                    | None => None
                                    end
                                | _ => None
                                end) (get_arr obj "_sd") with
              | Some d => placeholderValueAtPath (d_Value d) rest ds
              | None => VNil
              end
          end
      end
  | _ :: _ => VNil
  end.

Section evaluation.
Context {J : Json}.

Definition parseIssuerJWTPayload (issuerJWT : string) : option object :=
  match split "." issuerJWT with
  | [_; body; _] =>
      match DecodeBase64URL body with
      | Some raw => unmarshal_object raw
      | None => None
      end
  | _ => None
  end.

Definition is_placeholder (item : value) : bool :=
  match item with
  | VObj obj => match index obj "..." with VString _ => true | _ => false end
  | _ => false
  end.

Definition disclosesEmptyArray (cred : StoredCredential) (path : list value) : bool :=
  if negb (String.eqb (CFormat cred) "dc+sd-jwt") then false
  else match last path with
       | None | Some VNil | Some (VFloat _) | Some (VInt KInt _) => false
       | Some _ =>
           match parseIssuerJWTPayload (default "" (head (split "~" (Raw cred)))) with
           | None => false
           | Some payload =>
               match placeholderValueAtPath (VObj payload) path (Disclosures cred) with
               | VArr [] => false
               | VArr arr => forallb is_placeholder arr
               | _ => false
               end
           end
       end.

Record claimSelection := mkSelection {
  selectedKeys : list string; missingRequired : list string; emptyArrays : list string; sel_match : bool }.

(** One round of the loop over the claims queries. *)
Definition add_requested (cred : StoredCredential) (acc : list string * list string * list string) (cq : value) :
    list string * list string * list string :=
  let '(selected, missing, empties) := acc in
  match cq with
  | VObj cqMap =>
      match as_arr (index cqMap "path") with
      | None => acc
      | Some path =>
          let selector := claimSelectorFor cred cqMap in
          if String.eqb selector "" then (selected, missing ++ [missingClaimLabel cred path], empties)
          else (selected ++ [selector], missing,
                if disclosesEmptyArray cred path then empties ++ [claimPathString path] else empties)
      end
  | _ => acc
  end.

Definition selectAllRequestedClaims (cred : StoredCredential) (claimsQuery : list value) : claimSelection :=
  let '(selected, missing, empties) := fold_left (add_requested cred) claimsQuery ([], [], []) in
  match selected with
  | [] => mkSelection [] missing [] false
  | _ => mkSelection selected missing empties true
  end.

Definition selectClaims (cred : StoredCredential) (cqMap : object) : claimSelection :=
  match get_arr cqMap "claims" with
  | [] => mkSelection [] [] [] true
  | claimsQuery =>
      match get_arr cqMap "claim_sets" with
      | [] => selectAllRequestedClaims cred claimsQuery
      | claimSets =>
          let selected := selectFromClaimSets cred claimsQuery claimSets in
          mkSelection selected [] [] (match selected with [] => false | _ => true end)
      end
  end.
End evaluation.

(** ** Ordering the candidates *)

(** Each sort compares matches of one query only.  The matches of a query
    stand together, and on such a list the block merges of [sort.SliceStable]
    find the same order as the insertions of [slice_stable]: a comparison of a
    right block element with a left block element holds only inside the query
    the blocks share, where the order is a strict weak one. *)
Definition by_query (less : CredentialMatch -> CredentialMatch -> bool) (a b : CredentialMatch) : bool :=
  if negb (String.eqb (QueryID a) (QueryID b)) then false else less a b.

(** [issued] maps a credential ID to its issuance time, the zero time when
    the ID is unknown. *)
Definition newer (issued : string -> time) (a b : CredentialMatch) : bool :=
  let ta := issued (CredentialID a) in
  let tb := issued (CredentialID b) in
  if negb (Bool.eqb (is_zero ta) (is_zero tb)) then is_zero tb else after ta tb.

Definition sortMatchesNewestFirst (issued : string -> time) : list CredentialMatch -> list CredentialMatch :=
  slice_stable (by_query (newer issued)).

Definition preferred_first (preferred : string) (a b : CredentialMatch) : bool :=
  String.eqb (MFormat a) preferred && negb (String.eqb (MFormat b) preferred).

Definition sortMatchesByPreferredFormat (preferred : string) : list CredentialMatch -> list CredentialMatch :=
  slice_stable (by_query (preferred_first preferred)).

Definition trusted_first (a b : CredentialMatch) : bool :=
  if negb (Bool.eqb (UntrustedAuthority a) (UntrustedAuthority b)) then negb (UntrustedAuthority a)
  else negb (Unbound a) && Unbound b.

Definition sortMatchesTrustedFirst : list CredentialMatch -> list CredentialMatch :=
  slice_stable (by_query trusted_first).

Definition complete (m : CredentialMatch) : bool := match MissingClaims m with [] => true | _ => false end.
Definition complete_first (a b : CredentialMatch) : bool := complete a && negb (complete b).

Definition sortMatchesCompleteFirst : list CredentialMatch -> list CredentialMatch :=
  slice_stable (by_query complete_first).

Fixpoint keep_loop (multiple : gset string) (seen : gset string) (matches : list CredentialMatch) :
    list CredentialMatch :=
  match matches with
  | [] => []
  | m :: matches =>
      if bool_decide (QueryID m ∈ seen) && negb (bool_decide (QueryID m ∈ multiple))
      then keep_loop multiple seen matches
      else m :: keep_loop multiple ({[QueryID m]} ∪ seen) matches
  end.

Definition keepOnePresentationPerQuery (multiple : gset string) : list CredentialMatch -> list CredentialMatch :=
  keep_loop multiple ∅.

Definition multipleQueries (credQueries : list value) : gset string :=
  list_to_set (filter_map (fun cq =>
    let cqMap := default [] (as_obj cq) in
    let id := get_string cqMap "id" in
    match index cqMap "multiple" with
    | VBool true => if String.eqb id "" then None else Some id
    | _ => None
    end) credQueries).

(** ** Credential sets *)

(** [byQuery[id]]: the matches of a query, in order. *)
Definition answers (matches : list CredentialMatch) (id : string) : list CredentialMatch :=
  List.filter (fun m => String.eqb (QueryID m) id) matches.

(** [_, has := byQuery[id]]. *)
Definition answered (matches : list CredentialMatch) (id : string) : bool :=
  existsb (fun m => String.eqb (QueryID m) id) matches.

Fixpoint option_ids (has : string -> bool) (ids : list value) : option (list string) :=
  match ids with
  | [] => Some []
  | VString qid :: ids => if has qid then cons qid <$> option_ids has ids else None
  | _ :: _ => None
  end.

Definition satisfiableOption (has : string -> bool) (opt : value) : option (list string) :=
  match as_arr opt with None => None | Some optArr => option_ids has optArr end.

Fixpoint option_has_format (queryFormat : string -> string) (format : string) (ids : list value) : bool :=
  match ids with
  | VString qid :: ids => String.eqb (queryFormat qid) format || option_has_format queryFormat format ids
  | _ => false
  end.

Definition optionMatchesFormat (opt : value) (queryFormat : string -> string) (format : string) : bool :=
  match as_arr opt with None => false | Some optArr => option_has_format queryFormat format optArr end.

Definition orderOptionsByPreferredFormat (options : list value) (matches : list CredentialMatch)
    (preferredFormat : string) : list value :=
  if String.eqb preferredFormat "" then options
  else
    let queryFormat qid := match answers matches qid with m :: _ => MFormat m | [] => "" end in
    slice_stable (fun a b => optionMatchesFormat a queryFormat preferredFormat
                             && negb (optionMatchesFormat b queryFormat preferredFormat)) options.

Definition set_required (csMap : object) : bool :=
  match as_bool (index csMap "required") with Some r => r | None => true end.

(** The loop over the sets: the query ids needed, or [None] for the early
    [return nil]. *)
Fixpoint needed_queries (matches : list CredentialMatch) (preferredFormat : string) (credSets : list value)
    (needed : gset string) : option (gset string) :=
  match credSets with
  | [] => Some needed
  | cs :: credSets =>
      match cs with
      | VObj csMap =>
          match as_arr (index csMap "options") with
          | None => needed_queries matches preferredFormat credSets needed
          | Some options =>
              match find_map (satisfiableOption (answered matches))
                      (orderOptionsByPreferredFormat options matches preferredFormat) with
              | Some ids => needed_queries matches preferredFormat credSets (list_to_set ids ∪ needed)
              | None => if set_required csMap then None
                        else needed_queries matches preferredFormat credSets needed
              end
          end
      | _ => needed_queries matches preferredFormat credSets needed
      end
  end.

(** [None] is a nil result. *)
Definition applyCredentialSets (matches : list CredentialMatch) (credSets : list value) (preferredFormat : string) :
    option (list CredentialMatch) :=
  match needed_queries matches preferredFormat credSets ∅ with
  | None => None
  | Some needed =>
      if bool_decide (needed = ∅) then None
      else match List.filter (fun m => bool_decide (QueryID m ∈ needed)) matches with
           | [] => None
           | result => Some result
           end
  end.

Definition unmatched_label (matches : list CredentialMatch) (i : Z) (cq : value) : option string :=
  let positional := "credentials[" +:+ itoa i +:+ "]" in
  match cq with
  | VObj cqMap =>
      let id := get_string cqMap "id" in
      if String.eqb id "" then Some positional
      else if answered matches id then None else Some id
  | _ => Some positional
  end.

Definition unmatchedCredentialQueries (credQueries : list value) (matches : list CredentialMatch) : list string :=
  filter_map (fun '(i, cq) => unmatched_label matches i cq) (enumerate credQueries).

(** ** The options of the consent dialog *)

(** The strings of a list in order of first appearance. *)
Fixpoint dedup (l : list string) (seen : gset string) : list string :=
  match l with
  | [] => []
  | s :: l => if bool_decide (s ∈ seen) then dedup l seen else s :: dedup l ({[s]} ∪ seen)
  end.

(** Queries answered only by non-matching credentials, in request order. *)
Fixpoint only_nonmatching (candidates nonMatching : list CredentialMatch) (credQueries : list value)
    (order : list string) : list string :=
  match credQueries with
  | [] => order
  | cq :: credQueries =>
      let id := get_string (default [] (as_obj cq)) "id" in
      only_nonmatching candidates nonMatching credQueries
        (if negb (answered candidates id) && answered nonMatching id && negb (contains order id)
         then order ++ [id] else order)
  end.

Definition set_options (candidates nonMatching : list CredentialMatch) (preferredFormat : string) (cs : value) :
    option ConsentSetOptions :=
  match cs with
  | VObj csMap =>
      match as_arr (index csMap "options") with
      | None => None
      | Some rawOptions =>
          let ordered := orderOptionsByPreferredFormat rawOptions candidates preferredFormat in
          let satisfied := filter_map (satisfiableOption (answered candidates)) ordered in
          let answerable id := answered candidates id || answered nonMatching id in
          let extra := filter_map (fun opt => match satisfiableOption (answered candidates) opt with
                                              | Some _ => None
                                              | None => satisfiableOption answerable opt
                                              end) ordered in
          match satisfied ++ extra with
          | [] => None
          | options =>
              Some (mkSetOptions options (negb (set_required csMap))
                      (map (fun i => Z.of_nat (length satisfied + i)) (seq 0 (length extra))))
          end
      end
  | _ => None
  end.

Definition buildConsentCredentialOptions (candidates nonMatching : list CredentialMatch)
    (credQueries credSets : list value) (multiple : gset string) (preferredFormat : string) :
    option ConsentCredentialOptions :=
  match candidates, nonMatching with
  | [], [] => None
  | _, _ =>
      let order := only_nonmatching candidates nonMatching credQueries (dedup (QueryID <$> candidates) ∅) in
      Some (mkOptions
              (filter_map (set_options candidates nonMatching preferredFormat) credSets)
              (map (fun id => mkQueryOptions id (bool_decide (id ∈ multiple))
                                (answers candidates id) (answers nonMatching id)) order))
  end.

(** ** Batches (issuance_batch.go) *)

(** [byID[id]]: the last credential with the ID. *)
Definition by_id (credentials : list StoredCredential) (id : string) : option StoredCredential :=
  find_map (fun c => if String.eqb (ID c) id then Some c else None) (reverse credentials).

Definition group_of (credentials : list StoredCredential) (m : CredentialMatch) : string :=
  match by_id credentials (CredentialID m) with Some c => BatchGroup c | None => "" end.
Definition uses_of (credentials : list StoredCredential) (m : CredentialMatch) : Z :=
  match by_id credentials (CredentialID m) with Some c => Uses c | None => 0 end.

Definition batch_key (credentials : list StoredCredential) (m : CredentialMatch) : string :=
  QueryID m +:+ nul +:+ group_of credentials m.

(** [rnd] is the random source: [rnd key n] is what [secureIntn n] returned
    for the batch [key]. *)
Definition secureIntn (rnd : string -> nat -> nat) (key : string) (n : nat) : nat :=
  if (n <=? 1)%nat then O else rnd key n.

Definition fewest_uses (uses : list Z) : Z :=
  fold_left (fun fewest u => if (fewest <? 0) || (u <? fewest) then u else fewest) uses (-1).

(** Positions into [matches]; the copies of one batch share a key. *)
Definition chooseBatchCopy (rnd : string -> nat -> nat) (key : string) (idxs : list (nat * Z)) : nat :=
  let fewest := fewest_uses (snd <$> idxs) in
  let least := fst <$> List.filter (fun '(_, u) => u =? fewest) idxs in
  default O (least !! secureIntn rnd key (length least)).

Definition batch_positions (credentials : list StoredCredential) (matches : list CredentialMatch) (key : string) :
    list (nat * Z) :=
  filter_map (fun '(i, m) => if negb (String.eqb (group_of credentials m) "")
                                && String.eqb (batch_key credentials m) key
                             then Some (i, uses_of credentials m) else None)
    (zip (seq 0 (length matches)) matches).

Definition collapseBatchMatches (rnd : string -> nat -> nat) (matches : list CredentialMatch)
    (credentials : list StoredCredential) : list CredentialMatch :=
  filter_map (fun '(i, m) =>
    if negb (String.eqb (group_of credentials m) "")
       && negb (i =? chooseBatchCopy rnd (batch_key credentials m)
                       (batch_positions credentials matches (batch_key credentials m)))%nat
    then None else Some m) (zip (seq 0 (length matches)) matches).

(** ** Trusted authorities *)

(** What the evaluation reads from raw credentials and trusted lists: CBOR,
    JOSE, X.509 and the network are behind this interface. *)
Class CredentialReader := {
  Anchor : Type;
  (** [credentialHolderBinding(raw).Bound] *)
  holder_bound : string -> bool;
  (** [CredentialIssuedAt] *)
  issued_at : StoredCredential -> time;
  (** [extractCredentialCertificates]: the authority key identifiers of the
      chain, [None] when the credential does not parse *)
  chain_akis : StoredCredential -> option (list string);
  (** [credentialChainKey]: the chain ends in one of the anchors *)
  chain_ends_in : StoredCredential -> list Anchor -> bool;
  (** [issuanceAnchors] *)
  issuance_anchors : string -> result string (list Anchor)
}.

Section evaluate.
Context {J : Json} {R : CredentialReader}.

Definition nonempty_strings (v : value) : list string :=
  List.filter (fun s => negb (String.eqb s "")) (strings_of (default [] (as_arr v))).

Definition checkAuthorityKeyIdentifiers (cred : StoredCredential) (values : list string) : bool :=
  match chain_akis cred with
  | None => false
  | Some akis => existsb (fun aki => negb (String.eqb aki "") && contains values (EncodeBase64URL aki)) akis
  end.

Definition checkETSITrustList (cred : StoredCredential) (anchors : list Anchor) : bool :=
  match anchors with [] => false | _ => chain_ends_in cred anchors end.

Definition authority_trusts (cred : StoredCredential) (listAnchors : string -> list Anchor) (ta : value) : bool :=
  match ta with
  | VObj taMap =>
      let taType := get_string taMap "type" in
      let urls := nonempty_strings (index taMap "values") in
      if String.eqb taType "aki" then
        match urls with [] => false | _ => checkAuthorityKeyIdentifiers cred urls end
      else if String.eqb taType "etsi_tl" then
        existsb (fun u => checkETSITrustList cred (listAnchors u)) urls
      else false
  | _ => false
  end.

Definition checkTrustedAuthorities (cred : StoredCredential) (taList : list value)
    (listAnchors : string -> list Anchor) : bool :=
  existsb (authority_trusts cred listAnchors) taList.

(** The lists the etsi_tl entries name, each once. *)
Definition etsi_urls (taList : list value) : list string :=
  dedup (ta ← taList;
         match ta with
         | VObj m => if String.eqb (get_string m "type") "etsi_tl"
                     then nonempty_strings (index m "values") else []
         | _ => []
         end) ∅.

(** The anchors by URL, and the lists that cannot be used. *)
Definition etsiTrustedListAnchors (taList : list value) : (string -> list Anchor) * list (string * string) :=
  ((fun u => if contains (etsi_urls taList) u
             then match issuance_anchors u with Ok certs => certs | Err _ => [] end else []),
   filter_map (fun u => match issuance_anchors u with Ok _ => None | Err e => Some (u, e) end)
     (etsi_urls taList)).

(** ** EvaluateDCQLWithOptions *)

Definition credential_bound (cred : StoredCredential) : bool :=
  (String.eqb (CFormat cred) "dc+sd-jwt" || String.eqb (CFormat cred) "mso_mdoc") && holder_bound (Raw cred).

(** The switch on holder binding: the [unbound] flag and the mismatch. *)
Definition binding_verdict (mode : ValidationMode) (cqMap : object) (cred : StoredCredential) : bool * list string :=
  if credential_bound cred then (false, [])
  else if requiresHolderBinding cqMap && is_debug mode then (true, [])
  else if requiresHolderBinding cqMap then (false, ["has no holder binding, which the query requires"])
  else if is_strict mode && String.eqb (CFormat cred) "mso_mdoc"
  then (false, ["is an mdoc without deviceKey, which strict mode does not present"])
  else (false, []).

Definition type_mismatches (cqMap : object) (cred : StoredCredential) : list string :=
  let queryFormat := get_string cqMap "format" in
  (if matchesFormat cred queryFormat then []
   else ["format " +:+ CFormat cred +:+ ", the query asks for " +:+ queryFormat])
  ++ (if matchesMeta cred cqMap then [] else [metaMismatch cred cqMap]).

Definition claim_mismatches (mode : ValidationMode) (selection : claimSelection) (mismatches : list string) :
    list string :=
  match mismatches with
  | _ :: _ => mismatches
  | [] =>
      let mismatches :=
        match missingRequired selection with
        | [] => []
        | missing =>
            if is_debug mode && match selectedKeys selection with [] => false | _ => true end then []
            else ["lacks " +:+ join ", " missing]
        end in
      match mismatches with
      | _ :: _ => mismatches
      | [] => if sel_match selection then [] else ["satisfies none of the claim sets"]
      end
  end.

Inductive verdict := Matched (m : CredentialMatch) | NonMatching (m : CredentialMatch) | Skipped.

(** The body of the inner loop. *)
Definition evaluate_credential (mode : ValidationMode) (cqMap : object) (taList : list value)
    (listAnchors : string -> list Anchor) (cred : StoredCredential) : verdict :=
  let '(unbound, binding) := binding_verdict mode cqMap cred in
  let selection := selectClaims cred cqMap in
  let mismatches := claim_mismatches mode selection (type_mismatches cqMap cred ++ binding) in
  let queryID := get_string cqMap "id" in
  match mismatches with
  | _ :: _ =>
      if is_debug mode
      then NonMatching (mkMatch queryID (ID cred) (CFormat cred) (VCT cred) (DocType cred)
                          (filterClaims cred (selectedKeys selection)) (selectedKeys selection)
                          false false [] [] mismatches [])
      else Skipped
  | [] =>
      let untrusted := match taList with [] => false | _ => negb (checkTrustedAuthorities cred taList listAnchors) end in
      if untrusted && negb (is_debug mode) then Skipped
      else
        let sets := if is_debug mode then satisfiableClaimSets cred cqMap else [] in
        let claimSets := if (1 <? length sets)%nat then sets else [] in
        Matched (mkMatch queryID (ID cred) (CFormat cred) (VCT cred) (DocType cred)
                   (filterClaims cred (selectedKeys selection)) (selectedKeys selection)
                   untrusted unbound (emptyArrays selection) (missingRequired selection) [] claimSets)
  end.

Definition matched (v : verdict) : option CredentialMatch := match v with Matched m => Some m | _ => None end.
Definition nonmatched (v : verdict) : option CredentialMatch := match v with NonMatching m => Some m | _ => None end.

Inductive evaluate_error :=
| InvalidRequest (findings : list finding)
| AccessDenied (queryID : string) (lists : list (string * string)).

(** The outer loop: the verdicts on every query and credential, in order. *)
Fixpoint evaluate_queries (mode : ValidationMode) (credentials : list StoredCredential) (cqs : list value) :
    result evaluate_error (list verdict) :=
  match cqs with
  | [] => Ok []
  | VObj cqMap :: cqs =>
      let taList := get_arr cqMap "trusted_authorities" in
      let '(listAnchors, listFindings) := etsiTrustedListAnchors taList in
      if is_strict mode && match listFindings with [] => false | _ => true end
      then Err (AccessDenied (get_string cqMap "id") listFindings)
      else let? rest := evaluate_queries mode credentials cqs in
           Ok (map (evaluate_credential mode cqMap taList listAnchors) credentials ++ rest)
  | _ :: cqs => evaluate_queries mode credentials cqs
  end.

(** [issued[id]], filled from the stored credentials. *)
Definition issued_of (credentials : list StoredCredential) (id : string) : time :=
  match by_id credentials id with Some c => issued_at c | None => zero_time end.

(** The candidates in preference order. *)
Definition order_candidates (preferredFormat : string) (credentials : list StoredCredential)
    (matches : list CredentialMatch) : list CredentialMatch :=
  let matches := sortMatchesNewestFirst (issued_of credentials) matches in
  let matches := if String.eqb preferredFormat "" then matches
                 else sortMatchesByPreferredFormat preferredFormat matches in
  sortMatchesCompleteFirst (sortMatchesTrustedFirst matches).

(** The presentations, [None] standing for nil, and the consent options.
    [rnd] and [rnd'] are the random draws for matching and non-matching
    batch copies. *)
Definition EvaluateDCQLWithOptions (mode : ValidationMode) (preferredFormat : string)
    (rnd rnd' : string -> nat -> nat) (credentials : list StoredCredential) (query : option object) :
    result evaluate_error (option (list CredentialMatch) * option ConsentCredentialOptions) :=
  let q := default [] query in
  let credQueries := get_arr q "credentials" in
  let findings := DCQLQueryFindings query in
  if is_strict mode && match findings with [] => false | _ => true end then Err (InvalidRequest findings)
  else
    let? verdicts := evaluate_queries mode credentials credQueries in
    let matches := collapseBatchMatches rnd (filter_map matched verdicts) credentials in
    let nonMatching := sortMatchesNewestFirst (issued_of credentials)
                         (collapseBatchMatches rnd' (filter_map nonmatched verdicts) credentials) in
    let candidates := order_candidates preferredFormat credentials matches in
    let multiple := multipleQueries credQueries in
    let kept := keepOnePresentationPerQuery multiple candidates in
    let credSets := get_arr q "credential_sets" in
    let presented :=
      match credSets with
      | [] => match unmatchedCredentialQueries credQueries kept with
              | [] => match kept with [] => None | _ => Some kept end
              | _ => None
              end
      | _ => applyCredentialSets kept credSets preferredFormat
      end in
    match presented, nonMatching with
    | None, [] => Ok (None, None)
    | _, _ =>
        Ok (presented, buildConsentCredentialOptions candidates nonMatching credQueries credSets multiple preferredFormat)
    end.
End evaluate.
