(* ===== verification/DCQLFacts.v ===== *)
(** * DCQLFacts: what the evaluation of a query may present *)

From Stdlib Require Import Ascii ZArith Lia.
From stdpp Require Import base list strings gmap sorting.
From S2P Require Import Prelude GoStrings GoValue Format Validity CredType SDJWT WalletState WalletStore ClaimPath DCQL.

Local Open Scope Z_scope.

(** ** Each stage keeps a subset *)

Lemma keep_loop_sublist multiple seen ms : sublist (keep_loop multiple seen ms) ms.
Proof.
  revert seen; induction ms as [|m ms IH]; intros seen; simpl; [done|].
  destruct (_ && _); by constructor.
Qed.

Lemma collapse_elem rnd ms creds m : m ∈ collapseBatchMatches rnd ms creds -> m ∈ ms.
Proof.
  unfold collapseBatchMatches. intros ([i m'] & Hin & Hf)%elem_of_filter_map.
  dmatch_in Hf; simplify_eq. by apply elem_of_zip_r in Hin.
Qed.

Lemma order_candidates_perm `{R : CredentialReader} pref creds ms :
  order_candidates pref creds ms ≡ₚ ms.
Proof.
  unfold order_candidates, sortMatchesCompleteFirst, sortMatchesTrustedFirst, sortMatchesByPreferredFormat,
    sortMatchesNewestFirst.
  rewrite !slice_stable_perm. destruct (String.eqb pref ""); by rewrite ?slice_stable_perm.
Qed.

Lemma applyCredentialSets_elem ms sets pref res m :
  applyCredentialSets ms sets pref = Some res -> m ∈ res -> m ∈ ms.
Proof.
  unfold applyCredentialSets. intros H Hm. repeat dmatch_in H; simplify_eq.
  match goal with E : List.filter _ _ = _ |- _ => rewrite <- E in Hm end.
  by apply elem_of_Lfilter in Hm as [? _].
Qed.

Section facts.
Context {J : Json} {R : CredentialReader}.

(** The presentations an evaluation settles on. *)
Lemma evaluate_inv mode pref rnd rnd' creds query ms opts :
  EvaluateDCQLWithOptions mode pref rnd rnd' creds query = Ok (Some ms, opts) ->
  (mode = Strict -> DCQLQueryFindings query = []) /\
  exists verdicts,
    evaluate_queries mode creds (get_arr (default [] query) "credentials") = Ok verdicts /\
    let candidates := order_candidates pref creds (collapseBatchMatches rnd (filter_map matched verdicts) creds) in
    let multiple := multipleQueries (get_arr (default [] query) "credentials") in
    let kept := keepOnePresentationPerQuery multiple candidates in
    (get_arr (default [] query) "credential_sets" = [] ->
       ms = kept /\ unmatchedCredentialQueries (get_arr (default [] query) "credentials") kept = []) /\
    (get_arr (default [] query) "credential_sets" <> [] ->
       applyCredentialSets kept (get_arr (default [] query) "credential_sets") pref = Some ms) /\
    opts = buildConsentCredentialOptions candidates
             (sortMatchesNewestFirst (issued_of creds) (collapseBatchMatches rnd' (filter_map nonmatched verdicts) creds))
             (get_arr (default [] query) "credentials") (get_arr (default [] query) "credential_sets") multiple pref.
Proof.
  unfold EvaluateDCQLWithOptions. intros H.
  destruct (is_strict mode && match DCQLQueryFindings query with [] => false | _ => true end) eqn:Ef; [done|].
  split. { intros ->. by destruct (DCQLQueryFindings query). }
  destruct (evaluate_queries mode creds _) as [verdicts|] eqn:Ev; [|done]. exists verdicts. split; [done|].
  simpl. set (kept := keepOnePresentationPerQuery _ _) in *. set (cands := order_candidates _ _ _) in *.
  set (non := sortMatchesNewestFirst _ _) in *.
  destruct (get_arr (default [] query) "credential_sets") as [|cs sets] eqn:Es.
  - destruct (unmatchedCredentialQueries _ kept) eqn:Eu.
    + destruct kept as [|k ks] eqn:Ek; destruct non eqn:En; simplify_eq; done.
    + destruct non; simplify_eq.
  - destruct (applyCredentialSets kept (cs :: sets) pref) as [res|] eqn:Ea; [|by destruct non; simplify_eq].
    destruct non; simplify_eq; done.
Qed.

Lemma evaluate_elem mode pref rnd rnd' creds query ms opts m :
  EvaluateDCQLWithOptions mode pref rnd rnd' creds query = Ok (Some ms, opts) -> m ∈ ms ->
  exists verdicts,
    evaluate_queries mode creds (get_arr (default [] query) "credentials") = Ok verdicts /\ Matched m ∈ verdicts.
Proof.
  intros H Hm. apply evaluate_inv in H as (_ & verdicts & Hv & H1 & H2 & _). exists verdicts. split; [done|].
  set (kept := keepOnePresentationPerQuery _ _) in *.
  assert (Hk : m ∈ kept).
  { destruct (get_arr (default [] query) "credential_sets") as [|cs sets] eqn:Es.
    - destruct (H1 eq_refl) as [-> _]. done.
    - apply (applyCredentialSets_elem kept (cs :: sets) pref ms); [|done]. apply H2. done. }
  assert (Hc : m ∈ filter_map matched verdicts).
  { eapply collapse_elem. rewrite <- order_candidates_perm. eapply sublist_elem; [apply keep_loop_sublist|exact Hk]. }
  apply elem_of_filter_map in Hc as (v & Hin & Hmv). by destruct v; simplify_eq/=.
Qed.

Lemma evaluate_queries_elem mode creds cqs verdicts v :
  evaluate_queries mode creds cqs = Ok verdicts -> v ∈ verdicts ->
  exists cqMap cred, VObj cqMap ∈ cqs /\ cred ∈ creds /\
    let taList := get_arr cqMap "trusted_authorities" in
    v = evaluate_credential mode cqMap taList (fst (etsiTrustedListAnchors taList)) cred /\
    (mode = Strict -> snd (etsiTrustedListAnchors taList) = []).
Proof.
  revert verdicts; induction cqs as [|cq cqs IH]; intros verdicts H Hv; simplify_eq/=; [set_solver|].
  assert (Hskip : evaluate_queries mode creds cqs = Ok verdicts ->
    exists cqMap cred, VObj cqMap ∈ cq :: cqs /\ cred ∈ creds /\
      let taList := get_arr cqMap "trusted_authorities" in
      v = evaluate_credential mode cqMap taList (fst (etsiTrustedListAnchors taList)) cred /\
      (mode = Strict -> snd (etsiTrustedListAnchors taList) = [])).
  { intros Hr. destruct (IH verdicts Hr Hv) as (cqMap & cred & Hin & Hrest). exists cqMap, cred. set_solver. }
  destruct cq as [| | | | | | | | | |cqMap]; try (by apply Hskip). clear Hskip.
  destruct (is_strict mode && _) eqn:Es; [done|].
  destruct (evaluate_queries mode creds cqs) as [rest|] eqn:Er; simplify_eq.
  apply elem_of_app in Hv as [Hv|Hv].
  - apply list_elem_of_fmap in Hv as (cred & -> & Hc). exists cqMap, cred. split; [by left|]. split; [done|].
    split; [done|]. intros ->. simpl in Es. by destruct (filter_map _ _).
  - destruct (IH rest eq_refl Hv) as (cqMap' & cred & Hin & Hrest). exists cqMap', cred. set_solver.
Qed.

(** What a match says about its credential. *)
Definition answers_query (mode : ValidationMode) (cqMap : object) (cred : StoredCredential) (m : CredentialMatch) : Prop :=
  QueryID m = get_string cqMap "id" /\ CredentialID m = ID cred /\ Mismatches m = [] /\
  matchesFormat cred (get_string cqMap "format") = true /\ matchesMeta cred cqMap = true /\
  SelectedKeys m = selectedKeys (selectClaims cred cqMap) /\
  MissingClaims m = missingRequired (selectClaims cred cqMap) /\
  MClaims m = filterClaims cred (SelectedKeys m) /\
  sel_match (selectClaims cred cqMap) = true /\
  (mode = Strict -> MissingClaims m = []).

Lemma claim_mismatches_nil mode sel mis :
  claim_mismatches mode sel mis = [] ->
  mis = [] /\ sel_match sel = true /\ (mode = Strict -> missingRequired sel = []).
Proof.
  unfold claim_mismatches. destruct mis; [|done]. destruct (missingRequired sel) eqn:Em.
  - destruct (sel_match sel) eqn:E; [done|done].
  - destruct mode; simpl; [done|]. destruct (selectedKeys sel); [done|].
    destruct (sel_match sel); done.
Qed.

Lemma type_mismatches_nil cqMap cred :
  type_mismatches cqMap cred = [] ->
  matchesFormat cred (get_string cqMap "format") = true /\ matchesMeta cred cqMap = true.
Proof.
  unfold type_mismatches. destruct (matchesFormat _ _); [|done]. by destruct (matchesMeta _ _).
Qed.

Lemma evaluate_credential_matched mode cqMap taList anchors cred m :
  evaluate_credential mode cqMap taList anchors cred = Matched m ->
  answers_query mode cqMap cred m /\ snd (binding_verdict mode cqMap cred) = [] /\
  Unbound m = fst (binding_verdict mode cqMap cred) /\
  (taList <> [] -> UntrustedAuthority m = false -> checkTrustedAuthorities cred taList anchors = true) /\
  (mode = Strict -> UntrustedAuthority m = false).
Proof.
  unfold evaluate_credential. destruct (binding_verdict mode cqMap cred) as [unbound binding].
  destruct (claim_mismatches _ _ _) eqn:Ec; [|by destruct (is_debug mode)].
  apply claim_mismatches_nil in Ec as (Hb & Hm & Hs).
  apply app_eq_nil in Hb as [Ht ->]. apply type_mismatches_nil in Ht as [Hf Hmeta].
  set (untrusted := match taList with [] => false | _ => _ end).
  destruct (untrusted && negb (is_debug mode)) eqn:Eu; [done|]. intros [= <-].
  split; [|split; [done|split; [done|split]]]; simpl.
  - unfold answers_query. simpl. repeat split; try done.
  - intros Ht Hu. destruct taList; [done|]. unfold untrusted in Hu. by apply negb_false_iff in Hu.
  - intros ->. by rewrite andb_true_r in Eu.
Qed.

(** C24: Strict mode presents a credential only in answer to a well-formed query
    it fully satisfies.  Every credential a strict evaluation presents comes
    from a query without findings, is stored, has the requested format and
    type, is bound to a holder key when the query requires it or it is an
    mdoc, answers every requested claim or one whole claim set, and is trusted
    by one of the query's trusted authorities when it names any; every trusted
    list the query names was usable. *)
Theorem strict_presentations_sound pref rnd rnd' creds query ms opts m :
  EvaluateDCQLWithOptions Strict pref rnd rnd' creds query = Ok (Some ms, opts) -> m ∈ ms ->
  DCQLQueryFindings query = [] /\
  exists cqMap cred,
    VObj cqMap ∈ get_arr (default [] query) "credentials" /\ cred ∈ creds /\
    answers_query Strict cqMap cred m /\ MissingClaims m = [] /\
    (requiresHolderBinding cqMap = true \/ CFormat cred = "mso_mdoc" -> credential_bound cred = true) /\
    (let taList := get_arr cqMap "trusted_authorities" in
     snd (etsiTrustedListAnchors taList) = [] /\
     (taList <> [] -> checkTrustedAuthorities cred taList (fst (etsiTrustedListAnchors taList)) = true)).
Proof.
  intros H Hm. destruct (evaluate_elem _ _ _ _ _ _ _ _ m H Hm) as (verdicts & Hv & Hin).
  apply evaluate_inv in H as (Hf & _). split; [by apply Hf|].
  destruct (evaluate_queries_elem _ _ _ _ _ Hv Hin) as (cqMap & cred & Hq & Hc & He & Hl).
  exists cqMap, cred. split; [done|]. split; [done|]. symmetry in He.
  apply evaluate_credential_matched in He as (Ha & Hb & _ & Ht & Hu).
  split; [done|]. split; [by apply Ha|]. split.
  - intros Hr. unfold binding_verdict in Hb. destruct (credential_bound cred); [done|]. simpl in Hb.
    destruct (requiresHolderBinding cqMap); [done|]. destruct Hr as [|Hr]; [done|]. by rewrite Hr in Hb.
  - split; [by apply Hl|]. intros Hta. apply Ht; [done|]. by apply Hu.
Qed.

(** ** Requested claims *)

(** [k] is the selector of a claims query of [cqMap] that [cred] answers. *)
Definition requested (cqMap : object) (cred : StoredCredential) (k : string) : Prop :=
  exists c, VObj c ∈ get_arr cqMap "claims" /\ claimSelectorFor cred c = k /\ k <> "".

Lemma add_requested_selected cred cqs acc k :
  k ∈ fst (fst (fold_left (add_requested cred) cqs acc)) ->
  k ∈ fst (fst acc) \/ exists c, VObj c ∈ cqs /\ claimSelectorFor cred c = k /\ k <> "".
Proof.
  revert acc; induction cqs as [|cq cqs IH]; intros acc H; simpl in *; [by left|].
  apply IH in H as [H|(c & Hc & Hk)]; [|right; exists c; set_solver].
  destruct acc as [[sel mis] emp]. unfold add_requested in H.
  destruct cq as [| | | | | | | | | |c]; try (by left). destruct (as_arr (index c "path")); [|by left].
  destruct (String.eqb_spec (claimSelectorFor cred c) ""); simpl in H; [by left|].
  apply elem_of_app in H as [H|H]; [by left|]. apply list_elem_of_singleton in H as ->.
  right. exists c. split; [by left|done].
Qed.

Lemma claim_set_loop_requested cred byID ids sel k :
  claim_set_loop cred byID ids = Some sel -> k ∈ sel ->
  exists id c, byID id = Some c /\ claimSelectorFor cred c = k /\ k <> "".
Proof.
  revert sel; induction ids as [|v ids IH]; intros sel H Hk; simplify_eq/=; [set_solver|].
  destruct v as [| | | | | |id| | | |]; try done. destruct (byID id) as [c|] eqn:Eb; [|done].
  destruct (String.eqb_spec (claimSelectorFor cred c) ""); [done|].
  apply fmap_Some in H as (rest & Hr & ->). apply elem_of_cons in Hk as [->|Hk]; [by exists id, c|].
  by eapply IH.
Qed.

Lemma buildClaimByID_elem claims id c : buildClaimByID claims id = Some c -> VObj c ∈ claims.
Proof.
  unfold buildClaimByID. intros (v & Hv & Hf)%find_map_Some.
  destruct v as [| | | | | | | | | |m]; try done. destruct (as_arr (index m "path")); [|done].
  destruct (negb _ && _); simplify_eq. by rewrite elem_of_reverse in Hv.
Qed.

Lemma selectClaims_requested cred cqMap k :
  k ∈ selectedKeys (selectClaims cred cqMap) -> requested cqMap cred k.
Proof.
  unfold selectClaims, requested. destruct (get_arr cqMap "claims") as [|cq cqs] eqn:Ec; [set_solver|].
  rewrite <- Ec. clear cq cqs Ec. set (claims := get_arr cqMap "claims").
  destruct (get_arr cqMap "claim_sets") as [|cs sets] eqn:Es.
  - unfold selectAllRequestedClaims.
    destruct (fold_left (add_requested cred) claims ([], [], [])) as [[sel mis] emp] eqn:Ef. intros Hk.
    assert (Hk' : k ∈ fst (fst (fold_left (add_requested cred) claims ([], [], []))))
      by (rewrite Ef; by destruct sel).
    apply add_requested_selected in Hk' as [Hk'|Hk']; [set_solver|done].
  - simpl selectedKeys. intros Hk. unfold selectFromClaimSets in Hk.
    destruct (find_map _ (cs :: sets)) as [sel|] eqn:Ef; [|set_solver].
    apply find_map_Some in Ef as (set & _ & Hset). unfold claimSetSelectors in Hset.
    destruct (as_arr set) as [ids|]; [|done].
    destruct (claim_set_loop cred _ ids) as [sel'|] eqn:El; [|done].
    assert (Hk' : k ∈ sel') by (by destruct sel'; simplify_eq/=).
    destruct (claim_set_loop_requested _ _ _ _ _ El Hk') as (id & c & Hb & Hc).
    exists c. split; [by eapply buildClaimByID_elem|done].
Qed.

(** C25: No over-disclosure: in every mode, each claim selected for
    presentation is the selector of a claims query the verifier sent and the
    credential answers, and a query without claims selects none. *)
Theorem only_requested_claims mode pref rnd rnd' creds query ms opts m k :
  EvaluateDCQLWithOptions mode pref rnd rnd' creds query = Ok (Some ms, opts) -> m ∈ ms ->
  k ∈ SelectedKeys m ->
  exists cqMap cred,
    VObj cqMap ∈ get_arr (default [] query) "credentials" /\ QueryID m = get_string cqMap "id" /\
    cred ∈ creds /\ CredentialID m = ID cred /\ requested cqMap cred k.
Proof.
  intros H Hm Hk. destruct (evaluate_elem _ _ _ _ _ _ _ _ m H Hm) as (verdicts & Hv & Hin).
  destruct (evaluate_queries_elem _ _ _ _ _ Hv Hin) as (cqMap & cred & Hq & Hc & He & _).
  exists cqMap, cred. symmetry in He. apply evaluate_credential_matched in He as (Ha & _).
  destruct Ha as (Hid & Hci & _ & _ & _ & Hs & _). rewrite Hs in Hk.
  repeat (split; [done|]). by apply selectClaims_requested.
Qed.

Lemma add_requested_missing cred cqs acc :
  snd (fst (fold_left (add_requested cred) cqs acc)) = [] ->
  snd (fst acc) = [] /\
  (forall k, k ∈ fst (fst acc) -> k ∈ fst (fst (fold_left (add_requested cred) cqs acc))) /\
  (forall c path, VObj c ∈ cqs -> as_arr (index c "path") = Some path ->
     claimSelectorFor cred c <> "" /\
     claimSelectorFor cred c ∈ fst (fst (fold_left (add_requested cred) cqs acc))).
Proof.
  revert acc; induction cqs as [|cq cqs IH]; intros acc H; simpl in *; [set_solver|].
  destruct (IH _ H) as (Hm & Hk & Hall). clear IH H. destruct acc as [[sel mis] emp].
  destruct cq as [| | | | | | | | | |c]; try (split; [done|split; [done|]]; set_solver).
  remember (add_requested cred (sel, mis, emp) (VObj c)) as acc' eqn:Ha. simpl in Ha.
  destruct (as_arr (index c "path")) as [p|] eqn:Ep.
  2:{ assert (Hk' : forall k, k ∈ sel -> k ∈ fst (fst (fold_left (add_requested cred) cqs acc')))
        by (intros k Hin; apply Hk; by rewrite Ha).
      rewrite Ha in Hm. split; [done|]. split; [done|]. intros c' path Hc Hp.
      apply elem_of_cons in Hc as [[= ->]|Hc]; [congruence|eauto]. }
  destruct (String.eqb_spec (claimSelectorFor cred c) "") as [He|He]; rewrite Ha in Hm; simpl in Hm.
  { by apply app_eq_nil in Hm as [_ ?]. }
  assert (Hk' : forall k, k ∈ sel ++ [claimSelectorFor cred c] ->
    k ∈ fst (fst (fold_left (add_requested cred) cqs acc'))) by (intros k Hin; apply Hk; by rewrite Ha).
  split; [done|]. split; [intros k Hin; apply Hk'; set_solver|]. intros c' path Hc Hp.
  apply elem_of_cons in Hc as [[= ->]|Hc]; [|eauto]. split; [done|]. apply Hk'. set_solver.
Qed.

(** Strict mode answers a query without claim sets completely: every
    claims query of the credential query that has a path is answered by the
    presented credential, its value restriction included, and its selector is
    among the presented claims. *)
Theorem strict_presents_all_claims pref rnd rnd' creds query ms opts m :
  EvaluateDCQLWithOptions Strict pref rnd rnd' creds query = Ok (Some ms, opts) -> m ∈ ms ->
  exists cqMap cred,
    VObj cqMap ∈ get_arr (default [] query) "credentials" /\ QueryID m = get_string cqMap "id" /\
    cred ∈ creds /\ CredentialID m = ID cred /\
    (get_arr cqMap "claim_sets" = [] -> forall c path,
       VObj c ∈ get_arr cqMap "claims" -> as_arr (index c "path") = Some path ->
       claimSelectorFor cred c <> "" /\ claimSelectorFor cred c ∈ SelectedKeys m).
Proof.
  intros H Hm. destruct (evaluate_elem _ _ _ _ _ _ _ _ m H Hm) as (verdicts & Hv & Hin).
  destruct (evaluate_queries_elem _ _ _ _ _ Hv Hin) as (cqMap & cred & Hq & Hc & He & _).
  exists cqMap, cred. symmetry in He. apply evaluate_credential_matched in He as (Ha & _).
  destruct Ha as (Hid & Hci & _ & _ & _ & Hs & Hmis & _ & _ & Hstrict).
  repeat (split; [done|]). intros Hsets c path Hin' Hp. rewrite Hs.
  specialize (Hstrict eq_refl). rewrite Hmis in Hstrict. revert Hstrict Hin'. unfold selectClaims.
  destruct (get_arr cqMap "claims") as [|cq cqs] eqn:Ec; [set_solver|]. rewrite <- Ec. clear cq cqs Ec.
  rewrite Hsets. unfold selectAllRequestedClaims.
  destruct (fold_left (add_requested cred) (get_arr cqMap "claims") ([], [], [])) as [[sel mis] emp] eqn:Ef.
  intros Hstrict Hin'.
  destruct (add_requested_missing cred (get_arr cqMap "claims") ([], [], [])) as (_ & _ & Hall).
  { rewrite Ef. simpl. by destruct sel. }
  destruct (Hall c path Hin' Hp) as [Hne Hsel]. split; [done|]. rewrite Ef in Hsel. by destruct sel.
Qed.

(** ** One presentation per query *)

Lemma keep_loop_one multiple seen ms id :
  id ∉ multiple ->
  (length (answers (keep_loop multiple seen ms) id) <= if decide (id ∈ seen) then 0 else 1)%nat.
Proof.
  intros Hid. unfold answers. revert seen; induction ms as [|m ms IH]; intros seen; simpl; [lia|].
  destruct (bool_decide (QueryID m ∈ seen) && negb (bool_decide (QueryID m ∈ multiple))) eqn:E; [apply IH|].
  simpl. specialize (IH ({[QueryID m]} ∪ seen)).
  destruct (String.eqb_spec (QueryID m) id) as [<-|Hne]; simpl.
  - rewrite (bool_decide_false (_ ∈ multiple)) in E by done. rewrite andb_true_r in E.
    apply bool_decide_eq_false in E. rewrite (decide_False (P := QueryID m ∈ seen)) by done.
    rewrite decide_True in IH by set_solver. lia.
  - destruct (decide (id ∈ seen)).
    + rewrite decide_True in IH by set_solver. lia.
    + rewrite decide_False in IH by set_solver. lia.
Qed.

Lemma answers_filter_length (f : CredentialMatch -> bool) ms id :
  (length (answers (List.filter f ms) id) <= length (answers ms id))%nat.
Proof.
  unfold answers. induction ms as [|m ms IH]; simpl; [done|].
  destruct (f m); simpl; destruct (String.eqb (QueryID m) id); simpl; lia.
Qed.

(** At most one credential is presented for a query that does not set
    [multiple] (OpenID4VP section 8.1), whatever the mode, the stored
    credentials and the credential sets. *)
Theorem one_presentation_per_query mode pref rnd rnd' creds query ms opts id :
  EvaluateDCQLWithOptions mode pref rnd rnd' creds query = Ok (Some ms, opts) ->
  id ∉ multipleQueries (get_arr (default [] query) "credentials") ->
  (length (answers ms id) <= 1)%nat.
Proof.
  intros H Hid. apply evaluate_inv in H as (_ & verdicts & Hv & H1 & H2 & _).
  set (cands := order_candidates _ _ _) in *.
  pose proof (keep_loop_one _ ∅ cands id Hid) as Hone. rewrite decide_False in Hone by set_solver.
  fold (keepOnePresentationPerQuery (multipleQueries (get_arr (default [] query) "credentials")) cands) in Hone.
  set (kept := keepOnePresentationPerQuery _ _) in *.
  destruct (get_arr (default [] query) "credential_sets") as [|cs sets] eqn:Es.
  - destruct (H1 eq_refl) as [-> _]. done.
  - specialize (H2 ltac:(done)). unfold applyCredentialSets in H2.
    destruct (needed_queries _ _ _ _) as [needed|]; [|done]. destruct (bool_decide _); [done|].
    pose proof (answers_filter_length (fun m => bool_decide (QueryID m ∈ needed)) kept id) as Hf.
    destruct (List.filter _ kept); simplify_eq. lia.
Qed.

(** ** Credential sets *)

Lemma option_ids_spec has ids qids :
  option_ids has ids = Some qids -> ids = VString <$> qids /\ forall q, q ∈ qids -> has q = true.
Proof.
  revert qids; induction ids as [|v ids IH]; intros qids H; simplify_eq/=; [split; [done|set_solver]|].
  destruct v as [| | | | | |q| | | |]; try done. destruct (has q) eqn:Eq; [|done].
  apply fmap_Some in H as (rest & Hr & ->). destruct (IH rest Hr) as [-> Hall].
  split; [done|]. intros q' Hq. apply elem_of_cons in Hq as [->|Hq]; auto.
Qed.

Lemma satisfiableOption_spec has opt qids :
  satisfiableOption has opt = Some qids -> opt = VArr (VString <$> qids) /\ forall q, q ∈ qids -> has q = true.
Proof.
  unfold satisfiableOption. destruct opt; try done. simpl. intros H.
  apply option_ids_spec in H as [-> ?]. done.
Qed.

Lemma orderOptions_elem options ms pref opt :
  opt ∈ orderOptionsByPreferredFormat options ms pref <-> opt ∈ options.
Proof.
  unfold orderOptionsByPreferredFormat. destruct (String.eqb pref ""); [done|].
  by rewrite slice_stable_elem_of.
Qed.

(** The set [cs] is answered by the query ids [needed]. *)
Definition set_answered (needed : gset string) (ms : list CredentialMatch) (cs : value) : Prop :=
  exists csMap options qids, cs = VObj csMap /\ as_arr (index csMap "options") = Some options /\
    VArr (VString <$> qids) ∈ options /\ forall q, q ∈ qids -> q ∈ needed /\ answered ms q = true.

Lemma needed_queries_spec ms pref sets needed needed' :
  needed_queries ms pref sets needed = Some needed' ->
  needed ⊆ needed' /\
  (forall csMap options, VObj csMap ∈ sets -> as_arr (index csMap "options") = Some options ->
     set_required csMap = true -> set_answered needed' ms (VObj csMap)) /\
  (forall q, q ∈ needed' -> q ∈ needed \/
     (answered ms q = true /\ exists csMap options qids, VObj csMap ∈ sets /\
        as_arr (index csMap "options") = Some options /\ VArr (VString <$> qids) ∈ options /\ q ∈ qids)).
Proof.
  revert needed; induction sets as [|cs sets IH]; intros needed H; simplify_eq/=; [set_solver|].
  assert (Hskip : needed_queries ms pref sets needed = Some needed' ->
    (forall csMap options, cs = VObj csMap -> as_arr (index csMap "options") = Some options ->
       set_required csMap = false) ->
    needed ⊆ needed' /\
    (forall csMap options, VObj csMap ∈ cs :: sets -> as_arr (index csMap "options") = Some options ->
       set_required csMap = true -> set_answered needed' ms (VObj csMap)) /\
    (forall q, q ∈ needed' -> q ∈ needed \/
       (answered ms q = true /\ exists csMap options qids, VObj csMap ∈ cs :: sets /\
          as_arr (index csMap "options") = Some options /\ VArr (VString <$> qids) ∈ options /\ q ∈ qids))).
  { intros Hr Hcs. destruct (IH _ Hr) as (H1 & H2 & H3). split; [done|]. split.
    - intros csMap options Hin Ho Hreq. apply elem_of_cons in Hin as [<-|Hin]; [|eauto].
      rewrite (Hcs csMap options) in Hreq by done. done.
    - intros q Hq. destruct (H3 q Hq) as [?|(Ha & m & o & qs & Hin & ?)]; [by left|right].
      split; [done|]. exists m, o, qs. set_solver. }
  destruct cs as [| | | | | | | | | |csMap]; try (by apply Hskip).
  destruct (as_arr (index csMap "options")) as [options|] eqn:Eo.
  2:{ apply Hskip; [done|]. intros m o [= <-]. congruence. }
  destruct (find_map _ _) as [ids|] eqn:Ef.
  2:{ destruct (set_required csMap) eqn:Er; [done|]. apply Hskip; [done|]. by intros m o [= <-]. }
  clear Hskip. destruct (IH _ H) as (H1 & H2 & H3).
  apply find_map_Some in Ef as (opt & Hopt & Hs). rewrite orderOptions_elem in Hopt.
  apply satisfiableOption_spec in Hs as [-> Hall]. split; [set_solver|]. split.
  - intros m o Hin Ho Hreq. apply elem_of_cons in Hin as [[= ->]|Hin]; [|eauto].
    exists csMap, options, ids. repeat (split; [done|]). intros q Hq. split; [set_solver|auto].
  - intros q Hq. destruct (H3 q Hq) as [Hn|(Ha & m & o & qs & Hin & ?)].
    + apply elem_of_union in Hn as [Hn|Hn]; [|by left]. rewrite elem_of_list_to_set in Hn. right.
      split; [auto|]. exists csMap, options, ids. set_solver.
    + right. split; [done|]. exists m, o, qs. set_solver.
Qed.

Lemma answered_filter (f : string -> bool) ms id :
  answered ms id = true -> f id = true -> answered (List.filter (fun m => f (QueryID m)) ms) id = true.
Proof.
  unfold answered. rewrite !existsb_elem. intros (m & Hm & He) Hf. exists m. split; [|done].
  apply String.eqb_eq in He. apply elem_of_Lfilter. by rewrite He.
Qed.

Lemma applyCredentialSets_spec ms sets pref res :
  applyCredentialSets ms sets pref = Some res ->
  (forall csMap options, VObj csMap ∈ sets -> as_arr (index csMap "options") = Some options ->
     set_required csMap = true ->
     exists qids, VArr (VString <$> qids) ∈ options /\ forall q, q ∈ qids -> answered res q = true) /\
  (forall m, m ∈ res -> m ∈ ms /\ exists csMap options qids, VObj csMap ∈ sets /\
     as_arr (index csMap "options") = Some options /\ VArr (VString <$> qids) ∈ options /\ QueryID m ∈ qids).
Proof.
  unfold applyCredentialSets. destruct (needed_queries ms pref sets ∅) as [needed|] eqn:En; [|done].
  apply needed_queries_spec in En as (_ & H2 & H3). destruct (bool_decide (needed = ∅)); [done|].
  intros H. assert (Hres : res = List.filter (fun m => bool_decide (QueryID m ∈ needed)) ms)
    by (by destruct (List.filter _ ms); simplify_eq). clear H. subst res. split.
  - intros csMap options Hin Ho Hreq.
    destruct (H2 csMap options Hin Ho Hreq) as (m & o & qids & [= <-] & Ho' & Hq & Hall).
    rewrite Ho in Ho'. simplify_eq. exists qids. split; [done|]. intros q Hqq. destruct (Hall q Hqq) as [Hn Ha].
    set (f := fun id : string => bool_decide (id ∈ needed)).
    apply (answered_filter f ms q Ha). by apply bool_decide_eq_true.
  - intros m [Hm Hn]%elem_of_Lfilter. apply bool_decide_eq_true in Hn. split; [done|].
    destruct (H3 _ Hn) as [?|(_ & ?)]; [set_solver|done].
Qed.

Lemma unmatched_nil cqs ms cq :
  unmatchedCredentialQueries cqs ms = [] -> cq ∈ cqs ->
  exists cqMap, cq = VObj cqMap /\ get_string cqMap "id" <> "" /\ answered ms (get_string cqMap "id") = true.
Proof.
  unfold unmatchedCredentialQueries. generalize 0 as i. induction cqs as [|c cqs IH]; intros i H Hin; [set_solver|].
  simpl in H. destruct (unmatched_label ms i c) as [l|] eqn:El; [done|].
  apply elem_of_cons in Hin as [->|Hin]; [|by apply (IH (i + 1))].
  unfold unmatched_label in El. destruct c as [| | | | | | | | | |cqMap]; try done. exists cqMap. split; [done|].
  destruct (String.eqb_spec (get_string cqMap "id") ""); [done|].
  by destruct (answered ms (get_string cqMap "id")).
Qed.

(** All or nothing (OpenID4VP section 6.4.2).  When an evaluation presents
    credentials, every non-optional request is answered: without
    [credential_sets] every credential query has an id and an answer; with
    them, every required set has an option all of whose queries are answered,
    and each presented credential answers a query of some set's option. *)
Theorem presentations_all_or_nothing mode pref rnd rnd' creds query ms opts :
  EvaluateDCQLWithOptions mode pref rnd rnd' creds query = Ok (Some ms, opts) ->
  let sets := get_arr (default [] query) "credential_sets" in
  (sets = [] -> forall cq, cq ∈ get_arr (default [] query) "credentials" ->
     exists cqMap, cq = VObj cqMap /\ get_string cqMap "id" <> "" /\ answered ms (get_string cqMap "id") = true) /\
  (sets <> [] ->
     (forall csMap options, VObj csMap ∈ sets -> as_arr (index csMap "options") = Some options ->
        set_required csMap = true ->
        exists qids, VArr (VString <$> qids) ∈ options /\ forall q, q ∈ qids -> answered ms q = true) /\
     (forall m, m ∈ ms -> exists csMap options qids, VObj csMap ∈ sets /\
        as_arr (index csMap "options") = Some options /\ VArr (VString <$> qids) ∈ options /\ QueryID m ∈ qids)).
Proof.
  intros H sets. apply evaluate_inv in H as (_ & verdicts & Hv & H1 & H2 & _). split.
  - intros Hs cq Hcq. destruct (H1 Hs) as [-> Hu]. by eapply unmatched_nil.
  - intros Hs. destruct (applyCredentialSets_spec _ _ _ _ (H2 Hs)) as [Ha Hb]. split; [done|].
    intros m Hm. by apply Hb.
Qed.
End facts.

(** ** The automatic selection *)

(** Matches grouped by query, as the evaluation lists them. *)
Definition grouped (ms : list CredentialMatch) : Prop :=
  exists gs : list (string * list CredentialMatch),
    ms = concat gs.*2 /\ NoDup gs.*1 /\ Forall (fun g => Forall (fun m => QueryID m = g.1) g.2) gs.

Lemma by_query_groups less (gs : list (string * list CredentialMatch)) :
  NoDup gs.*1 -> Forall (fun g => Forall (fun m => QueryID m = g.1) g.2) gs ->
  slice_stable (by_query less) (concat gs.*2) = concat ((fun g => (g.1, slice_stable less g.2)) <$> gs).*2.
Proof.
  intros Hn HF. rewrite slice_stable_concat.
  - f_equal. change (map (slice_stable (by_query less)) gs.*2) with (slice_stable (by_query less) <$> gs.*2).
    rewrite <- !list_fmap_compose. apply list_fmap_ext. intros i [id g] Hi. simpl.
    eapply Forall_lookup_1 in HF; [|exact Hi]. simpl in HF. rewrite Forall_forall in HF.
    apply slice_stable_ext. intros x y Hx Hy. unfold by_query.
    by rewrite (HF x Hx), (HF y Hy), String.eqb_refl.
  - intros i j g g' x y Hij Hi Hj Hx Hy. unfold by_query.
    rewrite list_lookup_fmap in Hi, Hj.
    apply fmap_Some in Hi as ([a ga] & Hi & ->). apply fmap_Some in Hj as ([b gb] & Hj & ->). simpl in *.
    pose proof (Forall_lookup_1 _ _ _ _ HF Hi) as Ha. pose proof (Forall_lookup_1 _ _ _ _ HF Hj) as Hb.
    simpl in Ha, Hb. rewrite Forall_forall in Ha, Hb. rewrite (Ha y Hy), (Hb x Hx).
    destruct (String.eqb_spec b a) as [->|]; [|done].
    assert (i = j); [|lia].
    apply (NoDup_lookup gs.*1 i j a Hn); rewrite list_lookup_fmap; [by rewrite Hi|by rewrite Hj].
Qed.

Lemma answers_groups (gs : list (string * list CredentialMatch)) id :
  NoDup gs.*1 -> Forall (fun g => Forall (fun m => QueryID m = g.1) g.2) gs ->
  answers (concat gs.*2) id = default [] (snd <$> find_map (fun g => if String.eqb g.1 id then Some g else None) gs).
Proof.
  intros Hn HF. unfold answers. induction gs as [|[a g] gs IH]; [done|].
  rewrite fmap_cons in Hn. change (concat ((a, g) :: gs).*2) with (g ++ concat gs.*2). simpl find_map.
  apply NoDup_cons in Hn as [Ha Hn]. apply Forall_cons in HF as [Hg HF]. simpl in Hg.
  rewrite List.filter_app. destruct (String.eqb_spec a id) as [->|Hne]; simpl.
  - rewrite Lfilter_all by (intros x Hx; rewrite Forall_forall in Hg; rewrite (Hg x Hx); apply String.eqb_refl).
    rewrite IH by done. destruct (find_map _ gs) as [[b g']|] eqn:Ef; simpl; [|by rewrite app_nil_r].
    apply find_map_Some in Ef as ([c h] & Hin & Hc). simpl in Hc.
    destruct (String.eqb_spec c id); simplify_eq. destruct Ha. apply list_elem_of_fmap. by exists (b, g').
  - rewrite IH by done. assert (Hnil : List.filter (fun m => String.eqb (QueryID m) id) g = []).
    { clear - Hg Hne. induction g as [|m g IHg]; simpl; [done|]. apply Forall_cons in Hg as [Hm Hg].
      rewrite Hm. destruct (String.eqb_spec a id); [done|]. by apply IHg. }
    by rewrite Hnil.
Qed.

(** On grouped matches a per-query sort sorts each query's answers. *)
Lemma by_query_answers less ms id :
  grouped ms ->
  grouped (slice_stable (by_query less) ms) /\
  answers (slice_stable (by_query less) ms) id = slice_stable less (answers ms id).
Proof.
  intros (gs & -> & Hn & HF). rewrite by_query_groups by done.
  set (gs' := (fun g => (g.1, slice_stable less g.2)) <$> gs).
  assert (Hn' : NoDup gs'.*1) by (unfold gs'; by rewrite <- list_fmap_compose).
  assert (HF' : Forall (fun g => Forall (fun m => QueryID m = g.1) g.2) gs').
  { unfold gs'. apply Forall_fmap. eapply Forall_impl; [exact HF|]. intros [a g] Hg. simpl in *.
    by rewrite slice_stable_perm. }
  split; [by exists gs'|]. rewrite !answers_groups by done. unfold gs'. clear.
  induction gs as [|[a g] gs IH]; simpl; [done|]. destruct (String.eqb a id); [done|]. apply IH.
Qed.

Lemma trusted_first_orders :
  (forall a b, trusted_first a b = true -> trusted_first b a = false) /\
  (forall a b c, trusted_first a b = false -> trusted_first b c = false -> trusted_first a c = false).
Proof.
  unfold trusted_first. split.
  - intros a b. by destruct (UntrustedAuthority a), (UntrustedAuthority b), (Unbound a), (Unbound b).
  - intros a b c. by destruct (UntrustedAuthority a), (UntrustedAuthority b), (UntrustedAuthority c),
      (Unbound a), (Unbound b), (Unbound c).
Qed.

Lemma complete_first_orders :
  (forall a b, complete_first a b = true -> complete_first b a = false) /\
  (forall a b c, complete_first a b = false -> complete_first b c = false -> complete_first a c = false).
Proof.
  unfold complete_first. split.
  - intros a b. by destruct (complete a), (complete b).
  - intros a b c. by destruct (complete a), (complete b), (complete c).
Qed.

Lemma preferred_first_orders pref :
  (forall a b, preferred_first pref a b = true -> preferred_first pref b a = false) /\
  (forall a b c, preferred_first pref a b = false -> preferred_first pref b c = false ->
     preferred_first pref a c = false).
Proof.
  unfold preferred_first. split.
  - intros a b. by destruct (String.eqb (MFormat a) pref), (String.eqb (MFormat b) pref).
  - intros a b c. by destruct (String.eqb (MFormat a) pref), (String.eqb (MFormat b) pref), (String.eqb (MFormat c) pref).
Qed.

Lemma newer_orders issued :
  (forall a b, newer issued a b = true -> newer issued b a = false) /\
  (forall a b c, newer issued a b = false -> newer issued b c = false -> newer issued a c = false).
Proof.
  unfold newer. split.
  - intros a b. destruct (is_zero (issued (CredentialID a))), (is_zero (issued (CredentialID b))); simpl; try done;
      apply after_asym.
  - intros a b c. destruct (is_zero (issued (CredentialID a))), (is_zero (issued (CredentialID b))),
      (is_zero (issued (CredentialID c))); simpl; try done; apply after_neg_trans.
Qed.

(** [a] is to be preferred to [b]: by completeness, then trust and binding,
    then the preferred format, then issuance time; on a tie their order
    stands. *)
Definition best_first (pref : string) (issued : string -> time) : CredentialMatch -> CredentialMatch -> Prop :=
  lex complete_first
    (lex trusted_first
       (if String.eqb pref "" then lex (newer issued) (fun _ _ => True)
        else lex (preferred_first pref) (lex (newer issued) (fun _ _ => True)))).

Section choice.
Context {J : Json} {R : CredentialReader}.

Lemma order_candidates_sorted pref creds ms id :
  grouped ms -> StronglySorted (best_first pref (issued_of creds)) (answers (order_candidates pref creds ms) id).
Proof.
  intros Hg. unfold order_candidates, best_first.
  destruct (newer_orders (issued_of creds)) as [Hna Hnn]. destruct trusted_first_orders as [Hta Htn].
  destruct complete_first_orders as [Hca Hcn]. destruct (preferred_first_orders pref) as [Hpa Hpn].
  destruct (by_query_answers (newer (issued_of creds)) ms id Hg) as [Hg1 Ha1].
  assert (Hs1 := slice_stable_sorted (newer (issued_of creds)) Hna Hnn _ _ (StronglySorted_true (answers ms id))).
  rewrite <- Ha1 in Hs1. fold (sortMatchesNewestFirst (issued_of creds) ms) in *.
  set (ms1 := sortMatchesNewestFirst _ ms) in *.
  set (ms2 := if String.eqb pref "" then ms1 else sortMatchesByPreferredFormat pref ms1).
  assert (H2 : grouped ms2 /\ StronglySorted
    (if String.eqb pref "" then lex (newer (issued_of creds)) (fun _ _ => True)
     else lex (preferred_first pref) (lex (newer (issued_of creds)) (fun _ _ => True))) (answers ms2 id)).
  { unfold ms2. destruct (String.eqb pref ""); [done|]. unfold sortMatchesByPreferredFormat.
    destruct (by_query_answers (preferred_first pref) ms1 id Hg1) as [Hg2 Ha2]. split; [done|].
    rewrite Ha2. by apply slice_stable_sorted. }
  destruct H2 as [Hg2 Hs2].
  destruct (by_query_answers trusted_first ms2 id Hg2) as [Hg3 Ha3].
  destruct (by_query_answers complete_first _ id Hg3) as [Hg4 Ha4].
  unfold sortMatchesCompleteFirst, sortMatchesTrustedFirst. rewrite Ha4, Ha3.
  apply slice_stable_sorted; [done|done|]. by apply slice_stable_sorted.
Qed.

(** ** The evaluation lists its matches by query *)

Lemma groups_sublist (gs : list (string * list CredentialMatch)) ms' :
  Forall (fun g => Forall (fun m => QueryID m = g.1) g.2) gs -> sublist ms' (concat gs.*2) ->
  exists gs', gs'.*1 = gs.*1 /\ ms' = concat gs'.*2 /\
    Forall (fun g => Forall (fun m => QueryID m = g.1) g.2) gs'.
Proof.
  revert ms'; induction gs as [|[a g] gs IH]; intros ms' HF Hs.
  { exists []. simpl in Hs. apply sublist_nil_r in Hs as ->. done. }
  apply Forall_cons in HF as [Hg HF]. change (concat ((a, g) :: gs).*2) with (g ++ concat gs.*2) in Hs.
  apply sublist_app_r in Hs as (l1 & l2 & -> & H1 & H2).
  destruct (IH l2 HF H2) as (gs' & Hk & -> & HF'). exists ((a, l1) :: gs').
  split; [rewrite !fmap_cons; by rewrite Hk|]. split; [done|]. constructor; [|done]. simpl in *.
  rewrite Forall_forall in Hg |- *. intros m Hm. apply Hg. by eapply sublist_elem.
Qed.

Lemma grouped_sublist ms ms' : sublist ms' ms -> grouped ms -> grouped ms'.
Proof.
  intros Hs (gs & -> & Hn & HF). destruct (groups_sublist gs ms' HF Hs) as (gs' & Hk & -> & HF').
  exists gs'. by rewrite Hk.
Qed.

Lemma filter_map_sublist {A B} (f : A -> option B) (g : A -> B) l :
  (forall x y, f x = Some y -> y = g x) -> sublist (filter_map f l) (g <$> l).
Proof.
  intros H. induction l as [|x l IH]; simpl; [done|].
  destruct (f x) as [y|] eqn:E; [|by constructor]. rewrite (H x y E). by constructor.
Qed.

Lemma collapse_sublist rnd ms creds : sublist (collapseBatchMatches rnd ms creds) ms.
Proof.
  unfold collapseBatchMatches.
  assert (Hz : ms = snd <$> zip (seq 0 (length ms)) ms) by (rewrite snd_zip; [done|by rewrite length_seq]).
  rewrite Hz at 3. apply filter_map_sublist. intros [i m] y Hy. by dmatch_in Hy; simplify_eq.
Qed.

(** The ids of the credential queries that are objects. *)
Definition object_ids (cqs : list value) : list string :=
  filter_map (fun cq => (fun m => get_string m "id") <$> as_obj cq) cqs.

Lemma evaluate_queries_grouped mode creds cqs verdicts :
  evaluate_queries mode creds cqs = Ok verdicts ->
  exists gs : list (string * list CredentialMatch),
    filter_map matched verdicts = concat gs.*2 /\ gs.*1 = object_ids cqs /\
    Forall (fun g => Forall (fun m => QueryID m = g.1) g.2) gs.
Proof.
  revert verdicts; induction cqs as [|cq cqs IH]; intros verdicts H; simplify_eq/=; [by exists []|].
  destruct cq as [| | | | | | | | | |cqMap]; try (by apply IH).
  destruct (is_strict mode && _); [done|].
  destruct (evaluate_queries mode creds cqs) as [rest|] eqn:Er; simplify_eq.
  destruct (IH rest eq_refl) as (gs & Hgs & Hk & HF).
  eexists ((get_string cqMap "id", filter_map matched (map _ creds)) :: gs).
  split; [rewrite filter_map_app, Hgs; done|]. split; [by rewrite fmap_cons, Hk|]. constructor; [|done].
  simpl. apply Forall_forall. intros m (v & Hv & Hm)%elem_of_filter_map.
  apply list_elem_of_fmap in Hv as (cred & -> & _).
  destruct (evaluate_credential _ _ _ _ _) as [m'| |] eqn:Ee; simplify_eq/=.
  apply evaluate_credential_matched in Ee as (Ha & _). apply Ha.
Qed.

Lemma candidates_grouped mode creds cqs verdicts rnd :
  NoDup (object_ids cqs) -> evaluate_queries mode creds cqs = Ok verdicts ->
  grouped (collapseBatchMatches rnd (filter_map matched verdicts) creds).
Proof.
  intros Hn H. apply (grouped_sublist (filter_map matched verdicts)); [apply collapse_sublist|].
  destruct (evaluate_queries_grouped _ _ _ _ H) as (gs & -> & Hk & HF). exists gs. by rewrite Hk.
Qed.

Lemma keep_loop_head multiple seen ms m :
  m ∈ keep_loop multiple seen ms -> QueryID m ∉ multiple ->
  (QueryID m ∉ seen) /\ head (answers ms (QueryID m)) = Some m.
Proof.
  intros Hin Hm. unfold answers. revert seen Hin; induction ms as [|m0 ms IH]; intros seen Hin; simpl in *; [set_solver|].
  destruct (bool_decide (QueryID m0 ∈ seen) && negb (bool_decide (QueryID m0 ∈ multiple))) eqn:E.
  - apply andb_true_iff in E as [E%bool_decide_eq_true _]. destruct (IH _ Hin) as [Hs Hh]. split; [done|].
    destruct (String.eqb_spec (QueryID m0) (QueryID m)) as [He|]; [|done]. by rewrite He in E.
  - apply elem_of_cons in Hin as [->|Hin].
    + rewrite (bool_decide_false (QueryID m0 ∈ multiple)), andb_true_r in E by done.
      apply bool_decide_eq_false in E. by rewrite String.eqb_refl.
    + destruct (IH _ Hin) as [Hs Hh]. split; [set_solver|].
      destruct (String.eqb_spec (QueryID m0) (QueryID m)); [set_solver|done].
Qed.

Lemma dedup_elem l seen s : s ∈ l -> s ∉ seen -> s ∈ dedup l seen.
Proof.
  revert seen; induction l as [|x l IH]; intros seen Hs Hn; simpl; [set_solver|].
  case_bool_decide; [apply IH; set_solver|]. destruct (decide (s = x)) as [->|]; [by left|].
  right. apply IH; set_solver.
Qed.

Lemma only_nonmatching_elem cands non cqs order s : s ∈ order -> s ∈ only_nonmatching cands non cqs order.
Proof.
  revert order; induction cqs as [|cq cqs IH]; intros order H; simpl; [done|].
  apply IH. destruct (_ && _); set_solver.
Qed.

Lemma consent_query cands non cqs sets multiple pref m :
  m ∈ cands ->
  exists opts qo, buildConsentCredentialOptions cands non cqs sets multiple pref = Some opts /\
    qo ∈ co_Queries opts /\ qo_ID qo = QueryID m /\ qo_Multiple qo = bool_decide (QueryID m ∈ multiple) /\
    qo_Candidates qo = answers cands (QueryID m).
Proof.
  intros Hm. unfold buildConsentCredentialOptions. destruct cands as [|c cands]; [set_solver|].
  eexists. exists (mkQueryOptions (QueryID m) (bool_decide (QueryID m ∈ multiple)) (answers (c :: cands) (QueryID m))
                     (answers non (QueryID m))).
  split; [reflexivity|]. split; [|done]. apply list_elem_of_fmap. exists (QueryID m). split; [done|].
  apply only_nonmatching_elem, dedup_elem; [|set_solver]. apply list_elem_of_fmap. by exists m.
Qed.

(** The automatic selection is the best candidate.  When the credential
    queries have distinct ids, a credential presented for a query without
    [multiple] is the first candidate the consent dialog offers for that
    query, and is preferred to every other: a complete answer wins over a
    partial one, then a trusted issuer over an untrusted one, then a bound
    credential over an unbound one, then the preferred format, then the newest
    issuance (undated credentials last). *)
Theorem automatic_choice_is_best mode pref rnd rnd' creds query ms opts m :
  EvaluateDCQLWithOptions mode pref rnd rnd' creds query = Ok (Some ms, opts) ->
  NoDup (object_ids (get_arr (default [] query) "credentials")) ->
  m ∈ ms -> QueryID m ∉ multipleQueries (get_arr (default [] query) "credentials") ->
  exists o qo rest,
    opts = Some o /\ qo ∈ co_Queries o /\ qo_ID qo = QueryID m /\ qo_Candidates qo = m :: rest /\
    Forall (best_first pref (issued_of creds) m) rest.
Proof.
  intros H Hn Hm Hmul. apply evaluate_inv in H as (_ & verdicts & Hv & H1 & H2 & Hopts).
  pose proof (candidates_grouped _ _ _ _ rnd Hn Hv) as Hg.
  pose proof (order_candidates_sorted pref creds _ (QueryID m) Hg) as Hs.
  set (cands := order_candidates _ _ _) in *. set (kept := keepOnePresentationPerQuery _ _) in *.
  assert (Hk : m ∈ kept).
  { destruct (get_arr (default [] query) "credential_sets") as [|cs sets] eqn:Es.
    - destruct (H1 eq_refl) as [-> _]. done.
    - eapply applyCredentialSets_elem; [by apply H2|done]. }
  destruct (keep_loop_head _ _ _ _ Hk Hmul) as [_ Hh].
  assert (Hc : m ∈ cands) by (eapply sublist_elem; [apply keep_loop_sublist|exact Hk]).
  match type of Hopts with opts = buildConsentCredentialOptions _ ?non ?cqs ?sets ?mul _ =>
    destruct (consent_query cands non cqs sets mul pref m Hc) as (o & qo & Ho & Hqo & Hid & _ & Hcan) end.
  rewrite Ho in Hopts. exists o, qo.
  destruct (answers cands (QueryID m)) as [|m' rest]; [done|]. simplify_eq/=. exists rest.
  repeat (split; [done|]). by apply StronglySorted_inv in Hs as [_ ?].
Qed.
End choice.

(** ** An evaluation *)

Module DCQLToy.
Definition json : Json := {| unmarshal_object := fun _ => None; unmarshal_array := fun _ => None |}.
Definition reader : CredentialReader :=
  {| Anchor := unit; holder_bound := fun _ => true; issued_at := issuedAt; chain_akis := fun _ => Some [];
     chain_ends_in := fun _ _ => false; issuance_anchors := fun _ => Err "unreachable" |}.

Definition cred (id name : string) (issued : time) : StoredCredential :=
  mkCred id "dc+sd-jwt" "" [("given_name", VString name); ("age", VBool true)] PIDVCT "" false None None "" "" 0
    zero_time [] issued [].

Definition creds : list StoredCredential := [cred "old" "Erika" (Time 10 0); cred "new" "Erika" (Time 20 0)].

Definition query : object :=
  [("credentials", VArr [VObj [("id", VString "pid"); ("format", VString "dc+sd-jwt");
      ("meta", VObj [("vct_values", VArr [VString PIDVCT])]);
      ("claims", VArr [VObj [("path", VArr [VString "given_name"])]])]])].

Abbreviation evaluate :=
  (@EvaluateDCQLWithOptions json reader Strict "" (fun _ _ => O) (fun _ _ => O) creds (Some query)).

Definition presented : list CredentialMatch :=
  match evaluate with Ok (Some ms, _) => ms | _ => [] end.
Definition options : option ConsentCredentialOptions :=
  match evaluate with Ok (_, o) => o | _ => None end.

Definition newest : CredentialMatch :=
  mkMatch "pid" "new" "dc+sd-jwt" PIDVCT "" [("given_name", VString "Erika")] ["given_name"] false false [] [] [] [].

Lemma query_evaluated : evaluate = Ok (Some presented, options).
Proof. vm_compute. reflexivity. Defined.

Lemma presented_newest : presented = [newest].
Proof. vm_compute. reflexivity. Defined.

Lemma newest_in : newest ∈ presented.
Proof. rewrite presented_newest. by left. Defined.

Lemma strict_presentations_sound_witness :
  presented = [newest] /\ DCQLQueryFindings (Some query) = [].
Proof.
  split; [exact presented_newest|].
  exact (proj1 (strict_presentations_sound _ _ _ _ _ _ _ _ query_evaluated newest_in)).
Defined.

Lemma only_requested_claims_witness :
  exists cqMap c, VObj cqMap ∈ get_arr query "credentials" /\ c ∈ creds /\ requested cqMap c "given_name".
Proof.
  destruct (only_requested_claims _ _ _ _ _ _ _ _ _ "given_name" query_evaluated newest_in ltac:(by left))
    as (cqMap & c & H1 & _ & H2 & _ & H3).
  by exists cqMap, c.
Defined.

Lemma strict_presents_all_claims_witness :
  exists cqMap c, VObj cqMap ∈ get_arr query "credentials" /\ CredentialID newest = ID c.
Proof.
  destruct (strict_presents_all_claims _ _ _ _ _ _ _ _ query_evaluated newest_in) as (cqMap & c & H1 & _ & _ & H2 & _).
  by exists cqMap, c.
Defined.

Lemma one_presentation_per_query_witness : (length (answers presented "pid") <= 1)%nat.
Proof. exact (one_presentation_per_query _ _ _ _ _ _ _ _ "pid" query_evaluated ltac:(by_decide)). Defined.

Lemma presentations_all_or_nothing_witness :
  exists cqMap, get_arr query "credentials" = [VObj cqMap] /\ answered presented (get_string cqMap "id") = true.
Proof.
  destruct (proj1 (presentations_all_or_nothing _ _ _ _ _ _ _ _ query_evaluated) eq_refl _
              (proj2 (list_elem_of_singleton _ _) eq_refl)) as (cqMap & He & _ & Ha).
  exists cqMap. split; [|done]. simpl in *. by rewrite <- He.
Defined.

Lemma automatic_choice_is_best_witness :
  exists o qo rest, options = Some o /\ qo_Candidates qo = newest :: rest /\ length rest = 1%nat.
Proof.
  destruct (automatic_choice_is_best _ _ _ _ _ _ _ _ newest query_evaluated ltac:(by_decide) newest_in ltac:(by_decide))
    as (o & qo & rest & Ho & Hqo & _ & Hc & _).
  exists o, qo, rest. split; [done|]. split; [done|].
  assert (Hl : co_Queries o = [qo] -> length rest = 1%nat).
  { intros Hq. revert Ho. vm_compute. intros [= <-]. simpl in Hq. injection Hq as <-. by injection Hc as <-. }
  apply Hl. revert Ho Hqo. vm_compute. intros [= <-]. simpl. by intros ->%list_elem_of_singleton.
Defined.
End DCQLToy.
