(* ===== verification/Batch.v ===== *)
(** * Batch: batch issuance and the rotation of copies

    internal/wallet/issuance_batch.go.  A batch is one logical credential in
    several copies bound to distinct keys; presentations rotate through the
    copies so that no verifier sees one copy more often than needed. *)

From Stdlib Require Import Ascii ZArith Lia.
From stdpp Require Import base list strings gmap relations.
From S2P Require Import Prelude GoStrings GoValue Format Validity SDJWT WalletState WalletStatus WalletStore ClaimPath DCQL DCQLFacts.

Local Open Scope Z_scope.

(** ** The credential request *)

Definition maxBatchProofKeys : Z := 8.

Definition advertisedBatchSize (metadata : object) : Z :=
  match as_obj (index metadata "batch_credential_issuance") with
  | None => 0
  | Some batch =>
      match as_float64 (index batch "batch_size") with
      | None => 0
      | Some size => if f64_ltb size (float64_of_Z 1) then 0 else int_of_float64 size
      end
  end.

(** The number of proof keys [issuanceProofKeys] returns; the first is the
    holder key, the others are fresh. *)
Definition issuanceProofKeys_count (metadata : object) : Z :=
  let batchSize := advertisedBatchSize metadata in
  if batchSize <? 2 then 1
  else if maxBatchProofKeys <? batchSize then maxBatchProofKeys else batchSize.

(** ** The credential response *)

Definition credentialStringsFromResponse (resp : object) : list string :=
  match as_arr (index resp "credentials") with
  | None => []
  | Some rawCreds =>
      filter_map (fun entry =>
        match entry with
        | VObj obj => match index obj "credential" with
                      | VString c => if String.eqb c "" then None else Some c
                      | _ => None
                      end
        | _ => None
        end) rawCreds
  end.

Record batchCopy := mkCopy { copy_raw : string; copy_bindingKeyPEM : string }.
Record sortedBatch := mkBatch { batch_primary : string; batch_copies : list batchCopy }.

Inductive batch_deviation :=
| BoundToNoKey (position : Z)
| SameKey (other position : Z)
| Unreadable (position : Z).

Inductive batch_error :=
| NoCredential
| EncodingFailed (position : Z)
| ServerDeviation (d : batch_deviation)
| NoneBound (n : Z).

Record boundCopy := mkBound { bc_position : Z; bc_raw : string; bc_key : nat }.

Section sorting.
(** [binds raw i]: the credential is bound to proof key [i]
    ([credentialBindsToKey]); [pem i] its PEM encoding, if it can be encoded;
    [readable raw pem]: [parseDetectedFormat] succeeds. *)
Context (binds : string -> nat -> bool) (nkeys : nat) (pem : nat -> option string)
  (readable : string -> string -> bool).

Definition proofKeyIndex (raw : string) : option nat :=
  find_map (fun i => if binds raw i then Some i else None) (seq 0 nkeys).

(** The first loop: the copies in response order, each with its own key, and
    the deviations.  [used] maps a key to the position that uses it. *)
Fixpoint bind_loop (position : Z) (creds : list string) (used : list (nat * Z)) :
    list boundCopy * list batch_deviation :=
  match creds with
  | [] => ([], [])
  | raw :: creds =>
      match proofKeyIndex raw with
      | None =>
          let '(bound, devs) := bind_loop (position + 1) creds used in
          (bound, BoundToNoKey position :: devs)
      | Some key =>
          match find_map (fun '(k, other) => if (k =? key)%nat then Some other else None) used with
          | Some other =>
              let '(bound, devs) := bind_loop (position + 1) creds used in
              (bound, SameKey other position :: devs)
          | None =>
              let '(bound, devs) := bind_loop (position + 1) creds ((key, position) :: used) in
              (mkBound position raw key :: bound, devs)
          end
      end
  end.

(** The copy bound to the holder key, or else the first one; the keys of
    [bound] are distinct, so at most one has key 0. *)
Definition primary_index (bound : list boundCopy) : option nat :=
  match find_map (fun '(i, c) => if (bc_key c =? 0)%nat then Some i else None)
          (reverse (zip (seq 0 (length bound)) bound)) with
  | Some i => Some i
  | None => match bound with [] => None | _ => Some O end
  end.

(** The second loop. *)
Fixpoint copy_loop (i : nat) (primary : option nat) (bound : list boundCopy) (batch : sortedBatch) :
    result batch_error (sortedBatch * list batch_deviation) :=
  match bound with
  | [] => Ok (batch, [])
  | c :: bound =>
      if bool_decide (primary = Some i)
      then copy_loop (S i) primary bound (mkBatch (bc_raw c) (batch_copies batch))
      else match pem (bc_key c) with
           | None => Err (EncodingFailed (bc_position c))
           | Some p =>
               if readable (trim_space (bc_raw c)) p
               then copy_loop (S i) primary bound
                      (mkBatch (batch_primary batch) (batch_copies batch ++ [mkCopy (bc_raw c) p]))
               else let? (b, devs) := copy_loop (S i) primary bound batch in
                    Ok (b, Unreadable (bc_position c) :: devs)
           end
  end.

(** [strict] is [reportServerDeviation]'s mode: strict mode returns the first
    deviation as an error, debug mode records it. *)
Definition sortBatch (strict : bool) (credResp : object) : result batch_error (sortedBatch * list batch_deviation) :=
  match credentialStringsFromResponse credResp with
  | [] => Err NoCredential
  | [c] => Ok (mkBatch c [], [])
  | creds =>
      let '(bound, devs) := bind_loop 1 creds [] in
      let? (batch, devs') := copy_loop 0 (primary_index bound) bound (mkBatch "" []) in
      match devs ++ devs' with
      | d :: _ =>
          if strict then Err (ServerDeviation d)
          else if String.eqb (batch_primary batch) "" then Err (NoneBound (Z.of_nat (length creds)))
               else Ok (batch, devs ++ devs')
      | [] => if String.eqb (batch_primary batch) "" then Err (NoneBound (Z.of_nat (length creds)))
              else Ok (batch, [])
      end
  end.

(** ** What is stored is bound to distinct keys *)

Lemma proofKeyIndex_Some raw i : proofKeyIndex raw = Some i -> binds raw i = true /\ (i < nkeys)%nat.
Proof.
  unfold proofKeyIndex. intros (j & Hj & H)%find_map_Some. destruct (binds raw j) eqn:E; simplify_eq.
  split; [done|]. apply elem_of_seq in Hj. lia.
Qed.

Lemma bind_loop_spec position creds used bound devs :
  bind_loop position creds used = (bound, devs) ->
  NoDup (bc_key <$> bound) /\ (forall c, c ∈ bound -> bc_key c ∉ used.*1) /\
  Forall (fun c => binds (bc_raw c) (bc_key c) = true /\ (bc_key c < nkeys)%nat /\ bc_raw c ∈ creds) bound.
Proof.
  revert position used bound devs; induction creds as [|raw creds IH]; intros position used bound devs H;
    simplify_eq/=; [split; [constructor|set_solver]|].
  assert (Hweak : forall b ds u p, bind_loop p creds u = (b, ds) ->
    NoDup (bc_key <$> b) /\ (forall c, c ∈ b -> bc_key c ∉ u.*1) /\
    Forall (fun c => binds (bc_raw c) (bc_key c) = true /\ (bc_key c < nkeys)%nat /\ bc_raw c ∈ raw :: creds) b).
  { intros b ds u p Hb. destruct (IH _ _ _ _ Hb) as (H1 & H2 & H3). split; [done|]. split; [done|].
    eapply Forall_impl; [exact H3|]. intros c (? & ? & ?). split; [done|]. split; [done|by right]. }
  destruct (proofKeyIndex raw) as [key|] eqn:Ek.
  2:{ destruct (bind_loop _ _ _) eqn:Eb; simplify_eq. by eapply Hweak. }
  destruct (find_map _ used) as [other|] eqn:Eu.
  { destruct (bind_loop _ _ _) eqn:Eb; simplify_eq. by eapply Hweak. }
  destruct (bind_loop (position + 1) creds ((key, position) :: used)) as [b ds] eqn:Eb; simplify_eq.
  destruct (Hweak _ _ _ _ Eb) as (H1 & H2 & H3). rewrite find_map_None in Eu.
  assert (Hnew : key ∉ used.*1).
  { intros Hin. apply list_elem_of_fmap in Hin as ([k o] & -> & Hin). specialize (Eu _ Hin). simpl in Eu.
    by rewrite Nat.eqb_refl in Eu. }
  split.
  { rewrite fmap_cons. apply NoDup_cons. split; [|done]. intros Hin.
    apply list_elem_of_fmap in Hin as (c & Hk & Hc). simpl in Hk. specialize (H2 c Hc).
    rewrite fmap_cons in H2. set_solver. }
  split.
  { intros c Hc. apply elem_of_cons in Hc as [->|Hc]; [done|]. specialize (H2 c Hc). rewrite fmap_cons in H2.
    set_solver. }
  constructor; [|done]. apply proofKeyIndex_Some in Ek as [? ?]. simpl. split; [done|]. split; [done|by left].
Qed.

(** A stored copy carries the encoding of the key its credential is bound to. *)
Definition copy_of (c : boundCopy) (k : batchCopy) : Prop :=
  copy_raw k = bc_raw c /\ pem (bc_key c) = Some (copy_bindingKeyPEM k).

Lemma copy_loop_rest i p bound batch b devs :
  (p < i)%nat -> copy_loop i (Some p) bound batch = Ok (b, devs) ->
  batch_primary b = batch_primary batch /\
  exists cs ks, sublist cs bound /\ batch_copies b = batch_copies batch ++ ks /\ Forall2 copy_of cs ks.
Proof.
  revert i batch b devs; induction bound as [|c bound IH]; intros i batch b devs Hp H; simplify_eq/=.
  { split; [done|]. exists [], []. by rewrite app_nil_r. }
  rewrite bool_decide_false in H by (intros [=]; lia).
  destruct (pem (bc_key c)) as [q|] eqn:Eq; [|done]. destruct (readable _ q).
  - destruct (IH (S i) _ _ _ ltac:(lia) H) as (H1 & cs & ks & H2 & H3 & H4). split; [done|].
    exists (c :: cs), (mkCopy (bc_raw c) q :: ks). split; [by constructor|].
    split; [rewrite H3; simpl; by rewrite <- app_assoc|]. by constructor.
  - destruct (copy_loop (S i) _ bound batch) as [[b' ds]|] eqn:El; simplify_eq.
    destruct (IH (S i) _ _ _ ltac:(lia) El) as (H1 & cs & ks & H2 & H3 & H4). split; [done|].
    exists cs, ks. split; [by constructor|done].
Qed.

Lemma copy_loop_spec i p bound batch b devs :
  (i <= p < i + length bound)%nat -> copy_loop i (Some p) bound batch = Ok (b, devs) ->
  exists bp cs ks, bound !! (p - i)%nat = Some bp /\ batch_primary b = bc_raw bp /\
    sublist cs (delete (p - i)%nat bound) /\ batch_copies b = batch_copies batch ++ ks /\ Forall2 copy_of cs ks.
Proof.
  revert i batch b devs; induction bound as [|c bound IH]; intros i batch b devs Hp H; simplify_eq/=; [lia|].
  destruct (decide (p = i)) as [->|Hne].
  { rewrite bool_decide_true in H by done. apply copy_loop_rest in H as (H1 & cs & ks & H2 & H3 & H4); [|lia].
    rewrite Nat.sub_diag. exists c, cs, ks. done. }
  rewrite bool_decide_false in H by (intros [=]; lia).
  replace (p - i)%nat with (S (p - S i)) by lia. simpl.
  destruct (pem (bc_key c)) as [q|] eqn:Eq; [|done]. destruct (readable _ q).
  - destruct (IH (S i) _ _ _ ltac:(lia) H) as (bp & cs & ks & H0 & H1 & H2 & H3 & H4).
    exists bp, (c :: cs), (mkCopy (bc_raw c) q :: ks). split; [done|]. split; [done|]. split; [by constructor|].
    split; [rewrite H3; simpl; by rewrite <- app_assoc|]. by constructor.
  - destruct (copy_loop (S i) _ bound batch) as [[b' ds]|] eqn:El; simplify_eq.
    destruct (IH (S i) _ _ _ ltac:(lia) El) as (bp & cs & ks & H0 & H1 & H2 & H3 & H4).
    exists bp, cs, ks. split; [done|]. split; [done|]. split; [by constructor|done].
Qed.

Lemma primary_index_spec bound :
  match primary_index bound with
  | None => bound = []
  | Some p => exists bp, bound !! p = Some bp /\ ((exists c, c ∈ bound /\ bc_key c = O) -> bc_key bp = O)
  end.
Proof.
  unfold primary_index. destruct (find_map _ _) as [p|] eqn:Ef.
  - apply find_map_Some in Ef as ([i c] & Hin & Hf). destruct (Nat.eqb_spec (bc_key c) 0); simplify_eq.
    rewrite elem_of_reverse in Hin. apply list_elem_of_lookup in Hin as [j Hj].
    apply lookup_zip_Some in Hj as [Hs Hb]. apply lookup_seq in Hs as [-> _]. by exists c.
  - destruct bound as [|c bound]; [done|]. exists c. split; [done|]. intros (x & Hx & Hk).
    rewrite find_map_None in Ef. apply list_elem_of_lookup in Hx as [j Hj].
    assert (Hz : (j, x) ∈ reverse (zip (seq 0 (length (c :: bound))) (c :: bound))).
    { rewrite elem_of_reverse. apply list_elem_of_lookup. exists j. apply lookup_zip_Some. split; [|done].
      apply lookup_seq. split; [done|]. by apply lookup_lt_Some in Hj. }
    specialize (Ef _ Hz). simpl in Ef. by rewrite Hk in Ef.
Qed.

(** A batch is stored with distinct keys (OpenID4VCI section 8.3).  When a
    response of several credentials is accepted, the primary credential and
    the copies are credentials of the response, each bound to another proof
    key of the request; every copy is stored with the encoding of exactly the
    key its credential is bound to; and the primary is the one bound to the
    holder key (key 0) whenever one of the kept credentials is.  In strict
    mode there was no deviation at all. *)
Theorem sortBatch_distinct_keys strict credResp batch devs :
  sortBatch strict credResp = Ok (batch, devs) ->
  (1 < length (credentialStringsFromResponse credResp))%nat ->
  (strict = true -> devs = []) /\
  exists bp cs,
    batch_primary batch = bc_raw bp /\ Forall2 copy_of cs (batch_copies batch) /\
    NoDup (bc_key <$> bp :: cs) /\
    Forall (fun c => binds (bc_raw c) (bc_key c) = true /\ (bc_key c < nkeys)%nat /\
                     bc_raw c ∈ credentialStringsFromResponse credResp) (bp :: cs) /\
    ((exists c, c ∈ bp :: cs /\ bc_key c = O) -> bc_key bp = O).
Proof.
  unfold sortBatch. set (creds := credentialStringsFromResponse credResp). intros H Hlen.
  destruct creds as [|c1 [|c2 creds']] eqn:Ec; simpl in Hlen; [lia|lia|]. rewrite <- Ec in *. clear Ec c1 c2 creds' Hlen.
  destruct (bind_loop 1 creds []) as [bound devs1] eqn:Eb.
  destruct (copy_loop 0 (primary_index bound) bound _) as [[b devs2]|] eqn:El; [|done].
  assert (Hb : b = batch /\ devs = devs1 ++ devs2 /\ (strict = true -> devs1 ++ devs2 = []) /\ batch_primary b <> "").
  { destruct (devs1 ++ devs2); [|destruct strict; [done|]];
      destruct (String.eqb_spec (batch_primary b) ""); by simplify_eq. }
  destruct Hb as (-> & -> & Hstrict & Hne). split; [done|].
  apply bind_loop_spec in Eb as (Hn & _ & HF). pose proof (primary_index_spec bound) as Hp.
  destruct (primary_index bound) as [p|]; [|subst bound; by simplify_eq/=].
  destruct Hp as (bp & Hbp & Hzero).
  apply copy_loop_spec in El as (bp' & cs & ks & H0 & H1 & H2 & H3 & H4);
    [|apply lookup_lt_Some in Hbp; lia].
  rewrite Nat.sub_0_r in *. rewrite Hbp in H0. injection H0 as <-. simpl in H3. subst ks. exists bp, cs.
  pose proof (delete_Permutation bound p bp Hbp) as Hperm.
  assert (Hin : forall c, c ∈ bp :: cs -> c ∈ bound).
  { intros c Hc. rewrite Hperm. apply elem_of_cons in Hc as [->|Hc]; [by left|right]. by eapply sublist_elem. }
  split; [done|]. split; [done|]. split; [|split].
  - rewrite Hperm in Hn. eapply NoDup_fmap_sublist; [|exact Hn]. by constructor.
  - apply Forall_forall. intros c Hc. rewrite Forall_forall in HF. by apply HF, Hin.
  - intros (c & Hc & Hk). apply Hzero. exists c. split; [by apply Hin|done].
Qed.
End sorting.

(** ** Choosing the copy to present *)

(** A source of random numbers: below its bound. *)
Definition random_source (rnd : string -> nat -> nat) : Prop := forall key n, (1 < n)%nat -> (rnd key n < n)%nat.

Lemma fewest_from us f :
  0 <= f -> Forall (fun u => 0 <= u) us ->
  let r := fold_left (fun fewest u => if (fewest <? 0) || (u <? fewest) then u else fewest) us f in
  0 <= r /\ r ∈ f :: us /\ r <= f /\ Forall (fun u => r <= u) us.
Proof.
  intros Hf Hus. revert f Hf. induction Hus as [|u us Hu Hus IH]; intros f Hf; simpl.
  { split; [done|]. split; [by left|]. split; [lia|done]. }
  destruct (Z.ltb_spec f 0); [lia|]. simpl. destruct (Z.ltb_spec u f).
  - destruct (IH u Hu) as (H1 & H2 & H3 & H4). split; [done|]. split; [set_solver|]. split; [lia|]. by constructor.
  - destruct (IH f Hf) as (H1 & H2 & H3 & H4). split; [done|]. split; [set_solver|]. split; [lia|].
    constructor; [lia|done].
Qed.

Lemma fewest_uses_spec us :
  us <> [] -> Forall (fun u => 0 <= u) us -> fewest_uses us ∈ us /\ Forall (fun u => fewest_uses us <= u) us.
Proof.
  destruct us as [|u us]; [done|]. intros _ [Hu Hus]%Forall_cons. unfold fewest_uses. simpl.
  destruct (fewest_from us u Hu Hus) as (_ & H2 & H3 & H4). split; [done|]. by constructor.
Qed.

Lemma chooseBatchCopy_spec rnd key idxs :
  random_source rnd -> idxs <> [] -> Forall (fun p => 0 <= p.2) idxs ->
  exists u, (chooseBatchCopy rnd key idxs, u) ∈ idxs /\ Forall (fun p => u <= p.2) idxs.
Proof.
  intros Hr Hne Hpos. unfold chooseBatchCopy.
  destruct (fewest_uses_spec idxs.*2) as [Hin Hle].
  { by destruct idxs. }
  { apply Forall_fmap. exact Hpos. }
  set (fewest := fewest_uses idxs.*2) in *. exists fewest. split.
  2:{ apply Forall_forall. intros p Hp. apply (proj1 (Forall_forall _ _) Hle), list_elem_of_fmap. by exists p. }
  set (least := fst <$> List.filter (fun '(_, u) => u =? fewest) idxs).
  assert (Hleast : forall i, i ∈ least -> (i, fewest) ∈ idxs).
  { intros i Hi. apply list_elem_of_fmap in Hi as ([j u] & -> & [Hj Hu]%elem_of_Lfilter).
    apply Z.eqb_eq in Hu as ->. done. }
  assert (Hl : least <> []).
  { apply list_elem_of_fmap in Hin as ([i u] & Hu & Hi). simpl in Hu.
    assert (Hel : i ∈ least).
    { apply list_elem_of_fmap. exists (i, u). split; [done|]. apply elem_of_Lfilter. split; [done|].
      by apply Z.eqb_eq. }
    intros Hnil. rewrite Hnil in Hel. set_solver. }
  assert (Hlt : (secureIntn rnd key (length least) < length least)%nat).
  { unfold secureIntn. destruct (Nat.leb_spec (length least) 1).
    - destruct least; [done|simpl; lia].
    - by apply Hr. }
  apply lookup_lt_is_Some_2 in Hlt as [i Hi]. rewrite Hi. simpl. apply Hleast. by eapply list_elem_of_lookup_2.
Qed.

(** The positions of the copies of one batch in the matches. *)
Lemma batch_positions_elem creds ms key i u :
  (i, u) ∈ batch_positions creds ms key <->
  exists m, ms !! i = Some m /\ group_of creds m <> "" /\ batch_key creds m = key /\ uses_of creds m = u.
Proof.
  unfold batch_positions. rewrite elem_of_filter_map. split.
  - intros ([j m] & Hin & Hf). apply list_elem_of_lookup in Hin as [k Hk].
    apply lookup_zip_Some in Hk as [Hs Hm]. apply lookup_seq in Hs as [-> _].
    destruct (String.eqb_spec (group_of creds m) "") as [|Hg]; [done|].
    destruct (String.eqb_spec (batch_key creds m) key) as [Hb|]; [|done]. simplify_eq/=. by exists m.
  - intros (m & Hm & Hg & Hb & Hu). exists (i, m). split.
    + apply list_elem_of_lookup. exists i. apply lookup_zip_Some. split; [|done]. apply lookup_seq.
      split; [done|]. by apply lookup_lt_Some in Hm.
    + destruct (String.eqb_spec (group_of creds m) ""); [done|].
      destruct (String.eqb_spec (batch_key creds m) key); [|done]. simpl. by rewrite Hu.
Qed.

Definition uses_nonneg (creds : list StoredCredential) : Prop := Forall (fun c => 0 <= Uses c) creds.

Lemma uses_of_nonneg creds m : uses_nonneg creds -> 0 <= uses_of creds m.
Proof.
  intros H. unfold uses_of, by_id. destruct (find_map _ _) as [c|] eqn:E; [|lia].
  apply find_map_Some in E as (x & Hx & Hf). dmatch_in Hf; simplify_eq. rewrite elem_of_reverse in Hx.
  by apply (proj1 (Forall_forall _ _) H).
Qed.

Lemma collapse_spec rnd ms creds m :
  m ∈ collapseBatchMatches rnd ms creds <->
  exists i, ms !! i = Some m /\
    (group_of creds m <> "" ->
     i = chooseBatchCopy rnd (batch_key creds m) (batch_positions creds ms (batch_key creds m))).
Proof.
  unfold collapseBatchMatches. rewrite elem_of_filter_map. split.
  - intros ([i m'] & Hin & Hf). apply list_elem_of_lookup in Hin as [k Hk].
    apply lookup_zip_Some in Hk as [Hs Hm]. apply lookup_seq in Hs as [-> _].
    destruct (String.eqb_spec (group_of creds m') "") as [Hg|Hg]; simplify_eq/=.
    + by exists k.
    + destruct (Nat.eqb_spec k (chooseBatchCopy rnd (batch_key creds m') (batch_positions creds ms (batch_key creds m'))));
        simplify_eq/=. eauto.
  - intros (i & Hi & Hc). exists (i, m). split.
    + apply list_elem_of_lookup. exists i. apply lookup_zip_Some. split; [|done]. apply lookup_seq.
      split; [done|]. by apply lookup_lt_Some in Hi.
    + destruct (String.eqb_spec (group_of creds m) ""); [done|]. simpl. rewrite <- Hc by done.
      by rewrite Nat.eqb_refl.
Qed.

(** The candidates hold one copy of each batch, a least-used one.  After
    collapsing, an unbatched match is still there; for every batch that
    answers a query there is a copy left, and every copy left has been
    presented no more often than any other copy that answers that query, and
    two copies left of one batch for one query are the same match. *)
Theorem one_least_used_copy rnd ms creds m :
  random_source rnd -> uses_nonneg creds -> m ∈ ms ->
  let kept := collapseBatchMatches rnd ms creds in
  (group_of creds m = "" -> m ∈ kept) /\
  (group_of creds m <> "" ->
     exists k, k ∈ kept /\ batch_key creds k = batch_key creds m /\ group_of creds k <> "" /\
       uses_of creds k <= uses_of creds m /\
       (forall k', k' ∈ kept -> group_of creds k' <> "" -> batch_key creds k' = batch_key creds m -> k' = k)).
Proof.
  intros Hr Hu Hm kept. apply list_elem_of_lookup in Hm as [i Hi]. split.
  { intros Hg. apply collapse_spec. exists i. split; [done|]. congruence. }
  intros Hg. set (pos := batch_positions creds ms (batch_key creds m)).
  assert (Hmi : (i, uses_of creds m) ∈ pos) by (apply batch_positions_elem; by exists m).
  destruct (chooseBatchCopy_spec rnd (batch_key creds m) pos Hr) as (u & Hin & Hle).
  { intros Hnil. rewrite Hnil in Hmi. set_solver. }
  { apply Forall_forall. intros [j v] Hj. apply batch_positions_elem in Hj as (x & _ & _ & _ & <-).
    by apply uses_of_nonneg. }
  pose proof Hin as Hk. apply batch_positions_elem in Hk as (k & Hk & Hkg & Hkb & Hku). exists k.
  split; [apply collapse_spec; exists (chooseBatchCopy rnd (batch_key creds m) pos); rewrite Hkb; done|].
  split; [done|]. split; [done|]. split.
  - rewrite Forall_forall in Hle. specialize (Hle _ Hmi). simpl in Hle. lia.
  - intros k' Hk' Hg' Hb'. apply collapse_spec in Hk' as (j & Hj & Hc). rewrite Hb' in Hc.
    specialize (Hc Hg'). fold pos in Hc. congruence.
Qed.

(** ** Rotation *)

(** One presentation of the batch [g]: a least-used copy is presented and its
    use recorded. *)
Inductive rotate (g : string) : Wallet -> Wallet -> Prop :=
| rotate_step w c now :
    c ∈ Credentials w -> BatchGroup c = g ->
    (forall c', c' ∈ Credentials w -> BatchGroup c' = g -> Uses c <= Uses c') ->
    0 <= Uses c < max_int64 ->
    rotate g w (fst (recordBatchPresentation w (ID c) now)).

(** No copy is ahead of another by more than one presentation. *)
Definition balanced (g : string) (w : Wallet) : Prop :=
  forall c c', c ∈ Credentials w -> c' ∈ Credentials w -> BatchGroup c = g -> BatchGroup c' = g ->
    Uses c <= Uses c' + 1.

Lemma update_first_unique f id cs c :
  NoDup (ID <$> cs) -> c ∈ cs -> ID c = id ->
  update_first (fun x => if String.eqb (ID x) id then Some (f x) else None) cs =
  Some ((fun x => if String.eqb (ID x) id then f x else x) <$> cs).
Proof.
  induction cs as [|x cs IH]; intros Hn Hc Hid; [set_solver|]. rewrite fmap_cons in Hn.
  apply NoDup_cons in Hn as [Hx Hn]. simpl. destruct (String.eqb_spec (ID x) id) as [He|Hne].
  - f_equal. f_equal. rewrite <- (list_fmap_id cs) at 1. apply list_fmap_ext. intros i y Hy. simpl.
    destruct (String.eqb_spec (ID y) id); [|done]. destruct Hx. apply list_elem_of_fmap. exists y.
    split; [congruence|]. by eapply list_elem_of_lookup_2.
  - apply elem_of_cons in Hc as [->|Hc]; [done|]. by rewrite IH.
Qed.

Lemma recordBatchPresentation_credentials w c now :
  NoDup (ids w) -> c ∈ Credentials w -> BatchGroup c <> "" -> 0 <= Uses c < max_int64 ->
  Credentials (fst (recordBatchPresentation w (ID c) now)) =
  (fun x => if String.eqb (ID x) (ID c) then with_use x (wrap64 (Uses x + 1)) now else x) <$> Credentials w.
Proof.
  intros Hn Hc Hg Hu. unfold recordBatchPresentation.
  rewrite (first_with_id_unique w c (ID c)) by done. destruct (String.eqb_spec (BatchGroup c) ""); [done|].
  simpl. by rewrite (update_first_unique _ _ _ c).
Qed.

Lemma rotate_balanced g w w' :
  g <> "" -> rotate g w w' -> NoDup (ids w) -> balanced g w -> NoDup (ids w') /\ balanced g w'.
Proof.
  intros Hg Hs Hn Hb. split; [apply (step_ids w); [by destruct Hs; apply us_presented|done]|].
  destruct Hs as [w c now Hc Hcg Hmin Hu]. unfold balanced.
  rewrite recordBatchPresentation_credentials by congruence. intros x y Hx Hy Hxg Hyg.
  apply list_elem_of_fmap in Hx as (x0 & -> & Hx), Hy as (y0 & -> & Hy).
  assert (Hw : wrap64 (Uses c + 1) = Uses c + 1) by (apply wrap64_small; unfold max_int64 in *; lia).
  destruct (String.eqb_spec (ID x0) (ID c)) as [Hex|], (String.eqb_spec (ID y0) (ID c)) as [Hey|]; simpl in *.
  - assert (x0 = c) as -> by (by apply (NoDup_ids_inj (Credentials w))).
    assert (y0 = c) as -> by (by apply (NoDup_ids_inj (Credentials w))). lia.
  - assert (x0 = c) as -> by (by apply (NoDup_ids_inj (Credentials w))). rewrite Hw.
    specialize (Hmin y0 Hy Hyg). lia.
  - assert (y0 = c) as -> by (by apply (NoDup_ids_inj (Credentials w))). rewrite Hw.
    specialize (Hb x0 c Hx Hc Hxg Hyg). lia.
  - by apply Hb.
Qed.

(** Rotation is fair (ARF method C): starting from copies presented
    equally often, after any number of presentations of the batch no copy has
    been presented two times more than another, so every copy is used once
    before any is reused. *)
Theorem rotation_is_fair g w w' :
  rtc (rotate g) w w' -> g <> "" -> NoDup (ids w) ->
  (forall c c', c ∈ Credentials w -> c' ∈ Credentials w -> BatchGroup c = g -> BatchGroup c' = g -> Uses c = Uses c') ->
  forall c c', c ∈ Credentials w' -> c' ∈ Credentials w' -> BatchGroup c = g -> BatchGroup c' = g ->
    Uses c <= Uses c' + 1.
Proof.
  intros Hr Hg Hn Heq. assert (Hb : balanced g w) by (intros c c' ? ? ? ?; rewrite (Heq c c') by done; lia).
  clear Heq. induction Hr as [w|w w1 w' Hs Hr IH]; [exact Hb|].
  destruct (rotate_balanced g w w1 Hg Hs Hn Hb) as [Hn1 Hb1]. by apply IH.
Qed.

(** The number of proof keys in a credential request is at least one and
    at most eight, whatever batch size the issuer advertises; it is the
    advertised size from two to eight. *)
Theorem proof_key_count_bounded metadata :
  1 <= issuanceProofKeys_count metadata <= maxBatchProofKeys /\
  (2 <= advertisedBatchSize metadata <= maxBatchProofKeys ->
   issuanceProofKeys_count metadata = advertisedBatchSize metadata).
Proof.
  unfold issuanceProofKeys_count, maxBatchProofKeys.
  destruct (Z.ltb_spec (advertisedBatchSize metadata) 2); [lia|].
  destruct (Z.ltb_spec 8 (advertisedBatchSize metadata)); lia.
Qed.

(** ** Instances *)

Module BatchToy.
Definition resp : object :=
  [("credentials", VArr [VObj [("credential", VString "k1")]; VObj [("credential", VString "k0")]])].
Definition binds (raw : string) (i : nat) : bool :=
  (String.eqb raw "k0" && (i =? 0)%nat) || (String.eqb raw "k1" && (i =? 1)%nat).
Definition pem (i : nat) : option string := Some (itoa (Z.of_nat i)).

Lemma sortBatch_distinct_keys_witness :
  sortBatch binds 2 pem (fun _ _ => true) true resp = Ok (mkBatch "k0" [mkCopy "k1" "1"], []) /\
  exists bp, bc_raw bp = "k0" /\ bc_key bp = O.
Proof.
  split; [vm_compute; reflexivity|].
  destruct (sortBatch_distinct_keys binds 2 pem (fun _ _ => true) true resp (mkBatch "k0" [mkCopy "k1" "1"]) []
              ltac:(vm_compute; reflexivity) ltac:(vm_compute; lia)) as (_ & bp & cs & Hp & _ & _ & HF & _).
  exists bp. simpl in Hp. split; [done|]. apply Forall_cons in HF as [(Hb & _) _]. rewrite <- Hp in Hb.
  unfold binds in Hb. simpl in Hb. rewrite orb_false_r in Hb. by apply Nat.eqb_eq in Hb.
Defined.

Definition copies : list StoredCredential := [plain "b1" "g" "" false; plain "b2" "g" "k" false].
Definition a_match (id : string) : CredentialMatch := mkMatch "q" id "dc+sd-jwt" "" "" [] [] false false [] [] [] [].

Lemma one_least_used_copy_witness :
  collapseBatchMatches (fun _ _ => 1%nat) [a_match "b1"; a_match "b2"] copies = [a_match "b2"] /\
  exists k, k ∈ collapseBatchMatches (fun _ _ => 1%nat) [a_match "b1"; a_match "b2"] copies /\
    uses_of copies k <= uses_of copies (a_match "b1").
Proof.
  split; [vm_compute; reflexivity|].
  destruct (proj2 (one_least_used_copy (fun _ _ => 1%nat) [a_match "b1"; a_match "b2"] copies (a_match "b1")
    ltac:(intros key n Hn; exact Hn) ltac:(by repeat constructor) ltac:(by left)) ltac:(by vm_compute))
    as (k & H1 & _ & _ & H2 & _).
  by exists k.
Defined.

Definition batch_wallet : Wallet := mkWallet copies ∅ 0 0 false.

Lemma rotation_is_fair_witness :
  exists w', rtc (rotate "g") batch_wallet w' /\ map Uses (Credentials w') = [1; 1] /\
    forall c c', c ∈ Credentials w' -> c' ∈ Credentials w' -> BatchGroup c = "g" -> BatchGroup c' = "g" ->
      Uses c <= Uses c' + 1.
Proof.
  set (w1 := fst (recordBatchPresentation batch_wallet (ID (plain "b1" "g" "" false)) zero_time)).
  set (w2 := fst (recordBatchPresentation w1 (ID (plain "b2" "g" "k" false)) zero_time)).
  exists w2.
  assert (Hr : rtc (rotate "g") batch_wallet w2).
  { apply (rtc_l _ _ w1); [|apply rtc_once].
    - apply rotate_step; [by left|done| |vm_compute; split; [discriminate|done]].
      intros c' Hc' _. simpl in Hc'. set_solver by (simpl; lia).
    - apply rotate_step; [vm_compute; by right; left|done| |vm_compute; split; [discriminate|done]].
      intros c' Hc' _. apply elem_of_cons in Hc' as [->|Hc']; [by vm_compute|].
      by apply list_elem_of_singleton in Hc' as ->. }
  split; [exact Hr|]. split; [vm_compute; reflexivity|].
  apply (rotation_is_fair "g" batch_wallet w2 Hr); [done|by_decide|].
  intros c c' Hc Hc' _ _. simpl in Hc, Hc'.
  apply elem_of_cons in Hc as [->|Hc%list_elem_of_singleton]; apply elem_of_cons in Hc' as [->|Hc'%list_elem_of_singleton];
    by subst.
Defined.
End BatchToy.
