(* ===== verification/Consent.v ===== *)
(** * Consent: the user's choices in the consent dialog

    internal/wallet/consent_selection.go: validating the choices against the
    options the evaluation offered, and the matches they lead to. *)

From Stdlib Require Import Ascii ZArith Lia.
From stdpp Require Import base list strings gmap.
From S2P Require Import Prelude GoStrings GoValue Format Validity SDJWT WalletState WalletStatus WalletStore ClaimPath DCQL DCQLFacts.

Local Open Scope Z_scope.

(** The fields of [ConsentResult] the selection reads; a nil [SelectedClaims]
    is [None]. *)
Record ConsentResult := mkConsent {
  SelectedClaims : option (gmap string (list string));
  Picks : gmap string (list string);
  SetChoices : list Z;
  ClaimSetChoices : gmap string Z }.

Inductive consent_error :=
| OffersNoSelection
| TooManyChoices (n sets : Z)
| SetRequired (i : Z)
| NoSuchOption (i choice : Z)
| AnswersNoSet
| UnknownQuery (qid : string)
| NoPick (qid : string)
| NotMultiple (qid : string) (n : Z)
| PickedTwice (cred qid : string)
| DoesNotMatch (cred qid : string)
| NothingToSend (qid : string)
| NoClaimSet (cred : string) (index : Z) (qid : string).

(** ** Lookups *)

Definition findConsentQuery (options : ConsentCredentialOptions) (id : string) : option ConsentQueryOptions :=
  find_map (fun q => if String.eqb (qo_ID q) id then Some q else None) (co_Queries options).

Definition findConsentCandidate (query : ConsentQueryOptions) (credentialID : string) : option CredentialMatch :=
  find_map (fun m => if String.eqb (CredentialID m) credentialID then Some m else None)
    (qo_Candidates query ++ qo_NonMatching query).

Definition findClaimSet (c : CredentialMatch) (index : Z) : option ConsentClaimSet :=
  find_map (fun s => if cs_Index s =? index then Some s else None) (ClaimSets c).

Definition defaultChoice (s : ConsentSetOptions) : Z :=
  if so_Optional s && (length (so_Unmatched s) =? length (so_Options s))%nat then -1 else 0.

(** [choice := set.defaultChoice(); if i < len(setChoices) { choice = setChoices[i] }]. *)
Definition choice_of (setChoices : list Z) (i : nat) (set : ConsentSetOptions) : Z :=
  match setChoices !! i with Some choice => choice | None => defaultChoice set end.

Definition pickedCandidates (query : ConsentQueryOptions) (credIDs : list string) : list CredentialMatch :=
  match List.filter (fun c => contains credIDs (CredentialID c)) (qo_Candidates query ++ qo_NonMatching query) with
  | [] =>
      match qo_Candidates query with
      | [] => []
      | c :: cs => if qo_Multiple query then c :: cs else [c]
      end
  | picked => picked
  end.

Definition picks_of (picks : gmap string (list string)) (qid : string) : list string := default [] (picks !! qid).

(** The option chosen in each set, in order. *)
Fixpoint chosen_options (setChoices : list Z) (i : nat) (sets : list ConsentSetOptions) : list (list string) :=
  match sets with
  | [] => []
  | set :: sets =>
      let choice := choice_of setChoices i set in
      if (choice <? 0) || (Z.of_nat (length (so_Options set)) <=? choice) then chosen_options setChoices (S i) sets
      else default [] (so_Options set !! Z.to_nat choice) :: chosen_options setChoices (S i) sets
  end.

Definition activeQueries (options : ConsentCredentialOptions) (setChoices : list Z) : list string :=
  match co_Sets options with
  | [] => qo_ID <$> co_Queries options
  | sets => dedup (concat (chosen_options setChoices 0 sets)) ∅
  end.

(** ** Validation *)

(** The loop over the sets; [true] when one is answered. *)
Fixpoint validate_sets (setChoices : list Z) (i : nat) (sets : list ConsentSetOptions) (answered : bool) :
    result consent_error bool :=
  match sets with
  | [] => Ok answered
  | set :: sets =>
      let choice := choice_of setChoices i set in
      if choice =? -1 then
        if so_Optional set then validate_sets setChoices (S i) sets answered
        else Err (SetRequired (Z.of_nat i))
      else if (choice <? 0) || (Z.of_nat (length (so_Options set)) <=? choice)
      then Err (NoSuchOption (Z.of_nat i) choice)
      else validate_sets setChoices (S i) sets true
  end.

Fixpoint validate_picked (query : ConsentQueryOptions) (credIDs : list string) (seen : gset string) :
    result consent_error unit :=
  match credIDs with
  | [] => Ok tt
  | credID :: credIDs =>
      if bool_decide (credID ∈ seen) then Err (PickedTwice credID (qo_ID query))
      else match findConsentCandidate query credID with
           | None => Err (DoesNotMatch credID (qo_ID query))
           | Some _ => validate_picked query credIDs ({[credID]} ∪ seen)
           end
  end.

(** The loop over the picks; Go's map order only decides which error is
    reported first. *)
Fixpoint validate_picks (options : ConsentCredentialOptions) (picks : list (string * list string)) :
    result consent_error unit :=
  match picks with
  | [] => Ok tt
  | (qid, credIDs) :: picks =>
      match findConsentQuery options qid with
      | None => Err (UnknownQuery qid)
      | Some query =>
          if (length credIDs =? 0)%nat then Err (NoPick qid)
          else if (1 <? length credIDs)%nat && negb (qo_Multiple query)
          then Err (NotMultiple qid (Z.of_nat (length credIDs)))
          else let? _ := validate_picked query credIDs ∅ in validate_picks options picks
      end
  end.

Definition validateClaimSetChoices (options : ConsentCredentialOptions) (picks : gmap string (list string))
    (claimSets : gmap string Z) : result consent_error unit :=
  match find_map (fun '(qid, index) =>
      match findConsentQuery options qid with
      | None => Some (UnknownQuery qid)
      | Some query =>
          find_map (fun c => match findClaimSet c index with
                             | None => Some (NoClaimSet (CredentialID c) index qid)
                             | Some _ => None
                             end) (pickedCandidates query (picks_of picks qid))
      end) (map_to_list claimSets) with
  | Some e => Err e
  | None => Ok tt
  end.

Definition validate_active (options : ConsentCredentialOptions) (picks : gmap string (list string))
    (setChoices : list Z) : result consent_error unit :=
  match find_map (fun qid =>
      match findConsentQuery options qid with
      | Some query => match pickedCandidates query (picks_of picks qid) with
                      | [] => Some (NothingToSend qid)
                      | _ => None
                      end
      | None => None
      end) (activeQueries options setChoices) with
  | Some e => Err e
  | None => Ok tt
  end.

Definition ValidateConsentSelection (options : option ConsentCredentialOptions) (r : ConsentResult) :
    result consent_error unit :=
  match options with
  | None =>
      if bool_decide (Picks r = ∅) && bool_decide (SetChoices r = []) && bool_decide (ClaimSetChoices r = ∅)
      then Ok tt else Err OffersNoSelection
  | Some options =>
      if (length (co_Sets options) <? length (SetChoices r))%nat
      then Err (TooManyChoices (Z.of_nat (length (SetChoices r))) (Z.of_nat (length (co_Sets options))))
      else
        let? answered := validate_sets (SetChoices r) 0 (co_Sets options)
                           (match co_Sets options with [] => true | _ => false end) in
        if negb answered then Err AnswersNoSet
        else
          let? _ := validate_picks options (map_to_list (Picks r)) in
          let? _ := validate_active options (Picks r) (SetChoices r) in
          validateClaimSetChoices options (Picks r) (ClaimSetChoices r)
  end.

Definition debugOnlySelection (options : option ConsentCredentialOptions) (r : ConsentResult) : bool :=
  match options with
  | None => false
  | Some options =>
      existsb (fun '(qid, credIDs) =>
        match findConsentQuery options qid with
        | None => false
        | Some query =>
            existsb (fun credID => existsb (fun m => String.eqb (CredentialID m) credID) (qo_NonMatching query)) credIDs
        end) (map_to_list (Picks r))
      || negb (bool_decide (ClaimSetChoices r = ∅))
  end.

(** ** Application *)

(** [needed] of [selectCredentials]; an out-of-range choice counts as 0 and
    the options of a set are never empty. *)
Fixpoint needed_options (setChoices : list Z) (i : nat) (sets : list ConsentSetOptions) : list (list string) :=
  match sets with
  | [] => []
  | set :: sets =>
      let choice := choice_of setChoices i set in
      if (choice =? -1) && so_Optional set then needed_options setChoices (S i) sets
      else
        let choice := if (choice <? 0) || (Z.of_nat (length (so_Options set)) <=? choice) then 0 else choice in
        default [] (so_Options set !! Z.to_nat choice) :: needed_options setChoices (S i) sets
  end.

Definition selectCredentials (options : ConsentCredentialOptions) (matches : list CredentialMatch) (r : ConsentResult) :
    list CredentialMatch :=
  if bool_decide (Picks r = ∅) && bool_decide (SetChoices r = []) then matches
  else
    let needed := match co_Sets options with
                  | [] => qo_ID <$> co_Queries options
                  | sets => dedup (concat (needed_options (SetChoices r) 0 sets)) ∅
                  end in
    let out := qid ← needed;
               match findConsentQuery options qid with
               | None => []
               | Some query => pickedCandidates query (picks_of (Picks r) qid)
               end in
    match out with [] => matches | _ => out end.

Definition with_selection (m : CredentialMatch) (keys : list string) (claims : object) : CredentialMatch :=
  mkMatch (QueryID m) (CredentialID m) (MFormat m) (MVCT m) (MDocType m) claims keys (UntrustedAuthority m)
    (Unbound m) (EmptyArrayClaims m) (MissingClaims m) (Mismatches m) (ClaimSets m).

Definition applyClaimSetChoices (selected : list CredentialMatch) (choices : gmap string Z) : list CredentialMatch :=
  map (fun m => match choices !! QueryID m with
                | None => m
                | Some index => match findClaimSet m index with
                                | None => m
                                | Some s => with_selection m (cs_Keys s) (cs_Claims s)
                                end
                end) selected.

Definition ApplyConsentSelection (options : option ConsentCredentialOptions) (matches : list CredentialMatch)
    (r : ConsentResult) : list CredentialMatch :=
  match options with
  | None => matches
  | Some options => applyClaimSetChoices (selectCredentials options matches r) (ClaimSetChoices r)
  end.

(** [applySelectedClaims]: strict mode lets a selection withhold a claim but
    not add one. *)
Definition applySelectedClaims (mode : ValidationMode) (w : Wallet) (matches : list CredentialMatch)
    (selected : option (gmap string (list string))) : list CredentialMatch :=
  match selected with
  | None => matches
  | Some selected =>
      map (fun m =>
        match selected !! CredentialID m with
        | None => m
        | Some keys =>
            let keys := if is_strict mode then List.filter (contains (SelectedKeys m)) keys else keys in
            match GetCredential w (CredentialID m) with
            | None => m
            | Some cred => with_selection m keys (filterClaims cred keys)
            end
        end) matches
  end.

(** ** Offered options *)

(** Options as the evaluation builds them: one entry per query, its
    credentials listed once, and set options over listed queries. *)
Record wf_options (o : ConsentCredentialOptions) : Prop := {
  wf_ids : NoDup (qo_ID <$> co_Queries o);
  wf_creds : forall q, q ∈ co_Queries o ->
    NoDup (CredentialID <$> qo_Candidates q ++ qo_NonMatching q) /\
    Forall (fun m => QueryID m = qo_ID q) (qo_Candidates q ++ qo_NonMatching q);
  wf_sets : forall s opt id, s ∈ co_Sets o -> opt ∈ so_Options s -> id ∈ opt ->
    is_Some (findConsentQuery o id) }.

(** A credential offered for a query. *)
Definition offered (o : ConsentCredentialOptions) (m : CredentialMatch) : Prop :=
  exists q, q ∈ co_Queries o /\ m ∈ qo_Candidates q ++ qo_NonMatching q.

Lemma findConsentQuery_Some o id q : findConsentQuery o id = Some q -> q ∈ co_Queries o /\ qo_ID q = id.
Proof.
  unfold findConsentQuery. intros (x & Hx & Hf)%find_map_Some.
  destruct (String.eqb_spec (qo_ID x) id); by simplify_eq.
Qed.

Lemma findConsentQuery_elem o q :
  wf_options o -> q ∈ co_Queries o -> findConsentQuery o (qo_ID q) = Some q.
Proof.
  intros Hwf Hq. pose proof (wf_ids o Hwf) as Hn. unfold findConsentQuery. clear Hwf.
  induction (co_Queries o) as [|x qs IH]; [set_solver|]. simpl. rewrite fmap_cons in Hn.
  apply NoDup_cons in Hn as [Hx Hn]. destruct (String.eqb_spec (qo_ID x) (qo_ID q)) as [He|Hne].
  - apply elem_of_cons in Hq as [->|Hq]; [done|]. destruct Hx. rewrite He. apply list_elem_of_fmap. by exists q.
  - apply elem_of_cons in Hq as [->|Hq]; [done|]. by apply IH.
Qed.

Lemma pickedCandidates_elem q ids m :
  m ∈ pickedCandidates q ids -> m ∈ qo_Candidates q ++ qo_NonMatching q.
Proof.
  unfold pickedCandidates. destruct (List.filter _ _) as [|p ps] eqn:Ef.
  - destruct (qo_Candidates q) as [|c cs]; [set_solver|]. destruct (qo_Multiple q); set_solver.
  - rewrite <- Ef. by intros [? _]%elem_of_Lfilter.
Qed.

(** Without a non-matching pick, what is picked matches the query. *)
Lemma pickedCandidates_matching q ids m :
  existsb (fun id => existsb (fun m => String.eqb (CredentialID m) id) (qo_NonMatching q)) ids = false ->
  m ∈ pickedCandidates q ids -> m ∈ qo_Candidates q.
Proof.
  intros Hno. unfold pickedCandidates. destruct (List.filter _ _) as [|p ps] eqn:Ef.
  - destruct (qo_Candidates q) as [|c cs]; [set_solver|]. destruct (qo_Multiple q); set_solver.
  - rewrite <- Ef. intros [Hm Hc]%elem_of_Lfilter. apply elem_of_app in Hm as [|Hm]; [done|].
    apply contains_spec in Hc. apply not_true_iff_false in Hno. destruct Hno.
    apply existsb_elem. exists (CredentialID m). split; [done|]. apply existsb_elem. exists m.
    by rewrite String.eqb_refl.
Qed.

(** A query that does not set [multiple] gets one credential for one pick. *)
Lemma pickedCandidates_one q ids :
  qo_Multiple q = false -> (length ids <= 1)%nat ->
  NoDup (CredentialID <$> qo_Candidates q ++ qo_NonMatching q) -> (length (pickedCandidates q ids) <= 1)%nat.
Proof.
  intros Hm Hl Hn. unfold pickedCandidates. destruct (List.filter _ _) as [|p ps] eqn:Ef.
  - destruct (qo_Candidates q); [simpl; lia|]. rewrite Hm. simpl. lia.
  - rewrite <- Ef. clear p ps Ef. set (l := qo_Candidates q ++ qo_NonMatching q) in *.
    induction l as [|x l IH]; simpl; [lia|]. rewrite fmap_cons in Hn. apply NoDup_cons in Hn as [Hx Hn].
    destruct (contains ids (CredentialID x)) eqn:Ec; simpl; [|by apply IH].
    enough (Hnil : List.filter (fun c => contains ids (CredentialID c)) l = []) by (rewrite Hnil; simpl; lia).
    destruct ids as [|id [|id' ids]]; [by apply contains_spec in Ec; set_solver| |simpl in Hl; lia].
    apply contains_spec, list_elem_of_singleton in Ec.
    destruct (List.filter _ l) as [|y ys] eqn:Ef; [done|]. exfalso. apply Hx.
    assert (Hy : y ∈ y :: ys) by (by left). rewrite <- Ef in Hy.
    apply elem_of_Lfilter in Hy as [Hy Hc]. apply contains_spec, list_elem_of_singleton in Hc.
    apply list_elem_of_fmap. exists y. split; [congruence|done].
Qed.

(** ** Validated choices *)

Lemma validate_picks_spec o picks qid ids :
  validate_picks o picks = Ok tt -> (qid, ids) ∈ picks ->
  exists q, findConsentQuery o qid = Some q /\ ids <> [] /\ (qo_Multiple q = false -> (length ids <= 1)%nat) /\
    validate_picked q ids ∅ = Ok tt.
Proof.
  induction picks as [|[qid' ids'] picks IH]; intros H Hin; simpl in *; [set_solver|].
  destruct (findConsentQuery o qid') as [q|] eqn:Eq; [|done].
  destruct (length ids' =? 0)%nat eqn:E0; [done|]. destruct (_ && _) eqn:E1; [done|].
  destruct (validate_picked q ids' ∅) as [[]|] eqn:Ev; [|done].
  apply elem_of_cons in Hin as [[= -> ->]|Hin]; [|by apply IH]. exists q. split; [done|].
  split; [by destruct ids'|]. split; [|done]. intros Hm. rewrite Hm in E1. simpl in E1.
  rewrite andb_true_r in E1. by apply Nat.ltb_ge in E1.
Qed.

Lemma validate_picked_offered q ids seen id :
  validate_picked q ids seen = Ok tt -> id ∈ ids ->
  exists m, m ∈ qo_Candidates q ++ qo_NonMatching q /\ CredentialID m = id.
Proof.
  revert seen; induction ids as [|x ids IH]; intros seen H Hin; simpl in *; [set_solver|].
  case_bool_decide; [done|]. destruct (findConsentCandidate q x) as [m|] eqn:Ef; [|done].
  apply elem_of_cons in Hin as [->|Hin]; [|by eapply IH].
  unfold findConsentCandidate in Ef. apply find_map_Some in Ef as (y & Hy & Hf).
  destruct (String.eqb_spec (CredentialID y) x); simplify_eq. by exists m.
Qed.

(** Valid choices of the sets lead [selectCredentials] and [activeQueries] to
    the same options, and a required set is never skipped. *)
Lemma validate_sets_options choices i sets a a' :
  validate_sets choices i sets a = Ok a' ->
  needed_options choices i sets = chosen_options choices i sets /\
  (forall j s, sets !! j = Some s -> so_Optional s = false ->
     exists opt, opt ∈ so_Options s /\ opt ∈ needed_options choices i sets) /\
  (forall opt, opt ∈ needed_options choices i sets -> exists s, s ∈ sets /\ opt ∈ so_Options s).
Proof.
  revert i a; induction sets as [|s sets IH]; intros i a H; simpl in *; [set_solver|].
  destruct (Z.eqb_spec (choice_of choices i s) (-1)) as [He|He]; simpl.
  - destruct (so_Optional s) eqn:Eo; [|done]. destruct (IH _ _ H) as (H1 & H2 & H3). rewrite He. simpl.
    split; [done|]. split; [|intros opt Ho; destruct (H3 opt Ho) as (x & ? & ?); exists x; set_solver].
    intros [|j] x Hj Hx; simpl in Hj; [congruence|eauto].
  - destruct ((choice_of choices i s <? 0) || _) eqn:Eb; [done|]. destruct (IH _ _ H) as (H1 & H2 & H3).
    apply orb_false_iff in Eb as [Hl Hr]. apply Z.ltb_ge in Hl. apply Z.leb_gt in Hr.
    destruct (lookup_lt_is_Some_2 (so_Options s) (Z.to_nat (choice_of choices i s))) as [opt Hopt]; [lia|].
    rewrite Hopt. simpl. assert (Hin : opt ∈ so_Options s) by (by eapply list_elem_of_lookup_2).
    split; [by rewrite H1|]. split.
    + intros [|j] x Hj Hx; simpl in Hj; [simplify_eq; exists opt; set_solver|].
      destruct (H2 j x Hj Hx) as (o & ? & ?). exists o. set_solver.
    + intros o Ho. apply elem_of_cons in Ho as [->|Ho]; [exists s; set_solver|].
      destruct (H3 o Ho) as (x & ? & ?). exists x. set_solver.
Qed.

Lemma dedup_in l seen s : s ∈ dedup l seen -> s ∈ l.
Proof.
  revert seen; induction l as [|x l IH]; intros seen H; simpl in *; [done|].
  case_bool_decide; [right; by eapply IH|]. apply elem_of_cons in H as [->|H]; [by left|right; by eapply IH].
Qed.

Lemma dedup_NoDup l seen : NoDup (dedup l seen) /\ (forall s, s ∈ dedup l seen -> s ∉ seen).
Proof.
  revert seen; induction l as [|x l IH]; intros seen; simpl; [split; [constructor|set_solver]|].
  case_bool_decide as Hx; [apply IH|]. destruct (IH ({[x]} ∪ seen)) as [H1 H2]. split.
  - constructor; [|done]. intros Hin. apply H2 in Hin. set_solver.
  - intros s Hs. apply elem_of_cons in Hs as [->|Hs]; [done|]. apply H2 in Hs. set_solver.
Qed.

(** What [selectCredentials] sends for one query. *)
Definition sent_for (o : ConsentCredentialOptions) (r : ConsentResult) (qid : string) : list CredentialMatch :=
  match findConsentQuery o qid with
  | None => []
  | Some query => pickedCandidates query (picks_of (Picks r) qid)
  end.

Lemma sent_for_offered o r qid m :
  wf_options o -> m ∈ sent_for o r qid -> offered o m /\ QueryID m = qid.
Proof.
  intros Hwf. unfold sent_for. destruct (findConsentQuery o qid) as [q|] eqn:Eq; [|set_solver].
  apply findConsentQuery_Some in Eq as [Hq Hid]. intros Hm%pickedCandidates_elem. split; [by exists q|].
  destruct (wf_creds o Hwf q Hq) as [_ HF]. rewrite Forall_forall in HF. by rewrite HF.
Qed.

Lemma answers_bind (f : string -> list CredentialMatch) qids id :
  NoDup qids -> (forall q m, m ∈ f q -> QueryID m = q) ->
  (length (answers (qids ≫= f) id) <= length (f id))%nat.
Proof.
  intros Hn Hf. unfold answers.
  assert (Hother : forall q, q <> id -> List.filter (fun m => String.eqb (QueryID m) id) (f q) = []).
  { intros q Hne. destruct (List.filter _ (f q)) as [|x l] eqn:E; [done|]. exfalso.
    assert (Hx : x ∈ x :: l) by (by left). rewrite <- E in Hx.
    apply elem_of_Lfilter in Hx as [Hx He%String.eqb_eq]. by rewrite (Hf q x Hx) in He. }
  assert (Hnone : forall qs, id ∉ qs -> List.filter (fun m => String.eqb (QueryID m) id) (qs ≫= f) = []).
  { induction qs as [|q qs IH]; intros Hq; [done|]. change ((q :: qs) ≫= f) with (f q ++ (qs ≫= f)).
    rewrite List.filter_app, Hother, IH by set_solver. done. }
  induction qids as [|q qids IH]; [simpl; lia|]. apply NoDup_cons in Hn as [Hq Hn].
  change ((q :: qids) ≫= f) with (f q ++ (qids ≫= f)). rewrite List.filter_app.
  destruct (decide (q = id)) as [->|Hne].
  - rewrite Hnone, app_nil_r by done. rewrite Lfilter_all; [done|]. intros m Hm. rewrite (Hf id m Hm).
    apply String.eqb_refl.
  - rewrite Hother by done. by apply IH.
Qed.

(** The queries a non-default choice sends credentials for. *)
Definition needed_ids (o : ConsentCredentialOptions) (r : ConsentResult) : list string :=
  match co_Sets o with
  | [] => qo_ID <$> co_Queries o
  | sets => dedup (concat (needed_options (SetChoices r) 0 sets)) ∅
  end.

Lemma selectCredentials_out o ms r :
  Picks r <> ∅ \/ SetChoices r <> [] ->
  selectCredentials o ms r =
    match needed_ids o r ≫= sent_for o r with [] => ms | _ => needed_ids o r ≫= sent_for o r end.
Proof.
  intros H. unfold selectCredentials. destruct (bool_decide (Picks r = ∅) && bool_decide (SetChoices r = [])) eqn:E.
  - apply andb_true_iff in E as [?%bool_decide_eq_true ?%bool_decide_eq_true]. tauto.
  - done.
Qed.

Lemma ValidateConsentSelection_inv o r :
  ValidateConsentSelection (Some o) r = Ok tt ->
  needed_ids o r = activeQueries o (SetChoices r) /\
  (forall s, s ∈ co_Sets o -> so_Optional s = false ->
     exists opt, opt ∈ so_Options s /\ forall id, id ∈ opt -> id ∈ needed_ids o r) /\
  validate_picks o (map_to_list (Picks r)) = Ok tt /\
  (forall qid q, qid ∈ activeQueries o (SetChoices r) -> findConsentQuery o qid = Some q ->
     pickedCandidates q (picks_of (Picks r) qid) <> []).
Proof.
  unfold ValidateConsentSelection. intros H. destruct (_ <? _)%nat; [done|].
  destruct (validate_sets _ _ _ _) as [a|] eqn:Es; [|done]. destruct a; [|done]. simpl in H.
  destruct (validate_picks o _) as [[]|] eqn:Ep; [|done].
  destruct (validate_active o _ _) as [[]|] eqn:Ea; [|done]. clear H.
  destruct (validate_sets_options _ _ _ _ _ Es) as (H1 & H2 & _).
  assert (Hn : needed_ids o r = activeQueries o (SetChoices r)).
  { unfold needed_ids, activeQueries. destruct (co_Sets o) eqn:E; [done|]. by rewrite H1. }
  split; [done|]. split; [|split; [done|]].
  - intros s Hs Hopt. apply list_elem_of_lookup in Hs as [j Hj]. destruct (H2 j s Hj Hopt) as (opt & Hin & Hne).
    exists opt. split; [done|]. intros id Hid. unfold needed_ids.
    destruct (co_Sets o) as [|s0 sets] eqn:E; [done|]. apply dedup_elem; [|set_solver].
    apply list_elem_of_In, in_concat. exists opt. by rewrite <- !list_elem_of_In.
  - intros qid q Hq Hf Hnil. unfold validate_active in Ea. destruct (find_map _ _) eqn:Ef; [done|].
    rewrite find_map_None in Ef. specialize (Ef qid Hq). by rewrite Hf, Hnil in Ef.
Qed.

Section validated.
Context (o : ConsentCredentialOptions) (ms : list CredentialMatch) (r : ConsentResult)
  (Hwf : wf_options o) (Hv : ValidateConsentSelection (Some o) r = Ok tt)
  (Hch : Picks r <> ∅ \/ SetChoices r <> []).

Lemma selection_answers qid :
  qid ∈ needed_ids o r -> is_Some (findConsentQuery o qid) ->
  exists m, m ∈ selectCredentials o ms r /\ QueryID m = qid.
Proof using Hwf Hv Hch.
  intros Hq [q Hf]. destruct (ValidateConsentSelection_inv o r Hv) as (Hact & _ & _ & Hpick).
  rewrite selectCredentials_out by done. rewrite Hact in Hq. specialize (Hpick qid q Hq Hf).
  destruct (pickedCandidates q (picks_of (Picks r) qid)) as [|m l] eqn:E; [done|]. exists m.
  assert (Hm : m ∈ sent_for o r qid) by (unfold sent_for; rewrite Hf, E; by left).
  split; [|by eapply sent_for_offered].
  assert (Hs : m ∈ needed_ids o r ≫= sent_for o r) by (apply list_elem_of_bind; exists qid; by rewrite Hact).
  destruct (needed_ids o r ≫= sent_for o r); [set_solver|done].
Qed.

Lemma selection_offered : Forall (offered o) ms -> Forall (offered o) (selectCredentials o ms r).
Proof using Hwf Hch.
  intros Hoff. rewrite selectCredentials_out by done.
  destruct (needed_ids o r ≫= sent_for o r) as [|m0 l] eqn:Es; [done|]. rewrite <- Es.
  apply Forall_forall. intros m Hm. apply list_elem_of_bind in Hm as (qid & Hm & _). by eapply sent_for_offered.
Qed.

Lemma selection_one q :
  q ∈ co_Queries o -> qo_Multiple q = false -> (length (answers ms (qo_ID q)) <= 1)%nat ->
  (length (answers (selectCredentials o ms r) (qo_ID q)) <= 1)%nat.
Proof using Hwf Hv Hch.
  intros Hq Hmul Hone. destruct (ValidateConsentSelection_inv o r Hv) as (_ & _ & Hp & _). rewrite selectCredentials_out by done.
  destruct (needed_ids o r ≫= sent_for o r) as [|m0 l] eqn:Es; [done|]. rewrite <- Es. etrans.
  { apply answers_bind; [|intros x m Hm; by eapply sent_for_offered].
    unfold needed_ids. destruct (co_Sets o); [apply Hwf|apply dedup_NoDup]. }
  unfold sent_for. rewrite (findConsentQuery_elem o q Hwf Hq).
  apply pickedCandidates_one; [done| |by apply (wf_creds o Hwf q Hq)].
  unfold picks_of. destruct (Picks r !! qo_ID q) as [ids|] eqn:Ep; simpl; [|lia].
  apply elem_of_map_to_list in Ep. destruct (validate_picks_spec _ _ _ _ Hp Ep) as (q' & Hf & _ & Hl & _).
  rewrite (findConsentQuery_elem o q Hwf Hq) in Hf. simplify_eq. by apply Hl.
Qed.
End validated.

(** Validated choices send what was offered and nothing less than
    required.  If the user changed anything and the choices validate, every
    credential sent was offered in the dialog; a query that does not set
    [multiple] sends at most one; every query of the chosen options sends at
    least one; and each required set has an option all of whose queries are
    answered.  (The automatic selection must itself be offered and hold one
    credential per such query: it is kept when the chosen options name no
    query.) *)
Theorem consent_selection_sound o ms r :
  wf_options o -> ValidateConsentSelection (Some o) r = Ok tt ->
  Picks r <> ∅ \/ SetChoices r <> [] ->
  Forall (offered o) ms -> (forall q, q ∈ co_Queries o -> qo_Multiple q = false -> (length (answers ms (qo_ID q)) <= 1)%nat) ->
  let out := selectCredentials o ms r in
  Forall (offered o) out /\
  (forall q, q ∈ co_Queries o -> qo_Multiple q = false -> (length (answers out (qo_ID q)) <= 1)%nat) /\
  (forall qid, qid ∈ activeQueries o (SetChoices r) -> is_Some (findConsentQuery o qid) ->
     exists m, m ∈ out /\ QueryID m = qid) /\
  (forall s, s ∈ co_Sets o -> so_Optional s = false ->
     exists opt, opt ∈ so_Options s /\ forall id, id ∈ opt -> exists m, m ∈ out /\ QueryID m = id).
Proof.
  intros Hwf Hv Hch Hoff Hone out. destruct (ValidateConsentSelection_inv o r Hv) as (Hact & Hreq & _).
  split; [by apply selection_offered|]. split; [intros q Hq Hm; apply selection_one; auto|].
  split; [intros qid Hq; apply selection_answers; by rewrite ?Hact|].
  intros s Hs Hopt. destruct (Hreq s Hs Hopt) as (opt & Hin & Hall). exists opt. split; [done|].
  intros id Hid. apply selection_answers; [done..|by apply Hall|]. by apply (wf_sets o Hwf s opt id).
Qed.
