(* ===== verification/ConsentFacts.v ===== *)
(** * ConsentFacts: from the evaluation of a query to the claims sent

    The options an evaluation offers are well formed, so the theorems on
    consent choices apply to every request; and whatever the user picks, no
    claim beyond the matching candidates' selections is disclosed in strict
    mode. *)

From Stdlib Require Import Ascii ZArith Lia.
From stdpp Require Import base list strings gmap sorting.
From S2P Require Import Prelude GoStrings GoValue Format Validity CredType SDJWT WalletState WalletStatus WalletStore.
From S2P Require Import ClaimPath DCQL DCQLFacts Consent.

Local Open Scope Z_scope.

Lemma only_nonmatching_NoDup cands non cqs order : NoDup order -> NoDup (only_nonmatching cands non cqs order).
Proof.
  revert order; induction cqs as [|cq cqs IH]; intros order H; simpl; [done|]. apply IH.
  destruct (_ && _ && _) eqn:E; [|done]. apply andb_true_iff in E as [_ E]. apply negb_true_iff, contains_false in E.
  apply NoDup_app. split; [done|]. split; [set_solver|apply NoDup_singleton].
Qed.

Lemma only_nonmatching_id cands non cqs order id :
  id ∈ object_ids cqs -> answered cands id = true \/ answered non id = true ->
  (answered cands id = true -> id ∈ order) -> id ∈ only_nonmatching cands non cqs order.
Proof.
  unfold object_ids. revert order; induction cqs as [|cq cqs IH]; intros order Hin Ha Hc; simpl in *; [set_solver|].
  destruct (answered cands id) eqn:Ec; [apply only_nonmatching_elem; destruct (_ && _); set_solver|].
  destruct Ha as [|Ha]; [done|].
  destruct (as_obj cq) as [m|] eqn:Eo; simpl in Hin.
  - apply elem_of_cons in Hin as [->|Hin].
    + simpl. apply only_nonmatching_elem. rewrite Ec, Ha. simpl.
      destruct (contains order (get_string m "id")) eqn:Ek; simpl; [by apply contains_spec in Ek|set_solver].
    + apply IH; [done|by right|done].
  - apply IH; [done|by right|done].
Qed.

Lemma answered_elem ms id : answered ms id = true <-> exists m, m ∈ ms /\ QueryID m = id.
Proof. unfold answered. rewrite existsb_elem. by setoid_rewrite String.eqb_eq. Qed.

Lemma elem_of_answers ms id m : m ∈ answers ms id <-> m ∈ ms /\ QueryID m = id.
Proof. unfold answers. by rewrite elem_of_Lfilter, String.eqb_eq. Qed.

Section wf.
Context {J : Json} {R : CredentialReader}.

Definition match_of (v : verdict) : option CredentialMatch :=
  match v with Matched m | NonMatching m => Some m | Skipped => None end.

Lemma evaluate_credential_match mode cqMap taList anchors cred m :
  match_of (evaluate_credential mode cqMap taList anchors cred) = Some m ->
  QueryID m = get_string cqMap "id" /\ CredentialID m = ID cred.
Proof.
  unfold evaluate_credential. destruct (binding_verdict _ _ _).
  destruct (claim_mismatches _ _ _); [destruct (_ && negb _)|destruct (is_debug mode)]; intros [= <-]; done.
Qed.

(** Every credential gives at most one verdict with a match per query. *)
Lemma verdict_ids f (creds : list StoredCredential) :
  (forall c m, match_of (f c) = Some m -> CredentialID m = ID c) ->
  (CredentialID <$> filter_map matched (map f creds) ++ filter_map nonmatched (map f creds)) ⊆+ (ID <$> creds).
Proof.
  intros Hf. induction creds as [|c creds IH]; [done|]. simpl. specialize (Hf c).
  rewrite fmap_app in *. destruct (f c) as [m|m|]; simpl in *.
  - rewrite (Hf m eq_refl). by apply submseteq_skip.
  - rewrite (Hf m eq_refl), <- Permutation_middle. by apply submseteq_skip.
  - by apply submseteq_cons.
Qed.

Lemma answers_all ms id : Forall (fun m => QueryID m = id) ms -> answers ms id = ms.
Proof.
  intros H. unfold answers. apply Lfilter_all. intros m Hm. rewrite Forall_forall in H. rewrite (H m Hm).
  apply String.eqb_refl.
Qed.

Lemma answers_none ms id id' : id <> id' -> Forall (fun m => QueryID m = id') ms -> answers ms id = [].
Proof.
  intros Hne H. unfold answers. induction H as [|m ms Hm H IH]; simpl; [done|].
  rewrite Hm. destruct (String.eqb_spec id' id); [congruence|done].
Qed.

Lemma evaluate_ids mode creds cqs verdicts id :
  NoDup (object_ids cqs) -> evaluate_queries mode creds cqs = Ok verdicts ->
  let ms := filter_map matched verdicts in
  let non := filter_map nonmatched verdicts in
  (id ∉ object_ids cqs -> answers ms id = [] /\ answers non id = []) /\
  (CredentialID <$> answers ms id ++ answers non id) ⊆+ (ID <$> creds).
Proof.
  revert verdicts; induction cqs as [|cq cqs IH]; intros verdicts Hn H; simpl in H; simplify_eq.
  { split; [done|]. apply submseteq_nil_l. }
  destruct cq as [| | | | | | | | | |cqMap]; try (by apply IH).
  change (object_ids (VObj cqMap :: cqs)) with (get_string cqMap "id" :: object_ids cqs) in *.
  apply NoDup_cons in Hn as [Hid Hn]. destruct (is_strict mode && _); [done|].
  destruct (evaluate_queries mode creds cqs) as [rest|] eqn:Er; simplify_eq.
  destruct (IH rest Hn eq_refl) as [H1 H2]. clear IH.
  set (f := evaluate_credential mode cqMap _ _) in *.
  assert (Hf : forall c m, match_of (f c) = Some m -> QueryID m = get_string cqMap "id" /\ CredentialID m = ID c)
    by (intros c m; apply evaluate_credential_match).
  assert (Hq : Forall (fun m => QueryID m = get_string cqMap "id") (filter_map matched (map f creds)) /\
               Forall (fun m => QueryID m = get_string cqMap "id") (filter_map nonmatched (map f creds))).
  { split; apply Forall_forall; intros m (v & Hv & Hm)%elem_of_filter_map;
      apply list_elem_of_fmap in Hv as (c & -> & _); apply (Hf c);
      destruct (f c); by simplify_eq/=. }
  destruct Hq as [Hq1 Hq2]. rewrite !filter_map_app.
  assert (Happ : forall l1 l2, answers (l1 ++ l2) id = answers l1 id ++ answers l2 id)
    by (intros; apply List.filter_app). cbv zeta. rewrite !Happ.
  destruct (decide (id = get_string cqMap "id")) as [->|Hne].
  - split; [set_solver|]. destruct (H1 Hid) as [-> ->]. rewrite !app_nil_r, !answers_all by done.
    apply verdict_ids. intros c m Hm. by apply Hf.
  - rewrite (answers_none _ id _ Hne Hq1), (answers_none _ id _ Hne Hq2). simpl. split; [|done]. set_solver.
Qed.

Lemma collapse_answers rnd ms creds id : sublist (answers (collapseBatchMatches rnd ms creds) id) (answers ms id).
Proof.
  pose proof (collapse_sublist rnd ms creds) as H. unfold answers.
  induction H as [|m l k H IH|m l k H IH]; simpl; [done| |].
  - destruct (String.eqb _ _); [by constructor|done].
  - destruct (String.eqb _ _); [by constructor|done].
Qed.

Lemma answers_perm ms ms' id : ms ≡ₚ ms' -> answers ms id ≡ₚ answers ms' id.
Proof.
  unfold answers. induction 1 as [|m l k H IH|m m' l|l k j H1 IH1 H2 IH2]; simpl; try done.
  - destruct (String.eqb _ _); [by constructor|done].
  - destruct (String.eqb _ _), (String.eqb _ _); try done. constructor.
  - by etrans.
Qed.

(** The ids of a candidate list and a non-matching list derived from the
    verdicts, for one query. *)
Lemma offered_ids mode pref rnd rnd' creds cqs verdicts id :
  NoDup (object_ids cqs) -> NoDup (ID <$> creds) -> evaluate_queries mode creds cqs = Ok verdicts ->
  let cands := order_candidates pref creds (collapseBatchMatches rnd (filter_map matched verdicts) creds) in
  let non := sortMatchesNewestFirst (issued_of creds)
               (collapseBatchMatches rnd' (filter_map nonmatched verdicts) creds) in
  NoDup (CredentialID <$> answers cands id ++ answers non id) /\
  (forall m, m ∈ cands \/ m ∈ non -> QueryID m ∈ object_ids cqs).
Proof.
  intros Hn Hc Hv cands non. destruct (evaluate_ids mode creds cqs verdicts id Hn Hv) as [_ Hsub].
  assert (Hcp : cands ≡ₚ collapseBatchMatches rnd (filter_map matched verdicts) creds) by apply order_candidates_perm.
  assert (Hnp : non ≡ₚ collapseBatchMatches rnd' (filter_map nonmatched verdicts) creds) by apply slice_stable_perm.
  split.
  - assert (Hs : answers cands id ++ answers non id ⊆+
                 answers (filter_map matched verdicts) id ++ answers (filter_map nonmatched verdicts) id).
    { apply submseteq_app; [rewrite (answers_perm _ _ id Hcp)|rewrite (answers_perm _ _ id Hnp)];
        apply sublist_submseteq, collapse_answers. }
    assert (Hsub' : (CredentialID <$> answers cands id ++ answers non id) ⊆+ (ID <$> creds))
      by (etrans; [apply fmap_submseteq, Hs|exact Hsub]).
    apply submseteq_Permutation in Hsub' as [k Hk]. rewrite Hk in Hc. by apply NoDup_app in Hc as [? _].
  - intros m Hm. destruct (decide (QueryID m ∈ object_ids cqs)) as [|Hno]; [done|]. exfalso.
    destruct (evaluate_ids mode creds cqs verdicts (QueryID m) Hn Hv) as [Hnone _].
    destruct (Hnone Hno) as [H1 H2]. destruct Hm as [Hm|Hm].
    + rewrite Hcp in Hm. apply collapse_elem in Hm.
      assert (Hin : m ∈ answers (filter_map matched verdicts) (QueryID m)) by (by apply elem_of_answers).
      rewrite H1 in Hin. set_solver.
    + rewrite Hnp in Hm. apply collapse_elem in Hm.
      assert (Hin : m ∈ answers (filter_map nonmatched verdicts) (QueryID m)) by (by apply elem_of_answers).
      rewrite H2 in Hin. set_solver.
Qed.

Lemma find_in_order o id : id ∈ (qo_ID <$> co_Queries o) -> is_Some (findConsentQuery o id).
Proof.
  intros Hin. apply list_elem_of_fmap in Hin as (q & -> & Hq). unfold findConsentQuery.
  destruct (find_map _ _) as [x|] eqn:E; [by eauto|]. rewrite find_map_None in E. specialize (E q Hq).
  by rewrite String.eqb_refl in E.
Qed.

Lemma set_options_ids cands non pref cs s opt id :
  set_options cands non pref cs = Some s -> opt ∈ so_Options s -> id ∈ opt ->
  answered cands id = true \/ answered non id = true.
Proof.
  unfold set_options. destruct cs as [| | | | | | | | | |csMap]; try done.
  destruct (as_arr (index csMap "options")) as [raw|]; [|done].
  set (ordered := orderOptionsByPreferredFormat raw cands pref).
  intros H Hopt Hid. assert (Hin : opt ∈ so_Options s -> opt ∈ filter_map (satisfiableOption (answered cands)) ordered \/
    exists o, o ∈ ordered /\ satisfiableOption (fun id => answered cands id || answered non id) o = Some opt).
  { destruct (filter_map (satisfiableOption (answered cands)) ordered ++ _) as [|x l] eqn:E; [done|].
    injection H as <-. simpl. rewrite <- E. intros [Hin|Hin]%elem_of_app; [by left|right].
    apply elem_of_filter_map in Hin as (o & Ho & Hf). exists o. split; [done|].
    by destruct (satisfiableOption (answered cands) o). }
  destruct (Hin Hopt) as [Hs|(o & _ & Hs)].
  - apply elem_of_filter_map in Hs as (o & _ & Hs). apply satisfiableOption_spec in Hs as [_ Hall]. left. auto.
  - apply satisfiableOption_spec in Hs as [_ Hall]. by apply orb_true_iff, Hall.
Qed.

Lemma built_options_wf mode pref rnd rnd' creds query ms o :
  EvaluateDCQLWithOptions mode pref rnd rnd' creds query = Ok (Some ms, Some o) ->
  NoDup (object_ids (get_arr (default [] query) "credentials")) -> NoDup (ID <$> creds) ->
  wf_options o.
Proof.
  intros H Hn Hc. apply evaluate_inv in H as (_ & verdicts & Hv & _ & _ & Ho).
  pose proof (fun id => offered_ids mode pref rnd rnd' creds _ verdicts id Hn Hc Hv) as Hids. cbv zeta in Hids.
  set (cands := order_candidates _ _ _) in *. set (non := sortMatchesNewestFirst _ _) in *.
  set (cqs := get_arr (default [] query) "credentials") in *.
  set (order := only_nonmatching cands non cqs (dedup (QueryID <$> cands) ∅)).
  assert (Ho' : exists sets, o = mkOptions (filter_map (set_options cands non pref) sets)
    (map (fun id => mkQueryOptions id (bool_decide (id ∈ multipleQueries cqs)) (answers cands id) (answers non id)) order)).
  { unfold buildConsentCredentialOptions in Ho. eexists. destruct cands, non; simplify_eq; reflexivity. }
  destruct Ho' as [sets ->]. clear Ho.
  assert (Hord : qo_ID <$> map (fun id => mkQueryOptions id (bool_decide (id ∈ multipleQueries cqs))
      (answers cands id) (answers non id)) order = order).
  { change (map ?f ?l) with (f <$> l). rewrite <- list_fmap_compose. apply list_fmap_id. }
  split.
  - simpl. rewrite Hord. apply only_nonmatching_NoDup, dedup_NoDup.
  - intros q Hq. simpl in Hq. apply list_elem_of_fmap in Hq as (id & -> & _). simpl. split; [apply Hids|].
    apply Forall_app. split; apply Forall_forall; intros m Hm; by apply elem_of_answers in Hm as [_ ?].
  - intros s opt id Hs Hopt Hid. apply find_in_order. simpl. rewrite Hord.
    simpl in Hs. apply elem_of_filter_map in Hs as (cs & _ & Hs).
    pose proof (set_options_ids _ _ _ _ _ _ _ Hs Hopt Hid) as Ha. apply only_nonmatching_id; [|done|].
    + destruct Ha as [Ha|Ha]; apply answered_elem in Ha as (m & Hm & <-); apply (Hids ""); [by left|by right].
    + intros Ha'. apply answered_elem in Ha' as (m & Hm & <-). apply dedup_elem; [|set_solver].
      apply list_elem_of_fmap. by exists m.
Qed.

(** The options an evaluation offers are well formed: one entry per
    credential query, under which every credential is offered at most once
    (matching or not), and every option of a credential set names offered
    queries only.  So a validated pick names a single credential. *)
Theorem evaluation_options_wf mode pref rnd rnd' creds query ms o :
  EvaluateDCQLWithOptions mode pref rnd rnd' creds query = Ok (Some ms, Some o) ->
  NoDup (object_ids (get_arr (default [] query) "credentials")) -> NoDup (ID <$> creds) ->
  wf_options o.
Proof. apply built_options_wf. Qed.
End wf.

(** ** What a user's choices disclose *)

Lemma applyClaimSetChoices_empty ms : applyClaimSetChoices ms ∅ = ms.
Proof.
  unfold applyClaimSetChoices. rewrite <- (list_fmap_id ms) at 2. apply list_fmap_ext.
  intros i m _. by rewrite lookup_empty.
Qed.

Lemma debug_only_false o r :
  debugOnlySelection (Some o) r = false ->
  ClaimSetChoices r = ∅ /\
  forall qid q, findConsentQuery o qid = Some q ->
    existsb (fun id => existsb (fun m => String.eqb (CredentialID m) id) (qo_NonMatching q)) (picks_of (Picks r) qid) = false.
Proof.
  unfold debugOnlySelection. intros [He Hc]%orb_false_iff. apply negb_false_iff, bool_decide_eq_true in Hc.
  split; [done|]. intros qid q Hq. unfold picks_of. destruct (Picks r !! qid) as [ids|] eqn:Ep; [|done]. simpl.
  apply not_true_iff_false. intros Ht. apply not_true_iff_false in He. apply He, existsb_elem.
  exists (qid, ids). split; [by apply elem_of_map_to_list|]. by rewrite Hq.
Qed.

(** [m] is a matching candidate of the dialog. *)
Definition candidate (o : ConsentCredentialOptions) (m : CredentialMatch) : Prop :=
  exists q, q ∈ co_Queries o /\ m ∈ qo_Candidates q.

Lemma selectCredentials_candidates o ms r m :
  debugOnlySelection (Some o) r = false -> Forall (candidate o) ms ->
  m ∈ selectCredentials o ms r -> candidate o m.
Proof.
  intros Hd Hms Hm. destruct (debug_only_false o r Hd) as [_ Hno]. rewrite Forall_forall in Hms.
  unfold selectCredentials in Hm. destruct (_ && _); [by apply Hms|].
  match type of Hm with _ ∈ (match ?out with [] => _ | _ => _ end) => destruct out as [|x l] eqn:E end; [by apply Hms|].
  rewrite <- E in Hm. apply list_elem_of_bind in Hm as (qid & Hm & _).
  destruct (findConsentQuery o qid) as [q|] eqn:Eq; [|set_solver].
  exists q. split; [by apply findConsentQuery_Some in Eq as [? _]|].
  by apply (pickedCandidates_matching q (picks_of (Picks r) qid)); [apply Hno|].
Qed.

Section flow.
Context {J : Json} {R : CredentialReader}.

(** A presented match is a matching candidate of the dialog, so there is one. *)
Lemma presented_offered mode pref rnd rnd' creds query ms opts m :
  EvaluateDCQLWithOptions mode pref rnd rnd' creds query = Ok (Some ms, opts) -> m ∈ ms -> exists o, opts = Some o /\ candidate o m.
Proof using.
  intros H Hm. apply evaluate_inv in H as (_ & verdicts & _ & H1 & H2 & Ho).
  set (cands := order_candidates _ _ _) in *. set (kept := keepOnePresentationPerQuery _ _) in *.
  assert (Hk : m ∈ kept).
  { destruct (get_arr (default [] query) "credential_sets") as [|cs sets] eqn:Es.
    - destruct (H1 eq_refl) as [-> _]. done.
    - eapply applyCredentialSets_elem; [by apply H2|done]. }
  assert (Hc : m ∈ cands) by (eapply sublist_elem; [apply keep_loop_sublist|exact Hk]).
  match type of Ho with _ = buildConsentCredentialOptions _ ?non ?cqs ?sets ?mul _ =>
    destruct (consent_query cands non cqs sets mul pref m Hc) as (o' & q & Ho' & Hq & Hid & _ & Hcan) end.
  rewrite Ho' in Ho. exists o'. split; [done|]. exists q. split; [done|]. rewrite Hcan. by apply elem_of_answers.
Qed.

Lemma presented_are_candidates mode pref rnd rnd' creds query ms o :
  EvaluateDCQLWithOptions mode pref rnd rnd' creds query = Ok (Some ms, Some o) -> Forall (candidate o) ms.
Proof using.
  intros H. apply Forall_forall. intros m Hm. by destruct (presented_offered _ _ _ _ _ _ _ _ m H Hm) as (o' & [= <-] & Hc).
Qed.

(** [m'] discloses of [m]'s credential at most what is selected for [m]. *)
Definition narrows (m' m : CredentialMatch) : Prop :=
  QueryID m' = QueryID m /\ CredentialID m' = CredentialID m /\ forall k, k ∈ SelectedKeys m' -> k ∈ SelectedKeys m.

Lemma strict_claims_narrow w ms sel m' : m' ∈ applySelectedClaims Strict w ms sel -> exists m, m ∈ ms /\ narrows m' m.
Proof using.
  unfold applySelectedClaims. destruct sel as [sel|]; [|by exists m'].
  intros (m & -> & Hm)%list_elem_of_fmap. exists m. split; [done|].
  destruct (sel !! CredentialID m) as [keys|]; [|done]. destruct (GetCredential w (CredentialID m)); [|done].
  split; [done|]. split; [done|]. intros k [_ Hk]%elem_of_Lfilter. by apply contains_spec in Hk.
Qed.

Lemma strict_choice_narrows o ms r w sel m' :
  debugOnlySelection (Some o) r = false -> Forall (candidate o) ms ->
  m' ∈ applySelectedClaims Strict w (ApplyConsentSelection (Some o) ms r) sel ->
  exists q m, q ∈ co_Queries o /\ m ∈ qo_Candidates q /\ narrows m' m.
Proof using.
  intros Hd Hms (m & Hin & Hn)%strict_claims_narrow. unfold ApplyConsentSelection in Hin.
  rewrite (proj1 (debug_only_false o r Hd)), applyClaimSetChoices_empty in Hin.
  destruct (selectCredentials_candidates o ms r m Hd Hms Hin) as (q & Hqo & Hmq). by exists q, m.
Qed.

(** In strict mode the consent dialog can only narrow.  After an
    evaluation, whatever credentials and claims the user picks, as long as
    nothing only debug mode offers was chosen, each credential sent is a
    matching candidate of its query and each claim disclosed was selected for
    that candidate by the query evaluation. *)
Theorem strict_consent_only_narrows mode pref rnd rnd' creds query ms o r w sel m' :
  EvaluateDCQLWithOptions mode pref rnd rnd' creds query = Ok (Some ms, Some o) ->
  debugOnlySelection (Some o) r = false ->
  m' ∈ applySelectedClaims Strict w (ApplyConsentSelection (Some o) ms r) sel ->
  exists q m, q ∈ co_Queries o /\ m ∈ qo_Candidates q /\ QueryID m' = QueryID m /\
    CredentialID m' = CredentialID m /\ forall k, k ∈ SelectedKeys m' -> k ∈ SelectedKeys m.
Proof.
  intros H Hd Hm. destruct (strict_choice_narrows o ms r w sel m' Hd (presented_are_candidates _ _ _ _ _ _ _ _ H) Hm) as (q & m & ? & ? & ? & ? & ?).
  by exists q, m.
Qed.
End flow.

(** ** An instance *)

Module ConsentToy.
Definition o : ConsentCredentialOptions := default (mkOptions [] []) DCQLToy.options.

Lemma dialog_evaluated : DCQLToy.evaluate = Ok (Some DCQLToy.presented, Some o).
Proof. vm_compute. reflexivity. Defined.

(** The user picks the older credential and one claim more than requested. *)
Definition choice : ConsentResult := mkConsent (Some {["old" := ["given_name"; "age"]]}) {["pid" := ["old"]]} [] ∅.
Definition wallet : Wallet := mkWallet DCQLToy.creds ∅ 0 0 false.

Lemma o_wf : wf_options o.
Proof. apply (built_options_wf _ _ _ _ _ _ _ _ dialog_evaluated); by_decide. Defined.

Lemma evaluation_options_wf_witness : length (co_Queries o) = 1%nat /\ wf_options o.
Proof.
  split; [vm_compute; reflexivity|].
  apply (evaluation_options_wf _ _ _ _ _ _ _ _ dialog_evaluated); by_decide.
Defined.

Lemma strict_consent_only_narrows_witness :
  map SelectedKeys (applySelectedClaims Strict wallet (ApplyConsentSelection (Some o) DCQLToy.presented choice)
                      (SelectedClaims choice)) = [["given_name"]] /\
  forall m', m' ∈ applySelectedClaims Strict wallet (ApplyConsentSelection (Some o) DCQLToy.presented choice)
                    (SelectedClaims choice) ->
    exists q m, q ∈ co_Queries o /\ m ∈ qo_Candidates q /\ CredentialID m' = CredentialID m.
Proof.
  split; [vm_compute; reflexivity|]. intros m' Hm'.
  destruct (strict_consent_only_narrows _ _ _ _ _ _ _ _ choice wallet (SelectedClaims choice) m' dialog_evaluated
              ltac:(vm_compute; reflexivity) Hm') as (q & m & H1 & H2 & _ & H3 & _).
  by exists q, m.
Defined.

Lemma consent_selection_sound_witness :
  exists m, m ∈ selectCredentials o DCQLToy.presented choice /\ CredentialID m = "old".
Proof.
  destruct (consent_selection_sound o DCQLToy.presented choice) as (_ & _ & H & _).
  - exact o_wf.
  - vm_compute. reflexivity.
  - left. by vm_compute.
  - rewrite DCQLToy.presented_newest. constructor; [|constructor].
    destruct (co_Queries o) as [|q qs] eqn:E; [by vm_compute in E|]. exists q. rewrite E. split; [by left|].
    vm_compute in E. injection E as <- _. by left.
  - intros q _ _. rewrite DCQLToy.presented_newest. apply filter_length_le.
  - destruct (H "pid") as (m & Hm & _); [by vm_compute; left|by vm_compute; eauto|].
    exists m. split; [done|]. revert Hm. vm_compute. by intros ->%list_elem_of_singleton.
Defined.
End ConsentToy.
