(* ===== verification/Present.v ===== *)
(** * Present: the SD-JWT presentation of a selected credential

    internal/wallet/presentation.go with the signing of internal/jws/jws.go:
    the disclosures a presentation carries, the key binding JWT and the
    compact form. *)

From Stdlib Require Import Ascii ZArith Lia.
From stdpp Require Import base list strings gmap.
From S2P Require Import Prelude GoStrings GoValue Format Validity SDJWT WalletState ClaimPath DCQL.

Local Open Scope Z_scope.

(** ** Digests of the selected disclosures *)

(** A range loop that updates a set and may run out of fuel. *)
Fixpoint fold_opt {A S} (f : A -> S -> option S) (l : list A) (s : S) : option S :=
  match l with
  | [] => Some s
  | x :: l => match f x s with Some s => fold_opt f l s | None => None end
  end.

(** [digest, ok := obj["..."].(string)] on an array element. *)
Definition element_ref (item : value) : option string :=
  match item with VObj ref => as_string (index ref "...") | _ => None end.

Section collect.
Context (digestMap : string -> option Disclosure).

(** The entries of an [_sd] array below the end of a path. *)
Definition nested_sd_entry (rec : value -> gset string -> option (gset string)) (item : value)
    (digests : gset string) : option (gset string) :=
  match as_string item with
  | None => Some digests
  | Some digest =>
      let digests := {[digest]} ∪ digests in
      match digestMap digest with
      | Some disc => rec (d_Value disc) digests
      | None => Some digests
      end
  end.

(** Disclosures nest, so the recursion is cut by fuel; [None] is a nesting
    deeper than the fuel. *)
Fixpoint collectAllNestedDisclosureDigests (fuel : nat) (v : value) (digests : gset string) :
    option (gset string) :=
  match fuel with
  | O => None
  | S fuel =>
      let rec := collectAllNestedDisclosureDigests fuel in
      match v with
      | VObj m =>
          match fold_opt (nested_sd_entry rec) (get_arr m "_sd") digests with
          | None => None
          | Some digests =>
              fold_opt (fun kv digests => if String.eqb (fst kv) "_sd" then Some digests
                                          else rec (snd kv) digests) m digests
          end
      | VArr l =>
          fold_opt (fun item digests => match element_ref item with
                                        | Some _ => Some digests
                                        | None => rec item digests
                                        end) l digests
      | _ => Some digests
      end
  end.

Definition collectArrayItemDisclosureDigests (rec : value -> gset string -> option (gset string))
    (item : value) (digests : gset string) : option (gset string) :=
  match element_ref item with
  | Some digest =>
      let digests := {[digest]} ∪ digests in
      match digestMap digest with
      | Some disc => rec (d_Value disc) digests
      | None => Some digests
      end
  | None => rec item digests
  end.

(** A disclosed member on the path. *)
Definition path_sd_entry (rec : value -> gset string -> option (gset string)) (segment : string) (item : value)
    (digests : gset string) : option (gset string) :=
  match as_string item with
  | None => Some digests
  | Some digest =>
      match digestMap digest with
      | None => Some digests
      | Some disc =>
          if d_IsArrayEntry disc || negb (String.eqb (d_Name disc) segment) then Some digests
          else rec (d_Value disc) ({[digest]} ∪ digests)
      end
  end.

Fixpoint collectPathDisclosureDigests (fuel : nat) (path : list value) (v : value) (digests : gset string) :
    option (gset string) :=
  match path with
  | [] => collectAllNestedDisclosureDigests fuel v digests
  | VString segment :: rest =>
      match as_obj v with
      | None => Some digests
      | Some obj =>
          match get segment obj with
          | Some next => collectPathDisclosureDigests fuel rest next digests
          | None => fold_opt (path_sd_entry (collectPathDisclosureDigests fuel rest) segment)
                      (get_arr obj "_sd") digests
          end
      end
  | VInt KInt segment :: rest =>
      match as_arr v with
      | None => Some digests
      | Some arr =>
          if (segment <? 0) || (Z.of_nat (length arr) <=? segment) then Some digests
          else match arr !! Z.to_nat segment with
               | Some item =>
                   collectArrayItemDisclosureDigests (collectPathDisclosureDigests fuel rest) item digests
               | None => Some digests
               end
      end
  | VNil :: rest =>
      match as_arr v with
      | None => Some digests
      | Some arr =>
          fold_opt (collectArrayItemDisclosureDigests (collectPathDisclosureDigests fuel rest)) arr digests
      end
  | _ :: _ => Some digests
  end.
End collect.

(** The loop over the selectors; one that does not parse is skipped. *)
Definition includedDigests (fuel : nat) (payload : object) (ds : list Disclosure) (selectedKeys : list string) :
    option (gset string) :=
  fold_opt (fun selector digests =>
              match parseSDJWTSelector selector with
              | None | Some [] => Some digests
              | Some path => collectPathDisclosureDigests (digest_lookup ds) fuel path (VObj payload) digests
              end) selectedKeys ∅.

Definition selectedDisclosures (included : gset string) (ds : list Disclosure) : list Disclosure :=
  List.filter (fun d => bool_decide (d_Digest d ∈ included)) ds.

(** ** Signing (internal/jws/jws.go) *)

(** [json.Marshal] of a map and ECDSA: the pair [(r, s)] over a digest, whose
    randomness is fixed, and the bit size of the curve. *)
Class Signer := {
  PrivateKey : Type;
  marshal_object : object -> option string;
  ecdsa_sign : PrivateKey -> string -> option (Z * Z);
  curve_bits : PrivateKey -> Z
}.

(** [r.FillBytes(buf)]: big-endian, left padded. *)
Fixpoint fill_bytes (n : nat) (z : Z) : list Z :=
  match n with O => [] | S n => fill_bytes n (z / 256) ++ [z mod 256] end.

Inductive present_error :=
| IssuerPayloadUnreadable
| SdHashFailed (e : disclosure_error)
| MarshalFailed
| NoPrivateKey
| SigningFailed.

Section sign.
Context {H : Hash} {G : Signer}.

Definition SigningInput (header payload : object) : result present_error string :=
  match marshal_object header, marshal_object payload with
  | Some headerJSON, Some payloadJSON => Ok (EncodeBase64URL headerJSON +:+ "." +:+ EncodeBase64URL payloadJSON)
  | _, _ => Err MarshalFailed
  end.

Definition Signature (key : PrivateKey) (digest : string) : result present_error string :=
  match ecdsa_sign key digest with
  | None => Err SigningFailed
  | Some (r, s) =>
      let size := Z.to_nat ((curve_bits key + 7) ÷ 8) in
      Ok (string_of (fill_bytes size r ++ fill_bytes size s))
  end.

Definition Sign (header payload : object) (key : option PrivateKey) : result present_error string :=
  match key with
  | None => Err NoPrivateKey
  | Some key =>
      let? signingInput := SigningInput header payload in
      let? sig := Signature key (sha256 signingInput) in
      Ok (signingInput +:+ "." +:+ EncodeBase64URL sig)
  end.

(** ** The key binding JWT *)

Definition SDHash (data sdAlg : string) : result disclosure_error string := computeDigest data sdAlg.

Definition kb_header : object := [("alg", VString "ES256"); ("typ", VString "kb+jwt")].

(** [now] is [time.Now().Unix()]. *)
Definition kb_payload (now : Z) (nonce audience sdHash : string) : object :=
  [("iat", VInt KInt64 now); ("aud", VString audience); ("nonce", VString nonce); ("sd_hash", VString sdHash)].

Definition createKBJWT (now : Z) (nonce audience sdHash : string) (signingKey : option PrivateKey) :
    result present_error string :=
  Sign kb_header (kb_payload now nonce audience sdHash) signingKey.
End sign.

(** ** The audience *)

Record PresentationParams := mkParams {
  pp_Nonce : string; pp_ClientID : string; pp_RequestOrigin : string; pp_ResponseMode : string;
  pp_InteractiveAuthorizationEndpoint : string }.

Definition isInteractiveAuthorizationResponseMode (mode : string) : bool :=
  String.eqb mode "ia_post" || String.eqb mode "ia_post.jwt".

Definition interactiveAuthorizationAudience (endpoint : string) : string := "ia:" +:+ endpoint.

Definition sdJWTAudience (params : PresentationParams) : string :=
  if isInteractiveAuthorizationResponseMode (pp_ResponseMode params)
     && negb (String.eqb (pp_InteractiveAuthorizationEndpoint params) "")
  then interactiveAuthorizationAudience (pp_InteractiveAuthorizationEndpoint params)
  else if (String.eqb (pp_ResponseMode params) "dc_api" || String.eqb (pp_ResponseMode params) "dc_api.jwt")
          && negb (String.eqb (pp_RequestOrigin params) "")
  then "origin:" +:+ pp_RequestOrigin params
  else pp_ClientID params.

(** ** createSDJWTPresentation *)

(** The issuer-signed JWT and the disclosures, each closed by a tilde. *)
Definition withoutKB (issuerJWT : string) (selected : list string) : string :=
  issuerJWT +:+ "~" +:+ match selected with [] => "" | _ => join "~" selected +:+ "~" end.

(** [None] when the fuel does not cover the nesting of the disclosures. *)
Definition createSDJWTPresentation {J : Json} {R : CredentialReader} {H : Hash} {G : Signer} (fuel : nat)
    (cred : StoredCredential) (selectedKeys : list string) (now : Z) (nonce clientID : string)
    (signingKey : option PrivateKey) : option (result present_error string) :=
  let issuerJWT := default "" (head (split "~" (Raw cred))) in
  match parseIssuerJWTPayload issuerJWT with
  | None => Some (Err IssuerPayloadUnreadable)
  | Some payload =>
      included ← includedDigests fuel payload (Disclosures cred) selectedKeys;
      let prefix := withoutKB issuerJWT (d_Raw <$> selectedDisclosures included (Disclosures cred)) in
      Some (if negb (holder_bound (Raw cred)) then Ok prefix
            else match SDHash prefix (SDAlgFromPayload payload) with
                 | Err e => Err (SdHashFailed e)
                 | Ok sdHash =>
                     let? kbJWT := createKBJWT now nonce clientID sdHash signingKey in
                     Ok (prefix +:+ kbJWT)
                 end)
  end.
