(* ===== verification/PresentFacts.v ===== *)
(** * PresentFacts: what a verifier learns from a presentation

    The disclosures of a presentation are located by address, the way from
    the issuer-signed payload down to the digest: each disclosure sent has an
    address some selected path covers, and every value the wallet selected is
    a claim of the presentation as a verifier parses it. *)

From Stdlib Require Import Ascii ZArith Lia.
From stdpp Require Import base list strings gmap.
From S2P Require Import Prelude GoStrings GoValue Format Validity SDJWT SDJWTFacts WalletState.
From S2P Require Import ClaimPath ClaimPathFacts DCQL Present.

Local Open Scope nat_scope.

(** ** What the collectors add *)

(** [f] adds exactly the digests in [P]. *)
Definition adds (f : gset string -> option (gset string)) (P : string -> Prop) : Prop :=
  forall s out, f s = Some out -> forall d, d ∈ out <-> d ∈ s \/ P d.

Lemma adds_none f : (forall s, f s = Some s) -> adds f (fun _ => False).
Proof. intros Hf s out H d. rewrite Hf in H. simplify_eq. tauto. Qed.

Lemma adds_iff f P Q : (forall d, P d <-> Q d) -> adds f P -> adds f Q.
Proof. intros HPQ Hf s out H d. rewrite <- HPQ. by apply Hf. Qed.

Lemma adds_fold {A} (f : A -> gset string -> option (gset string)) (P : A -> string -> Prop) l :
  (forall x, x ∈ l -> adds (f x) (P x)) -> adds (fold_opt f l) (fun d => exists x, x ∈ l /\ P x d).
Proof.
  induction l as [|x l IH]; intros Hf s out H d; simpl in H; [simplify_eq; set_solver|].
  destruct (f x s) as [s'|] eqn:E; [|done].
  rewrite (IH (fun y Hy => Hf y ltac:(by right)) _ _ H d), (Hf x ltac:(by left) _ _ E d). set_solver.
Qed.

Section collected.
Context (dm : string -> option Disclosure).

(** The digests below a value whose end a path reached. *)
Inductive nested : value -> string -> Prop :=
| nested_sd m d : VString d ∈ get_arr m "_sd" -> nested (VObj m) d
| nested_disc m d0 disc d : VString d0 ∈ get_arr m "_sd" -> dm d0 = Some disc -> nested (d_Value disc) d ->
    nested (VObj m) d
| nested_member m k v d : (k, v) ∈ m -> k <> "_sd" -> nested v d -> nested (VObj m) d
| nested_item l item d : item ∈ l -> element_ref item = None -> nested item d -> nested (VArr l) d.

Lemma nested_sd_entry_adds rec e :
  (forall v, adds (rec v) (nested v)) ->
  adds (nested_sd_entry dm rec e)
    (fun d => exists d0, e = VString d0 /\ (d = d0 \/ exists disc, dm d0 = Some disc /\ nested (d_Value disc) d)).
Proof.
  intros Hrec s out H d. unfold nested_sd_entry in H.
  destruct e; simpl in H; try (simplify_eq; naive_solver).
  destruct (dm s0) as [disc|] eqn:E.
  - rewrite (Hrec _ _ _ H). set_solver.
  - simplify_eq. set_solver.
Qed.

Lemma nested_adds fuel v : adds (collectAllNestedDisclosureDigests dm fuel v) (nested v).
Proof.
  revert v. induction fuel as [|fuel IH]; intros v s out H; [done|].
  destruct v; simpl in H; try (simplify_eq; intros d; split; [tauto|]; intros [|Hn]; [done|inversion Hn]).
  - eapply (adds_iff _ (fun d => exists item, item ∈ l /\ element_ref item = None /\ nested item d));
      [|apply adds_fold|exact H].
    + intros d. split; [intros (i & ? & ? & ?); by eapply nested_item|].
      intros Hn. inversion Hn; simplify_eq. eauto.
    + intros item _. cbn beta. destruct (element_ref item) eqn:E.
      * eapply adds_iff; [|by apply adds_none]. naive_solver.
      * eapply adds_iff; [|apply IH]. naive_solver.
  - destruct (fold_opt _ (get_arr m "_sd") s) as [s1|] eqn:E1; [|done]. intros d.
    pose proof (adds_fold _ _ _ (fun e _ => nested_sd_entry_adds _ e IH) _ _ E1 d) as H1.
    assert (H2 : d ∈ out <-> d ∈ s1 \/ exists kv, kv ∈ m /\ fst kv <> "_sd" /\ nested (snd kv) d).
    { refine (adds_fold _ (fun kv d => fst kv <> "_sd" /\ nested (snd kv) d) m _ s1 out H d).
      intros [k v] _. simpl. destruct (String.eqb_spec k "_sd").
      - eapply adds_iff; [|by apply adds_none]. naive_solver.
      - eapply adds_iff; [|apply IH]. naive_solver. }
    rewrite H2, H1. split.
    + intros [[?|(e & He & d0 & -> & [->|(disc & Hd & Hn)])]|([k v] & Hkv & Hk & Hn)]; [by left|right..].
      * by apply nested_sd.
      * by eapply nested_disc.
      * by eapply nested_member.
    + intros [?|Hn]; [by left; left|]. inversion Hn; simplify_eq.
      * left; right. eauto 6.
      * left; right. eauto 8.
      * right. by exists (k, v).
Qed.

(** The digests a path selects. *)
Definition reaches_item (P : value -> Prop) (item : value) (d : string) : Prop :=
  match element_ref item with
  | Some d0 => d = d0 \/ exists disc, dm d0 = Some disc /\ P (d_Value disc)
  | None => P item
  end.

Fixpoint reaches (path : list value) (v : value) (d : string) : Prop :=
  match path with
  | [] => nested v d
  | VString k :: rest =>
      match v with
      | VObj m =>
          match get k m with
          | Some v => reaches rest v d
          | None => exists d0 disc, VString d0 ∈ get_arr m "_sd" /\ dm d0 = Some disc /\
                      d_IsArrayEntry disc = false /\ d_Name disc = k /\ (d = d0 \/ reaches rest (d_Value disc) d)
          end
      | _ => False
      end
  | VInt KInt i :: rest =>
      match v with
      | VArr l => (0 <= i)%Z /\ exists item, l !! Z.to_nat i = Some item /\
                    reaches_item (fun v => reaches rest v d) item d
      | _ => False
      end
  | VNil :: rest =>
      match v with
      | VArr l => exists item, item ∈ l /\ reaches_item (fun v => reaches rest v d) item d
      | _ => False
      end
  | _ :: _ => False
  end.

Lemma item_adds rec path item :
  (forall v, adds (rec v) (reaches path v)) ->
  adds (collectArrayItemDisclosureDigests dm rec item) (fun d => reaches_item (fun v => reaches path v d) item d).
Proof.
  intros Hrec s out H d. unfold collectArrayItemDisclosureDigests, reaches_item in *.
  destruct (element_ref item) as [d0|]; [|by apply (Hrec item)].
  destruct (dm d0) as [disc|]; [|simplify_eq; set_solver].
  rewrite (Hrec _ _ _ H). set_solver.
Qed.

Lemma reaches_adds fuel path v : adds (collectPathDisclosureDigests dm fuel path v) (reaches path v).
Proof.
  revert v. induction path as [|seg path IH]; intros v; [apply nested_adds|].
  destruct seg as [| | | |[] i| |k| | | |]; simpl; try by apply adds_none.
  - destruct v; simpl; try by apply adds_none. apply adds_fold. intros item _. by apply item_adds.
  - destruct v; simpl; try by apply adds_none.
    destruct (Z.ltb_spec i 0); simpl; [eapply adds_iff; [|by apply adds_none]; intros d; split; [done|lia]|].
    destruct (Z.leb_spec (Z.of_nat (length l)) i).
    { eapply adds_iff; [|by apply adds_none]. intros d. rewrite lookup_ge_None_2 by lia. naive_solver. }
    destruct (l !! Z.to_nat i) as [item|] eqn:E.
    + eapply adds_iff; [|by apply item_adds]. naive_solver.
    + eapply adds_iff; [|by apply adds_none]. naive_solver.
  - destruct v; simpl; try by apply adds_none. destruct (get k m) as [v|]; [apply IH|].
    eapply adds_iff; [|apply (adds_fold _ (fun e d => exists d0 disc, e = VString d0 /\ dm d0 = Some disc /\
      d_IsArrayEntry disc = false /\ d_Name disc = k /\ (d = d0 \/ reaches path (d_Value disc) d)))].
    { naive_solver. }
    intros e _ s out H d. unfold path_sd_entry in H. destruct e; simpl in H; try (simplify_eq; naive_solver).
    assert (Hno : Some s = Some out -> (forall disc, dm s0 = Some disc -> d_IsArrayEntry disc = false -> d_Name disc <> k) ->
      d ∈ out <-> d ∈ s \/ exists d0 disc, VString s0 = VString d0 /\ dm d0 = Some disc /\
        d_IsArrayEntry disc = false /\ d_Name disc = k /\ (d = d0 \/ reaches path (d_Value disc) d)).
    { intros [= <-] Hn. split; [by left|]. intros [?|(d0 & disc & [= <-] & Hd & Ha & Hk & _)]; [done|].
      by destruct (Hn disc Hd Ha). }
    destruct (dm s0) as [disc|] eqn:E; [|by apply Hno].
    destruct (d_IsArrayEntry disc) eqn:Ea; simpl in H; [apply Hno; [done|]; congruence|].
    destruct (String.eqb_spec (d_Name disc) k); simpl in H; [|apply Hno; [done|]; congruence].
    rewrite (IH _ _ _ H), elem_of_union, elem_of_singleton. split.
    + intros [[->|?]|?]; [right|by left|right]; exists s0, disc; split_and!; auto.
    + intros [?|(d0 & disc' & [= <-] & Hd & _ & _ & [->|?])]; simplify_eq; auto.
Qed.
End collected.

Lemma included_spec fuel payload ds keys out d :
  includedDigests fuel payload ds keys = Some out ->
  d ∈ out <-> exists k path, k ∈ keys /\ parseSDJWTSelector k = Some path /\ reaches (digest_lookup ds) path (VObj payload) d.
Proof.
  intros H. unfold includedDigests in H. refine (_ (adds_fold _ (fun k d => exists path,
    parseSDJWTSelector k = Some path /\ reaches (digest_lookup ds) path (VObj payload) d) keys _ ∅ out H d)).
  { intros ->. rewrite elem_of_empty. naive_solver. }
  clear H. intros k _. cbn beta. destruct (parseSDJWTSelector k) as [path|] eqn:E.
  - destruct path as [|seg path]; [unfold parseSDJWTSelector in E; by repeat case_match|].
    eapply adds_iff; [|apply reaches_adds]. naive_solver.
  - eapply adds_iff; [|by apply adds_none]. naive_solver.
Qed.

(** ** Addresses *)

(** A way into a value: a member, signed or disclosed; an always visible
    array element; a selectively disclosable one. *)
Inductive step := Name (k : string) | Elem (i : nat) | Hidden (i : nat).

Section addresses.
Context (dm : string -> option Disclosure).

(** [address v a d]: following [a] from [v], through disclosures, the last
    step is the member or element the digest [d] stands for. *)
Inductive address : value -> list step -> string -> Prop :=
| addr_sd m d disc : VString d ∈ get_arr m "_sd" -> dm d = Some disc -> address (VObj m) [Name (d_Name disc)] d
| addr_below_sd m d0 disc a d : VString d0 ∈ get_arr m "_sd" -> dm d0 = Some disc ->
    address (d_Value disc) a d -> address (VObj m) (Name (d_Name disc) :: a) d
| addr_member m k v a d : (k, v) ∈ m -> address v a d -> address (VObj m) (Name k :: a) d
| addr_hidden l i item d : l !! i = Some item -> element_ref item = Some d -> address (VArr l) [Hidden i] d
| addr_below_hidden l i item d0 disc a d : l !! i = Some item -> element_ref item = Some d0 -> dm d0 = Some disc ->
    address (d_Value disc) a d -> address (VArr l) (Hidden i :: a) d
| addr_elem l i item a d : l !! i = Some item -> element_ref item = None -> address item a d ->
    address (VArr l) (Elem i :: a) d.

Definition hidden_element (s : step) : bool := match s with Hidden _ => true | _ => false end.

(** A path covers the addresses on its way, and those below its end that lead
    through no selectively disclosable element. *)
Fixpoint covers (path : list value) (a : list step) : bool :=
  match path, a with
  | [], _ => forallb (fun s => negb (hidden_element s)) a
  | _, [] => true
  | VString k :: path, Name k' :: a => String.eqb k k' && covers path a
  | VInt KInt i :: path, (Elem j | Hidden j) :: a => (i =? Z.of_nat j)%Z && covers path a
  | VNil :: path, (Elem _ | Hidden _) :: a => covers path a
  | _, _ => false
  end.

Lemma covers_end path : covers path [] = true.
Proof. by destruct path as [|[| | | |[]| | | | | |] ?]. Qed.

Lemma nested_address v d :
  nested dm v d -> is_Some (dm d) -> exists a, address v a d /\ covers [] a = true.
Proof.
  intros Hn [disc0 Hd0]. induction Hn as [m d Hd|m d0 disc d Hd Hm _ IH|m k v d Hk _ _ IH|l item d Hi He _ IH].
  - exists [Name (d_Name disc0)]. split; [by apply addr_sd|done].
  - destruct (IH Hd0) as (a & Ha & Hc). exists (Name (d_Name disc) :: a). split; [by eapply addr_below_sd|done].
  - destruct (IH Hd0) as (a & Ha & Hc). exists (Name k :: a). split; [by eapply addr_member|done].
  - destruct (IH Hd0) as (a & Ha & Hc). apply list_elem_of_lookup in Hi as [i Hi].
    exists (Elem i :: a). split; [by eapply addr_elem|done].
Qed.

Lemma item_address path l i item d :
  (forall v, reaches dm path v d -> exists a, address v a d /\ covers path a = true) ->
  l !! i = Some item -> reaches_item dm (fun v => reaches dm path v d) item d ->
  exists a, (address (VArr l) (Elem i :: a) d \/ address (VArr l) (Hidden i :: a) d) /\ covers path a = true.
Proof.
  intros IH Hi Hr. unfold reaches_item in Hr. destruct (element_ref item) as [d0|] eqn:E.
  - destruct Hr as [->|(disc & Hd & Hr)].
    + exists []. split; [right; by eapply addr_hidden|apply covers_end].
    + destruct (IH _ Hr) as (a & Ha & Hc). exists a. split; [right; by eapply addr_below_hidden|done].
  - destruct (IH _ Hr) as (a & Ha & Hc). exists a. split; [left; by eapply addr_elem|done].
Qed.

Lemma reaches_address path v d :
  is_Some (dm d) -> reaches dm path v d -> exists a, address v a d /\ covers path a = true.
Proof.
  intros Hd. revert v. induction path as [|seg path IH]; intros v Hr; [by apply nested_address|].
  destruct seg as [| | | |[] i| |k| | | |]; simpl in Hr; try done; destruct v; try done.
  - destruct Hr as (item & Hin & Hr). apply list_elem_of_lookup in Hin as [j Hj].
    destruct (item_address path l j item d IH Hj Hr) as (a & [Ha|Ha] & Hc);
      [exists (Elem j :: a)|exists (Hidden j :: a)]; by split.
  - destruct Hr as (Hi & item & Hj & Hr).
    destruct (item_address path l _ item d IH Hj Hr) as (a & Ha & Hc).
    assert (Hi' : (i =? Z.of_nat (Z.to_nat i))%Z = true) by (apply Z.eqb_eq; lia).
    destruct Ha as [Ha|Ha]; [exists (Elem (Z.to_nat i) :: a)|exists (Hidden (Z.to_nat i) :: a)];
      (split; [done|]; cbn [covers]; by rewrite Hi').
  - destruct (get k m) as [v|] eqn:E.
    + destruct (IH _ Hr) as (a & Ha & Hc). exists (Name k :: a). split.
      * eapply addr_member; [by apply get_Some_In|done].
      * simpl. by rewrite String.eqb_refl.
    + destruct Hr as (d0 & disc & Hin & Hd0 & _ & <- & [->|Hr]).
      * exists [Name (d_Name disc)]. split; [by apply addr_sd|]. simpl.
        by rewrite String.eqb_refl, covers_end.
      * destruct (IH _ Hr) as (a & Ha & Hc). exists (Name (d_Name disc) :: a).
        split; [by eapply addr_below_sd|]. simpl. by rewrite String.eqb_refl.
Qed.
End addresses.

Lemma digest_lookup_Some ds d disc :
  digest_lookup ds d = Some disc -> disc ∈ ds /\ d_Digest disc = d.
Proof.
  unfold digest_lookup. intros (x & Hx & Hd)%find_map_Some.
  destruct (String.eqb_spec (d_Digest x) d); simplify_eq. by rewrite elem_of_reverse in Hx.
Qed.

Lemma digest_lookup_is_Some ds disc : disc ∈ ds -> is_Some (digest_lookup ds (d_Digest disc)).
Proof.
  intros Hin. destruct (digest_lookup ds (d_Digest disc)) as [d|] eqn:E; [by eexists|].
  unfold digest_lookup in E. rewrite find_map_None in E. specialize (E disc).
  rewrite elem_of_reverse, String.eqb_refl in E. by specialize (E Hin).
Qed.

Lemma selected_disclosure_address fuel payload ds keys included d :
  includedDigests fuel payload ds keys = Some included -> d ∈ selectedDisclosures included ds ->
  exists k path a, k ∈ keys /\ parseSDJWTSelector k = Some path /\
    address (digest_lookup ds) (VObj payload) a (d_Digest d) /\ covers path a = true.
Proof.
  intros Hi Hd. unfold selectedDisclosures in Hd. apply list_elem_of_In, filter_In in Hd as [Hin Hd].
  apply list_elem_of_In in Hin. apply bool_decide_eq_true in Hd.
  apply (included_spec _ _ _ _ _ _ Hi) in Hd as (k & path & Hk & Hp & Hr).
  destruct (reaches_address _ _ _ _ (digest_lookup_is_Some _ _ Hin) Hr) as (a & Ha & Hc). by exists k, path, a.
Qed.

(** ** Processing with fewer disclosures

    The wallet resolves a payload with all disclosures of a credential, a
    verifier with those it was sent.  Where the sent disclosures include the
    ones of a member, both resolve that member from the same value. *)

Definition next_seen (e : value) (ls : gset string) : gset string :=
  match as_string e with
  | Some d => if decide (d ∈ ls) then ls else {[d]} ∪ ls
  | None => ls
  end.

(** The disclosure an [_sd] entry inserts under the name [k] where that name
    is free. *)
Definition firing (bd : gmap string Disclosure) (ls : gset string) (e : value) (k : string) :
    option (string * Disclosure) :=
  match as_string e with
  | None => None
  | Some d =>
      if decide (d ∈ ls) then None
      else match bd !! d with
           | None => None
           | Some disc =>
               if d_IsArrayEntry disc || (String.eqb (d_Name disc) "_sd" || String.eqb (d_Name disc) "...")
                  || negb (String.eqb (d_Name disc) k)
               then None else Some (d, disc)
           end
  end.

Lemma firing_inv bd ls e k d disc :
  firing bd ls e k = Some (d, disc) ->
  e = VString d /\ bd !! d = Some disc /\ d_IsArrayEntry disc = false /\ d_Name disc = k.
Proof.
  unfold firing. destruct e as [| | | | | |d0| | | |]; try done. simpl. case_decide; [done|].
  destruct (bd !! d0) eqn:E; [|done]. destruct (_ || _) eqn:Eb; [done|]. intros [= <- <-].
  apply orb_false_iff in Eb as [Eb Hk]. apply orb_false_iff in Eb as [Ha _]. bsimpl. done.
Qed.

Lemma firing_sub bd bd' ls e k :
  bd' ⊆ bd ->
  (forall d disc, firing bd ls e k = Some (d, disc) -> bd' !! d = Some disc) ->
  firing bd' ls e k = firing bd ls e k.
Proof.
  intros Hsub. unfold firing. destruct e as [| | | | | |d0| | | |]; try done. simpl. case_decide; [done|].
  intros Hcov. destruct (bd' !! d0) as [disc'|] eqn:E'.
  - by rewrite (lookup_weaken _ _ _ _ E' Hsub).
  - destruct (bd !! d0) as [disc|]; [|done]. destruct (_ || _ || _); [done|]. by rewrite (Hcov d0 disc) in E'.
Qed.

Section sd_step.
Context (bd : gmap string Disclosure) (rec : value -> option (value * list event)).

Lemma walk_sd_fires e entries ls result r es k d disc :
  firing bd ls e k = Some (d, disc) -> get k result = None ->
  walk_sd bd rec (e :: entries) ls result = Some (r, es) ->
  exists v es1, rec (d_Value disc) = Some (v, es1) /\ get k r = Some v.
Proof.
  unfold firing. simpl. destruct (as_string e) as [d0|]; [|done]. case_decide; [done|].
  destruct (bd !! d0) as [disc0|]; [|done]. destruct (d_IsArrayEntry disc0) eqn:Ha; [done|].
  destruct (_ || _) eqn:Er at 1; [done|]. apply orb_false_iff in Er as [Er Hk]. simpl in Er.
  intros [= -> ->] Hg. apply negb_false_iff, String.eqb_eq in Hk as <-. unfold sd_refusal. rewrite Ha, Er, Hg. intros Hw. bind_inv.
  eexists _, _. split; [done|]. eapply walk_sd_mono; [done|]. apply get_set_eq.
Qed.

Lemma walk_sd_skips e entries ls result r es k :
  firing bd ls e k = None -> get k result = None ->
  walk_sd bd rec (e :: entries) ls result = Some (r, es) ->
  exists result1 es1, walk_sd bd rec entries (next_seen e ls) result1 = Some (r, es1) /\ get k result1 = None.
Proof.
  unfold firing, next_seen. simpl. destruct (as_string e) as [d0|]; [|by intros; bind_inv; eauto].
  case_decide; [by intros; bind_inv; eauto|]. destruct (bd !! d0) as [disc|]; [|by intros; bind_inv; eauto].
  intros Hf Hg Hw. destruct (sd_refusal d0 disc result) eqn:Es; bind_inv; [by eauto|].
  eexists _, _. split; [done|]. rewrite get_set. destruct (String.eqb_spec k (d_Name disc)) as [->|]; [|done].
  exfalso. unfold sd_refusal in Es. destruct (d_IsArrayEntry disc); [done|].
  destruct (String.eqb (d_Name disc) "_sd" || String.eqb (d_Name disc) "..."); [done|].
  by rewrite String.eqb_refl in Hf.
Qed.
End sd_step.

Lemma walk_sd_both bd bd' rec rec' entries ls result result' r es r' es' k v :
  bd' ⊆ bd ->
  (forall d disc, VString d ∈ entries -> bd !! d = Some disc -> d_IsArrayEntry disc = false -> d_Name disc = k ->
     bd' !! d = Some disc) ->
  walk_sd bd rec entries ls result = Some (r, es) -> walk_sd bd' rec' entries ls result' = Some (r', es') ->
  get k result = None -> get k result' = None -> get k r = Some v ->
  exists d disc v' es1 es2, VString d ∈ entries /\ bd !! d = Some disc /\ d_IsArrayEntry disc = false /\
    d_Name disc = k /\ rec (d_Value disc) = Some (v, es1) /\ rec' (d_Value disc) = Some (v', es2) /\
    get k r' = Some v'.
Proof.
  intros Hsub. revert ls result result' es es'.
  induction entries as [|e entries IH]; intros ls result result' es es' Hcov Hw Hw' Hg Hg' Hv.
  { simpl in *. by simplify_eq. }
  assert (Hf' : firing bd' ls e k = firing bd ls e k).
  { apply firing_sub; [done|]. intros d disc (-> & Hd & Ha & Hk)%firing_inv. apply Hcov; [by left|done..]. }
  destruct (firing bd ls e k) as [[d disc]|] eqn:Hf.
  - destruct (walk_sd_fires _ _ _ _ _ _ _ _ _ _ _ Hf Hg Hw) as (v1 & es1 & Hr & Hv1).
    destruct (walk_sd_fires _ _ _ _ _ _ _ _ _ _ _ Hf' Hg' Hw') as (v2 & es2 & Hr' & Hv2).
    apply firing_inv in Hf as (-> & Hd & Ha & Hk). simplify_eq. exists d, disc, v2, es1, es2.
    split_and!; try done. by left.
  - destruct (walk_sd_skips _ _ _ _ _ _ _ _ _ Hf Hg Hw) as (result1 & es1 & Hw1 & Hg1).
    destruct (walk_sd_skips _ _ _ _ _ _ _ _ _ Hf' Hg' Hw') as (result2 & es2 & Hw2 & Hg2).
    destruct (IH _ _ _ _ _ (fun d disc Hd => Hcov d disc ltac:(by right)) Hw1 Hw2 Hg1 Hg2 Hv)
      as (d & disc & v' & e1 & e2 & Hin & ?). exists d, disc, v', e1, e2. split; [by right|done].
Qed.

Lemma walk_object_both bd bd' rec rec' m top r es r' es' k v :
  bd' ⊆ bd -> wf_object m -> hidden k = false ->
  (forall d disc, VString d ∈ get_arr m "_sd" -> bd !! d = Some disc -> d_IsArrayEntry disc = false ->
     d_Name disc = k -> get k m = None -> bd' !! d = Some disc) ->
  walk_object bd rec m top = Some (r, es) -> walk_object bd' rec' m top = Some (r', es') -> get k r = Some v ->
  exists v0 v' es1 es2, rec v0 = Some (v, es1) /\ rec' v0 = Some (v', es2) /\ get k r' = Some v' /\
    (get k m = Some v0 \/
     get k m = None /\ exists d disc, VString d ∈ get_arr m "_sd" /\ bd !! d = Some disc /\
       d_IsArrayEntry disc = false /\ d_Name disc = k /\ d_Value disc = v0).
Proof.
  intros Hsub Hwf Hh Hcov Hw Hw' Hv. destruct (get k m) as [v0|] eqn:Hk.
  - destruct (walk_object_signed _ _ _ _ _ _ _ _ Hw Hwf Hh Hk) as (v1 & es1 & Hr & Hg).
    destruct (walk_object_signed _ _ _ _ _ _ _ _ Hw' Hwf Hh Hk) as (v2 & es2 & Hr' & Hg').
    simplify_eq. exists v0, v2, es1, es2. split_and!; try done. by left.
  - destruct (walk_object_inv _ _ _ _ _ _ Hw) as (r0 & es0 & Hm & Hr).
    destruct (walk_object_inv _ _ _ _ _ _ Hw') as (r0' & es0' & Hm' & Hr').
    assert (Hg0 : get k r0 = None) by (by rewrite (walk_members_get _ _ _ _ _ _ _ Hm Hwf), Hh, Hk).
    assert (Hg0' : get k r0' = None) by (by rewrite (walk_members_get _ _ _ _ _ _ _ Hm' Hwf), Hh, Hk).
    destruct Hr as [->|(entries & es2 & Hsd & Hs)]; [congruence|].
    assert (Hga : get_arr m "_sd" = entries) by (unfold get_arr, index; by rewrite Hsd).
    assert (exists es2', walk_sd bd' rec' entries ∅ r0' = Some (r', es2')) as [es2' Hs'].
    { unfold walk_object in Hw'. rewrite Hm', Hsd in Hw'. simpl in Hw'. bind_inv. by eauto. }
    destruct (walk_sd_both bd bd' rec rec' entries ∅ r0 r0' r es2 r' es2' k v) as
      (d & disc & v' & e1 & e2 & Hin & Hd & Ha & Hn & Hr1 & Hr2 & Hg); try done.
    { intros d disc Hin Hd Ha Hn. apply Hcov; try done. by rewrite Hga. }
    exists (d_Value disc), v', e1, e2. split_and!; try done. right. split; [done|].
    exists d, disc. by rewrite Hga.
Qed.

(** *** Arrays *)

(** The value an element of a signed array resolves. *)
Definition element_source (bd : gmap string Disclosure) (item v0 : value) : Prop :=
  match arrayElementDigest item with
  | NotPlaceholder => v0 = item
  | Placeholder d => exists disc, bd !! d = Some disc /\ d_IsArrayEntry disc = true /\ d_Value disc = v0
  | BadPlaceholder _ => False
  end.

Lemma walk_array_elem bd rec arr l es v :
  walk_array bd rec arr = Some (l, es) ->
  v ∈ l <-> exists item v0 es0, item ∈ arr /\ element_source bd item v0 /\ rec v0 = Some (v, es0).
Proof.
  revert l es. induction arr as [|item arr IH]; intros l es Hw; simpl in Hw.
  { simplify_eq. split; [by intros ?%not_elem_of_nil|]. by intros (? & ? & ? & ?%not_elem_of_nil & _). }
  setoid_rewrite elem_of_cons.
  assert (Hskip : forall l es', walk_array bd rec arr = Some (l, es') -> (forall v0, ~ element_source bd item v0) ->
    v ∈ l <-> exists i v0 es0, (i = item \/ i ∈ arr) /\ element_source bd i v0 /\ rec v0 = Some (v, es0)).
  { intros l0 es' Hl Hno. rewrite (IH _ _ Hl). split; [naive_solver|].
    intros (i & v0 & es0 & [->|Hi] & Hs & Hr); [by destruct (Hno v0)|eauto 6]. }
  assert (Hkeep : forall l v0 w es' es1, walk_array bd rec arr = Some (l, es') -> rec v0 = Some (w, es1) ->
    (forall u, element_source bd item u <-> u = v0) ->
    v ∈ w :: l <-> exists i v0 es0, (i = item \/ i ∈ arr) /\ element_source bd i v0 /\ rec v0 = Some (v, es0)).
  { intros l0 v0 w es' es1 Hl Hr Hu. rewrite elem_of_cons, (IH _ _ Hl). split.
    - intros [->|(i & u & e & ? & ? & ?)]; [|by eauto 8]. exists item, v0, es1. split; [by left|]. by rewrite Hu.
    - intros (i & u & e & [->|Hi] & Hs & Hr'); [|by eauto 8]. apply Hu in Hs as ->. left. congruence. }
  unfold element_source in Hskip, Hkeep. destruct (arrayElementDigest item) eqn:Ei; bind_inv.
  - by eapply Hkeep.
  - destruct (bd !! digest) as [disc|] eqn:Ed; [destruct (d_IsArrayEntry disc) eqn:Ea|]; bind_inv.
    + eapply Hkeep; [done..|]. intros u. split; [intros (? & ? & ? & ?); congruence|]. intros ->. by exists disc.
    + eapply Hskip; [done|]. intros u (? & ? & ? & ?). congruence.
    + eapply Hskip; [done|]. intros u (? & ? & ? & ?). congruence.
  - eapply Hskip; [done|]. intros u [].
Qed.

Lemma element_source_total bd rec arr l es item v0 :
  walk_array bd rec arr = Some (l, es) -> item ∈ arr -> element_source bd item v0 ->
  exists v es0, rec v0 = Some (v, es0) /\ v ∈ l.
Proof.
  revert l es. induction arr as [|i arr IH]; intros l es Hw Hin Hs; simpl in Hw; [by apply not_elem_of_nil in Hin|].
  apply elem_of_cons in Hin as [->|Hin].
  - unfold element_source in Hs. destruct (arrayElementDigest i); [subst| |done].
    + bind_inv. eexists _, _. split; [done|by left].
    + destruct Hs as (disc & Hd & Ha & <-). rewrite Hd, Ha in Hw. bind_inv. eexists _, _. split; [done|by left].
  - assert (exists l0 es0, walk_array bd rec arr = Some (l0, es0) /\ forall x, x ∈ l0 -> x ∈ l) as (l0 & es0 & Hl & Hsub).
    { repeat case_match; bind_inv; eexists _, _; (split; [done|]); intros; try done; by right. }
    destruct (IH _ _ Hl Hin Hs) as (v & e & Hr & Hv). eauto.
Qed.

(** ** Selected values survive *)

(** Objects with distinct keys at every depth, as the decoder builds them. *)
Inductive wf_value : value -> Prop :=
| wf_value_arr l : Forall wf_value l -> wf_value (VArr l)
| wf_value_obj m : wf_object m -> Forall (fun kv => wf_value (snd kv)) m -> wf_value (VObj m)
| wf_value_scalar v : as_arr v = None -> as_obj v = None -> wf_value v.

Definition scalar (v : value) : Prop := as_arr v = None /\ as_obj v = None.

Definition name_segment (seg : value) : Prop := exists k, seg = VString k /\ hidden k = false.
Definition plain_segment (seg : value) : Prop := seg = VNil \/ name_segment seg.

Lemma wf_value_member m k v : wf_value (VObj m) -> get k m = Some v -> wf_value v.
Proof.
  intros Hwf Hg%get_Some_In. inversion Hwf as [|m' _ Hf|v' _ Ho]; simplify_eq.
  rewrite Forall_forall in Hf. exact (Hf (k, v) Hg).
Qed.

Lemma wf_value_object m : wf_value (VObj m) -> wf_object m.
Proof. intros Hwf. by inversion Hwf; simplify_eq. Qed.

Lemma wf_value_item l item : wf_value (VArr l) -> item ∈ l -> wf_value item.
Proof.
  intros Hwf Hin. inversion Hwf as [l' Hf| |v' Ha]; simplify_eq. rewrite Forall_forall in Hf. by apply Hf.
Qed.

Lemma placeholder_ref item :
  match arrayElementDigest item with
  | NotPlaceholder => element_ref item = None
  | Placeholder d => element_ref item = Some d
  | BadPlaceholder _ => True
  end.
Proof.
  unfold arrayElementDigest, element_ref, index. destruct item; try done.
  destruct (get "..." m) as [v|]; [|done]. destruct (negb _); [done|]. by destruct v.
Qed.

Section shown.
Context (bd bd' : gmap string Disclosure) (Hsub : bd' ⊆ bd).
Context (Hdisc : forall d disc, bd !! d = Some disc -> wf_value (d_Value disc)).

Context (dm : string -> option Disclosure) (Hdm : forall d, dm d = bd !! d).

(** The disclosures of [P] are in the smaller index. *)
Definition kept (P : string -> Prop) : Prop := forall d disc, P d -> bd !! d = Some disc -> bd' !! d = Some disc.

(** [x] is selected under [path] from both resolutions of [v]. *)
Definition survives (P : string -> Prop) (v : value) (path : list value) : Prop :=
  wf_value v -> kept P -> forall f f' r r' es es' x,
  walk_value f bd v = Some (r, es) -> walk_value f' bd' v = Some (r', es') ->
  scalar x -> x ∈ selected r path -> x ∈ selected r' path.

(** A name: by way of a signed or a disclosed member. *)
Lemma object_survives rec rec' m top r es r' es' k path (P : string -> Prop) x :
  wf_value (VObj m) -> hidden k = false -> kept P ->
  walk_object bd rec m top = Some (r, es) -> walk_object bd' rec' m top = Some (r', es') ->
  (get k m = None -> forall d disc, VString d ∈ get_arr m "_sd" -> bd !! d = Some disc ->
     d_IsArrayEntry disc = false -> d_Name disc = k -> P d) ->
  (forall v0 v v' es1 es2, rec v0 = Some (v, es1) -> rec' v0 = Some (v', es2) -> wf_value v0 ->
     (get k m = Some v0 \/ get k m = None /\ exists d disc, VString d ∈ get_arr m "_sd" /\ bd !! d = Some disc /\
        d_IsArrayEntry disc = false /\ d_Name disc = k /\ d_Value disc = v0) ->
     x ∈ selected v path -> x ∈ selected v' path) ->
  x ∈ selected (VObj r) (VString k :: path) -> x ∈ selected (VObj r') (VString k :: path).
Proof using Hsub Hdisc.
  intros Hwf Hh Hk Hw Hw' HP Hsel Hx. simpl in *. destruct (get k r) as [v|] eqn:Hg; [|by apply not_elem_of_nil in Hx].
  destruct (walk_object_both bd bd' rec rec' m top r es r' es' k v) as (v0 & v' & e1 & e2 & Hr & Hr' & Hg' & Ho); try done.
  { by apply wf_value_object. }
  { intros d disc Hin Hd Ha Hn Hm. apply Hk; [|done]. by apply (HP Hm d disc). }
  rewrite Hg'. eapply Hsel; [exact Hr|exact Hr'| |exact Ho|exact Hx].
  destruct Ho as [Hm|(_ & d & disc & _ & Hd & _ & _ & <-)]; [by eapply wf_value_member|by eapply Hdisc].
Qed.

Lemma scalar_walk b f v r es : walk_value f b v = Some (r, es) -> scalar r -> r = v /\ scalar v.
Proof.
  intros Hw [Ha Ho]. destruct f as [|f]; [done|]. destruct v; simpl in Hw; bind_inv; try done.
Qed.

Lemma object_walk b f v r es : walk_value f b v = Some (VObj r, es) ->
  exists m f0, f = S f0 /\ v = VObj m /\ walk_object b (walk_value f0 b) m false = Some (r, es).
Proof. destruct f as [|f]; [done|]. destruct v; simpl; intros Hw; bind_inv. by eauto. Qed.

Lemma array_walk b f v r es : walk_value f b v = Some (VArr r, es) ->
  exists l f0, f = S f0 /\ v = VArr l /\ walk_array b (walk_value f0 b) l = Some (r, es).
Proof. destruct f as [|f]; [done|]. destruct v; simpl; intros Hw; bind_inv. by eauto. Qed.

Lemma walk_object_value b f m r es : walk_value (S f) b (VObj m) = Some (r, es) ->
  exists o, r = VObj o /\ walk_object b (walk_value f b) m false = Some (o, es).
Proof. simpl. intros Hw. bind_inv. by eauto. Qed.

Lemma below_survives q v : Forall name_segment q -> survives (nested dm v) v q.
Proof using Hsub Hdisc Hdm.
  intros Hq. revert v. induction Hq as [|seg q (k & -> & Hh) Hq IH]; intros v Hwf Hk f f' r r' es es' x Hw Hw' Hs Hx.
  - simpl in *. apply list_elem_of_singleton in Hx as ->. destruct (scalar_walk _ _ _ _ _ Hw Hs) as [-> Hv].
    destruct f' as [|f']; [done|]. destruct Hv as [Ha Ho]. destruct v; simplify_eq/=; by left.
  - destruct r; try by apply not_elem_of_nil in Hx. destruct (object_walk _ _ _ _ _ Hw) as (m0 & f0 & -> & -> & Ho).
    destruct f' as [|f']; [done|]. destruct (walk_object_value _ _ _ _ _ Hw') as (o & -> & Ho').
    eapply (object_survives _ _ _ _ _ _ _ _ _ _ (nested dm (VObj m0)));
      [done|done|done|exact Ho|exact Ho'| | |exact Hx].
    { intros _ d disc Hin _ _ _. by apply nested_sd. }
    intros v0 v1 v2 e1 e2 H1 H2 Hwf0 Hor. refine (IH v0 Hwf0 _ _ _ _ _ _ _ x H1 H2 Hs).
    intros d disc Hn. apply Hk. destruct Hor as [Hm|(_ & d0 & disc0 & Hin & Hd0 & _ & _ & <-)].
    + eapply nested_member; [by apply get_Some_In| |done]. by intros ->.
    + eapply nested_disc; [done|by rewrite Hdm|done].
Qed.

Lemma path_survives p q v :
  Forall plain_segment p -> Forall name_segment q -> survives (fun d => reaches dm p v d) v (p ++ q).
Proof using Hsub Hdisc Hdm.
  intros Hp Hq. revert v. induction Hp as [|seg p Hseg Hp IH]; intros v; [by apply below_survives|].
  intros Hwf Hk f f' r r' es es' x Hw Hw' Hs Hx. destruct Hseg as [->|(k & -> & Hh)].
  - simpl app in *. destruct r; try by apply not_elem_of_nil in Hx.
    destruct (array_walk _ _ _ _ _ Hw) as (arr & f0 & -> & -> & Ha). destruct f' as [|f']; [done|].
    clear Hw. simpl in Hw'. bind_inv. simpl in *. apply list_elem_of_bind in Hx as (w & Hx & Hin).
    apply (walk_array_elem _ _ _ _ _ _ Ha) in Hin as (item & v0 & e0 & Hi & Hsrc & Hr).
    pose proof (placeholder_ref item) as Href.
    assert (Hsrc' : element_source bd' item v0 /\ wf_value v0 /\ forall d, reaches dm p v0 d -> reaches dm (VNil :: p) (VArr arr) d).
    { unfold element_source in *. destruct (arrayElementDigest item) as [|d|]; [subst v0| |done].
      - split_and!; [done|by eapply wf_value_item|]. intros d Hd. exists item. unfold reaches_item. by rewrite Href.
      - destruct Hsrc as (disc & Hd & Ht & <-). split_and!; [|by eapply Hdisc|].
        + exists disc. split; [|done]. apply Hk; [|done]. exists item. unfold reaches_item. rewrite Href. auto.
        + intros d' Hd'. exists item. unfold reaches_item. rewrite Href. split; [done|]. right. exists disc. by rewrite Hdm. }
    destruct Hsrc' as (Hsrc' & Hwf0 & Hreach).
    match goal with E : walk_array bd' _ _ = _ |- _ => destruct (element_source_total _ _ _ _ _ _ _ E Hi Hsrc') as (w' & e' & Hr' & Hw') end.
    apply list_elem_of_bind. exists w'. split; [|done].
    exact (IH v0 Hwf0 (fun d disc Hd => Hk d disc (Hreach d Hd)) _ _ _ _ _ _ x Hr Hr' Hs Hx).
  - simpl app in *. destruct r; try by apply not_elem_of_nil in Hx.
    destruct (object_walk _ _ _ _ _ Hw) as (m0 & f0 & -> & -> & Ho). destruct f' as [|f']; [done|].
    destruct (walk_object_value _ _ _ _ _ Hw') as (o & -> & Ho').
    eapply (object_survives _ _ _ _ _ _ _ _ _ _ (reaches dm (VString k :: p) (VObj m0)));
      [done|done|done|exact Ho|exact Ho'| | |exact Hx].
    { intros Hm d disc Hin Hd Ha Hn. simpl. rewrite Hm. exists d, disc. rewrite Hdm. split_and!; auto. }
    intros v0 v1 v2 e1 e2 H1 H2 Hwf0 Hor. refine (IH v0 Hwf0 _ _ _ _ _ _ _ x H1 H2 Hs).
    intros d disc Hd. apply Hk. simpl. destruct Hor as [->|(-> & d0 & disc0 & Hin & Hd0 & Ha & Hn & <-)]; [done|].
    exists d0, disc0. rewrite Hdm. split_and!; auto.
Qed.
End shown.

(** ** The index of the sent disclosures *)

Lemma index_disclosures_lookup ds bd p d disc :
  NoDup (map d_Digest ds) -> (forall x, x ∈ ds -> bd !! d_Digest x = None) ->
  fst (index_disclosures ds bd p) !! d = Some disc <-> bd !! d = Some disc \/ (disc ∈ ds /\ d_Digest disc = d).
Proof.
  revert bd p. induction ds as [|x ds IH]; intros bd p Hn Hb; simpl; [set_solver|].
  apply NoDup_cons in Hn as [Hx Hn]. rewrite (Hb x) by (by left). rewrite IH.
  - rewrite lookup_insert_Some. specialize (Hb x ltac:(by left)). split.
    + intros [[[<- <-]|[Hne ?]]|[? ?]]; [right; split; [by left|done]|by left|right; split; [by right|done]].
    + intros [?|[[->|?]%elem_of_cons Hd]].
      * left. right. split; [congruence|done].
      * left. by left.
      * by right.
  - done.
  - intros y Hy. apply lookup_insert_None. split; [apply Hb; by right|]. intros Heq. apply Hx. rewrite Heq.
    apply list_elem_of_fmap. by exists y.
Qed.

Lemma digest_index_Some ds d disc :
  NoDup (map d_Digest ds) -> digest_index ds !! d = Some disc <-> disc ∈ ds /\ d_Digest disc = d.
Proof.
  intros Hn. unfold digest_index. rewrite index_disclosures_lookup; [|done|by intros; apply lookup_empty].
  rewrite lookup_empty. naive_solver.
Qed.

Lemma digest_lookup_index ds d : NoDup (map d_Digest ds) -> digest_lookup ds d = digest_index ds !! d.
Proof.
  intros Hn. destruct (digest_lookup ds d) as [disc|] eqn:E.
  - apply digest_lookup_Some in E. symmetry. by apply digest_index_Some.
  - destruct (digest_index ds !! d) as [disc|] eqn:E'; [|done]. apply digest_index_Some in E' as [Hin <-]; [|done].
    destruct (digest_lookup_is_Some ds disc Hin). congruence.
Qed.

Lemma elem_of_selected included ds d : d ∈ selectedDisclosures included ds <-> d ∈ ds /\ d_Digest d ∈ included.
Proof. unfold selectedDisclosures. by rewrite !list_elem_of_In, filter_In, bool_decide_eq_true. Qed.

Lemma selected_NoDup included ds : NoDup (map d_Digest ds) -> NoDup (map d_Digest (selectedDisclosures included ds)).
Proof.
  apply NoDup_fmap_sublist. unfold selectedDisclosures.
  induction ds as [|d ds IH]; simpl; [constructor|]. destruct (bool_decide _); by constructor.
Qed.

Lemma selected_index included ds d disc :
  NoDup (map d_Digest ds) ->
  digest_index (selectedDisclosures included ds) !! d = Some disc <-> digest_index ds !! d = Some disc /\ d ∈ included.
Proof.
  intros Hn. rewrite !digest_index_Some by auto using selected_NoDup. rewrite elem_of_selected. naive_solver.
Qed.

(** Everything under a selected path is in the verifier's resolution. *)
Lemma selection_survives fuel f f' payload ds keys included resolved resolved' devs devs' k p q x :
  wf_value (VObj payload) -> Forall (fun d => wf_value (d_Value d)) ds -> NoDup (map d_Digest ds) ->
  includedDigests fuel payload ds keys = Some included ->
  processPayload f payload ds = Some (resolved, devs) ->
  processPayload f' payload (selectedDisclosures included ds) = Some (resolved', devs') ->
  k ∈ keys -> parseSDJWTSelector k = Some p -> Forall plain_segment p -> Forall name_segment q ->
  scalar x -> x ∈ selected (VObj resolved) (p ++ q) -> x ∈ selected (VObj resolved') (p ++ q).
Proof.
  intros Hwf Hds Hn Hi Hp Hp' Hk Hsel Hplain Hq Hs Hx. rewrite Forall_forall in Hds.
  destruct (processPayload_walk _ _ _ _ _ Hp) as (es & P & Hw & _).
  destruct (processPayload_walk _ _ _ _ _ Hp') as (es' & P' & Hw' & _).
  set (bd := digest_index ds) in *. set (bd' := digest_index (selectedDisclosures included ds)) in *.
  assert (Hsub : bd' ⊆ bd).
  { apply map_subseteq_spec. intros d disc Hd. by apply (selected_index included ds d disc Hn) in Hd as [? _]. }
  assert (Hdisc : forall d disc, bd !! d = Some disc -> wf_value (d_Value disc)).
  { intros d disc Hd. apply digest_index_Some in Hd as [Hin _]; [|done]. by apply Hds. }
  assert (Hdm : forall d, digest_lookup ds d = bd !! d) by (intros; by apply digest_lookup_index).
  assert (Hkept : kept bd bd' (fun d => reaches (digest_lookup ds) p (VObj payload) d)).
  { intros d disc Hr Hd. apply selected_index; [done|]. split; [done|].
    apply (included_spec _ _ _ _ _ _ Hi). eauto. }
  destruct p as [|seg p]; [unfold parseSDJWTSelector in Hsel; by repeat case_match|].
  inversion_clear Hplain as [|? ? Hseg Hpl]. destruct Hseg as [->|(n & -> & Hh)]; [by apply not_elem_of_nil in Hx|].
  eapply (object_survives bd bd' Hsub Hdisc); [done|done|exact Hkept|exact Hw|exact Hw'| | |exact Hx].
  { intros Hm d disc Hin Hd Ha Hnm. simpl. rewrite Hm. exists d, disc. rewrite Hdm. split_and!; auto. }
  intros v0 v1 v2 e1 e2 H1 H2 Hwf0 Hor.
  refine (path_survives bd bd' Hsub Hdisc _ Hdm p q v0 Hpl Hq Hwf0 _ _ _ _ _ _ _ x H1 H2 Hs).
  intros d disc Hd. apply Hkept. simpl. destruct Hor as [->|(-> & d0 & disc0 & Hin & Hd0 & Ha & Hnm & <-)]; [done|].
  exists d0, disc0. rewrite Hdm. split_and!; auto.
Qed.

(** ** Collecting terminates *)

Lemma fold_opt_total {A S} (f : A -> S -> option S) l s :
  (forall x s, x ∈ l -> is_Some (f x s)) -> is_Some (fold_opt f l s).
Proof.
  revert s. induction l as [|x l IH]; intros s Hf; simpl; [by eexists|].
  destruct (Hf x s ltac:(by left)) as [s' ->]. apply IH. intros y s0 Hy. apply Hf. by right.
Qed.

Section collecting.
Context (dm : string -> option Disclosure) (bd : gmap string Disclosure) (Hdm : forall d, dm d = bd !! d).

(** From some fuel on, [collect fuel] has a result on every set. *)
Definition returns (collect : nat -> gset string -> option (gset string)) : Prop :=
  exists f, forall f', f <= f' -> forall s, is_Some (collect f' s).

Lemma returns_all {A} (collect : A -> nat -> gset string -> option (gset string)) (l : list A) :
  (forall x, x ∈ l -> returns (collect x)) ->
  exists f, forall f', f <= f' -> forall x s, x ∈ l -> is_Some (collect x f' s).
Proof.
  induction l as [|x l IH]; intros H; [exists 0; intros ? _ ? ? ?%not_elem_of_nil; done|].
  destruct (H x) as [f1 H1]; [by left|]. destruct IH as [f2 H2]; [intros; apply H; by right|].
  exists (f1 `max` f2). intros f' Hf' y s [->|Hy]%elem_of_cons; [apply H1|apply H2]; try done; lia.
Qed.

Abbreviation below := (fun v f s => collectAllNestedDisclosureDigests dm f v s).

Lemma below_returns rank n v :
  acyclic bd rank -> (forall d, refs v d -> is_Some (bd !! d) -> rank d < n) -> returns (below v).
Proof using Hdm.
  intros Hac. revert v. induction n as [n IHn] using lt_wf_ind.
  induction v as [| | | | | | | | |l IHl|m IHm] using value_ind'; intros Hv;
    try (exists 1; intros [|fuel] Hf s0; [lia|by eexists]).
  - rewrite Forall_forall in IHl. destruct (returns_all (fun v f s => below v f s) l) as [f0 H0].
    { intros v Hin. apply IHl; [done|]. intros d Hr. apply Hv. by eapply refs_element. }
    exists (S f0). intros [|f] Hf s; [lia|]. simpl. apply fold_opt_total. intros item s' Hin.
    destruct (element_ref item); [by eexists|]. apply H0; [lia|done].
  - rewrite Forall_forall in IHm. destruct (returns_all (fun kv f s => below (snd kv) f s) m) as [f1 H1].
    { intros [k v] Hin. apply (IHm (k, v)); [done|]. intros d Hr. apply Hv. by eapply refs_member. }
    destruct (returns_all (fun disc f s => below (d_Value disc) f s)
                (filter_map (fun e => as_string e ≫= dm) (get_arr m "_sd"))) as [f2 H2].
    { intros disc (e & Hin & He)%elem_of_filter_map. destruct e as [| | | | | |d0| | | |]; try done. simpl in He. rewrite Hdm in He.
      assert (Hr : refs (VObj m) d0).
      { unfold get_arr, index in Hin. destruct (get "_sd" m) as [[]|] eqn:Es; simpl in Hin;
          try (by apply not_elem_of_nil in Hin). by eapply refs_sd. }
      apply (IHn (rank d0)); [apply Hv; [done|by eexists]|]. intros d Hd Hb. by eapply Hac. }
    exists (S (f1 `max` f2)). intros [|f] Hf s; [lia|]. simpl.
    destruct (fold_opt_total (nested_sd_entry dm (collectAllNestedDisclosureDigests dm f)) (get_arr m "_sd") s) as [s' ->].
    + intros e s0 Hin. unfold nested_sd_entry. destruct (as_string e) as [d0|] eqn:Ee; [|by eexists].
      destruct (dm d0) as [disc|] eqn:Ed; [|by eexists]. apply (H2 f ltac:(lia) disc).
      apply elem_of_filter_map. exists e. split; [done|]. by rewrite Ee.
    + apply fold_opt_total. intros [k v] s0 Hin. simpl. destruct (String.eqb k "_sd"); [by eexists|].
      apply (H1 f ltac:(lia) (k, v)). done.
Qed.

Lemma rank_bound (rank : string -> nat) : exists n, forall d, is_Some (bd !! d) -> rank d < n.
Proof.
  clear Hdm. induction bd as [|d disc b Hd IH] using map_ind.
  - exists 0. intros d [disc Hd]. by rewrite lookup_empty in Hd.
  - destruct IH as [n IH]. exists (S (rank d) `max` n). intros d' [disc' Hd'].
    apply lookup_insert_Some in Hd' as [[<- _]|[_ Hd']]; [lia|]. specialize (IH d' ltac:(by eexists)). lia.
Qed.

Lemma path_returns rank path v :
  acyclic bd rank -> returns (fun f s => collectPathDisclosureDigests dm f path v s).
Proof using Hdm.
  intros Hac. revert v. induction path as [|seg path IH]; intros v.
  { destruct (rank_bound rank) as [n Hn]. apply (below_returns rank n v Hac). intros d _ Hb. by apply Hn. }
  assert (Hdef : returns (fun _ s => Some s)) by (exists 0; intros; by eexists).
  assert (Hitem : forall item, returns (fun f s => collectArrayItemDisclosureDigests dm (collectPathDisclosureDigests dm f path) item s)).
  { intros item. unfold collectArrayItemDisclosureDigests. destruct (element_ref item) as [d|]; [|apply IH].
    destruct (dm d) as [disc|]; [|by exists 0; intros; eexists].
    destruct (IH (d_Value disc)) as [f Hf]. exists f. intros f' Hf' s. by apply Hf. }
  destruct seg as [| | | |[] i| |k| | | |]; simpl; try done; destruct v; simpl; try done.
  - destruct (returns_all _ l (fun item _ => Hitem item)) as [f Hf]. exists f. intros f' Hf' s.
    apply fold_opt_total. intros item s' Hin. by apply Hf.
  - destruct (_ || _); [done|]. by destruct (l !! Z.to_nat i).
  - destruct (get k m); [apply IH|].
    destruct (returns_all (fun e f s => path_sd_entry dm (collectPathDisclosureDigests dm f path) k e s) (get_arr m "_sd"))
      as [f Hf]; [|exists f; intros f' Hf' s; apply fold_opt_total; intros e s' Hin; by apply Hf].
    intros e _. unfold path_sd_entry. destruct (as_string e) as [d|]; [|done]. destruct (dm d) as [disc|]; [|done].
    destruct (_ || _); [done|]. destruct (IH (d_Value disc)) as [f Hf]. exists f. intros f' Hf' s. by apply Hf.
Qed.
End collecting.

Lemma included_returns payload ds keys rank :
  NoDup (map d_Digest ds) -> acyclic (digest_index ds) rank ->
  exists f included, forall f', f <= f' -> includedDigests f' payload ds keys = Some included.
Proof.
  intros Hn Hac.
  assert (exists f, forall f', f <= f' -> is_Some (includedDigests f' payload ds keys)) as [f Hf].
  { destruct (returns_all (fun selector f digests =>
                match parseSDJWTSelector selector with
                | None | Some [] => Some digests
                | Some path => collectPathDisclosureDigests (digest_lookup ds) f path (VObj payload) digests
                end) keys) as [f Hf].
    - intros k _. destruct (parseSDJWTSelector k) as [[|seg path]|]; try by exists 0; intros; eexists.
      apply (path_returns _ (digest_index ds) ltac:(intros; by apply digest_lookup_index) rank _ _ Hac).
    - exists f. intros f' Hf'. apply fold_opt_total. intros k s Hin. by apply Hf. }
  destruct (Hf f ltac:(done)) as [included Hi]. exists f, included. intros f' Hf'.
  destruct (Hf f' Hf') as [included' Hi']. rewrite Hi'. f_equal. apply set_eq. intros d.
  by rewrite (included_spec _ _ _ _ _ _ Hi), (included_spec _ _ _ _ _ _ Hi').
Qed.
