(* ===== verification/PresentWire.v ===== *)
(** * PresentWire: the compact form of a presentation

    What [createSDJWTPresentation] writes, [sdjwt.ParseLenient] reads back:
    the same issuer-signed payload, exactly the selected disclosures, and the
    key binding JWT with its nonce, audience and hash. *)

From Stdlib Require Import Ascii ZArith Lia.
From stdpp Require Import base list strings gmap.
From S2P Require Import Prelude GoStrings StringFacts GoValue Format Validity SDJWT SDJWTFacts WalletState.
From S2P Require Import ClaimPath ClaimPathFacts DCQL Present PresentFacts.

#[local] Arguments String.append : simpl nomatch.

(** ** Base64url bytes *)

Definition url_byte (c : ascii) : bool :=
  visible c && negb (Ascii.eqb c ".") && negb (Ascii.eqb c "~").

Lemma b64_encode_bytes l : Forall is_byte l -> Forall (fun c => 45 <= c < 123 /\ c <> 46)%Z (b64_encode l).
Proof.
  assert (Hc : forall d, (0 <= d < 64 -> 45 <= b64_char d < 123 /\ b64_char d <> 46)%Z).
  { intros d Hd. unfold b64_char. repeat case_match; bsimpl; lia. }
  induction l as [|a|a b|a b c l IH] using triple_ind; intros H; rewrite ?Forall_cons in H;
    destruct_and?; simpl; repeat constructor; try (apply Hc; unfold is_byte in *; zlia).
  by apply IH.
Qed.

Lemma string_of_url l : Forall (fun c => 45 <= c < 123 /\ c <> 46)%Z l -> all_bytes url_byte (string_of l) = true.
Proof.
  induction 1 as [|c l [Hr Hd] Hl IH]; simpl; [done|]. rewrite IH, andb_true_r. unfold url_byte, visible.
  assert (Hn : nat_of_ascii (ascii_of c) = Z.to_nat c).
  { unfold ascii_of. apply nat_ascii_embedding. lia. }
  rewrite Hn. rewrite !andb_true_iff, !negb_true_iff. split_and!.
  - apply Nat.leb_le. lia.
  - apply Nat.leb_le. lia.
  - apply Ascii.eqb_neq. intros Heq. rewrite Heq in Hn. change (nat_of_ascii ".") with 46 in Hn. lia.
  - apply Ascii.eqb_neq. intros Heq. rewrite Heq in Hn. change (nat_of_ascii "~") with 126 in Hn. lia.
Qed.

Lemma encode_url s : all_bytes url_byte (EncodeBase64URL s) = true.
Proof. apply string_of_url, b64_encode_bytes, bytes_of_is_byte. Qed.

Lemma all_bytes_impl (f g : ascii -> bool) s :
  (forall c, f c = true -> g c = true) -> all_bytes f s = true -> all_bytes g s = true.
Proof. intros H. induction s as [|c s IH]; simpl; [done|]. rewrite !andb_true_iff. naive_solver. Qed.

Lemma encode_free_dot s : free "." (EncodeBase64URL s) = true.
Proof.
  apply (all_bytes_impl url_byte); [|apply encode_url]. intros c. unfold url_byte.
  rewrite !andb_true_iff. tauto.
Qed.

(** ** The key binding JWT parses *)

(** [json.Unmarshal] of what [json.Marshal] wrote: an object with the same
    strings. *)
Definition reads_back {J : Json} {G : Signer} (o : object) : Prop :=
  forall s, marshal_object o = Some s ->
  exists o', unmarshal_object s = Some o' /\ forall k v, get k o = Some (VString v) -> get k o' = Some (VString v).

Section wire.
Context {J : Json} {R : CredentialReader} {H : Hash} {G : Signer}.

Lemma Sign_inv header payload key jws :
  Sign header payload key = Ok jws ->
  exists k h p sig, key = Some k /\ marshal_object header = Some h /\ marshal_object payload = Some p /\
    Signature k (sha256 (EncodeBase64URL h +:+ "." +:+ EncodeBase64URL p)) = Ok sig /\
    jws = EncodeBase64URL h +:+ "." +:+ EncodeBase64URL p +:+ "." +:+ EncodeBase64URL sig.
Proof.
  unfold Sign, SigningInput. intros Hs. destruct key as [k|]; [|done].
  destruct (marshal_object header) as [h|], (marshal_object payload) as [p|]; try done.
  destruct (Signature k _) as [sig|] eqn:Es; [|done]. injection Hs as <-.
  exists k, h, p, sig. split_and!; [done..|]. by rewrite !append_assoc.
Qed.

Lemma three_parts (a b c : string) :
  free "." a = true -> free "." b = true -> free "." c = true ->
  split "." (a +:+ "." +:+ b +:+ "." +:+ c) = [a; b; c].
Proof.
  intros Ha Hb Hc. change ("." +:+ b +:+ "." +:+ c) with (String "." (b +:+ String "." c)).
  by rewrite split_sep, split_sep, split_free.
Qed.

Lemma kb_jwt_parses header payload key jws :
  Sign header payload key = Ok jws -> reads_back header -> reads_back payload ->
  get "typ" header = Some (VString "kb+jwt") ->
  exists jwt, parseKeyBindingJWT jws = Some jwt /\ j_Raw jwt = jws /\
    forall k v, get k payload = Some (VString v) -> get k (j_Payload jwt) = Some (VString v).
Proof.
  intros Hs Hh Hp Htyp. apply Sign_inv in Hs as (k & h & p & sig & -> & Hmh & Hmp & _ & ->).
  destruct (Hh h Hmh) as (ho & Huh & Hho). destruct (Hp p Hmp) as (po & Hup & Hpo).
  assert (Hsp := three_parts _ _ _ (encode_free_dot h) (encode_free_dot p) (encode_free_dot sig)).
  set (jws := EncodeBase64URL h +:+ _) in *. clearbody jws.
  exists (mkJWT jws ho po (Some sig)). split; [|split; [done|exact Hpo]]. unfold parseKeyBindingJWT, count. rewrite Hsp. simpl.
  unfold parseJWT, ParseJWTParts. rewrite (split_n_exact _ _ _ _ Hsp), !Decode_Encode, Huh, Hup. simpl.
  unfold index. by rewrite (Hho _ _ Htyp).
Qed.

(** ** Splitting the compact form *)

Definition components (raws : list string) (kb : string) : string :=
  foldr (fun r acc => r +:+ String "~" acc) kb raws.

Lemma withoutKB_components issuer raws kb :
  withoutKB issuer raws +:+ kb = issuer +:+ String "~" (components raws kb).
Proof.
  assert (Hj : forall r raws, join "~" (r :: raws) +:+ String "~" kb = components (r :: raws) kb).
  { intros r l. revert r. induction l as [|r' l IH]; intros r; [done|].
    change (join "~" (r :: r' :: l)) with (r +:+ String "~" (join "~" (r' :: l))).
    rewrite append_assoc. change (String "~" (join "~" (r' :: l)) +:+ String "~" kb)
      with (String "~" (join "~" (r' :: l) +:+ String "~" kb)). by rewrite IH. }
  unfold withoutKB. rewrite append_assoc. f_equal. destruct raws as [|r raws]; [done|].
  change (String "~" ((join "~" (r :: raws) +:+ "~") +:+ kb) = String "~" (components (r :: raws) kb)).
  rewrite append_assoc. by rewrite <- Hj.
Qed.

Lemma withoutKB_end issuer raws : exists p, withoutKB issuer raws = p +:+ "~".
Proof.
  unfold withoutKB. destruct raws as [|r raws]; [by exists issuer|].
  exists (issuer +:+ "~" +:+ join "~" (r :: raws)). by rewrite !append_assoc.
Qed.

Lemma split_components raws kb :
  Forall (fun r => free "~" r = true) raws -> free "~" kb = true -> split "~" (components raws kb) = raws ++ [kb].
Proof.
  intros Hr Hk. induction Hr as [|r raws Hf Hr IH]; simpl; [by apply split_free|].
  rewrite split_sep by done. by rewrite IH.
Qed.

Lemma components_end raws kb s c :
  kb = s +:+ String c "" -> exists s', components raws kb = s' +:+ String c "".
Proof.
  intros ->. induction raws as [|r raws [s' IH]]; simpl; [by exists s|].
  rewrite IH. exists (r +:+ String "~" s'). by rewrite append_assoc.
Qed.

(** The presentation ends in a tilde or in the last byte of the JWT. *)
Lemma wire_end issuer raws kb :
  (kb = "" \/ exists s c, kb = s +:+ String c "" /\ visible c = true) ->
  exists s c, withoutKB issuer raws +:+ kb = s +:+ String c "" /\ visible c = true.
Proof.
  rewrite withoutKB_components. intros [->|(s & c & -> & Hc)].
  - destruct raws as [|r raws] using rev_ind.
    { exists issuer, "~"%char. by split. }
    assert (Hs : exists s, components (raws ++ [r]) "" = s +:+ String "~" "").
    { unfold components. rewrite foldr_app. simpl. by apply (components_end raws (r +:+ "~") r). }
    destruct Hs as [s ->]. exists (issuer +:+ String "~" s), "~"%char. split; [|done]. by rewrite append_assoc.
  - destruct (components_end raws (s +:+ String c "") s c eq_refl) as [s' ->].
    exists (issuer +:+ String "~" s'), c. split; [|done]. by rewrite append_assoc.
Qed.

(** No space before the first tilde of a trimmed credential, so none before
    its issuer-signed JWT in the presentation. *)
Lemma wire_start raw issuer rest X e :
  trim_space raw = raw -> split "~" raw = issuer :: rest -> e ∈ space_encodings ->
  cut_prefix e (issuer +:+ String "~" X) = None.
Proof.
  intros Ht Hs He. destruct (cut_prefix e (issuer +:+ String "~" X)) as [z|] eqn:Hz; [|done]. exfalso.
  assert (Hfree : forallb (free "~") space_encodings = true) by (vm_compute; reflexivity).
  rewrite forallb_forall in Hfree. apply cut_prefix_before in Hz as [z' Hz']; [|by apply Hfree, list_elem_of_In].
  pose proof (trim_space_start raw e Ht He) as Hn.
  destruct (split_head _ _ _ _ Hs) as [[_ ->]|(s' & -> & _)]; [congruence|].
  by rewrite (cut_prefix_app _ _ _ _ Hz') in Hn.
Qed.

(** ** Disclosures *)

Lemma parseDisclosure_raw raw alg d : parseDisclosure raw alg = Ok d -> d_Raw d = raw.
Proof. unfold parseDisclosure. intros Hp. repeat case_match; by simplify_eq. Qed.

Lemma parse_disclosures_elem alg i parts ds devs d :
  parse_disclosures alg i parts = (ds, devs) -> d ∈ ds -> d_Raw d ∈ parts /\ parseDisclosure (d_Raw d) alg = Ok d.
Proof.
  revert i ds devs. induction parts as [|p parts IH]; intros i ds devs Hp Hd; simpl in Hp.
  { simplify_eq. by apply not_elem_of_nil in Hd. }
  destruct (parse_disclosures alg (i + 1) parts) as [ds0 devs0] eqn:E.
  destruct (parseDisclosure p alg) as [d0|] eqn:Ep; simplify_eq.
  - apply elem_of_cons in Hd as [->|Hd].
    + rewrite (parseDisclosure_raw _ _ _ Ep). split; [by left|done].
    + destruct (IH _ _ _ E Hd). split; [by right|done].
  - destruct (IH _ _ _ E Hd). split; [by right|done].
Qed.

Lemma parse_disclosures_again alg i ds :
  (forall d, d ∈ ds -> parseDisclosure (d_Raw d) alg = Ok d) -> parse_disclosures alg i (d_Raw <$> ds) = (ds, []).
Proof.
  revert i. induction ds as [|d ds IH]; intros i Hd; simpl; [done|].
  rewrite IH by (intros; apply Hd; by right). by rewrite (Hd d) by (by left).
Qed.

Lemma empty_component_None i parts :
  empty_component i parts = None <-> forall p, p ∈ parts -> trim_space p <> "".
Proof.
  revert i. induction parts as [|p parts IH]; intros i; simpl.
  { split; [by intros _ p ?%not_elem_of_nil|done]. }
  destruct (String.eqb_spec (trim_space p) "") as [He|Hne].
  - split; [done|]. intros Hp. by destruct (Hp p ltac:(by left)).
  - rewrite IH. setoid_rewrite elem_of_cons. naive_solver.
Qed.

(** ** Reading a credential *)

Lemma parseStructure_inv raw t :
  parseStructure raw = Ok t ->
  exists first rest jwt alg algDevs discParts devs,
    split "~" (trim_space raw) = first :: rest /\ first <> "" /\ parseJWT first = Ok jwt /\
    structure_alg (j_Payload jwt) = (alg, algDevs) /\ t_Payload t = j_Payload jwt /\
    parse_disclosures alg 1 discParts = (t_Disclosures t, devs) /\
    forall p, p ∈ discParts -> p ∈ rest /\ trim_space p <> "".
Proof.
  unfold parseStructure. intros Hp. destruct (split "~" (trim_space raw)) as [|first rest] eqn:Es; [done|].
  destruct (String.eqb_spec first ""); [done|]. destruct (parseJWT first) as [jwt|] eqn:Ej; [|done].
  destruct (structure_alg (j_Payload jwt)) as [alg algDevs] eqn:Ea.
  destruct (splitComponents rest) as [[[discParts kb] w]|] eqn:Ec; [|done].
  destruct (parse_disclosures alg 1 discParts) as [ds devs] eqn:Ed. simplify_eq/=.
  exists first, rest, jwt, alg, algDevs, discParts, devs. split_and!; try done. intros p Hin.
  unfold splitComponents in Ec. destruct (last rest); [|simplify_eq; by apply not_elem_of_nil in Hin].
  assert (Hsub : forall dp, (dp = take (length rest - 1) rest \/ dp = rest) ->
    empty_component 1 dp = None -> p ∈ dp -> p ∈ rest /\ trim_space p <> "").
  { intros dp Hdp Hn Hpd. split; [|by apply (empty_component_None 1 dp)].
    destruct Hdp as [->| ->]; [|done]. apply elem_of_take in Hpd as (j & Hj & _). by eapply list_elem_of_lookup_2. }
  repeat case_match; simplify_eq; (eapply Hsub; [|done|done]); auto.
Qed.

(** ** What follows the last tilde *)

(** Nothing, or a key binding JWT the parser recognises. *)
Definition kb_component (kb : string) (jwt : option JWT) : Prop :=
  match jwt with
  | None => kb = ""
  | Some j => parseKeyBindingJWT kb = Some j /\ free "~" kb = true /\ kb <> "" /\ all_bytes visible kb = true
  end.

Lemma visible_end s : s <> "" -> all_bytes visible s = true -> exists s' c, s = s' +:+ String c "" /\ visible c = true.
Proof.
  induction s as [|c s IH]; [done|]. simpl. intros _ [Hc Hs]%andb_true_iff.
  destruct s as [|d s]; [by exists "", c|]. destruct IH as (s' & c' & -> & Hc'); [done|done|].
  by exists (String c s'), c'.
Qed.

Lemma visible_trimmed s : s <> "" -> all_bytes visible s = true -> trim_space s = s.
Proof.
  intros Hne Hv. destruct (visible_end s Hne Hv) as (s' & c & Hs & Hc). apply (trim_space_fixed s s' c Hs Hc).
  intros e He. destruct s as [|d s]; [done|]. apply andb_true_iff in Hv as [Hd _].
  apply cut_prefix_visible; [|done].
  pose proof spaces_invisible as [Hi _]%andb_true_iff. rewrite forallb_forall in Hi. by apply Hi, list_elem_of_In.
Qed.

Lemma signed_component header payload key jws :
  Sign header payload key = Ok jws -> free "~" jws = true /\ jws <> "" /\ all_bytes visible jws = true.
Proof.
  intros (k & h & p & sig & _ & _ & _ & _ & ->)%Sign_inv.
  assert (Hf : forall s, free "~" (EncodeBase64URL s) = true).
  { intros s. apply (all_bytes_impl url_byte); [|apply encode_url]. intros c. unfold url_byte.
    rewrite !andb_true_iff. tauto. }
  assert (Hv : forall s, all_bytes visible (EncodeBase64URL s) = true).
  { intros s. apply (all_bytes_impl url_byte); [|apply encode_url]. intros c. unfold url_byte.
    rewrite !andb_true_iff. tauto. }
  unfold free in *. rewrite !all_bytes_app, !Hf, !Hv. split_and!; [done| |done].
  by destruct (EncodeBase64URL h).
Qed.

Lemma kb_splits raws kb jwt :
  kb_component kb jwt -> (forall r, r ∈ raws -> trim_space r <> "") ->
  splitComponents (raws ++ [kb]) = Ok (raws, jwt, None).
Proof.
  intros Hk Hr. unfold splitComponents. rewrite last_snoc, length_app, Nat.add_sub, take_app_length.
  apply (empty_component_None 1) in Hr. destruct jwt as [j|]; simpl in Hk; [|subst kb; simpl; by rewrite Hr].
  destruct Hk as (Hj & _ & Hne & Hv). rewrite visible_trimmed by done.
  destruct (String.eqb_spec kb ""); [done|]. by rewrite Hj, Hr.
Qed.

(** A presentation of some of a credential's disclosures parses to them. *)
Lemma presentation_parses raw t selected kb jwt :
  parseStructure raw = Ok t -> trim_space raw = raw -> kb_component kb jwt ->
  (forall d, d ∈ selected -> d ∈ t_Disclosures t) ->
  exists t', parseStructure (withoutKB (default "" (head (split "~" raw))) (d_Raw <$> selected) +:+ kb) = Ok t' /\
    t_Payload t' = t_Payload t /\ t_Disclosures t' = selected /\ t_KeyBindingJWT t' = jwt.
Proof.
  intros Hp Ht Hk Hsel.
  destruct (parseStructure_inv _ _ Hp) as (first & rest & j & alg & algDevs & parts & devs & Hs & Hf & Hj & Ha & Hpay & Hd & Hin).
  rewrite Ht in Hs. rewrite Hs. simpl default.
  assert (Helem : forall d, d ∈ selected -> free "~" (d_Raw d) = true /\ trim_space (d_Raw d) <> "" /\
                     parseDisclosure (d_Raw d) alg = Ok d).
  { intros d Hds%Hsel. destruct (parse_disclosures_elem _ _ _ _ _ _ Hd Hds) as [Hr Hok].
    destruct (Hin _ Hr) as [Hrest Htr]. split_and!; [|done|done]. apply (split_elem_free _ raw). rewrite Hs. by right. }
  assert (Hraws : Forall (fun r => free "~" r = true) (d_Raw <$> selected)).
  { apply Forall_fmap, Forall_forall. intros d Hds. by apply Helem. }
  assert (Hkf : free "~" kb = true) by (destruct jwt; simpl in Hk; [by destruct_and!|by subst]).
  set (s := withoutKB first (d_Raw <$> selected) +:+ kb).
  assert (Htrim : trim_space s = s).
  { destruct (wire_end first (d_Raw <$> selected) kb) as (s' & c & Hs' & Hc).
    { destruct jwt; simpl in Hk; [right|by left]. apply visible_end; by destruct_and!. }
    apply (trim_space_fixed s s' c Hs' Hc). intros e He. unfold s. rewrite withoutKB_components.
    by eapply wire_start. }
  assert (Hsplit : split "~" s = first :: (d_Raw <$> selected) ++ [kb]).
  { unfold s. rewrite withoutKB_components, split_sep by (apply (split_elem_free _ raw); rewrite Hs; by left).
    by rewrite split_components. }
  unfold parseStructure. rewrite Htrim, Hsplit. destruct (String.eqb_spec first ""); [done|]. rewrite Hj, Ha.
  rewrite (kb_splits _ kb jwt Hk) by (intros r (d & -> & Hds)%list_elem_of_fmap; by apply Helem).
  rewrite parse_disclosures_again by (intros; by apply Helem). eexists. by split_and!.
Qed.

(** [parseIssuerJWTPayload] reads the payload the parser reads. *)
Lemma issuer_payload raw t payload :
  parseStructure raw = Ok t -> trim_space raw = raw ->
  parseIssuerJWTPayload (default "" (head (split "~" raw))) = Some payload -> payload = t_Payload t.
Proof.
  intros Hp Ht Hi. destruct (parseStructure_inv _ _ Hp) as (first & rest & j & _ & _ & _ & _ & Hs & _ & Hj & _ & -> & _).
  rewrite Ht in Hs. rewrite Hs in Hi. simpl in Hi. unfold parseIssuerJWTPayload in Hi.
  destruct (split "." first) as [|a [|b [|c [|]]]] eqn:E; try done.
  unfold parseJWT, ParseJWTParts in Hj. rewrite (split_n_exact _ _ _ _ E) in Hj.
  repeat case_match; by simplify_eq/=.
Qed.

(** ** From the credential to the verifier *)

(** The wallet holds [cred] as parsed into [t] ([parseSDJWTEntry]). *)
Record holds (cred : StoredCredential) (t : Token) : Prop := {
  holds_parsed : exists f, ParseLenient f (Raw cred) = Some (Ok t);
  holds_trimmed : trim_space (Raw cred) = Raw cred;
  holds_claims : Claims cred = t_ResolvedClaims t;
  holds_disclosures : Disclosures cred = t_Disclosures t }.

Lemma ParseLenient_inv f raw t :
  ParseLenient f raw = Some (Ok t) ->
  exists t0 devs, parseStructure raw = Ok t0 /\ t_Payload t = t_Payload t0 /\ t_Disclosures t = t_Disclosures t0 /\
    processPayload f (t_Payload t0) (t_Disclosures t0) = Some (t_ResolvedClaims t, devs).
Proof.
  unfold ParseLenient. destruct (parseStructure raw) as [t0|]; [|done]. intros Hp. bind_inv.
  eexists t0, _. by split_and!.
Qed.

(** The claims of the key binding JWT. *)
Definition kb_binds (j : JWT) (nonce audience prefix sdAlg : string) : Prop :=
  get "nonce" (j_Payload j) = Some (VString nonce) /\ get "aud" (j_Payload j) = Some (VString audience) /\
  exists h, SDHash prefix sdAlg = Ok h /\ get "sd_hash" (j_Payload j) = Some (VString h).

Section presentation.
Context (cred : StoredCredential) (t : Token) (Hc : holds cred t).
Context (now : Z) (nonce audience : string) (key : option PrivateKey).
Context (Hheader : reads_back kb_header).
Context (Hpayload : forall h, reads_back (kb_payload now nonce audience h)).

Lemma presentation_token fuel keys s :
  createSDJWTPresentation fuel cred keys now nonce audience key = Some (Ok s) ->
  exists included prefix kb t', includedDigests fuel (t_Payload t) (t_Disclosures t) keys = Some included /\
    s = prefix +:+ kb /\ parseStructure s = Ok t' /\ t_Payload t' = t_Payload t /\
    t_Disclosures t' = selectedDisclosures included (t_Disclosures t) /\
    if holder_bound (Raw cred)
    then exists j, t_KeyBindingJWT t' = Some j /\ kb_binds j nonce audience prefix (SDAlgFromPayload (t_Payload t)) /\ j_Raw j = kb /\
      (exists p, prefix = p +:+ "~") /\
      exists h, SDHash prefix (SDAlgFromPayload (t_Payload t)) = Ok h /\ createKBJWT now nonce audience h key = Ok kb
    else t_KeyBindingJWT t' = None /\ kb = "".
Proof using Hc Hheader Hpayload.
  destruct Hc as [[f Hp] Htrim _ Hds]. apply ParseLenient_inv in Hp as (t0 & devs & Hp & Hpay & Hd & _).
  unfold createSDJWTPresentation. set (issuer := default "" _).
  destruct (parseIssuerJWTPayload issuer) as [payload|] eqn:Ei; [|done].
  assert (payload = t_Payload t) as -> by (rewrite Hpay; exact (issuer_payload _ _ _ Hp Htrim Ei)).
  rewrite Hds. destruct (includedDigests _ _ _ _) as [included|] eqn:Einc; [|done]. simpl.
  set (prefix := withoutKB issuer _). intros Hs.
  assert (Hsel : forall d, d ∈ selectedDisclosures included (t_Disclosures t) -> d ∈ t_Disclosures t0).
  { intros d [Hin _]%elem_of_selected. by rewrite <- Hd. }
  destruct (holder_bound (Raw cred)); simpl in Hs.
  - destruct (SDHash prefix _) as [h|] eqn:Eh; [|by simplify_eq].
    destruct (createKBJWT now nonce audience h key) as [kb|] eqn:Ek; [|by simplify_eq]. simplify_eq.
    unfold createKBJWT in Ek. destruct (kb_jwt_parses _ _ _ _ Ek Hheader (Hpayload h) eq_refl) as (j & Hj & Hraw & Hstr).
    destruct (presentation_parses _ _ _ kb (Some j) Hp Htrim ltac:(split; [done|by eapply signed_component]) Hsel)
      as (t' & Ht' & Hpay' & Hd' & Hkb).
    exists included, prefix, kb, t'. split_and!; try done; [congruence|]. exists j. split; [done|].
    split; [|split_and!; [done|by eapply withoutKB_end|by exists h]].
    unfold kb_binds. split_and!; [by apply Hstr..|]. exists h. split; [done|]. by apply Hstr.
  - injection Hs as <-. destruct (presentation_parses _ _ _ "" None Hp Htrim eq_refl Hsel) as (t' & Ht' & Hpay' & Hd' & Hkb).
    fold issuer in Ht'. fold prefix in Ht'. rewrite append_nil in Ht'.
    exists included, prefix, "", t'. rewrite append_nil. split_and!; try done. congruence.
Qed.
End presentation.
End wire.

(** ** The properties *)

Lemma acyclic_sub bd bd' rank : bd' ⊆ bd -> acyclic bd rank -> acyclic bd' rank.
Proof.
  intros Hsub Hac d disc d' Hd Hr [x Hx]. eapply Hac; [by eapply lookup_weaken|done|].
  exists x. by eapply lookup_weaken.
Qed.

Lemma selected_sub included ds :
  NoDup (map d_Digest ds) -> digest_index (selectedDisclosures included ds) ⊆ digest_index ds.
Proof. intros Hn. apply map_subseteq_spec. intros d disc Hd. by apply (selected_index included ds d disc Hn) in Hd as [? _]. Qed.

(** The presentation is made, and does not depend on the fuel. *)
Lemma presentation_returns {J : Json} {R : CredentialReader} {H : Hash} {G : Signer} cred keys now nonce aud key rank :
  NoDup (map d_Digest (Disclosures cred)) -> acyclic (digest_index (Disclosures cred)) rank ->
  exists fuel r, forall fuel', fuel <= fuel' ->
    createSDJWTPresentation fuel' cred keys now nonce aud key = Some r.
Proof.
  intros Hn Hac. unfold createSDJWTPresentation.
  destruct (parseIssuerJWTPayload _) as [payload|]; [|by exists 0; eexists].
  destruct (included_returns payload _ keys rank Hn Hac) as (f & included & Hf).
  exists f. eexists. intros f' Hf'. rewrite (Hf f' Hf'). simpl. reflexivity.
Qed.

(** What a presentation needs beside the query: the issuer-signed JWT has three
    parts, the hash of its _sd_alg is known, and the key signs. *)
Record presentable {J : Json} {R : CredentialReader} {H : Hash} {G : Signer} (cred : StoredCredential) (t : Token) (now : Z) (nonce aud : string)
    (key : option PrivateKey) : Prop := {
  pr_payload : is_Some (parseIssuerJWTPayload (default "" (head (split "~" (Raw cred)))));
  pr_binding : holder_bound (Raw cred) = true -> forall prefix,
    exists h kb, SDHash prefix (SDAlgFromPayload (t_Payload t)) = Ok h /\ createKBJWT now nonce aud h key = Ok kb }.

Lemma presentation_made {J : Json} {R : CredentialReader} {H : Hash} {G : Signer} cred t keys now nonce aud key fuel r :
  holds cred t -> presentable cred t now nonce aud key ->
  createSDJWTPresentation fuel cred keys now nonce aud key = Some r -> exists s, r = Ok s.
Proof.
  intros [[f Hp] Htrim _ _] [[payload Hpay] Hb]. apply ParseLenient_inv in Hp as (t0 & devs & Hp & Ht & _ & _).
  pose proof (issuer_payload _ _ _ Hp Htrim Hpay) as E. rewrite <- Ht in E. subst payload.
  unfold createSDJWTPresentation. rewrite Hpay. destruct (includedDigests _ _ _ _) as [included|]; [|done]. simpl. intros [= <-].
  destruct (holder_bound (Raw cred)); cbn [negb]; [|by eexists].
  destruct (Hb eq_refl (withoutKB (default "" (head (split "~" (Raw cred)))) (d_Raw <$> selectedDisclosures included (Disclosures cred)))) as (h & kb & -> & Hk).
  rewrite Hk. by eexists.
Qed.

(** C27: Every selected claim reaches the verifier.  From enough fuel on, the
    presentation of a stored SD-JWT credential is one fixed result, and it is a
    presentation when the issuer-signed JWT has three parts and, for a
    credential bound to a key, its hash algorithm is known and the key signs.
    The verifier's parser accepts a presentation, and every scalar value
    (neither an array nor an object) that the credential's claims hold under a
    selected path of names and nulls, or by names below one, stands under the
    same path in the claims the verifier resolves.  The disclosures have
    distinct digests and no digest cycle, names are other than [_sd] and
    [_sd_alg], and the KB-JWT objects survive [json.Marshal] and
    [json.Unmarshal]. *)
Theorem presentation_shows_selected_claims {J : Json} {R : CredentialReader} {H : Hash} {G : Signer}
    cred t keys now nonce aud key rank :
  holds cred t -> wf_value (VObj (t_Payload t)) -> Forall (fun d => wf_value (d_Value d)) (t_Disclosures t) ->
  NoDup (map d_Digest (t_Disclosures t)) -> acyclic (digest_index (t_Disclosures t)) rank ->
  reads_back kb_header -> (forall h, reads_back (kb_payload now nonce aud h)) ->
  exists fuel r,
    (forall fuel', fuel <= fuel' -> createSDJWTPresentation fuel' cred keys now nonce aud key = Some r) /\
    (presentable cred t now nonce aud key -> exists s, r = Ok s) /\
    forall s, r = Ok s -> exists f t', ParseLenient f s = Some (Ok t') /\
      forall k p q x, k ∈ keys -> parseSDJWTSelector k = Some p -> Forall plain_segment p -> Forall name_segment q ->
        scalar x -> x ∈ selected (VObj (Claims cred)) (p ++ q) -> x ∈ selected (VObj (t_ResolvedClaims t')) (p ++ q).
Proof.
  intros Hc Hwf Hds Hn Hac Hh Hp. pose proof Hc as [[f0 H0] _ Hcl Hd].
  destruct (presentation_returns cred keys now nonce aud key rank) as (fuel & r & Hr); [by rewrite Hd..|].
  exists fuel, r. split; [exact Hr|]. split; [intros Hok; by apply (presentation_made cred t keys now nonce aud key fuel), Hr|]. intros s ->.
  destruct (presentation_token cred t Hc now nonce aud key Hh Hp fuel keys s (Hr fuel ltac:(done)))
    as (included & prefix & kb & t0 & Hi & _ & Ht0 & Hpay & Hdisc & _).
  destruct (processPayload_total (t_Payload t) (selectedDisclosures included (t_Disclosures t)) rank)
    as (f & [resolved devs] & Hf); [eapply acyclic_sub; [by apply selected_sub|done]|].
  specialize (Hf f ltac:(done)). exists f, (resolve_token t0 resolved devs). split.
  { unfold ParseLenient. rewrite Ht0, Hpay, Hdisc, Hf. done. }
  intros k p q x Hk Hsel Hpl Hq Hs Hx. simpl. rewrite Hcl in Hx.
  apply ParseLenient_inv in H0 as (t1 & devs1 & _ & Hpay1 & Hd1 & Hproc). rewrite <- Hpay1, <- Hd1 in Hproc.
  by eapply (selection_survives fuel).
Qed.

(** C26: Nothing else is disclosed.  Every disclosure of a presentation, as the
    verifier's parser reads it, sits at an address in the issuer-signed
    payload that the path of a selected claim covers: it is on the way to the
    selected claim, the claim itself, or below it without passing a
    selectively disclosable array element; and the payload is unchanged. *)
Theorem presentation_discloses_only_selection {J : Json} {R : CredentialReader} {H : Hash} {G : Signer}
    cred t keys now nonce aud key fuel s :
  holds cred t -> reads_back kb_header -> (forall h, reads_back (kb_payload now nonce aud h)) ->
  createSDJWTPresentation fuel cred keys now nonce aud key = Some (Ok s) ->
  exists t', parseStructure s = Ok t' /\ t_Payload t' = t_Payload t /\
    forall d, d ∈ t_Disclosures t' -> d ∈ Disclosures cred /\
      exists k path a, k ∈ keys /\ parseSDJWTSelector k = Some path /\
        address (digest_lookup (Disclosures cred)) (VObj (t_Payload t)) a (d_Digest d) /\ covers path a = true.
Proof.
  intros Hc Hh Hp Hs. destruct (presentation_token cred t Hc now nonce aud key Hh Hp fuel keys s Hs)
    as (included & prefix & kb & t' & Hi & _ & Ht' & Hpay & Hdisc & _).
  exists t'. split_and!; [done|done|]. intros d Hd. rewrite Hdisc in Hd. destruct Hc as [_ _ _ ->]. split.
  - by apply elem_of_selected in Hd as [? _].
  - by eapply selected_disclosure_address.
Qed.

(** The key binding is over exactly what is sent.  The presentation of a
    credential bound to a holder key ends in a JWT the verifier recognises as
    the key binding JWT; it carries the request's nonce, the audience and the
    hash, under the credential's own [_sd_alg], of everything before it.  A
    credential without holder key is presented without one. *)
Theorem key_binding_covers_presentation {J : Json} {R : CredentialReader} {H : Hash} {G : Signer}
    cred t keys now nonce aud key fuel s :
  holds cred t -> reads_back kb_header -> (forall h, reads_back (kb_payload now nonce aud h)) ->
  createSDJWTPresentation fuel cred keys now nonce aud key = Some (Ok s) ->
  exists t' prefix kb, parseStructure s = Ok t' /\ s = prefix +:+ kb /\
    if holder_bound (Raw cred)
    then exists j, t_KeyBindingJWT t' = Some j /\ kb_binds j nonce aud prefix (SDAlgFromPayload (t_Payload t))
    else t_KeyBindingJWT t' = None /\ kb = "".
Proof.
  intros Hc Hh Hp Hs. destruct (presentation_token cred t Hc now nonce aud key Hh Hp fuel keys s Hs)
    as (included & prefix & kb & t' & _ & Hsp & Ht' & _ & _ & Hkb). exists t', prefix, kb. split_and!; [done..|].
  destruct (holder_bound (Raw cred)); [|done]. destruct Hkb as (j & Hj & Hb & _). by exists j.
Qed.

(** ** Decoys in arrays *)

Module Decoy.
Definition element (raw digest : string) (v : value) : Disclosure := mkDisclosure raw "" "salt" "" v digest true.
Definition ds : list Disclosure := [element "A" "dA" (VString "DE"); element "B" "dB" (VString "FR")].
Definition placeholder_of (digest : string) : value := VObj [("...", VString digest)].
(** A decoy digest (RFC 9901 section 4.2.5) before the two elements. *)
Definition payload : object :=
  [("nationalities", VArr [placeholder_of "decoy"; placeholder_of "dA"; placeholder_of "dB"])].
End Decoy.

(** A decoy digest shifts the array index a presentation discloses.  The
    resolved claims drop the decoy, so the path nationalities, 1 selects the
    second element, FR, there; the presentation counts the placeholders of
    the signed array and sends the disclosure of the first, DE, which was not
    selected, and not the one that was. *)
Theorem decoy_shifts_index :
  exists resolved included,
    processPayload 2 Decoy.payload Decoy.ds = Some (resolved, []) /\
    selected (VObj resolved) [VString "nationalities"; VInt KInt 1] = [VString "FR"] /\
    parseSDJWTSelector "nationalities[1]" = Some [VString "nationalities"; VInt KInt 1] /\
    includedDigests 2 Decoy.payload Decoy.ds ["nationalities[1]"] = Some included /\
    d_Value <$> selectedDisclosures included Decoy.ds = [VString "DE"].
Proof. eexists _, _. split_and!; vm_compute; reflexivity. Qed.

(** ** Instances for the witnesses *)
Module PresentToy.
Definition d_name : string := EncodeBase64URL "ZDE".
Definition d_city : string := EncodeBase64URL "ZDI".
Definition payload : object :=
  [("address", VObj [("country", VString "DE"); ("_sd", VArr [VString d_city])]); ("_sd", VArr [VString d_name])].

Definition json : Json := {|
  unmarshal_object := fun s =>
    match s with
    | "hdr" => Some [("typ", VString "dc+sd-jwt")]
    | "pld" => Some payload
    | "kbh" => Some kb_header
    | String "P" h => Some (kb_payload 7 "nonce" "verifier" h)
    | _ => None
    end;
  unmarshal_array := fun s =>
    match s with
    | "d1" => Some [VString "salt"; VString "given_name"; VString "Erika"]
    | "d2" => Some [VString "salt"; VString "locality"; VString "Berlin"]
    | _ => None
    end |}.
Definition hash : Hash := {| sha256 := fun s => s; sha384 := fun s => s; sha512 := fun s => s |}.
Definition signer : Signer := {|
  PrivateKey := unit;
  marshal_object := fun o => match get "sd_hash" o with
                             | Some (VString h) => Some (String "P" h)
                             | _ => Some "kbh"
                             end;
  ecdsa_sign := fun _ _ => Some (1%Z, 2%Z);
  curve_bits := fun _ => 256%Z |}.
Definition reader : CredentialReader :=
  {| Anchor := unit; holder_bound := fun _ => true; issued_at := issuedAt; chain_akis := fun _ => Some [];
     chain_ends_in := fun _ _ => false; issuance_anchors := fun _ => Err "unreachable" |}.
#[local] Existing Instances json hash signer reader.

Definition raw : string := "aGRy.cGxk.c2ln~ZDE~ZDI~".
Definition disclosures : list Disclosure :=
  [mkDisclosure "ZDE" "d1" "salt" "given_name" (VString "Erika") d_name false;
   mkDisclosure "ZDI" "d2" "salt" "locality" (VString "Berlin") d_city false].
Definition claims : object :=
  [("address", VObj [("country", VString "DE"); ("locality", VString "Berlin")]); ("given_name", VString "Erika")].
Definition token : Token :=
  mkToken raw [("typ", VString "dc+sd-jwt")] payload (Some "sig") disclosures None claims [] [].
Definition cred : StoredCredential :=
  mkCred "1" "dc+sd-jwt" raw claims "" "" false None None "" "" 0 zero_time disclosures zero_time [].

Lemma cred_holds : holds cred token.
Proof. split; [exists 3|..]; vm_compute; reflexivity. Defined.

Lemma header_reads_back : reads_back kb_header.
Proof. intros s [= <-]. exists kb_header. by split. Defined.

Lemma payload_reads_back h : reads_back (kb_payload 7 "nonce" "verifier" h).
Proof. intros s [= <-]. exists (kb_payload 7 "nonce" "verifier" h). by split. Defined.

Definition key : option (@PrivateKey signer) := Some tt.

Definition sent : string :=
  match createSDJWTPresentation 3 cred ["address"] 7 "nonce" "verifier" key with
  | Some (Ok s) => s
  | _ => ""
  end.

Lemma sent_ok : createSDJWTPresentation 3 cred ["address"] 7 "nonce" "verifier" key = Some (Ok sent).
Proof. vm_compute. reflexivity. Defined.

Lemma payload_wf : wf_value (VObj payload).
Proof.
  repeat first [apply wf_value_obj; [by_decide|]|apply wf_value_arr|apply wf_value_scalar; reflexivity|
                apply Forall_cons; split|apply Forall_nil; exact I|simpl].
Defined.

Lemma digests_distinct : NoDup (map d_Digest (t_Disclosures token)).
Proof. by_decide. Defined.

Lemma scalar_no_refs v d : scalar v -> ~ refs v d.
Proof. intros [Ha Ho] Hr. by destruct Hr. Defined.

Lemma token_acyclic : acyclic (digest_index (t_Disclosures token)) (fun _ => 0).
Proof.
  intros d disc d' [Hin _]%(digest_index_Some _ _ _ digests_distinct) Hr _. exfalso.
  repeat (apply elem_of_cons in Hin as [->|Hin]; [revert Hr; apply scalar_no_refs; split; reflexivity|]).
  by apply not_elem_of_nil in Hin.
Defined.

Lemma key_signs : presentable cred token 7 "nonce" "verifier" key.
Proof. split; [eexists; vm_compute; reflexivity|]. intros _ prefix. eexists _, _. split; reflexivity. Defined.

Lemma presentation_shows_selected_claims_witness :
  exists fuel s, createSDJWTPresentation fuel cred ["address"] 7 "nonce" "verifier" key = Some (Ok s) /\
    exists f t', ParseLenient f s = Some (Ok t') /\
      VString "Berlin" ∈ selected (VObj (t_ResolvedClaims t')) [VString "address"; VString "locality"].
Proof.
  destruct (presentation_shows_selected_claims cred token ["address"] 7 "nonce" "verifier" key (fun _ => 0)
              cred_holds payload_wf ltac:(repeat constructor) digests_distinct token_acyclic header_reads_back
              payload_reads_back) as (fuel & r & Hr & Hmade & Hs).
  destruct (Hmade key_signs) as [s Hok]. exists fuel, s. split; [rewrite <- Hok; by apply Hr|]. destruct (Hs s Hok) as (f & t' & Ht & Hsel).
  exists f, t'. split; [exact Ht|].
  apply (Hsel "address" [VString "address"] [VString "locality"] (VString "Berlin")); try (vm_compute; reflexivity).
  - by left.
  - constructor; [right; by exists "address"|constructor].
  - constructor; [by exists "locality"|constructor].
  - by split.
  - vm_compute. left.
Defined.

Lemma presentation_discloses_only_selection_witness :
  exists t', parseStructure sent = Ok t' /\ t_Payload t' = payload /\
    d_Name <$> t_Disclosures t' = ["locality"] /\
    forall d, d ∈ t_Disclosures t' -> exists a, address (digest_lookup disclosures) (VObj payload) a (d_Digest d) /\
                                               covers [VString "address"] a = true.
Proof.
  destruct (presentation_discloses_only_selection cred token ["address"] 7 "nonce" "verifier" key 3 sent
              cred_holds header_reads_back payload_reads_back sent_ok) as (t' & Ht & Hp & Hd).
  exists t'. split; [exact Ht|]. split; [exact Hp|]. split.
  - vm_compute in Ht. by injection Ht as <-.
  - intros d Hin. destruct (Hd d Hin) as (_ & k & path & a & Hk & Hpath & Ha & Hc).
    apply list_elem_of_singleton in Hk as ->. vm_compute in Hpath. injection Hpath as <-.
    exists a. split; [exact Ha|exact Hc].
Defined.

Lemma key_binding_covers_presentation_witness :
  exists t' j, parseStructure sent = Ok t' /\ t_KeyBindingJWT t' = Some j /\
    get "aud" (j_Payload j) = Some (VString "verifier").
Proof.
  destruct (key_binding_covers_presentation cred token ["address"] 7 "nonce" "verifier" key 3 sent
              cred_holds header_reads_back payload_reads_back sent_ok) as (t' & prefix & kb & Ht & _ & j & Hj & Hb).
  exists t', j. split; [exact Ht|]. split; [exact Hj|]. apply Hb.
Defined.
End PresentToy.
