(* ===== verification/Certs.v ===== *)
(** * Certs: certificate chains and issuer keys

    internal/certchain, internal/validate (chain.go, haip_credential.go),
    internal/sdjwt (vctype.go, verifier.go), internal/keys (DIDReference) and
    the lookup of an issuer's key in its JWT VC Issuer Metadata
    (internal/validate/issuer_metadata.go).

    X.509, JOSE and HTTP are libraries: the class [Pki] states what the code
    takes from them.  [Pki_crypto] shows that it provides what the status list
    checker asks for. *)

From stdpp Require Import base list strings.
From Stdlib Require Import ZArith Lia Ascii.
From S2P Require Import Prelude GoStrings GoValue Format Validity StatusList SDJWT.

Local Open Scope Z_scope.
Local Open Scope string_scope.

(** What [url.Parse] gives. *)
Record url := mkUrl {
  u_Scheme : string; u_Host : string; u_RawQuery : string; u_ForceQuery : bool; u_Fragment : string;
  u_EscapedPath : string }.

(** A [crypto.PublicKey] is an interface value: [None] is nil, the key of a
    certificate whose algorithm crypto/x509 does not know. *)
Class Pki := {
  PubKey : Type;
  X509Cert : Type;
  (** [x509.ParseCertificate], and the fields of a certificate *)
  ParseCertificate : string -> option X509Cert;
  cert_Raw : X509Cert -> string;
  (** the raw content is the DER the certificate was parsed from *)
  Parse_Raw : forall c, ParseCertificate (cert_Raw c) = Some c;
  cert_PublicKey : X509Cert -> option PubKey;
  cert_Subject : X509Cert -> string;
  cert_Issuer : X509Cert -> string;
  cert_CommonName : X509Cert -> string;
  (** [Certificate.Verify] with roots and intermediates, any key usage *)
  chain_verifies : list X509Cert -> list X509Cert -> X509Cert -> bool;
  (** [cert.CheckSignature] over its own to-be-signed part *)
  signs_itself : X509Cert -> bool;
  (** go-jose's ParseSigned with the supported algorithms, then Verify *)
  jose_verifies : string -> PubKey -> bool;
  (** [keys.ParsePublicKey] of the marshalled JWK *)
  ParsePublicKey : value -> option PubKey;
  (** [url.Parse] *)
  url_Parse : string -> option url;
  (** the status code of a GET and the body as far as it could be read *)
  http_get : string -> result why (Z * string);
  (** the first JSON value of a text, an object *)
  decode_first_object : string -> option object;
  (** the inflaters, as in [StatusList.Crypto] *)
  zlib_inflate : string -> option (list Z * bool);
  flate_inflate : string -> list Z * bool }.

Definition crypto_PublicKey `{Pki} : Type := option PubKey.

(** ** keys.go *)

Definition DIDReference (identifiers : list string) : string :=
  default "" (find_map (fun i => let trimmed := trim_space i in if has_prefix "did:" trimmed then Some trimmed else None) identifiers).

(** ** certchain.go *)

Definition certchain_Verify `{Pki} (chain anchors : list X509Cert) : result why X509Cert :=
  match chain with
  | [] => Err (Text "no certificate")
  | leaf :: intermediates =>
      match anchors with
      | [] => Err (Text "no trust anchor")
      | _ => if chain_verifies anchors intermediates leaf then Ok leaf else Err (Text "x509: certificate signed by unknown authority")
      end
  end.

Fixpoint x5c_strings (l : list value) : result why (list string) :=
  match l with
  | [] => Ok []
  | VString s :: l => let? rest := x5c_strings l in Ok (s :: rest)
  | _ :: _ => Err (Text "an x5c entry is a %T, RFC 7515 §4.1.6 requires a base64 string")
  end.

Fixpoint x5c_parse `{Pki} (l : list string) : result why (list X509Cert) :=
  match l with
  | [] => Ok []
  | b64 :: l =>
      match DecodeBase64Std b64 with
      | None => Err (Text "decoding x5c certificate: %w")
      | Some der =>
          match ParseCertificate der with
          | None => Err (Text "parsing x5c certificate: %w")
          | Some cert => let? rest := x5c_parse l in Ok (cert :: rest)
          end
      end
  end.

Definition FromX5C `{Pki} (v : value) : result why (list X509Cert) :=
  match v with
  | VNil => Ok []
  | VArr l => let? entries := x5c_strings l in x5c_parse entries
  | _ => Err (Text "the x5c header is a %T, RFC 7515 §4.1.6 requires an array")
  end.

(** ** chain.go

    The anchors are certificates: [trustlist.Certificates] parses the entries
    [trustlist.CertInfos] made of them. *)

Fixpoint CertInfos_Certificates `{Pki} (anchors : list X509Cert) : result why (list X509Cert) :=
  match anchors with
  | [] => Ok []
  | a :: anchors =>
      match ParseCertificate (cert_Raw a) with
      | None => Err (Text "trust anchor %d is not a certificate: %w")
      | Some c => let? rest := CertInfos_Certificates anchors in Ok (c :: rest)
      end
  end.

Definition ValidateCertChain `{Pki} (certs anchors : list X509Cert) : result why crypto_PublicKey :=
  let? anchors := CertInfos_Certificates anchors in
  match certchain_Verify certs anchors with
  | Err e => Err (Fmt "certificate chain not trusted: %w" [e])
  | Ok leaf => Ok (cert_PublicKey leaf)
  end.

Definition X5CCertificates `{Pki} (header : object) : result why (list X509Cert) := FromX5C (index header "x5c").

Definition ExtractAndValidateX5C `{Pki} (header : object) (anchors : list X509Cert) : result why crypto_PublicKey :=
  match anchors with
  | [] => Ok None
  | _ =>
      let? certs := X5CCertificates header in
      match certs with [] => Ok None | _ => ValidateCertChain certs anchors end
  end.

Definition ExtractX5CLeafKey `{Pki} (header : object) : result why crypto_PublicKey :=
  let? certs := X5CCertificates header in
  Ok (match certs with [] => None | leaf :: _ => cert_PublicKey leaf end).

(** ** vctype.go *)

Definition TypeSDJWTVC : string := "dc+sd-jwt".
Definition TypeSDJWTVCLegacy : string := "vc+sd-jwt".

Definition IsAcceptedVCType (typ : string) : bool := (typ =? TypeSDJWTVC) || (typ =? TypeSDJWTVCLegacy).

Definition ValidateVCType (header : object) : result why () :=
  match get "typ" header with
  | None => Err (Fmt "no typ header parameter, want %s" [Text TypeSDJWTVC])
  | Some raw =>
      match as_string raw with
      | None => Err (Text "typ header parameter is not a string")
      | Some typ =>
          if IsAcceptedVCType typ then Ok ()
          else Err (Fmt "typ header parameter is %q, want %s (or %s during the transition)" [Text typ; Text TypeSDJWTVC; Text TypeSDJWTVCLegacy])
      end
  end.

(** ** jws/verify.go and sdjwt/verifier.go *)

Definition jws_Valid `{Pki} (compact : string) (key : crypto_PublicKey) : bool :=
  match key with None => false | Some k => jose_verifies compact k end.

Definition SupportedAlgorithms : list string :=
  ["ES256"; "ES384"; "ES512"; "RS256"; "RS384"; "RS512"; "PS256"; "PS384"; "PS512"].

Definition ErrSignatureInvalid : string := "signature verification failed".

Record VerifyResult := mkVerifyResult {
  vr_SignatureValid : bool; vr_Expired : bool; vr_NotYetValid : bool; vr_Algorithm : string; vr_KeyID : string;
  vr_Issuer : string; vr_ExpiresAt : option time; vr_IssuedAt : option time; vr_NotBefore : option time; vr_Errors : list why }.

(** [time.Unix(int64(f), 0)] of a number member. *)
Definition unix_claim (claims : object) (name : string) : option time :=
  match as_float64 (index claims name) with Some f => Some (unix (int_of_float64 f)) | None => None end.

(** The issuer-signed JWT of a token. *)
Definition issuer_jwt (t : Token) : string := default "" (head (split_n 2 "~"%char (t_Raw t))).

Definition sdjwt_Verify `{Pki} (now : time) (t : Token) (key : crypto_PublicKey) : VerifyResult :=
  let alg := get_string (t_Header t) "alg" in
  let make valid errors :=
    mkVerifyResult valid (Expired (unix_claim (t_Payload t) "exp") now) (NotYet (unix_claim (t_Payload t) "nbf") now)
      alg (get_string (t_Header t) "kid") (get_string (t_Payload t) "iss")
      (unix_claim (t_Payload t) "exp") (unix_claim (t_Payload t) "iat") (unix_claim (t_Payload t) "nbf") errors in
  if negb (count "."%char (issuer_jwt t) =? 2)%nat then make false [Text "invalid JWT structure"]
  else if negb (contains SupportedAlgorithms alg) then make false [Fmt "unsupported algorithm: %s" [Text alg]]
  else if jws_Valid (issuer_jwt t) key then make true []
  else make false [Text ErrSignatureInvalid].

(** ** haip_credential.go *)

(** The empty text when nothing is wrong. *)
Definition NonStatusListFormat (claims : object) : option why :=
  match as_obj (index claims "status") with
  | None => None
  | Some status =>
      match as_obj (index status "status_list") with
      | Some _ => None
      | None =>
          let typ := get_string status "type" in
          Some (if typ =? "" then Text "the status claim is not a Token Status List (status.status_list)"
                else Fmt "the status claim uses %q, not a Token Status List (status.status_list)" [Text typ])
      end
  end.

Definition SelfSignedCertificate `{Pki} (cert : X509Cert) : bool :=
  if negb (cert_Subject cert =? cert_Issuer cert) then false else signs_itself cert.

(** The first self-signed certificate behind the leaf. *)
Fixpoint self_signed_at `{Pki} (i : Z) (certs : list X509Cert) : list why :=
  match certs with
  | [] => []
  | cert :: certs =>
      if SelfSignedCertificate cert
      then [Fmt "HAIP 1.0 §6.1.1: the credential's x5c header carries a self-signed certificate at position %d (subject %q), where the certificate of the trust anchor MUST NOT be included"
              [Text (itoa (i + 2)); Text (cert_Subject cert)]]
      else self_signed_at (i + 1) certs
  end.

Definition HAIPCredentialChain `{Pki} (chain : list X509Cert) : list why :=
  match chain with
  | [] => [Text "HAIP 1.0 §6.1.1: the credential carries no x5c header, which must hold the issuer's signing certificate and its trust chain"]
  | leaf :: rest =>
      (if SelfSignedCertificate leaf then [Text "HAIP 1.0 §6.1.1: the certificate signing the credential MUST NOT be self-signed"] else [])
      ++ self_signed_at 0 rest
  end.

Definition HAIPCredentialFindings `{Pki} (header payload : object) : list why :=
  let did := DIDReference [get_string header "kid"; get_string payload "iss"] in
  (if did =? "" then []
   else [Fmt "HAIP 1.0 §6.1.1: the credential names its issuer key by the DID %s, where the issuer's signing certificate and its trust chain travel in the x5c header instead" [Text did]])
  ++ match NonStatusListFormat payload with None => [] | Some w => [Fmt "HAIP 1.0 §6.1: %s" [w]] end
  ++ HAIPCredentialChain (match X5CCertificates header with Ok chain => chain | Err _ => [] end).

(** ** issuer_metadata.go *)

Definition wellKnownJWTVCIssuer : string := "/.well-known/jwt-vc-issuer".

(** [strings.TrimRight(s, "/")] *)
Fixpoint trim_right_slashes (s : string) : string :=
  match s with
  | "" => ""
  | String c s' => let r := trim_right_slashes s' in if (r =? "") && Ascii.eqb c "/"%char then "" else String c r
  end.

Definition JWTVCIssuerMetadataURL `{Pki} (iss : string) : result why string :=
  match url_Parse (trim_space iss) with
  | None => Err (Fmt "parsing iss %q: %w" [Text iss])
  | Some u =>
      if negb (u_Scheme u =? "https") then Err (Fmt "iss %q does not use the https scheme" [Text iss])
      else if u_Host u =? "" then Err (Fmt "iss %q has no host component" [Text iss])
      else if negb (u_RawQuery u =? "") || u_ForceQuery u || negb (u_Fragment u =? "")
      then Err (Fmt "iss %q carries a query or fragment component" [Text iss])
      else Ok (u_Scheme u +:+ "://" +:+ u_Host u +:+ wellKnownJWTVCIssuer +:+ trim_right_slashes (u_EscapedPath u))
  end.

Section metadata.
Context `{Json} `{Pki}.

Definition signature_length (t : Token) : nat := match t_Signature t with Some s => String.length s | None => 0 end.

Definition CanResolveJWTIssuerMetadata (t : Token) : bool :=
  match JWTVCIssuerMetadataURL (get_string (t_Payload t) "iss") with
  | Err _ => false
  | Ok _ =>
      if trim_space (get_string (t_Header t) "kid") =? "" then false
      else if EqualFold (trim_space (get_string (t_Header t) "alg")) "none" then false
      else (0 <? signature_length t)%nat
  end.

Definition MaxRemoteBytes : Z := Z.shiftl 10 20.

Definition DecodeRemoteJSON (body what : string) : result why object :=
  if (MaxRemoteBytes <? Z.of_nat (String.length body))%Z then Err (Fmt "%s exceeds %d bytes" [Text what; Text (itoa MaxRemoteBytes)])
  else match decode_first_object body with Some doc => Ok doc | None => Err (Text "invalid JSON") end.

Definition fetchIssuerMetadataDocument (metadataURL : string) : result why object :=
  let? resp := http_get metadataURL in
  if negb (resp.1 =? 200)%Z then Err (Fmt "issuer metadata request failed (%d): %s" [Text (itoa resp.1); Text (trim_space resp.2)])
  else match DecodeRemoteJSON resp.2 "issuer metadata" with
       | Err e => Err (Fmt "parsing issuer metadata: %w" [e])
       | Ok doc => Ok doc
       end.

Definition jwkSetKeys (set : object) : result why (list value) :=
  match as_arr (index set "keys") with
  | None | Some [] => Err (Text "issuer JWK Set does not contain keys")
  | Some l => Ok l
  end.

Definition issuerMetadataJWKSet (doc : object) : result why (list value) :=
  match get "jwks_uri" doc, get "jwks" doc with
  | Some _, Some _ => Err (Text "issuer metadata contains both jwks_uri and jwks")
  | Some rawURI, None =>
      match as_string rawURI with
      | None => Err (Text "issuer metadata jwks_uri is not a URL string")
      | Some uri =>
          if trim_space uri =? "" then Err (Text "issuer metadata jwks_uri is not a URL string")
          else match fetchIssuerMetadataDocument (trim_space uri) with
               | Err e => Err (Fmt "fetching jwks_uri: %w" [e])
               | Ok set => jwkSetKeys set
               end
      end
  | None, Some rawJWKS =>
      match as_obj rawJWKS with
      | None => Err (Text "issuer metadata jwks is not a JSON object")
      | Some set => jwkSetKeys set
      end
  | None, None => Err (Text "issuer metadata contains neither jwks_uri nor jwks")
  end.

Definition findIssuerMetadataJWK (doc : object) (kid : string) : result why object :=
  let? keysRaw := issuerMetadataJWKSet doc in
  let jwks := filter_map as_obj keysRaw in
  match List.find (fun jwk => trim_space (get_string jwk "kid") =? trim_space kid) jwks with
  | Some jwk => Ok jwk
  | None =>
      match trim_space kid =? "", jwks with
      | true, first :: _ => Ok first
      | _, _ => Err (Fmt "no issuer metadata JWK found for kid %s" [Text kid])
      end
  end.

Definition extractAndValidateJWKX5C (jwk : object) (anchors : list X509Cert) : result why crypto_PublicKey :=
  match anchors with
  | [] => Ok None
  | _ =>
      match FromX5C (index jwk "x5c") with
      | Err e => Err (Fmt "reading the jwk x5c: %w" [e])
      | Ok [] => Ok None
      | Ok certs => ValidateCertChain certs anchors
      end
  end.

Definition source_metadata : string := "issuer metadata".
Definition source_metadata_chain : string := "issuer metadata (x5c chain verified)".

(** The key of a metadata document that names the issuer. *)
Definition metadata_key (doc : object) (iss kid : string) (anchors : list X509Cert) : result why (crypto_PublicKey * string) :=
  match as_string (index doc "issuer") with
  | None => Err (Text "issuer metadata does not contain issuer")
  | Some issuer =>
      if negb (issuer =? iss) then Err (Fmt "issuer metadata issuer mismatch: got %s want %s" [Text issuer; Text iss])
      else
      let? jwk := findIssuerMetadataJWK doc kid in
      match anchors with
      | _ :: _ =>
          match extractAndValidateJWKX5C jwk anchors with
          | Err e => Err (Fmt "the issuer metadata key does not chain to the trusted list: %w" [e])
          | Ok None => Err (Text "the issuer metadata key has no x5c to chain to the trusted list")
          | Ok key => Ok (key, source_metadata_chain)
          end
      | [] =>
          match ParsePublicKey (VObj jwk) with
          | None => Err (Text "parsing issuer JWK: %w")
          | Some key => Ok (Some key, source_metadata)
          end
      end
  end.

Definition ResolveJWTIssuerMetadataKey (t : Token) (anchors : list X509Cert) : result why (crypto_PublicKey * string) :=
  if negb (CanResolveJWTIssuerMetadata t) then Ok (None, "")
  else
  let iss := trim_space (get_string (t_Payload t) "iss") in
  let? metadataURL := JWTVCIssuerMetadataURL iss in
  match fetchIssuerMetadataDocument metadataURL with
  | Err e => Err (Fmt "fetching issuer metadata: %w" [e])
  | Ok doc => metadata_key doc iss (get_string (t_Header t) "kid") anchors
  end.

(** ** verifyJWTSignature *)

Definition SourceX5CChain : string := "x5c chain".
Definition SourceProvidedKey : string := "provided key".
Definition SourceX5CLeaf : string := "x5c certificate, chain not validated".

(** A failed metadata lookup is an error of its own type. *)
Inductive signature_error := IssuerMetadataError (e : why) | OtherError (e : why).

Definition error_text (e : signature_error) : why := match e with IssuerMetadataError e => e | OtherError e => e end.

(** The last result, and whether one of the keys verified. *)
Fixpoint try_keys (now : time) (t : Token) (keys : list crypto_PublicKey) (best : option VerifyResult) : option VerifyResult :=
  match keys with
  | [] => best
  | key :: keys =>
      let r := sdjwt_Verify now t key in
      if vr_SignatureValid r then Some r else try_keys now t keys (Some r)
  end.

Definition add_error (r : VerifyResult) (e : why) : VerifyResult :=
  mkVerifyResult (vr_SignatureValid r) (vr_Expired r) (vr_NotYetValid r) (vr_Algorithm r) (vr_KeyID r) (vr_Issuer r)
    (vr_ExpiresAt r) (vr_IssuedAt r) (vr_NotBefore r) (vr_Errors r ++ [e]).

Definition verified := result signature_error (option (VerifyResult * string)).

(** After the keys at hand: the metadata of the issuer. *)
Definition after_best (now : time) (t : Token) (anchors : list X509Cert) (online : bool) (chainErr : option why)
    (best : VerifyResult) (source : string) : verified :=
  let best := match chainErr with Some e => add_error best e | None => best end in
  if negb online then Ok (Some (best, source))
  else match ResolveJWTIssuerMetadataKey t anchors with
       | Err e => Ok (Some (add_error best e, source))
       | Ok (None, _) => Ok (Some (best, source))
       | Ok (key, source') =>
           let r := sdjwt_Verify now t key in
           if vr_SignatureValid r then Ok (Some (r, source')) else Ok (Some (best, source))
       end.

Definition without_best (now : time) (t : Token) (anchors : list X509Cert) (online : bool) (chainErr : option why) : verified :=
  match chainErr with
  | Some e => Err (OtherError e)
  | None =>
      if negb online then Ok None
      else match ResolveJWTIssuerMetadataKey t anchors with
           | Err e => Err (IssuerMetadataError e)
           | Ok (None, _) => Ok None
           | Ok (key, source) => Ok (Some (sdjwt_Verify now t key, source))
           end
  end.

Definition verifyJWTSignature (now : time) (t : Token) (pubKeys : list crypto_PublicKey) (anchors : list X509Cert)
    (online : bool) : verified :=
  match ExtractAndValidateX5C (t_Header t) anchors with
  | Ok (Some key) => Ok (Some (sdjwt_Verify now t (Some key), SourceX5CChain))
  | chain =>
      let chainErr := match chain with Err e => Some e | Ok _ => None end in
      match try_keys now t pubKeys None with
      | Some r =>
          if vr_SignatureValid r then Ok (Some (r, SourceProvidedKey))
          else after_best now t anchors online chainErr r SourceProvidedKey
      | None =>
          match anchors with
          | _ :: _ => without_best now t anchors online chainErr
          | [] =>
              match ExtractX5CLeafKey (t_Header t) with
              | Err e => Err (OtherError e)
              | Ok None => without_best now t anchors online chainErr
              | Ok leafKey =>
                  let r := sdjwt_Verify now t leafKey in
                  if vr_SignatureValid r then Ok (Some (r, SourceX5CLeaf))
                  else after_best now t anchors online chainErr r SourceX5CLeaf
              end
          end
      end
  end.
End metadata.

(** ** The interface of the status list checker *)

(** checker.go: an anchor that is not a certificate is an error. *)
Definition verifyChain `{Pki} (certs : list X509Cert) (trustCerts : list string) : result why X509Cert :=
  match mapM ParseCertificate trustCerts with
  | None => Err (Text "trust anchor %d is not a certificate: %w")
  | Some anchors =>
      match certchain_Verify certs anchors with
      | Err e => Err (Fmt "the status list token's certificate chain is not trusted: %w" [e])
      | Ok leaf => Ok leaf
      end
  end.

#[export] Instance Pki_crypto `{Pki} : Crypto := {|
  StatusList.PublicKey := crypto_PublicKey;
  StatusList.Certificate := X509Cert;
  cert_key := cert_PublicKey;
  cert_name := cert_CommonName;
  from_x5c v := match FromX5C v with Ok certs => Some certs | Err _ => None end;
  parse_jwk v := Some <$> ParsePublicKey v;
  verify_chain certs anchors :=
    match verifyChain certs anchors with Ok leaf => Some leaf | Err _ => None end;
  StatusList.jws_valid := jws_Valid;
  zlib := zlib_inflate;
  flate := flate_inflate;
  did_reference s := DIDReference [s] |}.
