(* ===== verification/Mdoc.v ===== *)
(** * Mdoc: ISO/IEC 18013-5 credentials

    internal/mdoc: parsing a DeviceResponse or an IssuerSigned structure
    (parser.go, cbor.go), the issuer signature (verifier.go), the value digests
    and the device signature (presentation.go), and the session transcripts of
    internal/wallet/presentation_mdoc.go.

    fxamacker/cbor and go-cose are libraries: the classes [Cbor] and [Cose]
    state what the code takes from them.  A Go map is the list of its members,
    in the order of an iteration. *)

From stdpp Require Import base list strings gmap.
From Stdlib Require Import ZArith Lia Ascii.
From S2P Require Import Prelude GoStrings GoValue Format Validity SDJWT WalletState ClaimPath Certs.

Local Open Scope Z_scope.

(** ** CBOR *)

(** What the decoder puts into an [any], and a [RawMessage] to encode.
    Integers beyond int64 and simple values are left out. *)
Inductive cbor : Type :=
| CNil
| CBool (b : bool)
| CInt (k : int_kind) (z : Z)
| CFloat (f : float64)
| CText (s : string)
| CBytes (b : string)
| CTime (unix : Z)
| CArr (l : list cbor)
| CMap (m : list (cbor * cbor))
| CTag (n : Z) (c : cbor)
| CRaw (b : string).

Abbreviation cbor_map := (list (cbor * cbor)).

(** The bytes a value takes at least. *)
Fixpoint cbor_weight (v : cbor) : nat :=
  match v with
  | CText s | CBytes s => S (String.length s)
  | CArr l => S ((fix go l := match l with [] => O | x :: l => cbor_weight x + go l end) l)%nat
  | CMap m => S ((fix go m := match m with [] => O | (k, x) :: m => cbor_weight k + cbor_weight x + go m end) m)%nat
  | CTag _ c => S (cbor_weight c)
  | _ => 1%nat
  end.

Class Cbor := {
  (** [cborDecMode.Unmarshal] into an [any] *)
  cbor_decode : string -> option cbor;
  (** a data item takes at least one byte, and a string its own bytes more *)
  cbor_decode_weight b v : cbor_decode b = Some v -> (cbor_weight v <= String.length b)%nat;
  (** [cbor.Marshal] *)
  cbor_encode : cbor -> option string;
  (** into a [cbor.RawTag]: the number and the content *)
  cbor_raw_tag : string -> option (Z * string);
  (** into a [[]cbor.RawMessage] *)
  cbor_raw_array : string -> option (list string);
  (** into a [[]byte]; [Some None] is the nil slice of a null *)
  cbor_bytes : string -> option (option string);
  (** [cbor.Wellformed] *)
  cbor_wellformed : string -> bool;
  (** [fmt.Sprintf("%v", k)] of a map key *)
  print_key : cbor -> string;
  (** [time.Parse(time.RFC3339, s)] *)
  parse_rfc3339 : string -> option time }.

Definition key_is (k : string) (c : cbor) : bool := match c with CText s => (s =? k)%string | _ => false end.

(** [m[k]] for a text key. *)
Definition cget (k : string) (m : cbor_map) : option cbor := snd <$> List.find (fun kv => key_is k kv.1) m.

Definition as_map (c : cbor) : option cbor_map := match c with CMap m => Some m | _ => None end.
Definition as_bytes (c : cbor) : option string := match c with CBytes b => Some b | _ => None end.
Definition as_text (c : cbor) : option string := match c with CText s => Some s | _ => None end.

Definition get_text (k : string) (m : cbor_map) : option string := c ← cget k m; as_text c.
Definition get_map (k : string) (m : cbor_map) : option cbor_map := c ← cget k m; as_map c.

(** A nil map when the data is null. *)
Definition decode_map `{Cbor} (data : string) : option cbor_map :=
  match cbor_decode data with Some (CMap m) => Some m | Some CNil => Some [] | _ => None end.

(** [cbor.Unmarshal] has the default mode; no tag is read differently. *)
Definition StripCBORTag `{Cbor} (data : string) (expected : Z) : result why string :=
  match cbor_raw_tag data with
  | None => Ok data
  | Some (n, content) =>
      if n =? expected then Ok content else Err (Fmt "unexpected CBOR tag %d, want %d" [Text (itoa n); Text (itoa expected)])
  end.

Definition unmarshalTag24 `{Cbor} (data : string) : result why string :=
  match cbor_raw_tag data with
  | Some (24, content) =>
      match cbor_bytes content with
      | None => Err (Text "unwrapping tag 24 content: %w")
      | Some inner => Ok (default "" inner)
      end
  | _ => Ok data
  end.

(** ** From CBOR to the values of JSON *)

Section convert.
Context `{Cbor}.

(** A date-time string and embedded CBOR. *)
Definition tag_text (n : Z) (c : cbor) : option string := if n =? 0 then as_text c else None.
Definition tag_embedded (n : Z) (c : cbor) : option cbor := if n =? 24 then b ← as_bytes c; cbor_decode b else None.

(** Embedded CBOR (tag 24) makes the recursion not structural; a round uses
    up one unit of fuel. *)
Fixpoint convert_value (fuel : nat) (v : cbor) : option value :=
  match fuel with
  | O => None
  | S fuel =>
      let members := fold_right (fun kv acc => x ← convert_value fuel kv.2; m ← acc; Some ((print_key kv.1, x) :: m)) (Some []) in
      match v with
      | CNil => Some VNil
      | CBool b => Some (VBool b)
      | CInt k z => Some (VInt k z)
      | CFloat f => Some (VFloat f)
      | CText s => Some (VString s)
      | CBytes b => Some (VBytes b)
      | CRaw b => Some (VBytes b)
      | CTime t => Some (VString (format_rfc3339 t))
      | CArr l => VArr <$> mapM (convert_value fuel) l
      | CMap m => (fun kvs => VObj (fold_left (fun obj kv => set kv.1 kv.2 obj) kvs [])) <$> members m
      | CTag n c =>
          match tag_text n c with
          | Some s => Some (VString s)
          | None => convert_value fuel (default c (tag_embedded n c))
          end
      end
  end.

(** The weight of a value is enough fuel ([convert_total]). *)
Definition convertCBORValue (v : cbor) : value := default VNil (convert_value (cbor_weight v) v).

Definition convertCBORMapToStringKeys (m : cbor_map) : object :=
  match convertCBORValue (CMap m) with VObj o => o | _ => [] end.

Lemma weight_pos v : (0 < cbor_weight v)%nat.
Proof using. destruct v; simpl; lia. Qed.

Lemma weight_elem x l : x ∈ l -> (cbor_weight x < cbor_weight (CArr l))%nat.
Proof using. induction 1; simpl in *; lia. Qed.

Lemma weight_member k x m : (k, x) ∈ m -> (cbor_weight x < cbor_weight (CMap m))%nat.
Proof using.
  induction m as [|[k' x'] m IH]; [by intros ?%elem_of_nil|]. intros [[= -> ->]|Hin]%elem_of_cons; simpl in *; [lia|].
  specialize (IH Hin). lia.
Qed.

Lemma weight_embedded b c : cbor_decode b = Some c -> (cbor_weight c < cbor_weight (CTag 24 (CBytes b)))%nat.
Proof. intros Hc%cbor_decode_weight. simpl. lia. Qed.

Definition converts (v : cbor) (x : value) : Prop := forall fuel, (cbor_weight v <= fuel)%nat -> convert_value fuel v = Some x.

Lemma converts_list l :
  (forall v, v ∈ l -> exists x, converts v x) ->
  exists xs, forall fuel, (forall v, v ∈ l -> (cbor_weight v <= fuel)%nat) -> mapM (convert_value fuel) l = Some xs.
Proof using.
  induction l as [|v l IH]; intros Hl; [by exists []|].
  destruct (Hl v) as [x Hx]; [by left|]. destruct IH as [xs Hxs]; [intros; apply Hl; by right|].
  exists (x :: xs). intros fuel Hf. simpl. rewrite (Hx fuel) by (apply Hf; by left). simpl.
  by rewrite Hxs by (intros; apply Hf; by right).
Qed.

Lemma converts_members (m : cbor_map) :
  (forall k v, (k, v) ∈ m -> exists x, converts v x) ->
  exists kvs, forall fuel, (forall k v, (k, v) ∈ m -> (cbor_weight v <= fuel)%nat) ->
    fold_right (fun kv acc => x ← convert_value fuel kv.2; m ← acc; Some ((print_key kv.1, x) :: m)) (Some []) m = Some kvs.
Proof using.
  induction m as [|[k v] m IH]; intros Hm; [by exists []|].
  destruct (Hm k v) as [x Hx]; [by left|]. destruct IH as [kvs Hkvs]; [intros k' v' Hin; apply (Hm k'); by right|].
  exists ((print_key k, x) :: kvs). intros fuel Hf. simpl. rewrite (Hx fuel) by (apply (Hf k); by left). simpl.
  by rewrite Hkvs by (intros k' v' Hin; apply (Hf k'); by right).
Qed.

(** With at least the weight as fuel the conversion ends, always with the
    same value. *)
Lemma converts_some v : exists x, converts v x.
Proof.
  remember (cbor_weight v) as n eqn:En. revert v En. induction (lt_wf n) as [n _ IH]. intros v ->.
  assert (Hsub : forall w, (cbor_weight w < cbor_weight v)%nat -> exists x, converts w x) by (intros w Hw; by apply (IH (cbor_weight w) Hw)).
  clear IH.
  assert (Hstep : forall x, (forall fuel, (cbor_weight v <= S fuel)%nat -> convert_value (S fuel) v = Some x) -> converts v x).
  { intros x Hx [|fuel] Hf; [pose proof (weight_pos v); lia|by apply Hx]. }
  destruct v as [|b|k z|f|s|b|t|l|m|n c|b]; try (eexists; apply Hstep; intros; reflexivity).
  - destruct (converts_list l) as [xs Hxs]; [intros v Hv; by apply Hsub, weight_elem|].
    exists (VArr xs). apply Hstep. intros fuel Hf. cbn [convert_value].
    rewrite Hxs; [done|]. intros v Hv%weight_elem. lia.
  - destruct (converts_members m) as [kvs Hk]; [intros k v Hv; by apply Hsub, (weight_member k)|].
    eexists. apply Hstep. intros fuel Hf. cbn [convert_value].
    rewrite Hk; [reflexivity|]. intros k v Hv%weight_member. lia.
  - assert (Hw : (cbor_weight (default c (tag_embedded n c)) < cbor_weight (CTag n c))%nat).
    { unfold tag_embedded. destruct (Z.eqb_spec n 24) as [->|]; [|simpl; lia].
      destruct c as [| | | | |b| | | | |]; simpl; try lia.
      destruct (cbor_decode b) as [e|] eqn:Ee; simpl; [|lia]. apply weight_embedded in Ee. simpl in Ee. lia. }
    destruct (Hsub _ Hw) as [x Hx]. destruct (tag_text n c) as [s|] eqn:Et.
    + exists (VString s). apply Hstep. intros fuel _. cbn [convert_value]. by rewrite Et.
    + exists x. apply Hstep. intros fuel Hf. cbn [convert_value]. rewrite Et. apply Hx. lia.
Qed.

Lemma convert_total v fuel : (cbor_weight v <= fuel)%nat -> convert_value fuel v = Some (convertCBORValue v).
Proof.
  intros Hf. destruct (converts_some v) as [x Hx]. unfold convertCBORValue. by rewrite !Hx by lia.
Qed.
End convert.

(** ** Documents (types.go) *)

Record ValidityInfo := mkValidity { Signed : option time; ValidFrom : option time; ValidUntil : option time }.

Record MSO := mkMSO {
  mso_Version : string; DigestAlgorithm : string; mso_DocType : string;
  ValueDigests : gmap string (gmap Z string);
  mso_ValidityInfo : option ValidityInfo;
  DeviceKeyInfo : option object; DeviceKeyCBOR : string; mso_Status : option object }.

Record IssuerAuth := mkIssuerAuth {
  RawCOSE : string; ProtectedHeader : cbor_map; UnprotectedHeader : cbor_map;
  ia_Payload : option string; ia_Signature : string; ia_MSO : option MSO }.

Record DeviceSigned := mkDeviceSigned { DeviceAuth : option object; RawDeviceSignature : string }.

Inductive deviation :=
| NameSpacesNotMap | NamespaceNotArray (ns : string) | ItemUnreadable (ns : string) | RepeatedElement (ns element : string)
| IssuerAuthUnreadable (e : why).

Record Document := mkDocument {
  doc_Raw : string; DocType : string; doc_NameSpaces : list (string * list IssuerSignedItem);
  doc_IssuerAuth : option IssuerAuth; doc_DeviceSigned : option DeviceSigned;
  ResponseVersion : string; ResponseStatus : option Z; IsDeviceResponse : bool; Deviations : list deviation }.

Definition lookup_ns {A} (ns : string) (m : list (string * A)) : option A :=
  snd <$> List.find (fun kv => (ns =? kv.1)%string) m.

(** [m[ns] = append(m[ns], item)] *)
Fixpoint append_ns {A} (ns : string) (item : A) (m : list (string * list A)) : list (string * list A) :=
  match m with
  | [] => [(ns, [item])]
  | (ns', items) :: m => if (ns =? ns')%string then (ns', items ++ [item]) :: m else (ns', items) :: append_ns ns item m
  end.

(** ** parser.go *)

Section parser.
Context `{Cbor}.

(** [uint64(v)] of a signed or unsigned number; another type leaves zero. *)
Definition cbor_uint64 (c : cbor) : option Z :=
  match c with CInt KInt64 z => Some (z mod 2 ^ 64) | CInt KUint64 z => Some z | _ => None end.

Definition item_of_map (itemMap : cbor_map) (rawForDigest : string) : IssuerSignedItem :=
  mkItem (default 0 (c ← cget "digestID" itemMap; cbor_uint64 c))
    (bytes_of (default "" (c ← cget "random" itemMap; as_bytes c)))
    (default "" (get_text "elementIdentifier" itemMap))
    (convertCBORValue (default CNil (cget "elementValue" itemMap)))
    (bytes_of rawForDigest).

(** The item's bytes and the bytes its digest covers. *)
Definition item_bytes (raw : cbor) : result why (string * string) :=
  match raw with
  | CBytes v => Ok (v, v)
  | CTag n c =>
      if negb (n =? 24) then Err (Fmt "unexpected tag: %d" [Text (itoa n)])
      else match as_bytes c with
           | None => Err (Text "tag 24 content is not bstr")
           | Some b => Ok (b, default b (cbor_encode (CTag n c)))
           end
  | _ =>
      match cbor_encode raw with
      | None => Err (Text "cannot handle item type %T")
      | Some b => let? inner := unmarshalTag24 b in Ok (inner, b)
      end
  end.

Definition parseIssuerSignedItem (raw : cbor) : result why IssuerSignedItem :=
  let? bytes := item_bytes raw in
  match decode_map bytes.1 with
  | None => Err (Text "decoding IssuerSignedItem: %w")
  | Some itemMap => Ok (item_of_map itemMap bytes.2)
  end.

(** The items of one namespace: the readable ones with a new element
    identifier, and what was dropped. *)
Fixpoint parse_items (ns : string) (seen : gset string) (items : list cbor) : list IssuerSignedItem * list deviation :=
  match items with
  | [] => ([], [])
  | raw :: items =>
      match parseIssuerSignedItem raw with
      | Err _ => let '(kept, devs) := parse_items ns seen items in (kept, ItemUnreadable ns :: devs)
      | Ok isi =>
          let id := item_ElementIdentifier isi in
          if bool_decide (id ∈ seen)
          then let '(kept, devs) := parse_items ns seen items in (kept, RepeatedElement ns id :: devs)
          else let '(kept, devs) := parse_items ns ({[id]} ∪ seen) items in (isi :: kept, devs)
      end
  end.

Fixpoint parse_namespaces (nsMap : cbor_map) (out : list (string * list IssuerSignedItem)) :
    list (string * list IssuerSignedItem) * list deviation :=
  match nsMap with
  | [] => (out, [])
  | (nsKey, CArr items) :: nsMap =>
      let ns := print_key nsKey in
      let '(kept, devs) := parse_items ns ∅ items in
      let '(out, more) := parse_namespaces nsMap (fold_left (fun out isi => append_ns ns isi out) kept out) in
      (out, devs ++ more)
  | (nsKey, _) :: nsMap =>
      let '(out, more) := parse_namespaces nsMap out in (out, NamespaceNotArray (print_key nsKey) :: more)
  end.

Definition parse_nameSpaces (issuerSigned : cbor_map) : list (string * list IssuerSignedItem) * list deviation :=
  match cget "nameSpaces" issuerSigned with
  | None => ([], [])
  | Some (CMap nsMap) => parse_namespaces nsMap []
  | Some _ => ([], [NameSpacesNotMap])
  end.

Definition digests_of (digestMap : cbor_map) : gmap Z string :=
  fold_left (fun m kv => match as_bytes kv.2 with Some b => <[default 0 (cbor_uint64 kv.1) := b]> m | None => m end) digestMap ∅.

Definition parse_valueDigests (vd : cbor_map) : gmap string (gmap Z string) :=
  fold_left (fun m kv => <[print_key kv.1 := digests_of (default [] (as_map kv.2))]> m) vd ∅.

Definition parse_time (vi : cbor_map) (k : string) : option time :=
  match cget k vi with
  | Some (CText s) => parse_rfc3339 s
  | Some (CTime t) => Some (unix t)
  | Some (CTag _ (CText s)) => parse_rfc3339 s
  | _ => None
  end.

Definition parseValidityInfo (vi : cbor_map) : ValidityInfo :=
  mkValidity (parse_time vi "signed") (parse_time vi "validFrom") (parse_time vi "validUntil").

(** The device key goes through the encoder again; a missing one encodes as
    null. *)
Definition parse_mso_map (m : cbor_map) : MSO :=
  mkMSO (default "" (get_text "version" m)) (default "" (get_text "digestAlgorithm" m)) (default "" (get_text "docType" m))
    (match get_map "valueDigests" m with Some vd => parse_valueDigests vd | None => ∅ end)
    (parseValidityInfo <$> get_map "validityInfo" m)
    (convertCBORMapToStringKeys <$> get_map "deviceKeyInfo" m)
    (match get_map "deviceKeyInfo" m with
     | Some dk => default "" (cbor_encode (default CNil (cget "deviceKey" dk)))
     | None => ""
     end)
    (convertCBORMapToStringKeys <$> get_map "status" m).

Definition parseMSO (data : string) : option MSO := parse_mso_map <$> decode_map data.

(** The array to parse and the form go-cose verifies. *)
Definition cose_bytes (raw : cbor) : result why (string * string) :=
  match raw with
  | CBytes v =>
      let? untagged := StripCBORTag v 18 in
      match cbor_encode (CTag 18 (CRaw untagged)) with
      | None => Err (Text "cbor")
      | Some rawCOSE => Ok (untagged, rawCOSE)
      end
  | CTag n c =>
      match cbor_encode (CTag n c) with
      | None => Err (Text "cbor")
      | Some tagged =>
          match as_bytes c with
          | Some b => Ok (b, tagged)
          | None => match cbor_encode c with Some b => Ok (b, tagged) | None => Err (Text "cbor") end
          end
      end
  | _ =>
      match cbor_encode raw with
      | None => Err (Text "cannot handle issuerAuth type %T")
      | Some b => Ok (b, default b (cbor_encode (CTag 18 raw)))
      end
  end.

Definition protected_header (data : string) : cbor_map :=
  match cbor_bytes data with
  | Some (Some bytes) => if (bytes =? "")%string then [] else default [] (decode_map bytes)
  | _ => []
  end.

Definition cose_payload (data : string) : option string :=
  match cbor_bytes data with
  | Some payload => payload
  | None => match unmarshalTag24 data with Ok inner => Some inner | Err _ => None end
  end.

(** The MSO of a payload, which may be wrapped once more. *)
Definition payload_mso (payload : option string) : option MSO :=
  p ← payload; parseMSO (match unmarshalTag24 p with Ok inner => inner | Err _ => p end).

Definition parseIssuerAuth (raw : cbor) : result why IssuerAuth :=
  let? bytes := cose_bytes raw in
  match cbor_raw_array bytes.1 with
  | None => Err (Text "decoding COSE_Sign1 array: %w")
  | Some [protected; unprotected; payload; sig] =>
      Ok (mkIssuerAuth bytes.2 (protected_header protected) (default [] (decode_map unprotected)) (cose_payload payload)
            (default "" (default None (cbor_bytes sig))) (payload_mso (cose_payload payload)))
  | Some l => Err (Fmt "COSE_Sign1 expected 4 elements, got %d" [Text (itoa (Z.of_nat (length l)))])
  end.

Definition document_of (data : string) (issuerSigned : cbor_map) : Document :=
  let '(nameSpaces, devs) := parse_nameSpaces issuerSigned in
  match cget "issuerAuth" issuerSigned with
  | None => mkDocument data "" nameSpaces None None "" None false devs
  | Some auth =>
      match parseIssuerAuth auth with
      | Ok ia => mkDocument data (match ia_MSO ia with Some m => mso_DocType m | None => "" end) nameSpaces (Some ia) None "" None false devs
      | Err e => mkDocument data "" nameSpaces None None "" None false (devs ++ [IssuerAuthUnreadable e])
      end
  end.

Definition parseIssuerSigned (data : string) : result why Document :=
  match decode_map data with
  | None => Err (Text "decoding IssuerSigned CBOR: %w")
  | Some issuerSigned => Ok (document_of data issuerSigned)
  end.

Definition parseDeviceSigned (ds : cbor_map) : DeviceSigned :=
  match get_map "deviceAuth" ds with
  | None => mkDeviceSigned None ""
  | Some da =>
      mkDeviceSigned (Some (convertCBORMapToStringKeys da))
        (match cget "deviceSignature" da with Some sig => default "" (cbor_encode sig) | None => "" end)
  end.

(** The members of the response and of its first document around the
    issuer-signed part. *)
Definition with_response (data : string) (resp docMap : cbor_map) (doc : Document) : Document :=
  mkDocument data (default (DocType doc) (get_text "docType" docMap)) (doc_NameSpaces doc) (doc_IssuerAuth doc)
    (match get_map "deviceSigned" docMap with Some ds => Some (parseDeviceSigned ds) | None => doc_DeviceSigned doc end)
    (default (ResponseVersion doc) (get_text "version" resp))
    (match cget "status" resp with Some c => cbor_uint64 c | None => None end) true (Deviations doc).

Definition parseDeviceResponse (data : string) : result why Document :=
  match decode_map data with
  | None => Err (Text "cbor")
  | Some resp =>
      match cget "documents" resp with
      | None => Err (Text "no documents field")
      | Some (CArr (first :: _)) =>
          match as_map first with
          | None => Err (Text "invalid document entry")
          | Some docMap =>
              match get_map "issuerSigned" docMap with
              | None => Err (Text "no issuerSigned in document")
              | Some issuerSigned =>
                  match cbor_encode (CMap issuerSigned) with
                  | None => Err (Text "cbor")
                  | Some issuerBytes => let? doc := parseIssuerSigned issuerBytes in Ok (with_response data resp docMap doc)
                  end
              end
          end
      | Some _ => Err (Text "empty documents array")
      end
  end.

Definition mdoc_Parse (raw : string) : result why Document :=
  match DecodeHexOrBase64URL (trim_space raw) with
  | None => Err (Text "decoding input: %w")
  | Some data => match parseDeviceResponse data with Ok doc => Ok doc | Err _ => parseIssuerSigned data end
  end.

(** The status of the MSO in the shape of a JWT status claim. *)
Definition StatusClaims (doc : Document) : object :=
  match ia ← doc_IssuerAuth doc; mso ← ia_MSO ia; mso_Status mso with
  | Some st => [("status", VObj st)]
  | None => []
  end.
End parser.

(** ** verifier.go *)

Class Cose (pki : Pki) := {
  (** [Sign1Message.UnmarshalCBOR] accepts the message *)
  sign1_parses : string -> bool;
  (** [cose.NewVerifier] accepts the key for the algorithm *)
  verifier_for : string -> @crypto_PublicKey pki -> bool;
  (** [msg.Verify(nil, verifier)] *)
  sign1_verifies : string -> string -> @crypto_PublicKey pki -> bool;
  (** the public key of a COSE_Key: its curve when it is an EC2 key *)
  CoseKey : Type;
  cose_key : string -> result why CoseKey;
  cose_curve : CoseKey -> option string;
  (** an untagged COSE_Sign1 over a detached payload, with ES256 *)
  untagged_parses : string -> bool;
  es256_verifies : string -> string -> CoseKey -> bool }.

Record mdocVerifyResult := mkMdocResult {
  mr_SignatureValid : bool; mr_Expired : bool; mr_NotYetValid : bool; mr_Algorithm : string; mr_DocType : string;
  mr_Validity : option ValidityInfo; mr_Errors : list why; mr_Warnings : list why }.

Definition coseAlgName (id : Z) : string :=
  if id =? -7 then "ES256" else if id =? -35 then "ES384" else if id =? -36 then "ES512"
  else if id =? -37 then "PS256" else if id =? -257 then "RS256"
  else "unknown(" +:+ itoa id +:+ ")".

Definition coseAlgorithm (name : string) : bool := contains ["ES256"; "ES384"; "ES512"; "PS256"] name.

(** The algorithm label of the protected header. *)
Definition protected_alg (header : cbor_map) : string :=
  match List.find (fun kv => match kv.1 with CInt KInt64 1 => true | _ => false end) header with
  | Some (_, CInt KInt64 v) => coseAlgName v
  | Some (_, CInt KUint64 v) => coseAlgName (wrap64 v)
  | _ => ""
  end.

(** Why an issuer signature does not verify, in the order of the checks. *)
Definition signature_errors `{C : Cose} (ia : IssuerAuth) (key : crypto_PublicKey) : list why :=
  let alg := protected_alg (ProtectedHeader ia) in
  if (alg =? "")%string then [Text "cannot determine COSE algorithm from protected header"]
  else if negb (coseAlgorithm alg) then [Fmt "unsupported COSE algorithm: %s" [Text alg]]
  else if negb (sign1_parses (RawCOSE ia)) then [Text "parsing COSE_Sign1: %v"]
  else if negb (verifier_for alg key) then [Text "creating verifier: %v"]
  else if negb (sign1_verifies (RawCOSE ia) alg key) then [Text "signature verification failed: %v"]
  else [].

Definition missing_algorithm (mso : option MSO) : list why :=
  match mso with
  | Some m => if (DigestAlgorithm m =? "")%string
              then [Text "the MSO carries no digestAlgorithm, which ISO 18013-5 requires (assuming SHA-256)"] else []
  | None => []
  end.

Definition mdoc_Verify `{C : Cose} (now : time) (doc : Document) (key : crypto_PublicKey) : mdocVerifyResult :=
  match doc_IssuerAuth doc with
  | None => mkMdocResult false false false "" (DocType doc) None [Text "no issuerAuth found"] []
  | Some ia =>
      let vi := mso ← ia_MSO ia; mso_ValidityInfo mso in
      let errors := signature_errors ia key in
      mkMdocResult (match errors with [] => true | _ => false end)
        (match vi with Some vi => Expired (ValidUntil vi) now | None => false end)
        (match vi with Some vi => NotYet (ValidFrom vi) now | None => false end)
        (protected_alg (ProtectedHeader ia)) (DocType doc) vi errors (missing_algorithm (ia_MSO ia))
  end.

(** ** presentation.go *)

Definition DigestHasher `{Hash} (alg : string) : result why (string -> string) :=
  if (alg =? "")%string || (alg =? "SHA-256")%string then Ok sha256
  else if (alg =? "SHA-384")%string then Ok sha384
  else if (alg =? "SHA-512")%string then Ok sha512
  else Err (Fmt "unsupported digest algorithm %q" [Text alg]).

Definition check_item (hash : string -> string) (digests : gmap Z string) (item : IssuerSignedItem) : result why () :=
  let name := Text (item_ElementIdentifier item) in
  match digests !! item_DigestID item with
  | None => Err (Fmt "element %q has digest id %d, which the MSO does not list" [name; Text (itoa (item_DigestID item))])
  | Some want =>
      match item_RawCBOR item with
      | [] => Err (Fmt "element %q kept no encoded form to hash" [name])
      | raw => if (hash (string_of raw) =? want)%string then Ok ()
               else Err (Fmt "element %q does not match the digest the issuer signed" [name])
      end
  end.

(** The first error of a list of checks. *)
Fixpoint check_each {A} (f : A -> result why ()) (l : list A) : result why () :=
  match l with [] => Ok () | x :: l => let? _ := f x in check_each f l end.

Definition VerifyValueDigests `{Hash} (doc : Document) : result why () :=
  match ia ← doc_IssuerAuth doc; ia_MSO ia with
  | None => Err (Text "document carries no MSO to check digests against")
  | Some mso =>
      let? hash := DigestHasher (DigestAlgorithm mso) in
      match doc_NameSpaces doc with
      | [] => Err (Text "document discloses no elements")
      | nameSpaces =>
          check_each (fun ns =>
            match ValueDigests mso !! ns.1 with
            | None => Err (Fmt "the MSO carries no digests for namespace %q" [Text ns.1])
            | Some digests => check_each (check_item hash digests) ns.2
            end) nameSpaces
      end
  end.

Definition tag24Raw `{Cbor} (encoded : string) : result why string :=
  match cbor_encode (CTag 24 (CBytes encoded)) with Some b => Ok b | None => Err (Text "wrapping in Tag 24: %w") end.

Definition tag24 `{Cbor} (v : cbor) : result why string :=
  match cbor_encode v with Some b => tag24Raw b | None => Err (Text "cbor") end.

Definition DeviceKey `{C : Cose} (doc : Document) : result why CoseKey :=
  match ia ← doc_IssuerAuth doc; ia_MSO ia with
  | None => Err (Text "document carries no MSO")
  | Some mso =>
      match DeviceKeyInfo mso with
      | None => Err (Text "the MSO names no device key, so the credential is not holder-bound")
      | Some info =>
          match get "deviceKey" info with
          | None => Err (Text "deviceKeyInfo carries no deviceKey")
          | Some _ =>
              if (DeviceKeyCBOR mso =? "")%string then Err (Text "deviceKey is not a COSE_Key map")
              else
              let? key := cose_key (DeviceKeyCBOR mso) in
              match cose_curve key with
              | None => Err (Text "device key is %T, not an EC2 key")
              | Some crv => if (crv =? "P-256")%string then Ok key else Err (Fmt "device key curve %s is not P-256" [Text crv])
              end
          end
      end
  end.

(** What the holder signs: DeviceAuthentication in tag 24. *)
Definition device_authentication `{Cbor} (sessionTranscript docType : string) : result why string :=
  let? emptyNamespaces := tag24 (CMap []) in
  if negb (cbor_wellformed sessionTranscript) then Err (Text "the session transcript is not valid CBOR: %w")
  else match cbor_encode (CArr [CText "DeviceAuthentication"; CRaw sessionTranscript; CText docType; CRaw emptyNamespaces]) with
       | None => Err (Text "encoding DeviceAuthentication: %w")
       | Some authentication => tag24Raw authentication
       end.

Definition VerifyDeviceAuth `{Cbor} `{C : Cose} (doc : Document) (sessionTranscript : string) : result why () :=
  match ds ← doc_DeviceSigned doc; auth ← DeviceAuth ds; Some ds with
  | None => Err (Text "presentation carries no device signature")
  | Some ds =>
      if (RawDeviceSignature ds =? "")%string then Err (Text "device authentication is not a signature (deviceMac is not supported)")
      else
      let? deviceKey := DeviceKey doc in
      let? payload := device_authentication sessionTranscript (DocType doc) in
      if negb (untagged_parses (RawDeviceSignature ds)) then Err (Text "parsing the device signature: %w")
      else if es256_verifies (RawDeviceSignature ds) payload deviceKey then Ok ()
      else Err (Text "the device signature does not verify against this request: %w")
  end.

(** ** x5chain (internal/certchain) *)

Definition is_label (label : Z) (k : cbor) : bool :=
  match k with CInt KInt64 z | CInt KUint64 z | CInt KInt z => z =? label | _ => false end.

Definition headerValue (h : cbor_map) (label : Z) : option cbor := snd <$> List.find (fun kv => is_label label kv.1) h.

Fixpoint chain_ders (l : list cbor) : result why (list string) :=
  match l with
  | [] => Ok []
  | CBytes der :: l => let? rest := chain_ders l in Ok (der :: rest)
  | _ :: _ => Err (Text "an x5chain entry is a %T, RFC 9360 §2 requires a byte string")
  end.

Definition x5chain_ders (v : cbor) : result why (list string) :=
  match v with
  | CBytes der => Ok [der]
  | CArr l => chain_ders l
  | _ => Err (Text "the x5chain header is a %T, RFC 9360 §2 requires a byte string or an array of them")
  end.

Definition coseX5Chain : Z := 33.

(** The protected bucket counts first. *)
Definition FromCOSE `{Pki} (protected unprotected : cbor_map) : result why (list X509Cert) :=
  match (match headerValue protected coseX5Chain with Some v => Some v | None => headerValue unprotected coseX5Chain end) with
  | None => Ok []
  | Some v =>
      let? ders := x5chain_ders v in
      match mapM ParseCertificate ders with
      | None => Err (Text "parsing x5chain certificate: %w")
      | Some certs => Ok certs
      end
  end.

Definition ExtractMDOCX5ChainCertificates `{Pki} (doc : Document) : result why (list X509Cert) :=
  match doc_IssuerAuth doc with
  | None => Ok []
  | Some ia => FromCOSE (ProtectedHeader ia) (UnprotectedHeader ia)
  end.

(** ** Session transcripts (internal/wallet/presentation_mdoc.go) *)

Section transcripts.
Context `{Cbor} `{Hash}.

Definition thumbprint_value (jwkThumbprint : string) : cbor := if (jwkThumbprint =? "")%string then CNil else CBytes jwkThumbprint.

(** [null, null, [label, SHA256(HandoverInfo)]] *)
Definition handover_transcript (label : string) (info : list cbor) : result why string :=
  match cbor_encode (CArr info) with
  | None => Err (Text "encoding HandoverInfo: %w")
  | Some handoverInfo =>
      match cbor_encode (CArr [CNil; CNil; CArr [CText label; CBytes (sha256 handoverInfo)]]) with
      | Some t => Ok t
      | None => Err (Text "cbor")
      end
  end.

Definition BuildOID4VCIIAESessionTranscript (challengeEndpoint nonce jwkThumbprint : string) : result why string :=
  if (trim_space challengeEndpoint =? "")%string
  then Err (Text "interactive authorization session transcript needs the authorization challenge endpoint")
  else handover_transcript "OpenID4VCIIAEHandover" [CText challengeEndpoint; CText nonce; thumbprint_value jwkThumbprint].

Definition BuildOID4VPSessionTranscript (clientID nonce jwkThumbprint responseURI : string) : result why string :=
  handover_transcript "OpenID4VPHandover" [CText clientID; CText nonce; thumbprint_value jwkThumbprint; CText responseURI].

Definition buildSessionTranscriptOID4VPDCAPI (origin nonce jwkThumbprint : string) : result why string :=
  handover_transcript "OpenID4VPDCAPIHandover" [CText origin; CText nonce; thumbprint_value jwkThumbprint].

(** ISO 18013-7 Annex B.4.4 *)
Definition buildSessionTranscriptISO (clientID responseURI nonce mdocNonce : string) : result why string :=
  match cbor_encode (CArr [CText clientID; CText mdocNonce]), cbor_encode (CArr [CText responseURI; CText mdocNonce]) with
  | Some clientIDToHash, Some responseURIToHash =>
      match cbor_encode (CArr [CNil; CNil; CArr [CBytes (sha256 clientIDToHash); CBytes (sha256 responseURIToHash); CText nonce]]) with
      | Some t => Ok t
      | None => Err (Text "cbor")
      end
  | _, _ => Err (Text "encoding clientIdToHash: %w")
  end.
End transcripts.
