(* ===== verification/StatusListCwt.v ===== *)
(** * StatusListCwt: Status List Tokens in CWT format

    internal/statuslist/cwt.go, the reading side: a tagged COSE_Sign1 whose
    claims set holds the list, checked like the JWT of StatusList.  With it
    [CheckWithOptions] is complete, and what a successful check establishes is
    stated for both formats.

    The decoder of the message and of the claims set, and the algorithm the
    protected header names, are libraries (fxamacker/cbor and go-cose). *)

From Stdlib Require Import Ascii ZArith Lia.
From stdpp Require Import base list strings gmap.
From S2P Require Import Prelude GoStrings GoValue Format Validity StatusList Certs Mdoc.

Local Open Scope Z_scope.

(** A [cose.Sign1Message]. *)
Record sign1 := mkSign1 { s1_Protected : cbor_map; s1_Unprotected : cbor_map; s1_Payload : option string }.

Class Cwt := {
  (** [cwtDecMode.Unmarshal] into a [cbor.RawTag] and into an [any] *)
  cwt_raw_tag : string -> option (Z * string);
  cwt_decode : string -> option cbor;
  (** [Sign1Message.UnmarshalCBOR] *)
  sign1_message : string -> option sign1;
  (** [ProtectedHeader.Algorithm] *)
  header_Algorithm : cbor_map -> option Z }.

Definition tagCOSESign1 : Z := 18.
Definition tagCOSEMac0 : Z := 17.
Definition tagCWT : Z := 61.

Definition cwtClaimSubject : Z := 2.
Definition cwtClaimExpiration : Z := 4.
Definition cwtClaimIssuedAt : Z := 6.
Definition cwtClaimStatusList : Z := 65533.
Definition cwtClaimTTL : Z := 65534.
Definition coseHeaderType : Z := 16.

(** What [asInt] sees of a decoded value. *)
Definition number_of (c : cbor) : value :=
  match c with CInt k z => VInt k z | CFloat f => VFloat f | _ => VNil end.

(** A claim that is absent is nil. *)
Definition cwtClaim (claims : cbor_map) (label : Z) : cbor := default CNil (headerValue claims label).

Definition cwtType (protected : cbor_map) : result token_error (option token_warning) :=
  match headerValue protected coseHeaderType with
  | None => Err (CwtError (Text "the status list token has no type header (16), section 5.2 requires %q"))
  | Some (CText v) =>
      if isStatusListTyp v "statuslist+cwt" then Ok None
      else Err (CwtError (Fmt "the status list token has type %q, section 5.2 requires %q" [Text v; Text MediaTypeCWT]))
  | Some (CInt _ id) => Ok (Some (TypeByContentFormat id))
  | Some _ => Err (CwtError (Text "the status list token's type header (16) is a %T"))
  end.

Definition cwt_ttl_warnings (claims : cbor_map) : list token_warning :=
  match cwtClaim claims cwtClaimTTL with
  | CNil => []
  | ttl => match asInt (number_of ttl) with
           | Some n => if n <=? 0 then [TtlNotPositive] else []
           | None => [TtlNotPositive]
           end
  end.

(** A COSE kid is a byte string. *)
Definition cose_kid (protected : cbor_map) : string :=
  match List.find (fun kv => match kv.1 with CInt KInt64 4 => true | _ => false end) protected with
  | Some (_, CBytes kid) => kid
  | _ => ""
  end.

(** The accepted algorithms. *)
Definition accepted_alg (alg : Z) : option string :=
  if alg =? -7 then Some "ES256" else if alg =? -35 then Some "ES384" else None.

Section cwt.
Context {P : Pki} {C : Cose P} {W : Cwt} {J : Json}.

(** [cose.NewVerifier] accepts the key and the message verifies with it. *)
Definition cose_verified (body alg : string) (key : crypto_PublicKey) : bool :=
  verifier_for alg key && sign1_verifies body alg key.

(** The claims set part: claims to token. *)
Definition token_of_claims (cand : keyCandidates) (typeWarning : option token_warning) (claims : cbor_map) :
    result token_error statusListToken :=
  match cwtClaim claims cwtClaimStatusList with
  | CMap sl =>
      match (match cget "bits" sl with Some b => asInt (number_of b) | None => Some 0 end) with
      | None => Err BitsNotInteger
      | Some bits =>
          match (match cget "lst" sl with Some lst => as_bytes lst | None => Some "" end) with
          | None => Err (CwtError (Text "the status list lst member is not a CBOR byte string (%T), which section 4.3 requires"))
          | Some lst =>
              Ok {| tok_format := FormatCWT;
                    tok_subject := default "" (as_text (cwtClaim claims cwtClaimSubject));
                    tok_issuedAt := unixClaim (number_of (cwtClaim claims cwtClaimIssuedAt));
                    tok_expiresAt := unixClaim (number_of (cwtClaim claims cwtClaimExpiration));
                    tok_bits := bits;
                    tok_lst := lst;
                    tok_signatureInfo := kc_info cand;
                    tok_trustAnchored := kc_anchored cand;
                    tok_warnings := option_list (kc_warning cand) ++ option_list typeWarning ++ cwt_ttl_warnings claims |}
          end
      end
  | _ => Err NoStatusListClaim
  end.

(** [cwtDecMode.Unmarshal] of the payload into a map; a null gives the nil
    map. *)
Definition claims_set (payload : option string) : result token_error cbor_map :=
  match payload with
  | None => Err (CwtError (Text "parsing CWT claims set: %w"))
  | Some payload =>
      match cwt_decode payload with
      | Some (CMap m) => Ok m
      | Some CNil => Ok []
      | _ => Err (CwtError (Text "parsing CWT claims set: %w"))
      end
  end.

Definition tag_checked (body : string) : result token_error () :=
  match cwt_raw_tag body with
  | None => Err (CwtError (Text "the status list token is not a tagged COSE message, which section 5.2 requires: %w"))
  | Some (number, _) =>
      if number =? tagCOSESign1 then Ok ()
      else if number =? tagCOSEMac0 then Err (CwtError (Text "the status list token is a COSE_Mac0 message, which cannot be verified without the shared MAC key"))
      else if number =? tagCWT then Err (CwtError (Text "the status list token carries the CWT tag 61, which section 5.2 forbids"))
      else Err (CwtError (Fmt "the status list token is CBOR tag %d, section 5.2 requires the tagged COSE_Sign1_Tagged (18)" [Text (itoa number)]))
  end.

Definition parseCWTStatusListToken (body : string) (opts : CheckOptions) : result token_error statusListToken :=
  let? _ := tag_checked body in
  match sign1_message body with
  | None => Err (CwtError (Text "parsing COSE_Sign1: %w"))
  | Some msg =>
      let? typeWarning := cwtType (s1_Protected msg) in
      match header_Algorithm (s1_Protected msg) with
      | None => Err (CwtError (Text "the status list token's protected header has no algorithm: %w"))
      | Some id =>
          match accepted_alg id with
          | None => Err (AlgNotAccepted (itoa id))
          | Some alg =>
              match FromCOSE (s1_Protected msg) (s1_Unprotected msg) with
              | Err e => Err (CwtError e)
              | Ok certs =>
                  let? cand := resolveKeys certs [] (cose_kid (s1_Protected msg)) opts in
                  if negb (existsb (cose_verified body alg) (kc_keys cand)) then Err SignatureInvalid
                  else let? claims := claims_set (s1_Payload msg) in token_of_claims cand typeWarning claims
              end
          end
      end
  end.

(** ** What a successful check establishes *)

(** The message is a COSE_Sign1 of the type, and a resolved key verifies it;
    the claims set is its payload. *)
Definition signed_message (body : string) (opts : CheckOptions) (cand : keyCandidates) (certs : list X509Cert)
    (typeWarning : option token_warning) (claims : cbor_map) : Prop :=
  exists msg content id alg key,
    cwt_raw_tag body = Some (18, content) /\ sign1_message body = Some msg /\
    cwtType (s1_Protected msg) = Ok typeWarning /\
    header_Algorithm (s1_Protected msg) = Some id /\ accepted_alg id = Some alg /\
    FromCOSE (s1_Protected msg) (s1_Unprotected msg) = Ok certs /\
    resolveKeys certs [] (cose_kid (s1_Protected msg)) opts = Ok cand /\
    key ∈ kc_keys cand /\ verifier_for alg key = true /\ sign1_verifies body alg key = true /\
    claims_set (s1_Payload msg) = Ok claims.

(** The token read from the body of a response. *)
Inductive vouched (body : string) (opts : CheckOptions) (cand : keyCandidates) (certs : list X509Cert) :
    string -> statusListToken -> Prop :=
| vouched_jwt payload tok :
    signed_token body opts cand certs payload -> token_of_payload cand payload = Ok tok ->
    vouched body opts cand certs FormatJWT tok
| vouched_cwt typeWarning claims tok :
    signed_message body opts cand certs typeWarning claims -> token_of_claims cand typeWarning claims = Ok tok ->
    vouched body opts cand certs FormatCWT tok.

Lemma parseCWT_inv body opts tok :
  parseCWTStatusListToken body opts = Ok tok -> exists cand certs, vouched body opts cand certs FormatCWT tok.
Proof.
  unfold parseCWTStatusListToken. destruct (tag_checked body) as [[]|] eqn:Et; [|done].
  destruct (sign1_message body) as [msg|] eqn:Em; [|done]. destruct (cwtType _) as [tw|] eqn:Ety; [|done].
  destruct (header_Algorithm _) as [id|] eqn:Eid; [|done]. destruct (accepted_alg id) as [alg|] eqn:Ea; [|done].
  destruct (FromCOSE _ _) as [certs|] eqn:Ec; [|done]. destruct (resolveKeys _ _ _ _) as [cand|] eqn:Er; [|done].
  destruct (existsb _ _) eqn:Ev; [|done]. destruct (claims_set _) as [claims|] eqn:Ecl; [|done]. cbn [negb]. intros Ht.
  exists cand, certs. eapply vouched_cwt; [|exact Ht].
  apply existsb_exists in Ev as (key & Hin%list_elem_of_In & [Hf Hs]%andb_true_iff).
  unfold tag_checked in Et. destruct (cwt_raw_tag body) as [[n content]|] eqn:Eb; [|done].
  destruct (Z.eqb_spec n tagCOSESign1) as [->|]; [|by repeat case_match]. by exists msg, content, id, alg, key.
Qed.

Lemma token_of_claims_inv cand tw claims tok :
  token_of_claims cand tw claims = Ok tok ->
  tok_trustAnchored tok = kc_anchored cand /\ forall w, kc_warning cand = Some w -> w ∈ tok_warnings tok.
Proof.
  unfold token_of_claims. intros Ht. repeat case_match; simplify_eq; (split; [done|]); intros w ->; simpl; by left.
Qed.

Lemma vouched_keys body opts cand certs fmt tok :
  vouched body opts cand certs fmt tok ->
  (exists emb named, resolveKeys certs emb named opts = Ok cand) /\
  tok_trustAnchored tok = kc_anchored cand /\ forall w, kc_warning cand = Some w -> w ∈ tok_warnings tok.
Proof.
  intros [payload tok' Hs Ht|tw claims tok' Hs Ht].
  - apply token_of_payload_inv in Ht. split; [|done].
    destruct Hs as (? & ? & ? & ? & header & ? & ? & _ & _ & _ & _ & _ & _ & _ & Hr & _). by eauto.
  - apply token_of_claims_inv in Ht. split; [|done].
    destruct Hs as (? & ? & ? & ? & ? & _ & _ & _ & _ & _ & _ & Hr & _). by eauto.
Qed.

(** The token of whichever format the response declares or looks like. *)
Lemma parsed_vouched body ct mt opts tok :
  (if String.eqb (fst (detectFormat ct mt body)) FormatCWT then parseCWTStatusListToken body opts
   else parseJWTStatusListToken body opts) = Ok tok ->
  exists cand certs, vouched body opts cand certs (fst (detectFormat ct mt body)) tok.
Proof.
  assert (Hf : fst (detectFormat ct mt body) = FormatCWT \/ fst (detectFormat ct mt body) = FormatJWT).
  { unfold detectFormat. repeat case_match; auto. }
  destruct Hf as [-> | ->]; [apply parseCWT_inv|]. cbn. intros Hp.
  apply parseJWT_inv in Hp as (cand & certs & payload & Hs & Ht). exists cand, certs. by eapply vouched_jwt.
Qed.

(** What the result says of the key the token is signed with. *)
Definition key_reported (opts : CheckOptions) (cand : keyCandidates) (certs : list X509Cert) (r : StatusResult) : Prop :=
  res_TrustAnchored r = true /\ trusted_keys certs opts (kc_keys cand) \/
  res_TrustAnchored r = false /\ opt_TrustListCerts opts = [] /\ opt_Keys opts = [] /\
  (ChainNotValidated ∈ res_Warnings r \/ SelfCarriedKey ∈ res_Warnings r).

Lemma keys_reported body opts cand certs fmt tok r :
  vouched body opts cand certs fmt tok -> res_TrustAnchored r = tok_trustAnchored tok ->
  (forall w, w ∈ tok_warnings tok -> w ∈ res_Warnings r) -> key_reported opts cand certs r.
Proof.
  intros Hv Ha Hw. destruct (vouched_keys _ _ _ _ _ _ Hv) as ((emb & named & Hr) & Ht & Hk).
  destruct (resolveKeys_source _ _ _ _ _ Hr) as [[Hc Htr]|(Hc & Hl & Ho & Hown)].
  - left. split; [congruence|done].
  - right. split; [congruence|split; [done|split; [done|]]].
    destruct Hown as [(? & ? & _ & _ & Hwn)|(_ & _ & Hwn)]; [left|right]; by apply Hw, Hk.
Qed.

(** C37: a status check that succeeds, on a Status List Token in JWT or in CWT
    format, has verified the token: a candidate key verifies the signature
    over the very claims that are read, and the result says whether anything
    but the token vouches for that key.  With a trust list it is the leaf of a
    chain to it; without one it may be a key of the caller or chain to the
    candidate anchors; only a check without trust list and without keys of the
    caller accepts the key the token carries itself, and then the result is
    not trust anchored and carries a warning.  The subject is the uri of the
    credential's reference, the token has an issue time and has not expired,
    the list decompresses to at most 16 MiB, and the status reported is its
    entry at the credential's index, valid exactly when it is zero. *)
Theorem check_sound fetch ref opts r :
  CheckWithOptions fetch parseCWTStatusListToken (Some ref) opts = Ok r ->
  exists body contentType mediaType cand certs tok lst raw,
    fetch (ref_URI ref) = Some (body, contentType, mediaType) /\
    vouched body opts cand certs (fst (detectFormat contentType mediaType body)) tok /\
    key_reported opts cand certs r /\
    (opt_TrustListCerts opts <> [] ->
     res_TrustAnchored r = true /\
     exists leaf, verify_chain certs (opt_TrustListCerts opts) = Some leaf /\ kc_keys cand = [cert_key leaf]) /\
    tok_subject tok = ref_URI ref /\ is_Some (tok_issuedAt tok) /\
    Expired (tok_expiresAt tok) (opt_now opts) = false /\
    zlibDecompress (tok_lst tok) = Ok (lst, raw) /\ Z.of_nat (length lst) <= maxBitstringBytes /\
    extractStatus lst (ref_Idx ref) (tok_bits tok) = Ok (res_Status r) /\
    (res_IsValid r = true <-> res_Status r = 0).
Proof.
  unfold CheckWithOptions. intros Hc. destruct (ref_Invalid ref); [done|]. destruct (String.eqb (ref_URI ref) ""); [done|].
  destruct (ref_Idx ref <? 0); [done|]. destruct (fetch (ref_URI ref)) as [[[body ct] mt]|]; [|done].
  assert (Hp := parsed_vouched body ct mt opts). destruct (detectFormat ct mt body) as [fmt warn] eqn:Ed. cbn [fst] in Hp.
  destruct (if String.eqb fmt FormatCWT then _ else _) as [tok|] eqn:Et; [|done].
  destruct (Hp tok eq_refl) as (cand & certs & Hv).
  destruct (validate _ _ _) as [tok'|] eqn:Ev; [|done]. destruct (validate_inv _ _ _ _ Ev) as (Hs & Hi & Hx & _ & ws & ->).
  cbn in Hs, Hi, Hx, Hc. destruct (zlibDecompress (tok_lst tok)) as [[lst raw]|] eqn:Ez; [|done].
  assert (Hraw : forall t, tok_bits (note_raw raw t) = tok_bits t /\ tok_trustAnchored (note_raw raw t) = tok_trustAnchored t /\
    forall w, w ∈ tok_warnings t -> w ∈ tok_warnings (note_raw raw t)).
  { intros t. destruct raw; [|done]. split; [done|split; [done|]]. intros w Hw. cbn. apply elem_of_app. by left. }
  destruct (Hraw (add_warnings (add_warnings tok (option_list warn)) ws)) as (Hb & Ha & Hw). cbn [fst snd] in Hc. rewrite Hb in Hc.
  cbn [tok_bits add_warnings] in Hc. destruct (extractStatus lst (ref_Idx ref) (tok_bits tok)) as [status|] eqn:Ee; [|done].
  injection Hc as <-. cbn [res_Status res_IsValid].
  set (r := {| res_URI := _ |}).
  assert (Hk : key_reported opts cand certs r).
  { apply (keys_reported body opts cand certs fmt tok r Hv Ha). intros w Hin. apply Hw. cbn. rewrite !elem_of_app. auto. }
  exists body, ct, mt, cand, certs, tok, lst, raw. rewrite Ed. split; [done|split; [exact Hv|split; [exact Hk|split]]].
  - intros Hne. destruct Hk as [[Ht Htr]|(_ & He & _)]; [|done]. split; [done|].
    destruct Htr as [leaf _ Hl|He|leaf He]; [by exists leaf|done|done].
  - split_and!; [done|done|done|done|by eapply zlibDecompress_bounded|done|by rewrite Z.eqb_eq].
Qed.
End cwt.

(** ** Instances for the witnesses: two tokens, one in each format, signed by
    the certificate leaf, which chains to root. *)
Module Toy.
Definition payload : object :=
  [("sub", VString "https://issuer.example/status"); ("iat", VInt KInt64 1700000000);
   ("exp", VInt KInt64 1800000000);
   ("status_list", VObj [("bits", VInt KInt 2); ("lst", VString "AQI")])].
Definition header : object :=
  [("typ", VString "statuslist+jwt"); ("alg", VString "ES256"); ("x5c", VArr [VString "bGVhZg=="])].

Definition protected : cbor_map :=
  [(CInt KInt64 1, CInt KInt64 (-7)); (CInt KInt64 16, CText "application/statuslist+cwt"); (CInt KInt64 33, CBytes "leaf")].
Definition claims : cbor_map :=
  [(CInt KInt64 2, CText "https://issuer.example/status"); (CInt KInt64 6, CInt KInt64 1700000000);
   (CInt KInt64 65533, CMap [(CText "bits", CInt KInt64 2); (CText "lst", CBytes "AB")])].

#[local] Instance json : Json := {
  unmarshal_object s := if String.eqb s "hdr" then Some header
                        else if String.eqb s "pld" then Some payload else None;
  unmarshal_array _ := None }.

#[local] Instance pki : Pki := {
  PubKey := string; X509Cert := string;
  ParseCertificate s := Some s; cert_Raw c := c; Parse_Raw c := eq_refl;
  cert_PublicKey c := Some c; cert_Subject c := c; cert_Issuer c := c; cert_CommonName c := c;
  chain_verifies roots _ leaf := contains roots "root" && (leaf =? "leaf")%string;
  signs_itself _ := false;
  jose_verifies _ key := (key =? "leaf")%string;
  ParsePublicKey _ := None; url_Parse _ := None; http_get _ := Err (Text "offline"); decode_first_object _ := None;
  zlib_inflate s := Some (bytes_of s, false); flate_inflate _ := ([], true) }.

#[local] Instance cose : Cose pki := {
  sign1_parses _ := true; verifier_for _ _ := true;
  sign1_verifies _ _ key := match key with Some k => (k =? "leaf")%string | None => false end;
  CoseKey := string; cose_key s := Ok s; cose_curve _ := Some "P-256"; untagged_parses _ := true;
  es256_verifies _ _ _ := false }.

#[local] Instance reader : Cwt := {
  cwt_raw_tag _ := Some (18, "message");
  cwt_decode s := if (s =? "claims")%string then Some (CMap claims) else None;
  sign1_message _ := Some (mkSign1 protected [] (Some "claims"));
  header_Algorithm _ := Some (-7) }.

Definition ref : StatusRef := mkStatusRef "https://issuer.example/status" 4 None.
Definition body : string := "aGRy.cGxk.c2ln".
Definition with_trust_list : CheckOptions := mkOptions ["root"] [] [] (unix 1750000000).
Definition without_trust_list : CheckOptions := mkOptions [] [] [] (unix 1750000000).

Definition check (body mediaType : string) (opts : CheckOptions) : result token_error StatusResult :=
  CheckWithOptions (fun _ => Some (body, mediaType, mediaType)) parseCWTStatusListToken (Some ref) opts.

(** Entry 4 of the bytes 1, 2 at width 2 is the lowest pair of the second
    byte; of the bytes of AB it is 2 as well. *)
Lemma check_sound_witness :
  (exists r, check body MediaTypeJWT with_trust_list = Ok r /\ res_Status r = 2 /\ res_TrustAnchored r = true) /\
  (exists r, check "cbor" MediaTypeCWT without_trust_list = Ok r /\ res_TrustAnchored r = false /\
     (ChainNotValidated ∈ res_Warnings r \/ SelfCarriedKey ∈ res_Warnings r)).
Proof.
  split.
  - destruct (check body MediaTypeJWT with_trust_list) as [r|] eqn:E; [|by vm_compute in E].
    exists r. split; [done|]. split; [vm_compute in E; by injection E as <-|].
    destruct (check_sound _ ref with_trust_list r E) as (? & ? & ? & ? & ? & ? & ? & ? & _ & _ & _ & Ht & _).
    by destruct Ht as [Ht _].
  - destruct (check "cbor" MediaTypeCWT without_trust_list) as [r|] eqn:E; [|by vm_compute in E].
    exists r. split; [done|].
    destruct (check_sound _ ref without_trust_list r E) as (? & ? & ? & ? & ? & ? & ? & ? & _ & _ & Hk & _).
    assert (Ha : res_TrustAnchored r = false) by (vm_compute in E; by injection E as <-).
    destruct Hk as [[Ht _]|(_ & _ & _ & Hw)]; [congruence|done].
Defined.
End Toy.
