(* ===== verification/Validate.v ===== *)
(** * Validate: the shared checks of a credential

    internal/validate: trust.go, credential.go, credential_checks.go and
    integrity.go.  A validation is a list of named checks; [SDJWT], [JWT] and
    [MDOC] run them in a fixed order.

    The wallet's attestation catalogue is a function ([Catalogue]); the fetch
    of a status list and its CWT form are arguments, as in StatusList.  One
    clock reading stands for the [time.Now()] calls of a validation. *)

From stdpp Require Import base list strings gmap.
From Stdlib Require Import ZArith Lia Ascii.
From S2P Require Import Prelude GoStrings GoValue Format Validity StatusList SDJWT WalletState Certs Mdoc.

Local Open Scope Z_scope.

(** ** Checks (credential.go) *)

Inductive check_status := Pass | Fail | Warning | Skipped.

#[export] Instance check_status_eq_dec : EqDecision check_status.
Proof. solve_decision. Defined.

(** The text of a check: a message, or one that prints a time, the error or
    the result of a status check. *)
Inductive detail :=
| Says (w : why)
| SaysTime (format : string) (t : time)
| StatusFailed (e : token_error)
| StatusReport (r : StatusResult)
| ListTrust (r : StatusResult) (anchoredBy : option why).

Record Check := mkCheck { c_Name : string; c_Status : check_status; c_Detail : detail; c_NeedsNetwork : bool }.

Definition CheckType : string := "type".
Definition CheckExpiry : string := "expiry".
Definition CheckIntegrity : string := "integrity".
Definition CheckTrustedList : string := "trusted list".
Definition CheckSignature : string := "signature".
Definition CheckTrust : string := "trust".
Definition CheckStatus : string := "status".
Definition CheckStatusSignature : string := "status list signature".
Definition CheckHAIP : string := "haip".

Definition FormatSDJWT : string := "dc+sd-jwt".
Definition FormatMDOC : string := "mso_mdoc".

Record Options := mkOpts { Offline : bool; OptStatus : bool; HAIP : bool; OptNow : time }.

Definition check (name : string) (st : check_status) (w : why) : Check := mkCheck name st (Says w) false.

(** ** Trust (trust.go) *)

Record CatalogueAnchoring `{Pki} := mkAnchoring {
  Entry : string; Category : string; AnchoredBy : string; ca_Findings : list string; ca_Warnings : list string;
  IssuanceAnchors : list X509Cert; StatusAnchors : list X509Cert }.

Definition AnchoredByText `{Pki} (a : CatalogueAnchoring) : why :=
  Fmt "the trusted list %s of the catalogue entry %q" [Text (AnchoredBy a); Text (Entry a)].

Record Trust `{Pki} := mkTrust {
  Keys : list crypto_PublicKey;
  Issuance : list X509Cert;
  Revocation : list X509Cert;
  Supplied : bool;
  Pending : bool;
  TrustErr : option why;
  Findings : list string;
  Catalogue : option (string -> option CatalogueAnchoring);
  CatalogueErr : option why }.

Definition AddKey `{Pki} (t : Trust) (key : crypto_PublicKey) : Trust :=
  mkTrust _ (Keys t ++ [key]) (Issuance t) (Revocation t) true (Pending t) (TrustErr t) (Findings t) (Catalogue t) (CatalogueErr t).

(** ** Integrity (integrity.go) *)

Definition CheckSDJWTIntegrity (t : Token) : Check :=
  match t_Disclosures t with
  | [] => check CheckIntegrity Skipped (Text "No disclosures to verify")
  | ds =>
      let matched := length (filter (fun d => d_Digest d ∈ ReferencedDigests t) ds) in
      let counts := [Text (itoa (Z.of_nat matched)); Text (itoa (Z.of_nat (length ds)))] in
      if (matched =? length ds)%nat then check CheckIntegrity Pass (Fmt "%d/%d disclosure digests verified" counts)
      else check CheckIntegrity Fail (Fmt "%d/%d disclosure digests matched" counts)
  end.

Definition CheckSDJWTType (t : Token) : Check :=
  match ValidateVCType (t_Header t) with
  | Err e => check CheckType Fail e
  | Ok _ =>
      let typ := get_string (t_Header t) "typ" in
      if (typ =? TypeSDJWTVCLegacy)%string
      then check CheckType Fail (Fmt "the typ header is %s, draft-ietf-oauth-sd-jwt-vc-19 §2.2.1 requires %s" [Text typ; Text TypeSDJWTVC])
      else check CheckType Pass (Text typ)
  end.

Definition CheckMDOCIntegrity `{Hash} (doc : Document) : Check :=
  match ia ← doc_IssuerAuth doc; ia_MSO ia with
  | None => check CheckIntegrity Skipped (Text "No MSO available for digest verification")
  | Some _ =>
      let total := fold_left (fun n ns => n + length ns.2)%nat (doc_NameSpaces doc) 0%nat in
      if (total =? 0)%nat then check CheckIntegrity Skipped (Text "No disclosed elements to verify")
      else match VerifyValueDigests doc with
           | Err e => check CheckIntegrity Fail e
           | Ok _ => check CheckIntegrity Pass (Fmt "%d/%d claim digests verified" [Text (itoa (Z.of_nat total)); Text (itoa (Z.of_nat total))])
           end
  end.

(** ** Validity *)

Definition validityCheck (from issued until : option time) (now : time) (noUntil : string) : Check :=
  if NotYet from now then mkCheck CheckExpiry Fail (SaysTime "not yet valid (valid from %s)" (default zero_time from)) false
  else if Expired until now then mkCheck CheckExpiry Fail (SaysTime "expired %s" (default zero_time until)) false
  else if NotYet issued now then mkCheck CheckExpiry Warning (SaysTime "issued in the future (%s)" (default zero_time issued)) false
  else match until with
       | None => check CheckExpiry Skipped (Text noUntil)
       | Some u => mkCheck CheckExpiry Pass (SaysTime "expires %s" u) false
       end.

Definition jwtValidity (payload : object) (now : time) : Check :=
  validityCheck (unix_claim payload "nbf") (unix_claim payload "iat") (unix_claim payload "exp") now "No exp claim present".

Definition mdocValidity (doc : Document) (now : time) : Check :=
  match ia ← doc_IssuerAuth doc; mso ← ia_MSO ia; mso_ValidityInfo mso with
  | None => check CheckExpiry Skipped (Text "No validity info in MSO")
  | Some vi => validityCheck (ValidFrom vi) (Signed vi) (ValidUntil vi) now "No validUntil in MSO"
  end.

(** ** The results *)

Record Result `{Pki} := mkResultOf {
  r_Format : string;
  r_SDJWT : option Token;
  r_MDOC : option Document;
  Checks : list Check;
  SDJWTVerify : option VerifyResult;
  MDOCVerify : option mdocVerifyResult;
  SignatureSource : string;
  r_Catalogue : option CatalogueAnchoring;
  r_Status : option StatusResult;
  HAIPFindings : list why }.

(** The first check with the name. *)
Definition Find `{Pki} (r : Result) (name : string) : option Check := List.find (fun c => (c_Name c =? name)%string) (Checks r).

(** ** A run of the checks (credential_checks.go) *)

Section run.
Context {J : Json} {H : Hash} {P : Pki} {B : Cbor} {C : Cose P}.
(** The status list of a URL, asked for in a preferred format, and the
    parser of CWT status tokens. *)
Context (fetch : string -> string -> option (string * string * string)).
Context (parseCWT : string -> CheckOptions -> result token_error statusListToken).
Context (trust : Trust) (opts : Options) (wall : time).

(** newRun: the zero time stands for the current one. *)
Definition run_now : time := if is_zero (OptNow opts) then wall else OptNow opts.

Definition trustedListCheck : list Check :=
  match Findings trust with
  | [] => []
  | l => [check CheckTrustedList Warning (Fmt "%s" [Text (join ". " l)])]
  end.

(** *** The catalogue *)

Definition catalogue (raw : string) : option CatalogueAnchoring :=
  if Offline opts then None else lookup ← Catalogue trust; lookup raw.

(** The catalogue's anchors count only without supplied trust. *)
Definition catalogueAnchors (c : option CatalogueAnchoring) : option CatalogueAnchoring :=
  a ← c; if negb (Supplied trust) && negb (AnchoredBy a =? "")%string then Some a else None.

Definition trustCheck (c : option CatalogueAnchoring) : Check :=
  if Offline opts then mkCheck CheckTrust Skipped (Says (Text "Needs the trusted lists of the attestation catalogue")) true
  else match CatalogueErr trust with
  | Some e => check CheckTrust Fail (Fmt "Reading the wallet: %v" [e])
  | None =>
      match Catalogue trust, c with
      | None, _ => check CheckTrust Skipped (Text "No wallet with an attestation catalogue")
      | Some _, None => check CheckTrust Skipped (Text "The attestation catalogue has no entry for this credential type")
      | Some _, Some a =>
          if negb (AnchoredBy a =? "")%string then check CheckTrust Pass (Fmt "Anchored by %s" [AnchoredByText a])
          else match ca_Findings a with
               | [] => check CheckTrust Skipped (Fmt "The catalogue entry %q links no readable trusted list. An EAA needs anchors only when the wallet has them (ARF ISSU_10). %s"
                      [Text (Entry a); Text (join ". " (ca_Warnings a))])
               | l => check CheckTrust Fail (Text (join " " l))
               end
      end
  end.

(** What [r.Catalogue] becomes. *)
Definition noted_catalogue (c : option CatalogueAnchoring) : option CatalogueAnchoring :=
  if Offline opts then None
  else match CatalogueErr trust, Catalogue trust with None, Some _ => c | _, _ => None end.

(** *** Signatures *)

Definition emptyTrust : option Check :=
  if Supplied trust && negb (Pending trust) && (length (Keys trust) =? 0)%nat && (length (Issuance trust) =? 0)%nat
  then Some (check CheckSignature Fail (Text "The supplied trust names no key and no issuance service")) else None.

Definition noKeyDetail (t : Token) : why :=
  let did := DIDReference [get_string (t_Header t) "kid"; get_string (t_Payload t) "iss"] in
  if negb (did =? "")%string then Fmt "The issuer key is named by the DID %s, which this tool does not resolve" [Text did]
  else Text "No key provided".

Definition is_invalid (w : why) : bool := match w with Text s => (s =? ErrSignatureInvalid)%string | Fmt _ _ => false end.

Definition failedDetail (source : string) (errs : list why) : why :=
  let detail := if (source =? "")%string then [Text "Signature verification failed"]
                else [Text "Signature verification failed via "; Text source] in
  match List.filter (fun e => negb (is_invalid e)) errs with
  | [] => Fmt "%s" detail
  | reasons => Fmt "%s: %s" (detail ++ reasons)
  end.

(** A signature check and the verification it is based on. *)
Definition signature : Type := Check * option (VerifyResult * string).

Definition valid_via (res : VerifyResult) (source : string) : signature :=
  (check CheckSignature Pass (Fmt "Valid (%s, via %s)" [Text (vr_Algorithm res); Text source]), Some (res, source)).

Definition refused (w : why) : signature := (check CheckSignature Fail w, None).

Definition offline_signature (t : Token) : signature :=
  let metadata := CanResolveJWTIssuerMetadata t in
  let needs := (mkCheck CheckSignature Skipped (Says (Text "Needs an issuer key that is only reachable over the network")) true, None) in
  match verifyJWTSignature wall t (Keys trust) (Issuance trust) false with
  | Err e => refused (error_text e)
  | Ok (Some (res, source)) =>
      if vr_SignatureValid res then valid_via res source
      else if metadata then needs
      else (check CheckSignature Fail (failedDetail source (vr_Errors res)), Some (res, source))
  | Ok None => if metadata || Pending trust then needs else (check CheckSignature Skipped (noKeyDetail t), None)
  end.

Definition online_signature (t : Token) : signature :=
  match verifyJWTSignature wall t (Keys trust) (Issuance trust) true with
  | Err (IssuerMetadataError e) =>
      if negb (Supplied trust) then (check CheckSignature Skipped (Fmt "Issuer metadata lookup failed: %v" [e]), None) else refused e
  | Err (OtherError e) => refused e
  | Ok None => (check CheckSignature Skipped (noKeyDetail t), None)
  | Ok (Some (res, source)) =>
      if vr_SignatureValid res then valid_via res source
      else (check CheckSignature Fail (failedDetail source (vr_Errors res)), Some (res, source))
  end.

(** The verification with the anchors of the catalogue list. *)
Definition catalogue_signature (t : Token) (c : option CatalogueAnchoring) : option signature :=
  a ← catalogueAnchors c;
  match ExtractAndValidateX5C (t_Header t) (IssuanceAnchors a) with
  | Ok (Some key) =>
      let res := sdjwt_Verify wall t (Some key) in
      if vr_SignatureValid res
      then Some (check CheckSignature Pass (Fmt "Valid (%s, chain verified to %s)" [Text (vr_Algorithm res); AnchoredByText a]), Some (res, SourceX5CChain))
      else None
  | _ => None
  end.

Definition jwtSignature (t : Token) (c : option CatalogueAnchoring) : signature :=
  match TrustErr trust with
  | Some e => refused e
  | None =>
      match emptyTrust with
      | Some chk => (chk, None)
      | None =>
          match catalogue_signature t c with
          | Some s => s
          | None => if Offline opts then offline_signature t else online_signature t
          end
      end
  end.

Definition mdoc_signature : Type := Check * option (mdocVerifyResult * string).

Definition mdoc_pass (res : mdocVerifyResult) (detail : why) (source : string) : mdoc_signature :=
  (check CheckSignature Pass detail, Some (res, source)).

(** The supplied keys, then the embedded leaf without supplied trust.
    [last] is the last verification so far. *)
Fixpoint mdoc_keys (doc : Document) (keys : list crypto_PublicKey) (last : option (mdocVerifyResult * string)) :
    mdoc_signature + option (mdocVerifyResult * string) :=
  match keys with
  | [] => inr last
  | key :: keys =>
      let res := mdoc_Verify wall doc key in
      if mr_SignatureValid res
      then inl (mdoc_pass res (Fmt "Valid (%s, via %s)" [Text (mr_Algorithm res); Text SourceProvidedKey]) SourceProvidedKey)
      else mdoc_keys doc keys (Some (res, SourceProvidedKey))
  end.

Definition mdoc_unverified (reasons : list why) (last : option (mdocVerifyResult * string)) : Check :=
  match last, reasons with
  | None, [] => check CheckSignature Skipped (Text "No key provided")
  | _, _ => check CheckSignature Fail (failedDetail "" reasons)
  end.

Definition mdoc_without_chain (doc : Document) (chain : list X509Cert) (reasons : list why) (last : option (mdocVerifyResult * string)) : mdoc_signature :=
  match mdoc_keys doc (Keys trust) last with
  | inl s => s
  | inr last =>
      match chain with
      | leaf :: _ =>
          if negb (Supplied trust) then
            let res := mdoc_Verify wall doc (cert_PublicKey leaf) in
            if mr_SignatureValid res then mdoc_pass res (Fmt "Valid (%s, via %s)" [Text (mr_Algorithm res); Text SourceX5CLeaf]) SourceX5CLeaf
            else (check CheckSignature Fail (Text "Signature invalid (embedded x5chain leaf key)"), Some (res, SourceX5CLeaf))
          else (mdoc_unverified reasons last, last)
      | [] => (mdoc_unverified reasons last, last)
      end
  end.

Definition mdocSignature (doc : Document) (c : option CatalogueAnchoring) : mdoc_signature :=
  match TrustErr trust with
  | Some e => (check CheckSignature Fail e, None)
  | None =>
      match emptyTrust with
      | Some chk => (chk, None)
      | None =>
          match ExtractMDOCX5ChainCertificates doc with
          | Err e => (check CheckSignature Fail (Fmt "Reading the x5chain: %v" [e]), None)
          | Ok chain =>
              let ca := catalogueAnchors c in
              let anchors := match ca with Some a => IssuanceAnchors a | None => Issuance trust end in
              match anchors, chain with
              | _ :: _, _ :: _ =>
                  match certchain_Verify chain anchors with
                  | Err e => mdoc_without_chain doc chain [Fmt "certificate chain not trusted: %v" [e]] None
                  | Ok leaf =>
                      let res := mdoc_Verify wall doc (cert_PublicKey leaf) in
                      if mr_SignatureValid res
                      then mdoc_pass res (match ca with
                                          | Some a => Fmt "Valid (%s, chain verified to %s)" [Text (mr_Algorithm res); AnchoredByText a]
                                          | None => Fmt "Valid (%s, via %s)" [Text (mr_Algorithm res); Text SourceX5CChain]
                                          end) SourceX5CChain
                      else mdoc_without_chain doc chain [Text "the key of the trusted chain does not verify the signature"] (Some (res, SourceX5CChain))
                  end
              | _, _ => mdoc_without_chain doc chain [] None
              end
          end
      end
  end.

(** *** The status *)

Definition status_options (c : option CatalogueAnchoring) : CheckOptions :=
  StatusList.mkOptions (map cert_Raw (Revocation trust))
    (match catalogueAnchors c with Some a => map cert_Raw (StatusAnchors a) | None => [] end) [] run_now.

Definition status_checks (r : StatusResult) (c : option CatalogueAnchoring) : list Check :=
  if negb (res_IsValid r) then [mkCheck CheckStatus Fail (StatusReport r) false]
  else [mkCheck CheckStatus Pass (StatusReport r) false;
        mkCheck CheckStatusSignature (if res_TrustAnchored r then Pass else Warning)
          (ListTrust r (if res_TrustAnchored r then AnchoredByText <$> catalogueAnchors c else None)) false].

Definition status (claims : object) (prefer : string) (c : option CatalogueAnchoring) : list Check * option StatusResult :=
  let skipped w network := ([mkCheck CheckStatus Skipped (Says (Text w)) network], None) in
  match NonStatusListFormat claims with
  | Some nonStandard =>
      ([check CheckStatus Warning (Fmt (if (prefer =? FormatJWT)%string
          then "%s. HAIP 1.0 §6.1 asks for status_list, so this status is not checked." else "%s. This status is not checked.") [nonStandard])], None)
  | None =>
      match ExtractStatusRef claims with
      | None => skipped "No status list reference in credential" false
      | Some ref =>
          if Offline opts then skipped "Needs the status list, which is fetched from the issuer" true
          else if negb (OptStatus opts) then skipped "Not requested" false
          else match TrustErr trust, ref_Invalid ref with
          | Some e, _ => ([check CheckStatus Fail e], None)
          | None, Some bad => ([mkCheck CheckStatus Fail (StatusFailed (RefInvalid bad)) false], None)
          | None, None =>
              match CheckWithOptions (fetch prefer) parseCWT (Some ref) (status_options c) with
              | Err e => ([mkCheck CheckStatus Fail (StatusFailed e) false], None)
              | Ok result => (status_checks result c, Some result)
              end
          end
      end
  end.

(** *** The validations (credential.go) *)

Definition haip_check (findings : list why) : Check :=
  match findings with
  | [] => check CheckHAIP Pass (Text "No findings")
  | l => check CheckHAIP Warning (Fmt "%s" l)
  end.

Definition SDJWT (t : Token) : Result :=
  let cat := catalogue (t_Raw t) in
  let sig := jwtSignature t cat in
  let st := status (t_ResolvedClaims t) FormatJWT cat in
  let haip := if HAIP opts then HAIPCredentialFindings (t_Header t) (t_Payload t) else [] in
  mkResultOf P FormatSDJWT (Some t) None
    ([CheckSDJWTType t; jwtValidity (t_Payload t) run_now; CheckSDJWTIntegrity t] ++ trustedListCheck
     ++ [sig.1; trustCheck cat] ++ st.1 ++ (if HAIP opts then [haip_check haip] else []))
    (fst <$> sig.2) None (default "" (snd <$> sig.2)) (noted_catalogue cat) st.2 haip.

Definition JWT (t : Token) : Result :=
  let sig := jwtSignature t None in
  let st := status (t_ResolvedClaims t) FormatJWT None in
  mkResultOf P FormatJWT (Some t) None
    ([jwtValidity (t_Payload t) run_now; check CheckIntegrity Skipped (Text "Not applicable for plain JWT")] ++ trustedListCheck
     ++ [sig.1] ++ st.1)
    (fst <$> sig.2) None (default "" (snd <$> sig.2)) None st.2 [].

Definition MDOC (doc : Document) : Result :=
  let cat := catalogue (EncodeBase64URL (doc_Raw doc)) in
  let sig := mdocSignature doc cat in
  let st := status (StatusClaims doc) FormatCWT cat in
  mkResultOf P FormatMDOC None (Some doc)
    ([mdocValidity doc run_now; CheckMDOCIntegrity doc] ++ trustedListCheck ++ [sig.1; trustCheck cat] ++ st.1)
    None (fst <$> sig.2) (default "" (snd <$> sig.2)) (noted_catalogue cat) st.2 [].
End run.
