(* ===== verification/ValidateFacts.v ===== *)
(** * ValidateFacts: what a passed check establishes

    The key behind a verified issuer signature, the lifetime and the status of
    a credential that no deciding check refuses. *)

From stdpp Require Import base list strings gmap.
From Stdlib Require Import ZArith Lia Ascii.
From S2P Require Import Prelude GoStrings GoValue Format Validity StatusList SDJWT WalletState Certs Mdoc Validate.

Local Open Scope Z_scope.

Section facts.
Context {J : Json} {H : Hash} {P : Pki} {B : Cbor} {C : Cose P}.

(** ** Keys *)

Lemma CertInfos_Certificates_all (l : list X509Cert) : CertInfos_Certificates l = Ok l.
Proof using. induction l as [|c l IH]; simpl; [done|]. by rewrite Parse_Raw, IH. Qed.

(** The key of a leaf certificate that chains to one of the anchors. *)
Definition chain_key (certs anchors : list X509Cert) (key : PubKey) : Prop :=
  exists leaf rest, certs = leaf :: rest /\ anchors <> [] /\ chain_verifies anchors rest leaf = true /\ cert_PublicKey leaf = Some key.

Lemma certchain_Verify_inv chain anchors leaf :
  certchain_Verify chain anchors = Ok leaf -> exists rest, chain = leaf :: rest /\ anchors <> [] /\ chain_verifies anchors rest leaf = true.
Proof using.
  unfold certchain_Verify. destruct chain as [|l rest]; [done|]. destruct anchors as [|a anchors]; [done|].
  destruct (chain_verifies _ rest l) eqn:E; intros; simplify_eq. by exists rest.
Qed.

Lemma ValidateCertChain_key certs anchors key : ValidateCertChain certs anchors = Ok (Some key) -> chain_key certs anchors key.
Proof using.
  unfold ValidateCertChain. rewrite CertInfos_Certificates_all. destruct (certchain_Verify certs anchors) as [leaf|] eqn:E; [|done].
  intros [= Hk]. apply certchain_Verify_inv in E as (rest & -> & Hne & Hv). by exists leaf, rest.
Qed.

Lemma ExtractAndValidateX5C_key header anchors key :
  ExtractAndValidateX5C header anchors = Ok (Some key) ->
  exists certs, X5CCertificates header = Ok certs /\ chain_key certs anchors key.
Proof using.
  unfold ExtractAndValidateX5C. destruct anchors as [|a anchors]; [done|]. destruct (X5CCertificates header) as [certs|] eqn:E; [|done].
  destruct certs as [|c certs]; [done|]. intros Hv%ValidateCertChain_key. by eexists.
Qed.

(** What the issuer's metadata must say for its key to count. *)
Definition metadata_source (t : Token) (anchors : list X509Cert) (key : PubKey) : Prop :=
  let iss := trim_space (get_string (t_Payload t) "iss") in
  exists metadataURL doc jwk,
    JWTVCIssuerMetadataURL iss = Ok metadataURL /\ fetchIssuerMetadataDocument metadataURL = Ok doc /\
    as_string (index doc "issuer") = Some iss /\ findIssuerMetadataJWK doc (get_string (t_Header t) "kid") = Ok jwk /\
    ((anchors = [] /\ ParsePublicKey (VObj jwk) = Some key) \/
     exists certs, FromX5C (index jwk "x5c") = Ok certs /\ chain_key certs anchors key).

Lemma metadata_key_source doc iss kid anchors key source :
  metadata_key doc iss kid anchors = Ok (Some key, source) ->
  as_string (index doc "issuer") = Some iss /\ exists jwk, findIssuerMetadataJWK doc kid = Ok jwk /\
    ((anchors = [] /\ ParsePublicKey (VObj jwk) = Some key) \/
     exists certs, FromX5C (index jwk "x5c") = Ok certs /\ chain_key certs anchors key).
Proof using.
  unfold metadata_key. destruct (as_string _) as [issuer|]; [|done]. destruct (String.eqb_spec issuer iss) as [->|]; [|done]. cbn [negb].
  destruct (findIssuerMetadataJWK doc kid) as [jwk|]; [|done]. intros Hm. split; [done|]. exists jwk. split; [done|].
  destruct anchors as [|a anchors].
  - left. split; [done|]. destruct (ParsePublicKey _) as [k|]; congruence.
  - right. unfold extractAndValidateJWKX5C in Hm. destruct (FromX5C _) as [certs|] eqn:Ef; [|done]. destruct certs as [|c certs]; [done|].
    exists (c :: certs). split; [done|]. apply ValidateCertChain_key. destruct (ValidateCertChain _ _) as [[k|]|]; by simplify_eq/=.
Qed.

Lemma Resolve_source t anchors key source :
  ResolveJWTIssuerMetadataKey t anchors = Ok (Some key, source) -> metadata_source t anchors key.
Proof using.
  unfold ResolveJWTIssuerMetadataKey, metadata_source. destruct (CanResolveJWTIssuerMetadata t); [|done]. cbn [negb].
  destruct (JWTVCIssuerMetadataURL _) as [u|]; [|done]. destruct (fetchIssuerMetadataDocument u) as [doc|] eqn:Ed; [|done].
  intros (Hi & jwk & Hj & Hk)%metadata_key_source. by exists u, doc, jwk.
Qed.

(** Where a key that verifies a token comes from. *)
Inductive key_source (t : Token) (keys : list crypto_PublicKey) (anchors : list X509Cert) (online : bool) (key : PubKey) : Prop :=
| from_chain certs : X5CCertificates (t_Header t) = Ok certs -> chain_key certs anchors key -> key_source t keys anchors online key
| from_caller : Some key ∈ keys -> key_source t keys anchors online key
| from_metadata : online = true -> metadata_source t anchors key -> key_source t keys anchors online key
| from_leaf leaf rest : keys = [] -> anchors = [] -> X5CCertificates (t_Header t) = Ok (leaf :: rest) ->
    cert_PublicKey leaf = Some key -> key_source t keys anchors online key.

Definition signed_with (t : Token) (key : PubKey) : Prop :=
  jose_verifies (issuer_jwt t) key = true /\ get_string (t_Header t) "alg" ∈ SupportedAlgorithms.

Lemma sdjwt_Verify_signed now t key :
  vr_SignatureValid (sdjwt_Verify now t key) = true -> exists k, key = Some k /\ signed_with t k.
Proof using.
  unfold sdjwt_Verify. destruct (negb _); [done|]. destruct (contains SupportedAlgorithms _) eqn:Ea; [|done]. cbn [negb].
  unfold jws_Valid. destruct key as [k|]; [|done]. destruct (jose_verifies _ k) eqn:Ev; [|done]. intros _.
  exists k. split; [done|]. split; [done|]. by apply contains_spec.
Qed.

Lemma try_keys_signed now t keys best r :
  try_keys now t keys best = Some r -> vr_SignatureValid r = true ->
  best = Some r \/ exists k, Some k ∈ keys /\ signed_with t k.
Proof using.
  revert best. induction keys as [|key keys IH]; intros best; simpl; [by left|].
  destruct (vr_SignatureValid (sdjwt_Verify now t key)) eqn:Ev; intros Hr Hvalid.
  - right. apply sdjwt_Verify_signed in Ev as (k & -> & Hk). exists k. split; [by left|done].
  - destruct (IH _ Hr Hvalid) as [[= <-]|(k & Hk & Hs)]; [congruence|]. right. exists k. split; [by right|done].
Qed.

Lemma try_keys_None now t keys best : try_keys now t keys best = None -> keys = [] /\ best = None.
Proof using.
  revert best. induction keys as [|key keys IH]; intros best; simpl; [done|].
  destruct (vr_SignatureValid _); [done|]. by intros [_ ?]%IH.
Qed.

Definition sourced (t : Token) keys anchors online : Prop := exists k, key_source t keys anchors online k /\ signed_with t k.

Lemma add_error_valid r e : vr_SignatureValid (add_error r e) = vr_SignatureValid r.
Proof using. done. Qed.

Lemma after_best_sourced now t keys anchors online chainErr best src r src' :
  vr_SignatureValid best = false -> after_best now t anchors online chainErr best src = Ok (Some (r, src')) ->
  vr_SignatureValid r = true -> sourced t keys anchors online.
Proof using.
  unfold after_best. intros Hb. set (best' := match chainErr with Some e => _ | None => _ end).
  assert (Hb' : vr_SignatureValid best' = false) by (by destruct chainErr). clearbody best'.
  destruct online; cbn [negb]; [|intros; simplify_eq; congruence].
  destruct (ResolveJWTIssuerMetadataKey t anchors) as [[[key|] source]|] eqn:Em.
  - destruct (vr_SignatureValid (sdjwt_Verify now t (Some key))) eqn:Ev; intros Heq Hr; [|simplify_eq; congruence].
    apply sdjwt_Verify_signed in Ev as (k & [= <-] & Hk). exists key. split; [|done]. apply from_metadata; [done|]. by eapply Resolve_source.
  - intros; simplify_eq; congruence.
  - intros [= <- _]. rewrite add_error_valid. congruence.
Qed.

Lemma without_best_sourced now t keys anchors online chainErr r src :
  without_best now t anchors online chainErr = Ok (Some (r, src)) -> vr_SignatureValid r = true -> sourced t keys anchors online.
Proof using.
  unfold without_best. destruct chainErr; [done|]. destruct online; [|done]. cbn [negb].
  destruct (ResolveJWTIssuerMetadataKey t anchors) as [[[key|] source]|] eqn:Em; [|done..].
  intros [= <- <-] (k & [= <-] & Hk)%sdjwt_Verify_signed. exists key. split; [|done]. apply from_metadata; [done|]. by eapply Resolve_source.
Qed.

Lemma verifyJWTSignature_sourced now t keys anchors online r src :
  verifyJWTSignature now t keys anchors online = Ok (Some (r, src)) -> vr_SignatureValid r = true -> sourced t keys anchors online.
Proof using.
  unfold verifyJWTSignature. intros Hv Hr.
  destruct (ExtractAndValidateX5C (t_Header t) anchors) as [[key|]|e] eqn:Ex.
  1: { injection Hv as <- <-. apply sdjwt_Verify_signed in Hr as (k & [= <-] & Hk). exists key. split; [|done].
       apply ExtractAndValidateX5C_key in Ex as (certs & Hc & Hk'). by eapply from_chain. }
  all: destruct (try_keys now t keys None) as [b|] eqn:Et.
  1,3: destruct (vr_SignatureValid b) eqn:Eb; [|by eapply after_best_sourced];
       destruct (try_keys_signed _ _ _ _ _ Et Eb) as [|(k & Hk & Hs)]; [done|]; exists k; split; [by apply from_caller|done].
  all: apply try_keys_None in Et as [-> _]; destruct anchors as [|a anchors]; [|by eapply without_best_sourced].
  all: try discriminate Ex.
  all: unfold ExtractX5CLeafKey in Hv; destruct (X5CCertificates (t_Header t)) as [[|leaf rest]|] eqn:Ec; try done;
       [by eapply without_best_sourced|]; destruct (cert_PublicKey leaf) as [k|] eqn:Ek; [|by eapply without_best_sourced].
  all: destruct (vr_SignatureValid (sdjwt_Verify now t (Some k))) eqn:Ev; [|by eapply after_best_sourced];
       apply sdjwt_Verify_signed in Ev as (k' & [= <-] & Hk); exists k; split; [by eapply from_leaf|done].
Qed.
End facts.

(** ** Signature, lifetime, type and status of an SD-JWT *)

Section results.
Context {J : Json} {H : Hash} {P : Pki} {B : Cbor} {C : Cose P}.
Context (fetch : string -> string -> option (string * string * string)).
Context (parseCWT : string -> CheckOptions -> result token_error statusListToken).
Context (trust : Trust) (opts : Options) (wall : time).

Lemma offline_signature_pass t :
  c_Status (offline_signature trust wall t).1 = Pass -> sourced t (Keys trust) (Issuance trust) false.
Proof using.
  unfold offline_signature. destruct (verifyJWTSignature _ _ _ _ _) as [[[res src]|]|] eqn:E; simpl; [| |done].
  - destruct (vr_SignatureValid res) eqn:Ev; [intros _; by eapply verifyJWTSignature_sourced|]. by destruct (CanResolveJWTIssuerMetadata t).
  - by destruct (_ || _).
Qed.

Lemma online_signature_pass t :
  c_Status (online_signature trust wall t).1 = Pass -> sourced t (Keys trust) (Issuance trust) true.
Proof using.
  unfold online_signature. destruct (verifyJWTSignature _ _ _ _ _) as [[[res src]|]|[e|e]] eqn:E; simpl; [|done| |done].
  - destruct (vr_SignatureValid res) eqn:Ev; [intros _; by eapply verifyJWTSignature_sourced|done].
  - by destruct (negb (Supplied trust)).
Qed.

(** With supplied trust the catalogue is not asked. *)
Lemma supplied_catalogue c : Supplied trust = true -> catalogueAnchors trust c = None.
Proof using. unfold catalogueAnchors. intros ->. by destruct c. Qed.

Lemma jwtSignature_pass t c :
  Supplied trust = true -> c_Status (jwtSignature trust opts wall t c).1 = Pass ->
  TrustErr trust = None /\ (Pending trust = true \/ Keys trust <> [] \/ Issuance trust <> []) /\
  sourced t (Keys trust) (Issuance trust) (negb (Offline opts)).
Proof using.
  intros Hs. unfold jwtSignature, catalogue_signature. rewrite (supplied_catalogue c Hs). cbn [mbind option_bind].
  destruct (TrustErr trust); [done|]. destruct (emptyTrust trust) as [chk|] eqn:Ee.
  { unfold emptyTrust in Ee. destruct (_ && _); [|done]. by simplify_eq/=. }
  intros Hp. split; [done|]. split.
  - unfold emptyTrust in Ee. rewrite Hs in Ee. destruct (Pending trust); [by left|right].
    destruct (Keys trust); [|by left]. destruct (Issuance trust); [done|by right].
  - destruct (Offline opts); [by apply offline_signature_pass|by apply online_signature_pass].
Qed.

Lemma CheckSDJWTType_pass t : c_Status (CheckSDJWTType t) <> Fail -> get "typ" (t_Header t) = Some (VString TypeSDJWTVC).
Proof using.
  unfold CheckSDJWTType, ValidateVCType, get_string, index. destruct (get "typ" (t_Header t)) as [raw|]; [|done].
  destruct raw as [| | | | | |typ| | | |]; try done. cbn [as_string default]. unfold IsAcceptedVCType.
  destruct (String.eqb_spec typ TypeSDJWTVC) as [->|]; [done|]. destruct (String.eqb_spec typ TypeSDJWTVCLegacy) as [->|]; done.
Qed.

(** *** The names of the checks *)

Lemma CheckSDJWTType_name t : c_Name (CheckSDJWTType t) = CheckType.
Proof. unfold CheckSDJWTType. destruct (ValidateVCType _); [|done]. by case_match. Qed.

Lemma validityCheck_name from issued until now noUntil : c_Name (validityCheck from issued until now noUntil) = CheckExpiry.
Proof. unfold validityCheck. by repeat case_match. Qed.

Lemma emptyTrust_name chk : emptyTrust trust = Some chk -> c_Name chk = CheckSignature.
Proof using. unfold emptyTrust. destruct (_ && _); [|done]. by intros [= <-]. Qed.

Lemma offline_signature_name t : c_Name (offline_signature trust wall t).1 = CheckSignature.
Proof using. unfold offline_signature. by repeat case_match. Qed.

Lemma online_signature_name t : c_Name (online_signature trust wall t).1 = CheckSignature.
Proof using. unfold online_signature. by repeat case_match. Qed.

Lemma jwtSignature_name t c : c_Name (jwtSignature trust opts wall t c).1 = CheckSignature.
Proof using.
  unfold jwtSignature. destruct (TrustErr trust); [done|]. destruct (emptyTrust trust) as [chk|] eqn:Ee; [by apply emptyTrust_name|].
  destruct (catalogue_signature trust wall t c) as [s|] eqn:Es.
  - unfold catalogue_signature in Es. destruct (catalogueAnchors trust c); [|done]. cbn in Es. repeat case_match; by simplify_eq.
  - destruct (Offline opts); [apply offline_signature_name|apply online_signature_name].
Qed.

Lemma validityCheck_live from issued until now noUntil :
  c_Status (validityCheck from issued until now noUntil) <> Fail -> NotYet from now = false /\ Expired until now = false.
Proof using. unfold validityCheck. destruct (NotYet from now); [done|]. by destruct (Expired until now). Qed.

Lemma integrity_pass t :
  c_Status (CheckSDJWTIntegrity t) <> Fail -> forall d, d ∈ t_Disclosures t -> d_Digest d ∈ ReferencedDigests t.
Proof using.
  unfold CheckSDJWTIntegrity. destruct (t_Disclosures t) as [|d0 ds] eqn:Ed; [intros _ d; by intros ?%elem_of_nil|]. rewrite <- Ed. clear d0 ds Ed.
  destruct (Nat.eqb_spec (length (filter (fun d => d_Digest d ∈ ReferencedDigests t) (t_Disclosures t))) (length (t_Disclosures t))) as [El|]; [|done].
  intros _ d Hd. induction (t_Disclosures t) as [|e l IH]; [by apply elem_of_nil in Hd|].
  rewrite filter_cons in El. destruct (decide (d_Digest e ∈ ReferencedDigests t)) as [He|He].
  - apply elem_of_cons in Hd as [->|Hd]; [done|]. apply IH; [|done]. simpl in El. lia.
  - pose proof (length_filter (fun d => d_Digest d ∈ ReferencedDigests t) l). simpl in El. lia.
Qed.

(** The status of a credential that the checks do not refuse. *)
Definition status_good (claims : object) (prefer : string) (c : option CatalogueAnchoring) : Prop :=
  forall ref, NonStatusListFormat claims = None -> ExtractStatusRef claims = Some ref ->
    ref_Invalid ref = None /\ exists r, CheckWithOptions (fetch prefer) parseCWT (Some ref) (status_options trust opts wall c) = Ok r /\ res_IsValid r = true.

Lemma status_pass claims prefer c :
  Offline opts = false -> OptStatus opts = true ->
  (forall chk, chk ∈ (status fetch parseCWT trust opts wall claims prefer c).1 -> c_Name chk = CheckStatus -> c_Status chk <> Fail) ->
  status_good claims prefer c.
Proof using.
  intros Ho Hopt Hchk ref Hstd Href. unfold status in Hchk. rewrite Hstd, Href, Ho, Hopt in Hchk. cbn [negb] in Hchk.
  destruct (TrustErr trust) as [e|]; [by destruct (Hchk _ ltac:(by left) eq_refl)|].
  destruct (ref_Invalid ref) as [bad|]; [by destruct (Hchk _ ltac:(by left) eq_refl)|]. split; [done|].
  destruct (CheckWithOptions _ _ _ _) as [r|e]; [|by destruct (Hchk _ ltac:(by left) eq_refl)].
  exists r. split; [done|]. destruct (res_IsValid r) eqn:Ev; [done|]. unfold status_checks in Hchk. rewrite Ev in Hchk.
  by destruct (Hchk _ ltac:(by left) eq_refl).
Qed.
End results.
