(* ===== verification/MdocFacts.v ===== *)
(** * MdocFacts: what the checks of an mdoc establish

    The digests of the disclosed elements, the issuer's key behind a passed
    signature check and the holder's signature. *)

From stdpp Require Import base list strings gmap.
From Stdlib Require Import ZArith Lia Ascii.
From S2P Require Import Prelude GoStrings GoValue Format Validity StatusList SDJWT WalletState Certs Mdoc Validate ValidateFacts.

Local Open Scope Z_scope.

Lemma check_each_ok {A} (f : A -> result why ()) l : check_each f l = Ok () <-> forall x, x ∈ l -> f x = Ok ().
Proof.
  induction l as [|x l IH]; simpl; [split; [by intros _ x ?%elem_of_nil|done]|].
  destruct (f x) as [[]|e] eqn:E.
  - rewrite IH. split; [intros Hl y [->|Hy]%elem_of_cons; auto|intros Hl y Hy; apply Hl; by right].
  - split; [done|]. intros Hl. rewrite (Hl x) in E; [done|by left].
Qed.

Section facts.
Context {J : Json} {H : Hash} {P : Pki} {B : Cbor} {C : Cose P}.

Definition doc_mso (doc : Document) : option MSO := ia ← doc_IssuerAuth doc; ia_MSO ia.

(** The element is one the issuer signed a digest of, under its namespace. *)
Definition element_signed (mso : MSO) (hash : string -> string) (ns : string) (item : IssuerSignedItem) : Prop :=
  exists digests want, ValueDigests mso !! ns = Some digests /\ digests !! item_DigestID item = Some want /\
    item_RawCBOR item <> [] /\ hash (string_of (item_RawCBOR item)) = want.

Lemma check_item_ok hash digests item :
  check_item hash digests item = Ok () <->
  exists want, digests !! item_DigestID item = Some want /\ item_RawCBOR item <> [] /\ hash (string_of (item_RawCBOR item)) = want.
Proof using.
  unfold check_item. destruct (digests !! item_DigestID item) as [want|]; [|naive_solver].
  destruct (item_RawCBOR item) as [|b l]; [naive_solver|].
  destruct (String.eqb_spec (hash (string_of (b :: l))) want); naive_solver.
Qed.

(** The digest check accepts exactly the documents all of whose elements are
    signed. *)
Lemma VerifyValueDigests_spec doc mso :
  doc_mso doc = Some mso ->
  (VerifyValueDigests doc = Ok () <->
   doc_NameSpaces doc <> [] /\ exists hash, DigestHasher (DigestAlgorithm mso) = Ok hash /\
     forall ns items, (ns, items) ∈ doc_NameSpaces doc ->
       (exists digests, ValueDigests mso !! ns = Some digests) /\ forall item, item ∈ items -> element_signed mso hash ns item).
Proof using.
  unfold doc_mso, VerifyValueDigests. intros ->. destruct (DigestHasher _) as [hash|e]; [|naive_solver].
  destruct (doc_NameSpaces doc) as [|n0 nss] eqn:En; [naive_solver|]. rewrite <- En. rewrite check_each_ok. split.
  - intros Hall. split; [congruence|]. exists hash. split; [done|]. intros ns items Hin. specialize (Hall _ Hin). cbn in Hall.
    destruct (ValueDigests mso !! ns) as [digests|] eqn:Ed; [|done]. split; [by eexists|]. rewrite check_each_ok in Hall.
    intros item Hi. apply Hall, check_item_ok in Hi as (want & ? & ? & ?). by exists digests, want.
  - intros (_ & hash' & [= <-] & Hall) [ns items] Hin. cbn. destruct (Hall _ _ Hin) as [[digests Hdig] Hitems]. rewrite Hdig.
    rewrite check_each_ok. intros item Hi. apply check_item_ok. destruct (Hitems _ Hi) as (d & want & Hd & ? & ? & ?).
    exists want. assert (d = digests) as <- by congruence. done.
Qed.

Lemma total_items (l : list (string * list IssuerSignedItem)) n :
  fold_left (fun n ns => n + length ns.2)%nat l n = 0%nat -> n = 0%nat /\ forall ns items, (ns, items) ∈ l -> items = [].
Proof using.
  revert n. induction l as [|[ns items] l IH]; intros n; simpl; [intros ->; split; [done|by intros ? ? ?%elem_of_nil]|].
  intros [Hn Hall]%IH. split; [lia|]. intros ns' items' [[= -> ->]|Hin]%elem_of_cons; [|by eapply Hall].
  destruct items; simpl in Hn; [done|lia].
Qed.

(** When the integrity check does not fail every disclosed element is signed. *)
Lemma mdoc_integrity doc mso :
  doc_mso doc = Some mso -> c_Status (CheckMDOCIntegrity doc) <> Fail ->
  forall ns items item, (ns, items) ∈ doc_NameSpaces doc -> item ∈ items ->
    exists hash, DigestHasher (DigestAlgorithm mso) = Ok hash /\ element_signed mso hash ns item.
Proof using.
  intros Hm Hc ns items item Hns Hi. unfold CheckMDOCIntegrity in Hc. pose proof Hm as Hm'. unfold doc_mso in Hm'. rewrite Hm' in Hc.
  destruct (Nat.eqb_spec (fold_left (fun n ns => n + length ns.2)%nat (doc_NameSpaces doc) 0%nat) 0) as [E|].
  - apply total_items in E as [_ Hall]. rewrite (Hall _ _ Hns) in Hi. by apply elem_of_nil in Hi.
  - destruct (VerifyValueDigests doc) as [[]|] eqn:Ev; [|done]. apply (VerifyValueDigests_spec doc mso Hm) in Ev as (_ & hash & Hh & Hall).
    exists hash. split; [done|]. by apply (Hall _ _ Hns).
Qed.

(** The issuer signature verifies with the key. *)
Definition mdoc_signed_with (doc : Document) (key : crypto_PublicKey) : Prop :=
  exists ia, doc_IssuerAuth doc = Some ia /\ coseAlgorithm (protected_alg (ProtectedHeader ia)) = true /\
    sign1_verifies (RawCOSE ia) (protected_alg (ProtectedHeader ia)) key = true.

Lemma mdoc_Verify_signed now doc key : mr_SignatureValid (mdoc_Verify now doc key) = true -> mdoc_signed_with doc key.
Proof using.
  unfold mdoc_Verify, mdoc_signed_with. destruct (doc_IssuerAuth doc) as [ia|]; [|done]. cbn. unfold signature_errors.
  destruct (_ =? "")%string; [done|]. destruct (coseAlgorithm _) eqn:Ea; [|done]. cbn [negb].
  destruct (sign1_parses _); [|done]. destruct (verifier_for _ _); [|done]. cbn [negb].
  destruct (sign1_verifies _ _ _) eqn:Ev; [|done]. intros _. by exists ia.
Qed.

Context (trust : Trust) (opts : Options) (wall : time).

(** The keys that may verify an mdoc under supplied trust. *)
Definition mdoc_sourced (doc : Document) : Prop :=
  exists key, mdoc_signed_with doc key /\
    (key ∈ Keys trust \/
     exists leaf rest, ExtractMDOCX5ChainCertificates doc = Ok (leaf :: rest) /\ Issuance trust <> [] /\
       chain_verifies (Issuance trust) rest leaf = true /\ key = cert_PublicKey leaf).

Lemma mdoc_keys_pass doc keys last s :
  mdoc_keys wall doc keys last = inl s -> exists key, key ∈ keys /\ mdoc_signed_with doc key.
Proof using.
  revert last. induction keys as [|key keys IH]; intros last; simpl; [done|].
  destruct (mr_SignatureValid _) eqn:Ev; [intros _; exists key; split; [by left|by eapply mdoc_Verify_signed]|].
  intros (k & Hk & Hs)%IH. exists k. split; [by right|done].
Qed.

Lemma mdoc_unverified_not_pass reasons last : c_Status (mdoc_unverified reasons last) <> Pass.
Proof using. unfold mdoc_unverified. by destruct last, reasons. Qed.

Lemma mdoc_without_chain_pass doc chain reasons last :
  Supplied trust = true -> c_Status (mdoc_without_chain trust wall doc chain reasons last).1 = Pass -> mdoc_sourced doc.
Proof using.
  intros Hs. unfold mdoc_without_chain. destruct (mdoc_keys wall doc (Keys trust) last) as [s|last'] eqn:Ek.
  - intros _. apply mdoc_keys_pass in Ek as (key & Hk & Hsig). exists key. split; [done|by left].
  - rewrite Hs. destruct chain; simpl; intros Hp; by apply mdoc_unverified_not_pass in Hp.
Qed.

Lemma mdocSignature_pass doc c :
  Supplied trust = true -> c_Status (mdocSignature trust wall doc c).1 = Pass -> TrustErr trust = None /\ mdoc_sourced doc.
Proof using.
  intros Hs. unfold mdocSignature. destruct (TrustErr trust); [done|]. destruct (emptyTrust trust) as [chk|] eqn:Ee.
  { unfold emptyTrust in Ee. destruct (_ && _); [|done]. by simplify_eq/=. }
  destruct (ExtractMDOCX5ChainCertificates doc) as [chain|] eqn:Ec; [|done]. rewrite (supplied_catalogue trust c Hs). cbv zeta.
  intros Hp. split; [done|].
  destruct (Issuance trust) as [|a anchors] eqn:Ei; [by eapply mdoc_without_chain_pass|].
  destruct chain as [|leaf rest]; [by eapply mdoc_without_chain_pass|]. rewrite <- Ei in Hp.
  destruct (certchain_Verify (leaf :: rest) (Issuance trust)) as [l|] eqn:Ev; [|by eapply mdoc_without_chain_pass].
  destruct (mr_SignatureValid _) eqn:Es; [|by eapply mdoc_without_chain_pass].
  apply mdoc_Verify_signed in Es. apply certchain_Verify_inv in Ev as (rest' & [= <- <-] & Hne & Hv).
  exists (cert_PublicKey leaf). split; [done|]. right. by exists leaf, rest.
Qed.

Lemma mdoc_keys_name doc keys last s : mdoc_keys wall doc keys last = inl s -> c_Name s.1 = CheckSignature.
Proof using.
  revert last. induction keys as [|key keys IH]; intros last; simpl; [done|]. destruct (mr_SignatureValid _); [by intros [= <-]|apply IH].
Qed.

Lemma mdoc_without_chain_name doc chain reasons last :
  c_Name (mdoc_without_chain trust wall doc chain reasons last).1 = CheckSignature.
Proof using.
  unfold mdoc_without_chain, mdoc_unverified. destruct (mdoc_keys wall doc (Keys trust) last) as [s|last'] eqn:Ek; [by eapply mdoc_keys_name|].
  by repeat case_match.
Qed.

Lemma mdocSignature_name doc c : c_Name (mdocSignature trust wall doc c).1 = CheckSignature.
Proof using.
  unfold mdocSignature. destruct (TrustErr trust); [done|]. destruct (emptyTrust trust) as [chk|] eqn:Ee; [by eapply emptyTrust_name|].
  destruct (ExtractMDOCX5ChainCertificates doc) as [chain|]; [|done].
  repeat (case_match; try apply mdoc_without_chain_name); done.
Qed.

Lemma mdocValidity_name doc now : c_Name (mdocValidity doc now) = CheckExpiry.
Proof. unfold mdocValidity. destruct (_ ← doc_IssuerAuth doc; _); [apply validityCheck_name|done]. Qed.

Lemma CheckMDOCIntegrity_name doc : c_Name (CheckMDOCIntegrity doc) = CheckIntegrity.
Proof. unfold CheckMDOCIntegrity. by repeat case_match. Qed.

Lemma mdocValidity_live doc now mso vi :
  doc_mso doc = Some mso -> mso_ValidityInfo mso = Some vi -> c_Status (mdocValidity doc now) <> Fail ->
  NotYet (ValidFrom vi) now = false /\ Expired (ValidUntil vi) now = false.
Proof using.
  unfold mdocValidity, doc_mso. destruct (doc_IssuerAuth doc) as [ia|]; [|done]. cbn. intros -> Hv. cbn. rewrite Hv. apply validityCheck_live.
Qed.
End facts.

(** The holder signed this transcript with the device key of the MSO. *)
Section device.
Context {P : Pki} {B : Cbor} {C : Cose P}.

Definition holder_signed (doc : Document) (transcript : string) : Prop :=
  exists ds key payload, doc_DeviceSigned doc = Some ds /\ DeviceKey doc = Ok key /\ cose_curve key = Some "P-256" /\
    device_authentication transcript (DocType doc) = Ok payload /\ es256_verifies (RawDeviceSignature ds) payload key = true.

Lemma DeviceKey_mso doc key : DeviceKey doc = Ok key -> (exists mso, doc_mso doc = Some mso) /\ cose_curve key = Some "P-256".
Proof using.
  unfold DeviceKey, doc_mso. destruct (_ ← doc_IssuerAuth doc; _) as [mso|]; [|done].
  destruct (DeviceKeyInfo mso) as [info|]; [|done]. destruct (get "deviceKey" info); [|done]. destruct (_ =? "")%string; [done|].
  destruct (cose_key _) as [k|]; [|done]. destruct (cose_curve k) as [crv|] eqn:Ek; [|done].
  destruct (String.eqb_spec crv "P-256") as [->|]; [|done]. intros [= <-]. split; [by exists mso|done].
Qed.

Lemma VerifyDeviceAuth_ok doc transcript : VerifyDeviceAuth doc transcript = Ok () -> holder_signed doc transcript.
Proof using.
  unfold VerifyDeviceAuth, holder_signed. destruct (doc_DeviceSigned doc) as [ds|]; [|done]. cbn. destruct (DeviceAuth ds); [|done]. cbn.
  destruct (_ =? "")%string; [done|]. destruct (DeviceKey doc) as [key|] eqn:Ek; [|done].
  destruct (device_authentication _ _) as [payload|] eqn:Ep; [|done]. destruct (untagged_parses _); [|done]. cbn [negb].
  destruct (es256_verifies _ _ _) eqn:Ev; [|done]. intros _. exists ds, key, payload. split_and!; try done. by eapply DeviceKey_mso.
Qed.
End device.
