(* ===== verification/Conc.v ===== *)
(** * Conc: programs made of atomic steps

    A Go function that works on shared state under locks, or through a store
    whose operations are atomic one by one, is a [prog]: a tree of atomic
    steps on the shared state.  [run] executes one without interruption;
    [pool_step] interleaves the steps of several.  The second half is the
    rely-guarantee method for such pools: a program is [safe] when each of its
    steps, from every state the other threads may have produced, respects the
    thread's guarantee; a pool of safe programs keeps the invariant. *)

From stdpp Require Import base list strings gmap relations.
From S2P Require Import Prelude.

Inductive prog (St A : Type) : Type :=
| Ret (a : A)
| Do {R : Type} (f : St -> St * R) (k : R -> prog St A).
Arguments Ret {St A} a.
Arguments Do {St A R} f k.

Fixpoint bind {St A B} (p : prog St A) (g : A -> prog St B) : prog St B :=
  match p with
  | Ret a => g a
  | Do f k => Do f (fun r => bind (k r) g)
  end.

(** One atomic step; a read leaves the state. *)
Definition atomic {St R} (f : St -> St * R) : prog St R := Do f Ret.
Definition get {St R} (f : St -> R) : prog St R := Do (fun s => (s, f s)) Ret.
Definition modify {St} (f : St -> St) : prog St () := Do (fun s => (f s, ())) Ret.

Notation "'do' x <- p ; q" := (bind p (fun x => q))
  (at level 10, x pattern, p at level 100, q at level 200) : go_scope.

(** Go's [x, err := p(); if err != nil { return err }]. *)
Notation "'try' x <- p ; q" :=
  (bind p (fun r => match r with Ok x => q | Err e => Ret (Err e) end))
  (at level 10, x pattern, p at level 100, q at level 200) : go_scope.

Fixpoint run {St A} (p : prog St A) (s : St) : St * A :=
  match p with
  | Ret a => (s, a)
  | Do f k => run (k (snd (f s))) (fst (f s))
  end.

Lemma run_bind {St A B} (p : prog St A) (g : A -> prog St B) s :
  run (bind p g) s = run (g (snd (run p s))) (fst (run p s)).
Proof. revert s. induction p as [a|R f k IH]; intros s; simpl; [done|]. by rewrite IH. Qed.

(** A loop over the elements of a slice, threading an accumulator. *)
Fixpoint foreach {St A B E} (l : list A) (acc : B) (body : A -> B -> prog St (result E B)) : prog St (result E B) :=
  match l with
  | [] => Ret (Ok acc)
  | x :: l => try acc <- body x acc; foreach l acc body
  end.

(** ** Pools of threads

    [live] marks the states from which the environment still takes steps; a
    thread whose last program ended in a result [resumes] accepts may start
    another one. *)

Abbreviation pool St A := (gmap string (prog St A)).

Section pools.
Context {St A : Type}.

Definition advance (s : St) (p : prog St A) : St * prog St A :=
  match p with
  | Ret a => (s, Ret a)
  | Do f k => (fst (f s), k (snd (f s)))
  end.

Inductive pool_step (live : St -> Prop) (resumes : A -> Prop) (may_start : string -> prog St A -> Prop) :
    St * pool St A -> St * pool St A -> Prop :=
| step_thread s P t p s' p' :
    live s -> P !! t = Some p -> advance s p = (s', p') ->
    pool_step live resumes may_start (s, P) (s', <[t := p']> P)
| step_start s P t p :
    (forall q, P !! t = Some q -> exists a, q = Ret a /\ resumes a) -> may_start t p ->
    pool_step live resumes may_start (s, P) (s, <[t := p]> P).

(** The pool after the threads of a schedule have each taken a step. *)
Fixpoint run_schedule (sched : list string) (s : St) (P : pool St A) : St * pool St A :=
  match sched with
  | [] => (s, P)
  | t :: sched =>
      match P !! t with
      | Some p => let '(s', p') := advance s p in run_schedule sched s' (<[t := p']> P)
      | None => run_schedule sched s P
      end
  end.
End pools.

(** ** Rely and guarantee

    [W] is the state with what the proof adds to it, [st] forgets the
    addition.  [guar t] is what thread [t] may do. *)

Section rely_guarantee.
Context {St W : Type} (live : St -> Prop) (st : W -> St).
Context (Inv : W -> Prop) (guar : string -> W -> W -> Prop).

Definition rely (t : string) (w w' : W) : Prop :=
  Inv w /\ Inv w' /\ exists t', t' <> t /\ guar t' w w'.

Definition stable (t : string) (I : W -> Prop) : Prop := forall w w', rely t w w' -> I w -> I w'.

Lemma stable_rtc t I w w' : stable t I -> rtc (rely t) w w' -> I w -> I w'.
Proof. intros Hs Hr. induction Hr; [done|]. intros HI. eauto. Qed.

(** A program with a postcondition that may depend on its result. *)
Fixpoint safe {B} (t : string) (p : prog St B) (Q : B -> W -> Prop) (w : W) : Prop :=
  match p with
  | Ret b => forall w', rtc (rely t) w w' -> Inv w' -> Q b w'
  | Do f k => forall w', rtc (rely t) w w' -> Inv w' -> live (st w') ->
      exists w'', st w'' = fst (f (st w')) /\ guar t w' w'' /\ Inv w'' /\ safe t (k (snd (f (st w')))) Q w''
  end.

Lemma safe_rely {B} t (p : prog St B) Q w w' : rtc (rely t) w w' -> safe t p Q w -> safe t p Q w'.
Proof. intros Hr. destruct p; simpl; intros H w1 Hw1; apply H; by etrans. Qed.

Lemma safe_weaken {B} t (p : prog St B) (Q Q' : B -> W -> Prop) w :
  (forall b w, Inv w -> Q b w -> Q' b w) -> safe t p Q w -> safe t p Q' w.
Proof.
  intros HQ. revert w. induction p as [b|R f k IH]; intros w; simpl; intros H w1 Hw1; [by auto|].
  intros Hi Hl. destruct (H w1 Hw1 Hi Hl) as (w2 & ? & ? & ? & ?). exists w2. auto.
Qed.

Lemma safe_ret {B} t (b : B) (Q : B -> W -> Prop) w :
  stable t (Q b) -> Q b w -> safe t (Ret b) Q w.
Proof. intros Hst HQ w' Hr _. by eapply stable_rtc. Qed.

Lemma safe_bind {B C} t (p : prog St B) (g : B -> prog St C) Q w :
  Inv w -> safe t p (fun b => safe t (g b) Q) w -> safe t (bind p g) Q w.
Proof.
  revert w. induction p as [b|R f k IH]; intros w Hi; simpl.
  - intros H. by apply H.
  - intros H w1 Hw1 Hi1 Hl. destruct (H w1 Hw1 Hi1 Hl) as (w2 & ? & ? & ? & ?). exists w2. auto 6.
Qed.

(** One step, from an assertion the other threads preserve. *)
Lemma safe_do {B R} t (I : W -> Prop) (f : St -> St * R) (k : R -> prog St B) Q w :
  stable t I -> I w ->
  (forall w, I w -> Inv w -> live (st w) ->
     exists w', st w' = fst (f (st w)) /\ guar t w w' /\ Inv w' /\ safe t (k (snd (f (st w)))) Q w') ->
  safe t (Do f k) Q w.
Proof. intros Hst HI Hstep w' Hr Hi Hl. apply Hstep; [by eapply stable_rtc|done|done]. Qed.

(** A loop whose body keeps an assertion about the accumulator and the
    elements still to come. *)
Lemma safe_foreach {B C E} t (I : list B -> C -> W -> Prop) (l : list B) (acc : C)
    (body : B -> C -> prog St (result E C)) (Q : result E C -> W -> Prop) w :
  (forall r, stable t (Q r)) ->
  (forall x l acc w, Inv w -> I (x :: l) acc w ->
     safe t (body x acc) (fun r w => match r with Ok acc => I l acc w | Err e => Q (Err e) w end) w) ->
  (forall acc w, Inv w -> I [] acc w -> Q (Ok acc) w) ->
  Inv w -> I l acc w -> safe t (foreach l acc body) Q w.
Proof.
  intros HQ Hbody Hend. revert acc w. induction l as [|x l IH]; intros acc w Hi HI; simpl.
  - apply safe_ret; [by apply HQ|by apply Hend].
  - apply safe_bind; [done|]. eapply safe_weaken; [|by apply Hbody].
    intros [acc'|e] w' Hi' H; [by apply IH|]. by apply safe_ret; [apply HQ|].
Qed.

(** ** Soundness

    [idle t] describes a thread between two programs, [done_ok t] its state
    when one has ended. *)
Context {A : Type} (resumes : A -> Prop) (may_start : string -> prog St A -> Prop).
Context (idle : string -> W -> Prop) (done_ok : string -> A -> W -> Prop).
Context (idle_stable : forall t, stable t (idle t)).
Context (done_idle : forall t a w, resumes a -> done_ok t a w -> idle t w).
Context (start_safe : forall t p w, may_start t p -> Inv w -> idle t w -> safe t p (done_ok t) w).

Definition thread_ok (P : pool St A) (w : W) (t : string) : Prop :=
  match P !! t with Some p => safe t p (done_ok t) w | None => idle t w end.

Definition pool_ok (c : St * pool St A) : Prop :=
  exists w, st w = fst c /\ Inv w /\ forall t, thread_ok (snd c) w t.

Lemma thread_ok_rely P w w' t : rely t w w' -> thread_ok P w t -> thread_ok P w' t.
Proof using idle_stable.
  unfold thread_ok. intros Hr. destruct (P !! t); [apply safe_rely; by apply rtc_once|by apply idle_stable].
Qed.

Lemma pool_ok_step c c' : pool_step live resumes may_start c c' -> pool_ok c -> pool_ok c'.
Proof using idle_stable done_idle start_safe.
  intros [s P t p s' p' Hl Ht Ha|s P t p Hq Hm] (w & Hw & Hi & Hall); simpl in *; subst s.
  - assert (Hp := Hall t). unfold thread_ok in Hp. rewrite Ht in Hp.
    destruct p as [a|R f k]; simpl in Ha; simplify_eq/=.
    + exists w. split_and!; [done|done|]. intros t'. unfold thread_ok. simpl. rewrite insert_id by done. apply Hall.
    + destruct (Hp w ltac:(done) Hi Hl) as (w' & E & Hg & Hi' & Hs). exists w'. split_and!; [done|done|].
      intros t'. destruct (decide (t' = t)) as [->|Hne].
      * unfold thread_ok. simpl. by rewrite lookup_insert_eq.
      * apply (thread_ok_rely _ w); [split_and!; [done|done|]; by exists t|].
        unfold thread_ok. simpl. rewrite lookup_insert_ne by done. apply Hall.
  - exists w. split_and!; [done|done|]. intros t'. destruct (decide (t' = t)) as [->|Hne].
    + unfold thread_ok. simpl. rewrite lookup_insert_eq. apply start_safe; [done|done|].
      assert (Hp := Hall t). unfold thread_ok in Hp. destruct (P !! t) as [q|] eqn:Eq; [|done].
      destruct (Hq q eq_refl) as (a & -> & Hr). eapply done_idle; [done|]. by apply Hp.
    + unfold thread_ok. simpl. rewrite lookup_insert_ne by done. apply Hall.
Qed.

Lemma pool_ok_steps c c' : rtc (pool_step live resumes may_start) c c' -> pool_ok c -> pool_ok c'.
Proof using idle_stable done_idle start_safe. induction 1; [done|]. eauto using pool_ok_step. Qed.

(** A thread that has ended is in the state its program promises. *)
Lemma pool_ok_idle P w t :
  Inv w -> (forall p, P !! t = Some p -> exists a, p = Ret a /\ resumes a) -> thread_ok P w t -> idle t w.
Proof using done_idle.
  unfold thread_ok. intros Hi Hp H. destruct (P !! t) as [p|]; [|done].
  destruct (Hp p eq_refl) as (a & -> & Hr). eapply done_idle; [done|]. by apply H.
Qed.
End rely_guarantee.

(** ** Steady programs

    A harmless step may be taken at any time: it keeps the invariant and only
    lets the world [grow].  A steady program consists of harmless steps and
    keeps every assertion that survives growth. *)

Section steady.
Context {St W : Type} (live : St -> Prop) (st : W -> St).
Context (Inv : W -> Prop) (guar : string -> W -> W -> Prop) (grow : W -> W -> Prop).

Definition harmless {R} (f : St -> St * R) : Prop :=
  forall t w, Inv w -> exists w', st w' = fst (f (st w)) /\ guar t w w' /\ Inv w' /\ grow w w'.

Fixpoint steady {A} (p : prog St A) : Prop :=
  match p with
  | Ret _ => True
  | Do f k => harmless f /\ forall r, steady (k r)
  end.

Lemma steady_step {R} (f : St -> St * R) : harmless f -> steady (atomic f).
Proof using. done. Qed.

Lemma steady_bind {A B} (p : prog St A) (g : A -> prog St B) : steady p -> (forall a, steady (g a)) -> steady (bind p g).
Proof using. induction p as [a|R f k IH]; cbn [bind steady]; [auto|]. intros [Hf Hk] Hg. split; [done|]. auto. Qed.

Lemma steady_foreach {A B E} (l : list A) (acc : B) (body : A -> B -> prog St (result E B)) :
  (forall x acc, steady (body x acc)) -> steady (foreach l acc body).
Proof using.
  intros Hb. revert acc. induction l as [|x l IH]; intros acc; cbn [foreach]; [done|].
  apply steady_bind; [done|]. intros [acc'|e]; [apply IH|done].
Qed.

(** Assertions that survive as the world grows. *)
Definition growing (I : W -> Prop) : Prop := forall w w', grow w w' -> I w -> I w'.

Lemma growing_const (P : Prop) : growing (fun _ => P).
Proof using. by intros w w' _ HP. Qed.

Context (guar_grow : forall t w w', guar t w w' -> grow w w').

Lemma grow_stable t I : growing I -> stable Inv guar t I.
Proof using guar_grow. intros HI w w' (_ & _ & t' & _ & Hg). by eapply HI, guar_grow. Qed.

Abbreviation safely := (safe live st Inv guar).

Lemma steady_is_safe {A} t (p : prog St A) I w : steady p -> growing I -> I w -> safely t p (fun _ => I) w.
Proof using guar_grow.
  intros Hp HI. revert w. induction p as [a|R f k IH]; intros w Hw; [apply safe_ret; [by apply grow_stable|done]|].
  destruct Hp as [Hf Hk]. apply (safe_do _ _ _ _ t I); [by apply grow_stable|done|]. clear w Hw.
  intros w Hw Hi _. destruct (Hf t w Hi) as (w' & Hst & Hg & Hi' & Hgr). exists w'.
  split; [done|split; [done|split; [done|]]]. apply IH; [done|]. by eapply HI.
Qed.

Lemma safe_seq {A B} t (p : prog St A) (g : A -> prog St B) (I : A -> W -> Prop) Q w :
  Inv w -> safely t p I w -> (forall a w, Inv w -> I a w -> safely t (g a) Q w) -> safely t (bind p g) Q w.
Proof using. intros Hi Hp Hk. apply safe_bind; [done|]. eapply safe_weaken; [|exact Hp]. auto. Qed.

(** A steady program, then one that relies on the assertion. *)
Lemma safe_after_steady {A B} t (p : prog St A) (g : A -> prog St B) I Q w :
  Inv w -> steady p -> growing I -> I w -> (forall a w, Inv w -> I w -> safely t (g a) Q w) -> safely t (bind p g) Q w.
Proof using guar_grow. intros Hi Hp HI Hw Hk. apply (safe_seq t p g (fun _ => I)); [done|by apply steady_is_safe|auto]. Qed.

(** One harmless step whose result says something. *)
Lemma safe_informing {R} t (f : St -> St * R) (I : W -> Prop) (Q : R -> W -> Prop) w :
  harmless f -> growing I -> I w -> (forall r, growing (Q r)) ->
  (forall w w', Inv w -> I w -> st w' = fst (f (st w)) -> grow w w' -> Q (snd (f (st w))) w') ->
  safely t (atomic f) Q w.
Proof using guar_grow.
  intros Hf HI Hw HQ Hstep. apply (safe_do _ _ _ _ t I); [by apply grow_stable|done|]. clear w Hw.
  intros w Hw Hi _. destruct (Hf t w Hi) as (w' & Hst & Hg & Hi' & Hgr). exists w'.
  split; [done|split; [done|split; [done|]]]. apply safe_ret; [by apply grow_stable|]. by apply Hstep.
Qed.
End steady.
#[global] Arguments safe_seq {St W live st Inv guar A B} t p g I Q w.

(** A schedule whose states are all live is an execution of the pool. *)
Section schedules.
Context {St A : Type} (live : St -> Prop) (live_b : St -> bool).

Fixpoint schedule_live (sched : list string) (s : St) (P : pool St A) : bool :=
  match sched with
  | [] => true
  | t :: sched =>
      match P !! t with
      | Some p => live_b s && (let '(s', p') := advance s p in schedule_live sched s' (<[t := p']> P))
      | None => schedule_live sched s P
      end
  end.

Lemma run_schedule_None sched (s : St) (P : pool St A) t :
  P !! t = None -> snd (run_schedule sched s P) !! t = None.
Proof.
  revert s P. induction sched as [|t' sched IH]; intros s P Ht; simpl; [done|].
  destruct (P !! t') as [p|] eqn:Ep; [|by apply IH]. destruct (advance s p) as [s' p'].
  apply IH. rewrite lookup_insert_ne; [done|]. intros ->. congruence.
Qed.

Lemma run_schedule_steps (resumes : A -> Prop) may_start sched (s : St) (P : pool St A) :
  (forall s, live_b s = true -> live s) -> schedule_live sched s P = true ->
  rtc (pool_step live resumes may_start) (s, P) (run_schedule sched s P).
Proof.
  intros Hl. revert s P. induction sched as [|t sched IH]; intros s P; simpl; [done|].
  destruct (P !! t) as [p|] eqn:Ht; [|by apply IH]. destruct (advance s p) as [s' p'] eqn:Ea.
  intros [Hs Hsched]%andb_true_iff. eapply rtc_l; [eapply step_thread; [by apply Hl|done|done]|]. by apply IH.
Qed.

(** A thread that runs to its end without interruption. *)
Lemma run_thread_steps (resumes : A -> Prop) may_start (s : St) (P : pool St A) t p :
  (forall s, live s) -> P !! t = Some p ->
  rtc (pool_step live resumes may_start) (s, P) (fst (run p s), <[t := Ret (snd (run p s))]> P).
Proof.
  intros Hl. revert s P. induction p as [a|R f k IH]; intros s P Ht; cbn [run].
  - cbn [fst snd]. rewrite insert_id by done. reflexivity.
  - eapply rtc_l; [eapply step_thread; [apply Hl|exact Ht|reflexivity]|].
    rewrite <- (insert_insert_eq P t (Ret (snd (run (k (snd (f s))) (fst (f s))))) (k (snd (f s)))). apply IH. apply lookup_insert_eq.
Qed.
End schedules.

(** Threads started one after the other, each running to its end. *)
Section serving.
Context {St A : Type} (may_start : string -> prog St A -> Prop).

Definition serve_all (l : list (string * prog St A)) (s : St) : St := fold_left (fun s tp => (run tp.2 s).1) l s.

Abbreviation free_step := (pool_step (fun _ : St => True) (fun _ : A => True) may_start).

Lemma serve_one_steps s (P : pool St A) t p :
  may_start t p -> (forall q, P !! t = Some q -> exists a, q = Ret a) ->
  rtc free_step (s, P) ((run p s).1, <[t := Ret (run p s).2]> P).
Proof.
  intros Hp Ht. eapply rtc_l.
  - apply (step_start _ _ _ s P t p); [|exact Hp]. intros q Hq. destruct (Ht q Hq) as [a ->]. by exists a.
  - rewrite <- (insert_insert_eq P t (Ret (run p s).2) p). by apply run_thread_steps; [|apply lookup_insert_eq].
Qed.

Lemma serve_all_steps l s (P : pool St A) :
  Forall (fun tp => may_start tp.1 tp.2) l -> (forall t q, P !! t = Some q -> exists a, q = Ret a) ->
  exists P', rtc free_step (s, P) (serve_all l s, P').
Proof.
  intros Hl. revert s P. induction Hl as [|[t p] l Hp Hl IH]; intros s P HP; [by exists P|].
  destruct (IH (run p s).1 (<[t := Ret (run p s).2]> P)) as [P' Hr].
  - intros t' q [[_ <-]|[_ Hq]]%lookup_insert_Some; [by eexists|by eapply HP].
  - exists P'. etrans; [|exact Hr]. by apply serve_one_steps; [|apply HP].
Qed.
End serving.

#[global] Arguments safe : simpl never.
