(* ===== verification/GoMap.v ===== *)
(** * GoMap: ranging over a map, and package fmt on decoded values

    Go visits the entries of a map in an unspecified order, which is a
    parameter of everything that ranges over one.

    The text of a value held in an [any], as [%v] prints it.  The JSON decoder
    yields no [time.Time] and no [float32]; their texts are left out. *)

From stdpp Require Import base list strings gmap.
From Stdlib Require Import ZArith Lia Ascii SpecFloat.
From S2P Require Import Prelude GoStrings GoValue.

(** The order in which Go's [range] visits a map. *)
Class MapOrder := {
  order : forall A : Type, gmap string A -> list (string * A);
  order_perm : forall A (m : gmap string A), order A m ≡ₚ map_to_list m }.
Arguments order {_ A} m.

Section ranging.
Context `{MapOrder}.

Lemma keys_of {A} (m : gmap string A) k : k ∈ (fst <$> order m) <-> is_Some (m !! k).
Proof.
  rewrite (fmap_Permutation fst _ _ (order_perm A m)). rewrite list_elem_of_fmap. split.
  - intros ([k' a] & -> & Ha%elem_of_map_to_list). by exists a.
  - intros [a Ha]. exists (k, a). split; [done|]. by apply elem_of_map_to_list.
Qed.

Lemma keys_nodup {A} (m : gmap string A) : NoDup (fst <$> order m).
Proof. rewrite (fmap_Permutation fst _ _ (order_perm A m)). apply NoDup_fst_map_to_list. Qed.

Lemma entries_of {A} (m : gmap string A) k a : (k, a) ∈ order m <-> m !! k = Some a.
Proof. rewrite (order_perm A m). apply elem_of_map_to_list. Qed.
End ranging.

Local Open Scope Z_scope.

(** A float prints its shortest digits, with an exponent outside
    [10^-4 .. 10^21). *)
Definition exponent_text (x : Z) : string :=
  let digits := itoa (Z.abs x) in
  (if x <? 0 then "-" else "+") +:+ (if (String.length digits <? 2)%nat then "0" else "") +:+ digits.

Definition scientific (ds : string) (x : Z) : string :=
  match ds with
  | "" => ""
  | String c rest => String c (if (rest =? "")%string then "" else "." +:+ rest) +:+ "e" +:+ exponent_text x
  end.

Definition Sprint_float (f : float64) : string :=
  match f with
  | S754_finite s m e =>
      let '(d, k) := shortest_from 634 m e 309 in
      let x := Z.of_nat (String.length (itoa d)) + k - 1 in
      if (x <? -4) || (21 <=? x) then (if s then "-" else "") +:+ scientific (itoa d) x else format_float f
  | _ => format_float f
  end.

Definition byte_texts (s : string) : list string := map (fun c => itoa (Z.of_nat (nat_of_ascii c))) (String.list_ascii_of_string s).

(** A map prints its entries in the order of their keys. *)
Fixpoint Sprint (v : value) : string :=
  match v with
  | VNil => "<nil>"
  | VBool b => if b then "true" else "false"
  | VFloat f => Sprint_float f
  | VInt _ z => itoa z
  | VNumber lit => lit
  | VString s => s
  | VBytes b => "[" +:+ join " " (byte_texts b) +:+ "]"
  | VFloat32 _ | VTime _ => ""
  | VArr l => "[" +:+ join " " (map Sprint l) +:+ "]"
  | VObj m =>
      "map[" +:+ join " " (map (fun e : string * string => e.1 +:+ ":" +:+ e.2)
        (slice_stable (fun a b => String.ltb a.1 b.1) (map (fun kv => (fst kv, Sprint (snd kv))) m))) +:+ "]"
  end.

Example Sprint_examples :
  Sprint (VArr [VString "a"; VNil; VFloat (float64_of_Z 1); VObj [("b", VBool true); ("a", VArr [])]]) = "[a <nil> 1 map[a:[] b:true]]"
  /\ Sprint (VFloat (float64_of_Z (10 ^ 21))) = "1e+21" /\ Sprint (VFloat (float64_of_Z (10 ^ 20))) = "100000000000000000000".
Proof. vm_compute. done. Qed.
