(* ===== verification/Storage.v ===== *)
(** * Storage: blobs under slash-separated keys

    src/internal/storage: key validation, the Store interface with its
    contract, the memory backend, and the file backend's paths and stamps.
    The SQL of the Postgres backend is not modelled; it is one of the
    implementations the interface [Store] leaves open. *)

From stdpp Require Import base list strings gmap.
From Stdlib Require Import ZArith Lia Ascii.
From S2P Require Import Prelude GoStrings StringFacts SDJWT.

Local Open Scope Z_scope.

(** ** package path *)

(** One round of [path.Clean]: [out] is the cleaned path so far, last
    component first. *)
Definition clean_step (rooted : bool) (out : list string) (c : string) : list string :=
  if (c =? "")%string || (c =? ".")%string then out
  else if (c =? "..")%string then
    match out with
    | [] => if rooted then [] else [".."]
    | last :: rest => if (last =? "..")%string then ".." :: out else rest
    end
  else c :: out.

Definition Clean (p : string) : string :=
  let rooted := has_prefix "/" p in
  let s := join "/" (reverse (fold_left (clean_step rooted) (split "/" p) [])) in
  if rooted then "/" +:+ s else if (s =? "")%string then "." else s.

(** [path.Join], on Unix also [filepath.Join]: empty elements are ignored. *)
Definition Join (elems : list string) : string :=
  match List.filter (fun e => negb (e =? "")%string) elems with
  | [] => ""
  | es => Clean (join "/" es)
  end.

(** ** Keys *)

Inductive store_error : Type :=
| EmptyKey
| InvalidKey (key : string)
| NotExist (op key : string)
| ErrConflict
| Backend (message : string).

#[export] Instance store_error_eq_dec : EqDecision store_error.
Proof. solve_decision. Defined.

Definition cleanKey (key : string) : result store_error string :=
  if (key =? "")%string then Err EmptyKey
  else if has_prefix "/" key || negb (Clean key =? key)%string || (key =? "..")%string || has_prefix "../" key
  then Err (InvalidKey key)
  else Ok key.

Definition cleanPrefix (prefix : string) : result store_error string :=
  if (prefix =? "")%string then Ok "" else cleanKey prefix.

Definition notExist (op key : string) : store_error := NotExist op key.

(** [errors.Is(err, fs.ErrNotExist)]. *)
Definition is_not_exist (e : store_error) : bool := match e with NotExist _ _ => true | _ => false end.
Definition is_conflict (e : store_error) : bool := match e with ErrConflict => true | _ => false end.

(** ** Stamps and blobs *)

Record Stamp := mkStamp { Version : string; Size : Z }.
Record Blob := mkBlob { Data : string; BStamp : Stamp }.

#[export] Instance Stamp_eq_dec : EqDecision Stamp.
Proof. solve_decision. Defined.
#[export] Instance Blob_eq_dec : EqDecision Blob.
Proof. solve_decision. Defined.

(** The zero value, what a map lookup of a missing revision gives. *)
Definition zero_stamp : Stamp := mkStamp "" 0.

Definition blob_size (data : string) : Z := Z.of_nat (String.length data).

(** ** The Store interface *)

Class Store (S : Type) := {
  Read : string -> S -> result store_error string;
  Write : string -> string -> S -> S * result store_error Stamp;
  Delete : string -> S -> S * result store_error ();
  Stat : string -> S -> result store_error Stamp;
  List : string -> S -> result store_error (list string);
  ReadAll : string -> S -> result store_error (gmap string Blob);
  Stamps : string -> S -> result store_error (gmap string Stamp);
  WriteIf : string -> string -> string -> S -> S * result store_error Stamp }.

(** ** The memory backend *)

Record memoryBlob := mkMemoryBlob { mdata : string; mversion : Z }.
Record memoryStore := mkMemory { blobs : gmap string memoryBlob; seq : Z }.

Definition stamp (b : memoryBlob) : Stamp := mkStamp (itoa (mversion b)) (blob_size (mdata b)).

Definition NewMemory : memoryStore := mkMemory ∅ 0.

(** [s.seq++] on a uint64. *)
Definition next_seq (s : memoryStore) : Z := (seq s + 1) mod 2 ^ 64.

Definition put (key data : string) (s : memoryStore) : memoryStore * Stamp :=
  let blob := mkMemoryBlob data (next_seq s) in
  (mkMemory (<[key := blob]> (blobs s)) (next_seq s), stamp blob).

Definition memory_Read (key : string) (s : memoryStore) : result store_error string :=
  let? key := cleanKey key in
  match blobs s !! key with
  | None => Err (notExist "read" key)
  | Some blob => Ok (mdata blob)
  end.

Definition memory_Write (key data : string) (s : memoryStore) : memoryStore * result store_error Stamp :=
  match cleanKey key with
  | Err e => (s, Err e)
  | Ok key => let '(s, st) := put key data s in (s, Ok st)
  end.

Definition memory_Delete (key : string) (s : memoryStore) : memoryStore * result store_error () :=
  match cleanKey key with
  | Err e => (s, Err e)
  | Ok key => (mkMemory (delete key (blobs s)) (seq s), Ok ())
  end.

Definition memory_Stat (key : string) (s : memoryStore) : result store_error Stamp :=
  let? key := cleanKey key in
  match blobs s !! key with
  | None => Err (notExist "stat" key)
  | Some blob => Ok (stamp blob)
  end.

(** The prefix the keys below it start with. *)
Definition under (prefix : string) : string := if (prefix =? "")%string then prefix else prefix +:+ "/".

(** A name directly below the prefix: the rest of the key, without a slash. *)
Definition listed_name (prefix key : string) : option string :=
  match cut_prefix prefix key with
  | Some name => if free "/" name then Some name else None
  | None => None
  end.

Definition memory_List (prefix : string) (s : memoryStore) : result store_error (list string) :=
  let? prefix := cleanPrefix prefix in
  Ok (slice_stable String.ltb (filter_map (listed_name (under prefix)) (fst <$> map_to_list (blobs s)))).

Definition memory_ReadAll (prefix : string) (s : memoryStore) : result store_error (gmap string Blob) :=
  let? prefix := cleanPrefix prefix in
  Ok ((fun b => mkBlob (mdata b) (stamp b)) <$> filter (fun kb => has_prefix (under prefix) kb.1 = true) (blobs s)).

Definition memory_Stamps (prefix : string) (s : memoryStore) : result store_error (gmap string Stamp) :=
  let? prefix := cleanPrefix prefix in
  Ok (stamp <$> filter (fun kb => has_prefix (under prefix) kb.1 = true) (blobs s)).

Definition memory_WriteIf (key data expected : string) (s : memoryStore) : memoryStore * result store_error Stamp :=
  match cleanKey key with
  | Err e => (s, Err e)
  | Ok key =>
      let conflict := match blobs s !! key with
                      | Some blob => negb (Version (stamp blob) =? expected)%string
                      | None => negb (expected =? "")%string
                      end in
      if conflict then (s, Err ErrConflict)
      else let '(s, st) := put key data s in (s, Ok st)
  end.

#[export] Instance memory_store : Store memoryStore := {
  Read := memory_Read; Write := memory_Write; Delete := memory_Delete; Stat := memory_Stat;
  List := memory_List; ReadAll := memory_ReadAll; Stamps := memory_Stamps; WriteIf := memory_WriteIf }.

(** ** The store that reports a configuration error on first use *)

Record failingStore := mkFailing { failure : store_error }.

#[export] Instance failing_store : Store failingStore := {
  Read _ f := Err (failure f);
  Write _ _ f := (f, Err (failure f));
  Delete _ f := (f, Err (failure f));
  Stat _ f := Err (failure f);
  List _ f := Err (failure f);
  ReadAll _ f := Err (failure f);
  Stamps _ f := Err (failure f);
  WriteIf _ _ _ f := (f, Err (failure f)) }.

(** ** Choosing a backend *)

Inductive kind := KindFile | KindMemory | KindPostgres.

(** What [os.ReadDir] of the state directory gives. *)
Inductive directory := DirMissing | DirFails | DirEntries (names : list string).

Definition rootHoldsState (d : directory) : bool :=
  match d with
  | DirMissing => false
  | DirFails => true
  | DirEntries [] => true
  | DirEntries names => existsb (fun n => negb (n =? "instances")%string && negb (n =? "remote.json")%string) names
  end.

Definition isPostgresSpec (spec : string) : bool :=
  has_prefix "postgres://" spec || has_prefix "postgresql://" spec.

(** [Open], up to the backend it opens; [auto] is what [autoOnce] has stored. *)
Definition Open (spec : string) (rootRequested : bool) (root : directory) (auto : option kind)
    : option kind * result string kind :=
  let spec := trim_space spec in
  if (spec =? "")%string || (spec =? "file")%string then (auto, Ok KindFile)
  else if (spec =? "memory")%string then (auto, Ok KindMemory)
  else if (spec =? "auto")%string then
    let chosen := match auto with
                  | Some k => k
                  | None => if rootRequested || rootHoldsState root then KindFile else KindMemory
                  end in
    (Some chosen, Ok chosen)
  else if isPostgresSpec spec then (auto, Ok KindPostgres)
  else (auto, Err spec).

(** ** The file backend's paths and stamps *)

Definition file_path (root key : string) : string := Join [root; key].

(** [hex.EncodeToString]. *)
Definition hex_digit (n : nat) : ascii := ascii_of_nat (if (n <? 10)%nat then 48 + n else 87 + n).

Fixpoint hex_encode (s : string) : string :=
  match s with
  | "" => ""
  | String c s => let n := nat_of_ascii c in
                  String (hex_digit (n / 16)) (String (hex_digit (n mod 16)) (hex_encode s))
  end.

Definition contentStamp `{Hash} (data : string) : Stamp := mkStamp (hex_encode (sha256 data)) (blob_size data).

(** ** What a store promises

    [contents] is the map a store implements, [issued] the versions it has
    given out.  A store that has given out every version it can is not
    [roomy] any more. *)

Definition stamp_of (b : Blob) : Stamp := BStamp b.

(** The contents below a prefix. *)
Definition below (prefix : string) (m : gmap string Blob) : gmap string Blob :=
  filter (fun kb => has_prefix (under prefix) kb.1 = true) m.

Definition version_at (m : gmap string Blob) (key : string) : string :=
  match m !! key with Some b => Version (BStamp b) | None => "" end.

Class StoreLaws (S : Type) `{Store S} := {
  contents : S -> gmap string Blob;
  issued : S -> string -> Prop;
  roomy : S -> Prop;
  store_wf : S -> Prop;
  held_issued s key b : store_wf s -> contents s !! key = Some b -> issued s (Version (BStamp b));
  held_clean s key b : store_wf s -> contents s !! key = Some b -> cleanKey key = Ok key;
  issued_not_empty s : store_wf s -> issued s "" -> False;
  read_law s key : cleanKey key = Ok key ->
    Read key s = match contents s !! key with Some b => Ok (Data b) | None => Err (NotExist "read" key) end;
  stat_law s key : cleanKey key = Ok key ->
    Stat key s = match contents s !! key with Some b => Ok (BStamp b) | None => Err (NotExist "stat" key) end;
  readall_law s prefix : cleanKey prefix = Ok prefix -> ReadAll prefix s = Ok (below prefix (contents s));
  stamps_law s prefix : cleanKey prefix = Ok prefix -> Stamps prefix s = Ok (BStamp <$> below prefix (contents s));
  list_law s prefix names name : cleanKey prefix = Ok prefix -> List prefix s = Ok names ->
    name ∈ names -> free "/" name = true /\ is_Some (contents s !! (prefix +:+ "/" +:+ name));
  write_law s key data : cleanKey key = Ok key -> store_wf s -> roomy s ->
    exists s' st, Write key data s = (s', Ok st) /\ contents s' = <[key := mkBlob data st]> (contents s) /\
      ~ issued s (Version st) /\ (forall v, issued s' v <-> issued s v \/ v = Version st) /\ store_wf s';
  delete_law s key : cleanKey key = Ok key -> store_wf s ->
    exists s', Delete key s = (s', Ok ()) /\ contents s' = delete key (contents s) /\
      (forall v, issued s' v <-> issued s v) /\ store_wf s';
  writeif_law s key data expected : cleanKey key = Ok key ->
    WriteIf key data expected s =
      if (version_at (contents s) key =? expected)%string then Write key data s else (s, Err ErrConflict) }.
