(* ===== verification/StorageFacts.v ===== *)
(** * StorageFacts: what keys the stores accept, and that the memory backend
    keeps the Store contract *)

From stdpp Require Import base list strings gmap.
From Stdlib Require Import ZArith Lia Ascii.
From S2P Require Import Prelude GoStrings StringFacts Numbers SDJWT Storage.

(** ** Splitting and joining *)

Lemma join_split s : join "/" (split "/" s) = s.
Proof.
  remember (split "/" s) as l eqn:E. symmetry in E. revert s E.
  induction l as [|w l IH]; intros s E; [by destruct (split_not_nil "/" s)|].
  destruct (split_head _ _ _ _ E) as [[-> ->]|(s' & -> & Hs)]; [done|]. specialize (IH s' Hs).
  destruct l as [|w' l]; [by destruct (split_not_nil "/" s')|]. change (join "/" (w :: w' :: l)) with (w +:+ "/" +:+ join "/" (w' :: l)).
  by rewrite IH.
Qed.

Lemma split_app a b : split "/" (a +:+ String "/" b) = split "/" a ++ split "/" b.
Proof.
  remember (split "/" a) as l eqn:E. symmetry in E. revert a E.
  induction l as [|w l IH]; intros a E; [by destruct (split_not_nil "/" a)|].
  assert (Hw : free "/" w = true) by (apply (split_elem_free "/" a); rewrite E; by left).
  destruct (split_head _ _ _ _ E) as [[-> ->]|(s' & -> & Hs)]; [by apply split_sep|].
  rewrite append_assoc. change (String "/" s' +:+ String "/" b) with (String "/" (s' +:+ String "/" b)).
  rewrite split_sep by done. by rewrite (IH s' Hs).
Qed.

Lemma split_join l : l <> [] -> Forall (fun w => free "/" w = true) l -> split "/" (join "/" l) = l.
Proof.
  induction l as [|w l IH]; intros Hne Hl; [done|]. apply Forall_cons in Hl as [Hw Hl].
  destruct l as [|w' l]; [by apply split_free|].
  change (join "/" (w :: w' :: l)) with (w +:+ String "/" (join "/" (w' :: l))).
  rewrite split_sep by done. by rewrite IH.
Qed.

Lemma split_not_empty s : s <> "" -> split "/" s <> [""].
Proof.
  intros Hs E. destruct (split_head _ _ _ _ E) as [[_ ->]|(s' & _ & H)]; [done|].
  by destruct (split_not_nil "/" s').
Qed.

Lemma join_app l1 l2 : l1 <> [] -> l2 <> [] -> join "/" (l1 ++ l2) = join "/" l1 +:+ String "/" (join "/" l2).
Proof.
  intros H1 H2. induction l1 as [|w l1 IH]; [done|]. destruct l1 as [|w' l1].
  - destruct l2 as [|w2 l2]; [done|]. done.
  - change (join "/" ((w :: w' :: l1) ++ l2)) with (w +:+ String "/" (join "/" ((w' :: l1) ++ l2))).
    rewrite IH by done. change (join "/" (w :: w' :: l1)) with (w +:+ String "/" (join "/" (w' :: l1))).
    by rewrite append_assoc.
Qed.

(** ** path.Clean *)

(** A component that names something below the current directory. *)
Definition plain (c : string) : bool := negb (c =? "")%string && negb (c =? ".")%string && negb (c =? "..")%string.

Definition plain_key (key : string) : bool := forallb plain (split "/" key).

Lemma clean_step_plain rooted out c : plain c = true -> clean_step rooted out c = c :: out.
Proof.
  unfold plain, clean_step. rewrite !andb_true_iff, !negb_true_iff. intros [[-> ->] ->]. done.
Qed.

Lemma fold_clean_plain rooted l out : forallb plain l = true -> fold_left (clean_step rooted) l out = reverse l ++ out.
Proof.
  revert out. induction l as [|c l IH]; intros out; simpl; [done|]. intros [Hc Hl]%andb_true_iff.
  rewrite clean_step_plain, IH by done. by rewrite reverse_cons, <- app_assoc.
Qed.

(** The cleaned prefix of a relative path: plain components above some [..]. *)
Definition relative_out (out : list string) : Prop :=
  exists gs n, out = gs ++ replicate n ".." /\ Forall (fun c => plain c = true /\ free "/" c = true) gs.

Lemma clean_step_relative out c :
  free "/" c = true -> relative_out out -> relative_out (clean_step false out c).
Proof.
  intros Hf (gs & n & -> & Hg). unfold clean_step.
  destruct ((c =? "")%string || (c =? ".")%string) eqn:E1; [by exists gs, n|].
  destruct (c =? "..")%string eqn:E2.
  - destruct gs as [|g gs]; simpl.
    + destruct n as [|n]; simpl; [by exists [], 1|]. by exists [], (S (S n)).
    + apply Forall_cons in Hg as [[Hp _] Hg]. unfold plain in Hp. apply andb_true_iff in Hp as [_ Hp%negb_true_iff].
      rewrite Hp. by exists gs, n.
  - exists (c :: gs), n. split; [done|]. constructor; [|done]. split; [|done].
    unfold plain. apply orb_false_iff in E1 as [-> ->]. by rewrite E2.
Qed.

Lemma fold_clean_relative l out :
  Forall (fun c => free "/" c = true) l -> relative_out out -> relative_out (fold_left (clean_step false) l out).
Proof.
  revert out. induction l as [|c l IH]; intros out Hl Ho; [done|]. apply Forall_cons in Hl as [Hc Hl].
  apply IH; [done|]. by apply clean_step_relative.
Qed.

Lemma split_all_free s : Forall (fun c => free "/" c = true) (split "/" s).
Proof. apply Forall_forall. intros w. apply split_elem_free. Qed.

Lemma has_prefix_spec p s : has_prefix p s = true <-> exists z, s = p +:+ z.
Proof.
  revert s. induction p as [|c p IH]; intros s; simpl; [split; [by exists s|done]|].
  destruct s as [|d s]; [split; [done|by intros [z Hz]]|].
  rewrite andb_true_iff, IH, Ascii.eqb_eq. split; [intros [-> [z ->]]; by exists z|].
  intros [z [= -> ->]]. split; [done|by exists z].
Qed.

Lemma reverse_replicate {A} n (x : A) : reverse (replicate n x) = replicate n x.
Proof.
  induction n as [|n IH]; [done|]. simpl. rewrite reverse_cons, IH.
  clear. induction n as [|n IH]; [done|]. simpl. by rewrite IH.
Qed.

Lemma Clean_plain key : plain_key key = true -> Clean key = key /\ has_prefix "/" key = false.
Proof.
  unfold plain_key. intros Hp.
  assert (Hr : has_prefix "/" key = false).
  { destruct (has_prefix "/" key) eqn:E; [|done]. apply has_prefix_spec in E as [z ->]. by simpl in Hp. }
  unfold Clean. rewrite Hr. rewrite fold_clean_plain by done. rewrite app_nil_r, reverse_involutive, join_split.
  split; [|done]. by destruct key.
Qed.

Lemma Clean_fixed key :
  key <> "" -> Clean key = key -> has_prefix "/" key = false -> key <> ".." -> has_prefix "../" key = false ->
  key = "." \/ plain_key key = true.
Proof.
  intros Hne Hc Hr Hd Hdd. unfold Clean in Hc. rewrite Hr in Hc.
  assert (Ho : relative_out (fold_left (clean_step false) (split "/" key) [])).
  { apply fold_clean_relative; [apply split_all_free|]. by exists [], 0. }
  destruct Ho as (gs & n & Eo & Hg). rewrite Eo, reverse_app, reverse_replicate in Hc.
  destruct n as [|n].
  - simpl in Hc. destruct (decide (gs = [])) as [->|Hgs]; [by left|]. right. unfold plain_key.
    assert (Hrev : reverse gs <> []) by (intros E; apply Hgs; by rewrite <- (reverse_involutive gs), E).
    assert (Hj : join "/" (reverse gs) = key).
    { destruct (join "/" (reverse gs) =? "")%string eqn:E; [|done]. apply String.eqb_eq in E.
      assert (Hs := split_join (reverse gs)). rewrite E in Hs.
      rewrite Forall_reverse in Hs.
      specialize (Hs Hrev ltac:(eapply Forall_impl; [done|]; by intros ? [])).
      simpl in Hs. assert (Hin : "" ∈ gs) by (rewrite <- elem_of_reverse, <- Hs; by left).
      rewrite Forall_forall in Hg. by destruct (Hg "" Hin). }
    rewrite <- Hj, split_join.
    + apply forallb_forall. intros x Hx%list_elem_of_In. rewrite elem_of_reverse in Hx.
      rewrite Forall_forall in Hg. by apply Hg.
    + done.
    + rewrite Forall_reverse. eapply Forall_impl; [done|]. by intros ? [].
  - exfalso. simpl in Hc. destruct (replicate n ".." ++ reverse gs) as [|w l] eqn:El.
    + simpl in Hc. congruence.
    + assert (Hp : has_prefix "../" key = true); [|congruence]. rewrite <- Hc. simpl. reflexivity.
Qed.

Lemma cleanKey_ok key : cleanKey key = Ok key <-> key = "." \/ plain_key key = true.
Proof.
  unfold cleanKey. split.
  - destruct (key =? "")%string eqn:E0; [done|]. bsimpl. destruct (_ || _) eqn:E1; [done|]. intros _.
    apply orb_false_iff in E1 as [E1 Edd]. apply orb_false_iff in E1 as [E1 Ed]. apply orb_false_iff in E1 as [Er Ec].
    apply negb_false_iff, String.eqb_eq in Ec. apply String.eqb_neq in Ed. by apply Clean_fixed.
  - intros [->|Hp]; [done|]. destruct (Clean_plain key Hp) as [Hc Hr]. rewrite Hc, Hr, String.eqb_refl. cbn [negb orb].
    destruct (String.eqb_spec key "") as [->|]; [by vm_compute in Hp|].
    destruct (String.eqb_spec key "..") as [->|]; [by vm_compute in Hp|]. cbn [orb].
    destruct (has_prefix "../" key) eqn:E2; [|done]. apply has_prefix_spec in E2 as [z ->].
    by simpl in Hp.
Qed.

Lemma cleanKey_same key k : cleanKey key = Ok k -> k = key.
Proof. unfold cleanKey. repeat (dmatch; try done). naive_solver. Qed.

(** ** File paths *)

Lemma fold_clean_rooted l out :
  forallb (fun c => plain c) out = true -> Forall (fun c => free "/" c = true) (l ++ out) ->
  let out' := fold_left (clean_step true) l out in
  forallb plain out' = true /\ Forall (fun c => free "/" c = true) out'.
Proof.
  revert out. induction l as [|c l IH]; intros out Ho Hf; [done|]. simpl in Hf. apply Forall_cons in Hf as [Hc Hf].
  simpl. apply IH.
  - unfold clean_step. destruct (_ || _) eqn:E1; [done|]. destruct (c =? "..")%string eqn:E2.
    + destruct out as [|o out]; [done|]. simpl in Ho. apply andb_true_iff in Ho as [Hp Ho].
      unfold plain in Hp. apply andb_true_iff in Hp as [_ Hp%negb_true_iff]. by rewrite Hp.
    + simpl. rewrite Ho, andb_true_r. unfold plain. apply orb_false_iff in E1 as [-> ->]. by rewrite E2.
  - apply Forall_app in Hf as [Hl Hf]. apply Forall_app. split; [done|]. unfold clean_step.
    destruct (_ || _); [done|]. destruct (c =? "..")%string; [|by constructor].
    destruct out as [|o out]; [done|]. apply Forall_cons in Hf as [Ho' Hf]. destruct (o =? "..")%string; [|done].
    by repeat constructor.
Qed.

(** A cleaned absolute directory other than the root is a slash and plain
    components. *)
Lemma Clean_rooted root :
  has_prefix "/" root = true -> Clean root = root -> root <> "/" ->
  exists gs, gs <> [] /\ split "/" root = "" :: gs /\ forallb plain gs = true.
Proof.
  intros Hr Hc Hne. unfold Clean in Hc. rewrite Hr in Hc.
  destruct (fold_clean_rooted (split "/" root) [] eq_refl) as [Hp Hf]; [rewrite app_nil_r; apply split_all_free|].
  set (out := fold_left _ _ _) in *. exists (reverse out).
  assert (Hne' : reverse out <> []) by (intros E; rewrite E in Hc; by rewrite <- Hc in Hne).
  split_and!; [done| |].
  - rewrite <- Hc. change ("/" +:+ ?x) with ("" +:+ String "/" x). rewrite split_sep by done.
    by rewrite split_join; [|done|rewrite Forall_reverse].
  - apply forallb_forall. intros x Hx%list_elem_of_In. rewrite elem_of_reverse in Hx.
    rewrite forallb_forall in Hp. by apply Hp, list_elem_of_In.
Qed.

Lemma Join_two a b : a <> "" -> b <> "" -> Join [a; b] = Clean (a +:+ String "/" b).
Proof.
  intros Ha Hb. unfold Join. simpl. destruct (String.eqb_spec a ""); [done|]. by destruct (String.eqb_spec b "").
Qed.

Lemma file_path_split root key :
  has_prefix "/" root = true -> Clean root = root -> root <> "/" -> plain_key key = true ->
  split "/" (file_path root key) = split "/" root ++ split "/" key.
Proof.
  intros Hr Hc Hne Hk. destruct (Clean_rooted root Hr Hc Hne) as (gs & Hgs & Es & Hp).
  unfold file_path. rewrite Join_two; [|by intros ->|by intros ->].
  unfold Clean. assert (Hr' : has_prefix "/" (root +:+ String "/" key) = true).
  { apply has_prefix_spec in Hr as [z ->]. apply has_prefix_spec. by eexists. }
  rewrite Hr', split_app, Es. simpl. unfold clean_step at 2. simpl.
  rewrite fold_clean_plain by (rewrite forallb_app, Hp; exact Hk). rewrite app_nil_r, reverse_involutive.
  cbn [split Ascii.eqb Bool.eqb]. f_equal. apply split_join.
  - by destruct gs.
  - apply Forall_app. split; [|apply split_all_free]. pose proof (split_all_free root) as H. rewrite Es in H.
    by apply Forall_cons in H as [_ H].
Qed.

(** The key "." is accepted and addresses the root directory. *)
Lemma dot_key root : has_prefix "/" root = true -> Clean root = root -> root <> "/" ->
  cleanKey "." = Ok "." /\ file_path root "." = root.
Proof.
  intros Hr Hc Hne. split; [done|]. destruct (Clean_rooted root Hr Hc Hne) as (gs & Hgs & Es & Hp).
  unfold file_path. rewrite Join_two; [|by intros ->|done].
  unfold Clean. assert (Hr' : has_prefix "/" (root +:+ "/.") = true).
  { apply has_prefix_spec in Hr as [z ->]. apply has_prefix_spec. by eexists. }
  rewrite Hr', (split_app root "."), Es. simpl. rewrite fold_left_app. unfold clean_step at 3. simpl.
  rewrite fold_clean_plain by done. unfold clean_step. simpl. rewrite app_nil_r, reverse_involutive.
  pose proof (join_split root) as H. rewrite Es in H. destruct gs; [done|]. exact H.
Qed.

(** ** The memory backend keeps the contract *)

Local Open Scope Z_scope.

Definition memory_contents (s : memoryStore) : gmap string Blob :=
  (fun b => mkBlob (mdata b) (stamp b)) <$> blobs s.

Definition memory_issued (s : memoryStore) (v : string) : Prop := exists n, 1 <= n <= seq s /\ v = itoa n.

Definition memory_wf (s : memoryStore) : Prop :=
  0 <= seq s < 2 ^ 64 /\
  forall key b, blobs s !! key = Some b -> 1 <= mversion b <= seq s /\ cleanKey key = Ok key.

(** The uint64 sequence has not reached its last value. *)
Definition memory_roomy (s : memoryStore) : Prop := seq s < 2 ^ 64 - 1.

Lemma itoa_inj n m : 0 <= n -> 0 <= m -> itoa n = itoa m -> n = m.
Proof.
  intros Hn Hm E. assert (H := digits_value_itoa n Hn). rewrite E, digits_value_itoa in H by done. congruence.
Qed.

Lemma next_seq_roomy s : memory_wf s -> memory_roomy s -> next_seq s = seq s + 1.
Proof. intros [Hs _] Hr. unfold next_seq, memory_roomy in *. apply Z.mod_small. lia. Qed.

Lemma fmap_below prefix (f : memoryBlob -> Blob) m :
  f <$> filter (fun kb => has_prefix (under prefix) kb.1 = true) m = below prefix (f <$> m).
Proof.
  unfold below. apply map_eq. intros k. rewrite lookup_fmap, !map_lookup_filter, lookup_fmap.
  destruct (m !! k); simpl; [|done]. by case_guard.
Qed.

Lemma put_law s key data :
  cleanKey key = Ok key -> memory_wf s -> memory_roomy s ->
  let '(s', st) := put key data s in
  memory_contents s' = <[key := mkBlob data st]> (memory_contents s) /\
  ~ memory_issued s (Version st) /\ (forall v, memory_issued s' v <-> memory_issued s v \/ v = Version st) /\
  memory_wf s'.
Proof.
  intros Hk Hw Hr. assert (Hn := next_seq_roomy s Hw Hr). destruct Hw as [Hs Hb]. unfold put. rewrite Hn.
  split; [|split; [|split; [|split]]].
  - unfold memory_contents. simpl. by rewrite fmap_insert.
  - intros (n & Hn' & E). cbn in E. apply itoa_inj in E; lia.
  - intros v. unfold memory_issued. simpl. split.
    + intros (n & Hn' & ->). destruct (decide (n = seq s + 1)) as [->|]; [by right|]. left. exists n. split; [lia|done].
    + intros [(n & Hn' & ->)| ->]; [exists n|exists (seq s + 1)]; (split; [lia|done]).
  - unfold memory_roomy in Hr. cbn [seq]. lia.
  - intros k b. simpl. rewrite lookup_insert_Some. intros [[<- <-]|[_ H]]; simpl; [split; [lia|done]|]. apply Hb in H as [H ?]. split; [lia|done].
Qed.

Lemma listed_name_spec p key name : listed_name p key = Some name <-> key = p +:+ name /\ free "/" name = true.
Proof.
  unfold listed_name. destruct (cut_prefix p key) as [z|] eqn:E.
  - apply cut_prefix_spec in E as ->. destruct (free "/" z) eqn:Ef.
    + split; [by intros [= ->]|]. intros [H _]. f_equal. induction p as [|c p IH]; [done|]. injection H. apply IH.
    + split; [done|]. intros [H Hf]. assert (z = name) as ->; [|congruence].
      clear Hf Ef. induction p as [|c p IH]; [done|]. injection H. apply IH.
  - split; [done|]. intros [-> _]. assert (H : cut_prefix p (p +:+ name) = Some name) by by apply cut_prefix_spec.
    congruence.
Qed.

#[export] Instance memory_laws : StoreLaws memoryStore.
Proof.
  refine {| contents := memory_contents; issued := memory_issued; roomy := memory_roomy; store_wf := memory_wf |}.
  - intros s key b [_ Hb]. unfold memory_contents. rewrite lookup_fmap, fmap_Some. intros (m & Hm & ->).
    exists (mversion m). split; [by eapply Hb|done].
  - intros s key b [_ Hb]. unfold memory_contents. rewrite lookup_fmap, fmap_Some. intros (m & Hm & _). by eapply Hb.
  - intros s _ (n & Hn & E). by destruct (itoa_digits n ltac:(lia)) as [_ ?].
  - intros s key Hk. simpl. unfold memory_Read, memory_contents. rewrite Hk, lookup_fmap. by destruct (blobs s !! key).
  - intros s key Hk. simpl. unfold memory_Stat, memory_contents. rewrite Hk, lookup_fmap. by destruct (blobs s !! key).
  - intros s prefix Hp. simpl. unfold memory_ReadAll, cleanPrefix. destruct (prefix =? "")%string eqn:E;
      [by apply String.eqb_eq in E as ->|]. rewrite Hp. f_equal. apply fmap_below.
  - intros s prefix Hp. simpl. unfold memory_Stamps, cleanPrefix. destruct (prefix =? "")%string eqn:E;
      [by apply String.eqb_eq in E as ->|]. rewrite Hp. f_equal. unfold memory_contents. rewrite <- fmap_below.
    apply map_eq. intros k. rewrite !lookup_fmap. by destruct (filter _ _ !! k).
  - intros s prefix names name Hp. simpl. unfold memory_List, cleanPrefix. destruct (prefix =? "")%string eqn:E;
      [by apply String.eqb_eq in E as ->|]. rewrite Hp. intros [= <-]. rewrite slice_stable_elem_of, elem_of_filter_map.
    intros (k & Hk & Hn). apply listed_name_spec in Hn as [-> Hf]. split; [done|]. unfold memory_contents.
    rewrite lookup_fmap. apply list_elem_of_fmap in Hk as ([k b] & Ek & Hk). simpl in Ek. subst k.
    apply elem_of_map_to_list in Hk. unfold under in Hk. rewrite E, append_assoc in Hk. simpl in Hk. by rewrite Hk.
  - intros s key data Hk Hw Hr. simpl. unfold memory_Write. rewrite Hk. pose proof (put_law s key data Hk Hw Hr) as H.
    destruct (put key data s) as [s' st]. by exists s', st.
  - intros s key Hk [Hs Hb]. simpl. unfold memory_Delete. rewrite Hk. eexists.
    split; [done|split; [|split; [done|split; [done|]]]].
    + unfold memory_contents. simpl. by rewrite fmap_delete.
    + intros k b. simpl. rewrite lookup_delete_Some. intros [_ H]. by eapply Hb.
  - intros s key data expected Hk. simpl. unfold memory_WriteIf, memory_Write, version_at, memory_contents.
    rewrite Hk, lookup_fmap. destruct (blobs s !! key) as [b|]; simpl.
    + by destruct (itoa (mversion b) =? expected)%string.
    + by destruct expected.
Defined.

(** ** Histories

    What any store promises its readers over a sequence of operations. *)

Inductive store_op :=
| OpRead (key : string)
| OpWrite (key data : string)
| OpDelete (key : string)
| OpWriteIf (key data expected : string).

Definition apply_op {S} `{Store S} (op : store_op) (s : S) : S :=
  match op with
  | OpRead _ => s
  | OpWrite key data => fst (Write key data s)
  | OpDelete key => fst (Delete key s)
  | OpWriteIf key data expected => fst (WriteIf key data expected s)
  end.

Definition op_key (op : store_op) : string :=
  match op with OpRead k | OpWrite k _ | OpDelete k | OpWriteIf k _ _ => k end.

Section history.
Context {S : Type} `{StoreLaws S}.

(** The store grows by [ops], never running out of versions. *)
Inductive history : S -> list store_op -> S -> Prop :=
| history_nil s : history s [] s
| history_cons s op ops s' :
    cleanKey (op_key op) = Ok (op_key op) -> roomy s -> history (apply_op op s) ops s' -> history s (op :: ops) s'.

(** A blob with the version of [b] at [key] is [b]. *)
Definition pinned (key : string) (b : Blob) (s : S) : Prop :=
  store_wf s /\ issued s (Version (BStamp b)) /\
  forall b', contents s !! key = Some b' -> Version (BStamp b') = Version (BStamp b) -> b' = b.

Lemma pinned_write key b k data s :
  cleanKey k = Ok k -> roomy s -> pinned key b s -> pinned key b (fst (Write k data s)).
Proof.
  intros Hk Hr (Hw & Hi & Hp). destruct (write_law s k data Hk Hw Hr) as (s' & st & E & Ec & Hn & Hv & Hw').
  rewrite E. split_and!; [done|by apply Hv; left|]. intros b'. simpl. rewrite Ec, lookup_insert_Some.
  intros [[<- <-]|[_ Hb']]; [|by apply Hp]. simpl. intros Ev. by rewrite Ev in Hn.
Qed.

Lemma pinned_op key b op s :
  cleanKey (op_key op) = Ok (op_key op) -> roomy s -> pinned key b s -> pinned key b (apply_op op s).
Proof.
  destruct op as [k|k data|k|k data expected]; simpl; intros Hk Hr Hp; [done|by apply pinned_write| |].
  - destruct Hp as (Hw & Hi & Hp). destruct (delete_law s k Hk Hw) as (s' & E & Ec & Hv & Hw'). rewrite E.
    split_and!; [done|by apply Hv|]. intros b'. simpl. rewrite Ec, lookup_delete_Some. intros [_ Hb']. by apply Hp.
  - rewrite writeif_law by done. destruct (_ =? _)%string; [by apply pinned_write|done].
Qed.

Lemma pinned_history key b s ops s' : history s ops s' -> pinned key b s -> pinned key b s'.
Proof. induction 1; [done|]. eauto using pinned_op. Qed.

Lemma version_identifies key b s ops s' b' :
  store_wf s -> history s ops s' -> contents s !! key = Some b -> contents s' !! key = Some b' ->
  Version (BStamp b') = Version (BStamp b) -> b' = b.
Proof.
  intros Hw Hh Hb Hb' Ev. destruct (pinned_history key b s ops s' Hh) as (_ & _ & Hp); [|by apply Hp].
  split_and!; [done|by eapply held_issued|]. intros b1 Hb1. congruence.
Qed.
End history.

(** ** Properties *)

(** A key is accepted exactly when it is "." or each of its components
    names something ("", "." and ".." are refused); the file backend maps an
    accepted key to the root directory itself for ".", and otherwise to the
    path whose components are the root's followed by the key's, so that no
    key leaves the root and distinct keys are distinct files. *)
Theorem keys_stay_below_the_root root key k :
  has_prefix "/" root = true -> Clean root = root -> root <> "/" -> cleanKey key = Ok k ->
  k = key /\
  (key = "." /\ file_path root key = root \/
   plain_key key = true /\ split "/" (file_path root key) = split "/" root ++ split "/" key).
Proof.
  intros Hr Hc Hne Hk. assert (k = key) as -> by by eapply cleanKey_same. split; [done|].
  apply cleanKey_ok in Hk as [->|Hp]; [left; split; [done|by apply dot_key]|]. right. auto using file_path_split.
Qed.

Lemma keys_stay_below_the_root_witness :
  split "/" (file_path "/var/wallet" "state/log") = ["" ; "var"; "wallet"; "state"; "log"].
Proof.
  destruct (keys_stay_below_the_root "/var/wallet" "state/log" "state/log" eq_refl eq_refl ltac:(done) eq_refl)
    as [_ [[? _]|[_ H]]]; [done|exact H].
Defined.

(** A version never comes back: if a key of the memory store has the same
    version at two moments, whatever was written, deleted or compared and
    swapped in between, then its content is the same at both. *)
Theorem memory_version_identifies_content (s s' : memoryStore) ops key b b' :
  memory_wf s -> history s ops s' ->
  memory_contents s !! key = Some b -> memory_contents s' !! key = Some b' ->
  Version (BStamp b') = Version (BStamp b) -> b' = b.
Proof. exact (version_identifies key b s ops s' b'). Qed.

Definition one_blob : memoryStore := fst (memory_Write "a" "x" NewMemory).

Definition two_ops_later : memoryStore := apply_op (OpDelete "c") (apply_op (OpWrite "b" "y") one_blob).

Definition kept_blob : Blob := default (mkBlob "" zero_stamp) (memory_contents two_ops_later !! "a").

Lemma memory_version_identifies_content_witness :
  memory_contents two_ops_later !! "a" = Some kept_blob /\ kept_blob = mkBlob "x" (mkStamp "1" 1).
Proof.
  split; [by vm_compute|].
  apply (memory_version_identifies_content one_blob two_ops_later [OpWrite "b" "y"; OpDelete "c"] "a"); [| |by vm_compute|by vm_compute|done].
  - split; [by vm_compute|]. intros k m Hm. simpl in Hm. apply lookup_insert_Some in Hm as [[<- <-]|[_ Hm]]; [by vm_compute|].
    by rewrite lookup_empty in Hm.
  - repeat (apply history_cons; [reflexivity|by vm_compute|]). apply history_nil.
Defined.
