(* ===== verification/Persist.v ===== *)
(** * Persist: the wallet state as rows of a shared store

    src/internal/wallet/store_entities.go: every entity of the wallet is a row
    under <prefix>/state/<section>/, every section has a revision row, and
    several servers share the rows.  A server caches the rows it has seen
    ([persisted]) with the revisions it saw; a save writes the entities that
    differ from the cache, deletes those that are gone and then renews the
    revision of each section it touched; a reload compares revisions first.

    The operations are programs of Conc: each call of the store is one step, as
    is each block under the wallet's lock.  The entities a save writes are
    computed by the argument [entities] from the server's cache (currentEntities
    serializes the wallet; [counter_entity] is what it says of the status
    counter), and [parses] says whether loadSections could parse
    the rows it read. *)

From stdpp Require Import base list strings gmap.
From Stdlib Require Import ZArith Lia Ascii.
From S2P Require Import Prelude GoStrings StringFacts Validity SDJWT GoMap Storage Conc.

Local Open Scope Z_scope.

(** ** Sections *)

Definition stateSection : string := "state".
Definition credentialsSection : string := "credentials".
Definition logSection : string := "log".
Definition statusSection : string := "status".
Definition deferredSection : string := "deferred".
Definition attestationsSection : string := "attestations".
Definition registrarSection : string := "relying-parties".
Definition registrationStatusSection : string := "registration-status".
Definition catalogSection : string := "attestation-catalog".
Definition trustSection : string := "trust".
Definition settingsSection : string := "settings".
Definition revisionSection : string := "revision".
Definition statusCounterEntity : string := "status-counter".

Definition allSections : list string :=
  [credentialsSection; logSection; statusSection; deferredSection; attestationsSection; registrarSection;
   registrationStatusSection; catalogSection; trustSection; settingsSection].
Definition serverSections : list string :=
  [credentialsSection; logSection; statusSection; attestationsSection; registrarSection;
   registrationStatusSection; catalogSection; trustSection].

Definition logTrimEvery : Z := 64.
Definition bulkReadAbove : nat := 16.
Definition maxLogEntries : nat := 1000.

(** ** Servers and the store they share *)

Abbreviation stateSnapshot := (gmap string Blob).

(** The fields of a [Wallet] and its [WalletStore] that concern the cache.
    [persisted_id] stands for the identity of the snapshot map: every
    assignment of [persisted] installs a new map. *)
Record server := mkServer {
  persisted : stateSnapshot;
  persisted_id : nat;
  revisions : gmap string Stamp;
  StatusListCounter : Z;
  saves : Z }.

Definition new_server : server := mkServer ∅ 0 ∅ 0 0.

(** History variables: [era] counts the saves that have written the status
    counter, [granted] are the indices allocateStatusIndex has returned so far,
    each with the era in which it was taken from the counter. *)
Record history := mkHistory { era : nat; granted : list (nat * Z) }.

Definition no_history : history := mkHistory 0 [].

(** [drawn] counts the texts [rand.Text] has returned. *)
Record world (S : Type) := mkWorld { backend : S; servers : gmap string server; drawn : nat; past : history }.
Arguments mkWorld {S} _ _ _ _.
Arguments backend {S} _.
Arguments servers {S} _.
Arguments drawn {S} _.
Arguments past {S} _.

Inductive persist_error : Type :=
| StoreFailed (doing : string) (e : store_error)
| BadCounter (data : string)
| ParsingFailed
| CounterBusy.

(** The new cache of a save and the sections written so far. *)
Abbreviation written := (stateSnapshot * gmap string ())%type.

Section persist.
Context {S : Type} `{Store S} `{Hash} `{MapOrder}.
Context (prefix : string) (rand_text : nat -> string).

Definition key (parts : list string) : string := Join (prefix :: parts).
Definition stateKey (parts : list string) : string := key (stateSection :: parts).
Definition counterKey : string := stateKey [statusCounterEntity; "value"].
Definition settingsKey : string := stateKey [settingsSection; "value"].
Definition revisionKey (section : string) : string := stateKey [revisionSection; section].
Definition logCleanMarkerKey : string := key ["wallet-log-cleaned-at"].

Definition shortHash (s : string) : string := hex_encode (slice_to 8 (sha256 s)).

Definition entityName (id : string) : string :=
  if (id =? "")%string || negb (free "/" id) || has_prefix "." id then shortHash id else id.

Definition credentialKey (id : string) : string := stateKey [credentialsSection; entityName id].

Definition TrimPrefix (s p : string) : string := match cut_prefix p s with Some rest => rest | None => s end.

Definition sectionOf (k : string) : string :=
  let '(section, _, _) := cut "/" (TrimPrefix k (stateKey [] +:+ "/")) in
  if (section =? statusCounterEntity)%string then statusSection else section.

(** ** Steps *)

Definition server_of (me : string) (w : world S) : server := default new_server (servers w !! me).

Definition set_server (me : string) (sv : server) (w : world S) : world S :=
  mkWorld (backend w) (<[me := sv]> (servers w)) (drawn w) (past w).

(** One call of the backend. *)
Definition reading {R} (f : S -> R) : prog (world S) R := get (fun w => f (backend w)).

Definition writing {R} (f : S -> S * R) : prog (world S) R :=
  atomic (fun w => let '(s, r) := f (backend w) in (mkWorld s (servers w) (drawn w) (past w), r)).

(** A backend call, with the era in which it took place. *)
Definition dated {R} (f : S -> S * R) : prog (world S) (R * nat) :=
  atomic (fun w => let '(s, r) := f (backend w) in (mkWorld s (servers w) (drawn w) (past w), (r, era (past w)))).

(** A save's write of an entity; one that writes the counter starts an era. *)
Definition noted {R} (k : string) (r : result store_error R) (h : history) : history :=
  match r with
  | Ok _ => if (k =? counterKey)%string then mkHistory (Datatypes.S (era h)) (granted h) else h
  | Err _ => h
  end.

Definition putting (k data : string) : prog (world S) (result store_error Stamp) :=
  atomic (fun w => let '(s, r) := Write k data (backend w) in (mkWorld s (servers w) (drawn w) (noted k r (past w)), r)).

(** A backend call with a fresh [revisionMark()]. *)
Definition marking {R} (f : string -> S -> S * R) : prog (world S) R :=
  atomic (fun w => let '(s, r) := f (rand_text (drawn w)) (backend w) in (mkWorld s (servers w) (Datatypes.S (drawn w)) (past w), r)).

(** A block that holds the wallet's lock. *)
Definition locked (me : string) (f : server -> server) : prog (world S) () :=
  modify (fun w => set_server me (f (server_of me w)) w).

Definition failed {A} (doing : string) (e : store_error) : result persist_error A := Err (StoreFailed doing e).

(** A call whose error ends the operation. *)
Definition calling {R} (doing : string) (p : prog (world S) (result store_error R)) : prog (world S) (result persist_error R) :=
  do r <- p; Ret (match r with Ok x => Ok x | Err e => failed doing e end).

(** ** Reloading *)

(** A map lookup gives the zero stamp for a missing revision. *)
Definition revision_in (revs : gmap string Stamp) (k : string) : Stamp := default zero_stamp (revs !! k).

Definition changed_in (revs : gmap string Stamp) (sv : server) (includeLog : bool) : list string :=
  List.filter (fun section =>
    negb ((section =? logSection)%string && negb includeLog) &&
    negb (bool_decide (revision_in revs (revisionKey section) = revision_in (revisions sv) section))) serverSections.

Definition changedSections (me : string) (includeLog : bool) : prog (world S) (result persist_error (list string)) :=
  try revs <- calling "reading wallet revisions" (reading (Stamps (stateKey [revisionSection])));
  do sv <- get (server_of me);
  Ret (Ok (changed_in revs sv includeLog)).

Definition sectionStamps (section : string) : prog (world S) (result persist_error (gmap string Stamp)) :=
  try stamps <- calling "reading wallet state" (reading (Stamps (stateKey [section])));
  if (section =? statusSection)%string then
    try counter <- calling "reading wallet state" (reading (Stamps (stateKey [statusCounterEntity])));
    Ret (Ok (counter ∪ stamps))
  else Ret (Ok stamps).

(** The rows of the section that are gone are dropped from the cache. *)
Definition drop_gone (section : string) (stamps : gmap string Stamp) (known updated : stateSnapshot) : stateSnapshot :=
  filter (fun kb => ~ (is_Some (known !! kb.1) /\ stamps !! kb.1 = None /\ sectionOf kb.1 = section)) updated.

(** The rows whose stamp is not the cached one. *)
Definition changed_rows (stamps : gmap string Stamp) (known : stateSnapshot) : gmap string Stamp :=
  filter (fun ks => BStamp <$> known !! ks.1 <> Some ks.2) stamps.

Definition read_row (stamps : gmap string Stamp) (k : string) (updated : stateSnapshot)
    : prog (world S) (result persist_error stateSnapshot) :=
  do r <- reading (Read k);
  Ret (match r with
       | Ok data => Ok (<[k := mkBlob data (revision_in stamps k)]> updated)
       | Err e => if is_not_exist e then Ok (delete k updated) else failed "reading wallet state" e
       end).

Definition refreshSection (section : string) (known updated : stateSnapshot) : prog (world S) (result persist_error stateSnapshot) :=
  try stamps <- sectionStamps section;
  let updated := drop_gone section stamps known updated in
  let changed := fst <$> order (changed_rows stamps known) in
  if (bulkReadAbove <? length changed)%nat then
    try rows <- calling "reading wallet state" (reading (ReadAll (stateKey [section])));
    foreach (List.filter (fun k => negb (bool_decide (is_Some (rows !! k)))) changed) (rows ∪ updated) (read_row stamps)
  else foreach changed updated (read_row stamps).

(** The counter of the rows read, zero without one; [parses] answers for one
    that is not a number. *)
Definition loaded_counter (updated : stateSnapshot) : Z :=
  match updated !! counterKey with Some b => default 0 (atoi (Data b)) | None => 0 end.

(** The wallet of the parsed rows: the cache, the revisions and, with the
    status section, the counter. *)
Definition loaded_server (sections : list string) (revs : gmap string Stamp) (updated : stateSnapshot) (sv : server) : server :=
  mkServer updated (Datatypes.S (persisted_id sv))
    (fold_right (fun section m => <[section := revision_in revs (revisionKey section)]> m) (revisions sv) sections)
    (if bool_decide (statusSection ∈ sections) then loaded_counter updated else StatusListCounter sv) (saves sv).

Definition loadSections (me : string) (sections : list string) (parses : stateSnapshot -> bool) : prog (world S) (result persist_error ()) :=
  try revs <- calling "reading wallet revisions" (reading (Stamps (stateKey [revisionSection])));
  do known <- get (fun w => persisted (server_of me w));
  try updated <- foreach sections known (fun section updated => refreshSection section known updated);
  if parses updated then
    do _ <- locked me (loaded_server sections revs updated);
    Ret (Ok ())
  else Ret (Err ParsingFailed).

(** A request boundary: reload what changed. *)
Definition reload (me : string) (withLog : bool) (parses : stateSnapshot -> bool) : prog (world S) (result persist_error ()) :=
  try changed <- changedSections me withLog;
  match changed with
  | [] => Ret (Ok ())
  | _ => loadSections me changed parses
  end.

(** ** Saving *)

(** ResetToBaseline empties the wallet; the next save writes that. *)
Definition reset_server (sv : server) : server :=
  mkServer (persisted sv) (persisted_id sv) (revisions sv) 0 (saves sv).

Definition ResetToBaseline (me : string) : prog (world S) () := locked me reset_server.

(** What currentEntities has for the counter: the value the cache has, or
    zero once the wallet was reset. *)
Definition counter_entity (sv : server) : option string :=
  match persisted sv !! counterKey with
  | Some stored => Some (if StatusListCounter sv =? 0 then "0" else Data stored)
  | None => None
  end.

Definition write_entity (snapshot : stateSnapshot) (kd : string * string) (acc : written)
    : prog (world S) (result persist_error written) :=
  let '(k, data) := kd in
  let '(next, touched) := acc in
  match snapshot !! k with
  | Some blob =>
      if (Data blob =? data)%string then Ret (Ok (<[k := blob]> next, touched))
      else
        try st <- calling "writing wallet state" (putting k data);
        Ret (Ok (<[k := mkBlob data st]> next, <[sectionOf k := ()]> touched))
  | None =>
      try st <- calling "writing wallet state" (putting k data);
      Ret (Ok (<[k := mkBlob data st]> next, <[sectionOf k := ()]> touched))
  end.

Definition delete_entity (current : gmap string string) (k : string) (touched : gmap string ())
    : prog (world S) (result persist_error (gmap string ())) :=
  match current !! k with
  | Some _ => Ret (Ok touched)
  | None =>
      try _ <- calling "deleting wallet state" (writing (Delete k));
      Ret (Ok (<[sectionOf k := ()]> touched))
  end.

(** On a conflict the server keeps its older revision, so that it reloads. *)
Definition renew_revision (expected : gmap string Stamp) (section : string) (own : gmap string Stamp)
    : prog (world S) (result persist_error (gmap string Stamp)) :=
  do r <- marking (fun mark => WriteIf (revisionKey section) mark (Version (revision_in expected section)));
  match r with
  | Ok st => Ret (Ok (<[section := st]> own))
  | Err e =>
      if is_conflict e then
        try _ <- calling "writing wallet revision" (marking (Write (revisionKey section)));
        Ret (Ok own)
      else Ret (failed "writing wallet revision" e)
  end.

Definition trimLogRows : prog (world S) (result persist_error ()) :=
  try names <- calling "listing the wallet log" (reading (List (stateKey [logSection])));
  if (length names <=? maxLogEntries)%nat then Ret (Ok ())
  else
    try _ <- foreach (take (length names - maxLogEntries) names) ()
      (fun name _ =>
        try _ <- calling "trimming the wallet log" (writing (Delete (stateKey [logSection; name])));
        Ret (Ok ()));
    try _ <- calling "" (marking (Write (revisionKey logSection)));
    Ret (Ok ()).

Definition count_save (me : string) : prog (world S) Z :=
  atomic (fun w => let sv := server_of me w in
                   let n := wrap64 (saves sv + 1) in
                   (set_server me (mkServer (persisted sv) (persisted_id sv) (revisions sv) (StatusListCounter sv) n) w, n)).

Definition trimLogPeriodically (me : string) : prog (world S) (result persist_error ()) :=
  do n <- count_save me;
  if Z.rem n logTrimEvery =? 0 then trimLogRows else Ret (Ok ()).

(** The final block: a reload that installed another snapshot meanwhile keeps
    its own. *)
Definition saved_server (id : nat) (next : stateSnapshot) (own : gmap string Stamp) (sv : server) : server :=
  if bool_decide (persisted_id sv = id)
  then mkServer next (Datatypes.S (persisted_id sv)) (own ∪ revisions sv) (StatusListCounter sv) (saves sv)
  else sv.

Definition saveEntities (me : string) (entities : server -> gmap string string) : prog (world S) (result persist_error ()) :=
  do sv <- get (server_of me);
  let snapshot := persisted sv in
  let current := entities sv in
  try out <- foreach (order current) (∅, ∅) (write_entity snapshot);
  try touched <- foreach (fst <$> order snapshot) (snd out) (delete_entity current);
  try own <- foreach (fst <$> order touched) ∅ (renew_revision (revisions sv));
  try _ <- trimLogPeriodically me;
  do _ <- locked me (saved_server (persisted_id sv) (fst out) own);
  Ret (Ok ()).

(** ** The activity log *)

Definition loadLogCleanMarker (parse_rfc3339 : string -> option time) : prog (world S) time :=
  do r <- reading (Read logCleanMarkerKey);
  Ret (match r with Ok data => default zero_time (parse_rfc3339 data) | Err _ => zero_time end).

Definition appended_server (k : string) (blob : Blob) (own : option Stamp) (sv : server) : server :=
  mkServer (<[k := blob]> (persisted sv)) (Datatypes.S (persisted_id sv))
    (match own with Some st => <[logSection := st]> (revisions sv) | None => revisions sv end)
    (StatusListCounter sv) (saves sv).

(** [name] is the row's logEntryName, [data] the encoded entry. *)
Definition appendLogEntry (parse_rfc3339 : string -> option time) (me name data : string) (at_ : time)
    : prog (world S) (result persist_error ()) :=
  do cleanedAt <- loadLogCleanMarker parse_rfc3339;
  if after cleanedAt at_ then Ret (Ok ())
  else
    let k := stateKey [logSection; name] in
    try st <- calling "writing wallet state" (writing (Write k data));
    do sv <- get (server_of me);
    try own <- renew_revision (revisions sv) logSection ∅;
    try _ <- trimLogPeriodically me;
    do _ <- locked me (appended_server k (mkBlob data st) (own !! logSection));
    Ret (Ok ()).

(** ** Allocating status indices *)

Definition allocated_server (k : string) (blob : Blob) (next : Z) (sv : server) : server :=
  mkServer (<[k := blob]> (persisted sv)) (Datatypes.S (persisted_id sv)) (revisions sv) next (saves sv).

(** The final block, which also records the index in the history. *)
Definition grant (me : string) (blob : Blob) (taken : nat * Z) : prog (world S) () :=
  modify (fun w =>
    let w := set_server me (allocated_server counterKey blob (wrap64 (snd taken + 1)) (server_of me w)) w in
    mkWorld (backend w) (servers w) (drawn w) (mkHistory (era (past w)) (granted (past w) ++ [taken]))).

(** The second half of an attempt, which stores the next value; [None]
    retries. *)
Definition swap_counter (me : string) (next : Z) (expected : string) : prog (world S) (result persist_error (option Z)) :=
  let stored := itoa (wrap64 (next + 1)) in
  do now <- dated (WriteIf counterKey stored expected);
  let '(r, during) := now in
  match r with
  | Err e => if is_conflict e then Ret (Ok None) else Ret (failed "" e)
  | Ok st =>
      try _ <- calling "writing wallet revision" (marking (Write (revisionKey statusSection)));
      do _ <- grant me (mkBlob stored st) (during, next);
      Ret (Ok (Some next))
  end.

(** The version is read before the value, so that the swap fails if the value
    changes in between. *)
Definition allocate_attempt (me : string) : prog (world S) (result persist_error (option Z)) :=
  do r <- reading (Stat counterKey);
  match r with
  | Err e => if is_not_exist e then swap_counter me 0 "" else Ret (failed "reading the status counter" e)
  | Ok st =>
      do r <- reading (Read counterKey);
      match r with
      | Err e => if is_not_exist e then Ret (Ok None) else Ret (failed "reading the status counter" e)
      | Ok data => match atoi data with
                   | Some next => swap_counter me next (Version st)
                   | None => Ret (Err (BadCounter data))
                   end
      end
  end.

Fixpoint allocate_loop (attempts : nat) (me : string) : prog (world S) (result persist_error Z) :=
  match attempts with
  | O => Ret (Err CounterBusy)
  | Datatypes.S n =>
      try r <- allocate_attempt me;
      match r with Some next => Ret (Ok next) | None => allocate_loop n me end
  end.

Definition allocateStatusIndex (me : string) : prog (world S) (result persist_error Z) := allocate_loop 100 me.
End persist.
