(* ===== verification/PersistFacts.v ===== *)
(** * PersistFacts: servers that share the rows stay coherent, and never hand
    out a status index twice *)

From stdpp Require Import base list strings gmap relations.
From Stdlib Require Import ZArith Lia Ascii.
From S2P Require Import Prelude GoStrings StringFacts Numbers Validity SDJWT GoMap Storage StorageFacts Conc Persist.

(** ** Keys of the wallet state *)

Section keys.
Context `{Hash} (prefix : string) (good : plain_key prefix = true).

Lemma split_join_keys l :
  Forall (fun k => plain_key k = true) l -> l <> [] -> split "/" (join "/" l) = concat (split "/" <$> l).
Proof.
  induction l as [|k l IH]; intros Hl Hne; [done|]. apply Forall_cons in Hl as [Hk Hl].
  destruct l as [|k' l]; [simpl; by rewrite app_nil_r|].
  change (join "/" (k :: k' :: l)) with (k +:+ String "/" (join "/" (k' :: l))).
  by rewrite split_app, IH.
Qed.

Lemma plain_join l :
  Forall (fun k => plain_key k = true) l -> l <> [] -> plain_key (join "/" l) = true.
Proof.
  intros Hl Hne. unfold plain_key. rewrite split_join_keys by done. apply forallb_forall. intros c Hc.
  apply in_concat in Hc as (cs & Hcs & Hc). apply list_elem_of_In, list_elem_of_fmap in Hcs as (k & -> & Hk).
  rewrite Forall_forall in Hl. specialize (Hl k Hk). unfold plain_key in Hl. rewrite forallb_forall in Hl. by apply Hl.
Qed.

Lemma plain_key_not_empty k : plain_key k = true -> k <> "".
Proof. intros Hk ->. by vm_compute in Hk. Qed.

Lemma key_join parts : Forall (fun k => plain_key k = true) parts -> key prefix parts = join "/" (prefix :: parts).
Proof using good.
  intros Hp. unfold key, Join.
  assert (Hf : List.filter (fun e => negb (e =? "")%string) (prefix :: parts) = prefix :: parts).
  { assert (Hall : Forall (fun k => plain_key k = true) (prefix :: parts)) by by constructor.
    induction Hall as [|k l Hk _ IH]; [done|]. simpl. rewrite IH.
    destruct (String.eqb_spec k ""); [by apply plain_key_not_empty in Hk|done]. }
  rewrite Hf. apply Clean_plain, plain_join; [by constructor|done].
Qed.

Lemma key_valid parts : Forall (fun k => plain_key k = true) parts -> cleanKey (key prefix parts) = Ok (key prefix parts).
Proof using good.
  intros Hp. apply cleanKey_ok. right. rewrite key_join by done. apply plain_join; [by constructor|done].
Qed.

Lemma key_split parts : Forall (fun k => plain_key k = true) parts ->
  split "/" (key prefix parts) = split "/" prefix ++ concat (split "/" <$> parts).
Proof using good. intros Hp. rewrite key_join, split_join_keys; [done|by constructor|done|done]. Qed.

(** The root of the state and a key below it. *)
Definition below_state (dir rest : string) : string := stateKey prefix [] +:+ String "/" (dir +:+ String "/" rest).

Lemma stateKey_nil : stateKey prefix [] = prefix +:+ "/state".
Proof using good. unfold stateKey. rewrite key_join; [done|]. by repeat constructor. Qed.

Lemma stateKey_one sec : plain_key sec = true -> stateKey prefix [sec] = stateKey prefix [] +:+ String "/" sec.
Proof using good.
  intros Hs. rewrite stateKey_nil. unfold stateKey. rewrite key_join by (repeat constructor; done).
  simpl. by rewrite append_assoc.
Qed.

Lemma stateKey_two dir name : plain_key dir = true -> plain_key name = true -> stateKey prefix [dir; name] = below_state dir name.
Proof using good.
  intros Hd Hn. unfold below_state. rewrite stateKey_nil. unfold stateKey. rewrite key_join by (repeat constructor; done).
  simpl. by rewrite append_assoc.
Qed.

Lemma cut_prefix_self p s : cut_prefix p (p +:+ s) = Some s.
Proof. by apply cut_prefix_spec. Qed.

Lemma sectionOf_below dir rest : free "/" dir = true ->
  sectionOf prefix (below_state dir rest) = if (dir =? statusCounterEntity)%string then statusSection else dir.
Proof.
  intros Hd. unfold sectionOf, TrimPrefix, below_state.
  assert (E : forall x, stateKey prefix [] +:+ String "/" x = (stateKey prefix [] +:+ "/") +:+ x) by (intros x; by rewrite append_assoc).
  rewrite (E (dir +:+ String "/" rest)), cut_prefix_self, cut_found by exact Hd. done.
Qed.

(** The directories of the entities. *)
Definition entityDirs : list string := statusCounterEntity :: allSections.

Lemma entityDirs_spec dir : dir ∈ entityDirs ->
  plain_key dir = true /\ free "/" dir = true /\ dir <> revisionSection /\
  (if (dir =? statusCounterEntity)%string then statusSection else dir) ∈ allSections.
Proof.
  intros Hs. unfold entityDirs in Hs. apply elem_of_cons in Hs as [->|Hs].
  - split_and!; [done|done|done|by_decide].
  - assert (Hd : dir <> statusCounterEntity /\ plain_key dir = true /\ free "/" dir = true /\ dir <> revisionSection).
    { unfold allSections in Hs. repeat (apply elem_of_cons in Hs as [->|Hs]; [done|]). by apply not_elem_of_nil in Hs. }
    destruct Hd as (Hn & ? & ? & ?). apply String.eqb_neq in Hn. by rewrite Hn.
Qed.

(** An entity's row. *)
Definition row (k : string) : Prop :=
  cleanKey k = Ok k /\ exists dir rest, k = below_state dir rest /\ dir ∈ entityDirs.

Lemma row_section k : row k -> sectionOf prefix k ∈ allSections.
Proof.
  intros (_ & dir & rest & -> & Hd). apply entityDirs_spec in Hd as (_ & Hf & _ & Hs). by rewrite sectionOf_below.
Qed.

Lemma app_inj_l p x y : p +:+ x = p +:+ y -> x = y.
Proof. induction p as [|c p IH]; [done|]. intros [= E]. by apply IH. Qed.

Lemma below_inj dir rest dir' rest' :
  free "/" dir = true -> free "/" dir' = true -> below_state dir rest = below_state dir' rest' -> dir = dir'.
Proof.
  intros Hd Hd' E. unfold below_state in E. apply app_inj_l in E. injection E as E.
  assert (H1 := split_sep "/" dir rest Hd). rewrite E, split_sep in H1 by done. by injection H1.
Qed.

Lemma revisionKey_below sec : plain_key sec = true -> revisionKey prefix sec = below_state revisionSection sec.
Proof using good. intros Hs. unfold revisionKey. by rewrite stateKey_two. Qed.

Lemma revisionKey_not_row sec : plain_key sec = true -> ~ row (revisionKey prefix sec).
Proof using good.
  intros Hs (_ & dir & rest & E & Hd). apply entityDirs_spec in Hd as (_ & Hd & Hn & _).
  rewrite revisionKey_below in E by done.
  by apply below_inj in E.
Qed.

Lemma revisionKey_inj s1 s2 : plain_key s1 = true -> plain_key s2 = true ->
  revisionKey prefix s1 = revisionKey prefix s2 -> s1 = s2.
Proof using good.
  intros H1 H2 E. rewrite !revisionKey_below in E by done. unfold below_state in E. apply app_inj_l in E. by injection E as E.
Qed.

Lemma has_prefix_app p s : has_prefix p (p +:+ s) = true.
Proof. apply has_prefix_spec. by exists s. Qed.

(** The rows below a section's prefix. *)
Lemma under_stateKey sec : plain_key sec = true -> under (stateKey prefix [sec]) = stateKey prefix [] +:+ String "/" (sec +:+ "/").
Proof using good.
  intros Hs. unfold under. rewrite stateKey_one by done.
  assert (Hne : stateKey prefix [] +:+ String "/" sec <> "") by (by destruct (stateKey prefix [])).
  destruct (String.eqb_spec (stateKey prefix [] +:+ String "/" sec) ""); [done|]. by rewrite append_assoc.
Qed.

Lemma under_below sec k : plain_key sec = true ->
  has_prefix (under (stateKey prefix [sec])) k = true <-> exists rest, k = below_state sec rest.
Proof using good.
  intros Hs. rewrite under_stateKey, has_prefix_spec by done. unfold below_state.
  assert (E : forall z, (stateKey prefix [] +:+ String "/" (sec +:+ "/")) +:+ z = stateKey prefix [] +:+ String "/" (sec +:+ String "/" z)).
  { intros z. rewrite append_assoc. f_equal. change (String "/" (sec +:+ "/") +:+ z) with (String "/" ((sec +:+ "/") +:+ z)).
    by rewrite append_assoc. }
  by setoid_rewrite E.
Qed.

Lemma plain_key_of_free sec : plain sec = true -> free "/" sec = true -> plain_key sec = true.
Proof. intros Hp Hf. unfold plain_key. rewrite split_free by done. simpl. by rewrite Hp. Qed.
End keys.

(** ** The state with what the proof adds

    [dirty t] are the rows thread [t] has changed without having renewed their
    section's revision yet; [reserved t] is the status index it has taken from
    the counter without having returned it yet, with its era. *)

Local Open Scope Z_scope.

Section coherence.
Context {S : Type} `{StoreLaws S} `{Hash} `{MapOrder}.
Context (prefix : string) (rand_text : nat -> string) (good : plain_key prefix = true).

Record gworld := mkG { real : world S; dirty : string -> gset string; reserved : string -> option (nat * Z) }.

Definition rows (w : gworld) : gmap string Blob := contents (backend (real w)).
Definition was_issued (w : gworld) (v : string) : Prop := issued (backend (real w)) v.
Definition cache (t : string) (w : gworld) : server := server_of t (real w).

Abbreviation rk sec := (revisionKey prefix sec).
Abbreviation sec_of := (sectionOf prefix).
Abbreviation is_row := (row prefix).
Abbreviation ckey := (counterKey prefix).

(** The value of the counter row. *)
Definition counter_value (m : gmap string Blob) : option Z :=
  match m !! ckey with Some b => atoi (Data b) | None => Some 0 end.

Definition live (w : world S) : Prop :=
  roomy (backend w) /\ forall n, counter_value (contents (backend w)) = Some n -> n < max_int64.

Definition grants (w : gworld) : list (nat * Z) := granted (past (real w)).
Definition era_of (w : gworld) : nat := era (past (real w)).

(** An index taken from a counter that is [n] in era [now]. *)
Definition taken_from (now : nat) (n : Z) (ex : nat * Z) : Prop :=
  (fst ex <= now)%nat /\ 0 <= snd ex <= max_int64 /\ (fst ex = now -> snd ex < n).

Definition Inv (w : gworld) : Prop :=
  store_wf (backend (real w)) /\
  (exists n, counter_value (rows w) = Some n /\ 0 <= n /\ (forall x, x ∈ grants w -> taken_from (era_of w) n x) /\
     forall t x, reserved w t = Some x -> taken_from (era_of w) n x) /\
  NoDup (grants w) /\
  (forall t x, reserved w t = Some x -> x ∉ grants w) /\
  (forall t t' x, reserved w t = Some x -> reserved w t' = Some x -> t = t').

Record guar (t : string) (w w' : gworld) : Prop := {
  g_issued : forall v, was_issued w v -> was_issued w' v;
  g_fresh : forall k b, rows w' !! k = Some b -> rows w !! k = Some b \/ ~ was_issued w (Version (BStamp b));
  g_rows : forall k, is_row k -> rows w' !! k <> rows w !! k -> k ∈ dirty w' t;
  g_kept : forall sec, sec ∈ allSections -> is_Some (rows w !! rk sec) -> is_Some (rows w' !! rk sec);
  g_renewed : forall k, is_row k -> k ∈ dirty w t -> k ∉ dirty w' t -> rows w' !! rk (sec_of k) <> rows w !! rk (sec_of k);
  g_dirty : forall t', t' <> t -> dirty w' t' = dirty w t';
  g_cache : forall t', t' <> t -> cache t' w' = cache t' w;
  g_reserved : forall t', t' <> t -> reserved w' t' = reserved w t' }.

Definition relies := rely Inv guar.

(** ** Facts other threads preserve *)

(** A stamp the server remembers for a row is the row's, if the versions
    agree. *)
Definition valid_stamp (k : string) (st : Stamp) (w : gworld) : Prop :=
  was_issued w (Version st) /\
  forall b, rows w !! k = Some b -> Version (BStamp b) = Version st -> BStamp b = st.

Definition valid_blob (k : string) (b : Blob) (w : gworld) : Prop :=
  was_issued w (Version (BStamp b)) /\
  forall b', rows w !! k = Some b' -> Version (BStamp b') = Version (BStamp b) -> b' = b.

Definition valid_revision (sec : string) (st : Stamp) (w : gworld) : Prop :=
  st = zero_stamp \/ valid_stamp (rk sec) st w.

Definition rev_at (w : gworld) (sec : string) : Stamp := default zero_stamp (BStamp <$> rows w !! rk sec).

(** While the section's revision is [st], its rows are as [P] says, but for
    those another thread is changing. *)
Definition tracks (t sec : string) (st : Stamp) (P : string -> option Blob -> Prop) (w : gworld) : Prop :=
  rev_at w sec = st -> forall k, is_row k -> sec_of k = sec ->
    P k (rows w !! k) \/ exists t', t' <> t /\ k ∈ dirty w t'.

Lemma valid_stamp_guar t k st w w' : guar t w w' -> valid_stamp k st w -> valid_stamp k st w'.
Proof using.
  intros Hg [Hi Hv]. split; [by eapply g_issued|]. intros b Hb Ev.
  destruct (g_fresh _ _ _ Hg k b Hb) as [Hb'|Hn]; [by apply Hv|]. by rewrite Ev in Hn.
Qed.

Lemma valid_blob_guar t k b w w' : guar t w w' -> valid_blob k b w -> valid_blob k b w'.
Proof using.
  intros Hg [Hi Hv]. split; [by eapply g_issued|]. intros b' Hb Ev.
  destruct (g_fresh _ _ _ Hg k b' Hb) as [Hb'|Hn]; [by apply Hv|]. by rewrite Ev in Hn.
Qed.

Lemma valid_revision_guar t sec st w w' : guar t w w' -> valid_revision sec st w -> valid_revision sec st w'.
Proof using. intros Hg [->|Hv]; [by left|right]. by eapply valid_stamp_guar. Qed.

(** A revision known to the server is current only if nothing renewed it. *)
Lemma rev_unchanged t sec st w w' :
  guar t w w' -> Inv w' -> sec ∈ allSections -> valid_revision sec st w -> rev_at w' sec = st ->
  rows w' !! rk sec = rows w !! rk sec.
Proof using.
  intros Hg Hi Hsec Hv Hst. unfold rev_at in Hst. destruct (rows w' !! rk sec) as [b|] eqn:Eb; simpl in Hst.
  - destruct (g_fresh _ _ _ Hg _ _ Eb) as [->|Hn]; [done|]. destruct Hv as [->|[Hv _]].
    + exfalso. apply (issued_not_empty (backend (real w'))); [apply Hi|].
      change "" with (Version zero_stamp). rewrite <- Hst. eapply held_issued; [apply Hi|exact Eb].
    + by rewrite Hst in Hn.
  - destruct (rows w !! rk sec) as [b|] eqn:Ew; [|done].
    destruct (g_kept _ _ _ Hg sec Hsec) as [b' Hb']; [by rewrite Ew|congruence].
Qed.

Lemma tracks_guar t t' sec st P w w' :
  guar t' w w' -> t' <> t -> Inv w' -> sec ∈ allSections -> valid_revision sec st w ->
  tracks t sec st P w -> tracks t sec st P w'.
Proof using.
  intros Hg Ht Hi Hsec Hv Htr Hst k Hk Hks.
  assert (Er := rev_unchanged _ _ _ _ _ Hg Hi Hsec Hv Hst).
  assert (Hst' : rev_at w sec = st) by (unfold rev_at in *; by rewrite <- Er).
  destruct (decide (rows w' !! k = rows w !! k)) as [E|Hne].
  - rewrite E. destruct (Htr Hst' k Hk Hks) as [HP|(t1 & Ht1 & Hd)]; [by left|]. right. exists t1. split; [done|].
    destruct (decide (t1 = t')) as [->|Hn]; [|by rewrite (g_dirty _ _ _ Hg t1 Hn)].
    destruct (decide (k ∈ dirty w' t')) as [|Hnd]; [done|]. exfalso.
    apply (g_renewed _ _ _ Hg k Hk Hd Hnd). by rewrite Hks.
  - right. exists t'. split; [done|]. by apply (g_rows _ _ _ Hg).
Qed.

Lemma tracks_impl t sec st (P Q : string -> option Blob -> Prop) w :
  (forall k, is_row k -> sec_of k = sec -> P k (rows w !! k) -> Q k (rows w !! k)) ->
  tracks t sec st P w -> tracks t sec st Q w.
Proof using. intros HPQ Htr Hst k Hk Hks. destruct (Htr Hst k Hk Hks); [left|right]; auto. Qed.

Lemma tracks_and t sec st (P Q : string -> option Blob -> Prop) w :
  tracks t sec st P w -> tracks t sec st Q w -> tracks t sec st (fun k b => P k b /\ Q k b) w.
Proof using. intros HP HQ Hst k Hk Hks. destruct (HP Hst k Hk Hks), (HQ Hst k Hk Hks); auto. Qed.

(** ** What each kind of step does *)

Definition set_dirty (t : string) (X : gset string) (w : gworld) : string -> gset string :=
  fun t' => if decide (t' = t) then X else dirty w t'.

Lemma set_dirty_at t X w : set_dirty t X w t = X.
Proof using. unfold set_dirty. by rewrite decide_True. Qed.
Lemma set_dirty_other t t' X w : t' <> t -> set_dirty t X w t' = dirty w t'.
Proof using. intros. unfold set_dirty. by rewrite decide_False. Qed.

(** A change of one row or revision of the store, by thread [t]. *)
Definition changes (t : string) (w w' : gworld) : Prop :=
  guar t w w' /\ Inv w' /\ cache t w' = cache t w /\ reserved w' t = reserved w t.

Lemma cache_set t sv w d r : cache t (mkG (set_server t sv (real w)) d r) = sv.
Proof using. unfold cache, server_of, set_server. simpl. by rewrite lookup_insert_eq. Qed.

Lemma server_of_set_other t t' sv (w : world S) : t' <> t -> server_of t' (set_server t sv w) = server_of t' w.
Proof using. intros Hne. unfold server_of, set_server. simpl. by rewrite lookup_insert_ne. Qed.

(** Steps that leave the store alone. *)
Lemma local_step t w w' :
  Inv w -> backend (real w') = backend (real w) -> past (real w') = past (real w) ->
  (forall t', t' <> t -> cache t' w' = cache t' w) -> dirty w' = dirty w -> reserved w' = reserved w ->
  guar t w w' /\ Inv w'.
Proof using.
  intros Hi Hb Hgr Hc Hd Hr. unfold Inv in *. split.
  - split; unfold rows, was_issued in *; rewrite ?Hb, ?Hd, ?Hr; auto; try done.
  - unfold rows, grants, era_of in *. by rewrite Hb, Hgr, Hr.
Qed.

Lemma local_tracks t w w' sec st P :
  backend (real w') = backend (real w) -> dirty w' = dirty w -> tracks t sec st P w -> tracks t sec st P w'.
Proof using. unfold tracks, rev_at, rows. by intros -> ->. Qed.

(** The store with one key changed. *)
Lemma Inv_rows w w' :
  Inv w -> store_wf (backend (real w')) -> rows w' !! ckey = rows w !! ckey ->
  past (real w') = past (real w) -> reserved w' = reserved w -> Inv w'.
Proof using.
  intros (_ & Hc & Hrest) Hw Hk Hg Hr. unfold Inv, grants, era_of, counter_value in *. rewrite Hk, Hg, Hr. by split.
Qed.

Lemma row_ne_revision k sec : is_row k -> sec ∈ allSections -> k <> rk sec.
Proof using good.
  intros Hk Hs ->. eapply revisionKey_not_row; [done| |done].
  unfold allSections in Hs. repeat (apply elem_of_cons in Hs as [->|Hs]; [reflexivity|]). by apply not_elem_of_nil in Hs.
Qed.

Lemma section_plain sec : sec ∈ allSections -> plain_key sec = true.
Proof using.
  intros Hs. unfold allSections in Hs. repeat (apply elem_of_cons in Hs as [->|Hs]; [reflexivity|]).
  by apply not_elem_of_nil in Hs.
Qed.

(** Thread [t] puts a blob in a row, or removes it. *)
Lemma row_change t w w' k ob :
  Inv w' -> is_row k -> (forall v, was_issued w v -> was_issued w' v) ->
  rows w' = partial_alter (fun _ => ob) k (rows w) ->
  (forall b, ob = Some b -> ~ was_issued w (Version (BStamp b))) ->
  servers (real w') = servers (real w) ->
  dirty w' = set_dirty t (dirty w t ∪ {[k]}) w -> reserved w' = reserved w ->
  changes t w w'.
Proof using good.
  intros Hi Hk Hiss Hr Hob Hs Hd Hres.
  assert (Hne : forall k', k' <> k -> rows w' !! k' = rows w !! k').
  { intros k' Hn. rewrite Hr. by rewrite lookup_partial_alter_ne. }
  assert (Hc : forall t', cache t' w' = cache t' w) by (intros t'; unfold cache, server_of; by rewrite Hs).
  split; [|split; [|split; [apply Hc|by rewrite Hres]]].
  - split; [done| | | | | |by auto|by rewrite Hres].
    + intros k' b Hb. destruct (decide (k' = k)) as [->|Hn]; [|left; by rewrite <- Hne].
      rewrite Hr, lookup_partial_alter_eq in Hb. right. by apply Hob.
    + intros k' _ Hch. destruct (decide (k' = k)) as [->|Hn]; [|by destruct Hch; apply Hne].
      rewrite Hd, set_dirty_at. set_solver.
    + intros sec Hsec. rewrite Hne; [done|]. intros E. by eapply row_ne_revision.
    + intros k' _ Hk' Hn'. destruct Hn'. rewrite Hd, set_dirty_at. set_solver.
    + intros t' Ht'. rewrite Hd. by apply set_dirty_other.
  - done.
Qed.

Lemma row_step t w w' k ob :
  Inv w -> is_row k -> k <> ckey ->
  store_wf (backend (real w')) -> (forall v, was_issued w v -> was_issued w' v) ->
  rows w' = partial_alter (fun _ => ob) k (rows w) ->
  (forall b, ob = Some b -> ~ was_issued w (Version (BStamp b))) ->
  servers (real w') = servers (real w) -> past (real w') = past (real w) ->
  dirty w' = set_dirty t (dirty w t ∪ {[k]}) w -> reserved w' = reserved w ->
  changes t w w'.
Proof using good.
  intros Hi Hk Hck Hw Hiss Hr Hob Hs Hgr Hd Hres. apply (row_change t w w' k ob); try done.
  eapply Inv_rows; [done|done| |done|done]. by rewrite Hr, lookup_partial_alter_ne.
Qed.

(** A save writes the counter back to zero, which starts an era. *)
Lemma reset_step t w w' st :
  Inv w -> is_row ckey ->
  store_wf (backend (real w')) -> (forall v, was_issued w v -> was_issued w' v) ->
  rows w' = <[ckey := mkBlob "0" st]> (rows w) -> ~ was_issued w (Version st) ->
  servers (real w') = servers (real w) -> past (real w') = mkHistory (Datatypes.S (era_of w)) (grants w) ->
  dirty w' = set_dirty t (dirty w t ∪ {[ckey]}) w -> reserved w' = reserved w ->
  changes t w w'.
Proof using good.
  intros (Hwf & (n & Hn & Hn0 & Hgr & Hres) & Hnd & Hdis & Huniq) Hk Hw Hiss Hr Hob Hs Hp Hd Hre.
  assert (Hold : forall x, taken_from (era_of w) n x -> taken_from (Datatypes.S (era_of w)) 0 x).
  { intros x (He & Hx & _). split; [lia|split; [done|lia]]. }
  apply (row_change t w w' ckey (Some (mkBlob "0" st))); try done; [|by intros b [= <-]].
  unfold Inv, grants, era_of. rewrite Hp, Hre. simpl. split; [done|split; [|done]].
  exists 0. unfold counter_value. rewrite Hr, lookup_insert_eq. split; [done|split; [done|split]].
  - intros x Hx. by apply Hold, Hgr.
  - intros t' x Hx. eapply Hold, Hres, Hx.
Qed.

(** Thread [t] renews a section's revision. *)
Lemma revision_step t w w' sec b :
  Inv w -> sec ∈ allSections ->
  store_wf (backend (real w')) -> (forall v, was_issued w v -> was_issued w' v) ->
  rows w' = <[rk sec := b]> (rows w) -> ~ was_issued w (Version (BStamp b)) ->
  servers (real w') = servers (real w) -> past (real w') = past (real w) ->
  dirty w' = set_dirty t (filter (fun k => sec_of k <> sec) (dirty w t)) w -> reserved w' = reserved w ->
  changes t w w'.
Proof using good.
  intros Hi Hsec Hw Hiss Hr Hob Hs Hgr Hd Hres.
  assert (Hrow : forall k, is_row k -> rows w' !! k = rows w !! k).
  { intros k' Hk. rewrite Hr, lookup_insert_ne; [done|]. intros E. by eapply row_ne_revision. }
  assert (Hc : forall t', cache t' w' = cache t' w) by (intros t'; unfold cache, server_of; by rewrite Hs).
  split; [|split; [|split; [apply Hc|by rewrite Hres]]].
  - split; [done| | | | | |by auto|by rewrite Hres].
    + intros k' b' Hb. rewrite Hr, lookup_insert_Some in Hb. destruct Hb as [[<- <-]|[_ Hb]]; [by right|by left].
    + intros k' Hk Hch. by destruct Hch; apply Hrow.
    + intros sec' _ [b' Hb']. rewrite Hr. destruct (decide (rk sec = rk sec')) as [->|Hn];
        [by rewrite lookup_insert_eq|]. by rewrite lookup_insert_ne, Hb'.
    + intros k' Hk' Hd1 Hd2. rewrite Hd, set_dirty_at, elem_of_filter in Hd2.
      assert (sec_of k' = sec) as -> by (destruct (decide (sec_of k' = sec)); tauto).
      rewrite Hr, lookup_insert_eq. intros E. apply Hob. eapply held_issued; [apply Hi|]. by unfold rows in E; rewrite <- E.
    + intros t' Ht'. rewrite Hd. by apply set_dirty_other.
  - eapply Inv_rows; [done|done| |done|done]. apply Hrow. split; [|].
    + by apply key_valid; [|repeat constructor].
    + exists statusCounterEntity, "value". split; [by apply stateKey_two|by left].
Qed.

(** ** Rules for the steps of the programs *)

Definition sf {B} (t : string) (p : prog (world S) B) (Q : B -> gworld -> Prop) (w : gworld) : Prop :=
  safe live real Inv guar t p Q w.

Lemma guar_refl t w : Inv w -> guar t w w.
Proof using. intros Hi. by apply local_step. Qed.

Lemma safe_reading {R B} t (I : gworld -> Prop) (f : S -> R) (g : R -> prog (world S) B) Q w :
  stable Inv guar t I -> I w ->
  (forall w, I w -> Inv w -> sf t (g (f (backend (real w)))) Q w) -> sf t (do r <- reading f; g r) Q w.
Proof using.
  intros Hst HI Hg. eapply (safe_do live real Inv guar t I); [done|done|].
  intros w1 HI1 Hi1 _. exists w1. split; [done|split; [by apply guar_refl|split; [done|]]]. by apply Hg.
Qed.

Lemma safe_get_any {R B} t (I : gworld -> Prop) (f : world S -> R) (g : R -> prog (world S) B) Q w :
  stable Inv guar t I -> I w ->
  (forall w, I w -> Inv w -> sf t (g (f (real w))) Q w) -> sf t (do r <- get f; g r) Q w.
Proof using.
  intros Hst HI Hg. eapply (safe_do live real Inv guar t I); [done|done|].
  intros w1 HI1 Hi1 _. exists w1. split; [done|split; [by apply guar_refl|split; [done|]]]. by apply Hg.
Qed.

Lemma safe_get_server {B} t (I : gworld -> Prop) (g : server -> prog (world S) B) Q w :
  stable Inv guar t I -> I w ->
  (forall w, I w -> Inv w -> sf t (g (cache t w)) Q w) -> sf t (do r <- get (server_of t); g r) Q w.
Proof using. apply safe_get_any. Qed.

Lemma safe_cached {B R} t (I : gworld -> Prop) (f : world S -> world S * R) (h : server -> server) (g : R -> prog (world S) B) Q w :
  stable Inv guar t I -> I w ->
  (forall w, fst (f w) = set_server t (h (server_of t w)) w) ->
  (forall w w', I w -> Inv w -> Inv w' -> guar t w w' -> backend (real w') = backend (real w) -> dirty w' = dirty w ->
     reserved w' = reserved w -> cache t w' = h (cache t w) ->
     sf t (g (snd (f (real w)))) Q w') ->
  sf t (Do f g) Q w.
Proof using.
  intros Hst HI Hf Hg. eapply (safe_do live real Inv guar t I); [done|done|].
  intros w1 HI1 Hi1 _. set (w2 := mkG (set_server t (h (cache t w1)) (real w1)) (dirty w1) (reserved w1)).
  destruct (local_step t w1 w2 Hi1) as [Hgu Hi2]; [done|done| |done|done|].
  { intros t' Hn. unfold cache, w2. simpl. by apply server_of_set_other. }
  exists w2. split; [by rewrite Hf|split; [done|split; [done|]]]. eapply Hg; try done. apply cache_set.
Qed.

(** A row is written: its content is the blob the store returned. *)
Definition row_written (t k data : string) (st : Stamp) (w w' : gworld) : Prop :=
  changes t w w' /\ rows w' = <[k := mkBlob data st]> (rows w) /\
  dirty w' = set_dirty t (dirty w t ∪ {[k]}) w /\ valid_blob k (mkBlob data st) w'.

Lemma write_row t k data w1 h :
  Inv w1 -> live (real w1) -> is_row k ->
  (k <> ckey /\ h = past (real w1) \/ k = ckey /\ data = "0" /\ h = mkHistory (Datatypes.S (era_of w1)) (grants w1)) ->
  exists s' st w2, Write k data (backend (real w1)) = (s', Ok st) /\ Inv w2 /\ row_written t k data st w1 w2 /\
    real w2 = mkWorld s' (servers (real w1)) (drawn (real w1)) h.
Proof using good.
  intros Hi1 [Hl _] Hk Hh.
  destruct (write_law (backend (real w1)) k data (proj1 Hk) (proj1 Hi1) Hl) as (s' & st & E & Ec & Hn & Hv & Hw').
  set (w2 := mkG (mkWorld s' (servers (real w1)) (drawn (real w1)) h) (set_dirty t (dirty w1 t ∪ {[k]}) w1) (reserved w1)).
  assert (Hch : changes t w1 w2).
  { destruct Hh as [[Hck ->]|(-> & -> & ->)].
    - apply (row_step t w1 w2 k (Some (mkBlob data st))); try done; [by intros v Hi; apply Hv; left|].
      by intros b [= <-].
    - apply (reset_step t w1 w2 st); try done. by intros v Hi; apply Hv; left. }
  exists s', st, w2. split; [done|split; [apply Hch|split; [|done]]].
  split; [done|split; [done|split; [done|split]]].
  - by apply Hv; right.
  - intros b' Hb' _. unfold rows in Hb'. simpl in Hb'. rewrite Ec, lookup_insert_eq in Hb'. by injection Hb'.
Qed.

Lemma safe_write_row {B} t (I : gworld -> Prop) k data doing (g : Stamp -> prog (world S) (result persist_error B)) Q w :
  stable Inv guar t I -> I w -> is_row k -> k <> ckey ->
  (forall w w' st, I w -> Inv w -> Inv w' -> row_written t k data st w w' -> sf t (g st) Q w') ->
  sf t (try st <- calling doing (writing (Write k data)); g st) Q w.
Proof using good.
  intros Hst HI Hk Hck Hg. eapply (safe_do live real Inv guar t I); [done|done|].
  intros w1 HI1 Hi1 Hl.
  destruct (write_row t k data w1 (past (real w1)) Hi1 Hl Hk) as (s' & st & w2 & E & Hi2 & Hr & Hreal); [by left|].
  rewrite E. simpl. exists w2. split; [done|split; [apply Hr|split; [done|]]]. by apply (Hg w1 w2 st).
Qed.

(** A save writes a row, the counter only back to zero. *)
Lemma safe_put_row {B} t (I : gworld -> Prop) k data doing (g : Stamp -> prog (world S) (result persist_error B)) Q w :
  stable Inv guar t I -> I w -> is_row k -> (k = ckey -> data = "0") ->
  (forall w w' st, I w -> Inv w -> Inv w' -> row_written t k data st w w' -> sf t (g st) Q w') ->
  sf t (try st <- calling doing (putting prefix k data); g st) Q w.
Proof using good.
  intros Hst HI Hk Hck Hg. eapply (safe_do live real Inv guar t I); [done|done|].
  intros w1 HI1 Hi1 Hl.
  set (h := if (k =? ckey)%string then mkHistory (Datatypes.S (era_of w1)) (grants w1) else past (real w1)).
  destruct (write_row t k data w1 h Hi1 Hl Hk) as (s' & st & w2 & E & Hi2 & Hr & Hreal).
  { unfold h. destruct (String.eqb_spec k ckey) as [->|Hne]; [right|by left]. split; [done|split; [by apply Hck|done]]. }
  rewrite E. simpl. exists w2. split; [by rewrite Hreal|split; [apply Hr|split; [done|]]]. by apply (Hg w1 w2 st).
Qed.

Definition row_deleted (t k : string) (w w' : gworld) : Prop :=
  changes t w w' /\ rows w' = delete k (rows w) /\ dirty w' = set_dirty t (dirty w t ∪ {[k]}) w.

Lemma safe_delete_row {B} t (I : gworld -> Prop) k doing (g : () -> prog (world S) (result persist_error B)) Q w :
  stable Inv guar t I -> I w -> is_row k -> k <> ckey ->
  (forall w w', I w -> Inv w -> Inv w' -> row_deleted t k w w' -> sf t (g ()) Q w') ->
  sf t (try st <- calling doing (writing (Delete k)); g st) Q w.
Proof using good.
  intros Hst HI Hk Hck Hg. eapply (safe_do live real Inv guar t I); [done|done|].
  intros w1 HI1 Hi1 _.
  destruct (delete_law (backend (real w1)) k (proj1 Hk) (proj1 Hi1)) as (s' & E & Ec & Hv & Hw').
  rewrite E. simpl.
  set (w2 := mkG (mkWorld s' (servers (real w1)) (drawn (real w1)) (past (real w1)))
                 (set_dirty t (dirty w1 t ∪ {[k]}) w1) (reserved w1)).
  assert (Hch : changes t w1 w2).
  { apply (row_step t w1 w2 k None); try done. by intros v Hi; apply Hv. }
  exists w2. split; [done|split; [apply Hch|split; [apply Hch|]]]. by apply (Hg w1 w2 HI1 Hi1); [apply Hch|].
Qed.

(** A revision is renewed: the new stamp was never issued before. *)
Definition renewed (t sec : string) (st : Stamp) (w w' : gworld) : Prop :=
  changes t w w' /\ ~ was_issued w (Version st) /\ (exists data, rows w' = <[rk sec := mkBlob data st]> (rows w)) /\
  dirty w' = set_dirty t (filter (fun k => sec_of k <> sec) (dirty w t)) w /\ valid_stamp (rk sec) st w'.

Lemma renew_write t sec mark w1 :
  Inv w1 -> live (real w1) -> sec ∈ allSections ->
  exists s' st w2, Write (rk sec) mark (backend (real w1)) = (s', Ok st) /\ Inv w2 /\ renewed t sec st w1 w2 /\
    real w2 = mkWorld s' (servers (real w1)) (Datatypes.S (drawn (real w1))) (past (real w1)).
Proof using good.
  intros Hi1 [Hl _] Hsec.
  assert (Hk : cleanKey (rk sec) = Ok (rk sec)).
  { apply key_valid; [done|]. repeat constructor. by apply section_plain. }
  destruct (write_law (backend (real w1)) (rk sec) mark Hk (proj1 Hi1) Hl) as (s' & st & E & Ec & Hn & Hv & Hw').
  set (w2 := mkG (mkWorld s' (servers (real w1)) (Datatypes.S (drawn (real w1))) (past (real w1)))
                 (set_dirty t (filter (fun k => sec_of k <> sec) (dirty w1 t)) w1) (reserved w1)).
  assert (Hch : changes t w1 w2).
  { apply (revision_step t w1 w2 sec (mkBlob mark st)); try done. by intros v Hi; apply Hv; left. }
  exists s', st, w2. split; [done|split; [apply Hch|split; [|done]]].
  split; [done|split; [done|split; [by exists mark|split; [done|split]]]].
  - by apply Hv; right.
  - intros b Hb _. unfold rows in Hb. simpl in Hb. rewrite Ec, lookup_insert_eq in Hb. by injection Hb as <-.
Qed.

Lemma safe_renew_write {B} t (I : gworld -> Prop) sec doing (g : Stamp -> prog (world S) (result persist_error B)) Q w :
  stable Inv guar t I -> I w -> sec ∈ allSections ->
  (forall w w' st, I w -> Inv w -> Inv w' -> renewed t sec st w w' -> sf t (g st) Q w') ->
  sf t (try st <- calling doing (marking rand_text (Write (rk sec))); g st) Q w.
Proof using good.
  intros Hst HI Hsec Hg. eapply (safe_do live real Inv guar t I); [done|done|].
  intros w1 HI1 Hi1 Hl.
  destruct (renew_write t sec (rand_text (drawn (real w1))) w1 Hi1 Hl Hsec) as (s' & st & w2 & E & Hi2 & Hr & Hreal).
  rewrite E. simpl. exists w2. split; [by rewrite Hreal|split; [apply Hr|split; [done|]]]. by eapply Hg.
Qed.

(** ** Caches *)

Definition cache_valid (m : stateSnapshot) (w : gworld) : Prop :=
  forall k b, m !! k = Some b -> is_row k /\ valid_blob k b w.

(** Under the revisions [revs] every section's rows are as [P] says. *)
Definition view_ok (t : string) (revs : gmap string Stamp) (P : string -> option Blob -> Prop) (w : gworld) : Prop :=
  forall sec, sec ∈ allSections ->
    valid_revision sec (revision_in revs sec) w /\ tracks t sec (revision_in revs sec) P w.

Definition is_view (m : stateSnapshot) (k : string) (b : option Blob) : Prop := m !! k = b.

Lemma cache_valid_guar t m w w' : guar t w w' -> cache_valid m w -> cache_valid m w'.
Proof using. intros Hg Hv k b Hb. destruct (Hv k b Hb) as [Hr Hvb]. split; [done|by eapply valid_blob_guar]. Qed.

Lemma view_ok_guar t t' revs P w w' :
  guar t' w w' -> t' <> t -> Inv w' -> view_ok t revs P w -> view_ok t revs P w'.
Proof using.
  intros Hg Ht Hi Hv sec Hsec. destruct (Hv sec Hsec) as [Hr Htr].
  split; [by eapply valid_revision_guar|by eapply tracks_guar].
Qed.

Lemma view_ok_local t revs P w w' :
  backend (real w') = backend (real w) -> dirty w' = dirty w -> view_ok t revs P w -> view_ok t revs P w'.
Proof using.
  intros Hb Hd Hv sec Hsec. destruct (Hv sec Hsec) as [Hr Htr]. split; [|by eapply local_tracks].
  unfold valid_revision, valid_stamp, was_issued, rows in *. by rewrite Hb.
Qed.

Lemma view_ok_impl t revs (P Q : string -> option Blob -> Prop) w :
  (forall k, is_row k -> P k (rows w !! k) -> Q k (rows w !! k)) -> view_ok t revs P w -> view_ok t revs Q w.
Proof using.
  intros HPQ Hv sec Hsec. destruct (Hv sec Hsec) as [Hr Htr]. split; [done|]. eapply tracks_impl; [|exact Htr]. auto.
Qed.

Lemma renewed_row t sec st w w' k : renewed t sec st w w' -> sec ∈ allSections -> is_row k -> rows w' !! k = rows w !! k.
Proof using good.
  intros (_ & _ & (data & ->) & _) Hs Hk. rewrite lookup_insert_ne; [done|]. intros E. by eapply row_ne_revision.
Qed.

Lemma renewed_rev_at t sec st w w' sec' :
  renewed t sec st w w' -> sec ∈ allSections -> sec' ∈ allSections ->
  rev_at w' sec' = if decide (sec' = sec) then st else rev_at w sec'.
Proof using good.
  intros (_ & _ & (data & Hr) & _) Hs Hs'. unfold rev_at. rewrite Hr. destruct (decide (sec' = sec)) as [->|Hne].
  - by rewrite lookup_insert_eq.
  - rewrite lookup_insert_ne; [done|]. intros E. apply Hne. symmetry.
    eapply revisionKey_inj; [done|by apply section_plain|by apply section_plain|exact E].
Qed.

(** Renewing a revision keeps what is known about every section whose
    revision the server does not take over. *)
Lemma tracks_renewed t sec st sec' st' P w w' :
  renewed t sec st w w' -> sec ∈ allSections -> sec' ∈ allSections -> rev_at w sec' = rev_at w' sec' \/ rev_at w sec' = st' ->
  tracks t sec' st' P w -> tracks t sec' st' P w'.
Proof using good.
  intros Hr Hs Hs' Hst Htr Hst' k Hk Hks. rewrite (renewed_row _ _ _ _ _ _ Hr Hs Hk).
  assert (E : rev_at w sec' = st') by (destruct Hst; congruence).
  destruct (Htr E k Hk Hks) as [HP|(t' & Ht' & Hd)]; [by left|right]. exists t'. split; [done|].
  destruct Hr as (_ & _ & _ & -> & _). by rewrite set_dirty_other.
Qed.

Lemma view_renewed t sec st revs (P Q : string -> option Blob -> Prop) w w' :
  (forall k b, is_row k -> sec_of k <> sec -> P k b -> Q k b) ->
  renewed t sec st w w' -> sec ∈ allSections -> view_ok t revs P w -> view_ok t revs Q w'.
Proof using good.
  intros HPQ Hr Hs Hv sec' Hs'. destruct (Hv sec' Hs') as [Hval Htr].
  assert (Hval' : valid_revision sec' (revision_in revs sec') w') by (eapply valid_revision_guar; [apply Hr|done]).
  split; [done|]. assert (E := renewed_rev_at _ _ _ _ _ sec' Hr Hs Hs'). destruct (decide (sec' = sec)) as [->|Hne].
  - intros Hst. exfalso. rewrite E in Hst. destruct Hr as (Hch & Hn & _ & _ & Hi' & _). destruct Hval as [Hz|[Hi _]].
    + rewrite Hz in Hst. subst st. rewrite Hst in Hi'. eapply issued_not_empty; [apply Hch|exact Hi'].
    + by rewrite Hst in Hn.
  - eapply tracks_renewed; [done|done|done|by left|]. eapply tracks_impl; [|done].
    intros k Hk Hks. apply HPQ; [done|]. by rewrite Hks.
Qed.

Lemma view_renewed_own t sec st revs P w w' :
  renewed t sec st w w' -> sec ∈ allSections -> rev_at w sec = revision_in revs sec ->
  view_ok t revs P w -> view_ok t (<[sec := st]> revs) P w'.
Proof using good.
  intros Hr Hs Hst Hv sec' Hs'. unfold revision_in. destruct (decide (sec' = sec)) as [->|Hne].
  - rewrite lookup_insert_eq. simpl. split; [right; apply Hr|].
    intros _ k Hk Hks. rewrite (renewed_row _ _ _ _ _ _ Hr Hs Hk).
    destruct (proj2 (Hv sec Hs) Hst k Hk Hks) as [HP|(t' & Ht' & Hd)]; [by left|right]. exists t'. split; [done|].
    destruct Hr as (_ & _ & _ & -> & _). by rewrite set_dirty_other.
  - rewrite lookup_insert_ne by done. apply (view_renewed t sec st revs P P w w'); auto.
Qed.

(** ** A server that renews revisions *)

Definition cached (t : string) (sv : server) (w : gworld) : Prop :=
  persisted (cache t w) = persisted sv /\ persisted_id (cache t w) = persisted_id sv /\
  revisions (cache t w) = revisions sv.

(** The rows are as [P] says; the changes of thread [t] are in sections of
    [l], which are still to be renewed. *)
Record bumping (rs : option (nat * Z)) (t : string) (sv : server) (next : stateSnapshot) (P : string -> option Blob -> Prop) (own : gmap string Stamp) (l : list string) (w : gworld) : Prop := {
  b_cache : cached t sv w;
  b_reserved : reserved w t = rs;
  b_valid : cache_valid next w;
  b_view : view_ok t (own ∪ revisions sv) P w;
  b_dirty : forall k, k ∈ dirty w t -> is_row k /\ sec_of k ∈ l }.

Lemma bumping_stable rs t sv next P own l : stable Inv guar t (bumping rs t sv next P own l).
Proof using.
  intros w w' (Hi & Hi' & t' & Ht' & Hg) [Hc Hr Hv Hw Hd]. split.
  - unfold cached. rewrite (g_cache _ _ _ Hg t) by done. exact Hc.
  - rewrite (g_reserved _ _ _ Hg t); done.
  - by eapply cache_valid_guar.
  - by eapply view_ok_guar.
  - by rewrite (g_dirty _ _ _ Hg t).
Qed.

Lemma bumping_local rs t sv next P own l w w' :
  backend (real w') = backend (real w) -> dirty w' = dirty w -> reserved w' = reserved w -> cached t sv w' ->
  bumping rs t sv next P own l w -> bumping rs t sv next P own l w'.
Proof using.
  intros Hb Hd Hres Hc [_ Hr Hv Hw Hdk]. split; [done|by rewrite Hres| | |by rewrite Hd].
  - intros k b Hk. destruct (Hv k b Hk) as [Hrow Hvb]. split; [done|]. unfold valid_blob, was_issued, rows in *. by rewrite Hb.
  - by eapply view_ok_local.
Qed.

Lemma version_rev w sec st :
  Inv w -> valid_revision sec st w -> version_at (rows w) (rk sec) = Version st -> rev_at w sec = st.
Proof using.
  unfold version_at, rev_at. intros Hi Hv. destruct (rows w !! rk sec) as [b|] eqn:Eb; simpl; intros E.
  - destruct Hv as [->|[_ Hv]]; [|by apply Hv]. exfalso.
    apply (issued_not_empty (backend (real w))); [apply Hi|].
    change "" with (Version zero_stamp). rewrite <- E. eapply held_issued; [apply Hi|exact Eb].
  - destruct Hv as [->|[Hv _]]; [done|]. exfalso. rewrite <- E in Hv. eapply issued_not_empty; [apply Hi|exact Hv].
Qed.

Lemma bumping_renewed rs t sv next (P Q : string -> option Blob -> Prop) own sec l st w w' :
  (forall k b, is_row k -> sec_of k <> sec -> P k b -> Q k b) ->
  renewed t sec st w w' -> sec ∈ allSections -> bumping rs t sv next P own (sec :: l) w -> bumping rs t sv next Q own l w'.
Proof using good.
  intros HPQ Hr Hs [Hc Hres Hv Hw Hd]. assert (Hr' := Hr). destruct Hr' as ((Hg & Hi & Ecache & Eres) & _ & _ & Edirty & _).
  split.
  - unfold cached. by rewrite Ecache.
  - by rewrite Eres.
  - by eapply cache_valid_guar.
  - by eapply view_renewed.
  - intros k. rewrite Edirty, set_dirty_at, elem_of_filter. intros [Hne Hk]. destruct (Hd k Hk) as [? Hin]. set_solver.
Qed.

(** The revisions other sections keep. *)
Definition same_but (sec : string) (own own' : gmap string Stamp) : Prop := forall s, s <> sec -> own' !! s = own !! s.

Lemma safe_renew_revision t sv next P own sec l w :
  sec ∈ allSections -> own !! sec = None -> bumping None t sv next P own (sec :: l) w ->
  sf t (renew_revision prefix rand_text (revisions sv) sec own)
    (fun r w => match r with Ok own' => bumping None t sv next P own' l w /\ same_but sec own own' | Err _ => True end) w.
Proof using good.
  intros Hs Ho Hb. unfold renew_revision.
  assert (Hk : cleanKey (rk sec) = Ok (rk sec)).
  { apply key_valid; [done|]. repeat constructor. by apply section_plain. }
  assert (Hst : forall own', stable Inv guar t (fun w => bumping None t sv next P own' l w /\ same_but sec own own')).
  { intros own' w1 w2 Hrel [H1' H2']. split; [by eapply bumping_stable|done]. }
  eapply (safe_do live real Inv guar t (bumping None t sv next P own (sec :: l))); [apply bumping_stable|done|].
  intros w1 HI1 Hi1 Hl. assert (Hval := proj1 (b_view _ _ _ _ _ _ _ _ HI1 sec Hs)).
  assert (Erev : revision_in (own ∪ revisions sv) sec = revision_in (revisions sv) sec).
  { unfold revision_in. by rewrite lookup_union_r. }
  rewrite writeif_law by done. destruct (String.eqb_spec (version_at (contents (backend (real w1))) (rk sec)) (Version (revision_in (revisions sv) sec))) as [E|Hne].
  - destruct (renew_write t sec (rand_text (drawn (real w1))) w1 Hi1 Hl Hs) as (s' & st & w2 & Ew & Hi2 & Hr & Hreal).
    rewrite Ew. simpl. exists w2. split; [by rewrite Hreal|split; [apply Hr|split; [done|]]].
    apply (safe_ret live real Inv guar); [apply Hst|]. split; [|intros s Hne'; by rewrite lookup_insert_ne].
    destruct (bumping_renewed None t sv next P P own sec l st w1 w2 ltac:(auto) Hr Hs HI1) as [? ? ? _ ?]. split; [done|done|done| |done].
    rewrite <- insert_union_l. eapply view_renewed_own; [done|done| |apply HI1].
    rewrite Erev. apply version_rev; [done| |done]. by rewrite <- Erev.
  - simpl. set (w2 := mkG (mkWorld (backend (real w1)) (servers (real w1)) (Datatypes.S (drawn (real w1))) (past (real w1))) (dirty w1) (reserved w1)).
    destruct (local_step t w1 w2 Hi1) as [Hg Hi2]; try done.
    exists w2. split; [done|split; [done|split; [done|]]].
    apply (safe_renew_write t (bumping None t sv next P own (sec :: l)) sec); [apply bumping_stable| |done|].
    + eapply (bumping_local _ _ _ _ _ _ _ w1); [done|done|done|apply HI1|done].
    + intros w3 w4 st HI3 Hi3 Hi4 Hr. apply (safe_ret live real Inv guar); [apply Hst|]. split; [|done].
      eapply bumping_renewed; [|done|done|done]; auto.
Qed.

(** Any revision can be renewed. *)
Lemma safe_bump_write {B} rs t sv next (P P' : string -> option Blob -> Prop) own sec l doing (g : Stamp -> prog (world S) (result persist_error B)) Q w :
  (forall k b, is_row k -> sec_of k <> sec -> P k b -> P' k b) ->
  sec ∈ allSections -> bumping rs t sv next P own (sec :: l) w ->
  (forall w st, Inv w -> bumping rs t sv next P' own l w -> sf t (g st) Q w) ->
  sf t (try st <- calling doing (marking rand_text (Write (rk sec))); g st) Q w.
Proof using good.
  intros HPQ Hs Hb Hg. apply (safe_renew_write t (bumping rs t sv next P own (sec :: l)) sec); [apply bumping_stable|done|done|].
  intros w1 w2 st HI Hi Hi2 Hr. apply Hg; [done|]. by eapply bumping_renewed.
Qed.

(** ** Trimming the log *)

Definition okp {A} (Q : A -> gworld -> Prop) (r : result persist_error A) (w : gworld) : Prop :=
  match r with Ok a => Q a w | Err _ => True end.

Lemma okp_stable {A} t (Q : A -> gworld -> Prop) :
  (forall a, stable Inv guar t (Q a)) -> forall r, stable Inv guar t (okp Q r).
Proof using. intros HQ [a|e]; [apply HQ|done]. Qed.

Lemma safe_err {A} t e (Q : A -> gworld -> Prop) w : sf t (Ret (Err e)) (okp Q) w.
Proof using. by apply (safe_ret live real Inv guar t (Err e)). Qed.

Lemma safe_ok {A} t a (Q : A -> gworld -> Prop) w : stable Inv guar t (Q a) -> Q a w -> sf t (Ret (Ok a)) (okp Q) w.
Proof using. intros Hs HQ. by apply (safe_ret live real Inv guar t (Ok a)). Qed.

(** A read whose error ends the operation. *)
Lemma safe_read {R A} t (I : gworld -> Prop) doing (f : S -> result store_error R) (g : R -> prog (world S) (result persist_error A)) Q w :
  stable Inv guar t I -> I w ->
  (forall w x, I w -> Inv w -> f (backend (real w)) = Ok x -> sf t (g x) (okp Q) w) ->
  sf t (try x <- calling doing (reading f); g x) (okp Q) w.
Proof using.
  intros Hst HI Hg. apply (safe_reading t I f); [done|done|].
  intros w1 HI1 Hi1. destruct (f (backend (real w1))) as [x|e] eqn:E; [by apply Hg|]. apply safe_err.
Qed.

Lemma safe_try {A B} t (p : prog (world S) (result persist_error A)) (g : A -> prog (world S) (result persist_error B)) (Q : B -> gworld -> Prop) (Q1 : A -> gworld -> Prop) w :
  Inv w -> sf t p (okp Q1) w -> (forall a w, Inv w -> Q1 a w -> sf t (g a) (okp Q) w) ->
  sf t (try x <- p; g x) (okp Q) w.
Proof using.
  intros Hi Hp Hg. apply (safe_bind live real Inv guar); [done|].
  eapply (safe_weaken live real Inv guar); [|exact Hp].
  intros [a|e] w' Hi' H'; [by apply Hg|apply safe_err].
Qed.

Lemma safe_loop {A B} t (I : list B -> A -> gworld -> Prop) (l : list B) (acc : A)
    (body : B -> A -> prog (world S) (result persist_error A)) w :
  (forall acc, stable Inv guar t (I [] acc)) ->
  (forall x l acc w, Inv w -> I (x :: l) acc w -> sf t (body x acc) (okp (I l)) w) ->
  Inv w -> I l acc w -> sf t (foreach l acc body) (okp (I [])) w.
Proof using.
  intros Hs Hb Hi HI. apply (safe_foreach live real Inv guar t I); [by apply okp_stable| |done|done|done].
  intros x l' acc' w' Hi' HI'. eapply (safe_weaken live real Inv guar); [|by apply Hb]. by intros [a|e].
Qed.

Lemma bumping_impl rs t sv next (P Q : string -> option Blob -> Prop) own (l l' : list string) w :
  (forall k, is_row k -> P k (rows w !! k) -> Q k (rows w !! k)) -> l ⊆ l' ->
  bumping rs t sv next P own l w -> bumping rs t sv next Q own l' w.
Proof using.
  intros HPQ Hl [? ? ? Hv Hd]. split; [done|done|done| |].
  - by eapply view_ok_impl.
  - intros k Hk. destruct (Hd k Hk). auto.
Qed.

(** Thread [t] changes a row of a section it will renew. *)
Lemma bumping_row_gen rs rs' t sv next next' (P P' : string -> option Blob -> Prop) own l l' k ob w w' :
  guar t w w' -> Inv w' -> cache t w' = cache t w -> reserved w' t = rs' -> rows w' = partial_alter (fun _ => ob) k (rows w) ->
  dirty w' = set_dirty t (dirty w t ∪ {[k]}) w -> is_row k -> l ⊆ l' -> sec_of k ∈ l' ->
  (forall k', is_row k' -> k' <> k -> P k' (rows w !! k') -> P' k' (rows w !! k')) -> P' k ob -> cache_valid next' w' ->
  bumping rs t sv next P own l w -> bumping rs' t sv next' P' own l' w'.
Proof using good.
  intros Hg Hi Ec Er Hr Hd Hk Hl Hks HPP Hob Hv' [Hc Hres Hv Hw Hdk]. split.
  - unfold cached. by rewrite Ec.
  - done.
  - done.
  - intros sec Hsec. destruct (Hw sec Hsec) as [Hval Htr]. split; [by eapply valid_revision_guar|].
    intros Hst k' Hk' Hks'.
    assert (Est : rev_at w sec = revision_in (own ∪ revisions sv) sec).
    { rewrite <- Hst. unfold rev_at. rewrite Hr, lookup_partial_alter_ne; [done|]. by apply row_ne_revision. }
    destruct (decide (k' = k)) as [->|Hne]; [left; by rewrite Hr, lookup_partial_alter_eq|].
    destruct (Htr Est k' Hk' Hks') as [HP|(t' & Ht' & Hd')].
    + left. rewrite Hr, lookup_partial_alter_ne by done. by apply HPP.
    + right. exists t'. split; [done|]. by rewrite Hd, set_dirty_other.
  - intros k'. rewrite Hd, set_dirty_at, elem_of_union, elem_of_singleton. intros [Hk'| ->]; [|done].
    destruct (Hdk k' Hk'). auto.
Qed.

Lemma bumping_row rs t sv next next' (P P' : string -> option Blob -> Prop) own l l' k ob w w' :
  changes t w w' -> rows w' = partial_alter (fun _ => ob) k (rows w) ->
  dirty w' = set_dirty t (dirty w t ∪ {[k]}) w -> is_row k -> l ⊆ l' -> sec_of k ∈ l' ->
  (forall k', is_row k' -> k' <> k -> P k' (rows w !! k') -> P' k' (rows w !! k')) -> P' k ob -> cache_valid next' w' ->
  bumping rs t sv next P own l w -> bumping rs t sv next' P' own l' w'.
Proof using good.
  intros (Hg & Hi & Ec & Er) Hr Hd Hk Hl Hks HPP Hob Hv Hb.
  eapply bumping_row_gen; try done. rewrite Er. apply Hb.
Qed.

Lemma bumping_only rs t sv next P own l : stable Inv guar t (bumping rs t sv next P own l).
Proof using good. apply bumping_stable. Qed.

Lemma plain_name dir name : plain_key dir = true -> free "/" name = true ->
  cleanKey (below_state prefix dir name) = Ok (below_state prefix dir name) -> plain_key name = true.
Proof using good.
  intros Hd Hf [E|Hp]%cleanKey_ok.
  - exfalso. unfold below_state in E. rewrite stateKey_nil in E by done.
    assert (Hs := f_equal (split "/") E). rewrite append_assoc in Hs. change ("/state" +:+ ?x) with (String "/" ("state" +:+ x)) in Hs.
    rewrite split_app in Hs. change (split "/" ".") with ["."] in Hs.
    assert (Hpre := good). unfold plain_key in Hpre. destruct (split "/" prefix) as [|c l] eqn:Ep; [by destruct (split_not_nil "/" prefix)|].
    simpl in Hs. injection Hs as -> Hs. by apply app_eq_nil in Hs as [_ ?].
  - unfold plain_key in *. unfold below_state in Hp. rewrite split_app, split_app in Hp.
    rewrite forallb_app, forallb_app in Hp. by apply andb_true_iff in Hp as [_ [_ ?]%andb_true_iff].
Qed.

Lemma log_dir : logSection ∈ entityDirs /\ logSection ∈ allSections.
Proof using. split; by_decide. Qed.

Definition log_name (name : string) : Prop := plain_key name = true /\ cleanKey (stateKey prefix [logSection; name]) = Ok (stateKey prefix [logSection; name]).

Lemma log_row name : log_name name -> is_row (stateKey prefix [logSection; name]) /\
  sec_of (stateKey prefix [logSection; name]) = logSection /\ stateKey prefix [logSection; name] <> ckey.
Proof using good.
  intros [Hp Hk]. assert (E : stateKey prefix [logSection; name] = below_state prefix logSection name) by by apply stateKey_two.
  split_and!.
  - split; [done|]. exists logSection, name. split; [done|apply log_dir].
  - by rewrite E, sectionOf_below.
  - rewrite E. unfold counterKey. rewrite stateKey_two by done. intros E'. by apply below_inj in E'.
Qed.

Definition but_log (P : string -> option Blob -> Prop) (k : string) (b : option Blob) : Prop := sec_of k = logSection \/ P k b.

Lemma safe_trim t sv next P own w :
  Inv w -> bumping None t sv next P own [] w ->
  sf t (trimLogRows prefix rand_text) (okp (fun _ => bumping None t sv next P own [])) w.
Proof using good.
  intros Hi Hb. unfold trimLogRows.
  apply (safe_read t (bumping None t sv next P own [])); [apply bumping_only|done|].
  intros w1 names HI1 Hi1 Hnames.
  assert (Hlog : cleanKey (stateKey prefix [logSection]) = Ok (stateKey prefix [logSection])).
  { apply key_valid; [done|]. by repeat constructor. }
  assert (Hn : forall name, name ∈ names -> log_name name).
  { intros name Hin. destruct (list_law _ _ _ _ Hlog Hnames Hin) as [Hf [b Hc]].
    assert (Hck := held_clean _ _ _ (proj1 Hi1) Hc).
    change (stateKey prefix [logSection] +:+ "/" +:+ name) with (stateKey prefix [logSection] +:+ String "/" name) in Hck.
    rewrite stateKey_one in Hck by done. rewrite append_assoc in Hck.
    change (String "/" logSection +:+ String "/" name) with (String "/" (logSection +:+ String "/" name)) in Hck.
    assert (Hp : plain_key name = true) by by apply (plain_name logSection).
    split; [done|]. rewrite stateKey_two by done. exact Hck. }
  destruct (length names <=? maxLogEntries)%nat; [apply safe_ok; [apply bumping_only|done]|].
  assert (Hsub : forall name, name ∈ take (length names - maxLogEntries) names -> log_name name).
  { intros name Hin. apply Hn. by eapply elem_of_take in Hin as (i & Hin & _); eapply list_elem_of_lookup_2. }
  revert Hsub. generalize (take (length names - maxLogEntries) names) as ns. intros ns Hns.
  set (I := fun (l : list string) (_ : ()) w => bumping None t sv next (but_log P) own [logSection] w /\ forall name, name ∈ l -> log_name name).
  eapply (safe_try t _ _ _ (I [])); [done| |].
  - apply (safe_loop t I).
    + intros acc w2 w3 Hrel [Hb2 Hl]. split; [by eapply bumping_stable|done].
    + intros name l acc w2 Hi2 [Hb2 Hl]. destruct (log_row name) as (Hrow & Hsec & Hne); [apply Hl; by left|].
      assert (Hpost : forall a, stable Inv guar t (I l a)).
      { intros acc' w3 w4 Hrel [Hb3 Hl3]. split; [by eapply bumping_stable|done]. }
      apply (safe_delete_row t (bumping None t sv next (but_log P) own [logSection])); [apply bumping_only|done|done|done|].
      intros w3 w4 HI3 Hi3 Hi4 (Hch & Hr & Hd). apply safe_ok; [done|]. split; [|intros; apply Hl; by right].
      eapply bumping_row; [exact Hch|exact Hr|exact Hd|done|done| | | | |exact HI3].
      * rewrite Hsec. by left.
      * auto.
      * by left.
      * eapply cache_valid_guar; [apply Hch|apply HI3].
    + done.
    + split; [|done]. eapply bumping_impl; [|apply list_subseteq_nil|exact HI1]. by right.
  - intros acc w2 Hi2 [Hb2 _].
    apply (safe_bump_write None t sv next (but_log P) P own logSection []); [|apply log_dir|done|].
    + intros k b _ Hs [Hl|HP]; done.
    + intros w3 _ Hi3 Hb3. apply safe_ok; [apply bumping_only|done].
Qed.

(** ** Saving *)

(** What currentEntities computes: entities, and of the counter what the cache
    and the wallet's StatusListCounter say. *)
Definition good_entities (entities : server -> gmap string string) : Prop :=
  forall sv, (forall k, is_Some (entities sv !! k) -> is_row k) /\ entities sv !! ckey = counter_entity prefix sv.

(** A save only ever changes the counter to zero. *)
Definition counter_kept (sv : server) (current : gmap string string) : Prop :=
  forall d, current !! ckey = Some d -> d = "0" \/ Data <$> persisted sv !! ckey = Some d.

Lemma good_counter entities sv : good_entities entities -> counter_kept sv (entities sv).
Proof using.
  intros Hg d. destruct (Hg sv) as [_ ->]. unfold counter_entity. destruct (persisted sv !! ckey) as [b|]; [|done].
  intros [= <-]. simpl. destruct (_ =? 0); auto.
Qed.

Lemma ckey_row : is_row ckey.
Proof using good.
  split; [by apply key_valid; [|repeat constructor]|]. exists statusCounterEntity, "value".
  split; [by apply stateKey_two|by left].
Qed.

Lemma ckey_section : sec_of ckey = statusSection.
Proof using good. unfold counterKey. rewrite stateKey_two by done. by rewrite sectionOf_below. Qed.

Definition server_ok (t : string) (sv : server) (w : gworld) : Prop :=
  cache_valid (persisted sv) w /\ view_ok t (revisions sv) (is_view (persisted sv)) w.

(** Between two operations. *)
Definition idle (t : string) (w : gworld) : Prop :=
  dirty w t = ∅ /\ reserved w t = None /\ server_ok t (cache t w) w.

Lemma idle_stable t : stable Inv guar t (idle t).
Proof using.
  intros w w' (Hi & Hi' & t' & Ht' & Hg) (Hd & Hr & Hv & Hw). unfold idle.
  rewrite (g_dirty _ _ _ Hg t), (g_reserved _ _ _ Hg t), (g_cache _ _ _ Hg t) by done.
  split; [done|split; [done|split]]; [by eapply cache_valid_guar|by eapply view_ok_guar].
Qed.

Lemma idle_bumping t w : idle t w -> bumping None t (cache t w) (persisted (cache t w)) (is_view (persisted (cache t w))) ∅ [] w.
Proof using.
  intros (Hd & Hr & Hv & Hw). split; [done|done|done| |].
  - by rewrite map_empty_union.
  - intros k. rewrite Hd. by intros ?%not_elem_of_empty.
Qed.

(** The server installs the rows and revisions it has worked out. *)
Lemma bumping_install t sv next own w w' :
  bumping None t sv next (is_view next) own [] w ->
  backend (real w') = backend (real w) -> dirty w' = dirty w -> reserved w' = reserved w ->
  persisted (cache t w') = next -> revisions (cache t w') = own ∪ revisions sv -> idle t w'.
Proof using.
  intros [Hc Hres Hv Hw Hd] Eb Ed Er Hn Ho. split; [|split; [by rewrite Er|split]].
  - apply set_eq. intros k. rewrite Ed. split; [|by intros ?%not_elem_of_empty].
    intros Hk. by destruct (Hd k Hk) as [_ ?%not_elem_of_nil].
  - rewrite Hn. intros k b Hk. destruct (Hv k b Hk) as [Hrow Hvb]. split; [done|].
    unfold valid_blob, was_issued, rows in *. by rewrite Eb.
  - rewrite Hn, Ho. by eapply view_ok_local.
Qed.

Definition overlay (next snapshot : stateSnapshot) : string -> option Blob -> Prop := is_view (next ∪ snapshot).

Definition sections_only (touched : gmap string ()) : Prop := forall s, is_Some (touched !! s) -> s ∈ allSections.

Lemma sections_insert k touched : is_row k -> sections_only touched -> sections_only (<[sec_of k := ()]> touched).
Proof using good.
  intros Hk Ht s. destruct (decide (s = sec_of k)) as [->|Hne]; [by intros _; apply row_section|].
  rewrite lookup_insert_ne by done. apply Ht.
Qed.

Record saving (t : string) (sv : server) (current : gmap string string) (l : list (string * string)) (acc : written) (w : gworld) : Prop := {
  s_bump : bumping None t sv (fst acc) (overlay (fst acc) (persisted sv)) ∅ (elements (dom (snd acc))) w;
  s_snap : cache_valid (persisted sv) w;
  s_dom : forall k, is_Some (fst acc !! k) <-> is_Some (current !! k) /\ k ∉ l.*1;
  s_nodup : NoDup l.*1;
  s_current : forall k d, (k, d) ∈ l -> current !! k = Some d;
  s_touched : sections_only (snd acc) }.

Lemma saving_stable t sv current l acc : stable Inv guar t (saving t sv current l acc).
Proof using.
  intros w w' Hr [Hb Hs Hd Hn Hc Ht]. split; [by eapply bumping_stable| |done|done|done|done].
  destruct Hr as (_ & _ & t' & _ & Hg). by eapply cache_valid_guar.
Qed.

Lemma bumping_next t sv next next' P own l w :
  cache_valid next' w -> bumping None t sv next P own l w -> bumping None t sv next' P own l w.
Proof using. intros Hv [? ? _ ? ?]. by split. Qed.

Lemma cache_valid_insert k b m w : is_row k -> valid_blob k b w -> cache_valid m w -> cache_valid (<[k := b]> m) w.
Proof using. intros Hr Hb Hm k' b'. rewrite lookup_insert_Some. intros [[<- <-]|[_ H']]; [done|by apply Hm]. Qed.

Lemma overlay_step next snapshot k b k' ob :
  k' <> k -> overlay next snapshot k' ob -> overlay (<[k := b]> next) snapshot k' ob.
Proof using. unfold overlay, is_view. intros Hne <-. by rewrite !lookup_union, lookup_insert_ne by done. Qed.

Lemma saving_dom_step (current : gmap string string) k d l (next : stateSnapshot) b :
  current !! k = Some d -> NoDup (k :: l) ->
  (forall k', is_Some (next !! k') <-> is_Some (current !! k') /\ k' ∉ k :: l) ->
  forall k', is_Some (<[k := b]> next !! k') <-> is_Some (current !! k') /\ k' ∉ l.
Proof using good.
  intros Hc Hnd%NoDup_cons Hd k'. destruct (decide (k' = k)) as [->|Hne].
  - rewrite lookup_insert_eq, Hc. split; [|done]. intros _. split; [done|by apply Hnd].
  - rewrite lookup_insert_ne, Hd by done. set_solver.
Qed.

(** An entity the store does not hold, or holds otherwise, is written. *)
Lemma safe_entity_write t sv current k d l next touched w :
  is_row k -> (k = ckey -> d = "0") -> saving t sv current ((k, d) :: l) (next, touched) w ->
  sf t (try st <- calling "writing wallet state" (putting prefix k d);
        Ret (Ok (<[k := mkBlob d st]> next, <[sec_of k := ()]> touched))) (okp (saving t sv current l)) w.
Proof using good.
  intros Hk Hck HI.
  apply (safe_put_row t (saving t sv current ((k, d) :: l) (next, touched))); [apply saving_stable|done|done|done|].
  intros w1 w2 st [Hb Hs Hd Hn Hc Ht] Hi1 Hi2 (Hch & Hr & Hdi & Hvb). apply safe_ok; [apply saving_stable|]. simpl in *.
  assert (Hg := proj1 Hch).
  split; simpl.
  - eapply bumping_row; [exact Hch|exact Hr|exact Hdi|done| | | | | |exact Hb].
    + intros s. rewrite !elem_of_elements, dom_insert_L. set_solver.
    + rewrite elem_of_elements, dom_insert_L. set_solver.
    + intros k' _ Hne. by apply overlay_step.
    + unfold overlay, is_view. by rewrite lookup_union, lookup_insert_eq; destruct (persisted sv !! k).
    + apply cache_valid_insert; [done|done|]. eapply cache_valid_guar; [done|apply Hb].
  - by eapply cache_valid_guar.
  - eapply saving_dom_step; [|exact Hn|exact Hd]. by apply Hc; left.
  - by apply NoDup_cons in Hn as [_ ?].
  - intros k' d' Hin. apply Hc. by right.
  - by apply sections_insert.
Qed.

Lemma safe_write_entity t sv current kd l acc w :
  (forall k, is_Some (current !! k) -> is_row k) ->
  counter_kept sv current -> Inv w -> saving t sv current (kd :: l) acc w ->
  sf t (write_entity prefix (persisted sv) kd acc) (okp (saving t sv current l)) w.
Proof using good.
  intros Hrows Hcounter Hi HI. destruct kd as [k d], acc as [next touched]. unfold write_entity.
  assert (Hcur : current !! k = Some d) by (apply (s_current _ _ _ _ _ _ HI); by left).
  assert (Hk : is_row k) by (apply Hrows; by rewrite Hcur).
  destruct (persisted sv !! k) as [blob|] eqn:Eb.
  - destruct (String.eqb_spec (Data blob) d) as [<-|Hne].
    + apply safe_ok; [apply saving_stable|]. destruct HI as [Hb Hs Hd Hn Hc Ht]. simpl in *. split; simpl.
      * eapply bumping_impl; [|done|eapply bumping_next; [|exact Hb]].
        -- intros k' _ HP. destruct (decide (k' = k)) as [->|Hne]; [|by apply overlay_step].
           assert (En : next !! k = None).
           { destruct (next !! k) eqn:E; [|done]. destruct (proj1 (Hd k)) as [_ Hnin]; [by rewrite E|]. destruct Hnin. by left. }
           unfold overlay, is_view in *. rewrite lookup_union, lookup_insert_eq, Eb. rewrite <- HP, lookup_union, En, Eb. done.
        -- apply cache_valid_insert; [done|by eapply Hs|apply Hb].
      * done.
      * by eapply saving_dom_step.
      * by apply NoDup_cons in Hn as [_ ?].
      * intros k' d' Hin. apply Hc. by right.
      * done.
    + apply safe_entity_write; [done| |done]. intros ->. destruct (Hcounter d Hcur) as [?|Ed]; [done|].
      rewrite Eb in Ed. by injection Ed.
  - apply safe_entity_write; [done| |done]. intros ->. destruct (Hcounter d Hcur) as [?|Ed]; [done|]. by rewrite Eb in Ed.
Qed.

(** The rows still to be deleted are as the snapshot has them. *)
Definition remaining (next snapshot : stateSnapshot) (l : list string) (k : string) (b : option Blob) : Prop :=
  b = match next !! k with Some x => Some x | None => if decide (k ∈ l) then snapshot !! k else None end.

Record deleting (t : string) (sv : server) (current : gmap string string) (next : stateSnapshot) (l : list string) (touched : gmap string ()) (w : gworld) : Prop := {
  d_bump : bumping None t sv next (remaining next (persisted sv) l) ∅ (elements (dom touched)) w;
  d_dom : forall k, is_Some (next !! k) <-> is_Some (current !! k);
  d_nodup : NoDup l;
  d_rows : forall k, k ∈ l -> is_row k /\ (current !! k = None -> k <> ckey);
  d_touched : sections_only touched }.

Lemma deleting_stable t sv current next l touched : stable Inv guar t (deleting t sv current next l touched).
Proof using. intros w w' Hr [Hb Hd Hn Hk Ht]. split; [by eapply bumping_stable|done|done|done|done]. Qed.

Lemma remaining_other (next snapshot : stateSnapshot) k l k' ob :
  k' <> k -> remaining next snapshot (k :: l) k' ob -> remaining next snapshot l k' ob.
Proof using.
  unfold remaining. intros Hne ->. destruct (next !! k'); [done|].
  destruct (decide (k' ∈ k :: l)) as [Hin|Hnin]; destruct (decide (k' ∈ l)) as [Hin'|Hnin']; try done.
  - by apply elem_of_cons in Hin as [?|?].
  - destruct Hnin. by right.
Qed.

Lemma safe_delete_entity t sv current next k l touched w :
  Inv w -> deleting t sv current next (k :: l) touched w ->
  sf t (delete_entity prefix current k touched) (okp (deleting t sv current next l)) w.
Proof using good.
  intros Hi HI. unfold delete_entity. destruct (current !! k) as [d|] eqn:Ec.
  - apply safe_ok; [apply deleting_stable|]. destruct HI as [Hb Hd Hn Hk Ht]. split; [|done| | |done].
    + eapply bumping_impl; [|done|exact Hb]. intros k' _ HP.
      destruct (decide (k' = k)) as [->|Hne]; [|by eapply remaining_other].
      destruct (proj2 (Hd k)) as [b Hb']; [by rewrite Ec|]. unfold remaining in *. by rewrite Hb' in HP |- *.
    + by apply NoDup_cons in Hn as [_ ?].
    + intros k' Hin. apply Hk. by right.
  - destruct (d_rows _ _ _ _ _ _ _ HI k) as [Hrow Hck]; [by left|]. specialize (Hck Ec).
    apply (safe_delete_row t (deleting t sv current next (k :: l) touched)); [apply deleting_stable|done|done|done|].
    intros w1 w2 [Hb Hd Hn Hk Ht] Hi1 Hi2 (Hch & Hr & Hdi). apply safe_ok; [apply deleting_stable|].
    split; [|done| | |by apply sections_insert].
    + eapply bumping_row; [exact Hch|exact Hr|exact Hdi|done| | | | | |exact Hb].
      * intros s. rewrite !elem_of_elements, dom_insert_L. set_solver.
      * rewrite elem_of_elements, dom_insert_L. set_solver.
      * intros k' _ Hne. by apply remaining_other.
      * unfold remaining. destruct (next !! k) eqn:En.
        -- destruct (proj1 (Hd k)) as [d Hd']; [by rewrite En|congruence].
        -- rewrite decide_False; [done|]. by apply NoDup_cons in Hn as [? _].
      * eapply cache_valid_guar; [apply Hch|apply Hb].
    + by apply NoDup_cons in Hn as [_ ?].
    + intros k' Hin. apply Hk. by right.
Qed.

(** The revisions still to be renewed are those of [l]. *)
Record renewing (t : string) (sv : server) (next : stateSnapshot) (l : list string) (own : gmap string Stamp) (w : gworld) : Prop := {
  r_bump : bumping None t sv next (is_view next) own l w;
  r_own : forall s, s ∈ l -> own !! s = None /\ s ∈ allSections;
  r_nodup : NoDup l }.

Lemma renewing_stable t sv next l own : stable Inv guar t (renewing t sv next l own).
Proof using. intros w w' Hr [Hb Ho Hn]. split; [by eapply bumping_stable|done|done]. Qed.

Lemma safe_renew_one t sv next s l own w :
  Inv w -> renewing t sv next (s :: l) own w ->
  sf t (renew_revision prefix rand_text (revisions sv) s own) (okp (renewing t sv next l)) w.
Proof using good.
  intros Hi [Hb Ho Hn]. destruct (Ho s) as [Hos Hs]; [by left|]. apply NoDup_cons in Hn as [Hnin Hn].
  eapply (safe_weaken live real Inv guar); [|by apply (safe_renew_revision t sv next (is_view next) own s l)].
  intros [own'|e] w' _; [|done]. intros [Hb' Hsame]. split; [done| |done].
  intros s' Hs'. rewrite Hsame; [apply Ho; by right|]. intros ->. done.
Qed.

Lemma safe_trim_periodically t sv next P own w :
  Inv w -> bumping None t sv next P own [] w ->
  sf t (trimLogPeriodically prefix rand_text t) (okp (fun _ => bumping None t sv next P own [])) w.
Proof using good.
  intros Hi Hb. unfold trimLogPeriodically, count_save.
  eapply (safe_cached t (bumping None t sv next P own []) _ (fun sv => mkServer (persisted sv) (persisted_id sv) (revisions sv) (StatusListCounter sv) (wrap64 (saves sv + 1)))); [apply bumping_only|done|done|].
  intros w1 w2 HI Hi1 Hi2 Hg Eb Ed Er Ec. simpl.
  assert (HI2 : bumping None t sv next P own [] w2).
  { eapply (bumping_local _ _ _ _ _ _ _ w1); [done|done|done| |done]. unfold cached. rewrite Ec. exact (b_cache _ _ _ _ _ _ _ _ HI). }
  destruct (Z.rem _ _ =? 0); [by apply safe_trim|]. by apply safe_ok; [apply bumping_only|].
Qed.

Lemma safe_save t entities w :
  good_entities entities -> Inv w -> idle t w ->
  sf t (saveEntities prefix rand_text t entities) (okp (fun _ => idle t)) w.
Proof using good.
  intros Hent Hi Hidle. unfold saveEntities.
  apply (safe_get_server t (idle t)); [apply idle_stable|done|]. clear w Hi Hidle. intros w Hidle Hi.
  set (sv := cache t w). assert (Hcnt := good_counter entities sv Hent). destruct (Hent sv) as [Hrows Hkeep]. set (current := entities sv) in *.
  assert (Hsnap : cache_valid (persisted sv) w) by apply Hidle.
  eapply (safe_try t _ _ _ (saving t sv current [])); [done| |].
  - apply (safe_loop t (saving t sv current)); [intros; apply saving_stable| |done|].
    + intros kd l acc w1 Hi1 HI1. by apply safe_write_entity.
    + split; simpl.
      * eapply bumping_impl; [|done|eapply bumping_next; [|apply (idle_bumping t w Hidle)]]; [|done].
        intros k _. unfold overlay. by rewrite map_empty_union.
      * done.
      * intros k. rewrite lookup_empty, keys_of. split; [by intros [? ?]|]. intros [? ?]. done.
      * apply keys_nodup.
      * intros k d. apply entries_of.
      * by intros s [? ?].
  - intros [next touched] w1 Hi1 [Hb _ Hd _ _ Ht]. simpl in *.
    eapply (safe_try t _ _ _ (deleting t sv current next [])); [done| |].
    + apply (safe_loop t (deleting t sv current next)); [intros; apply deleting_stable| |done|].
      * intros k l acc w2 Hi2 HI2. by apply safe_delete_entity.
      * split; [|intros k; rewrite Hd; split; [by intros [? _]|by intros ?; split; [|intros ?%not_elem_of_nil]]|apply keys_nodup| |done].
        -- eapply bumping_impl; [|done|exact Hb]. intros k _. unfold overlay, is_view, remaining. rewrite lookup_union.
           intros <-. destruct (next !! k); [by destruct (persisted sv !! k)|].
           destruct (decide (k ∈ (fst <$> order (persisted sv)))) as [Hin|Hnin]; [by rewrite left_id_L by apply _|].
           rewrite keys_of in Hnin. by destruct (persisted sv !! k); [destruct Hnin|].
        -- intros k [b Hk]%keys_of. split; [by eapply Hsnap|]. intros Hn ->. unfold counter_entity in Hkeep. rewrite Hk in Hkeep. congruence.
    + clear w1 Hi1 Hb. intros touched' w2 Hi2 [Hb Hd' _ _ Ht'].
      eapply (safe_try t _ _ _ (renewing t sv next [])); [done| |].
      * apply (safe_loop t (renewing t sv next)); [intros; apply renewing_stable| |done|].
        -- intros s l own w3 Hi3 HI3. by apply safe_renew_one.
        -- split; [|intros s Hs%keys_of; split; [done|by apply Ht']|apply keys_nodup].
           eapply bumping_impl; [| |exact Hb].
           ++ intros k _. unfold remaining, is_view. intros ->. destruct (next !! k); [done|].
              by rewrite decide_False by apply not_elem_of_nil.
           ++ intros s. rewrite elem_of_elements, elem_of_dom. by rewrite keys_of.
      * intros own w3 Hi3 [Hb3 _ _].
        eapply (safe_try t (trimLogPeriodically prefix rand_text t) _ _ (fun _ => bumping None t sv next (is_view next) own [])); [done|by apply safe_trim_periodically|].
        intros _ w4 Hi4 Hb4.
        eapply (safe_cached t (bumping None t sv next (is_view next) own []) _ (saved_server (persisted_id sv) next own)); [apply bumping_only|done|done|].
        intros w5 w6 HI5 Hi5 Hi6 Hg Eb Ed Er Ec. apply safe_ok; [apply idle_stable|].
        destruct (b_cache _ _ _ _ _ _ _ _ HI5) as (_ & Eid & Erev).
        unfold saved_server in Ec. rewrite bool_decide_true in Ec by done.
        eapply bumping_install; [exact HI5|done|done|done|by rewrite Ec|by rewrite Ec; simpl; rewrite Erev].
Qed.

Lemma safe_reset t w :
  Inv w -> idle t w -> sf t (do _ <- ResetToBaseline t; Ret true) (fun ok w => ok = true -> idle t w) w.
Proof using.
  intros Hi Hidle. unfold ResetToBaseline, locked.
  eapply (safe_cached t (idle t) _ reset_server); [apply idle_stable|done|done|].
  intros w1 w2 (Hd & Hr & Hv & Hw) Hi1 Hi2 _ Eb Ed Er Ec. apply (safe_ret live real Inv guar).
  { intros w3 w4 Hrel HI Hok. eapply idle_stable; [done|by apply HI]. }
  intros _. unfold idle, server_ok. rewrite Ed, Er, Ec. simpl. split; [done|split; [done|split]].
  - intros k b Hk. destruct (Hv k b Hk) as [Hrow Hvb]. split; [done|]. unfold valid_blob, was_issued, rows in *. by rewrite Eb.
  - by eapply view_ok_local.
Qed.

(** ** Appending to the log *)

Lemma safe_reading_then {A B R} t (I : gworld -> Prop) (f : S -> R) (h : R -> A) (g : A -> prog (world S) B) Q w :
  stable Inv guar t I -> I w ->
  (forall w, I w -> Inv w -> sf t (g (h (f (backend (real w))))) Q w) -> sf t (do a <- (do r <- reading f; Ret (h r)); g a) Q w.
Proof using.
  intros Hst HI Hg. eapply (safe_do live real Inv guar t I); [done|done|].
  intros w1 HI1 Hi1 _. exists w1. split; [done|split; [by apply guar_refl|split; [done|]]]. by apply Hg.
Qed.

Lemma own_log own revs : same_but logSection ∅ own ->
  own ∪ revs = match own !! logSection with Some st => <[logSection := st]> revs | None => revs end.
Proof using.
  intros Ho. apply map_eq. intros s. rewrite lookup_union. destruct (decide (s = logSection)) as [->|Hne].
  - destruct (own !! logSection) as [st|] eqn:E; [by rewrite lookup_insert_eq; destruct (revs !! logSection)|by rewrite left_id_L by apply _].
  - rewrite (Ho s Hne), lookup_empty, left_id_L by apply _. destruct (own !! logSection); [by rewrite lookup_insert_ne|done].
Qed.

(** What the server knows after it has written a row. *)
Lemma idle_row_gen rs t w w' k b :
  guar t w w' -> Inv w' -> cache t w' = cache t w -> reserved w' t = rs -> rows w' = <[k := b]> (rows w) ->
  dirty w' = set_dirty t (dirty w t ∪ {[k]}) w -> valid_blob k b w' -> is_row k -> idle t w ->
  bumping rs t (cache t w) (<[k := b]> (persisted (cache t w))) (is_view (<[k := b]> (persisted (cache t w)))) ∅ [sec_of k] w'.
Proof using good.
  intros Hg Hi Ec Er Hr Hd Hvb Hk Hidle. assert (Hb := idle_bumping t w Hidle).
  eapply bumping_row_gen; [exact Hg|done|done|done|exact Hr|exact Hd|done|apply list_subseteq_nil|by left| | | |exact Hb].
  - intros k' _ Hne. unfold is_view. intros <-. by rewrite lookup_insert_ne.
  - unfold is_view. by rewrite lookup_insert_eq.
  - apply cache_valid_insert; [done|done|]. by eapply cache_valid_guar; [|apply Hb].
Qed.

Lemma idle_row_written t w w' k data st :
  row_written t k data st w w' -> is_row k -> idle t w ->
  bumping None t (cache t w) (<[k := mkBlob data st]> (persisted (cache t w)))
    (is_view (<[k := mkBlob data st]> (persisted (cache t w)))) ∅ [sec_of k] w'.
Proof using good.
  intros ((Hg & Hi & Ec & Er) & Hr & Hd & Hvb) Hk Hidle. apply idle_row_gen; try done. rewrite Er. apply Hidle.
Qed.

Lemma safe_append t parse name data at_ w :
  log_name name -> Inv w -> idle t w ->
  sf t (appendLogEntry prefix rand_text parse t name data at_) (okp (fun _ => idle t)) w.
Proof using good.
  intros Hn Hi Hidle. destruct (log_row name Hn) as (Hrow & Hsec & Hck). unfold appendLogEntry, loadLogCleanMarker.
  apply (safe_reading_then t (idle t)); [apply idle_stable|done|]. clear w Hi Hidle. intros w Hidle Hi.
  destruct (after _ at_); [apply safe_ok; [apply idle_stable|done]|].
  apply (safe_write_row t (idle t)); [apply idle_stable|done|done|done|]. clear w Hi Hidle.
  intros w1 w2 st Hidle Hi1 Hi2 Hw. set (sv := cache t w1). set (next := <[stateKey prefix [logSection; name] := mkBlob data st]> (persisted sv)).
  assert (Hb : bumping None t sv next (is_view next) ∅ [logSection] w2).
  { rewrite <- Hsec. by apply idle_row_written. }
  apply (safe_get_server t (bumping None t sv next (is_view next) ∅ [logSection])); [apply bumping_stable|done|].
  clear w2 Hi2 Hw Hb. intros w2 Hb Hi2. destruct (b_cache _ _ _ _ _ _ _ _ Hb) as (_ & _ & ->).
  eapply (safe_try t _ _ _ (fun own w => bumping None t sv next (is_view next) own [] w /\ same_but logSection ∅ own)); [done| |].
  - apply safe_renew_revision; [apply log_dir|done|done].
  - clear w2 Hi2 Hb. intros own w2 Hi2 [Hb Hsame].
    eapply (safe_try t (trimLogPeriodically prefix rand_text t) _ _ (fun _ => bumping None t sv next (is_view next) own []));
      [done|by apply safe_trim_periodically|].
    clear w2 Hi2 Hb. intros _ w2 Hi2 Hb.
    eapply (safe_cached t (bumping None t sv next (is_view next) own []) _ (appended_server _ (mkBlob data st) (own !! logSection)));
      [apply bumping_stable|done|done|].
    intros w3 w4 HI Hi3 Hi4 Hg Eb Ed Er Ec. apply safe_ok; [apply idle_stable|].
    destruct (b_cache _ _ _ _ _ _ _ _ HI) as (Ep & _ & Erev).
    eapply bumping_install; [exact HI|done|done|done|by rewrite Ec; simpl; rewrite Ep|].
    rewrite Ec. simpl. by rewrite Erev, own_log.
Qed.

(** ** Allocating *)

(** While the counter row has the version [expected], it holds [next]. *)
Definition knows (next : Z) (expected : string) (w : gworld) : Prop :=
  (expected = "" /\ next = 0) \/
  (was_issued w expected /\ forall b, rows w !! ckey = Some b -> Version (BStamp b) = expected -> atoi (Data b) = Some next).

Lemma knows_guar t next expected w w' : guar t w w' -> knows next expected w -> knows next expected w'.
Proof using.
  intros Hg [?|[Hi Hk]]; [by left|right]. split; [by eapply g_issued|]. intros b Hb Ev.
  destruct (g_fresh _ _ _ Hg _ _ Hb) as [Hb'|Hn]; [by apply Hk|]. by rewrite Ev in Hn.
Qed.

Lemma knows_counter next expected w :
  Inv w -> knows next expected w -> version_at (rows w) ckey = expected -> counter_value (rows w) = Some next.
Proof using.
  unfold version_at, counter_value. intros Hi Hk. destruct (rows w !! ckey) as [b|] eqn:Eb; intros E.
  - destruct Hk as [[-> ->]|[_ Hk]]; [|by apply Hk]. exfalso.
    apply (issued_not_empty (backend (real w))); [apply Hi|]. rewrite <- E. eapply held_issued; [apply Hi|exact Eb].
  - destruct Hk as [[_ ->]|[Hi' _]]; [done|]. exfalso. subst expected. eapply issued_not_empty; [apply Hi|exact Hi'].
Qed.

(** Thread [t] takes [next] from the counter. *)
Lemma counter_step t w w' next data st :
  Inv w -> counter_value (rows w) = Some next -> next < max_int64 -> atoi data = Some (next + 1) ->
  reserved w t = None ->
  store_wf (backend (real w')) -> (forall v, was_issued w v -> was_issued w' v) ->
  rows w' = <[ckey := mkBlob data st]> (rows w) -> ~ was_issued w (Version st) ->
  servers (real w') = servers (real w) -> past (real w') = past (real w) ->
  dirty w' = set_dirty t (dirty w t ∪ {[ckey]}) w ->
  reserved w' = (fun t' => if decide (t' = t) then Some (era_of w, next) else reserved w t') ->
  guar t w w' /\ Inv w' /\ cache t w' = cache t w.
Proof using good.
  intros Hi Hcv Hmax Hat Hres Hw Hiss Hr Hob Hs Hgr Hd Hre.
  assert (Hc : forall t', cache t' w' = cache t' w) by (intros t'; unfold cache, server_of; by rewrite Hs).
  assert (Hne : forall k', k' <> ckey -> rows w' !! k' = rows w !! k') by (intros k' Hn; by rewrite Hr, lookup_insert_ne).
  destruct Hi as (Hwf & (n & Hn & Hn0 & Hgrant & Hresv) & Hnd & Hdis & Huniq).
  assert (n = next) as -> by congruence.
  split; [|split; [|apply Hc]].
  - split; [done| | | | | |by auto|].
    + intros k' b. rewrite Hr, lookup_insert_Some. intros [[<- <-]|[_ Hb]]; [by right|by left].
    + intros k' _ Hch. destruct (decide (k' = ckey)) as [->|Hn']; [|by destruct Hch; apply Hne].
      rewrite Hd, set_dirty_at. set_solver.
    + intros sec Hsec. rewrite Hne; [done|]. intros E. eapply (row_ne_revision ckey sec); [apply ckey_row|done|done].
    + intros k' _ Hk' Hn'. destruct Hn'. rewrite Hd, set_dirty_at. set_solver.
    + intros t' Ht'. rewrite Hd. by apply set_dirty_other.
    + intros t' Ht'. rewrite Hre. by rewrite decide_False.
  - assert (Hnew : ~ taken_from (era_of w) next (era_of w, next)) by (intros (_ & _ & Hx); specialize (Hx eq_refl); simpl in Hx; lia).
    assert (Hlater : forall x, taken_from (era_of w) next x -> taken_from (era_of w) (next + 1) x).
    { intros x (He & Hx & Hlt). split; [done|split; [done|]]. intros E. specialize (Hlt E). lia. }
    assert (Egr : grants w' = grants w /\ era_of w' = era_of w) by (unfold grants, era_of; by rewrite Hgr).
    destruct Egr as [Egr Eera]. unfold Inv. rewrite Egr, Eera, Hre.
    split; [done|split; [|split; [done|split]]].
    + exists (next + 1). unfold counter_value. rewrite Hr, lookup_insert_eq. split; [done|]. split; [lia|].
      split; [intros x Hx; by apply Hlater, Hgrant|].
      intros t' x. case_decide; [|intros Hx; by eapply Hlater, Hresv]. intros [= <-]. split; [done|split; [simpl; lia|simpl; lia]].
    + intros t' x. case_decide; [|apply Hdis]. intros [= <-] Hx. by apply Hnew, Hgrant.
    + intros t1 t2 x. repeat case_decide; simplify_eq; [done| | |apply Huniq].
      * intros [= <-] Hx. by apply Hresv in Hx.
      * intros Hx [= <-]. by apply Hresv in Hx.
Qed.

(** Thread [t] returns the index it has taken. *)
Lemma grant_step t w w' taken :
  Inv w -> reserved w t = Some taken -> backend (real w') = backend (real w) ->
  past (real w') = mkHistory (era_of w) (grants w ++ [taken]) -> (forall t', t' <> t -> cache t' w' = cache t' w) ->
  dirty w' = dirty w -> reserved w' = (fun t' => if decide (t' = t) then None else reserved w t') ->
  guar t w w' /\ Inv w'.
Proof using.
  intros (Hwf & (n & Hn & Hn0 & Hgrant & Hresv) & Hnd & Hdis & Huniq) Hr Hb Hgr Hc Hd Hre.
  assert (Hrow : rows w' = rows w) by (unfold rows; by rewrite Hb). split.
  - split; [by unfold was_issued; rewrite Hb|rewrite Hrow; auto|by rewrite Hrow|by rewrite Hrow| |by rewrite Hd|done|].
    + intros k _ Hk Hk'. by rewrite Hd in Hk'.
    + intros t' Ht'. rewrite Hre. by rewrite decide_False.
  - assert (Egr : grants w' = grants w ++ [taken] /\ era_of w' = era_of w) by (unfold grants, era_of; by rewrite Hgr).
    destruct Egr as [Egr Eera]. unfold Inv. rewrite Egr, Eera, Hre, Hrow, Hb.
    split; [done|split; [|split; [|split]]].
    + exists n. split; [done|split; [done|split]].
      * intros x. rewrite elem_of_app, list_elem_of_singleton. intros [Hx| ->]; [by apply Hgrant|by eapply Hresv].
      * intros t' x. case_decide; [done|]. apply Hresv.
    + apply NoDup_app. split; [done|split; [|apply NoDup_singleton]].
      intros x Hx Hx'%list_elem_of_singleton. subst x. by apply (Hdis t taken).
    + intros t' x. case_decide as Ht; [done|]. intros Hx. rewrite elem_of_app, list_elem_of_singleton.
      intros [Hx'| ->]; [by apply (Hdis t' x)|]. apply Ht. by apply (Huniq t' t taken).
    + intros t1 t2 x. repeat case_decide; try done. apply Huniq.
Qed.

Lemma idle_knows_stable t next expected : stable Inv guar t (fun w => idle t w /\ knows next expected w).
Proof using.
  intros w w' Hr [Hidle Hk]. split; [by eapply idle_stable|]. destruct Hr as (_ & _ & t' & _ & Hg). by eapply knows_guar.
Qed.

Lemma safe_grant t sv taken blob w :
  bumping (Some taken) t sv (<[ckey := blob]> (persisted sv)) (is_view (<[ckey := blob]> (persisted sv))) ∅ [] w ->
  sf t (do _ <- grant prefix t blob taken; Ret (Ok (Some (snd taken)))) (okp (fun _ => idle t)) w.
Proof using.
  set (I := bumping _ _ _ _ _ _ _). intros HI. eapply (safe_do live real Inv guar t I); [apply bumping_stable|done|].
  clear w HI. intros w HI Hi _.
  set (w' := mkG (let w1 := set_server t (allocated_server ckey blob (wrap64 (snd taken + 1)) (server_of t (real w))) (real w) in
                  mkWorld (backend w1) (servers w1) (drawn w1) (mkHistory (era (past w1)) (granted (past w1) ++ [taken])))
                 (dirty w) (fun t' => if decide (t' = t) then None else reserved w t')).
  assert (Hc : cache t w' = allocated_server ckey blob (wrap64 (snd taken + 1)) (cache t w)).
  { unfold cache, w', server_of. simpl. by rewrite lookup_insert_eq. }
  destruct (grant_step t w w' taken Hi) as [Hg Hi']; try done.
  - by apply HI.
  - intros t' Ht'. unfold cache, w', server_of. simpl. by rewrite lookup_insert_ne.
  - exists w'. split; [reflexivity|split; [done|split; [done|]]]. apply safe_ok; [apply idle_stable|].
    destruct HI as [(Ep & _ & Er) _ Hv Hw Hd]. split; [|split; [|split]].
    + apply set_eq. intros k. split; [|by intros ?%not_elem_of_empty]. intros Hk. by destruct (Hd k Hk) as [_ ?%not_elem_of_nil].
    + simpl. by rewrite decide_True.
    + rewrite Hc. simpl. rewrite Ep. exact Hv.
    + rewrite Hc. simpl. rewrite Ep, Er. rewrite map_empty_union in Hw. exact Hw.
Qed.

Lemma safe_swap t next expected w :
  Inv w -> idle t w -> knows next expected w ->
  sf t (swap_counter prefix rand_text t next expected) (okp (fun _ => idle t)) w.
Proof using good.
  intros Hi Hidle Hk. unfold swap_counter. set (data := itoa _).
  eapply (safe_do live real Inv guar t (fun w => idle t w /\ knows next expected w)); [apply idle_knows_stable|done|].
  clear w Hi Hidle Hk. intros w [Hidle Hk] Hi [Hroom Hmax]. rewrite writeif_law by apply ckey_row.
  destruct (String.eqb_spec (version_at (contents (backend (real w))) ckey) expected) as [E|Hne].
  - assert (Hcv := knows_counter _ _ _ Hi Hk E).
    destruct (write_law (backend (real w)) ckey data (proj1 ckey_row) (proj1 Hi) Hroom) as (s' & st & Ew & Ec & Hn & Hv & Hw').
    rewrite Ew. simpl.
    set (w2 := mkG (mkWorld s' (servers (real w)) (drawn (real w)) (past (real w)))
                   (set_dirty t (dirty w t ∪ {[ckey]}) w) (fun t' => if decide (t' = t) then Some (era_of w, next) else reserved w t')).
    assert (Hnext : 0 <= next < max_int64).
    { destruct Hi as (_ & (n & Hn1 & Hn2 & _) & _). assert (n = next) as -> by congruence. split; [done|by apply Hmax]. }
    assert (Hdata : atoi data = Some (next + 1)).
    { unfold data, wrap64, max_int64 in *. rewrite Z.mod_small by lia.
      replace (next + 1 + 2 ^ 63 - 2 ^ 63) with (next + 1) by lia. apply atoi_itoa. unfold max_int64. lia. }
    destruct (counter_step t w w2 next data st Hi Hcv) as (Hg & Hi2 & Hc); try done; [apply Hnext|apply Hidle|by intros v ?; apply Hv; left|].
    exists w2. split; [done|split; [done|split; [done|]]].
    assert (Hb : bumping (Some (era_of w, next)) t (cache t w) (<[ckey := mkBlob data st]> (persisted (cache t w)))
      (is_view (<[ckey := mkBlob data st]> (persisted (cache t w)))) ∅ [statusSection] w2).
    { rewrite <- ckey_section. apply idle_row_gen; try done; [| |by apply ckey_row].
      - simpl. by rewrite decide_True.
      - split; [by apply Hv; right|]. intros b' Hb' _. unfold rows in Hb'. simpl in Hb'. rewrite Ec, lookup_insert_eq in Hb'.
        by injection Hb'. }
    eapply (safe_bump_write (Some (era_of w, next)) t); [|by_decide|exact Hb|].
    + intros k b _ _ HP. exact HP.
    + intros w3 st' Hi3 Hb3. apply (safe_grant t (cache t w) (era_of w, next)). exact Hb3.
  - exists w. split; [by destruct w as [[] ? ?]|split; [by apply guar_refl|split; [done|]]]. simpl. apply safe_ok; [apply idle_stable|done].
Qed.

(** What a server knows of a row it has read the stamp of. *)
Definition idle_pinned (t k : string) (b : Blob) (w : gworld) : Prop := idle t w /\ valid_blob k b w.

Lemma idle_pinned_stable t k b : stable Inv guar t (idle_pinned t k b).
Proof using.
  intros w w' Hr [Hidle Hv]. split; [by eapply idle_stable|]. destruct Hr as (_ & _ & t' & _ & Hg). by eapply valid_blob_guar.
Qed.

Lemma safe_attempt t w :
  Inv w -> idle t w -> sf t (allocate_attempt prefix rand_text t) (okp (fun _ => idle t)) w.
Proof using good.
  intros Hi Hidle. unfold allocate_attempt. apply (safe_reading t (idle t)); [apply idle_stable|done|].
  clear w Hi Hidle. intros w Hidle Hi. rewrite stat_law by apply ckey_row.
  destruct (contents (backend (real w)) !! ckey) as [b|] eqn:Eb; [|apply safe_swap; [done|done|by left]].
  assert (Hp : idle_pinned t ckey b w).
  { split; [done|]. split; [eapply held_issued; [apply Hi|exact Eb]|]. intros b' Hb' _. unfold rows in Hb'. congruence. }
  apply (safe_reading t (idle_pinned t ckey b)); [apply idle_pinned_stable|done|].
  clear w Hidle Hi Eb Hp. intros w [Hidle [Hiss Hv]] Hi. rewrite read_law by apply ckey_row.
  destruct (contents (backend (real w)) !! ckey) as [b'|] eqn:Eb; [|simpl; apply safe_ok; [apply idle_stable|done]].
  destruct (atoi (Data b')) as [next|] eqn:Ea; [|apply safe_err].
  apply safe_swap; [done|done|]. right. split; [done|]. intros b1 Hb1 Ev. unfold rows in Hb1. rewrite Eb in Hb1. by injection Hb1 as <-.
Qed.

Lemma safe_allocate t n w :
  Inv w -> idle t w -> sf t (allocate_loop prefix rand_text n t) (okp (fun _ => idle t)) w.
Proof using good.
  revert w. induction n as [|n IH]; intros w Hi Hidle; [apply safe_err|].
  change (allocate_loop prefix rand_text (Datatypes.S n) t) with
    (try r <- allocate_attempt prefix rand_text t;
     match r with Some next => Ret (Ok next) | None => allocate_loop prefix rand_text n t end).
  eapply (safe_try t (allocate_attempt prefix rand_text t) _ _ (fun _ => idle t)); [done|by apply safe_attempt|].
  intros [next|] w' Hi' Hidle'; [by apply safe_ok; [apply idle_stable|]|by apply IH].
Qed.

(** ** Reloading *)

(** The stamps a server has read for the rows of a section. *)
Definition stamped (stamps : gmap string Stamp) (w : gworld) : Prop :=
  forall k st, stamps !! k = Some st -> is_row k /\ valid_stamp k st w.

Lemma stamped_guar t stamps w w' : guar t w w' -> stamped stamps w -> stamped stamps w'.
Proof using. intros Hg Hs k st Hk. destruct (Hs k st Hk). split; [done|by eapply valid_stamp_guar]. Qed.

Definition seen (stamps : gmap string Stamp) (k : string) (b : option Blob) : Prop := stamps !! k = BStamp <$> b.

(** The directories of a section. *)
Definition dirs (sec : string) : list string := if (sec =? statusSection)%string then [statusCounterEntity; sec] else [sec].

Lemma section_of_dir dir : dir ∈ entityDirs -> dir ∈ dirs (if (dir =? statusCounterEntity)%string then statusSection else dir).
Proof using.
  intros Hd. destruct (String.eqb_spec dir statusCounterEntity) as [->|Hne]; [by left|].
  unfold dirs. destruct (_ =? _)%string; [by right; left|by left].
Qed.

Lemma row_under dir k : dir ∈ entityDirs -> cleanKey k = Ok k -> has_prefix (under (stateKey prefix [dir])) k = true ->
  is_row k /\ sec_of k = if (dir =? statusCounterEntity)%string then statusSection else dir.
Proof using good.
  intros Hd Hk Hp. destruct (entityDirs_spec dir Hd) as (Hpl & Hf & _ & _).
  apply under_below in Hp as [rest ->]; [|done|done]. split; [|by apply sectionOf_below].
  split; [done|]. by exists dir, rest.
Qed.

Lemma row_dir k : is_row k -> exists dir, dir ∈ dirs (sec_of k) /\ has_prefix (under (stateKey prefix [dir])) k = true.
Proof using good.
  intros (_ & dir & rest & -> & Hd). destruct (entityDirs_spec dir Hd) as (Hpl & Hf & _). exists dir.
  rewrite sectionOf_below by done. split; [by apply section_of_dir|]. apply under_below; [done|done|by eexists].
Qed.

Lemma sections_are_dirs sec : sec ∈ allSections -> sec ∈ entityDirs /\ (sec =? statusCounterEntity)%string = false.
Proof using.
  intros Hs. split; [by right|]. unfold allSections in Hs.
  repeat (apply elem_of_cons in Hs as [->|Hs]; [done|]). by apply not_elem_of_nil in Hs.
Qed.

(** The stamps below a directory, as the store has them. *)
Lemma stamps_below dir w : Inv w -> dir ∈ entityDirs ->
  let stamps := BStamp <$> below (stateKey prefix [dir]) (rows w) in
  stamped stamps w /\
  (forall k st, stamps !! k = Some st -> has_prefix (under (stateKey prefix [dir])) k = true) /\
  (forall k, has_prefix (under (stateKey prefix [dir])) k = true -> stamps !! k = BStamp <$> rows w !! k).
Proof using good.
  intros Hi Hd stamps. split; [|split].
  - intros k st. unfold stamps, below. rewrite lookup_fmap, fmap_Some. intros (b & [Hb Hp]%map_lookup_filter_Some & ->).
    split; [eapply row_under; [done| |done]; eapply held_clean; [apply Hi|exact Hb]|].
    split; [eapply held_issued; [apply Hi|exact Hb]|]. intros b' Hb' _. congruence.
  - intros k st. unfold stamps, below. rewrite lookup_fmap, fmap_Some. by intros (b & [_ Hp]%map_lookup_filter_Some & _).
  - intros k Hp. unfold stamps, below. rewrite lookup_fmap. f_equal. rewrite map_lookup_filter.
    destruct (rows w !! k) as [b|]; simpl; [|done]. by rewrite option_guard_True.
Qed.

Definition section_stamps (sec : string) (stamps : gmap string Stamp) : Prop := forall k st, stamps !! k = Some st -> sec_of k = sec.

(** The stamps of a section, read below one or two directories. *)
Lemma safe_sectionStamps t sec st (F : gworld -> Prop) w :
  sec ∈ allSections -> stable Inv guar t F -> (forall w, F w -> valid_revision sec st w) -> F w ->
  sf t (sectionStamps prefix sec)
    (okp (fun stamps w => F w /\ stamped stamps w /\ section_stamps sec stamps /\ tracks t sec st (seen stamps) w)) w.
Proof using good.
  intros Hsec HF Hval HFw. destruct (sections_are_dirs sec Hsec) as [Hdir Hnc].
  assert (Hkey : forall dir, dir ∈ entityDirs -> cleanKey (stateKey prefix [dir]) = Ok (stateKey prefix [dir])).
  { intros dir Hd. apply key_valid; [done|]. destruct (entityDirs_spec dir Hd) as [Hp _]. repeat constructor. by rewrite Hp. }
  set (Post := fun (stamps : gmap string Stamp) w => F w /\ stamped stamps w /\ section_stamps sec stamps /\ tracks t sec st (seen stamps) w).
  assert (Hst : forall stamps, stable Inv guar t (Post stamps)).
  { intros stamps w1 w2 Hr (HF1 & Hs1 & Hsec1 & Ht1). assert (Hr' := Hr). destruct Hr' as (Hi1 & Hi2 & t' & Ht' & Hg).
    split; [by eapply HF|split; [by eapply stamped_guar|split; [done|]]].
    eapply tracks_guar; [done|done|done|done|by apply Hval|done]. }
  unfold sectionStamps. apply (safe_read t F); [done|done|].
  intros w1 stamps HF1 Hi1. rewrite stamps_law by by apply Hkey. intros [= <-].
  destruct (stamps_below sec w1 Hi1 Hdir) as (Hs1 & Hp1 & Hb1). change (contents (backend (real w1))) with (rows w1).
  set (stamps := BStamp <$> below (stateKey prefix [sec]) (rows w1)) in *.
  assert (Hsec1 : section_stamps sec stamps).
  { intros k s Hk. destruct (row_under sec k) as [_ ->]; [done|by apply Hs1 in Hk as [[? _] _]|by eapply Hp1|by rewrite Hnc]. }
  destruct (String.eqb_spec sec statusSection) as [->|Hne].
  - set (J := fun w => F w /\ stamped stamps w /\
      tracks t statusSection st (fun k b => has_prefix (under (stateKey prefix [statusSection])) k = true -> seen stamps k b) w).
    apply (safe_read t J).
    + intros w2 w3 Hr (HF2 & Hs2 & Ht2). assert (Hr' := Hr). destruct Hr' as (Hi2 & Hi3 & t' & Ht' & Hg).
      split; [by eapply HF|split; [by eapply stamped_guar|]]. eapply tracks_guar; [done|done|done|done|by apply Hval|done].
    + split; [done|split; [done|]]. intros _ k _ _. left. apply Hb1.
    + clear HFw. intros w2 counter (HF2 & Hs2 & Ht2) Hi2. rewrite stamps_law by (apply Hkey; by left). intros [= <-].
      destruct (stamps_below statusCounterEntity w2 Hi2) as (Hs3 & Hp3 & Hb3); [by left|]. 
      change (contents (backend (real w2))) with (rows w2).
      set (counter := BStamp <$> below (stateKey prefix [statusCounterEntity]) (rows w2)) in *.
      apply safe_ok; [apply Hst|]. split; [done|split; [|split]].
      * intros k s. rewrite lookup_union_Some_raw. intros [Hk|[_ Hk]]; [by apply Hs3|by apply Hs2].
      * intros k s. rewrite lookup_union_Some_raw. intros [Hk|[_ Hk]]; [|by eapply Hsec1].
        destruct (row_under statusCounterEntity k) as [_ ->]; [by left|by apply Hs3 in Hk as [[? _] _]|by eapply Hp3|done].
      * eapply tracks_impl; [|exact Ht2]. intros k Hk Hks HP. unfold seen in *. rewrite lookup_union.
        destruct (row_dir k Hk) as (dir & Hdirk & Hpre). rewrite Hks in Hdirk.
        apply elem_of_cons in Hdirk as [->|Hdirk].
        -- rewrite (Hb3 k Hpre). destruct (rows w2 !! k) as [b|] eqn:Eb; simpl; [by destruct (stamps !! k)|].
           destruct (stamps !! k) as [s0|] eqn:Es0; [|done]. exfalso.
           assert (E1 := Hp1 k s0 Es0). apply under_below in E1 as [r1 ->]; [|done|done].
           apply under_below in Hpre as [r2 E2]; [|done|done]. by apply below_inj in E2.
        -- apply list_elem_of_singleton in Hdirk as ->. rewrite (HP Hpre).
           destruct (counter !! k) as [s0|] eqn:Es0; [|by rewrite left_id_L by apply _]. exfalso.
           assert (E1 := Hp3 k s0 Es0). apply under_below in E1 as [r1 ->]; [|done|done].
           apply under_below in Hpre as [r2 E2]; [|done|done]. by apply below_inj in E2.
  - apply safe_ok; [apply Hst|]. split; [done|split; [done|split; [done|]]]. intros _ k Hk Hks. left.
    destruct (row_dir k Hk) as (dir & Hdirk & Hpre). rewrite Hks in Hdirk. unfold dirs in Hdirk.
    apply String.eqb_neq in Hne. rewrite Hne in Hdirk. apply list_elem_of_singleton in Hdirk as ->. by apply Hb1.
Qed.

(** A reload that has refreshed the sections of [done]. *)
Record loading (t : string) (sv : server) (revs : gmap string Stamp) (done : list string) (updated : stateSnapshot) (w : gworld) : Prop := {
  l_idle : idle t w;
  l_cache : cache t w = sv;
  l_valid : cache_valid updated w;
  l_revs : forall s, s ∈ allSections -> valid_revision s (revision_in revs (rk s)) w;
  l_done : forall s, s ∈ done -> s ∈ allSections /\ tracks t s (revision_in revs (rk s)) (is_view updated) w;
  l_rest : forall k, is_row k -> sec_of k ∉ done -> updated !! k = persisted sv !! k }.

Lemma loading_stable t sv revs done updated : stable Inv guar t (loading t sv revs done updated).
Proof using.
  intros w w' Hr [Hi Hc Hv Hrev Hd Hrest]. assert (Hr' := Hr). destruct Hr' as (Hi1 & Hi2 & t' & Ht' & Hg). split.
  - by eapply idle_stable.
  - by rewrite (g_cache _ _ _ Hg t).
  - by eapply cache_valid_guar.
  - intros s Hs. eapply valid_revision_guar; [done|by apply Hrev].
  - intros s Hs. destruct (Hd s Hs) as [Hall Htr]. split; [done|]. eapply tracks_guar; [done|done|done|done|by apply Hrev|done].
  - done.
Qed.

(** It now refreshes [sec], whose rows in [pending] are still to be read. *)
Definition fetched (stamps : gmap string Stamp) (pending : list string) (updated : stateSnapshot) (k : string) (b : option Blob) : Prop :=
  seen stamps k b /\ (k ∈ pending \/ updated !! k = b).

Record fetching (t : string) (sv : server) (revs : gmap string Stamp) (done : list string) (sec : string) (stamps : gmap string Stamp)
    (pending : list string) (updated : stateSnapshot) (w : gworld) : Prop := {
  f_idle : idle t w;
  f_cache : cache t w = sv;
  f_valid : cache_valid updated w;
  f_revs : forall s, s ∈ allSections -> valid_revision s (revision_in revs (rk s)) w;
  f_done : forall s, s ∈ done -> s ∈ allSections /\ tracks t s (revision_in revs (rk s)) (is_view updated) w;
  f_rest : forall k, is_row k -> sec_of k ∉ sec :: done -> updated !! k = persisted sv !! k;
  f_stamped : stamped stamps w;
  f_sec : sec ∈ allSections /\ (sec ∉ done) /\ section_stamps sec stamps;
  f_track : tracks t sec (revision_in revs (rk sec)) (fetched stamps pending updated) w;
  f_pending : forall k, k ∈ pending -> is_Some (stamps !! k) }.

Lemma fetching_stable t sv revs done sec stamps pending updated : stable Inv guar t (fetching t sv revs done sec stamps pending updated).
Proof using.
  intros w w' Hr [Hi Hc Hv Hrev Hd Hrest Hst Hsec Htr Hp]. assert (Hr' := Hr). destruct Hr' as (Hi1 & Hi2 & t' & Ht' & Hg). split.
  - by eapply idle_stable.
  - by rewrite (g_cache _ _ _ Hg t).
  - by eapply cache_valid_guar.
  - intros s Hs. eapply valid_revision_guar; [done|by apply Hrev].
  - intros s Hs. destruct (Hd s Hs) as [Hall Htr']. split; [done|]. eapply tracks_guar; [done|done|done|done|by apply Hrev|done].
  - done.
  - by eapply stamped_guar.
  - done.
  - eapply tracks_guar; [done|done|done|apply Hsec|apply Hrev, Hsec|done].
  - done.
Qed.

(** The cache changes at rows of the refreshed section only. *)
Lemma fetching_change t sv revs done sec stamps pending pending' updated updated' w :
  (forall k, is_row k -> sec_of k <> sec -> updated' !! k = updated !! k) ->
  cache_valid updated' w ->
  (forall k, is_row k -> sec_of k = sec -> fetched stamps pending updated k (rows w !! k) -> fetched stamps pending' updated' k (rows w !! k)) ->
  (forall k, k ∈ pending' -> is_Some (stamps !! k)) ->
  fetching t sv revs done sec stamps pending updated w -> fetching t sv revs done sec stamps pending' updated' w.
Proof using.
  intros Hother Hv' Hf Hp' [Hi Hc Hv Hrev Hd Hrest Hst Hsec Htr Hp]. split; try done.
  - intros s Hs. destruct (Hd s Hs) as [Hall Htr']. split; [done|]. eapply tracks_impl; [|exact Htr'].
    intros k Hk Hks. unfold is_view. rewrite Hother; [done|done|]. rewrite Hks. intros ->. by apply Hsec.
  - intros k Hk Hn. rewrite Hother; [by apply Hrest|done|]. intros E. apply Hn. rewrite E. by left.
  - eapply tracks_impl; [|exact Htr]. exact Hf.
Qed.

Lemma safe_read_row t sv revs done sec stamps k pending updated w :
  Inv w -> fetching t sv revs done sec stamps (k :: pending) updated w ->
  sf t (read_row stamps k updated) (okp (fetching t sv revs done sec stamps pending)) w.
Proof using good.
  intros Hi HI. unfold read_row.
  assert (Hk : is_row k /\ sec_of k = sec).
  { destruct (f_pending _ _ _ _ _ _ _ _ _ HI k) as [st Hst]; [by left|].
    split; [by apply (f_stamped _ _ _ _ _ _ _ _ _ HI k st)|by eapply (proj2 (proj2 (f_sec _ _ _ _ _ _ _ _ _ HI)))]. }
  destruct Hk as [Hk Hks].
  apply (safe_reading t (fetching t sv revs done sec stamps (k :: pending) updated)); [apply fetching_stable|done|].
  clear w Hi HI. intros w HI Hi. rewrite read_law by apply Hk. change (contents (backend (real w))) with (rows w).
  assert (Hother : forall k' : string, sec_of k' <> sec -> k' <> k) by (intros k' Hn ->; done).
  assert (Hpend : forall k', k' ∈ pending -> is_Some (stamps !! k')) by (intros k' Hin; apply (f_pending _ _ _ _ _ _ _ _ _ HI); by right).
  destruct (f_pending _ _ _ _ _ _ _ _ _ HI k) as [st Hst]; [by left|].
  destruct (rows w !! k) as [b|] eqn:Eb; simpl.
  - apply safe_ok; [apply fetching_stable|]. unfold revision_in. rewrite Hst. simpl.
    eapply fetching_change; [| | |exact Hpend|exact HI].
    + intros k' _ Hn. rewrite lookup_insert_ne; [done|]. by apply not_eq_sym, Hother.
    + apply cache_valid_insert; [done| |apply HI].
      destruct (proj2 (f_stamped _ _ _ _ _ _ _ _ _ HI k st Hst)) as [Hiss Hv]. split; [done|]. simpl.
      intros b' Hb' Ev. assert (b' = b) as -> by congruence. rewrite <- (Hv b Eb Ev). by destruct b.
    + intros k' Hk' Hks' [Hseen HP]. split; [done|]. destruct (decide (k' = k)) as [->|Hne].
      * right. rewrite lookup_insert_eq, Eb. unfold seen in Hseen. rewrite Hst, Eb in Hseen. injection Hseen as ->. by destruct b.
      * rewrite lookup_insert_ne by done. destruct HP as [Hin|?]; [|by right]. left. by apply elem_of_cons in Hin as [?|?].
  - apply safe_ok; [apply fetching_stable|]. eapply fetching_change; [| | |exact Hpend|exact HI].
    + intros k' _ Hn. rewrite lookup_delete_ne; [done|]. by apply not_eq_sym, Hother.
    + intros k' b'. rewrite lookup_delete_Some. intros [_ Hb']. by apply (f_valid _ _ _ _ _ _ _ _ _ HI).
    + intros k' Hk' Hks' [Hseen HP]. split; [done|]. destruct (decide (k' = k)) as [->|Hne].
      * right. by rewrite lookup_delete_eq, Eb.
      * rewrite lookup_delete_ne by done. destruct HP as [Hin|?]; [|by right]. left. by apply elem_of_cons in Hin as [?|?].
Qed.

(** With no row left to read, the section is refreshed. *)
Lemma fetching_done t sv revs done sec stamps updated w :
  fetching t sv revs done sec stamps [] updated w -> loading t sv revs (sec :: done) updated w.
Proof using.
  intros [Hi Hc Hv Hrev Hd Hrest Hst (Hs1 & Hs2 & Hs3) Htr Hp]. split; try done.
  intros s [->|Hs]%elem_of_cons; [|by apply Hd]. split; [done|].
  eapply tracks_impl; [|exact Htr]. intros k _ _ [_ [?%not_elem_of_nil|?]]; done.
Qed.

(** Once the stamps are read, the rows that are gone are dropped and the
    others with another stamp are to be read. *)
Lemma fetching_start t sv revs done sec stamps updated w :
  sec ∈ allSections -> sec ∉ done -> loading t sv revs done updated w -> stamped stamps w -> section_stamps sec stamps ->
  tracks t sec (revision_in revs (rk sec)) (seen stamps) w ->
  fetching t sv revs done sec stamps (fst <$> order (changed_rows stamps (persisted sv)))
    (drop_gone prefix sec stamps (persisted sv) updated) w.
Proof using good.
  intros Hs1 Hs2 [Hi Hc Hv Hrev Hd Hrest] Hst Hs3 Htr.
  assert (Hdrop : forall k, ~ (is_Some (persisted sv !! k) /\ stamps !! k = None /\ sec_of k = sec) ->
            drop_gone prefix sec stamps (persisted sv) updated !! k = updated !! k).
  { intros k Hn. unfold drop_gone. rewrite map_lookup_filter. destruct (updated !! k); simpl; [|done]. by rewrite option_guard_True. }
  split; try done.
  - intros k b. unfold drop_gone. rewrite map_lookup_filter_Some. intros [Hb _]. by apply Hv.
  - intros s Hs. destruct (Hd s Hs) as [Hall Htr']. split; [done|]. eapply tracks_impl; [|exact Htr'].
    intros k Hk Hks. unfold is_view. rewrite Hdrop; [done|]. intros (_ & _ & E). congruence.
  - intros k Hk Hn. rewrite Hdrop; [apply Hrest; [done|set_solver]|]. intros (_ & _ & E). set_solver.
  - eapply tracks_impl; [|exact Htr]. intros k Hk Hks Hseen. split; [done|].
    assert (Hold : updated !! k = persisted sv !! k) by (apply Hrest; [done|by rewrite Hks]).
    unfold seen in Hseen. destruct (rows w !! k) as [b|] eqn:Eb; simpl in Hseen.
    + destruct (decide (BStamp <$> persisted sv !! k = Some (BStamp b))) as [Es|Hne].
      * right. rewrite Hdrop, Hold by (intros (_ & ? & _); congruence).
        destruct (persisted sv !! k) as [b'|] eqn:Ep; [|done]. simpl in Es. f_equal. symmetry.
        assert (Hb' : valid_blob k b' w) by (apply (Hv k b'); by rewrite Hold).
        apply Hb'; [exact Eb|]. by injection Es as ->.
      * left. apply keys_of. exists (BStamp b). unfold changed_rows. by rewrite map_lookup_filter_Some.
    + right. unfold drop_gone. rewrite map_lookup_filter, Hold. destruct (persisted sv !! k) as [b'|] eqn:Ep; simpl; [|done].
      rewrite option_guard_False; [done|]. rewrite Ep. intros Hn. by apply Hn.
  - intros k [st Hk]%keys_of. unfold changed_rows in Hk. apply map_lookup_filter_Some in Hk as [Hk _]. by exists st.
Qed.

(** Reading a whole section at once. *)
Lemma fetching_bulk t sv revs done sec stamps updated pending w :
  Inv w -> fetching t sv revs done sec stamps pending updated w ->
  fetching t sv revs done sec stamps
    (List.filter (fun k => negb (bool_decide (is_Some (below (stateKey prefix [sec]) (rows w) !! k)))) pending)
    (below (stateKey prefix [sec]) (rows w) ∪ updated) w.
Proof using good.
  intros Hi HI. set (got := below _ _). destruct (f_sec _ _ _ _ _ _ _ _ _ HI) as (Hsec & _ & _).
  destruct (sections_are_dirs sec Hsec) as [Hdir Hnc].
  assert (Hgot : forall k b, got !! k = Some b -> is_row k /\ sec_of k = sec /\ rows w !! k = Some b).
  { intros k b [Hb Hp]%map_lookup_filter_Some.
    destruct (row_under sec k) as [? E]; [done|eapply held_clean; [apply Hi|exact Hb]|exact Hp|]. by rewrite Hnc in E. }
  eapply fetching_change; [| | | |exact HI].
  - intros k Hk Hn. apply lookup_union_r. destruct (got !! k) as [b|] eqn:E; [|done]. by destruct (Hgot k b E) as (_ & ? & _).
  - intros k b. rewrite lookup_union_Some_raw. intros [Hb|[_ Hb]]; [|by apply (f_valid _ _ _ _ _ _ _ _ _ HI)].
    destruct (Hgot k b Hb) as (Hk & _ & Hr). split; [done|]. split; [eapply held_issued; [apply Hi|exact Hr]|].
    intros b' Hb' _. congruence.
  - intros k Hk Hks [Hseen HP]. split; [done|]. rewrite lookup_union. destruct (got !! k) as [b|] eqn:E.
    + right. destruct (Hgot k b E) as (_ & _ & ->). by destruct (updated !! k).
    + destruct HP as [Hin|Hup]; [left|right; by rewrite left_id_L by apply _].
      apply list_elem_of_In, filter_In. split; [by apply list_elem_of_In|]. rewrite E. by rewrite bool_decide_false by apply is_Some_None.
  - intros k Hin%list_elem_of_In. apply filter_In in Hin as [Hin%list_elem_of_In _]. by apply (f_pending _ _ _ _ _ _ _ _ _ HI).
Qed.

Lemma safe_fetch t sv revs done sec stamps pending updated w :
  Inv w -> fetching t sv revs done sec stamps pending updated w ->
  sf t (foreach pending updated (read_row stamps)) (okp (loading t sv revs (sec :: done))) w.
Proof using good.
  intros Hi HI. eapply (safe_weaken live real Inv guar _ _ (okp (fetching t sv revs done sec stamps []))).
  - intros [u|e] w' _; [apply fetching_done|done].
  - apply (safe_loop t (fetching t sv revs done sec stamps)); [intros; apply fetching_stable| |done|done].
    intros k l u w' Hi' HI'. by apply safe_read_row.
Qed.

Lemma safe_refresh t sv revs done sec updated w :
  Inv w -> sec ∈ allSections -> sec ∉ done -> loading t sv revs done updated w ->
  sf t (refreshSection prefix sec (persisted sv) updated) (okp (loading t sv revs (sec :: done))) w.
Proof using good.
  intros Hi Hs Hn HI. unfold refreshSection.
  eapply (safe_try t (sectionStamps prefix sec)); [done|apply (safe_sectionStamps t sec (revision_in revs (rk sec)) (loading t sv revs done updated)); [done|apply loading_stable| |done]|].
  - intros w' HI'. by apply (l_revs _ _ _ _ _ _ HI').
  - clear w Hi HI. intros stamps w Hi (HI & Hst & Hss & Htr).
    assert (HF := fetching_start t sv revs done sec stamps updated w Hs Hn HI Hst Hss Htr).
    set (pending := fst <$> order (changed_rows stamps (persisted sv))) in *.
    set (updated' := drop_gone prefix sec stamps (persisted sv) updated) in *.
    destruct (bulkReadAbove <? length pending)%nat; [|by apply safe_fetch].
    apply (safe_read t (fetching t sv revs done sec stamps pending updated')); [apply fetching_stable|done|].
    clear w Hi HI Hst Htr HF. intros w rows' HF Hi. destruct (sections_are_dirs sec Hs) as [Hdir _].
    rewrite readall_law; [|apply key_valid; [done|repeat constructor; by apply section_plain]]. intros [= <-].
    apply safe_fetch; [done|]. by apply fetching_bulk.
Qed.

(** Sections a reload may be asked for. *)
Definition loadable (sections : list string) : Prop := NoDup sections /\ forall s, s ∈ sections -> s ∈ allSections.

Lemma loaded_revisions sections (revs m : gmap string Stamp) s :
  fold_right (fun section m => <[section := revision_in revs (rk section)]> m) m sections !! s =
  if decide (s ∈ sections) then Some (revision_in revs (rk s)) else m !! s.
Proof using good.
  induction sections as [|x l IH]; simpl; [done|]. destruct (decide (s = x)) as [->|Hne].
  - rewrite lookup_insert_eq. rewrite decide_True; [done|by left].
  - rewrite lookup_insert_ne, IH by done. destruct (decide (s ∈ l)), (decide (s ∈ x :: l)); set_solver.
Qed.

Lemma loaded_revision_in sections (revs m : gmap string Stamp) s :
  revision_in (fold_right (fun section m => <[section := revision_in revs (rk section)]> m) m sections) s =
  if decide (s ∈ sections) then revision_in revs (rk s) else revision_in m s.
Proof using good. unfold revision_in at 1. rewrite loaded_revisions. by destruct (decide (s ∈ sections)). Qed.

Lemma loading_install t sv revs sections updated w w' :
  loading t sv revs sections updated w -> backend (real w') = backend (real w) -> dirty w' = dirty w -> reserved w' = reserved w ->
  cache t w' = loaded_server prefix sections revs updated (cache t w) -> idle t w'.
Proof using good.
  intros [Hidle Hc Hv Hrev Hd Hrest] Eb Ed Er Ec. destruct Hidle as (Hdt & Hrt & Hsv & Hsw).
  split; [by rewrite Ed|split; [by rewrite Er|]]. rewrite Ec. split; simpl.
  - intros k b Hk. destruct (Hv k b Hk) as [Hrow Hvb]. split; [done|]. unfold valid_blob, was_issued, rows in *. by rewrite Eb.
  - eapply view_ok_local; [done|done|]. intros s Hs. rewrite loaded_revision_in.
    destruct (decide (s ∈ sections)) as [Hin|Hnin].
    + split; [by apply Hrev|]. by apply Hd.
    + destruct (Hsw s Hs) as [Hval Htr]. split; [done|]. eapply tracks_impl; [|exact Htr].
      intros k Hk Hks. unfold is_view. intros <-. rewrite Hc. apply Hrest; [done|]. by rewrite Hks.
Qed.

Lemma loading_equiv t sv revs done done' updated w :
  (forall s, s ∈ done <-> s ∈ done') -> loading t sv revs done updated w -> loading t sv revs done' updated w.
Proof using.
  intros He [? ? ? ? Hd Hrest]. split; try done.
  - intros s Hs. by apply Hd, He.
  - intros k Hk Hn. apply Hrest; [done|]. by rewrite He.
Qed.

(** The sections still to be refreshed are those of [l]. *)
Definition loading_rest (t : string) (sv : server) (revs : gmap string Stamp) (sections l : list string) (updated : stateSnapshot) (w : gworld) : Prop :=
  loading t sv revs (filter (fun s => s ∉ l) sections) updated w /\ NoDup l /\ (forall s, s ∈ l -> s ∈ sections).

Lemma loading_rest_stable t sv revs sections l updated : stable Inv guar t (loading_rest t sv revs sections l updated).
Proof using. intros w w' Hr [H1' H2']. split; [by eapply loading_stable|done]. Qed.

Definition revisions_valid (revs : gmap string Stamp) (w : gworld) : Prop :=
  forall s, s ∈ allSections -> valid_revision s (revision_in revs (rk s)) w.

Lemma safe_load_sections t sections (parses : stateSnapshot -> bool) revs w :
  loadable sections -> Inv w -> idle t w -> revisions_valid revs w ->
  sf t (do known <- get (fun w => persisted (server_of t w));
        try updated <- foreach sections known (fun section updated => refreshSection prefix section known updated);
        if parses updated then
          do _ <- locked t (loaded_server prefix sections revs updated);
          Ret (Ok ())
        else Ret (Err ParsingFailed)) (okp (fun _ => idle t)) w.
Proof using good.
  intros [Hnd Hall] Hi Hidle Hrev.
  apply (safe_get_any t (fun w => idle t w /\ revisions_valid revs w)).
  { intros w1 w2 Hr [H1' H2']. split; [by eapply idle_stable|]. destruct Hr as (_ & _ & t' & _ & Hg).
    intros s Hs. by eapply valid_revision_guar; [|apply H2']. }
  { done. }
  clear w Hi Hidle Hrev. intros w [Hidle Hrev] Hi. set (sv := cache t w).
  change (persisted (server_of t (real w))) with (persisted sv).
  eapply (safe_try t _ _ _ (loading_rest t sv revs sections [])); [done| |].
  - apply (safe_loop t (loading_rest t sv revs sections)); [intros; apply loading_rest_stable| |done|].
    + intros x l u w1 Hi1 (HI & Hn & Hl). apply NoDup_cons in Hn as [Hx Hn].
      eapply (safe_weaken live real Inv guar); [|apply (safe_refresh t sv revs (filter (fun s => s ∉ x :: l) sections)); [done| | |exact HI]].
      * intros [u'|e] w2 _; [|done]. intros HI'. split; [|split; [done|intros s Hs; apply Hl; by right]].
        eapply loading_equiv; [|exact HI']. intros s. rewrite elem_of_cons, !list_elem_of_filter, elem_of_cons.
        assert (x ∈ sections) by (apply Hl; by left). destruct (decide (s = x)) as [->|]; naive_solver.
      * apply Hall, Hl. by left.
      * rewrite list_elem_of_filter. intros [Hc _]. apply Hc. by left.
    + split; [|split; [done|done]]. destruct Hidle as (Hd & Hr & Hv & Hw). split; try done.
      intros s Hs%list_elem_of_filter. tauto.
  - intros updated w' Hi' HI.
    destruct (parses updated); [|apply safe_err].
    eapply (safe_cached t (loading_rest t sv revs sections [] updated) _ (loaded_server prefix sections revs updated)); [apply loading_rest_stable|done|done|].
    intros w1 w2 [HI1 _] Hi1 Hi2 Hg Eb Ed Er Ec. apply safe_ok; [apply idle_stable|].
    eapply loading_install; [|exact Eb|exact Ed|exact Er|exact Ec]. eapply loading_equiv; [|exact HI1].
    intros s. rewrite list_elem_of_filter. split; [by intros [_ ?]|]. intros ?. split; [by apply not_elem_of_nil|done].
Qed.

Lemma safe_load t sections parses w :
  loadable sections -> Inv w -> idle t w ->
  sf t (loadSections prefix t sections parses) (okp (fun _ => idle t)) w.
Proof using good.
  intros Hload Hi Hidle. unfold loadSections.
  assert (Hkey : cleanKey (stateKey prefix [revisionSection]) = Ok (stateKey prefix [revisionSection])) by (apply key_valid; [done|by repeat constructor]).
  apply (safe_read t (idle t)); [apply idle_stable|done|]. clear w Hi Hidle. intros w revs Hidle Hi.
  rewrite stamps_law by done. intros [= <-]. apply safe_load_sections; [done|done|done|].
  change (contents (backend (real w))) with (rows w).
  intros s Hs. unfold revision_in, below. rewrite lookup_fmap, map_lookup_filter.
  destruct (rows w !! rk s) as [b|] eqn:Eb; simpl; [|by left].
  case_guard as Hp; simpl; [|by left]. right. split; [eapply held_issued; [apply Hi|exact Eb]|]. intros b' Hb' _. congruence.
Qed.

Lemma changed_loadable revs sv includeLog : loadable (changed_in prefix revs sv includeLog).
Proof using.
  unfold changed_in, loadable. split.
  - apply NoDup_ListNoDup, List.NoDup_filter, NoDup_ListNoDup. by_decide.
  - intros s [Hs%list_elem_of_In _]%list_elem_of_In%filter_In.
    assert (Hsub : forall x, x ∈ serverSections -> x ∈ allSections); [|by apply Hsub].
    apply Forall_forall. by_decide.
Qed.

Lemma safe_reload t withLog parses w :
  Inv w -> idle t w -> sf t (reload prefix t withLog parses) (okp (fun _ => idle t)) w.
Proof using good.
  intros Hi Hidle. unfold reload.
  eapply (safe_try t (changedSections prefix t withLog) _ _ (fun changed w => idle t w /\ loadable changed)); [done| |].
  - unfold changedSections. apply (safe_read t (idle t)); [apply idle_stable|done|].
    clear w Hi Hidle. intros w revs Hidle Hi _. apply (safe_get_server t (idle t)); [apply idle_stable|done|].
    clear w Hi Hidle. intros w Hidle Hi. apply safe_ok; [|split; [done|apply changed_loadable]].
    intros w1 w2 Hr [H1' H2']. split; [by eapply idle_stable|done].
  - clear w Hi Hidle. intros [|x l] w Hi [Hidle Hl]; [by apply safe_ok; [apply idle_stable|]|by apply safe_load].
Qed.
End coherence.
