(* ===== verification/PersistShare.v ===== *)
(** * PersistShare: several servers on one store

    The executions of any number of servers, each running one operation of
    Persist at a time, from a store without wallet rows; the coherence of
    their caches and the distinctness of the status indices they hand out
    follow from the rely-guarantee proof of PersistFacts. *)

From stdpp Require Import base list strings gmap relations.
From Stdlib Require Import ZArith Lia Ascii.
From S2P Require Import Prelude GoStrings StringFacts Numbers Validity SDJWT GoMap Storage StorageFacts Conc Persist PersistFacts.

Local Open Scope Z_scope.

(** What is left of an operation once it has ended: whether it succeeded. *)
Definition ending {St E A} (p : prog St (result E A)) : prog St bool := do r <- p; Ret (is_ok r).

Section share.
Context {S : Type} `{StoreLaws S} `{Hash} `{MapOrder}.
Context (prefix : string) (rand_text : nat -> string).

(** The operations server [me] may start. *)
Inductive operation (me : string) : prog (world S) bool -> Prop :=
| op_save entities :
    good_entities prefix entities -> operation me (ending (saveEntities prefix rand_text me entities))
| op_reset : operation me (do _ <- ResetToBaseline me; Ret true)
| op_append parse name data at_ :
    log_name prefix name -> operation me (ending (appendLogEntry prefix rand_text parse me name data at_))
| op_allocate : operation me (ending (allocateStatusIndex prefix rand_text me))
| op_reload withLog parses : operation me (ending (reload prefix me withLog parses))
| op_load sections parses :
    loadable sections -> operation me (ending (loadSections prefix me sections parses)).

(** Servers run until the store runs out of versions or the counter out of
    integers; a server whose operation failed starts no other. *)
Definition share_step : world S * pool (world S) bool -> world S * pool (world S) bool -> Prop :=
  pool_step (live prefix) (fun ok => ok = true) operation.

Definition empty_start (s : S) : Prop :=
  store_wf s /\ (forall k, row prefix k -> contents s !! k = None) /\
  (forall sec, sec ∈ allSections -> contents s !! revisionKey prefix sec = None).

Definition reachable (w : world S) (P : pool (world S) bool) : Prop :=
  exists s, empty_start s /\ rtc share_step (mkWorld s ∅ 0 no_history, ∅) (w, P).

Context (good : plain_key prefix = true).

Lemma operation_safe t p w :
  operation t p -> Inv prefix w -> idle prefix t w ->
  safe (live prefix) real (Inv prefix) (guar prefix) t p (fun ok w => ok = true -> idle prefix t w) w.
Proof using good.
  intros Hop Hi Hidle.
  assert (Hend : forall A (q : prog (world S) (result persist_error A)),
    sf prefix t q (okp (fun _ => idle prefix t)) w ->
    safe (live prefix) real (Inv prefix) (guar prefix) t (ending q) (fun ok w => ok = true -> idle prefix t w) w).
  { intros A q Hq. apply safe_bind; [done|]. eapply safe_weaken; [|exact Hq].
    intros r w' _ Hr. apply safe_ret; [|by destruct r].
    intros w1 w2 Hrel Hw Hok. eapply idle_stable; [done|by apply Hw]. }
  destruct Hop; [apply Hend; by apply safe_save| |apply Hend; by apply safe_append|apply Hend; by apply safe_allocate
    |apply Hend; by apply safe_reload|apply Hend; by apply safe_load].
  by apply safe_reset.
Qed.

Definition share_ok : world S * pool (world S) bool -> Prop :=
  pool_ok (live prefix) real (Inv prefix) (guar prefix) (idle prefix) (fun t ok w => ok = true -> idle prefix t w).

Lemma start_ok s : empty_start s -> share_ok (mkWorld s ∅ 0 no_history, ∅).
Proof using good.
  intros (Hwf & Hrows & Hrevs).
  exists (mkG (mkWorld s ∅ 0 no_history) (fun _ => ∅) (fun _ => None)). split; [done|split].
  - split; [done|]. split; [|split; [constructor|done]]. exists 0. unfold counter_value, rows. simpl.
    rewrite Hrows by by apply ckey_row. split; [done|split; [done|split; [by intros x ?%not_elem_of_nil|done]]].
  - intros t. unfold thread_ok. simpl. split; [done|split; [done|split; [done|]]].
    intros sec Hsec. split; [by left|]. intros _ k Hk _. left. unfold is_view, rows. simpl. by rewrite Hrows.
Qed.

Lemma reachable_ok w P : reachable w P -> share_ok (w, P).
Proof using good.
  intros (s & Hs & Hsteps). eapply pool_ok_steps; [| | |exact Hsteps|by apply start_ok].
  - intros t. apply idle_stable.
  - intros t ok w' Hok Hd. by apply Hd.
  - intros. by apply operation_safe.
Qed.

(** No operation is running, and none has failed. *)
Definition quiescent (P : pool (world S) bool) : Prop := forall t p, P !! t = Some p -> p = Ret true.

Lemma quiescent_idle w P : quiescent P -> reachable w P ->
  exists g, real g = w /\ Inv prefix g /\ forall t, idle prefix t g.
Proof using good.
  intros Hq Hr. destruct (reachable_ok w P Hr) as (g & Hg & Hi & Hall). exists g. split; [done|split; [done|]].
  intros t. specialize (Hall t). unfold thread_ok in Hall. simpl in Hall. destruct (P !! t) as [p|] eqn:Ep; [|done].
  rewrite (Hq t p Ep) in Hall. by apply (Hall g).
Qed.

Lemma coherent w P t : quiescent P -> reachable w P -> forall sec k,
  sec ∈ allSections -> revision_in (revisions (server_of t w)) sec = default zero_stamp (BStamp <$> contents (backend w) !! revisionKey prefix sec) ->
  row prefix k -> sectionOf prefix k = sec -> persisted (server_of t w) !! k = contents (backend w) !! k.
Proof using good.
  intros Hq Hr sec k Hsec Hrev Hk Hks. destruct (quiescent_idle w P Hq Hr) as (g & <- & Hi & Hidle).
  destruct (Hidle t) as (_ & _ & _ & Hw). destruct (Hw sec Hsec) as [_ Htr].
  destruct (Htr (eq_sym Hrev) k Hk Hks) as [HP|(t' & _ & Hd)]; [exact HP|].
  destruct (Hidle t') as [He _]. rewrite He in Hd. by apply not_elem_of_empty in Hd.
Qed.

Lemma revision_stamps (s : S) revs sec :
  Stamps (stateKey prefix [revisionSection]) s = Ok revs -> sec ∈ allSections ->
  revision_in revs (revisionKey prefix sec) = default zero_stamp (BStamp <$> contents s !! revisionKey prefix sec).
Proof using good.
  rewrite stamps_law by (apply key_valid; [done|by repeat constructor]). intros [= <-] Hsec.
  unfold revision_in, below. rewrite lookup_fmap, map_lookup_filter.
  destruct (contents s !! revisionKey prefix sec) as [b|]; simpl; [|done]. rewrite option_guard_True; [done|].
  apply under_below; [done|done|]. exists sec. apply revisionKey_below; [done|by apply section_plain].
Qed.
End share.

(** ** Properties *)

(** C32: when no operation is running, a server's cache holds exactly the
    stored rows of every section that changedSections does not report, after
    any interleaving of saves, log appends, status index allocations and
    reloads by any number of servers, each running one operation at a time.
    A server therefore never keeps serving a section that another server has
    changed: the revisions tell. *)
Theorem unreported_sections_are_current {S} `{StoreLaws S} `{Hash} `{MapOrder} prefix rand_text (w : world S) P t includeLog revs section k :
  plain_key prefix = true -> reachable prefix rand_text w P -> quiescent P ->
  Stamps (stateKey prefix [revisionSection]) (backend w) = Ok revs ->
  section ∈ serverSections -> (section = logSection -> includeLog = true) ->
  section ∉ changed_in prefix revs (server_of t w) includeLog ->
  row prefix k -> sectionOf prefix k = section ->
  persisted (server_of t w) !! k = contents (backend w) !! k.
Proof.
  intros Hp Hr Hq Hrevs Hsec Hlog Hn Hk Hks.
  assert (Hall : section ∈ allSections).
  { assert (Hsub : forall x, x ∈ serverSections -> x ∈ allSections); [|by apply Hsub]. apply Forall_forall. by_decide. }
  eapply coherent; [done|done|done|exact Hall| |done|done].
  rewrite <- (revision_stamps prefix Hp _ revs) by done.
  destruct (decide (revision_in revs (revisionKey prefix section) = revision_in (revisions (server_of t w)) section)) as [E|Hne]; [done|].
  destruct Hn. apply list_elem_of_In, filter_In. split; [by apply list_elem_of_In|].
  rewrite bool_decide_false by done. rewrite andb_true_r. apply negb_true_iff.
  destruct (String.eqb_spec section logSection) as [E|]; [|done]. by rewrite (Hlog E).
Qed.

(** C33: two calls of allocateStatusIndex, by whatever servers and in whatever
    interleaving with each other and with saves, resets of the wallet, log
    appends and reloads (each server running one operation at a time), never
    return the same index unless a save has written the counter in between;
    and a save writes it only to reset it ([counter_entity]).  Every index is
    in the range of an int. *)
Theorem status_indices_are_distinct {S} `{StoreLaws S} `{Hash} `{MapOrder} prefix rand_text (w : world S) P :
  plain_key prefix = true -> reachable prefix rand_text w P ->
  NoDup (granted (past w)) /\
  forall e n, (e, n) ∈ granted (past w) -> (e <= era (past w))%nat /\ 0 <= n <= max_int64.
Proof.
  intros Hp Hr. destruct (reachable_ok prefix rand_text Hp w P Hr) as (g & Hg & Hi & _).
  destruct Hi as (_ & (n & _ & _ & Hgr & _) & Hnd & _). simpl in Hg. rewrite <- Hg. split; [done|].
  intros e x Hx. destruct (Hgr _ Hx) as (He & Hn & _). done.
Qed.

(** ** Examples on the memory backend *)

#[local] Instance plain_hash : Hash := { sha256 s := s; sha384 s := s; sha512 s := s }.
#[local] Instance listed_order : MapOrder := { order A m := map_to_list m; order_perm A m := reflexivity (map_to_list m) }.

Definition marks (n : nat) : string := "mark" +:+ itoa (Z.of_nat n).

Definition live_memory (w : world memoryStore) : bool :=
  (seq (backend w) <? 2 ^ 64 - 1) &&
  match blobs (backend w) !! counterKey "wallet" with
  | Some b => match atoi (mdata b) with Some n => n <? max_int64 | None => true end
  | None => true
  end.

Lemma live_memory_live w : live_memory w = true -> live "wallet" w.
Proof.
  unfold live_memory, live. intros [Hs Hc]%andb_true_iff. split; [by apply Z.ltb_lt in Hs|].
  intros n. unfold counter_value. simpl. unfold memory_contents. rewrite lookup_fmap.
  destruct (blobs (backend w) !! counterKey "wallet") as [b|]; simpl; [|by intros [= <-]].
  destruct (atoi (mdata b)) as [m|]; [|done]. intros [= <-]. by apply Z.ltb_lt in Hc.
Qed.

Definition start_world : world memoryStore := mkWorld NewMemory ∅ 0 no_history.

Lemma start_world_empty : empty_start "wallet" NewMemory.
Proof. split; [|done]. split; [done|]. intros key b Hb. simpl in Hb. by rewrite lookup_empty in Hb. Qed.

(** The state after the operations of a pool have run by a schedule. *)
Lemma schedule_reachable (ops : list (string * prog (world memoryStore) bool)) sched :
  (forall t p, (t, p) ∈ ops -> operation "wallet" marks t p) -> NoDup (fst <$> ops) ->
  let P := list_to_map ops : pool (world memoryStore) bool in
  schedule_live live_memory sched start_world P = true ->
  reachable "wallet" marks (fst (run_schedule sched start_world P)) (snd (run_schedule sched start_world P)).
Proof.
  intros Hops Hnd P Hlive. exists NewMemory. split; [apply start_world_empty|].
  trans (start_world, P).
  - clear Hlive sched. subst P. induction ops as [|[t p] ops IH]; simpl; [done|].
    apply NoDup_cons in Hnd as [Ht Hnd]. eapply rtc_r; [apply IH; [intros; apply Hops; by right|done]|].
    apply step_start; [|apply Hops; by left]. intros q. rewrite not_elem_of_list_to_map_1 by done. done.
  - rewrite <- surjective_pairing. apply (run_schedule_steps (live "wallet") live_memory); [apply live_memory_live|done].
Qed.

(** Two servers read the same counter; one of the swaps fails and retries. *)
Definition two_allocations : list (string * prog (world memoryStore) bool) :=
  [("a", ending (allocateStatusIndex "wallet" marks "a")); ("b", ending (allocateStatusIndex "wallet" marks "b"))].

Definition interleaved : list string := ["a"; "b"; "a"; "b"; "a"; "b"; "a"; "b"; "b"; "b"; "b"; "b"; "b"; "b"].

Definition after_two_allocations : world memoryStore * pool (world memoryStore) bool :=
  run_schedule interleaved start_world (list_to_map two_allocations).

Lemma two_allocations_reachable : reachable "wallet" marks (fst after_two_allocations) (snd after_two_allocations).
Proof.
  apply schedule_reachable; [|by_decide|by vm_compute].
  intros t p Hin. repeat (apply elem_of_cons in Hin as [[= -> ->]|Hin]; [apply op_allocate|]). by apply not_elem_of_nil in Hin.
Qed.

Lemma status_indices_are_distinct_witness :
  granted (past (fst after_two_allocations)) = [(0%nat, 0); (0%nat, 1)] /\ NoDup (granted (past (fst after_two_allocations))).
Proof.
  split; [by vm_compute|].
  exact (proj1 (status_indices_are_distinct "wallet" marks (fst after_two_allocations) (snd after_two_allocations) eq_refl two_allocations_reachable)).
Defined.

(** After a reset and a save of the same server, indices are handed out
    again. *)
Definition only_counter (sv : server) : gmap string string :=
  match counter_entity "wallet" sv with Some d => {[counterKey "wallet" := d]} | None => ∅ end.

Definition allocate_reset_allocate : prog (world memoryStore) bool :=
  do _ <- ending (allocateStatusIndex "wallet" marks "a");
  do _ <- ResetToBaseline "a";
  do _ <- ending (saveEntities "wallet" marks "a" only_counter);
  ending (allocateStatusIndex "wallet" marks "a").

Lemma indices_repeat_after_a_reset :
  granted (past (fst (run allocate_reset_allocate start_world))) = [(0%nat, 0); (1%nat, 0)].
Proof. vm_compute. reflexivity. Qed.

(** One server saves a credential, another one reloads. *)
Definition credential_row : string := stateKey "wallet" [credentialsSection; "c1"].

Definition one_credential (sv : server) : gmap string string :=
  <[credential_row := "credential"]> (only_counter sv).

Lemma one_credential_good : good_entities "wallet" one_credential.
Proof.
  intros sv. unfold one_credential, only_counter. split.
  - intros k. destruct (decide (credential_row = k)) as [<-|Hne].
    + intros _. split; [by vm_compute|]. exists credentialsSection, "c1". split; [by vm_compute|by_decide].
    + rewrite lookup_insert_ne by done. destruct (counter_entity "wallet" sv) as [d|]; [|by intros [? ?]].
      intros [x [<- _]%lookup_singleton_Some]. by apply ckey_row.
  - rewrite lookup_insert_ne by by vm_compute. destruct (counter_entity "wallet" sv); [by rewrite lookup_singleton_eq|done].
Qed.

Definition save_then_reload : list (string * prog (world memoryStore) bool) :=
  [("a", ending (saveEntities "wallet" marks "a" one_credential));
   ("b", ending (reload "wallet" "b" false (fun _ => true)))].

Definition after_save_then_reload : world memoryStore * pool (world memoryStore) bool :=
  run_schedule (replicate 12 "a" ++ replicate 12 "b") start_world (list_to_map save_then_reload).

Lemma save_then_reload_reachable : reachable "wallet" marks (fst after_save_then_reload) (snd after_save_then_reload).
Proof.
  apply schedule_reachable; [|by_decide|by vm_compute].
  intros t p Hin. apply elem_of_cons in Hin as [[= -> ->]|Hin]; [apply op_save, one_credential_good|].
  apply list_elem_of_singleton in Hin as [= -> ->]. apply op_reload.
Qed.

Definition ended (r : option (prog (world memoryStore) bool)) : bool :=
  match r with Some (Ret ok) => ok | _ => false end.

Lemma save_then_reload_quiescent : quiescent (snd after_save_then_reload).
Proof.
  intros t p Hp. destruct (decide (t = "a")) as [->|Ha]; [|destruct (decide (t = "b")) as [->|Hb]].
  - assert (He : ended (snd after_save_then_reload !! "a") = true) by by vm_compute.
    rewrite Hp in He. by destruct p as [[]|].
  - assert (He : ended (snd after_save_then_reload !! "b") = true) by by vm_compute.
    rewrite Hp in He. by destruct p as [[]|].
  - unfold after_save_then_reload in Hp. rewrite run_schedule_None in Hp; [done|].
    unfold save_then_reload. simpl. by rewrite !lookup_insert_ne by done.
Qed.

Lemma unreported_sections_are_current_witness :
  Data <$> persisted (server_of "b" (fst after_save_then_reload)) !! credential_row = Some "credential".
Proof.
  assert (Hrevs : exists revs, Stamps (stateKey "wallet" [revisionSection]) (backend (fst after_save_then_reload)) = Ok revs /\
    credentialsSection ∉ changed_in "wallet" revs (server_of "b" (fst after_save_then_reload)) false).
  { eexists. split; [by vm_compute|]. by_decide. }
  destruct Hrevs as (revs & Hrevs & Hn).
  rewrite (unreported_sections_are_current "wallet" marks _ (snd after_save_then_reload) "b" false revs credentialsSection credential_row
    eq_refl save_then_reload_reachable save_then_reload_quiescent Hrevs); [by vm_compute|by left|done|exact Hn| |by vm_compute].
  split; [by vm_compute|]. exists credentialsSection, "c1". split; [by vm_compute|by_decide].
Defined.

(** A log append that overlaps a reload of the same server: the reload
    installs the snapshot it started from, without the row the append has
    cached, and keeps the revision the append has taken over. *)
Definition overlapping : pool (world memoryStore) bool :=
  {["reload" := ending (loadSections "wallet" "s" [statusSection] (fun _ => true));
    "append" := ending (appendLogEntry "wallet" marks (fun _ => None) "s" "entry" "data" (Time 1 0))]}.

Definition after_overlap : world memoryStore * pool (world memoryStore) bool :=
  run_schedule (["reload"; "reload"] ++ replicate 12 "append" ++ replicate 12 "reload") start_world overlapping.

Lemma reload_forgets_an_appended_row :
  let w := fst after_overlap in
  let row := stateKey "wallet" [logSection; "entry"] in
  persisted (server_of "s" w) !! row = None /\
  Data <$> memory_contents (backend w) !! row = Some "data" /\
  match memory_Stamps (stateKey "wallet" [revisionSection]) (backend w) with
  | Ok revs => changed_in "wallet" revs (server_of "s" w) true = []
  | Err _ => False
  end.
Proof. vm_compute. done. Qed.
