(* ===== verification/Deferred.v ===== *)
(** * Deferred: collecting credentials an issuer has deferred

    src/internal/wallet/deferred.go and deferred_poller.go: the records of
    deferred issuances, the sweep that collects the due ones, a collection
    asked for by the user, the claim that keeps two collections of one record
    apart, and the loop that runs the background tasks.

    What the network and the clock answer during one collection is the
    argument [answers] of the attempt.  The steps that hold a lock are atomic
    steps of Conc; [imports] and [claims] are history variables, the records
    whose credential was imported and the claims taken and released. *)

From stdpp Require Import base list strings gmap.
From Stdlib Require Import ZArith Lia Ascii.
From S2P Require Import Prelude GoStrings GoValue Validity WalletState Conc.

Local Open Scope Z_scope.

(** ** package strings *)

(** [strings.Contains] *)
Fixpoint Contains (s sub : string) : bool :=
  has_prefix sub s || match s with "" => false | String _ s' => Contains s' sub end.

(** ** Records *)

Record DeferredIssuance := mkDeferred {
  DID : string;
  TransactionID : string;
  DeferredEndpoint : string;
  DRenewal : CredentialRenewal;
  DFormat : string;
  DVCT : string;
  DDocType : string;
  DDisplay : option CredentialDisplay;
  AccessToken : string;
  AuthScheme : string;
  AccessTokenExpiresAt : time;
  IntervalSeconds : Z;
  CreatedAt : time;
  NextAttemptAt : time;
  Attempts : Z;
  LastError : string;
  ProofKeyPEMs : list string }.

Definition deferredPollInterval : Z := 5 * Second.
Definition deferredIssuanceMaxAge : Z := 24 * Hour.

Definition Interval (p : DeferredIssuance) : Z :=
  if IntervalSeconds p <? 1 then deferredPollInterval else seconds (IntervalSeconds p).

Definition Expired (p : DeferredIssuance) (now : time) : bool :=
  deferredIssuanceMaxAge <? sub now (CreatedAt p).

Definition numericValue (v : option value) : option float64 :=
  match v with
  | Some (VFloat f) => Some f
  | Some (VInt Kint n) => Some (float64_of_Z n)
  | _ => None
  end.

(** [deferredInterval]: a float in seconds becomes a Duration. *)
Definition deferredInterval (resp : object) : Z :=
  match numericValue (GoValue.get "interval" resp) with
  | Some s => if f64_leb (float64_of_Z 1) s then seconds (int_of_float64 s) else deferredPollInterval
  | None => deferredPollInterval
  end.

Definition AccessTokenExpired (p : DeferredIssuance) (now : time) : bool :=
  if is_zero (AccessTokenExpiresAt p) then false else after (add now (15 * Second)) (AccessTokenExpiresAt p).

Definition CanRefresh (p : DeferredIssuance) : bool :=
  negb (ren_RefreshToken (DRenewal p) =? "")%string && negb (ren_TokenEndpoint (DRenewal p) =? "")%string.

(** An accepted token response. *)
Record accessGrant := mkGrant {
  accessToken : string;
  authScheme : string;
  refreshToken : string;
  expiresIn : Z }.

Definition expiresAt (g : accessGrant) (now : time) : time :=
  if expiresIn g <=? 0 then zero_time else add now (seconds (expiresIn g)).

Record deferredTransaction := mkTransaction {
  tx_transactionID : string;
  tx_interval : Z;
  tx_renewal : CredentialRenewal;
  tx_metadata : object;
  tx_format : string;
  tx_display : option CredentialDisplay;
  tx_grant : accessGrant;
  tx_proofKeys : list string }.

(** The type of the configuration, from the issuer metadata. *)
Definition credentialTypeForConfiguration (metadata : object) (configID : string) : string * string :=
  match GoValue.get "credential_configurations_supported" metadata with
  | Some (VObj configs) =>
      match GoValue.get configID configs with
      | Some (VObj config) => (get_string config "vct", get_string config "doctype")
      | _ => ("", "")
      end
  | _ => ("", "")
  end.

Definition newDeferredIssuance (id : string) (now : time) (t : deferredTransaction) : result string DeferredIssuance :=
  let endpoint := get_string (tx_metadata t) "deferred_credential_endpoint" in
  if (endpoint =? "")%string then Err "issuer deferred the credential but published no deferred_credential_endpoint"
  else
    let '(vct, docType) := credentialTypeForConfiguration (tx_metadata t) (ren_ConfigurationID (tx_renewal t)) in
    Ok (mkDeferred id (tx_transactionID t) endpoint (tx_renewal t) (tx_format t) vct docType (tx_display t)
          (accessToken (tx_grant t)) (authScheme (tx_grant t)) (expiresAt (tx_grant t) now)
          (Z.max (Z.quot (tx_interval t) Second) 1) now (add now (tx_interval t)) 0 "" (tx_proofKeys t)).

(** ** The wallet's list of records and the server's claims *)

Record deferring := mkDeferring {
  issuances : list DeferredIssuance;
  capacity_deferred : Z;
  deferredInFlight : gset string;
  imports : list string;
  claims : list (string * string * bool) }.

Definition with_issuances (s : deferring) (l : list DeferredIssuance) : deferring :=
  mkDeferring l (capacity_deferred s) (deferredInFlight s) (imports s) (claims s).

Definition AddDeferredIssuance (pending : DeferredIssuance) (s : deferring) : deferring :=
  let l := issuances s in
  let l := if (0 <? capacity_deferred s) && (capacity_deferred s <=? Z.of_nat (length l))
           then drop (Z.to_nat (Z.of_nat (length l) - capacity_deferred s + 1)) l else l in
  with_issuances s (l ++ [pending]).

(** The first record with the id is removed. *)
Fixpoint remove_first (id : string) (l : list DeferredIssuance) : list DeferredIssuance :=
  match l with
  | [] => []
  | p :: l => if (DID p =? id)%string then l else p :: remove_first id l
  end.

Definition RemoveDeferredIssuance (id : string) (s : deferring) : deferring :=
  with_issuances s (remove_first id (issuances s)).

Fixpoint update_first_record (id : string) (apply : DeferredIssuance -> DeferredIssuance) (l : list DeferredIssuance) : list DeferredIssuance :=
  match l with
  | [] => []
  | p :: l => if (DID p =? id)%string then apply p :: l else p :: update_first_record id apply l
  end.

Definition UpdateDeferredIssuance (id : string) (apply : DeferredIssuance -> DeferredIssuance) (s : deferring) : deferring :=
  with_issuances s (update_first_record id apply (issuances s)).

Definition with_schedule (p : DeferredIssuance) (interval attempts : Z) (next : time) (lastErr : string) : DeferredIssuance :=
  mkDeferred (DID p) (TransactionID p) (DeferredEndpoint p) (DRenewal p) (DFormat p) (DVCT p) (DDocType p) (DDisplay p)
    (AccessToken p) (AuthScheme p) (AccessTokenExpiresAt p) interval (CreatedAt p) next attempts lastErr (ProofKeyPEMs p).

Definition with_refresh_token (r : CredentialRenewal) (token : string) : CredentialRenewal :=
  mkRenewal (ren_Issuer r) (ren_TokenEndpoint r) (ren_CredentialEndpoint r) (ren_ConfigurationID r) (ren_ClientID r)
    token (ren_UseDPoP r) (ren_ClientAuth r).

Definition with_tokens (p : DeferredIssuance) (token scheme refresh : string) (expires : time) : DeferredIssuance :=
  mkDeferred (DID p) (TransactionID p) (DeferredEndpoint p) (with_refresh_token (DRenewal p) refresh) (DFormat p) (DVCT p) (DDocType p)
    (DDisplay p) token scheme expires (IntervalSeconds p) (CreatedAt p) (NextAttemptAt p) (Attempts p) (LastError p) (ProofKeyPEMs p).

(** ** One collection *)

Inductive DeferredAttempt : Type :=
| InProgress
| Collected
| Rescheduled (next : time) (interval : Z) (reason : string)
| Abandoned (reason : string).

(** What deferredCredentialAttempt comes to. *)
Inductive response : Type :=
| Issued
| StillPending (interval : Z)
| Refused (message : string).

(** What the token endpoint answers, and the time it does. *)
Record refresh_answer := mkRefresh { grant_of : option accessGrant; refresh_error : option string; refreshed_at : time }.

Record answers := mkAnswers {
  keys_error : option string;
  asked_at : time;
  first_refresh : refresh_answer;
  metadata_error : option string;
  issuer_error : option string;
  encryption_error : option string;
  first_response : response;
  second_refresh : refresh_answer;
  second_response : response;
  store_error : option string;
  answered_at : time }.

Definition isAuthorizationRejected (message : string) : bool :=
  Contains message "HTTP 401" || Contains message "HTTP 403" || Contains message "invalid_token".

Definition fatal_errors : list string :=
  ["invalid_token"; "invalid_grant"; "invalid_transaction_id"; "invalid_request"; "invalid_client"; "expired"; "HTTP 401"; "HTTP 403"].

Definition isRetryableDeferredError (message : string) : bool := negb (existsb (Contains message) fatal_errors).

Abbreviation dprog := (prog deferring).

Definition beginDeferredCollection (me id : string) : dprog bool :=
  atomic (fun s =>
    if bool_decide (id ∈ deferredInFlight s) then (s, false)
    else (mkDeferring (issuances s) (capacity_deferred s) ({[id]} ∪ deferredInFlight s) (imports s) (claims s ++ [(me, id, true)]), true)).

Definition endDeferredCollection (me id : string) : dprog () :=
  modify (fun s => mkDeferring (issuances s) (capacity_deferred s) (deferredInFlight s ∖ {[id]}) (imports s) (claims s ++ [(me, id, false)])).

Definition rescheduled (p : DeferredIssuance) (next : time) (interval : Z) (lastErr : string) : DeferredIssuance :=
  let secs := Z.quot interval Second in
  with_schedule p (if 1 <=? secs then secs else IntervalSeconds p) (wrap64 (Attempts p + 1)) next lastErr.

Definition rescheduleDeferred (now : time) (pending : DeferredIssuance) (interval : Z) (lastErr : string) : dprog DeferredAttempt :=
  let next := add now interval in
  do _ <- modify (UpdateDeferredIssuance (DID pending) (fun p => rescheduled p next interval lastErr));
  Ret (Rescheduled next interval lastErr).

Definition abandonDeferred (pending : DeferredIssuance) (reason : string) : dprog DeferredAttempt :=
  do _ <- modify (RemoveDeferredIssuance (DID pending));
  Ret (Abandoned reason).

(** A rotated refresh token is saved even when the answer fails a check. *)
Definition refreshed_record (pending : DeferredIssuance) (a : refresh_answer) (g : accessGrant) : DeferredIssuance :=
  let refresh := if (refreshToken g =? "")%string then ren_RefreshToken (DRenewal pending) else refreshToken g in
  match refresh_error a with
  | None => with_tokens pending (accessToken g) (authScheme g) refresh (expiresAt g (refreshed_at a))
  | Some _ => with_tokens pending (AccessToken pending) (AuthScheme pending) refresh (AccessTokenExpiresAt pending)
  end.

Definition refreshDeferredAccessToken (a : refresh_answer) (pending : DeferredIssuance) : dprog (DeferredIssuance * option string) :=
  match grant_of a with
  | None => Ret (pending, refresh_error a)
  | Some g =>
      let updated := refreshed_record pending a g in
      do _ <- modify (UpdateDeferredIssuance (DID updated) (fun p =>
                with_tokens p (AccessToken updated) (AuthScheme updated) (ren_RefreshToken (DRenewal updated)) (AccessTokenExpiresAt updated)));
      Ret (updated, refresh_error a)
  end.

Definition handleDeferredAttemptError (now : time) (pending : DeferredIssuance) (r : response) : dprog DeferredAttempt :=
  match r with
  | StillPending interval => rescheduleDeferred now pending interval ""
  | Refused message =>
      if isRetryableDeferredError message then rescheduleDeferred now pending (Interval pending) message
      else abandonDeferred pending message
  | Issued => abandonDeferred pending ""
  end.

(** The issued credential is stored, then its record is removed. *)
Definition import_collected (a : answers) (pending : DeferredIssuance) : dprog DeferredAttempt :=
  match store_error a with
  | Some e => abandonDeferred pending e
  | None =>
      do _ <- modify (fun s => mkDeferring (issuances s) (capacity_deferred s) (deferredInFlight s) (imports s ++ [DID pending]) (claims s));
      do _ <- modify (RemoveDeferredIssuance (DID pending));
      Ret Collected
  end.

(** The request with its one retry after a refused authorization. *)
Definition deferred_request (a : answers) (pending : DeferredIssuance) : dprog (DeferredIssuance * response) :=
  match first_response a with
  | Refused message =>
      if isAuthorizationRejected message && CanRefresh pending then
        do (refreshed, err) <- refreshDeferredAccessToken (second_refresh a) pending;
        match err with
        | None => Ret (refreshed, second_response a)
        | Some _ => Ret (pending, Refused message)
        end
      else Ret (pending, Refused message)
  | r => Ret (pending, r)
  end.

Definition collect_claimed (a : answers) (pending : DeferredIssuance) : dprog DeferredAttempt :=
  match keys_error a with
  | Some e => abandonDeferred pending ("its proof keys could not be read back: " +:+ e)
  | None =>
      do (pending, err) <-
        (if AccessTokenExpired pending (asked_at a) && CanRefresh pending
         then refreshDeferredAccessToken (first_refresh a) pending else Ret (pending, None));
      match err with
      | Some e => abandonDeferred pending ("its access token expired and could not be renewed: " +:+ e)
      | None =>
          match metadata_error a with
          | Some e => rescheduleDeferred (answered_at a) pending (Interval pending) ("the issuer metadata can't be used: " +:+ e)
          | None =>
              match issuer_error a with
              | Some e => abandonDeferred pending e
              | None =>
                  match encryption_error a with
                  | Some e => rescheduleDeferred (answered_at a) pending (Interval pending) e
                  | None =>
                      do (pending, r) <- deferred_request a pending;
                      match r with
                      | Issued => import_collected a pending
                      | r => handleDeferredAttemptError (answered_at a) pending r
                      end
                  end
              end
          end
      end
  end.

Definition attemptDeferredCollection (me : string) (a : answers) (pending : DeferredIssuance) : dprog DeferredAttempt :=
  do claimed <- beginDeferredCollection me (DID pending);
  if claimed then
    do r <- collect_claimed a pending;
    do _ <- endDeferredCollection me (DID pending);
    Ret r
  else Ret InProgress.

(** ** The sweep and the requests of the user *)

Fixpoint sweep (me : string) (now : time) (a : DeferredIssuance -> answers) (l : list DeferredIssuance) : dprog () :=
  match l with
  | [] => Ret ()
  | pending :: l =>
      if after (NextAttemptAt pending) now then sweep me now a l
      else if Expired pending now then
        do _ <- abandonDeferred pending "the issuer did not produce it within 24h0m0s"; sweep me now a l
      else
        do _ <- attemptDeferredCollection me (a pending) pending; sweep me now a l
  end.

Definition collectDueDeferredCredentials (me : string) (now : time) (a : DeferredIssuance -> answers) : dprog () :=
  do l <- get issuances; sweep me now a l.

Definition CollectDeferredNow (me id : string) (a : answers) : dprog (option DeferredAttempt) :=
  do l <- get issuances;
  match List.find (fun p => (DID p =? id)%string) l with
  | Some pending => do r <- attemptDeferredCollection me a pending; Ret (Some r)
  | None => Ret None
  end.

Definition AbandonDeferredNow (id : string) : dprog (option DeferredIssuance) :=
  do l <- get issuances;
  match List.find (fun p => (DID p =? id)%string) l with
  | Some pending => do _ <- modify (RemoveDeferredIssuance (DID pending)); Ret (Some pending)
  | None => Ret None
  end.

(** ** The background loop *)

Record taskState := mkTask { lastRun : time; failures : Z; abandoned : bool }.

Definition maxTaskFailures : Z := 5.

(** One tick for one task that is run [every] so often; [fails] is the
    outcome a run at this tick has, panics included. *)
Definition tick (every : Z) (now : time) (fails : bool) (st : taskState) : taskState * bool :=
  if abandoned st then (st, false)
  else if (failures st =? 0) && negb (is_zero (lastRun st)) && (sub now (lastRun st) <? every) then (st, false)
  else if fails then
    (mkTask now (failures st + 1) (maxTaskFailures <=? failures st + 1), true)
  else (mkTask now 0 false, true).

Fixpoint ticks (every : Z) (l : list (time * bool)) (st : taskState) : taskState :=
  match l with
  | [] => st
  | (now, fails) :: l => ticks every l (fst (tick every now fails st))
  end.
