(* ===== verification/DeferredFacts.v ===== *)
(** * DeferredFacts: collections do not overlap, expired records leave *)

From stdpp Require Import base list strings gmap relations.
From Stdlib Require Import ZArith Lia Ascii.
From S2P Require Import Prelude GoStrings GoValue Validity WalletState Conc Deferred.

Local Open Scope Z_scope.

(** ** Claims *)

(** The thread whose claim of [id] is not released yet. *)
Definition holder (l : list (string * string * bool)) (id : string) : option string :=
  fold_left (fun (h : option string) (ev : string * string * bool) =>
    if (ev.1.2 =? id)%string then if ev.2 then Some ev.1.1 else None else h) l None.

Lemma holder_snoc l t i b id :
  holder (l ++ [(t, i, b)]) id = if (i =? id)%string then if b then Some t else None else holder l id.
Proof. unfold holder. by rewrite fold_left_app. Qed.

(** A record is claimed only when it is free, and released by its claimer. *)
Inductive claims_ok : list (string * string * bool) -> Prop :=
| claims_nil : claims_ok []
| claims_begin l t id : claims_ok l -> holder l id = None -> claims_ok (l ++ [(t, id, true)])
| claims_end l t id : claims_ok l -> holder l id = Some t -> claims_ok (l ++ [(t, id, false)]).

Lemma claims_ok_prefix l1 l2 : claims_ok (l1 ++ l2) -> claims_ok l1.
Proof.
  remember (l1 ++ l2) as l eqn:E. intros H. revert l1 l2 E. induction H as [|l t id H IH Hh|l t id H IH Hh]; intros l1 l2 E.
  - symmetry in E. apply app_eq_nil in E as [-> _]. constructor.
  - destruct l2 as [|x l2 _] using rev_ind; [rewrite app_nil_r in E; subst l1; by constructor|].
    rewrite app_assoc in E. apply app_inj_tail in E as [-> _]. by eapply IH.
  - destruct l2 as [|x l2 _] using rev_ind; [rewrite app_nil_r in E; subst l1; by constructor|].
    rewrite app_assoc in E. apply app_inj_tail in E as [-> _]. by eapply IH.
Qed.

(** Whoever holds a record after some more events either held it from before
    or released in between. *)
Lemma holder_until l t id l3 : claims_ok (l ++ l3) -> holder l id = Some t -> holder (l ++ l3) id = Some t \/ (t, id, false) ∈ l3.
Proof.
  intros Hok Hh. induction l3 as [|[[t' id'] b] l3 IH] using rev_ind; [left; by rewrite app_nil_r|].
  rewrite app_assoc in Hok |- *. destruct (IH (claims_ok_prefix _ _ Hok)) as [IH'|IH']; [|right; set_solver].
  rewrite holder_snoc. destruct (String.eqb_spec id' id) as [->|Hne]; [|by left].
  inversion Hok as [E|l' t'' id'' H1 H2 E|l' t'' id'' H1 H2 E]; [by destruct (app_cons_not_nil (l ++ l3) [] (t', id, b))| |].
  - apply app_inj_tail in E as [-> [= -> -> <-]]. congruence.
  - apply app_inj_tail in E as [-> [= -> -> <-]]. assert (t' = t) as -> by congruence. right. set_solver.
Qed.

(** A record is held exactly if it has a claim without a later release. *)
Lemma holder_open l id :
  claims_ok l -> is_Some (holder l id) <-> exists l1 t l2, l = l1 ++ (t, id, true) :: l2 /\ forall t', (t', id, false) ∉ l2.
Proof.
  intros Hok. split.
  - clear Hok. intros [t Ht]. induction l as [|[[t' id'] b] l IH] using rev_ind; [done|].
    rewrite holder_snoc in Ht. destruct (String.eqb_spec id' id) as [->|Hne].
    + destruct b; [|done]. exists l, t', []. split; [done|]. by intros ? ?%not_elem_of_nil.
    + destruct (IH Ht) as (l1 & t1 & l2 & -> & Hn). exists l1, t1, (l2 ++ [(t', id', b)]). split; [by rewrite <- app_assoc|].
      intros t2. rewrite elem_of_app, list_elem_of_singleton. intros [Hin|[= -> <- <-]]; [by eapply Hn|done].
  - intros (l1 & t & l2 & -> & Hn). exists t.
    change (l1 ++ (t, id, true) :: l2) with (l1 ++ [(t, id, true)] ++ l2) in *. rewrite app_assoc in *.
    destruct (holder_until _ t id l2 Hok) as [?|Hin]; [by rewrite holder_snoc, String.eqb_refl|done|]. by apply Hn in Hin.
Qed.

Lemma claims_alternate l1 t id l3 t' l4 :
  claims_ok (l1 ++ (t, id, true) :: l3 ++ (t', id, true) :: l4) -> (t, id, false) ∈ l3.
Proof.
  intros Hok. change (l1 ++ (t, id, true) :: l3 ++ (t', id, true) :: l4) with (l1 ++ [(t, id, true)] ++ l3 ++ [(t', id, true)] ++ l4) in Hok.
  rewrite !app_assoc in Hok. apply claims_ok_prefix in Hok.
  assert (Hpre := claims_ok_prefix _ _ Hok).
  assert (Hh : holder (l1 ++ [(t, id, true)]) id = Some t) by (rewrite holder_snoc; by rewrite String.eqb_refl).
  destruct (holder_until _ t id l3 Hpre Hh) as [Hl|]; [|done]. exfalso.
  inversion Hok as [E|l' t'' id'' H1 H2 E|l' t'' id'' H1 H2 E].
  - by destruct (app_cons_not_nil ((l1 ++ [(t, id, true)]) ++ l3) [] (t', id, true)).
  - apply app_inj_tail in E as [-> [= -> ->]]. congruence.
  - by apply app_inj_tail in E as [_ [=]].
Qed.

(** ** The programs respect the claims *)

Definition all_live (s : deferring) : Prop := True.

Definition claims_inv (s : deferring) : Prop :=
  claims_ok (claims s) /\ forall id, id ∈ deferredInFlight s <-> is_Some (holder (claims s) id).

Definition keeps_claims (t : string) (s s' : deferring) : Prop :=
  forall t', t' <> t -> forall id, holder (claims s) id = Some t' <-> holder (claims s') id = Some t'.

Definition holds_nothing (t : string) (s : deferring) : Prop := forall id, holder (claims s) id <> Some t.
Definition holds_only (t id : string) (s : deferring) : Prop := forall id', holder (claims s) id' = Some t <-> id' = id.

Abbreviation dsafe := (safe all_live (fun s : deferring => s) claims_inv keeps_claims).

Lemma holds_nothing_stable t : stable claims_inv keeps_claims t (holds_nothing t).
Proof. intros s s' (_ & _ & t' & Ht & Hg) H id Hs'. apply (H id). apply (Hg t ltac:(done)). done. Qed.

Lemma holds_only_stable t id : stable claims_inv keeps_claims t (holds_only t id).
Proof. intros s s' (_ & _ & t' & Ht & Hg) H id'. rewrite <- (Hg t ltac:(done)). apply H. Qed.

(** Programs that leave the claims alone. *)
Fixpoint quiet {A} (p : dprog A) : Prop :=
  match p with
  | Ret _ => True
  | Do f k => (forall s, claims (fst (f s)) = claims s /\ deferredInFlight (fst (f s)) = deferredInFlight s) /\ forall r, quiet (k r)
  end.

Lemma quiet_bind {A B} (p : dprog A) (g : A -> dprog B) : quiet p -> (forall a, quiet (g a)) -> quiet (bind p g).
Proof. induction p as [a|R f k IH]; simpl; [auto|]. intros [Hf Hk] Hg. split; [done|]. auto. Qed.

Lemma quiet_modify (f : deferring -> deferring) :
  (forall s, claims (f s) = claims s /\ deferredInFlight (f s) = deferredInFlight s) -> quiet (modify f).
Proof. done. Qed.

Lemma quiet_safe {A} t (p : dprog A) (I : deferring -> Prop) s :
  quiet p -> stable claims_inv keeps_claims t I -> (forall s s', claims s' = claims s -> I s -> I s') -> I s ->
  dsafe t p (fun _ => I) s.
Proof.
  intros Hq Hst Hc. revert s. induction p as [a|R f k IH]; intros s HI; [by apply safe_ret|].
  destruct Hq as [Hf Hk]. apply (safe_do _ _ _ _ t I); [done|done|].
  clear s HI. intros s HI [Hok Hin] _. destruct (Hf s) as [Ec Ei]. exists (fst (f s)). split; [done|split; [|split]].
  - intros t' _ id. by rewrite Ec.
  - split; [by rewrite Ec|]. intros id. by rewrite Ei, Ec.
  - apply IH; [done|]. by eapply Hc.
Qed.

Lemma quiet_collect a pending : quiet (collect_claimed a pending).
Proof.
  assert (Hres : forall now p i e, quiet (rescheduleDeferred now p i e)) by (intros; apply quiet_bind; [by apply quiet_modify|done]).
  assert (Hab : forall p e, quiet (abandonDeferred p e)) by (intros; apply quiet_bind; [by apply quiet_modify|done]).
  assert (Href : forall r p, quiet (refreshDeferredAccessToken r p)).
  { intros r p. unfold refreshDeferredAccessToken. destruct (grant_of r); [|done]. apply quiet_bind; [by apply quiet_modify|done]. }
  assert (Hreq : forall p, quiet (deferred_request a p)).
  { intros p. unfold deferred_request. destruct (first_response a); [done|done|]. destruct (_ && _); [|done].
    apply quiet_bind; [done|]. by intros [? []]. }
  unfold collect_claimed. destruct (keys_error a); [done|]. apply quiet_bind; [by destruct (_ && _)|]. intros [p [e|]]; [done|].
  destruct (metadata_error a); [done|]. destruct (issuer_error a); [done|]. destruct (encryption_error a); [done|].
  apply quiet_bind; [done|]. intros [p' r]. destruct r as [|i|m].
  - unfold import_collected. destruct (store_error a); [done|]. apply quiet_bind; [by apply quiet_modify|]. intros _.
    apply quiet_bind; [by apply quiet_modify|done].
  - exact (Hres _ _ _ _).
  - unfold handleDeferredAttemptError. destruct (isRetryableDeferredError m); [exact (Hres _ _ _ _)|exact (Hab _ _)].
Qed.

Lemma safe_collection me a pending s :
  claims_inv s -> holds_nothing me s -> dsafe me (attemptDeferredCollection me a pending) (fun _ => holds_nothing me) s.
Proof.
  intros Hi Hn. unfold attemptDeferredCollection.
  apply (safe_do _ _ _ _ me (holds_nothing me)); [apply holds_nothing_stable|done|].
  clear s Hi Hn. intros s Hn [Hok Hin] _. destruct (bool_decide (DID pending ∈ deferredInFlight s)) eqn:Ed; simpl.
  - exists s. split; [done|split; [by intros t' _ id|split; [done|]]]. apply safe_ret; [apply holds_nothing_stable|done].
  - apply bool_decide_eq_false in Ed. set (id := DID pending).
    assert (Hfree : holder (claims s) id = None).
    { destruct (holder (claims s) id) as [h|] eqn:E; [|done]. destruct Ed. apply Hin. exists h. exact E. }
    set (s1 := mkDeferring _ _ _ _ _).
    assert (Hh : forall id', holder (claims s1) id' = if (id =? id')%string then Some me else holder (claims s) id').
    { intros id'. unfold s1. simpl. by rewrite holder_snoc. }
    assert (Hi1 : claims_inv s1).
    { split; [by apply claims_begin|]. intros id'. rewrite Hh. unfold s1. simpl. rewrite elem_of_union, elem_of_singleton.
      destruct (String.eqb_spec id id') as [->|Hne]; [by split; [eexists|left]|]. rewrite Hin. split; [by intros [->|?]|by right]. }
    exists s1. split; [done|split; [|split; [done|]]].
    { intros t' Ht' id'. rewrite Hh. destruct (String.eqb_spec id id') as [<-|]; [|done]. rewrite Hfree. split; [done|congruence]. }
    assert (Hold : holds_only me id s1).
    { intros id'. rewrite Hh. destruct (String.eqb_spec id id') as [<-|Hne]; [done|]. split; [by intros ?%Hn|congruence]. }
    apply safe_bind; [done|]. eapply (safe_weaken _ _ _ _ me); [|apply (quiet_safe me _ (holds_only me id)); [apply quiet_collect|apply holds_only_stable| |exact Hold]].
    2: { intros s2 s3 E H2 id'. rewrite E. apply H2. }
    intros r s2 Hi2 Hold2. apply (safe_do _ _ _ _ me (holds_only me id)); [apply holds_only_stable|done|].
    clear s1 s2 Hi1 Hi2 Hold Hold2 Hh. intros s2 Hold [Hok2 Hin2] _.
    set (s3 := mkDeferring _ _ _ _ _).
    assert (Hh : forall id', holder (claims s3) id' = if (id =? id')%string then None else holder (claims s2) id').
    { intros id'. unfold s3. simpl. by rewrite holder_snoc. }
    exists s3. split; [done|split; [|split; [split|]]].
    + intros t' Ht' id'. rewrite Hh. destruct (String.eqb_spec id id') as [<-|]; [|done].
      assert (holder (claims s2) id = Some me) as -> by by apply Hold. split; [congruence|done].
    + apply claims_end; [done|]. by apply Hold.
    + intros id'. rewrite Hh. unfold s3. simpl. rewrite elem_of_difference, elem_of_singleton, Hin2.
      destruct (String.eqb_spec id id') as [->|Hne]; [split; [by intros [_ ?]|by intros [? ?]]|]. split; [by intros [? _]|]. intros ?. split; [done|congruence].
    + apply safe_ret; [apply holds_nothing_stable|]. intros id'. rewrite Hh. destruct (String.eqb_spec id id') as [<-|Hne]; [done|].
      intros E. apply Hold in E. congruence.
Qed.

(** ** Servers that sweep, collect and abandon at the same time *)

Inductive deferred_operation (me : string) : dprog () -> Prop :=
| dop_sweep now a : deferred_operation me (collectDueDeferredCredentials me now a)
| dop_collect id a : deferred_operation me (do _ <- CollectDeferredNow me id a; Ret ())
| dop_abandon id : deferred_operation me (do _ <- AbandonDeferredNow id; Ret ()).

Definition deferred_step : deferring * pool deferring () -> deferring * pool deferring () -> Prop :=
  pool_step all_live (fun _ => True) deferred_operation.

Definition no_claims (s : deferring) : Prop := claims s = [] /\ deferredInFlight s = ∅.

Lemma quiet_abandon p e : quiet (abandonDeferred p e).
Proof. apply quiet_bind; [by apply quiet_modify|done]. Qed.

Lemma quiet_holds {A} t (p : dprog A) s :
  quiet p -> holds_nothing t s -> dsafe t p (fun _ => holds_nothing t) s.
Proof.
  intros Hq Hn. apply quiet_safe; [done|apply holds_nothing_stable| |done]. intros s1 s2 E H id. rewrite E. apply H.
Qed.

Lemma safe_then {A B} t (p : dprog A) (g : A -> dprog B) s :
  claims_inv s -> dsafe t p (fun _ => holds_nothing t) s ->
  (forall a s, claims_inv s -> holds_nothing t s -> dsafe t (g a) (fun _ => holds_nothing t) s) ->
  dsafe t (bind p g) (fun _ => holds_nothing t) s.
Proof. intros Hi Hp Hg. apply safe_bind; [done|]. eapply safe_weaken; [|exact Hp]. intros a s' Hi' H'. by apply Hg. Qed.

Lemma safe_ret_nothing {A} t (a : A) s : holds_nothing t s -> dsafe t (Ret a) (fun _ => holds_nothing t) s.
Proof. intros Hn. eapply safe_ret; [apply holds_nothing_stable|done]. Qed.

Lemma safe_sweep me now a l s : claims_inv s -> holds_nothing me s -> dsafe me (sweep me now a l) (fun _ => holds_nothing me) s.
Proof.
  revert s. induction l as [|p l IH]; intros s Hi Hn; [by apply safe_ret_nothing|].
  cbn [sweep]. destruct (after (NextAttemptAt p) now); [by apply IH|]. destruct (Expired p now).
  - apply safe_then; [done|by apply quiet_holds; [apply quiet_abandon|]|]. intros _ s' Hi' Hn'. by apply IH.
  - apply safe_then; [done|by apply safe_collection|]. intros _ s' Hi' Hn'. by apply IH.
Qed.

Lemma quiet_get {R} (f : deferring -> R) : quiet (get f).
Proof. done. Qed.

Lemma deferred_operation_safe t p s :
  deferred_operation t p -> claims_inv s -> holds_nothing t s -> dsafe t p (fun _ => holds_nothing t) s.
Proof.
  intros [now a|id a|id] Hi Hn.
  - apply safe_then; [done|by apply quiet_holds; [apply quiet_get|]|]. intros l s' Hi' Hn'. by apply safe_sweep.
  - apply safe_then; [done| |intros; by apply safe_ret_nothing].
    apply safe_then; [done|by apply quiet_holds; [apply quiet_get|]|]. intros l s' Hi' Hn'.
    destruct (List.find _ l) as [rec|]; [|by apply safe_ret_nothing].
    apply safe_then; [done|by apply safe_collection|]. intros; by apply safe_ret_nothing.
  - apply quiet_holds; [|done]. apply quiet_bind; [|done]. apply quiet_bind; [done|]. intros l.
    destruct (List.find _ l); [|done]. by apply quiet_bind; [apply quiet_modify|].
Qed.

Lemma deferred_reachable s0 s P : no_claims s0 -> rtc deferred_step (s0, ∅) (s, P) -> claims_inv s.
Proof.
  intros [Hc He] Hsteps.
  assert (Hok : pool_ok all_live (fun s => s) claims_inv keeps_claims holds_nothing (fun t (_ : ()) => holds_nothing t) (s0, ∅)).
  { exists s0. split; [done|split].
    - split; [rewrite Hc; constructor|]. intros id. rewrite Hc, He. split; [by intros ?%not_elem_of_empty|by intros [? ?]].
    - intros t. unfold thread_ok. cbn [snd]. rewrite lookup_empty. intros id. by rewrite Hc. }
  assert (Hend : pool_ok all_live (fun s => s) claims_inv keeps_claims holds_nothing (fun t (_ : ()) => holds_nothing t) (s, P)).
  { eapply pool_ok_steps; [| | |exact Hsteps|exact Hok].
    - intros t. apply holds_nothing_stable.
    - done.
    - intros. by apply deferred_operation_safe. }
  destruct Hend as (w & E & Hi & _). simpl in E. by rewrite <- E.
Qed.

(** ** A sweep on its own *)

Definition dids (s : deferring) : list string := DID <$> issuances s.

Lemma remove_first_ids id l : DID <$> remove_first id l `sublist_of` DID <$> l.
Proof.
  induction l as [|p l IH]; simpl; [constructor|]. destruct (DID p =? id)%string; [by constructor|]. by constructor.
Qed.

Lemma update_record_ids id f l : (forall p, DID (f p) = DID p) -> DID <$> update_first_record id f l = DID <$> l.
Proof. intros Hf. induction l as [|p l IH]; csimpl; [done|]. destruct (DID p =? id)%string; csimpl; [by rewrite Hf|by rewrite IH]. Qed.

Lemma remove_first_gone id l : NoDup (DID <$> l) -> id ∉ DID <$> remove_first id l.
Proof.
  induction l as [|p l IH]; csimpl; [by intros _ ?%not_elem_of_nil|]. intros [Hn Hnd]%NoDup_cons.
  destruct (String.eqb_spec (DID p) id) as [<-|Hne]; [done|]. csimpl. rewrite not_elem_of_cons. auto.
Qed.

(** Programs that only remove records or rewrite them under their ids. *)
Fixpoint shrinking {A} (p : dprog A) : Prop :=
  match p with
  | Ret _ => True
  | Do f k => (forall s, dids (fst (f s)) `sublist_of` dids s) /\ forall r, shrinking (k r)
  end.

Lemma shrinking_bind {A B} (p : dprog A) (g : A -> dprog B) : shrinking p -> (forall a, shrinking (g a)) -> shrinking (bind p g).
Proof. induction p as [a|R f k IH]; simpl; [auto|]. intros [Hf Hk] Hg. split; [done|]. auto. Qed.

Lemma shrinking_run {A} (p : dprog A) s : shrinking p -> dids (fst (run p s)) `sublist_of` dids s.
Proof.
  revert s. induction p as [a|R f k IH]; intros s; simpl; [done|]. intros [Hf Hk]. etrans; [by apply IH|apply Hf].
Qed.

Lemma shrinking_modify (f : deferring -> deferring) : (forall s, dids (f s) `sublist_of` dids s) -> shrinking (modify f).
Proof. done. Qed.

Lemma shrinking_remove id : shrinking (modify (RemoveDeferredIssuance id)).
Proof. split; [|done]. intros s. apply remove_first_ids. Qed.

Lemma shrinking_update id f : (forall p, DID (f p) = DID p) -> shrinking (modify (UpdateDeferredIssuance id f)).
Proof. intros Hf. split; [|done]. intros s. unfold dids. simpl. by rewrite update_record_ids. Qed.

Lemma shrinking_abandon p e : shrinking (abandonDeferred p e).
Proof. apply shrinking_bind; [apply shrinking_remove|done]. Qed.

Lemma shrinking_collect a pending : shrinking (collect_claimed a pending).
Proof.
  assert (Hres : forall now p i e, shrinking (rescheduleDeferred now p i e)) by (intros; apply shrinking_bind; [by apply shrinking_update|done]).
  assert (Href : forall r p, shrinking (refreshDeferredAccessToken r p)).
  { intros r p. unfold refreshDeferredAccessToken. destruct (grant_of r); [|done]. apply shrinking_bind; [by apply shrinking_update|done]. }
  assert (Hreq : forall p, shrinking (deferred_request a p)).
  { intros p. unfold deferred_request. destruct (first_response a); [done|done|]. destruct (_ && _); [|done].
    apply shrinking_bind; [done|]. by intros [? []]. }
  unfold collect_claimed. destruct (keys_error a); [apply shrinking_abandon|].
  apply shrinking_bind; [by destruct (_ && _)|]. intros [p [e|]]; [apply shrinking_abandon|].
  destruct (metadata_error a); [exact (Hres _ _ _ _)|]. destruct (issuer_error a); [apply shrinking_abandon|].
  destruct (encryption_error a); [exact (Hres _ _ _ _)|].
  apply shrinking_bind; [done|]. intros [p' r]. destruct r as [|i|m].
  - unfold import_collected. destruct (store_error a); [apply shrinking_abandon|].
    apply shrinking_bind; [by apply shrinking_modify|]. intros _. apply shrinking_bind; [apply shrinking_remove|done].
  - exact (Hres _ _ _ _).
  - unfold handleDeferredAttemptError. destruct (isRetryableDeferredError m); [exact (Hres _ _ _ _)|apply shrinking_abandon].
Qed.

Lemma shrinking_attempt me a pending : shrinking (attemptDeferredCollection me a pending).
Proof.
  apply shrinking_bind.
  - split; [|done]. intros s. by destruct (bool_decide _).
  - intros [|]; [|done]. apply shrinking_bind; [apply shrinking_collect|]. intros r. by apply shrinking_bind; [apply shrinking_modify|].
Qed.

Lemma shrinking_sweep me now a l : shrinking (sweep me now a l).
Proof.
  induction l as [|p l IH]; [done|]. cbn [sweep]. destruct (after _ _); [done|]. destruct (Expired _ _).
  - apply shrinking_bind; [apply shrinking_abandon|done].
  - apply shrinking_bind; [apply shrinking_attempt|done].
Qed.

Definition overdue (now : time) (p : DeferredIssuance) : Prop := after (NextAttemptAt p) now = false /\ Expired p now = true.

Lemma sweep_removes me now a l s p :
  NoDup (dids s) -> p ∈ l -> overdue now p -> DID p ∉ dids (fst (run (sweep me now a l) s)).
Proof.
  revert s. induction l as [|q l IH]; intros s Hnd Hp [Hdue Hexp]; [by apply not_elem_of_nil in Hp|].
  cbn [sweep]. apply elem_of_cons in Hp as [<-|Hp].
  - rewrite Hdue, Hexp. rewrite run_bind. intros Hin.
    eapply elem_of_sublist in Hin; [|apply shrinking_run, shrinking_sweep]. simpl in Hin. by apply remove_first_gone in Hin.
  - assert (Hrun : forall B (q : dprog B), shrinking q -> NoDup (dids (fst (run q s)))).
    { intros B q' Hq. by eapply sublist_NoDup; [|apply shrinking_run]. }
    destruct (after (NextAttemptAt q) now); [by apply IH|]. destruct (Expired q now); rewrite run_bind; apply IH; try done; apply Hrun;
      [apply shrinking_abandon|apply shrinking_attempt].
Qed.

(** ** The background loop *)

Definition task_ok (st : taskState) : Prop :=
  0 <= failures st <= maxTaskFailures /\ (abandoned st = true <-> failures st = maxTaskFailures).

Lemma tick_ok every now fails st : task_ok st -> task_ok (fst (tick every now fails st)).
Proof.
  unfold tick. intros Hok. destruct (abandoned st) eqn:Ea; [done|]. destruct (_ && _); [done|].
  destruct Hok as [Hf Ha]. rewrite Ea in Ha. unfold task_ok, maxTaskFailures in *. destruct fails; simpl.
  - assert (failures st <> 5) by (intros E; by apply Ha in E). split; [lia|]. rewrite Z.leb_le. lia.
  - split; [lia|]. split; [done|lia].
Qed.

Lemma ticks_ok every l st : task_ok st -> task_ok (ticks every l st).
Proof. revert st. induction l as [|[now fails] l IH]; intros st H; [done|]. by apply IH, tick_ok. Qed.

(** An abandoned task never runs again; a run that succeeds clears the
    failures; a task with failures runs at every tick. *)
Lemma tick_cases every now fails st :
  (abandoned st = true -> tick every now fails st = (st, false)) /\
  (abandoned st = false -> 0 < failures st -> snd (tick every now fails st) = true) /\
  (snd (tick every now false st) = true -> failures (fst (tick every now false st)) = 0).
Proof.
  unfold tick. split_and!.
  - by intros ->.
  - intros ->. intros Hf. destruct (Z.eqb_spec (failures st) 0); [lia|]. by destruct fails.
  - destruct (abandoned st); [done|]. by destruct (_ && _).
Qed.

(** ** Properties *)

(** C34: two collections of one deferred record never overlap: whatever
    sweeps, collections and abandonments run at the same time, between two
    claims of a record the first claimer has released it.  The in-flight set
    says which collections are running: a record is in it exactly while some
    claim of it is not released. *)
Theorem collections_do_not_overlap s0 s P :
  no_claims s0 -> rtc deferred_step (s0, ∅) (s, P) ->
  (forall l1 t id l3 t' l4, claims s = l1 ++ (t, id, true) :: l3 ++ (t', id, true) :: l4 -> (t, id, false) ∈ l3) /\
  (forall id, id ∈ deferredInFlight s <-> exists l1 t l2, claims s = l1 ++ (t, id, true) :: l2 /\ forall t', (t', id, false) ∉ l2).
Proof.
  intros H0 Hsteps. destruct (deferred_reachable s0 s P H0 Hsteps) as [Hok Hin]. split.
  - intros l1 t id l3 t' l4 E. rewrite E in Hok. by eapply claims_alternate.
  - intros id. rewrite Hin. by apply holder_open.
Qed.

(** a deferred issuance does not wait for ever: a sweep removes every
    record that is due and older than 24 hours, whatever the issuers of the
    other records answer. *)
Theorem overdue_records_leave me now a s p :
  NoDup (dids s) -> p ∈ issuances s -> overdue now p ->
  DID p ∉ dids (fst (run (collectDueDeferredCredentials me now a) s)).
Proof. apply sweep_removes. Qed.

(** ** Examples *)

Definition no_renewal : CredentialRenewal := mkRenewal "https://issuer" "" "" "cfg" "" "" false None.

Definition record_at (id : string) (created next : time) : DeferredIssuance :=
  mkDeferred id ("tx-" +:+ id) "https://issuer/deferred" no_renewal "dc+sd-jwt" "" "" None "token" "Bearer" zero_time 5 created next 0 "" [].

Definition no_refresh : refresh_answer := mkRefresh None (Some "no token endpoint") (Time 0 0).

Definition answering (r : response) : answers :=
  mkAnswers None (Time 100000 0) no_refresh None None None r no_refresh (Refused "unused") None (Time 100000 0).

Definition one_record (p : DeferredIssuance) : deferring := mkDeferring [p] 0 ∅ [] [].

Lemma overdue_records_leave_witness :
  dids (fst (run (collectDueDeferredCredentials "poller" (Time 100000 0) (fun _ => answering (StillPending (5 * Second))))
             (one_record (record_at "r1" (Time 1000 0) (Time 99999 0))))) = [] /\
  "r1" ∉ dids (fst (run (collectDueDeferredCredentials "poller" (Time 100000 0) (fun _ => answering (StillPending (5 * Second))))
             (one_record (record_at "r1" (Time 1000 0) (Time 99999 0))))).
Proof.
  split; [by vm_compute|].
  apply (overdue_records_leave "poller" (Time 100000 0) (fun _ => answering (StillPending (5 * Second)))
    (one_record (record_at "r1" (Time 1000 0) (Time 99999 0))) (record_at "r1" (Time 1000 0) (Time 99999 0))).
  - apply NoDup_singleton.
  - by left.
  - by vm_compute.
Defined.

(** The poller lists the records, the user collects one, then the poller
    reaches the record it has listed. *)
Definition poller_and_user (second : response) : pool deferring () :=
  {["poller" := collectDueDeferredCredentials "poller" (Time 100000 0) (fun _ => answering second);
    "user" := (do _ <- CollectDeferredNow "user" "r1" (answering Issued); Ret ())]}.

Definition stale_schedule : list string := "poller" :: replicate 8 "user" ++ replicate 8 "poller".

Definition after_stale_sweep (second : response) : deferring :=
  fst (run_schedule stale_schedule (one_record (record_at "r1" (Time 99000 0) (Time 99999 0))) (poller_and_user second)).

Lemma collections_do_not_overlap_witness :
  claims (after_stale_sweep Issued) = [("user", "r1", true); ("user", "r1", false); ("poller", "r1", true); ("poller", "r1", false)] /\
  ("user", "r1", false) ∈ [("user", "r1", false)].
Proof.
  split; [by vm_compute|].
  refine (proj1 (collections_do_not_overlap (one_record (record_at "r1" (Time 99000 0) (Time 99999 0))) (after_stale_sweep Issued)
    (snd (run_schedule stale_schedule (one_record (record_at "r1" (Time 99000 0) (Time 99999 0))) (poller_and_user Issued))) _ _)
    [] "user" "r1" [("user", "r1", false)] "poller" [("poller", "r1", false)] _).
  - done.
  - unfold after_stale_sweep. rewrite <- surjective_pairing. trans (one_record (record_at "r1" (Time 99000 0) (Time 99999 0)), poller_and_user Issued).
    + eapply rtc_l; [apply (step_start _ _ _ _ ∅ "user"); [by intros ? ?%lookup_empty_Some|apply dop_collect]|].
      apply rtc_once. apply step_start; [|apply dop_sweep]. intros q. by rewrite lookup_singleton_ne.
    + by apply (run_schedule_steps all_live (fun _ => true)); [|vm_compute].
  - by vm_compute.
Defined.

(** The claim does not keep the poller from collecting a record the user has
    just collected: an issuer that answers both requests makes the wallet
    import the credential twice, one that refuses the second makes it report a
    failure for a credential it holds. *)
Lemma stale_sweep_collects_again :
  imports (after_stale_sweep Issued) = ["r1"; "r1"] /\
  imports (after_stale_sweep (Refused "deferred credential error: invalid_transaction_id: ")) = ["r1"].
Proof. split; by vm_compute. Qed.

(** An interval beyond the range of a Duration becomes negative, so that the
    record is due again at once; one of 285 years keeps a record far beyond
    the 24 hours, since the sweep looks at the expiry of due records only. *)
Lemma huge_intervals :
  deferredInterval [("interval", VFloat (float64_of_Z 10000000000))] < 0 /\
  dids (fst (run (collectDueDeferredCredentials "poller" (Time 1000000 0) (fun _ => answering Issued))
    (fst (run (collectDueDeferredCredentials "poller" (Time 100000 0) (fun _ => answering (StillPending (seconds 9000000000))))
      (one_record (record_at "r1" (Time 99000 0) (Time 99999 0))))))) = ["r1"].
Proof. split; by vm_compute. Qed.
