(* ===== verification/Rooms.v ===== *)
(** * Rooms: the bounded state maps of the demo servers

    src/internal/demorp/demorp.go: entries expire, expired ones are pruned and a
    full map loses the entry that expires soonest before it takes another. *)

From stdpp Require Import base list strings gmap.
From Stdlib Require Import ZArith Lia.
From S2P Require Import Prelude Validity GoMap.

Local Open Scope Z_scope.

Definition entryTTL : Z := 10 * Minute.
Definition maxEntries : nat := 500.
#[global] Arguments maxEntries : simpl never.

Section rooms.
Context `{MapOrder} {V : Type} (expires : V -> time).

Definition soonest_step (best : string * time) (kv : string * V) : string * time :=
  let e := expires kv.2 in
  if (best.1 =? "")%string || before e best.2 then (kv.1, e) else best.

Definition soonest (l : list (string * V)) : string * time := foldl soonest_step ("", zero_time) l.

(** Each round removes an entry, so the size of the map is enough rounds. *)
Fixpoint makeRoom_loop (fuel : nat) (m : gmap string V) : gmap string V :=
  match fuel with
  | O => m
  | S fuel => if (maxEntries <=? size m)%nat then makeRoom_loop fuel (delete (soonest (order m)).1 m) else m
  end.

Definition makeRoom (m : gmap string V) : gmap string V := makeRoom_loop (size m) m.

(** The pruning of one map. *)
Definition prune_map (now : time) (m : gmap string V) : gmap string V :=
  filter (fun kv => after now (expires kv.2) = false) m.
End rooms.

(** ** Lemmas *)

Lemma maxEntries_pos : (0 < maxEntries)%nat.
Proof. apply Nat.lt_0_succ. Qed.

Section rooms.
Context `{MapOrder} {V : Type} (expires : V -> time).

(** The entry chosen is one of the map, unless it is the empty key. *)
Lemma soonest_step_key best (kv : string * V) : (soonest_step expires best kv).1 = best.1 \/ (soonest_step expires best kv).1 = kv.1.
Proof. unfold soonest_step. destruct (_ || _); auto. Qed.

Lemma soonest_from l best : (foldl (soonest_step expires) best l).1 = best.1 \/ (foldl (soonest_step expires) best l).1 ∈ l.*1.
Proof.
  revert best. induction l as [|kv l IH]; intros best; simpl; [by left|].
  destruct (IH (soonest_step expires best kv)) as [->|Hin]; [|by right; right].
  destruct (soonest_step_key best kv) as [->| ->]; [by left|right; by left].
Qed.

Lemma soonest_first kv (l : list (string * V)) : (soonest expires (kv :: l)).1 ∈ (kv :: l).*1.
Proof.
  unfold soonest. cbn [foldl]. replace (soonest_step expires ("", zero_time) kv) with (kv.1, expires kv.2) by done.
  destruct (soonest_from l (kv.1, expires kv.2)) as [->|Hin]; [by left|by right].
Qed.

Lemma soonest_in (m : gmap string V) : m <> ∅ -> is_Some (m !! (soonest expires (order m)).1).
Proof.
  intros Hm. assert (Hin : (soonest expires (order m)).1 ∈ (order m).*1).
  { destruct (order m) as [|kv l] eqn:E; [|apply soonest_first].
    destruct Hm. apply map_to_list_empty_iff, Permutation_nil. by rewrite <- E, order_perm. }
  by apply keys_of in Hin.
Qed.

Lemma makeRoom_loop_sub fuel (m : gmap string V) : makeRoom_loop expires fuel m ⊆ m.
Proof.
  revert m. induction fuel as [|fuel IH]; intros m; cbn [makeRoom_loop]; [done|].
  destruct (maxEntries <=? size m)%nat; [|reflexivity]. etrans; [apply IH|apply delete_subseteq].
Qed.

Lemma makeRoom_sub (m : gmap string V) : makeRoom expires m ⊆ m.
Proof. apply makeRoom_loop_sub. Qed.

Lemma makeRoom_loop_size fuel (m : gmap string V) : (size m <= fuel)%nat -> (size (makeRoom_loop expires fuel m) < maxEntries)%nat.
Proof.
  revert m. induction fuel as [|fuel IH]; intros m Hm; cbn [makeRoom_loop]; [pose proof maxEntries_pos; lia|].
  destruct (Nat.leb_spec maxEntries (size m)) as [Hfull|]; [|done]. apply IH.
  destruct (soonest_in m) as [v Hv]; [intros ->; rewrite map_size_empty in Hfull; pose proof maxEntries_pos; lia|].
  rewrite map_size_delete, Hv. lia.
Qed.

(** After makeRoom there is room for one more. *)
Lemma makeRoom_size (m : gmap string V) : (size (makeRoom expires m) < maxEntries)%nat.
Proof. by apply makeRoom_loop_size. Qed.

Lemma insert_room (m : gmap string V) k v : (size (<[k := v]> (makeRoom expires m)) <= maxEntries)%nat.
Proof. pose proof (makeRoom_size m). rewrite map_size_insert. case_match; cbn beta; unfold id; lia. Qed.

Lemma prune_sub now (m : gmap string V) : prune_map expires now m ⊆ m.
Proof. apply map_filter_subseteq. Qed.

Lemma pruned_room now (m : gmap string V) : makeRoom expires (prune_map expires now m) ⊆ m.
Proof. etrans; [apply makeRoom_sub|apply prune_sub]. Qed.
End rooms.

Lemma sub_size {V} (m m' : gmap string V) : m ⊆ m' -> (size m' <= maxEntries)%nat -> (size m <= maxEntries)%nat.
Proof. intros Hs%map_subseteq_size. lia. Qed.

Lemma pruned_size {V} (expires : V -> time) now (m : gmap string V) :
  (size m <= maxEntries)%nat -> (size (prune_map expires now m) <= maxEntries)%nat.
Proof. apply sub_size, prune_sub. Qed.
