(* ===== verification/IssuerAuth.v ===== *)
(** * IssuerAuth: what the demo issuer checks before it issues anything

    src/internal/demorp: reading compact JWTs and JWKs (demorp.go), key proofs
    (issuer.go), DPoP proofs, client attestations, PKCE and JWT lifetimes
    (issuer_authcode.go), and the key thumbprint of internal/mock.

    JSON decoding, go-jose's JWK decoder, signature verification and X.509 are
    interfaces.  The checks of one proof read the clock once.  An error message
    is its format string with the arguments; log lines are not modelled. *)

From stdpp Require Import base list strings gmap.
From Stdlib Require Import ZArith Lia Ascii.
From S2P Require Import Prelude GoStrings GoValue Numbers Format Validity SDJWT.

Local Open Scope Z_scope.

(** ** The libraries *)

(** What go-jose makes of a JWK document. *)
Inductive jose_key (K : Type) : Type :=
| JoseEC (k : K)
| JoseRSA
| JoseECPrivate (k : K)
| JoseRSAPrivate
| JoseOther.
Arguments JoseEC {K} k.
Arguments JoseRSA {K}.
Arguments JoseECPrivate {K} k.
Arguments JoseRSAPrivate {K}.
Arguments JoseOther {K}.

Class Jose := {
  ECKey : Type;
  Cert : Type;
  (** [jwk.UnmarshalJSON] of the marshalled object; [None] is an error. *)
  unmarshal_jwk : object -> option (jose_key ECKey);
  (** [format.ECPublicCoords] *)
  ec_coords : ECKey -> option (string * string);
  (** [jws.Valid] *)
  jws_valid : string -> ECKey -> bool;
  (** [x509.ParseCertificate] *)
  parse_certificate : string -> option Cert;
  cert_ec_key : Cert -> option ECKey;
  common_name : Cert -> string;
  (** [Certificate.Verify] with roots and intermediates, any key usage *)
  verifies : list Cert -> list Cert -> Cert -> bool }.

(** ** net/http requests *)

Record http_request := mkHttp {
  Method : string;
  Headers : gmap string (list string);
  PostForm : gmap string (list string);
  Query : gmap string (list string);
  form_broken : bool;
  Body : string }.

Definition values_of (m : gmap string (list string)) (k : string) : list string := default [] (m !! k).
Definition first_of (m : gmap string (list string)) (k : string) : string := default "" (head (values_of m k)).

Definition Header (r : http_request) (k : string) : string := first_of (Headers r) k.
Definition PostFormValue (r : http_request) (k : string) : string := first_of (PostForm r) k.
Definition Query_Get (r : http_request) (k : string) : string := first_of (Query r) k.

(** ** Compact JWTs and keys *)

Record compactJWT := mkCompact { c_header : object; c_payload : object; c_signature : string; c_signingInput : string }.

Definition decode_part `{Json} (part : string) : option object :=
  match RawURL_Decode part with Some data => unmarshal_object data | None => None end.

Definition parseCompactJWT `{Json} (raw : string) : result why compactJWT :=
  match split "."%char (trim_space raw) with
  | [p0; p1; p2] =>
      match decode_part p0 with
      | None => Err (Text "decoding JWT header")
      | Some header =>
          match decode_part p1 with
          | None => Err (Text "decoding JWT payload")
          | Some payload =>
              match RawURL_Decode p2 with
              | None => Err (Text "decoding JWT signature")
              | Some sig => Ok (mkCompact header payload sig (p0 +:+ "." +:+ p1))
              end
          end
      end
  | _ => Err (Text "not a compact JWT")
  end.

Definition verifyES256 `{Jose} (pub : ECKey) (signingInput sig : string) : bool :=
  (String.length sig =? 64)%nat && jws_valid (signingInput +:+ "." +:+ EncodeBase64URL sig) pub.

Inductive public_key (K : Type) : Type :=
| ECPublic (k : K)
| RSAPublic.
Arguments ECPublic {K} k.
Arguments RSAPublic {K}.

Definition ParseJWK `{Jose} (jwk : object) : result why (public_key ECKey) :=
  match unmarshal_jwk jwk with
  | None => Err (Text "not a valid PEM or JWK")
  | Some (JoseEC k) => Ok (ECPublic k)
  | Some JoseRSA => Ok RSAPublic
  | Some (JoseECPrivate k) => Ok (ECPublic k)
  | Some JoseRSAPrivate => Ok RSAPublic
  | Some JoseOther => Err (Text "unsupported JWK key type")
  end.

Definition holderKeyFromJWK `{Jose} (jwk : object) : result why ECKey :=
  let? pub := ParseJWK jwk in
  match pub with ECPublic k => Ok k | RSAPublic => Err (Text "only EC keys are supported") end.

(** The crv, kty, x and y members; a key without coordinates has no map. *)
Definition PublicKeyJWKMap `{Jose} (key : ECKey) : option (string * string * string * string) :=
  match ec_coords key with
  | Some (x, y) => Some ("P-256", "EC", EncodeBase64URL x, EncodeBase64URL y)
  | None => None
  end.

Definition quoted (s : string) : string := String (ascii_of_nat 34) "" +:+ s +:+ String (ascii_of_nat 34) "".

Definition KeyIDForPublicKey `{Jose} `{Hash} (key : ECKey) : string :=
  let '(crv, kty, x, y) := default ("", "", "", "") (PublicKeyJWKMap key) in
  EncodeBase64URL (sha256 ("{" +:+ quoted "crv" +:+ ":" +:+ quoted crv +:+ "," +:+ quoted "kty" +:+ ":" +:+ quoted kty
    +:+ "," +:+ quoted "x" +:+ ":" +:+ quoted x +:+ "," +:+ quoted "y" +:+ ":" +:+ quoted y +:+ "}")).

(** ** Lifetimes *)

Definition clockSkew : Z := Minute.
Definition dpopProofMaxAge : Z := 5 * Minute.
Definition proofClockSkew : Z := 5 * Minute.

(** A NumericDate member of a claims object. *)
Definition numeric_date (payload : object) (name : string) : option time :=
  match as_float64 (index payload name) with Some f => Some (unix (int_of_float64 f)) | None => None end.

(** [age > maxAge || age < -skew] of [time.Since(iat)]. *)
Definition age_refused (now iat : time) (maxAge skew : Z) : bool := (maxAge <? since now iat) || (since now iat <? - skew).

Definition expired_at (now : time) (exp : option time) : bool :=
  match exp with Some t => after now t | None => false end.

Definition not_valid_yet (now : time) (nbf : option time) : bool :=
  match nbf with Some t => before (add now clockSkew) t | None => false end.

Definition checkJWTValidity (now : time) (payload : object) : result why () :=
  match numeric_date payload "exp" with
  | None => Err (Text "has no exp claim")
  | Some exp =>
      if after now exp then Err (Text "expired")
      else if not_valid_yet now (numeric_date payload "nbf") then Err (Text "not valid yet")
      else Ok ()
  end.

Definition checkPoPFreshness (now : time) (payload : object) : result why () :=
  match numeric_date payload "iat" with
  | None => Err (Text "has no iat claim")
  | Some iat =>
      if age_refused now iat dpopProofMaxAge clockSkew then Err (Text "iat is not within the accepted window")
      else if expired_at now (numeric_date payload "exp") then Err (Text "expired")
      else if not_valid_yet now (numeric_date payload "nbf") then Err (Text "not valid yet")
      else Ok ()
  end.

(** ** PKCE *)

Definition pkceMatches `{Hash} (verifier challenge : string) : bool :=
  if (verifier =? "")%string || (challenge =? "")%string then false
  else (EncodeBase64URL (sha256 verifier) =? challenge)%string.

(** ** The issuer's own configuration *)

Inductive ClientAuthMode := ClientAuthRequired | ClientAuthOptional.

#[export] Instance ClientAuthMode_eq_dec : EqDecision ClientAuthMode.
Proof. solve_decision. Defined.

Definition ParseClientAuthMode (value : string) : result why ClientAuthMode :=
  let v := trim_space value in
  if (v =? "")%string || (v =? "required")%string then Ok ClientAuthRequired
  else if (v =? "optional")%string then Ok ClientAuthOptional
  else Err (Fmt "unknown client authentication mode %q, want %q or %q" [Text value; Text "required"; Text "optional"]).

Definition attestationClientAuth : string := "attest_jwt_client_auth".
Definition attestationDPoPClientAuth : string := "attest_jwt_client_auth_dpop".
Definition unauthenticatedClientAuth : string := "none".

Record clientAuthentication := mkClientAuth {
  ca_method : string; ca_clientID : string; ca_attester : string; ca_trusted : bool }.

Record oauth_error := mkOauthError { oe_code : string; oe_description : why }.

Definition attestationFailed (w : why) : oauth_error := mkOauthError "invalid_client_attestation" w.

(** The nil pointer is [None]. *)
Definition ticketClaim (c : option clientAuthentication) : string :=
  match c with
  | None => "none"
  | Some c =>
      if (ca_method c =? "")%string || (ca_method c =? unauthenticatedClientAuth)%string then "none"
      else if ca_trusted c then "trusted" else "untrusted"
  end.

Section issuer.
Context `{Jose} `{Json} `{Hash}.
(** [base] is the origin [d.baseURL()] gives, [mode] what clientAuthMode
    gives, [anchors] the CAs of the wallet provider list. *)
Context (base : string) (mode : ClientAuthMode) (anchors : list Cert).

Definition issuerID : string := base +:+ "/issuer".
Definition challengeEndpoint : string := issuerID +:+ "/authorize-challenge".

(** ** DPoP proofs *)

Definition verifyDPoPProof (now : time) (r : http_request) (expectedURL accessToken : string) : result why string :=
  let raw := trim_space (Header r "DPoP") in
  if (raw =? "")%string then Err (Text "a DPoP proof is required")
  else
  match parseCompactJWT raw with
  | Err e => Err (Fmt "parsing DPoP proof: %w" [e])
  | Ok proof =>
      let typ := get_string (c_header proof) "typ" in
      if negb (typ =? "dpop+jwt")%string then Err (Fmt "DPoP proof has typ %q, expected dpop+jwt" [Text typ])
      else
      match as_obj (index (c_header proof) "jwk") with
      | None => Err (Text "DPoP proof header has no jwk")
      | Some jwk =>
          if bool_decide (is_Some (get "d" jwk)) then Err (Text "DPoP proof jwk carries private key material, it must hold a public key")
          else
          match holderKeyFromJWK jwk with
          | Err e => Err (Fmt "parsing DPoP jwk: %w" [e])
          | Ok key =>
              let htm := get_string (c_payload proof) "htm" in
              let htu := get_string (c_payload proof) "htu" in
              if negb (verifyES256 key (c_signingInput proof) (c_signature proof)) then Err (Text "DPoP proof signature does not verify")
              else if negb (EqualFold htm (Method r)) then Err (Fmt "DPoP htm %q does not match the request method" [Text htm])
              else if negb (htu =? expectedURL)%string then Err (Fmt "DPoP htu %q does not match %q" [Text htu; Text expectedURL])
              else
              match numeric_date (c_payload proof) "iat" with
              | None => Err (Text "DPoP proof has no iat claim")
              | Some iat =>
                  if age_refused now iat dpopProofMaxAge clockSkew then Err (Text "DPoP proof iat is not within the accepted window")
                  else if negb (accessToken =? "")%string &&
                          negb (get_string (c_payload proof) "ath" =? EncodeBase64URL (sha256 accessToken))%string
                  then Err (Text "DPoP ath does not match the access token")
                  else Ok (KeyIDForPublicKey key)
              end
          end
      end
  end.

(** No proof gives the empty thumbprint. *)
Definition dpopKey (now : time) (r : http_request) (endpoint : string) : result oauth_error string :=
  if (trim_space (Header r "DPoP") =? "")%string then Ok ""
  else match verifyDPoPProof now r endpoint "" with
       | Ok jkt => Ok jkt
       | Err e => Err (mkOauthError "invalid_dpop_proof" e)
       end.

(** ** Client attestations *)

Record attestationSigner := mkSigner { as_key : ECKey; as_leaf : Cert; as_trusted : bool }.

Definition attester_name (s : attestationSigner) (payload : object) : string :=
  let iss := get_string payload "iss" in
  if negb (iss =? "")%string then iss
  else if negb (common_name (as_leaf s) =? "")%string then common_name (as_leaf s)
  else "unnamed attester".

Definition chainsToWalletProviderCA (certs : list Cert) : bool :=
  match anchors, certs with
  | [], _ | _, [] => false
  | _, leaf :: intermediates => verifies anchors intermediates leaf
  end.

(** A chain entry that is no string decodes as the empty certificate. *)
Definition x5c_certificate (entry : value) : result why Cert :=
  match Std_Decode (default "" (as_string entry)) with
  | None => Err (Text "decoding x5c certificate")
  | Some der => match parse_certificate der with
                | None => Err (Text "parsing x5c certificate")
                | Some cert => Ok cert
                end
  end.

Fixpoint x5c_certificates (l : list value) : result why (list Cert) :=
  match l with
  | [] => Ok []
  | v :: l => let? cert := x5c_certificate v in let? certs := x5c_certificates l in Ok (cert :: certs)
  end.

Definition attestationSigner_of (header : object) : result why attestationSigner :=
  match get_arr header "x5c" with
  | [] => Err (Text "client attestation header has no x5c certificate")
  | rawChain =>
      let? certs := x5c_certificates rawChain in
      match certs with
      | [] => Err (Text "client attestation header has no x5c certificate")
      | leaf :: _ =>
          match cert_ec_key leaf with
          | None => Err (Text "client attestation certificate does not hold an EC key")
          | Some key => Ok (mkSigner key leaf (chainsToWalletProviderCA certs))
          end
      end
  end.

(** The claims of the attestation after its signature: the client and its key. *)
Definition attested_client (now : time) (attestation : compactJWT) (clientID : string) : result why (string * ECKey) :=
  let payload := c_payload attestation in
  let sub := get_string payload "sub" in
  if (sub =? "")%string then Err (Text "client attestation has no sub claim")
  else if negb (clientID =? "")%string && negb (sub =? clientID)%string
  then Err (Fmt "client attestation sub %q does not match client_id %q" [Text sub; Text clientID])
  else
  match checkJWTValidity now payload with
  | Err e => Err (Fmt "client attestation: %v" [e])
  | Ok _ =>
      match as_obj (index (get_obj payload "cnf") "jwk") with
      | None => Err (Text "client attestation has no cnf.jwk")
      | Some cnfJWK =>
          if bool_decide (is_Some (get "d" cnfJWK))
          then Err (Text "client attestation cnf.jwk carries private key material, the confirmation key must be a public key")
          else match holderKeyFromJWK cnfJWK with
               | Err e => Err (Fmt "parsing client attestation cnf.jwk: %v" [e])
               | Ok key => Ok (sub, key)
               end
      end
  end.

(** The dedicated proof of possession. *)
Definition check_pop (now : time) (rawPoP clientID : string) (clientKey : ECKey) : result why () :=
  match parseCompactJWT rawPoP with
  | Err e => Err (Fmt "parsing client attestation PoP: %v" [e])
  | Ok pop =>
      let typ := get_string (c_header pop) "typ" in
      let alg := get_string (c_header pop) "alg" in
      let aud := get_string (c_payload pop) "aud" in
      if negb (typ =? "oauth-client-attestation-pop+jwt")%string
      then Err (Fmt "client attestation PoP has typ %q, expected oauth-client-attestation-pop+jwt" [Text typ])
      else if negb (alg =? "ES256")%string
      then Err (Fmt "client attestation PoP alg %q is not among the supported algorithms (ES256)" [Text alg])
      else if negb (verifyES256 clientKey (c_signingInput pop) (c_signature pop))
      then Err (Text "client attestation PoP is not signed by the attested key")
      else if negb (aud =? issuerID)%string
      then Err (Fmt "client attestation PoP aud %q is not this authorization server" [Text aud])
      else if (get_string (c_payload pop) "jti" =? "")%string
      then Err (Text "client attestation PoP has no jti claim")
      else
      match as_string (index (c_payload pop) "iss") with
      | Some iss =>
          if negb (clientID =? "")%string && negb (iss =? clientID)%string
          then Err (Fmt "client attestation PoP iss %q does not match client_id %q" [Text iss; Text clientID])
          else match checkPoPFreshness now (c_payload pop) with Err e => Err (Fmt "client attestation PoP: %v" [e]) | Ok _ => Ok () end
      | None => match checkPoPFreshness now (c_payload pop) with Err e => Err (Fmt "client attestation PoP: %v" [e]) | Ok _ => Ok () end
      end
  end.

(** Without a dedicated proof the DPoP proof must be by the attested key. *)
Definition check_possession (now : time) (rawPoP clientID jkt : string) (clientKey : ECKey) : result why string :=
  if (rawPoP =? "")%string then
    if (jkt =? "")%string
    then Err (Text "no OAuth-Client-Attestation-PoP and no DPoP proof, so nothing proves possession of the attested key")
    else if negb (jkt =? KeyIDForPublicKey clientKey)%string
    then Err (Text "the DPoP proof is signed by a different key than the one the client attestation attests")
    else Ok attestationDPoPClientAuth
  else let? _ := check_pop now rawPoP clientID clientKey in Ok attestationClientAuth.

(** A presented attestation. *)
Definition check_attestation (now : time) (rawAttestation rawPoP clientID jkt : string) : result why clientAuthentication :=
  match parseCompactJWT rawAttestation with
  | Err e => Err (Fmt "parsing client attestation: %v" [e])
  | Ok attestation =>
      let typ := get_string (c_header attestation) "typ" in
      let alg := get_string (c_header attestation) "alg" in
      if negb (typ =? "oauth-client-attestation+jwt")%string
      then Err (Fmt "client attestation has typ %q, expected oauth-client-attestation+jwt" [Text typ])
      else if negb (alg =? "ES256")%string
      then Err (Fmt "client attestation alg %q is not among the supported algorithms (ES256)" [Text alg])
      else
      match attestationSigner_of (c_header attestation) with
      | Err e => Err e
      | Ok attester =>
          if negb (verifyES256 (as_key attester) (c_signingInput attestation) (c_signature attestation))
          then Err (Text "client attestation signature does not verify with its certificate")
          else
          let? (sub, clientKey) := attested_client now attestation clientID in
          let? method := check_possession now rawPoP clientID jkt clientKey in
          Ok (mkClientAuth method sub (attester_name attester (c_payload attestation)) (as_trusted attester))
      end
  end.

Definition authenticateClient (now : time) (r : http_request) (clientID jkt : string) : result oauth_error clientAuthentication :=
  if (1 <? length (values_of (Headers r) "OAuth-Client-Attestation"))%nat
  then Err (attestationFailed (Text "precisely one OAuth-Client-Attestation header field is allowed"))
  else if (1 <? length (values_of (Headers r) "OAuth-Client-Attestation-PoP"))%nat
  then Err (attestationFailed (Text "precisely one OAuth-Client-Attestation-PoP header field is allowed"))
  else
  let rawAttestation := trim_space (Header r "OAuth-Client-Attestation") in
  let rawPoP := trim_space (Header r "OAuth-Client-Attestation-PoP") in
  if (rawAttestation =? "")%string then
    if negb (rawPoP =? "")%string
    then Err (attestationFailed (Text "OAuth-Client-Attestation-PoP was sent without the OAuth-Client-Attestation it proves possession for"))
    else match mode with
         | ClientAuthOptional => Ok (mkClientAuth unauthenticatedClientAuth "" "" false)
         | ClientAuthRequired => Err (mkOauthError "invalid_client"
             (Text "this authorization server requires attestation-based client authentication (OAuth-Client-Attestation and OAuth-Client-Attestation-PoP)"))
         end
  else match check_attestation now rawAttestation rawPoP clientID jkt with
       | Ok c => Ok c
       | Err e => Err (attestationFailed e)
       end.

(** ** Key proofs (OpenID4VCI 1.0 Appendix F) *)

Definition invalidProof (w : why) : oauth_error := mkOauthError "invalid_proof" w.

Definition proofKeyFromX5C (raw : value) : result why ECKey :=
  match as_arr raw with
  | None | Some [] => Err (Text "proof JWT x5c is not a non-empty array")
  | Some (leaf :: _) =>
      match as_string leaf with
      | None => Err (Text "proof JWT x5c leaf is not a string")
      | Some encoded =>
          match Std_Decode encoded with
          | None => Err (Text "decoding proof JWT x5c leaf")
          | Some der =>
              match parse_certificate der with
              | None => Err (Text "parsing proof JWT x5c leaf")
              | Some cert => match cert_ec_key cert with
                             | None => Err (Text "proof JWT x5c leaf does not carry an EC key")
                             | Some key => Ok key
                             end
              end
          end
      end
  end.

Definition proofKeyMaterial (header : object) : result oauth_error ECKey :=
  let jwk := as_obj (index header "jwk") in
  let x5c := get "x5c" header in
  let hasKID := match as_string (index header "kid") with Some kid => negb (kid =? "")%string | None => false end in
  match jwk, x5c, hasKID with
  | None, None, false => Err (invalidProof (Text "proof JWT header carries none of jwk, x5c or kid"))
  | Some jwk, None, false =>
      match holderKeyFromJWK jwk with Ok key => Ok key | Err e => Err (invalidProof (Fmt "parsing proof jwk: %v" [e])) end
  | None, Some x5c, false =>
      match proofKeyFromX5C x5c with Ok key => Ok key | Err e => Err (invalidProof e) end
  | None, None, true =>
      Err (invalidProof (Text "proof JWT identifies its key by kid, which this issuer cannot resolve: send jwk or x5c"))
  | _, _, _ => Err (invalidProof (Text "proof JWT header carries more than one of jwk, x5c and kid"))
  end.

(** verifyProofJWT up to the question whether the issuer handed the nonce
    out. *)
Definition proof_checks (now : time) (raw : string) : result oauth_error (ECKey * string) :=
  match parseCompactJWT raw with
  | Err e => Err (invalidProof (Fmt "parsing proof JWT: %v" [e]))
  | Ok proof =>
      let typ := get_string (c_header proof) "typ" in
      let alg := get_string (c_header proof) "alg" in
      let aud := get_string (c_payload proof) "aud" in
      let nonce := get_string (c_payload proof) "nonce" in
      if negb (typ =? "openid4vci-proof+jwt")%string
      then Err (invalidProof (Fmt "proof JWT typ is %q, want openid4vci-proof+jwt" [Text typ]))
      else if negb (alg =? "ES256")%string
      then Err (invalidProof (Fmt "proof JWT alg is %q, and this issuer advertises ES256 only" [Text alg]))
      else
      let? holderKey := proofKeyMaterial (c_header proof) in
      if negb (verifyES256 holderKey (c_signingInput proof) (c_signature proof))
      then Err (invalidProof (Text "proof JWT signature does not verify with the key in its header"))
      else if negb (aud =? issuerID)%string
      then Err (invalidProof (Fmt "proof JWT aud is %q, want the credential issuer identifier %q" [Text aud; Text issuerID]))
      else
      match numeric_date (c_payload proof) "iat" with
      | None => Err (invalidProof (Text "proof JWT has no numeric iat"))
      | Some iat =>
          if age_refused now iat proofClockSkew proofClockSkew
          then Err (invalidProof (Text "proof JWT iat is outside the window this issuer accepts"))
          else if (nonce =? "")%string
          then Err (invalidProof (Text "proof JWT carries no nonce: request one from the nonce endpoint"))
          else Ok (holderKey, nonce)
      end
  end.
End issuer.

(** ** The browser sign-in *)

Definition demoAccountUsername : string := "alice".
Definition demoAccountPassword : string := "alice".

Definition validDemoAccount (username password : string) : bool :=
  (trim_space username =? demoAccountUsername)%string && (password =? demoAccountPassword)%string.

(** The source list of the login page's policy: [None] is an unparsable
    redirect URI, the pair its scheme and host. *)
Definition redirectFormActionSource (parsed : option (string * string)) : string :=
  match parsed with
  | None => ""
  | Some (scheme, host) =>
      if (scheme =? "")%string then ""
      else if (scheme =? "http")%string || (scheme =? "https")%string then
        if (host =? "")%string then "" else scheme +:+ "://" +:+ host
      else scheme +:+ ":"
  end.

Definition loginContentSecurityPolicy (parsed : option (string * string)) : string :=
  let src := redirectFormActionSource parsed in
  let formAction := "'self'" +:+ (if (src =? "")%string then "" else " " +:+ src) in
  "default-src 'self'; style-src 'self' 'unsafe-inline'; img-src 'self'; object-src 'none'; base-uri 'none'; form-action "
    +:+ formAction +:+ "; frame-ancestors 'none'".

(** ** Settings of an offer *)

Definition demoBatchSize : Z := 8.
Definition demoDefaultBatchSize : Z := 3.

Definition parseBatchSize (value : string) : Z :=
  let value := trim_space value in
  if (value =? "true")%string then demoDefaultBatchSize
  else match atoi value with
       | None => 0
       | Some n => if n <? 2 then 0 else if demoBatchSize <? n then demoBatchSize else n
       end.

Definition authorizationPresentation : string := "presentation".
Definition authorizationBrowser : string := "browser".

Definition normalizeAuthorizationMode (value : string) : string :=
  if (trim_space value =? authorizationPresentation)%string then authorizationPresentation else authorizationBrowser.

Definition offersInteractionType (list want : string) : bool :=
  existsb (fun entry => (trim_space entry =? want)%string) (split ","%char list).
