(* ===== verification/Issuer.v ===== *)
(** * Issuer: the demo issuer and its authorization server

    src/internal/demorp: demorp.go (the state maps), issuer.go (offers, the
    pre-authorized grant, credential and nonce endpoints), issuer_authcode.go
    (pushed authorization requests, sign-in, authorization codes),
    issuer_interactive.go (the Authorization Challenge Endpoint) and
    issuer_deferred.go.

    A handler is a program of Conc.  What it does while it holds [d.mu] is one
    atomic step; so is each reading of the clock.  Random tokens are drawn in
    the step that stores them.  [authRequests] and [codes] hold pointers to
    authorization requests, which the model keeps in [heap]: several codes may
    share one request.  [issued], [deferrals] and [collected] are history
    variables: the access tokens given out, the issuances deferred, and the
    deferred batches claimed.

    Arguments stand for what is not modelled: templates and signing
    ([signGranted]), the verification of a presentation ([verifyPresentation]),
    the wallet's status list URL and configurations, URL parsing and the JSON
    decoding of request bodies into structs. *)

From stdpp Require Import base list strings gmap relations.
From Stdlib Require Import ZArith Lia Ascii.
From S2P Require Import Prelude GoStrings GoValue Format Validity SDJWT GoMap Conc Rooms IssuerAuth.

Local Open Scope Z_scope.

(** ** Data *)

Definition authRequestTTL : Z := 5 * Minute.
Definition deferredReadyDelay : Z := 5 * Second.
Definition deferredPollSeconds : Z := 2.

Record offerSettings := mkSettings {
  configIDs : list string; withStatus : bool; defers : bool; batchSize : Z; authorization : string }.

Record offerState := mkOffer {
  o_id : string; o_settings : offerSettings; preAuthCode : string; issuerState : string; redeemed : bool; o_expires : time }.

Record tokenState := mkToken {
  t_settings : offerSettings; t_holder : object; t_jkt : string; t_client : option clientAuthentication; t_expires : time }.

Record ticketGrant := mkTicketGrant { g_token : tokenState; g_config : string }.

Record authGrant := mkAuthGrant {
  clientID : string; codeChallenge : string; redirectURI : string; ag_state : string;
  ag_issuerState : string; dpopJKT : string; ag_settings : offerSettings }.

Record authRequestState := mkAuthRequest {
  requestURI : string; a_grant : authGrant; clientAttestation : string; clientAttestationPoP : string;
  a_code : string; codeUsed : bool; resolved : bool; a_holder : object; a_expires : time }.

(** The presentation request of an Authorization Challenge conversation. *)
Record requestState := mkRequestState {
  r_id : string; r_nonce : string; r_status : string; r_err : option why; r_claims : object; r_expires : time }.

(** A browser session has no presentation request. *)
Record interactiveSession := mkSession {
  s_id : string; s_grant : authGrant; s_request : option requestState; s_expires : time; browser : bool }.

Record deferredTicket {K : Type} := mkTicket {
  holderKeys : list K; d_granted : ticketGrant; d_token : string; readyAt : time; d_expires : time }.
Arguments deferredTicket : clear implicits.

(** What an access token was issued for. *)
Inductive origin : Type :=
| FromCode (ref : nat) (code : string)
| FromOffer (id : string).

Record issuance := mkIssuance { i_token : string; i_state : tokenState; i_origin : origin; i_request : http_request }.

Record credentialRequest := mkCredentialRequest {
  CredentialConfigurationID : string; CredentialIdentifier : string; Proofs : list string }.

Record demo {K : Type} := mkDemo {
  clock : time;
  drawn : nat;
  offers : gmap string offerState;
  tokens : gmap string tokenState;
  requests : gmap string requestState;
  heap : gmap nat authRequestState;
  authRequests : gmap string nat;
  codes : gmap string nat;
  interactive : gmap string interactiveSession;
  nonces : gmap string time;
  deferred : gmap string (deferredTicket K);
  issued : list issuance;
  deferrals : list (string * deferredTicket K);
  collected : list (string * string) }.
Arguments demo : clear implicits.

Definition New {K} (now : time) : demo K := mkDemo K now 0 ∅ ∅ ∅ ∅ ∅ ∅ ∅ ∅ ∅ [] [] [].

Section setters.
Context {K : Type} (d : demo K).
Definition with_clock x := mkDemo K x (drawn d) (offers d) (tokens d) (requests d) (heap d) (authRequests d) (codes d) (interactive d) (nonces d) (deferred d) (issued d) (deferrals d) (collected d).
Definition with_drawn x := mkDemo K (clock d) x (offers d) (tokens d) (requests d) (heap d) (authRequests d) (codes d) (interactive d) (nonces d) (deferred d) (issued d) (deferrals d) (collected d).
Definition with_offers x := mkDemo K (clock d) (drawn d) x (tokens d) (requests d) (heap d) (authRequests d) (codes d) (interactive d) (nonces d) (deferred d) (issued d) (deferrals d) (collected d).
Definition with_tokens x := mkDemo K (clock d) (drawn d) (offers d) x (requests d) (heap d) (authRequests d) (codes d) (interactive d) (nonces d) (deferred d) (issued d) (deferrals d) (collected d).
Definition with_requests x := mkDemo K (clock d) (drawn d) (offers d) (tokens d) x (heap d) (authRequests d) (codes d) (interactive d) (nonces d) (deferred d) (issued d) (deferrals d) (collected d).
Definition with_heap x := mkDemo K (clock d) (drawn d) (offers d) (tokens d) (requests d) x (authRequests d) (codes d) (interactive d) (nonces d) (deferred d) (issued d) (deferrals d) (collected d).
Definition with_authRequests x := mkDemo K (clock d) (drawn d) (offers d) (tokens d) (requests d) (heap d) x (codes d) (interactive d) (nonces d) (deferred d) (issued d) (deferrals d) (collected d).
Definition with_codes x := mkDemo K (clock d) (drawn d) (offers d) (tokens d) (requests d) (heap d) (authRequests d) x (interactive d) (nonces d) (deferred d) (issued d) (deferrals d) (collected d).
Definition with_interactive x := mkDemo K (clock d) (drawn d) (offers d) (tokens d) (requests d) (heap d) (authRequests d) (codes d) x (nonces d) (deferred d) (issued d) (deferrals d) (collected d).
Definition with_nonces x := mkDemo K (clock d) (drawn d) (offers d) (tokens d) (requests d) (heap d) (authRequests d) (codes d) (interactive d) x (deferred d) (issued d) (deferrals d) (collected d).
Definition with_deferred x := mkDemo K (clock d) (drawn d) (offers d) (tokens d) (requests d) (heap d) (authRequests d) (codes d) (interactive d) (nonces d) x (issued d) (deferrals d) (collected d).
Definition with_issued x := mkDemo K (clock d) (drawn d) (offers d) (tokens d) (requests d) (heap d) (authRequests d) (codes d) (interactive d) (nonces d) (deferred d) x (deferrals d) (collected d).
Definition with_deferrals x := mkDemo K (clock d) (drawn d) (offers d) (tokens d) (requests d) (heap d) (authRequests d) (codes d) (interactive d) (nonces d) (deferred d) (issued d) x (collected d).
Definition with_collected x := mkDemo K (clock d) (drawn d) (offers d) (tokens d) (requests d) (heap d) (authRequests d) (codes d) (interactive d) (nonces d) (deferred d) (issued d) (deferrals d) x.
End setters.

(** What a handler answers: the HTTP status and the document. *)
Inductive answer : Type :=
| OAuthError (code : string) (description : why)
| OfferCreated (id : string) (offer_uri : string)
| OfferDocument (configuration_ids : list string) (grant : string) (key : string)
| TokenResponse (access_token token_type : string) (expires_in : Z)
| NonceResponse (c_nonce : string)
| CredentialResponse (credentials : list string)
| PendingResponse (transaction_id : string) (interval : option Z)
| PushedResponse (request_uri : string) (expires_in : Z)
| LoginPage (request_uri : string) (error : bool)
| RedirectTo (redirect_uri code iss state : string)
| InteractionRequired (error interaction_type auth_session : string) (request_uri : option string)
| AuthorizationCode (code : string).

Record response := mkResponse { status : Z; document : answer }.

Section handlers.
Context `{Jose} `{Json} `{Hash} `{MapOrder}.
Context (base : string) (mode : ClientAuthMode) (anchors : list Cert).
Context (rand_text : nat -> string).
(** Not modelled: the wallet behind the issuer. *)
Context (statusListURI : string) (offeredConfigurationIDs : list string).
Context (signGranted : ECKey -> ticketGrant -> result why string).
Context (verifyPresentation : requestState -> value -> result why object) (interactivePresentationRequest : requestState -> result why object).
(** The URL and JSON decoders of the standard library, as far as they are
    used here. *)
Context (url_parses : string -> bool).
Context (decode_credential_request : string -> result why credentialRequest).
Context (decode_transaction_id : string -> result why string).
Context (decode_details : string -> result why (list (string * string))).

Abbreviation D := (demo ECKey).
Abbreviation hprog := (prog D).

Definition respond (st : Z) (a : answer) : hprog response := Ret (mkResponse st a).
Definition refuse (st : Z) (code : string) (w : why) : hprog response := respond st (OAuthError code w).
Definition refuse_with (st : Z) (e : oauth_error) : hprog response := refuse st (oe_code e) (oe_description e).

(** [time.Now()] outside the lock. *)
Definition Now : hprog time := get clock.

(** [randToken] in a step that holds the lock. *)
Definition draw (d : D) : D * string := (with_drawn d (S (drawn d)), rand_text (drawn d)).

(** An authorization request behind a pointer. *)
Definition request_expires (d : D) (ref : nat) : time :=
  match heap d !! ref with Some a => a_expires a | None => zero_time end.

Definition code_stale (d : D) (ref : nat) : bool :=
  match heap d !! ref with Some a => after (clock d) (a_expires a) || codeUsed a | None => true end.

Definition pruneLocked (d : D) : D :=
  let now := clock d in
  mkDemo ECKey now (drawn d)
    (prune_map o_expires now (offers d))
    (prune_map t_expires now (tokens d))
    (prune_map r_expires now (requests d))
    (heap d)
    (prune_map (request_expires d) now (authRequests d))
    (filter (fun kv => code_stale d kv.2 = false) (codes d))
    (prune_map s_expires now (interactive d))
    (prune_map id now (nonces d))
    (prune_map d_expires now (deferred d))
    (issued d) (deferrals d) (collected d).

(** ** Offers *)

Definition authCodeGrant : string := "authorization_code".
Definition preAuthGrant : string := "urn:ietf:params:oauth:grant-type:pre-authorized_code".
Definition ticketConfigurationID : string := "demo-ticket".

Fixpoint offer_ids (requested ids : list string) : result why (list string) :=
  match requested with
  | [] => Ok ids
  | c :: requested =>
      if negb (contains offeredConfigurationIDs c) then Err (Fmt "this issuer offers %v, not %q" (map Text (offeredConfigurationIDs ++ [c])))
      else offer_ids requested (if contains ids c then ids else ids ++ [c])
  end.

Definition offerConfigurationIDs (requested : list string) : result why (list string) :=
  match requested with [] => Ok [ticketConfigurationID] | _ => offer_ids requested [] end.

Definition create_offer (settings : offerSettings) (authCode : bool) (d : D) : D * offerState :=
  let d := pruneLocked d in
  let d := with_offers d (makeRoom o_expires (offers d)) in
  let '(d, newid) := draw d in
  let '(d, key) := draw d in
  let offer := mkOffer newid settings (if authCode then "" else key) (if authCode then key else "") false (add (clock d) entryTTL) in
  (with_offers d (<[newid := offer]> (offers d)), offer).

Definition offer_uri (id : string) : string := issuerID base +:+ "/offer/" +:+ id.

(** [url.Values.Get]: the first value of a query parameter. *)
Definition handleCreateOffer (r : http_request) : hprog response :=
  let authCode := (Query_Get r "grant" =? authCodeGrant)%string in
  let status := (Query_Get r "status" =? "true")%string in
  if status && (trim_space statusListURI =? "")%string
  then refuse 409 "this wallet has no status list URL, so the ticket cannot carry a status reference" (Text "")
  else
  match offerConfigurationIDs (values_of (Query r) "credential") with
  | Err e => refuse 400 "" e
  | Ok ids =>
      let settings := mkSettings ids status (Query_Get r "deferred" =? "true")%string
        (parseBatchSize (Query_Get r "batch")) (normalizeAuthorizationMode (Query_Get r "authorization")) in
      do offer <- atomic (create_offer settings authCode);
      respond 201 (OfferCreated (o_id offer) (offer_uri (o_id offer)))
  end.

Definition lookup_offer (oid : string) (d : D) : D * option offerState :=
  match offers d !! oid with
  | None => (d, None)
  | Some offer => if after (clock d) (o_expires offer) then (with_offers d (delete oid (offers d)), None) else (d, Some offer)
  end.

Definition handleOfferByReference (oid : string) : hprog response :=
  do found <- atomic (lookup_offer oid);
  match found with
  | None => refuse 404 "unknown or expired credential offer" (Text "")
  | Some offer =>
      respond 200 (if (issuerState offer =? "")%string
                   then OfferDocument (configIDs (o_settings offer)) preAuthGrant (preAuthCode offer)
                   else OfferDocument (configIDs (o_settings offer)) authCodeGrant (issuerState offer))
  end.

(** The live offer whose grant key matches; an empty key matches none. *)
Definition offerLocked (key : string) (grantKey : offerState -> string) (d : D) : option (string * offerState) :=
  if (key =? "")%string then None
  else List.find (fun kv => (grantKey kv.2 =? key)%string && before (clock d) (o_expires kv.2)) (order (offers d)).

Definition redeem (o : offerState) : offerState :=
  mkOffer (o_id o) (o_settings o) (preAuthCode o) (issuerState o) true (o_expires o).

Definition redeemOfferLocked (key : string) (grantKey : offerState -> string) (d : D) : D * option (string * offerState) :=
  match offerLocked key grantKey d with
  | None => (d, None)
  | Some (k, offer) =>
      if redeemed offer then (d, None)
      else (with_offers d (<[k := redeem offer]> (offers d)), Some (k, redeem offer))
  end.

(** ** Access tokens *)

Definition granted_until (granted : tokenState) (expires : time) : tokenState :=
  mkToken (t_settings granted) (t_holder granted) (t_jkt granted) (t_client granted) expires.

(** [from] and [r] only go to the history. *)
Definition issueTokenLocked (granted : tokenState) (from : origin) (r : http_request) (d : D) : D * string :=
  let '(d, token) := draw d in
  let granted := granted_until granted (add (clock d) entryTTL) in
  let d := pruneLocked d in
  let d := with_tokens d (makeRoom t_expires (tokens d)) in
  let d := with_tokens d (<[token := granted]> (tokens d)) in
  (with_issued d (issued d ++ [mkIssuance token granted from r]), token).

Definition writeTokenResponse (token jkt : string) : hprog response :=
  respond 200 (TokenResponse token (if (jkt =? "")%string then "Bearer" else "DPoP") (Z.quot entryTTL Second)).

(** The pre-authorized grant under the lock. *)
Definition redeem_and_issue (key jkt : string) (clientAuth : clientAuthentication) (r : http_request) (d : D) : D * option string :=
  let '(d, found) := redeemOfferLocked key preAuthCode d in
  match found with
  | None => (d, None)
  | Some (k, offer) =>
      let '(d, token) := issueTokenLocked (mkToken (o_settings offer) [] jkt (Some clientAuth) zero_time) (FromOffer k) r d in
      (d, Some token)
  end.

Definition authenticateTokenClient (r : http_request) (clientID jkt : string) : hprog (result response clientAuthentication) :=
  do now <- Now;
  match authenticateClient base mode anchors now r clientID jkt with
  | Ok c => Ret (Ok c)
  | Err e => Ret (Err (mkResponse 400 (OAuthError (oe_code e) (oe_description e))))
  end.

(** [granted = *request] after the code is marked as used. *)
Definition use_code (a : authRequestState) : authRequestState :=
  mkAuthRequest (requestURI a) (a_grant a) (clientAttestation a) (clientAttestationPoP a) (a_code a) true (resolved a) (a_holder a) (a_expires a).

Definition take_code (c : string) (d : D) : D * option (nat * authRequestState) :=
  match codes d !! c with
  | None => (d, None)
  | Some ref =>
      match heap d !! ref with
      | None => (d, None)
      | Some a =>
          if after (clock d) (a_expires a) || codeUsed a then (with_codes d (delete c (codes d)), None)
          else (with_heap d (<[ref := use_code a]> (heap d)), Some (ref, use_code a))
      end
  end.

(** The checks of the taken code, then the token. *)
Definition exchange_code (r : http_request) (jkt clientid : string) (clientAuth : clientAuthentication)
    (ref : nat) (granted : authRequestState) : hprog response :=
  let g := a_grant granted in
  if negb (clientid =? clientID g)%string
  then refuse 400 "invalid_grant" (Text "client_id does not match the authorization request")
  else if negb (PostFormValue r "redirect_uri" =? redirectURI g)%string
  then refuse 400 "invalid_grant" (Text "redirect_uri does not match the authorization request")
  else if negb (pkceMatches (PostFormValue r "code_verifier") (codeChallenge g))
  then refuse 400 "invalid_grant" (Text "code_verifier does not match the code_challenge")
  else if negb (dpopJKT g =? "")%string && negb (jkt =? dpopJKT g)%string
  then refuse 400 "invalid_dpop_proof" (Text "the code is bound to another DPoP key (RFC 9449 §10)")
  else
  do token <- atomic (issueTokenLocked (mkToken (ag_settings g) (a_holder granted) jkt (Some clientAuth) zero_time)
                        (FromCode ref (PostFormValue r "code")) r);
  writeTokenResponse token jkt.

Definition handleAuthorizationCodeToken (r : http_request) : hprog response :=
  do now <- Now;
  match dpopKey now r (issuerID base +:+ "/token") with
  | Err e => refuse_with 400 e
  | Ok jkt =>
      do auth <- authenticateTokenClient r (PostFormValue r "client_id") jkt;
      match auth with
      | Err resp => Ret resp
      | Ok clientAuth =>
          let clientid := if (PostFormValue r "client_id" =? "")%string then ca_clientID clientAuth else PostFormValue r "client_id" in
          do taken <- atomic (take_code (PostFormValue r "code"));
          match taken with
          | None => refuse 400 "invalid_grant" (Text "unknown, used or expired authorization code")
          | Some (ref, granted) => exchange_code r jkt clientid clientAuth ref granted
          end
      end
  end.

Definition pre_authorized_token (r : http_request) : hprog response :=
  do now <- Now;
  match dpopKey now r (issuerID base +:+ "/token") with
  | Err e => refuse_with 400 e
  | Ok jkt =>
      do auth <- authenticateTokenClient r (PostFormValue r "client_id") jkt;
      match auth with
      | Err resp => Ret resp
      | Ok clientAuth =>
          do token <- atomic (redeem_and_issue (PostFormValue r "pre-authorized_code") jkt clientAuth r);
          match token with
          | None => refuse 400 "invalid_grant" (Text "unknown, used or expired pre-authorized code")
          | Some token => writeTokenResponse token jkt
          end
      end
  end.

Definition handleToken (r : http_request) : hprog response :=
  if form_broken r then refuse 400 "invalid_request" (Text "")
  else
  let grant := PostFormValue r "grant_type" in
  if (grant =? preAuthGrant)%string then pre_authorized_token r
  else if (grant =? authCodeGrant)%string then handleAuthorizationCodeToken r
  else refuse 400 "unsupported_grant_type" (Fmt "only %s and %s are supported" [Text preAuthGrant; Text authCodeGrant]).

(** ** Using an access token *)

(** The token of an Authorization header with one scheme. *)
Definition bearer_of (scheme auth : string) : option string :=
  let n := String.length scheme in
  if (n <? String.length auth)%nat && EqualFold (slice_to n auth) scheme
  then Some (trim_space (String.substring n (String.length auth - n) auth)) else None.

Definition accessToken (r : http_request) : option string :=
  let auth := trim_space (Header r "Authorization") in
  find_map (fun scheme => bearer_of scheme auth) ["Bearer "; "DPoP "].

Definition live_token (token : string) (d : D) : option tokenState :=
  match tokens d !! token with
  | Some granted => if before (clock d) (t_expires granted) then Some granted else None
  | None => None
  end.

Definition authorizeAccessToken (r : http_request) (endpoint : string) : hprog (result oauth_error (string * tokenState)) :=
  match accessToken r with
  | None => Ret (Err (mkOauthError "invalid_token" (Text "")))
  | Some token =>
      do found <- get (live_token token);
      match found with
      | None => Ret (Err (mkOauthError "invalid_token" (Text "")))
      | Some granted =>
          if (t_jkt granted =? "")%string then Ret (Ok (token, granted))
          else
          do now <- Now;
          match verifyDPoPProof now r (issuerID base +:+ endpoint) token with
          | Err e => Ret (Err (mkOauthError "invalid_dpop_proof" e))
          | Ok presented =>
              if negb (presented =? t_jkt granted)%string
              then Ret (Err (mkOauthError "invalid_token" (Text "the access token is bound to a different DPoP key")))
              else Ret (Ok (token, granted))
          end
      end
  end.

(** ** Nonces *)

Definition issue_nonce (d : D) : D * string :=
  let '(d, nonce) := draw d in
  let d := pruneLocked d in
  let d := with_nonces d (makeRoom id (nonces d)) in
  (with_nonces d (<[nonce := add (clock d) entryTTL]> (nonces d)), nonce).

Definition handleNonce : hprog response :=
  do nonce <- atomic issue_nonce;
  respond 200 (NonceResponse nonce).

Definition check_nonce (nonce : string) (d : D) : D * bool :=
  match nonces d !! nonce with
  | None => (d, false)
  | Some expires => if after (clock d) expires then (with_nonces d (delete nonce (nonces d)), false) else (d, true)
  end.

Definition nonceIssued (nonce : string) : hprog bool :=
  if (nonce =? "")%string then Ret false else atomic (check_nonce nonce).

(** ** Credentials *)

Definition verifyProofJWT (raw : string) : hprog (result oauth_error ECKey) :=
  do now <- Now;
  match proof_checks base now raw with
  | Err e => Ret (Err e)
  | Ok (holderKey, nonce) =>
      do known <- nonceIssued nonce;
      if (known : bool) then Ret (Ok holderKey)
      else Ret (Err (mkOauthError "invalid_nonce" (Text "proof JWT nonce is not one this issuer handed out")))
  end.

Definition checkRequestedCredential (req : credentialRequest) (offered : list string) : option oauth_error :=
  if negb (CredentialIdentifier req =? "")%string && negb (CredentialConfigurationID req =? "")%string
  then Some (mkOauthError "invalid_credential_request" (Text "credential_identifier and credential_configuration_id must not both be present"))
  else if negb (CredentialIdentifier req =? "")%string
  then Some (mkOauthError "unknown_credential_identifier" (Text "this issuer returns no authorization_details, so no credential identifier is defined"))
  else if (CredentialConfigurationID req =? "")%string
  then Some (mkOauthError "invalid_credential_request" (Text "credential_configuration_id is required"))
  else if negb (contains offered (CredentialConfigurationID req))
  then Some (mkOauthError "unknown_credential_configuration"
         (Fmt "this offer covers the %s configuration(s), not %s" [Text (join ", " offered); Text (CredentialConfigurationID req)]))
  else None.

Fixpoint sign_all (keys : list ECKey) (granted : ticketGrant) : result why (list string) :=
  match keys with
  | [] => Ok []
  | key :: keys => let? credential := signGranted key granted in let? rest := sign_all keys granted in Ok (credential :: rest)
  end.

(** [holderKeys[:want]] when there are more keys. *)
Definition signBatch (keys : list ECKey) (granted : ticketGrant) : result why (list string) :=
  let size := batchSize (t_settings (g_token granted)) in
  let want := if size <? 1 then 1 else size in
  sign_all (if want <? Z.of_nat (length keys) then take (Z.to_nat want) keys else keys) granted.

Definition store_deferred (keys : list ECKey) (granted : ticketGrant) (token : string) (now : time) (d : D) : D * string :=
  let '(d, txID) := draw d in
  let ticket := mkTicket _ keys granted token (add now deferredReadyDelay) (add now entryTTL) in
  let d := pruneLocked d in
  let d := with_deferred d (makeRoom d_expires (deferred d)) in
  let d := with_deferred d (<[txID := ticket]> (deferred d)) in
  (with_deferrals d (deferrals d ++ [(txID, ticket)]), txID).

Definition deferIssuance (keys : list ECKey) (granted : ticketGrant) (token : string) : hprog string :=
  do now <- Now;
  atomic (store_deferred keys granted token now).

Definition handleCredential (r : http_request) : hprog response :=
  do access <- authorizeAccessToken r "/credential";
  match access with
  | Err e => refuse_with 401 e
  | Ok (token, tok) =>
      match decode_credential_request (Body r) with
      | Err e => refuse 400 "invalid_credential_request" e
      | Ok req =>
          match checkRequestedCredential req (configIDs (t_settings tok)) with
          | Some e => refuse_with 400 e
          | None =>
              let granted := mkTicketGrant tok (CredentialConfigurationID req) in
              match Proofs req with
              | [] => refuse 400 "invalid_proof" (Text "proofs.jwt is required")
              | proofs =>
                  if demoBatchSize <? Z.of_nat (length proofs)
                  then refuse 400 "invalid_credential_request" (Fmt "this issuer signs at most %d copies in one request" [Text (itoa demoBatchSize)])
                  else
                  do keys <- foreach proofs [] (fun proof keys => try key <- verifyProofJWT proof; Ret (Ok (keys ++ [key])));
                  match keys with
                  | Err e => refuse_with 400 e
                  | Ok keys =>
                      if defers (t_settings tok) then
                        do txID <- deferIssuance keys granted token;
                        respond 200 (PendingResponse txID None)
                      else match signBatch keys granted with
                           | Err e => refuse 500 "server_error" e
                           | Ok credentials => respond 200 (CredentialResponse credentials)
                           end
                  end
              end
          end
      end
  end.

(** ** Deferred issuance *)

Definition pending_ticket (txID : string) (d : D) : D * option (deferredTicket ECKey) :=
  match deferred d !! txID with
  | None => (d, None)
  | Some pending =>
      if after (clock d) (d_expires pending) then (with_deferred d (delete txID (deferred d)), None) else (d, Some pending)
  end.

(** The claim, which the history records with the token of the request. *)
Definition claim_ticket (txID token : string) (d : D) : D * bool :=
  let still := bool_decide (is_Some (deferred d !! txID)) in
  let d := with_deferred d (delete txID (deferred d)) in
  (if still then with_collected d (collected d ++ [(txID, token)]) else d, still).

Definition handleDeferredCredential (r : http_request) : hprog response :=
  do access <- authorizeAccessToken r "/deferred_credential";
  match access with
  | Err e => refuse_with 401 e
  | Ok (token, _) =>
      match decode_transaction_id (Body r) with
      | Err e => refuse 400 "invalid_credential_request" e
      | Ok txID =>
          do found <- atomic (pending_ticket txID);
          match found with
          | None => refuse 400 "invalid_transaction_id" (Text "unknown or expired transaction id")
          | Some pending =>
              if negb (d_token pending =? token)%string
              then refuse 401 "invalid_token" (Text "the access token does not match this transaction")
              else
              do now <- Now;
              if before now (readyAt pending) then respond 202 (PendingResponse txID (Some deferredPollSeconds))
              else
              do still <- atomic (claim_ticket txID token);
              if negb still then refuse 400 "invalid_transaction_id" (Text "the credential was already collected")
              else match signBatch (holderKeys pending) (d_granted pending) with
                   | Err e => refuse 500 "server_error" e
                   | Ok credentials => respond 200 (CredentialResponse credentials)
                   end
          end
      end
  end.

(** ** Pushed authorization requests *)

Definition requestURIPrefix : string := "urn:ietf:params:oauth:request_uri:".

Fixpoint detail_ids (details : list (string * string)) : result why (list string) :=
  match details with
  | [] => Ok []
  | (type, cfg) :: details =>
      if negb (type =? "openid_credential")%string
      then Err (Fmt "authorization_details type %q is not openid_credential" [Text type])
      else let? rest := detail_ids details in Ok (cfg :: rest)
  end.

(** The configurations that the scope and the authorization details name. *)
Definition requested_ids (scope authorizationDetails : string) : result oauth_error (list string) :=
  let ids := fields scope in
  if (authorizationDetails =? "")%string then Ok ids
  else match decode_details authorizationDetails with
       | Err e => Err (mkOauthError "invalid_authorization_details" (Fmt "authorization_details is not a JSON array: %v" [e]))
       | Ok details =>
           match detail_ids details with
           | Err e => Err (mkOauthError "invalid_authorization_details" e)
           | Ok more => Ok (ids ++ more)
           end
       end.

Definition with_settings (g : authGrant) (s : offerSettings) : authGrant :=
  mkAuthGrant (clientID g) (codeChallenge g) (redirectURI g) (ag_state g) (ag_issuerState g) (dpopJKT g) s.

Definition no_settings : offerSettings := mkSettings [] false false 0 "".

Definition resolveAuthGrant (grant : authGrant) (scope authorizationDetails : string) : hprog (result oauth_error authGrant) :=
  if negb (ag_issuerState grant =? "")%string then
    do found <- get (offerLocked (ag_issuerState grant) issuerState);
    match found with
    | Some (_, offer) => Ret (Ok (with_settings grant (o_settings offer)))
    | None => Ret (Err (mkOauthError "invalid_request" (Text "unknown or expired issuer_state")))
    end
  else
  match requested_ids scope authorizationDetails with
  | Err e => Ret (Err e)
  | Ok ids =>
      match offerConfigurationIDs ids with
      | Err e => Ret (Err (mkOauthError "invalid_scope" e))
      | Ok ids => Ret (Ok (with_settings grant (mkSettings ids false false 0 authorizationBrowser)))
      end
  end.

(** A new request behind a new pointer. *)
Definition alloc (a : authRequestState) (d : D) : D * nat :=
  let ref := fresh (dom (heap d)) in
  (with_heap d (<[ref := a]> (heap d)), ref).

Definition push_request (grant : authGrant) (attestation pop : string) (now : time) (d : D) : D * string :=
  let '(d, random) := draw d in
  let uri := requestURIPrefix +:+ random in
  let '(d, ref) := alloc (mkAuthRequest uri grant attestation pop "" false false [] (add now authRequestTTL)) d in
  let d := pruneLocked d in
  let d := with_authRequests d (makeRoom (request_expires d) (authRequests d)) in
  (with_authRequests d (<[uri := ref]> (authRequests d)), uri).

(** The key a code is bound to: dpop_jkt, else the key of the proof. *)
Definition code_key (r : http_request) (jkt : string) : result oauth_error string :=
  let codeKey := PostFormValue r "dpop_jkt" in
  if negb (codeKey =? "")%string && negb (jkt =? "")%string && negb (codeKey =? jkt)%string
  then Err (mkOauthError "invalid_dpop_proof" (Text "dpop_jkt does not match the key of the DPoP proof"))
  else Ok (if (codeKey =? "")%string then jkt else codeKey).

Definition pushed_grant (r : http_request) (clientid codeKey : string) : authGrant :=
  mkAuthGrant clientid (PostFormValue r "code_challenge") (PostFormValue r "redirect_uri") (PostFormValue r "state")
    (PostFormValue r "issuer_state") codeKey no_settings.

(** The request after the client is authenticated. *)
Definition push_authenticated (r : http_request) (clientid codeKey : string) : hprog response :=
  if negb (PostFormValue r "response_type" =? "code")%string
  then refuse 400 "unsupported_response_type" (Text "only response_type=code is supported")
  else if negb (PostFormValue r "code_challenge_method" =? "S256")%string
  then refuse 400 "invalid_request" (Text "PKCE with S256 is required")
  else if (PostFormValue r "code_challenge" =? "")%string || (PostFormValue r "redirect_uri" =? "")%string
  then refuse 400 "invalid_request" (Text "code_challenge and redirect_uri are required")
  else
  do grant <- resolveAuthGrant (pushed_grant r clientid codeKey) (PostFormValue r "scope") (PostFormValue r "authorization_details");
  match grant with
  | Err e => refuse_with 400 e
  | Ok grant =>
      do now <- Now;
      do uri <- atomic (push_request grant (trim_space (Header r "OAuth-Client-Attestation"))
                          (trim_space (Header r "OAuth-Client-Attestation-PoP")) now);
      respond 201 (PushedResponse uri (Z.quot authRequestTTL Second))
  end.

Definition handlePushedAuthorizationRequest (r : http_request) : hprog response :=
  let clientid := PostFormValue r "client_id" in
  if form_broken r then refuse 400 "invalid_request" (Text "could not read the request body")
  else if (clientid =? "")%string then refuse 400 "invalid_request" (Text "client_id is required")
  else
  do now <- Now;
  match dpopKey now r (issuerID base +:+ "/par") with
  | Err e => refuse_with 400 e
  | Ok jkt =>
      match code_key r jkt with
      | Err e => refuse_with 400 e
      | Ok codeKey =>
          do now <- Now;
          match authenticateClient base mode anchors now r clientid jkt with
          | Err e => refuse_with 401 e
          | Ok _ => push_authenticated r clientid codeKey
          end
      end
  end.

(** ** The sign-in *)

Definition lookup_request (uri : string) (d : D) : D * option (nat * authRequestState) :=
  match authRequests d !! uri with
  | Some ref =>
      match heap d !! ref with
      | Some a => if after (clock d) (a_expires a) then (with_authRequests d (delete uri (authRequests d)), None) else (d, Some (ref, a))
      | None => (with_authRequests d (delete uri (authRequests d)), None)
      end
  | None => (with_authRequests d (delete uri (authRequests d)), None)
  end.

Definition lookupAuthRequest (uri : string) : hprog (result why (nat * authRequestState)) :=
  let uri := trim_space uri in
  if (uri =? "")%string
  then Ret (Err (Text "request_uri is required, this authorization server requires pushed authorization requests"))
  else
  do found <- atomic (lookup_request uri);
  Ret (match found with Some a => Ok a | None => Err (Text "unknown or expired request_uri") end).

Definition mark_resolved (a : authRequestState) : authRequestState :=
  mkAuthRequest (requestURI a) (a_grant a) (clientAttestation a) (clientAttestationPoP a) (a_code a) (codeUsed a) true (a_holder a) (a_expires a).

Definition resolve_request (uri : string) (d : D) : D * result why () :=
  match authRequests d !! uri with
  | Some ref =>
      match heap d !! ref with
      | Some a => if resolved a then (d, Err (Text "request_uri has already been used, RFC 9126 §4 gives a client one use of it"))
                  else (with_heap d (<[ref := mark_resolved a]> (heap d)), Ok ())
      | None => (d, Err (Text "unknown or expired request_uri"))
      end
  | None => (d, Err (Text "unknown or expired request_uri"))
  end.

Definition resolveAuthRequest (uri : string) : hprog (result why ()) := atomic (resolve_request uri).

Definition writeAuthorizeError (w : why) : hprog response := refuse 400 "invalid_request" w.

Definition handleAuthorize (r : http_request) : hprog response :=
  do found <- lookupAuthRequest (Query_Get r "request_uri");
  match found with
  | Err e => writeAuthorizeError e
  | Ok (_, request) =>
      let clientid := Query_Get r "client_id" in
      if negb (clientid =? "")%string && negb (clientid =? clientID (a_grant request))%string
      then writeAuthorizeError (Text "client_id does not match the pushed authorization request")
      else
      do once <- resolveAuthRequest (requestURI request);
      match once with
      | Err e => writeAuthorizeError e
      | Ok _ => respond 200 (LoginPage (requestURI request) false)
      end
  end.

Definition with_code (a : authRequestState) (c : string) (holder : object) : authRequestState :=
  mkAuthRequest (requestURI a) (a_grant a) (clientAttestation a) (clientAttestationPoP a) c (codeUsed a) (resolved a) holder (a_expires a).

Definition bind_code (ref : nat) (holder : object) (d : D) : D * (string * string * string) :=
  let '(d, c) := draw d in
  match heap d !! ref with
  | None => (d, (c, "", ""))
  | Some a =>
      let d := with_heap d (<[ref := with_code a c holder]> (heap d)) in
      let d := with_codes d (makeRoom (request_expires d) (codes d)) in
      (with_codes d (<[c := ref]> (codes d)), (c, redirectURI (a_grant a), ag_state (a_grant a)))
  end.

Definition redirectWithCode (ref : nat) (holder : object) : hprog response :=
  do (c, uri, st) <- atomic (bind_code ref holder);
  if url_parses uri then respond 302 (RedirectTo uri c (issuerID base) st)
  else writeAuthorizeError (Text "the pushed redirect_uri is not a valid URL").

Definition account_claims : object := [("given_name", VString "Alice"); ("family_name", VString "Anderson")].

Definition handleAuthorizeSubmit (r : http_request) : hprog response :=
  if form_broken r then writeAuthorizeError (Text "could not read the form")
  else
  do found <- lookupAuthRequest (PostFormValue r "request_uri");
  match found with
  | Err e => writeAuthorizeError e
  | Ok (ref, request) =>
      if validDemoAccount (PostFormValue r "username") (PostFormValue r "password")
      then redirectWithCode ref account_claims
      else respond 401 (LoginPage (requestURI request) true)
  end.

(** ** The Authorization Challenge Endpoint (OpenID4VCI 1.1 section 6) *)

Definition interactionTypePresentation : string := "urn:openid:dcp:ia:openid4vp_presentation".
Definition interactionTypeAuthViaWeb : string := "urn:openid:dcp:ia:auth_via_web".
Definition identityClaims : list string := ["given_name"; "family_name"].

Definition requestedClaims (claims : object) (names : list string) : object :=
  fold_left (fun requested name => match GoValue.get name claims with Some v => GoValue.set name v requested | None => requested end) names [].

Definition pushChallengeAuthRequest (grant : authGrant) : hprog string :=
  do now <- Now;
  atomic (push_request grant "" "" now).

Definition answerAuthViaWeb (session : interactiveSession) : hprog response :=
  do uri <- pushChallengeAuthRequest (s_grant session);
  respond 403 (InteractionRequired "insufficient_authorization" interactionTypeAuthViaWeb (s_id session) (Some uri)).

Definition redirectChallengeToWeb (grant : authGrant) : hprog response :=
  if (redirectURI grant =? "")%string
  then refuse 400 "invalid_request" (Text "this offer is redeemed with a browser sign-in, which needs a redirect_uri in the authorization challenge request")
  else
  do uri <- pushChallengeAuthRequest grant;
  respond 403 (InteractionRequired "redirect_to_web" "" "" (Some uri)).

Definition store_session (grant : authGrant) (request : option requestState) (isBrowser : bool) (now : time) (d : D) : D * interactiveSession :=
  let '(d, sid) := draw d in
  let session := mkSession sid grant request (add now entryTTL) isBrowser in
  let d := pruneLocked d in
  let d := with_interactive d (makeRoom s_expires (interactive d)) in
  let d := match request with
           | Some req => let d := with_requests d (makeRoom r_expires (requests d)) in with_requests d (<[r_id req := req]> (requests d))
           | None => d
           end in
  (with_interactive d (<[sid := session]> (interactive d)), session).

Definition startAuthViaWebInteraction (grant : authGrant) : hprog response :=
  if (redirectURI grant =? "")%string
  then refuse 400 "invalid_request" (Text "the auth_via_web interaction continues at the authorization endpoint, which needs a redirect_uri in the authorization challenge request")
  else
  do now <- Now;
  do session <- atomic (store_session grant None true now);
  answerAuthViaWeb session.

(** The identity of the presentation request; its query is fixed. *)
Definition newInteractivePIDRequest (now : time) (d : D) : D * requestState :=
  let '(d, rid) := draw d in
  let '(d, nonce) := draw d in
  (d, mkRequestState rid nonce "pending" None [] (add now entryTTL)).

Definition without_redirect (g : authGrant) : authGrant :=
  mkAuthGrant (clientID g) (codeChallenge g) "" "" (ag_issuerState g) (dpopJKT g) (ag_settings g).

Definition start_presentation (grant : authGrant) : hprog response :=
  do now <- Now;
  do request <- atomic (newInteractivePIDRequest now);
  do session <- atomic (store_session (without_redirect grant) (Some request) false now);
  match interactivePresentationRequest request with
  | Err e => refuse 500 "server_error" e
  | Ok _ => respond 403 (InteractionRequired "insufficient_authorization" interactionTypePresentation (s_id session) None)
  end.

Definition startInteractiveAuthorization (r : http_request) (clientid jkt : string) : hprog response :=
  if negb (PostFormValue r "response_type" =? "code")%string
  then refuse 400 "invalid_request" (Fmt "response_type must be code, got %q" [Text (PostFormValue r "response_type")])
  else if (clientid =? "")%string then refuse 400 "invalid_request" (Text "client_id is required")
  else if (PostFormValue r "code_challenge" =? "")%string || negb (PostFormValue r "code_challenge_method" =? "S256")%string
  then refuse 400 "invalid_request" (Text "code_challenge with code_challenge_method S256 is required")
  else
  do grant <- resolveAuthGrant (pushed_grant r clientid jkt) (PostFormValue r "scope") (PostFormValue r "authorization_details");
  match grant with
  | Err e => refuse_with 400 e
  | Ok grant =>
      let offered := PostFormValue r "interaction_types_supported" in
      if (authorization (ag_settings grant) =? authorizationBrowser)%string then
        if offersInteractionType offered interactionTypeAuthViaWeb then startAuthViaWebInteraction grant
        else redirectChallengeToWeb grant
      else if negb (offersInteractionType offered interactionTypePresentation)
      then refuse 400 "missing_interaction_type" (Text "interaction_types_supported in the request is missing the required interaction type 'urn:openid:dcp:ia:openid4vp_presentation'")
      else start_presentation grant
  end.

Definition lookup_session (sid : string) (d : D) : D * option interactiveSession :=
  match interactive d !! sid with
  | None => (d, None)
  | Some session =>
      if after (clock d) (s_expires session) then (with_interactive d (delete sid (interactive d)), None) else (d, Some session)
  end.

(** The result of a presentation request, written through its pointer. *)
Definition finish_request (req : requestState) (outcome : result why object) (d : D) : D :=
  with_requests d (alter (fun q => mkRequestState (r_id q) (r_nonce q)
      (match outcome with Ok _ => "verified" | Err _ => "failed" end)
      (match outcome with Ok _ => None | Err e => Some e end)
      (match outcome with Ok claims => claims | Err _ => [] end) (r_expires q)) (r_id req) (requests d)).

Definition finishRequest (req : requestState) (outcome : result why object) : hprog () := modify (finish_request req outcome).

(** The code of a verified session, behind a request of its own. *)
Definition grant_session (sessionID : string) (session : interactiveSession) (claims : object) (now : time) (d : D) : D * string :=
  let '(d, c) := draw d in
  let '(d, ref) := alloc (mkAuthRequest "" (s_grant session) "" "" c false false (requestedClaims claims identityClaims) (add now entryTTL)) d in
  let d := with_codes d (makeRoom (request_expires d) (codes d)) in
  let d := with_codes d (<[c := ref]> (codes d)) in
  (with_interactive d (delete sessionID (interactive d)), c).

(** The presentation of an Intermediate Request. *)
Definition continue_presentation (r : http_request) (sessionID : string) (session : interactiveSession) (request : requestState) : hprog response :=
  match unmarshal_object (PostFormValue r "openid4vp_response") with
  | None => refuse 400 "invalid_request" (Text "openid4vp_response is not a JSON object")
  | Some resp =>
      let refusal := get_string resp "error" in
      if negb (refusal =? "")%string then
        do _ <- finishRequest request (Err (Fmt "the wallet refused: %s" [Text (trim_space (refusal +:+ " " +:+ get_string resp "error_description"))]));
        refuse 400 "access_denied" (Fmt "the wallet did not present a credential: %s" [Text refusal])
      else
      match index resp "vp_token" with
      | VNil => refuse 400 "invalid_request" (Text "openid4vp_response carried no vp_token")
      | vpToken =>
          let outcome := verifyPresentation request vpToken in
          do _ <- finishRequest request outcome;
          match outcome with
          | Err e => refuse 400 "access_denied" (Fmt "the presentation could not be verified: %s" [e])
          | Ok claims =>
              do now <- Now;
              do c <- atomic (grant_session sessionID session claims now);
              respond 200 (AuthorizationCode c)
          end
      end
  end.

Definition continueInteractiveAuthorization (r : http_request) (sessionID clientid : string) : hprog response :=
  do found <- atomic (lookup_session sessionID);
  match found with
  | None => refuse 400 "invalid_grant" (Text "unknown or expired auth_session")
  | Some session =>
      if negb (clientid =? "")%string && negb (clientid =? clientID (s_grant session))%string
      then refuse 400 "invalid_grant" (Text "client_id does not match the authorization session")
      else
      match browser session, s_request session with
      | true, _ => answerAuthViaWeb session
      | false, Some request => continue_presentation r sessionID session request
      | false, None => refuse 500 "server_error" (Text "")
      end
  end.

Definition handleAuthorizationChallenge (r : http_request) : hprog response :=
  do now <- Now;
  match dpopKey now r (challengeEndpoint base) with
  | Err e => refuse_with 400 e
  | Ok jkt =>
      let clientid := PostFormValue r "client_id" in
      do now <- Now;
      match authenticateClient base mode anchors now r clientid jkt with
      | Err e => refuse_with 401 e
      | Ok _ =>
          let session := trim_space (PostFormValue r "auth_session") in
          if negb (session =? "")%string then continueInteractiveAuthorization r session clientid
          else startInteractiveAuthorization r clientid jkt
      end
  end.

(** ** The server *)

(** One request of a client, by endpoint. *)
Inductive endpoint : Type :=
| CreateOffer | OfferByReference (oid : string) | TokenEndpoint | CredentialEndpoint | DeferredEndpoint | NonceEndpoint
| PAR | AuthorizePage | AuthorizeForm | AuthorizationChallenge.

Definition serve (e : endpoint) (r : http_request) : hprog response :=
  match e with
  | CreateOffer => handleCreateOffer r
  | OfferByReference oid => handleOfferByReference oid
  | TokenEndpoint => handleToken r
  | CredentialEndpoint => handleCredential r
  | DeferredEndpoint => handleDeferredCredential r
  | NonceEndpoint => handleNonce
  | PAR => handlePushedAuthorizationRequest r
  | AuthorizePage => handleAuthorize r
  | AuthorizeForm => handleAuthorizeSubmit r
  | AuthorizationChallenge => handleAuthorizationChallenge r
  end.

(** Time passes: the clock is set to any time. *)
Definition pass_time (now : time) : hprog response := do _ <- modify (fun d => with_clock d now); respond 0 (NonceResponse "").

(** A thread runs a handler on any request, or lets time pass. *)
Inductive served : hprog response -> Prop :=
| serving e r : served (serve e r)
| passing now : served (pass_time now).

(** The requests of all clients interleave step by step. *)
Definition issuer_step : D * pool D response -> D * pool D response -> Prop :=
  pool_step (fun _ => True) (fun _ => True) (fun _ p => served p).

(** What a server started at [now] can come to. *)
Definition reachable (d : D) (P : pool D response) : Prop :=
  exists now, rtc issuer_step (New now, ∅) (d, P).
End handlers.
