(* ===== verification/IssuerState.v ===== *)
(** * IssuerState: the invariant of the demo issuer's state

    The invariant of a server that runs any number of handlers at once, and the
    lemmas that each locked section keeps it.  The proof adds to the state the requests whose code a handler has
    taken and not yet exchanged ([held]). *)

From stdpp Require Import base list strings gmap relations.
From Stdlib Require Import ZArith Lia Ascii.
From S2P Require Import Prelude GoStrings GoValue Format Validity SDJWT GoMap Conc Rooms IssuerAuth Issuer.

(** ** The invariant *)

(** What a token spends: an authorization request or an offer. *)
Definition spent (o : origin) : nat + string := match o with FromCode ref _ => inl ref | FromOffer k => inr k end.

Section invariant.
Context {jose : Jose} {json : Json} {hash : Hash} {map_order : MapOrder}.
Context (base : string) (mode : ClientAuthMode) (anchors : list Cert) (rand_text : nat -> string).

Abbreviation D := (demo ECKey).

(** The state and the requests whose code a thread has taken. *)
Record gdemo := mkGhost { real : D; held : gmap nat string }.

Definition drawn_before (n : nat) (k : string) : Prop := exists i, (i < n)%nat /\ k = rand_text i.

Definition sizes_ok (d : D) : Prop :=
  (size (offers d) <= maxEntries)%nat /\ (size (tokens d) <= maxEntries)%nat /\ (size (requests d) <= maxEntries)%nat /\
  (size (authRequests d) <= maxEntries)%nat /\ (size (codes d) <= maxEntries)%nat /\ (size (interactive d) <= maxEntries)%nat /\
  (size (nonces d) <= maxEntries)%nat /\ (size (deferred d) <= maxEntries)%nat.

(** The client authenticated, and the token is bound to the key it proved. *)
Definition authenticated (i : issuance) (clientAuth : clientAuthentication) : Prop :=
  t_client (i_state i) = Some clientAuth /\
  (exists now, dpopKey now (i_request i) (issuerID base +:+ "/token") = Ok (t_jkt (i_state i))) /\
  (exists now, authenticateClient base mode anchors now (i_request i) (PostFormValue (i_request i) "client_id") (t_jkt (i_state i)) = Ok clientAuth).

(** The client a token request speaks for. *)
Definition client_of (r : http_request) (clientAuth : clientAuthentication) : string :=
  if (PostFormValue r "client_id" =? "")%string then ca_clientID clientAuth else PostFormValue r "client_id".

(** What must hold for a token given for a code of this grant. *)
Definition earned (g : authGrant) (i : issuance) : Prop :=
  exists clientAuth, authenticated i clientAuth /\
    client_of (i_request i) clientAuth = clientID g /\
    PostFormValue (i_request i) "redirect_uri" = redirectURI g /\
    pkceMatches (PostFormValue (i_request i) "code_verifier") (codeChallenge g) = true /\
    (dpopJKT g = "" \/ t_jkt (i_state i) = dpopJKT g) /\
    t_settings (i_state i) = ag_settings g.

Definition tokens_ok (toks : gmap string tokenState) (iss : list issuance) : Prop :=
  forall tok s, toks !! tok = Some s -> exists i, i ∈ iss /\ i_token i = tok /\ i_state i = s.

Definition codes_ok (hp : gmap nat authRequestState) (iss : list issuance) (hd : gmap nat string) : Prop :=
  (forall i ref c, i ∈ iss -> i_origin i = FromCode ref c ->
     hd !! ref = None /\ exists a, hp !! ref = Some a /\ codeUsed a = true /\ earned (a_grant a) i) /\
  (forall ref t, hd !! ref = Some t -> exists a, hp !! ref = Some a /\ codeUsed a = true).

Definition offers_ok (offs : gmap string offerState) (iss : list issuance) (n : nat) : Prop :=
  (forall i k, i ∈ iss -> i_origin i = FromOffer k ->
    drawn_before n k /\ (exists c, authenticated i c) /\ forall o, offs !! k = Some o -> redeemed o = true) /\
  (forall k o, offs !! k = Some o -> drawn_before n k).

(** A deferred issuance goes back to an access token. *)
Definition deferral_ok (iss : list issuance) (tk : deferredTicket ECKey) : Prop :=
  g_config (d_granted tk) ∈ configIDs (t_settings (g_token (d_granted tk))) /\
  exists i, i ∈ iss /\ i_token i = d_token tk /\ i_state i = g_token (d_granted tk).

Definition deferred_ok (m : gmap string (deferredTicket ECKey)) (defs : list (string * deferredTicket ECKey))
    (coll : list (string * string)) (iss : list issuance) (n : nat) : Prop :=
  NoDup defs.*1 /\
  (forall tx tk, (tx, tk) ∈ defs -> drawn_before n tx /\ deferral_ok iss tk) /\
  (forall tx tk, m !! tx = Some tk -> (tx, tk) ∈ defs /\ tx ∉ coll.*1) /\
  NoDup coll.*1 /\
  (forall tx tok, (tx, tok) ∈ coll -> exists tk, (tx, tk) ∈ defs /\ d_token tk = tok).

Definition Good (w : gdemo) : Prop :=
  let d := real w in
  sizes_ok d /\ tokens_ok (tokens d) (issued d) /\ codes_ok (heap d) (issued d) (held w) /\
  NoDup (spent ∘ i_origin <$> issued d) /\ offers_ok (offers d) (issued d) (drawn d) /\
  deferred_ok (deferred d) (deferrals d) (collected d) (issued d) (drawn d).

(** What a thread leaves of the world of the others: requests keep their
    grant, a used code stays used. *)
Definition heap_grows (hp hp' : gmap nat authRequestState) : Prop :=
  forall ref a, hp !! ref = Some a ->
    exists a', hp' !! ref = Some a' /\ a_grant a' = a_grant a /\ (codeUsed a = true -> codeUsed a' = true).

Definition grows (d d' : D) : Prop :=
  heap_grows (heap d) (heap d') /\
  (forall i, i ∈ issued d -> i ∈ issued d') /\
  (forall x, x ∈ deferrals d -> x ∈ deferrals d').

Definition respects (t : string) (w w' : gdemo) : Prop :=
  grows (real w) (real w') /\ forall ref t', t' <> t -> held w !! ref = Some t' -> held w' !! ref = Some t'.

(** *** Monotonicity *)

Lemma drawn_before_le n n' k : (n <= n')%nat -> drawn_before n k -> drawn_before n' k.
Proof. intros Hn (i & Hi & ->). exists i. split; [lia|done]. Qed.

Lemma tokens_ok_sub m m' iss : m ⊆ m' -> tokens_ok m' iss -> tokens_ok m iss.
Proof. intros Hs Ht tok s Htok. apply Ht. by eapply lookup_weaken. Qed.

Lemma offers_ok_sub m m' iss n n' : m ⊆ m' -> (n <= n')%nat -> offers_ok m' iss n -> offers_ok m iss n'.
Proof.
  intros Hs Hn [Ho Hd]. split.
  - intros i k Hi Hk. destruct (Ho i k Hi Hk) as (Hdk & Ha & Hr). split; [by eapply drawn_before_le|split; [done|]].
    intros o Hok. apply Hr. by eapply lookup_weaken.
  - intros k o Hok. eapply drawn_before_le; [done|]. apply (Hd k o). by eapply lookup_weaken.
Qed.

Lemma deferred_ok_sub m m' defs coll iss n n' :
  m ⊆ m' -> (n <= n')%nat -> deferred_ok m' defs coll iss n -> deferred_ok m defs coll iss n'.
Proof.
  intros Hs Hn (Hd1 & Hd2 & Hd3 & Hd4 & Hd5). split; [done|split; [|split; [|done]]].
  - intros tx tk Hin. destruct (Hd2 tx tk Hin). split; [by eapply drawn_before_le|done].
  - intros tx tk Htx. apply Hd3. by eapply lookup_weaken.
Qed.

Lemma deferred_ok_more m defs coll iss iss' n :
  (forall i, i ∈ iss -> i ∈ iss') -> deferred_ok m defs coll iss n -> deferred_ok m defs coll iss' n.
Proof.
  intros Hs (Hd1 & Hd2 & Hd3). split; [done|split; [|done]]. intros tx tk Hin.
  destruct (Hd2 tx tk Hin) as (? & ? & i & Hi & ?). split; [done|split; [done|]]. exists i. auto.
Qed.

Lemma grows_refl d : grows d d.
Proof. split; [intros ref a Ha; by exists a|done]. Qed.

Lemma grows_trans d d' d'' : grows d d' -> grows d' d'' -> grows d d''.
Proof.
  intros (Hd1 & Hd2 & Hd3) (Hd1' & Hd2' & Hd3'). split; [|split; auto].
  intros ref a Ha. destruct (Hd1 ref a Ha) as (a' & Ha' & Eg & Hu). destruct (Hd1' ref a' Ha') as (a'' & Ha'' & Eg' & Hu').
  exists a''. split; [done|]. split; [congruence|auto].
Qed.

Lemma respects_same t d d' hd : grows d d' -> respects t (mkGhost d hd) (mkGhost d' hd).
Proof. by split. Qed.
(** *** One map at a time *)

Ltac split_good := split; [|split; [|split; [|split; [|split]]]]; simpl; try done.
Ltac split_sizes := split; [|split; [|split; [|split; [|split; [|split; [|split]]]]]]; simpl; try done.
Ltac open_good H := destruct H as ((?Hso & ?Hst & ?Hsr & ?Hsa & ?Hsc & ?Hsi & ?Hsn & ?Hsd) & ?Htok & ?Hcod & ?Hspent & ?Hoff & ?Hdef); simpl in *.
Ltac good_tac := intros Hgood; intros; open_good Hgood; split_good; lazymatch goal with |- sizes_ok _ => split_sizes | _ => idtac end.

Lemma good_offers d hd m :
  Good (mkGhost d hd) -> (size m <= maxEntries)%nat -> offers_ok m (issued d) (drawn d) -> Good (mkGhost (with_offers d m) hd).
Proof. good_tac. Qed.

Lemma good_tokens d hd m :
  Good (mkGhost d hd) -> (size m <= maxEntries)%nat -> tokens_ok m (issued d) -> Good (mkGhost (with_tokens d m) hd).
Proof. good_tac. Qed.

Lemma good_requests d hd m : Good (mkGhost d hd) -> (size m <= maxEntries)%nat -> Good (mkGhost (with_requests d m) hd).
Proof. good_tac. Qed.

Lemma good_authRequests d hd m : Good (mkGhost d hd) -> (size m <= maxEntries)%nat -> Good (mkGhost (with_authRequests d m) hd).
Proof. good_tac. Qed.

Lemma good_codes d hd m : Good (mkGhost d hd) -> (size m <= maxEntries)%nat -> Good (mkGhost (with_codes d m) hd).
Proof. good_tac. Qed.

Lemma good_interactive d hd m : Good (mkGhost d hd) -> (size m <= maxEntries)%nat -> Good (mkGhost (with_interactive d m) hd).
Proof. good_tac. Qed.

Lemma good_nonces d hd m : Good (mkGhost d hd) -> (size m <= maxEntries)%nat -> Good (mkGhost (with_nonces d m) hd).
Proof. good_tac. Qed.

Lemma good_deferred d hd m :
  Good (mkGhost d hd) -> (size m <= maxEntries)%nat ->
  deferred_ok m (deferrals d) (collected d) (issued d) (drawn d) -> Good (mkGhost (with_deferred d m) hd).
Proof. good_tac. Qed.

Lemma good_heap d hd hd' hp :
  Good (mkGhost d hd) -> codes_ok hp (issued d) hd' -> Good (mkGhost (with_heap d hp) hd').
Proof. good_tac. Qed.

Lemma good_clock d hd now : Good (mkGhost d hd) -> Good (mkGhost (with_clock d now) hd).
Proof. good_tac. Qed.

Lemma good_draw d hd : Good (mkGhost d hd) -> Good (mkGhost (draw rand_text d).1 hd).
Proof.
  good_tac.
  - eapply offers_ok_sub; [reflexivity| |exact Hoff]. lia.
  - eapply deferred_ok_sub; [reflexivity| |exact Hdef]. lia.
Qed.

Lemma sub_sizes d hd : Good (mkGhost d hd) -> sizes_ok d.
Proof. by intros [? _]. Qed.

Lemma good_prune d hd : Good (mkGhost d hd) -> Good (mkGhost (pruneLocked d) hd).
Proof.
  intros Hgood. open_good Hgood. split_good.
  - split_sizes; try by apply pruned_size. eapply sub_size; [apply map_filter_subseteq|exact Hsc].
  - eapply tokens_ok_sub; [apply prune_sub|done].
  - eapply offers_ok_sub; [apply prune_sub| |exact Hoff]. done.
  - eapply deferred_ok_sub; [apply prune_sub| |exact Hdef]. done.
Qed.
(** *** The heap *)

Lemma heap_grows_alloc a (d : D) : heap_grows (heap d) (heap (alloc a d).1).
Proof.
  intros ref b Hb. exists b. split; [|done]. simpl. rewrite lookup_insert_ne; [done|]. intros E.
  apply (is_fresh (dom (heap d))). rewrite E. by apply elem_of_dom_2 in Hb.
Qed.

Lemma heap_grows_update hp ref a a' :
  hp !! ref = Some a -> a_grant a' = a_grant a -> (codeUsed a = true -> codeUsed a' = true) -> heap_grows hp (<[ref := a']> hp).
Proof.
  intros Ha Eg Hu ref' b Hb. destruct (decide (ref' = ref)) as [->|Hne].
  - exists a'. rewrite lookup_insert_eq. simplify_eq. by split.
  - exists b. by rewrite lookup_insert_ne.
Qed.

Lemma codes_ok_grow hp hp' iss hd : heap_grows hp hp' -> codes_ok hp iss hd -> codes_ok hp' iss hd.
Proof.
  intros Hg [Hc Hh]. split.
  - intros i ref c Hi Ho. destruct (Hc i ref c Hi Ho) as (Hn & a & Ha & Hu & He). split; [done|].
    destruct (Hg ref a Ha) as (a' & Ha' & Eg & Hu'). exists a'. rewrite Eg. auto.
  - intros ref t Ht. destruct (Hh ref t Ht) as (a & Ha & Hu). destruct (Hg ref a Ha) as (a' & Ha' & _ & Hu'). exists a'. auto.
Qed.

Lemma good_grow d hd hp : Good (mkGhost d hd) -> heap_grows (heap d) hp -> Good (mkGhost (with_heap d hp) hd).
Proof. intros Hgood Hg. apply (good_heap d hd); [done|]. eapply codes_ok_grow; [done|]. by destruct Hgood as (_ & _ & ? & _). Qed.

Lemma grows_heap (d d' : D) : heap_grows (heap d) (heap d') -> issued d' = issued d -> deferrals d' = deferrals d -> grows d d'.
Proof. intros Hg Ei Ed. split; [done|]. by rewrite Ei, Ed. Qed.

Lemma grows_same (d d' : D) : heap d' = heap d -> issued d' = issued d -> deferrals d' = deferrals d -> grows d d'.
Proof. intros Eh. apply grows_heap. rewrite Eh. intros ref a Ha. by exists a. Qed.
End invariant.
