(* ===== verification/IssuerSteps.v ===== *)
(** * IssuerSteps: every locked section of the demo issuer keeps the invariant

    One lemma per atomic step of Issuer.  Most steps concern no authorization
    request and are [keeping]; taking a code, issuing a token and deferring or
    collecting an issuance have statements of their own. *)

From stdpp Require Import base list strings gmap relations.
From Stdlib Require Import ZArith Lia Ascii.
From S2P Require Import Prelude GoStrings GoValue Format Validity SDJWT GoMap Conc Rooms IssuerAuth Issuer IssuerState.

Section steps.
Context {jose : Jose} {json : Json} {hash : Hash} {map_order : MapOrder}.
Context (base : string) (mode : ClientAuthMode) (anchors : list Cert) (rand_text : nat -> string).
Context (rand_inj : forall n m, rand_text n = rand_text m -> n = m).

Abbreviation D := (demo ECKey).
Abbreviation Good := (Good base mode anchors rand_text).

(** A step that keeps the invariant whatever codes the threads hold. *)
Definition keeping {R} (f : D -> D * R) : Prop :=
  forall d hd, Good (mkGhost d hd) -> Good (mkGhost (f d).1 hd) /\ grows d (f d).1.

Lemma drawn_ne n k : drawn_before rand_text n k -> k <> rand_text n.
Proof using rand_inj. intros (i & Hi & ->) E. apply rand_inj in E. lia. Qed.

(** Putting a fresh offer into a map with room. *)
Lemma offers_ok_insert m m' iss n n' o :
  m' ⊆ m -> (n < n')%nat ->
  offers_ok base mode anchors rand_text m iss n -> offers_ok base mode anchors rand_text (<[rand_text n := o]> m') iss n'.
Proof using rand_inj.
  intros Hs Hn [Ho Hd]. split.
  - intros i k Hi Hk. destruct (Ho i k Hi Hk) as (Hdk & Ha & Hr). split; [eapply drawn_before_le; [|done]; lia|split; [done|]].
    intros o' Ho'. rewrite lookup_insert_ne in Ho' by (intros E; by apply (drawn_ne n k)). apply Hr. by eapply lookup_weaken.
  - intros k o' [[<- _]|[_ Hk]]%lookup_insert_Some; [by exists n|].
    eapply drawn_before_le; [apply Nat.lt_le_incl, Hn|]. apply (Hd k o'). by eapply lookup_weaken.
Qed.

Lemma keeping_create_offer settings authCode : keeping (create_offer rand_text settings authCode).
Proof using rand_inj.
  intros d hd Hg. split; [|by apply grows_same].
  assert (Hp := good_prune base mode anchors rand_text d hd Hg).
  pose proof Hp as (_ & _ & _ & _ & Hoff & _). simpl in Hoff.
  set (m := makeRoom o_expires (prune_map o_expires (clock d) (offers d))) in *.
  assert (H1 : Good (mkGhost (with_offers (pruneLocked d) m) hd)).
  { apply good_offers; [done| |].
    - eapply sub_size; [apply makeRoom_sub|]. apply Hp.
    - eapply offers_ok_sub; [apply makeRoom_sub| |exact Hoff]. done. }
  apply (good_draw base mode anchors rand_text), (good_draw base mode anchors rand_text) in H1.
  refine (good_offers base mode anchors rand_text (draw rand_text (draw rand_text (with_offers (pruneLocked d) m)).1).1 hd _ H1 _ _);
    [apply insert_room|].
  eapply offers_ok_insert; [apply makeRoom_sub| |exact Hoff]. simpl. lia.
Qed.

(** Removing an expired entry. *)
Lemma deleted_size {V} (m : gmap string V) k : (size m <= maxEntries)%nat -> (size (delete k m) <= maxEntries)%nat.
Proof using. apply sub_size, delete_subseteq. Qed.

Ltac keep := intros d hd Hg; split; [|by apply grows_same].
Ltac sizes Hg := by apply deleted_size, Hg.

Lemma keeping_lookup_offer oid : keeping (lookup_offer oid).
Proof using.
  intros d hd Hg. unfold lookup_offer. destruct (offers d !! oid) as [o|]; [|by split; [|apply grows_refl]].
  destruct (after _ _); [|by split; [|apply grows_refl]]. split; [|by apply grows_same].
  apply good_offers; [done|sizes Hg|]. destruct Hg as (_ & _ & _ & _ & Hoff & _).
  eapply offers_ok_sub; [apply delete_subseteq| |exact Hoff]. done.
Qed.

Lemma keeping_issue_nonce : keeping (issue_nonce rand_text).
Proof using.
  keep. apply (good_nonces _ _ _ _ (pruneLocked (draw rand_text d).1)); [|apply insert_room].
  by apply good_prune, good_draw.
Qed.

Lemma keeping_check_nonce nonce : keeping (check_nonce nonce).
Proof using.
  intros d hd Hg. unfold check_nonce. destruct (nonces d !! nonce) as [e|]; [|by split; [|apply grows_refl]].
  destruct (after _ _); [|by split; [|apply grows_refl]]. split; [|by apply grows_same].
  apply good_nonces; [done|sizes Hg].
Qed.

Lemma keeping_lookup_session sid : keeping (lookup_session sid).
Proof using.
  intros d hd Hg. unfold lookup_session. destruct (interactive d !! sid) as [e|]; [|by split; [|apply grows_refl]].
  destruct (after _ _); [|by split; [|apply grows_refl]]. split; [|by apply grows_same].
  apply good_interactive; [done|sizes Hg].
Qed.

Lemma keeping_pending_ticket txID : keeping (pending_ticket txID).
Proof using.
  intros d hd Hg. unfold pending_ticket. destruct (deferred d !! txID) as [e|]; [|by split; [|apply grows_refl]].
  destruct (after _ _); [|by split; [|apply grows_refl]]. split; [|by apply grows_same].
  apply good_deferred; [done|sizes Hg|]. destruct Hg as (_ & _ & _ & _ & _ & Hdef).
  eapply deferred_ok_sub; [apply delete_subseteq| |exact Hdef]. done.
Qed.

(** A new request behind a new pointer. *)
Lemma good_alloc d hd a : Good (mkGhost d hd) -> Good (mkGhost (alloc a d).1 hd).
Proof using. intros Hg. apply good_grow; [done|apply heap_grows_alloc]. Qed.

Lemma keeping_push_request grant attestation pop now : keeping (push_request rand_text grant attestation pop now).
Proof using.
  intros d hd Hg. split; [|apply grows_heap; [|done|done]; apply (heap_grows_alloc _ (draw rand_text d).1)].
  unfold push_request. cbn [fst snd]. rewrite (surjective_pairing (draw rand_text d)), (surjective_pairing (alloc _ _)).
  apply (good_authRequests _ _ _ _ (pruneLocked (alloc _ (draw rand_text d).1).1)); [|apply insert_room].
  by apply good_prune, good_alloc, good_draw.
Qed.

Lemma keeping_lookup_request uri : keeping (lookup_request uri).
Proof using.
  intros d hd Hg. assert (Hdel : Good (mkGhost (with_authRequests d (delete uri (authRequests d))) hd)).
  { apply good_authRequests; [done|sizes Hg]. }
  unfold lookup_request. destruct (authRequests d !! uri) as [ref|]; [|by split; [|apply grows_same]].
  destruct (heap d !! ref) as [a|]; [|by split; [|apply grows_same]].
  destruct (after _ _); [by split; [|apply grows_same]|by split; [|apply grows_refl]].
Qed.

Lemma keeping_resolve_request uri : keeping (resolve_request uri).
Proof using.
  intros d hd Hg. unfold resolve_request. destruct (authRequests d !! uri) as [ref|]; [|by split; [|apply grows_refl]].
  destruct (heap d !! ref) as [a|] eqn:Ea; [|by split; [|apply grows_refl]]. destruct (resolved a); [by split; [|apply grows_refl]|].
  assert (Hgr : heap_grows (heap d) (<[ref := mark_resolved a]> (heap d))) by by apply (heap_grows_update _ _ a).
  split; [by apply good_grow|by apply grows_heap].
Qed.

Lemma keeping_bind_code ref holder : keeping (bind_code rand_text ref holder).
Proof using.
  intros d hd Hg. unfold bind_code. cbn [draw]. destruct (heap (with_drawn d _) !! ref) as [a|] eqn:Ea.
  - set (a' := with_code a (rand_text (drawn d)) holder).
    assert (Hgr : heap_grows (heap d) (<[ref := a']> (heap d))) by by apply (heap_grows_update _ _ a).
    split; [|by apply grows_heap].
    apply (good_codes _ _ _ _ (with_heap (draw rand_text d).1 (<[ref := a']> (heap d)))); [|apply insert_room].
    apply good_grow; [by apply good_draw|done].
  - split; [by apply good_draw|by apply grows_same].
Qed.

Lemma keeping_newInteractivePIDRequest now : keeping (newInteractivePIDRequest rand_text now).
Proof using. keep. exact (good_draw base mode anchors rand_text (draw rand_text d).1 hd (good_draw base mode anchors rand_text d hd Hg)). Qed.

Lemma keeping_store_session grant request isBrowser now : keeping (store_session rand_text grant request isBrowser now).
Proof using.
  intros d hd Hg. unfold store_session. rewrite (surjective_pairing (draw rand_text d)).
  set (d0 := pruneLocked (draw rand_text d).1). set (d1 := with_interactive d0 (makeRoom s_expires (interactive d0))).
  assert (H1 : Good (mkGhost d1 hd)).
  { apply good_interactive; [by apply good_prune, good_draw|]. eapply sub_size; [apply makeRoom_sub|].
    apply pruned_size, Hg. }
  destruct request as [req|]; cbn [fst]; (split; [|by apply grows_same]).
  - apply (good_interactive _ _ _ _ (with_requests d1 _)); [|apply insert_room]. apply good_requests; [done|apply insert_room].
  - apply (good_interactive _ _ _ _ d1); [done|apply insert_room].
Qed.

Lemma keeping_finish_request req outcome : keeping (fun d => (finish_request req outcome d, ())).
Proof using.
  keep. apply good_requests; [done|]. rewrite <- size_dom, dom_alter_L, size_dom. apply Hg.
Qed.

Lemma keeping_grant_session sid session claims now : keeping (grant_session rand_text sid session claims now).
Proof using.
  intros d hd Hg. split; [|apply grows_heap; [|done|done]; apply (heap_grows_alloc _ (draw rand_text d).1)].
  unfold grant_session. rewrite (surjective_pairing (draw rand_text d)), (surjective_pairing (alloc _ _)). cbn [fst].
  apply (good_interactive _ _ _ _ (with_codes (alloc _ (draw rand_text d).1).1 _)); [|sizes Hg].
  apply good_codes; [by apply good_alloc, good_draw|apply insert_room].
Qed.

Lemma keeping_clock now : keeping (fun d => (with_clock d now, ())).
Proof using. keep. by apply good_clock. Qed.

Lemma keeping_read {R} (f : D -> R) : keeping (fun d => (d, f d)).
Proof using. intros d hd Hg. by split; [|apply grows_refl]. Qed.

(** *** Codes *)

(** Taking a code: the request was not used, and now it is held. *)
Lemma good_take_code t c d hd :
  Good (mkGhost d hd) ->
  grows d (take_code c d).1 /\
  match (take_code c d).2 with
  | None => Good (mkGhost (take_code c d).1 hd)
  | Some (ref, a) => hd !! ref = None /\ heap (take_code c d).1 !! ref = Some a /\ Good (mkGhost (take_code c d).1 (<[ref := t]> hd))
  end.
Proof using.
  intros Hg. unfold take_code. destruct (codes d !! c) as [ref|]; [|by split; [apply grows_refl|]].
  destruct (heap d !! ref) as [a|] eqn:Ea; [|by split; [apply grows_refl|]].
  destruct (_ || codeUsed a) eqn:Eu; cbn [fst snd]; [split; [by apply grows_same|by apply good_codes; [|sizes Hg]]|].
  apply orb_false_iff in Eu as [_ Eu].
  assert (Hgr : heap_grows (heap d) (<[ref := use_code a]> (heap d))) by by apply (heap_grows_update _ _ a).
  split; [by apply grows_heap|].
  pose proof Hg as (_ & _ & [Hc Hh] & _). simpl in *.
  assert (Hn : hd !! ref = None).
  { destruct (hd !! ref) as [t'|] eqn:E; [|done]. destruct (Hh ref t' E) as (a' & Ha' & Hu). simplify_eq. congruence. }
  split; [done|split; [by rewrite lookup_insert_eq|]].
  apply (good_heap _ _ _ _ d hd); [done|]. destruct (codes_ok_grow _ _ _ _ _ _ _ Hgr (conj Hc Hh)) as [Hc' Hh']. split.
  - intros i ref' c' Hi Ho. destruct (Hc' i ref' c' Hi Ho) as [Hn' He]. split; [|done].
    rewrite lookup_insert_ne; [done|]. intros <-. destruct (Hc i ref c' Hi Ho) as (_ & a' & Ha' & Hu & _). congruence.
  - intros ref' t' [[<- <-]|[Hne Ht]]%lookup_insert_Some; [|by apply (Hh' ref' t')].
    exists (use_code a). by rewrite lookup_insert_eq.
Qed.

(** *** Access tokens *)

(** A token that spends something not spent before. *)
Lemma good_issue d hd hd' granted from r :
  let i := mkIssuance (rand_text (drawn d)) (granted_until granted (Validity.add (clock d) entryTTL)) from r in
  Good (mkGhost d hd) ->
  codes_ok base mode anchors (heap d) (issued d ++ [i]) hd' ->
  spent from ∉ (spent ∘ i_origin <$> issued d) ->
  offers_ok base mode anchors rand_text (offers d) (issued d ++ [i]) (drawn d) ->
  Good (mkGhost (issueTokenLocked rand_text granted from r d).1 hd').
Proof using.
  intros i Hg Hcodes Hspent Hoff.
  set (d0 := pruneLocked (draw rand_text d).1).
  assert (H0 : Good (mkGhost d0 hd)) by by apply good_prune, good_draw.
  destruct H0 as ((? & ? & ? & ? & ? & ? & ? & ?) & Htok & _ & Hnd & _ & Hdef). cbn in Htok, Hnd, Hdef.
  split; [|split; [|split; [|split; [|split]]]].
  - split; [|split; [|split; [|split; [|split; [|split; [|split]]]]]]; try done. apply insert_room.
  - intros tok s Htk. cbn in Htk. apply lookup_insert_Some in Htk as [[<- <-]|[_ Htk]].
    + exists i. split; [|done]. apply elem_of_app. right. by apply list_elem_of_singleton.
    + destruct (Htok tok s) as (j & Hj & Ej); [by eapply lookup_weaken, makeRoom_sub|]. exists j. split; [|done].
      apply elem_of_app. by left.
  - exact Hcodes.
  - cbn. rewrite fmap_app. apply NoDup_app. split; [done|split; [|apply NoDup_singleton]].
    intros x Hx ->%list_elem_of_singleton. done.
  - eapply offers_ok_sub; [apply prune_sub| |exact Hoff]. simpl. lia.
  - eapply deferred_ok_more; [|exact Hdef]. intros j Hj. apply elem_of_app. by left.
Qed.

Lemma grows_issue granted from r (d : D) : grows d (issueTokenLocked rand_text granted from r d).1.
Proof using. split; [intros ref a Ha; by exists a|split; [|done]]. intros i Hi. apply elem_of_app. by left. Qed.

Lemma in_snoc {A} (x y : A) l : x ∈ l ++ [y] <-> x ∈ l \/ x = y.
Proof using. by rewrite elem_of_app, list_elem_of_singleton. Qed.

(** The holder of a code exchanges it. *)
Lemma good_exchange t d hd ref c a granted r :
  Good (mkGhost d hd) -> hd !! ref = Some t -> heap d !! ref = Some a ->
  (forall tok e, earned base mode anchors (a_grant a) (mkIssuance tok (granted_until granted e) (FromCode ref c) r)) ->
  Good (mkGhost (issueTokenLocked rand_text granted (FromCode ref c) r d).1 (delete ref hd)).
Proof using.
  intros Hg Ht Ha He. pose proof Hg as (_ & _ & [Hc Hh] & _ & [Ho Hk] & _). simpl in *. eapply good_issue; [exact Hg| | |].
  - split.
    + intros i ref' c' [Hi| ->]%in_snoc Ei.
      * destruct (Hc i ref' c' Hi Ei) as [Hn Hx]. split; [|done]. destruct (decide (ref' = ref)) as [->|Hne]; [by rewrite lookup_delete_eq|].
        by rewrite lookup_delete_ne.
      * simpl in Ei. simplify_eq. split; [by rewrite lookup_delete_eq|]. destruct (Hh _ _ Ht) as (a' & Ha' & Hu).
        exists a. simplify_eq. auto.
    + intros ref' t' [_ Ht']%lookup_delete_Some. by apply (Hh ref' t').
  - intros (i & Ei & Hi)%list_elem_of_fmap. simpl in Ei. destruct (i_origin i) as [ref' c'|k'] eqn:Eo; [|done].
    injection Ei as <-. destruct (Hc i ref c' Hi Eo) as [Hn _]. congruence.
  - split; [|done]. intros i k [Hi| ->]%in_snoc Ei; [by apply Ho|done].
Qed.

(** An unused offer is redeemed for a token. *)
Lemma offerLocked_in key grantKey (d : D) k o : offerLocked key grantKey d = Some (k, o) -> offers d !! k = Some o.
Proof using. unfold offerLocked. destruct (_ =? _)%string; [done|]. intros [Hin _]%find_some. by apply entries_of, list_elem_of_In. Qed.

Lemma keeping_redeem_and_issue key jkt clientAuth r :
  (forall tok s f, t_client s = Some clientAuth -> t_jkt s = jkt -> authenticated base mode anchors (mkIssuance tok s f r) clientAuth) ->
  keeping (redeem_and_issue rand_text key jkt clientAuth r).
Proof using.
  intros Hauth d hd Hg. unfold redeem_and_issue, redeemOfferLocked.
  destruct (offerLocked key preAuthCode d) as [[k o]|] eqn:Eo; [|by split; [|apply grows_refl]].
  destruct (redeemed o) eqn:Er; [by split; [|apply grows_refl]|]. apply offerLocked_in in Eo.
  set (d1 := with_offers d (<[k := redeem o]> (offers d))).
  pose proof Hg as (_ & _ & [Hc Hh] & _ & [Ho Hk] & _). simpl in *.
  assert (Hnot : forall i, i ∈ issued d -> i_origin i <> FromOffer k).
  { intros i Hi Ei. destruct (Ho i k Hi Ei) as (_ & _ & Hr). rewrite (Hr o Eo) in Er. done. }
  assert (Hoff : forall iss, (forall i, i ∈ iss -> i ∈ issued d \/ i_origin i = FromOffer k /\ exists c, authenticated base mode anchors i c) ->
            offers_ok base mode anchors rand_text (offers d1) iss (drawn d)).
  { intros iss Hiss. split.
    - intros i k' Hi Ei. destruct (Hiss i Hi) as [Hold|[Ei' Hau]].
      + destruct (Ho i k' Hold Ei) as (Hd & Ha & Hr). split; [done|split; [done|]]. intros o' Ho'. simpl in Ho'.
        rewrite lookup_insert_ne in Ho'; [by apply Hr|]. intros <-. by apply (Hnot i).
      + assert (k' = k) as -> by congruence. split; [by apply (Hk k o)|split; [done|]]. simpl. rewrite lookup_insert_eq. by intros o' [= <-].
    - intros k' o' Hk'. simpl in Hk'. apply lookup_insert_Some in Hk' as [[<- _]|[_ Hk']]; [by apply (Hk k o)|by apply (Hk k' o')]. }
  assert (H1 : Good (mkGhost d1 hd)).
  { apply good_offers; [done| |].
    - rewrite map_size_insert_Some; [|done]. apply Hg.
    - apply Hoff. auto. }
  set (granted := mkToken (o_settings o) [] jkt (Some clientAuth) zero_time).
  split; [|apply (grows_trans _ d1); [by apply grows_same|exact (grows_issue granted (FromOffer k) r d1)]].
  refine (good_issue d1 hd hd granted (FromOffer k) r H1 _ _ _).
  - split; [|exact Hh]. intros i ref c [Hi| ->]%in_snoc Ei; [by apply (Hc i ref c)|done].
  - intros (i & Ei & Hi)%list_elem_of_fmap. simpl in Ei. destruct (i_origin i) as [ref' c'|k'] eqn:Eo'; [done|].
    injection Ei as <-. by apply (Hnot i).
  - apply Hoff. intros i [Hi| ->]%in_snoc; [by left|right]. split; [done|]. exists clientAuth. by apply Hauth.
Qed.

(** *** Deferred issuance *)

Lemma keeping_store_deferred keys granted token now d hd :
  Good (mkGhost d hd) ->
  deferral_ok (issued d) (mkTicket _ keys granted token (Validity.add now deferredReadyDelay) (Validity.add now entryTTL)) ->
  Good (mkGhost (store_deferred rand_text keys granted token now d).1 hd) /\ grows d (store_deferred rand_text keys granted token now d).1.
Proof using rand_inj.
  intros Hg Hd. split; [|split; [intros ref a Ha; by exists a|split; [done|]]; intros x Hx; apply elem_of_app; by left].
  set (d0 := pruneLocked (draw rand_text d).1).
  assert (H0 : Good (mkGhost d0 hd)) by by apply good_prune, good_draw.
  pose proof Hg as (_ & _ & _ & _ & _ & (_ & Hold & _)). simpl in Hold.
  destruct H0 as ((? & ? & ? & ? & ? & ? & ? & ?) & Htok & Hcod & Hnd & Hoff & (Hd1 & Hd2 & Hd3 & Hd4 & Hd5)). cbn in *.
  assert (Hnew : forall tk, (rand_text (drawn d), tk) ∉ deferrals d).
  { intros tk Htk. destruct (Hold _ _ Htk) as [Hb _]. by apply drawn_ne in Hb. }
  split; [|split; [|split; [|split; [|split]]]]; try done.
  - split; [|split; [|split; [|split; [|split; [|split; [|split]]]]]]; try done. apply insert_room.
  - cbn. split; [|split; [|split; [|split]]].
    + rewrite fmap_app. apply NoDup_app. split; [done|split; [|apply NoDup_singleton]].
      intros x Hx ->%list_elem_of_singleton. apply list_elem_of_fmap in Hx as ([x tk] & E & Hx). simpl in E. subst x. by apply Hnew in Hx.
    + intros tx tk [Hin|[= -> ->]]%in_snoc; [by apply Hd2|]. split; [|done]. exists (drawn d). split; [lia|done].
    + intros tx tk Htx. apply lookup_insert_Some in Htx as [[<- <-]|[Hne Htx]].
      * split; [apply in_snoc; by right|]. intros ([tx tok] & E & Hin)%list_elem_of_fmap. simpl in E. subst tx.
        destruct (Hd5 _ _ Hin) as (tk & Htk & _). by apply Hnew in Htk.
      * destruct (Hd3 tx tk) as [? ?]; [by eapply lookup_weaken, makeRoom_sub|]. split; [apply in_snoc; by left|done].
    + done.
    + intros tx tok Hin. destruct (Hd5 tx tok Hin) as (tk & Htk & E). exists tk. split; [apply in_snoc; by left|done].
Qed.

(** The claim of a transaction whose ticket names the token. *)
Lemma keeping_claim_ticket txID token tk d hd :
  Good (mkGhost d hd) -> (txID, tk) ∈ deferrals d -> d_token tk = token ->
  Good (mkGhost (claim_ticket txID token d).1 hd) /\ grows d (claim_ticket txID token d).1.
Proof using.
  intros Hg Htk Et. unfold claim_ticket. pose proof Hg as (_ & _ & _ & _ & _ & Hdef). simpl in Hdef.
  assert (H1 : Good (mkGhost (with_deferred d (delete txID (deferred d))) hd)).
  { apply good_deferred; [done|sizes Hg|]. eapply deferred_ok_sub; [apply delete_subseteq| |exact Hdef]. done. }
  destruct (decide (is_Some (deferred d !! txID))) as [[tk' Htk']|Hn].
  2: { rewrite bool_decide_false by done. split; [done|by apply grows_same]. }
  rewrite bool_decide_true by (by exists tk'). split; [|by apply grows_same].
  destruct Hdef as (Hd1 & Hd2 & Hd3 & Hd4 & Hd5). destruct (Hd3 _ _ Htk') as [_ Hfresh].
  destruct H1 as (? & ? & ? & ? & ? & _). split; [done|split; [done|split; [done|split; [done|split; [done|]]]]]. cbn.
  split; [done|split; [done|split; [|split]]].
  - intros tx tk0 [Hne Htx]%lookup_delete_Some. destruct (Hd3 tx tk0 Htx) as [Hin Hc]. split; [done|]. rewrite fmap_app. cbn.
    intros [Hc'|Hc']%elem_of_app; [done|]. apply list_elem_of_singleton in Hc'. congruence.
  - rewrite fmap_app. apply NoDup_app. split; [done|split; [|apply NoDup_singleton]]. by intros x Hx ->%list_elem_of_singleton.
  - intros tx tok [Hin|[= -> ->]]%in_snoc; [by apply Hd5|]. by exists tk.
Qed.

(** What a request reads of the tokens and the tickets goes back to the
    history. *)
Lemma live_token_issued token d hd granted :
  Good (mkGhost d hd) -> live_token token d = Some granted ->
  exists i, i ∈ issued d /\ i_token i = token /\ i_state i = granted.
Proof using.
  intros (_ & Htok & _). unfold live_token. destruct (tokens d !! token) as [s|] eqn:Es; [|done].
  destruct (before _ _); [|done]. intros [= <-]. by apply Htok.
Qed.

Lemma pending_ticket_deferred txID d hd tk :
  Good (mkGhost d hd) -> (pending_ticket txID d).2 = Some tk -> (txID, tk) ∈ deferrals d.
Proof using.
  intros (_ & _ & _ & _ & _ & (_ & _ & Hd3 & _)). unfold pending_ticket. destruct (deferred d !! txID) as [p|] eqn:Ep; [|done].
  destruct (after _ _); [done|]. intros [= <-]. by apply Hd3.
Qed.
End steps.
