(* ===== verification/IssuerFacts.v ===== *)
(** * IssuerFacts: what the demo issuer guarantees under any interleaving

    The handlers of Issuer run as threads of one pool.  Every access token was
    earned and spends its own authorization request or offer, every deferred
    batch is collected at most once and by its own token, and no state map
    grows beyond its bound. *)

From stdpp Require Import base list strings gmap relations.
From Stdlib Require Import ZArith Lia Ascii.
From S2P Require Import Prelude GoStrings GoValue Numbers Format Validity SDJWT GoMap Conc Rooms IssuerAuth Issuer IssuerState IssuerSteps.

Create HintDb steady discriminated.

Section facts.
Context {jose : Jose} {json : Json} {hash : Hash} {map_order : MapOrder}.
Context (base : string) (mode : ClientAuthMode) (anchors : list Cert) (rand_text : nat -> string).
Context (rand_inj : forall n m, rand_text n = rand_text m -> n = m).
Context (statusListURI : string) (offeredConfigurationIDs : list string).
Context (signGranted : ECKey -> ticketGrant -> result why string).
Context (verifyPresentation : requestState -> value -> result why object) (interactivePresentationRequest : requestState -> result why object).
Context (url_parses : string -> bool).
Context (decode_credential_request : string -> result why credentialRequest).
Context (decode_transaction_id : string -> result why string).
Context (decode_details : string -> result why (list (string * string))).

Abbreviation D := (demo ECKey).
Abbreviation Good := (Good base mode anchors rand_text).
Abbreviation Keeping := (keeping base mode anchors rand_text).
Abbreviation isafe := (safe (fun _ : D => True) (fun w : gdemo => real w) Good respects).

(** ** Programs that concern no authorization request *)

Definition wider (w w' : gdemo) : Prop := grows (real w) (real w').
Abbreviation steady := (steady (fun w : gdemo => real w) Good respects wider).
Abbreviation growing := (growing wider).

Lemma respects_wider t w w' : respects t w w' -> wider w w'.
Proof using. by intros [Hg _]. Qed.

Lemma keeping_harmless {R} (f : D -> D * R) : Keeping f -> harmless (fun w : gdemo => real w) Good respects wider f.
Proof using. intros Hf t [d hd] Hg. destruct (Hf d hd Hg). exists (mkGhost (f d).1 hd). by split_and!. Qed.

Lemma steady_atomic {R} (f : D -> D * R) : Keeping f -> steady (atomic f).
Proof using. intros. by apply steady_step, keeping_harmless. Qed.

Lemma steady_get {R} (f : D -> R) : steady (get f).
Proof using. split; [apply keeping_harmless, keeping_read|done]. Qed.

Lemma growing_stable t I : growing I -> stable Good respects t I.
Proof using. apply grow_stable, respects_wider. Qed.

Lemma growing_true (P : Prop) : growing (fun _ => P).
Proof using. apply growing_const. Qed.

Lemma steady_safe {A} t (p : prog D A) I w : steady p -> growing I -> I w -> isafe t p (fun _ => I) w.
Proof using. apply steady_is_safe, respects_wider. Qed.

Lemma safe_steady {A B} t (p : prog D A) (g : A -> prog D B) I Q w :
  Good w -> steady p -> growing I -> I w -> (forall a w, Good w -> I w -> isafe t (g a) Q w) -> isafe t (bind p g) Q w.
Proof using. apply safe_after_steady, respects_wider. Qed.

Lemma safe_informed {R} t (f : D -> D * R) (I : gdemo -> Prop) (Q : R -> gdemo -> Prop) w :
  Keeping f -> growing I -> I w -> (forall r, growing (Q r)) ->
  (forall d hd, Good (mkGhost d hd) -> I (mkGhost d hd) -> Q (f d).2 (mkGhost (f d).1 hd)) ->
  isafe t (atomic f) Q w.
Proof using.
  intros Hf HI Hw HQ Hstep. apply (safe_informing _ _ _ _ wider respects_wider t f I); [by apply keeping_harmless|done|done|done|].
  intros [d hd] [d' hd'] Hg Hi [= ->] _. eapply HQ; [|by apply (Hstep d hd)]. apply grows_refl.
Qed.

(** ** The handlers that are steady *)

#[local] Hint Resolve keeping_lookup_offer keeping_issue_nonce keeping_check_nonce keeping_lookup_session
  keeping_push_request keeping_lookup_request keeping_resolve_request keeping_bind_code keeping_newInteractivePIDRequest
  keeping_store_session keeping_grant_session : steady.

Ltac steady :=
  repeat first
    [ exact I
    | progress intros
    | apply steady_bind
    | apply steady_get
    | apply steady_atomic; solve [auto with steady]
    | case_match ].

Abbreviation handle e r := (serve base mode anchors rand_text statusListURI offeredConfigurationIDs signGranted verifyPresentation interactivePresentationRequest
  url_parses decode_credential_request decode_transaction_id decode_details e r).

Lemma steady_resolveAuthGrant grant scope details : steady (resolveAuthGrant offeredConfigurationIDs decode_details grant scope details).
Proof using. unfold resolveAuthGrant. steady. Qed.

Lemma steady_push r : steady (handlePushedAuthorizationRequest base mode anchors rand_text offeredConfigurationIDs decode_details r).
Proof using.
  unfold handlePushedAuthorizationRequest, push_authenticated. steady; apply steady_resolveAuthGrant.
Qed.

Lemma steady_authorize r : steady (handleAuthorize r).
Proof using. unfold handleAuthorize, lookupAuthRequest, resolveAuthRequest. steady. Qed.

Lemma steady_authorize_submit r : steady (handleAuthorizeSubmit base rand_text url_parses r).
Proof using. unfold handleAuthorizeSubmit, lookupAuthRequest, redirectWithCode. steady. Qed.

Lemma steady_nonce : steady (handleNonce rand_text).
Proof using. unfold handleNonce. steady. Qed.

Lemma steady_verifyProofJWT raw : steady (verifyProofJWT base raw).
Proof using. unfold verifyProofJWT, nonceIssued. steady. Qed.

Lemma steady_finishRequest req outcome : steady (finishRequest req outcome).
Proof using. split; [apply keeping_harmless, keeping_finish_request|done]. Qed.

Lemma steady_challenge r :
  steady (handleAuthorizationChallenge base mode anchors rand_text offeredConfigurationIDs verifyPresentation interactivePresentationRequest decode_details r).
Proof using.
  unfold handleAuthorizationChallenge, continueInteractiveAuthorization, continue_presentation, startInteractiveAuthorization,
    startAuthViaWebInteraction, answerAuthViaWeb, redirectChallengeToWeb, start_presentation, pushChallengeAuthRequest.
  steady; first [apply steady_resolveAuthGrant|apply steady_finishRequest].
Qed.

Lemma steady_create_offer r : steady (handleCreateOffer base rand_text statusListURI offeredConfigurationIDs r).
Proof using rand_inj.
  unfold handleCreateOffer. steady. apply steady_atomic. by apply keeping_create_offer.
Qed.

Lemma steady_offer oid : steady (handleOfferByReference oid).
Proof using. unfold handleOfferByReference. steady. Qed.

Lemma steady_pass_time now : steady (pass_time now).
Proof using. split; [apply keeping_harmless, keeping_clock|done]. Qed.

(** ** Access tokens *)

(** What a thread knows of the code it has taken. *)
Definition holding (t : string) (ref : nat) (g : authGrant) (w : gdemo) : Prop :=
  held w !! ref = Some t /\ exists a, heap (real w) !! ref = Some a /\ a_grant a = g.

Lemma holding_stable t ref g : stable Good respects t (holding t ref g).
Proof using.
  intros w w' (_ & _ & t' & Ht & (Hh & _) & Hheld) (Hr & a & Ha & Eg). split; [by apply (Hheld ref t)|].
  destruct (Hh ref a Ha) as (a' & Ha' & Eg' & _). exists a'. split; [done|congruence].
Qed.

Lemma stable_true t (P : Prop) : stable Good respects t (fun _ => P).
Proof using. by intros w w' _ HP. Qed.

Lemma safe_exchange t r jkt clientAuth clientid ref granted w :
  Good w -> holding t ref (a_grant granted) w ->
  clientid = client_of r clientAuth ->
  (forall tok s, t_client s = Some clientAuth -> t_jkt s = jkt -> authenticated base mode anchors (mkIssuance tok s (FromCode ref (PostFormValue r "code")) r) clientAuth) ->
  isafe t (exchange_code rand_text r jkt clientid clientAuth ref granted) (fun _ _ => True) w.
Proof using.
  intros Hg Hw Ec Hauth. unfold exchange_code. set (g := a_grant granted) in *.
  assert (Hret : forall st a w, isafe t (respond st a) (fun _ _ => True) w) by (intros; by apply safe_ret; [apply stable_true|]).
  destruct (String.eqb_spec clientid (clientID g)) as [E1|]; [|apply Hret].
  destruct (String.eqb_spec (PostFormValue r "redirect_uri") (redirectURI g)) as [E2|]; [|apply Hret].
  destruct (pkceMatches _ _) eqn:E3; [|apply Hret]. cbn [negb].
  destruct (_ && _) eqn:E4; [apply Hret|].
  apply (safe_do _ _ _ _ t (holding t ref g)); [apply holding_stable|done|]. clear w Hg Hw.
  intros [d hd] (Hr & a & Ha & Eg) Hg _. cbn [real held] in *.
  eexists (mkGhost _ (delete ref hd)). split; [reflexivity|split; [|split]].
  - split; [apply grows_issue|]. intros ref' t' Ht' Hr'. cbn [held]. rewrite lookup_delete_ne; [done|]. intros <-. simplify_eq/=.
  - eapply good_exchange; [exact Hg|exact Hr|exact Ha|]. intros tok e. exists clientAuth. cbn. split; [by apply Hauth|].
    rewrite Eg. split; [congruence|split; [done|split; [done|split; [|done]]]].
    apply andb_false_iff in E4 as [E4|E4]; bsimpl; auto.
  - apply Hret.
Qed.

(** The client authentication of a token request, as a postcondition. *)
Lemma safe_client t r clientid jkt w :
  Good w ->
  isafe t (authenticateTokenClient base mode anchors r clientid jkt)
    (fun res _ => match res with Ok c => exists now, authenticateClient base mode anchors now r clientid jkt = Ok c | Err _ => True end) w.
Proof using.
  intros Hg. apply (safe_seq t Now _ (fun _ _ => True)); [done|apply steady_safe; [apply steady_get|apply growing_true|done]|].
  clear w Hg. intros now w Hg _. destruct (authenticateClient _ _ _ _ _ _ _) as [c|e] eqn:E.
  all: apply safe_ret; [apply stable_true|]. all: by try exists now.
Qed.

Lemma safe_code_token t r w :
  Good w -> isafe t (handleAuthorizationCodeToken base mode anchors rand_text r) (fun _ _ => True) w.
Proof using.
  intros Hg. assert (Hret : forall st a w, isafe t (respond st a) (fun _ _ => True) w) by (intros; by apply safe_ret; [apply stable_true|]).
  apply (safe_steady t Now _ (fun _ => True)); [done|apply steady_get|apply growing_true|done|]. clear w Hg. intros now w Hg _.
  destruct (dpopKey _ _ _) as [jkt|e] eqn:Ej; [|apply Hret].
  eapply safe_seq; [done|by apply safe_client|]. clear w Hg. intros [clientAuth|e] w Hg Hauth; [|by apply safe_ret; [apply stable_true|]].
  apply (safe_do _ _ _ _ t (fun _ => True)); [apply stable_true|done|]. clear w Hg. intros [d hd] _ Hg _.
  destruct (good_take_code base mode anchors rand_text t (PostFormValue r "code") d hd Hg) as [Hgr Htake].
  cbn [real]. destruct (take_code _ d) as [d' [[ref granted]|]] eqn:Et; cbn [fst snd] in *.
  - destruct Htake as (Hn & Ha & Hg'). exists (mkGhost d' (<[ref := t]> hd)).
    split; [done|split; [|split; [done|]]].
    + split; [done|]. intros ref' t' Ht' Hr'. cbn [held] in *. rewrite lookup_insert_ne; [done|]. intros <-. simplify_eq/=.
    + apply safe_exchange; [done| |done|].
      * split; [cbn; by rewrite lookup_insert_eq|]. by exists granted.
      * intros tok s Hs Hjk. split; [done|]. cbn. rewrite Hjk. split; [by exists now|done].
  - exists (mkGhost d' hd). split; [done|split; [by apply respects_same|split; [done|apply Hret]]].
Qed.

Lemma safe_pre_authorized t r w :
  Good w -> isafe t (pre_authorized_token base mode anchors rand_text r) (fun _ _ => True) w.
Proof using.
  intros Hg. assert (Hret : forall st a w, isafe t (respond st a) (fun _ _ => True) w) by (intros; by apply safe_ret; [apply stable_true|]).
  apply (safe_steady t Now _ (fun _ => True)); [done|apply steady_get|apply growing_true|done|]. clear w Hg. intros now w Hg _.
  destruct (dpopKey _ _ _) as [jkt|e] eqn:Ej; [|apply Hret].
  eapply safe_seq; [done|by apply safe_client|]. clear w Hg. intros [clientAuth|e] w Hg Hauth; [|by apply safe_ret; [apply stable_true|]].
  apply (safe_steady t (atomic _) _ (fun _ => True)); [done| |apply growing_true|done|].
  - apply steady_atomic, keeping_redeem_and_issue. intros tok s f Hs Hjk. split; [done|]. cbn. rewrite Hjk. split; [by exists now|done].
  - intros [token|] w' _ _; apply Hret.
Qed.

Lemma safe_token t r w : Good w -> isafe t (handleToken base mode anchors rand_text r) (fun _ _ => True) w.
Proof using.
  intros Hg. assert (Hret : forall st a w, isafe t (respond st a) (fun _ _ => True) w) by (intros; by apply safe_ret; [apply stable_true|]).
  unfold handleToken. destruct (form_broken r); [apply Hret|]. cbv zeta.
  destruct (_ =? preAuthGrant)%string; [by apply safe_pre_authorized|]. destruct (_ =? authCodeGrant)%string; [by apply safe_code_token|apply Hret].
Qed.

(** ** Credentials *)

(** The access token of a request was issued with what it grants. *)
Definition known_token (token : string) (granted : tokenState) (w : gdemo) : Prop :=
  exists i, i ∈ issued (real w) /\ i_token i = token /\ i_state i = granted.

Lemma growing_known token granted : growing (known_token token granted).
Proof using. intros w w' (_ & Hi & _) (i & Hin & E). exists i. auto. Qed.

Lemma safe_access t r e w :
  Good w ->
  isafe t (authorizeAccessToken base r e)
    (fun res w => match res with Ok (token, granted) => known_token token granted w | Err _ => True end) w.
Proof using.
  intros Hg. unfold authorizeAccessToken.
  destruct (accessToken r) as [token|]; [|by apply safe_ret; [apply stable_true|]].
  apply (safe_seq t _ _ (fun res w => match res with Some granted => known_token token granted w | None => True end)); [done| |].
  - apply (safe_informed t (fun d => (d, live_token token d)) (fun _ => True)); [apply keeping_read|apply growing_true|done| |].
    + intros [granted|]; [apply growing_known|apply growing_true].
    + intros d hd Hgd _. cbn [fst snd]. destruct (live_token token d) as [granted|] eqn:E; [|done].
      eapply live_token_issued; [exact Hgd|exact E].
  - clear w Hg. intros [granted|] w Hg Hw; [|by apply safe_ret; [apply stable_true|]].
    destruct (_ =? _)%string; [by apply safe_ret; [apply growing_stable, growing_known|]|].
    apply (safe_steady t Now _ (known_token token granted)); [done|apply steady_get|apply growing_known|done|].
    clear w Hg Hw. intros now w Hg Hw. destruct (verifyDPoPProof _ _ _ _) as [presented|err]; [|by apply safe_ret; [apply stable_true|]].
    destruct (negb _); [by apply safe_ret; [apply stable_true|]|]. by apply safe_ret; [apply growing_stable, growing_known|].
Qed.

Lemma requested_allowed req offered : checkRequestedCredential req offered = None -> CredentialConfigurationID req ∈ offered.
Proof using.
  unfold checkRequestedCredential. repeat case_match; try done. intros _. apply contains_spec.
  by apply negb_false_iff.
Qed.

Lemma safe_defer t keys granted token w :
  Good w -> known_token token (g_token granted) w -> g_config granted ∈ configIDs (t_settings (g_token granted)) ->
  isafe t (deferIssuance rand_text keys granted token) (fun _ _ => True) w.
Proof using rand_inj.
  intros Hg Hw Hc. unfold deferIssuance.
  apply (safe_steady t Now _ (known_token token (g_token granted))); [done|apply steady_get|apply growing_known|done|].
  clear w Hg Hw. intros now w Hg Hw.
  apply (safe_do _ _ _ _ t (known_token token (g_token granted))); [apply growing_stable, growing_known|done|].
  clear w Hg Hw. intros [d hd] (i & Hi & Et & Es) Hg _. cbn [real] in *.
  destruct (keeping_store_deferred base mode anchors rand_text rand_inj keys granted token now d hd Hg) as [Hg' Hgr].
  { split; [done|]. by exists i. }
  eexists (mkGhost _ hd). split; [reflexivity|split; [by apply respects_same|split; [done|]]]. by apply safe_ret; [apply stable_true|].
Qed.

Lemma safe_credential t r w :
  Good w -> isafe t (handleCredential base rand_text signGranted decode_credential_request r) (fun _ _ => True) w.
Proof using rand_inj.
  intros Hg. assert (Hret : forall st a w, isafe t (respond st a) (fun _ _ => True) w) by (intros; by apply safe_ret; [apply stable_true|]).
  unfold handleCredential. eapply safe_seq; [done|by apply safe_access|]. clear w Hg. intros [[token tok]|e] w Hg Hw; [|apply Hret].
  destruct (decode_credential_request (Body r)) as [req|e]; [|apply Hret].
  destruct (checkRequestedCredential req _) as [e|] eqn:Ec; [apply Hret|]. apply requested_allowed in Ec. cbv zeta.
  destruct (Proofs req) as [|p ps]; [apply Hret|]. destruct (demoBatchSize <? _)%Z; [apply Hret|].
  apply (safe_steady t (foreach _ _ _) _ (known_token token tok)); [done| |apply growing_known|done|].
  { apply steady_foreach. intros proof keys. apply steady_bind; [apply steady_verifyProofJWT|]. by intros [? | ?]. }
  clear w Hg Hw. intros [keys|e] w Hg Hw; [|apply Hret]. destruct (defers (t_settings tok)).
  - eapply safe_seq; [done|by apply safe_defer|]. intros; apply Hret.
  - destruct (signBatch _ _ _); apply Hret.
Qed.

(** ** Deferred credentials *)

Definition known_ticket (txID token : string) (w : gdemo) : Prop :=
  exists tk, (txID, tk) ∈ deferrals (real w) /\ d_token tk = token.

Lemma growing_ticket txID token : growing (known_ticket txID token).
Proof using. intros w w' (_ & _ & Hi) (tk & Hin & E). exists tk. auto. Qed.

Lemma safe_claim t txID token w :
  Good w -> known_ticket txID token w -> isafe t (atomic (claim_ticket txID token)) (fun _ _ => True) w.
Proof using.
  intros Hg Hw. apply (safe_do _ _ _ _ t (known_ticket txID token)); [apply growing_stable, growing_ticket|done|].
  clear w Hg Hw. intros [d hd] (tk & Htk & Et) Hg _. cbn [real] in *.
  destruct (keeping_claim_ticket base mode anchors rand_text txID token tk d hd Hg Htk Et) as [Hg' Hgr].
  eexists (mkGhost _ hd). split; [reflexivity|split; [by apply respects_same|split; [done|]]]. by apply safe_ret; [apply stable_true|].
Qed.

Lemma safe_deferred t r w :
  Good w -> isafe t (handleDeferredCredential base signGranted decode_transaction_id r) (fun _ _ => True) w.
Proof using.
  intros Hg. assert (Hret : forall st a w, isafe t (respond st a) (fun _ _ => True) w) by (intros; by apply safe_ret; [apply stable_true|]).
  unfold handleDeferredCredential. eapply safe_seq; [done|by apply safe_access|]. clear w Hg. intros [[token tok]|e] w Hg Hw; [|apply Hret].
  destruct (decode_transaction_id (Body r)) as [txID|e]; [|apply Hret].
  apply (safe_seq t _ _ (fun res w => match res with Some pending => known_ticket txID (d_token pending) w | None => True end)); [done| |].
  - apply (safe_informed t _ (fun _ => True)); [apply keeping_pending_ticket|apply growing_true|done| |].
    + intros [pending|]; [apply growing_ticket|apply growing_true].
    + intros d hd Hgd _. destruct (pending_ticket txID d).2 as [pending|] eqn:Ep; [|done].
      exists pending. split; [|done]. assert (Hin := pending_ticket_deferred _ _ _ _ _ _ _ _ Hgd Ep).
      destruct (keeping_pending_ticket base mode anchors rand_text txID d hd Hgd) as [_ (_ & _ & Hd)]. by apply Hd.
  - clear w Hg Hw. intros [pending|] w Hg Hw; [|apply Hret].
    destruct (String.eqb_spec (d_token pending) token) as [<-|]; [|apply Hret]. cbn [negb].
    apply (safe_steady t Now _ (known_ticket txID (d_token pending))); [done|apply steady_get|apply growing_ticket|done|].
    clear w Hg Hw. intros now w Hg Hw. destruct (before _ _); [apply Hret|].
    eapply safe_seq; [done|by apply safe_claim|]. intros [|] w' _ _; [|apply Hret]. cbn [negb].
    destruct (signBatch _ _ _); apply Hret.
Qed.

(** ** The server *)

Lemma safe_steady_handler t p w : steady p -> isafe t p (fun (_ : response) _ => True) w.
Proof using. intros Hp. by apply steady_safe; [|apply growing_true|]. Qed.

Lemma safe_serve t e r w : Good w -> isafe t (handle e r) (fun _ _ => True) w.
Proof using rand_inj.
  intros Hg. destruct e; cbn [serve].
  - apply safe_steady_handler, steady_create_offer.
  - apply safe_steady_handler, steady_offer.
  - by apply safe_token.
  - by apply safe_credential.
  - by apply safe_deferred.
  - apply safe_steady_handler, steady_nonce.
  - apply safe_steady_handler, steady_push.
  - apply safe_steady_handler, steady_authorize.
  - apply safe_steady_handler, steady_authorize_submit.
  - apply safe_steady_handler, steady_challenge.
Qed.

Abbreviation Reachable := (reachable base mode anchors rand_text statusListURI offeredConfigurationIDs signGranted verifyPresentation interactivePresentationRequest
  url_parses decode_credential_request decode_transaction_id decode_details).

Lemma good_new now hd : hd = ∅ -> Good (mkGhost (New now) hd).
Proof using.
  intros ->. pose proof maxEntries_pos. split; [|split; [|split; [|split; [|split]]]]; cbn.
  - split; [|split; [|split; [|split; [|split; [|split; [|split]]]]]]; cbn; rewrite map_size_empty; lia.
  - intros tok s. by rewrite lookup_empty.
  - split; [by intros i ref c ?%not_elem_of_nil|]. intros ref t. by rewrite lookup_empty.
  - constructor.
  - split; [by intros i k ?%not_elem_of_nil|]. intros k o. by rewrite lookup_empty.
  - split; [constructor|split; [by intros tx tk ?%not_elem_of_nil|split; [|split; [constructor|by intros tx tok ?%not_elem_of_nil]]]].
    intros tx tk. by rewrite lookup_empty.
Qed.

Lemma reachable_good d P : Reachable d P -> exists hd, Good (mkGhost d hd).
Proof using rand_inj.
  intros [now Hsteps].
  set (ok := pool_ok (fun _ : D => True) real Good respects (fun _ _ => True) (fun _ (_ : response) _ => True)).
  assert (Hend : ok (d, P)).
  { eapply pool_ok_steps; [| | |exact Hsteps|].
    - intros t. apply stable_true.
    - done.
    - intros t p w [e r|now'] Hg _; [by apply safe_serve|]. apply safe_steady_handler, steady_pass_time.
    - exists (mkGhost (New now) ∅). split; [done|split; [by apply good_new|]].
      intros t. unfold thread_ok. cbn [snd]. by rewrite lookup_empty. }
  destruct Hend as ([d' hd] & E & Hg & _). simpl in E. subst d'. by exists hd.
Qed.
End facts.
