(* ===== verification/IssuerProps.v ===== *)
(** * IssuerProps: the properties of the demo issuer and their examples

    The theorems about every reachable state, an issuer over toy keys on which
    they are applied, and an execution in which one Authorization Challenge
    session yields two codes. *)

From stdpp Require Import base list strings gmap relations.
From Stdlib Require Import ZArith Lia Ascii.
From S2P Require Import Prelude GoStrings GoValue Numbers Format Validity SDJWT GoMap StorageFacts.
From S2P Require Import Conc Rooms IssuerAuth Issuer IssuerState IssuerSteps IssuerFacts.

Section properties.
Context {jose : Jose} {json : Json} {hash : Hash} {map_order : MapOrder}.
Context (base : string) (mode : ClientAuthMode) (anchors : list Cert) (rand_text : nat -> string).
Context (rand_inj : forall n m, rand_text n = rand_text m -> n = m).
Context (statusListURI : string) (offeredConfigurationIDs : list string).
Context (signGranted : ECKey -> ticketGrant -> result why string).
Context (verifyPresentation : requestState -> value -> result why object) (interactivePresentationRequest : requestState -> result why object).
Context (url_parses : string -> bool).
Context (decode_credential_request : string -> result why credentialRequest).
Context (decode_transaction_id : string -> result why string).
Context (decode_details : string -> result why (list (string * string))).

Abbreviation Reachable := (reachable base mode anchors rand_text statusListURI offeredConfigurationIDs signGranted verifyPresentation interactivePresentationRequest
  url_parses decode_credential_request decode_transaction_id decode_details).

(** C28: whatever requests the clients of the demo issuer send and however they
    interleave, every access token it has issued for an authorization code was
    earned: the client authenticated as the client of the authorization
    request, sent its redirect URI, proved the PKCE verifier and, if the code
    is bound to a DPoP key, that key; the token grants the settings of the
    request and nothing else. *)
Theorem access_tokens_are_earned d P i ref c :
  Reachable d P -> i ∈ issued d -> i_origin i = FromCode ref c ->
  exists a, heap d !! ref = Some a /\ codeUsed a = true /\ earned base mode anchors (a_grant a) i.
Proof using rand_inj.
  intros Hr Hi Ho. destruct (reachable_good _ _ _ _ rand_inj _ _ _ _ _ _ _ _ _ _ _ Hr) as (hd & _ & _ & [Hc _] & _).
  by destruct (Hc i ref c Hi Ho) as [_ ?].
Qed.

(** C29: a grant is spent once: under any interleaving no two access tokens go
    back to the same authorization request, however many codes the sign-in
    gave out for it, or to the same pre-authorized offer. *)
Theorem grants_are_spent_once d P : Reachable d P -> NoDup (spent ∘ i_origin <$> issued d).
Proof using rand_inj.
  intros Hr. by destruct (reachable_good _ _ _ _ rand_inj _ _ _ _ _ _ _ _ _ _ _ Hr) as (hd & _ & _ & _ & Hn & _).
Qed.

(** a deferred batch is collected at most once, under any interleaving of
    polls, and only with the access token that started the issuance, which the
    issuer gave out and which covers the requested configuration. *)
Theorem deferred_batches_collected_once d P :
  Reachable d P -> NoDup (collected d).*1 /\
  forall txID token, (txID, token) ∈ collected d ->
    exists tk i, (txID, tk) ∈ deferrals d /\ d_token tk = token /\
      i ∈ issued d /\ i_token i = token /\ i_state i = g_token (d_granted tk) /\
      g_config (d_granted tk) ∈ configIDs (t_settings (i_state i)).
Proof using rand_inj.
  intros Hr. destruct (reachable_good _ _ _ _ rand_inj _ _ _ _ _ _ _ _ _ _ _ Hr) as (hd & Hg).
  destruct Hg as (_ & _ & _ & _ & _ & (_ & Hdefs & _ & Hn & Hc)). split; [exact Hn|].
  intros txID token Hin. destruct (Hc _ _ Hin) as (tk & Htk & Et). destruct (Hdefs _ _ Htk) as (_ & Hcfg & i & Hi & Ei & Es).
  exists tk, i. rewrite Es. split_and!; [done|done|done|congruence|done|done].
Qed.

(** C30: anonymous clients cannot grow the issuer's memory: each of its eight
    state maps holds at most [maxEntries] = 500 entries, whatever requests
    arrive. *)
Theorem state_maps_are_bounded d P :
  Reachable d P ->
  maxEntries = 500%nat /\
  (size (offers d) <= maxEntries /\ size (tokens d) <= maxEntries /\ size (requests d) <= maxEntries /\
   size (authRequests d) <= maxEntries /\ size (codes d) <= maxEntries /\ size (interactive d) <= maxEntries /\
   size (nonces d) <= maxEntries /\ size (deferred d) <= maxEntries)%nat.
Proof using rand_inj.
  intros Hr. destruct (reachable_good _ _ _ _ rand_inj _ _ _ _ _ _ _ _ _ _ _ Hr) as (hd & Hg). split; [reflexivity|exact (proj1 Hg)].
Qed.

(** ** Building executions *)

Abbreviation handle e r := (serve base mode anchors rand_text statusListURI offeredConfigurationIDs signGranted verifyPresentation interactivePresentationRequest
  url_parses decode_credential_request decode_transaction_id decode_details e r).

Abbreviation Served := (served base mode anchors rand_text statusListURI offeredConfigurationIDs signGranted verifyPresentation interactivePresentationRequest
  url_parses decode_credential_request decode_transaction_id decode_details).

(** Requests served one after the other. *)
Lemma reachable_all l now : Forall (fun tp => Served tp.2) l -> exists P, Reachable (serve_all l (New now)) P.
Proof using.
  intros Hl. destruct (serve_all_steps (fun _ p => Served p) l (New now) ∅ Hl) as [P HP]; [intros t q; by rewrite lookup_empty|].
  by exists P, now.
Qed.
End properties.

(** ** An issuer over toy keys *)

Module IssuerToy.

#[export] Instance toy_jose : Jose := {
  ECKey := string; Cert := string;
  unmarshal_jwk _ := Some (JoseEC "key");
  ec_coords k := Some (k, k);
  jws_valid _ _ := true;
  parse_certificate s := Some s;
  cert_ec_key _ := Some "key";
  common_name s := s;
  verifies _ _ _ := true }.

#[export] Instance toy_hash : Hash := { sha256 s := s; sha384 s := s; sha512 s := s }.

#[export] Instance toy_order : MapOrder := { order A m := map_to_list m; order_perm A m := reflexivity (map_to_list m) }.

Definition base : string := "https://demo".
Definition random (n : nat) : string := "r" +:+ itoa (Z.of_nat n).

Lemma random_inj n m : random n = random m -> n = m.
Proof.
  unfold random. intros E. injection E as E. apply itoa_inj in E; lia.
Qed.

Definition start : time := unix 1000000.

(** The documents of the example: a proof's header and payload, and any other
    object. *)
#[local] Instance toy_json : Json := {
  unmarshal_object s :=
    if (s =? "h")%string then Some [("typ", VString "openid4vci-proof+jwt"); ("alg", VString "ES256"); ("jwk", VObj [])]
    else if (s =? "p")%string
    then Some [("aud", VString "https://demo/issuer"); ("iat", VFloat (float64_of_Z 1000000)); ("nonce", VString (random 3))]
    else Some [("vp_token", VString "presentation")];
  unmarshal_array _ := None }.

Definition signature64 : string := String.concat "" (repeat "xxxxxxxx" 8).
Definition proof_jwt : string := EncodeBase64URL "h" +:+ "." +:+ EncodeBase64URL "p" +:+ "." +:+ EncodeBase64URL signature64.

Abbreviation toy e r := (serve base ClientAuthOptional [] random "" ["demo-ticket"] (fun key _ => Ok key)
  (fun _ _ => Ok [("given_name", VString "Alice")]) (fun _ => Ok []) (fun _ => true)
  (fun _ => Ok (mkCredentialRequest "demo-ticket" "" [proof_jwt])) (fun s => Ok s) (fun _ => Err (Text "")) e r).

Abbreviation toy_reachable := (reachable base ClientAuthOptional [] random "" ["demo-ticket"] (fun key _ => Ok key)
  (fun _ _ => Ok [("given_name", VString "Alice")]) (fun _ => Ok []) (fun _ => true)
  (fun _ => Ok (mkCredentialRequest "demo-ticket" "" [proof_jwt])) (fun s => Ok s) (fun _ => Err (Text ""))).

Definition params (l : list (string * string)) : gmap string (list string) := list_to_map ((fun kv => (kv.1, [kv.2])) <$> l).
Definition form (l : list (string * string)) : http_request := mkHttp "POST" ∅ (params l) ∅ false "".
Definition asking (l : list (string * string)) : http_request := mkHttp "POST" ∅ ∅ (params l) false "".
Definition with_token (token body : string) : http_request := mkHttp "POST" (params [("Authorization", "Bearer " +:+ token)]) ∅ ∅ false body.

(** A pushed request, a sign-in and the exchange of the code. *)
Definition pushed : http_request := form
  [("client_id", "wallet"); ("response_type", "code"); ("code_challenge_method", "S256");
   ("code_challenge", EncodeBase64URL "verifier"); ("redirect_uri", "https://wallet/cb")].
Definition signed_in : http_request := form
  [("request_uri", requestURIPrefix +:+ random 0); ("username", "alice"); ("password", "alice")].
Definition exchanged (code : string) : http_request := form
  [("grant_type", "authorization_code"); ("code", code); ("client_id", "wallet"); ("redirect_uri", "https://wallet/cb"); ("code_verifier", "verifier")].

(** The user signs in twice, and the wallet exchanges both codes. *)
Definition code_flow : list (string * prog (demo ECKey) response) :=
  [("wallet", toy PAR pushed); ("user", toy AuthorizeForm signed_in); ("user", toy AuthorizeForm signed_in);
   ("wallet", toy TokenEndpoint (exchanged (random 1))); ("wallet", toy TokenEndpoint (exchanged (random 2)))].

Definition after_code_flow : demo ECKey := serve_all code_flow (New start).

(** A pre-authorized deferred offer, collected ten seconds later. *)
Definition deferred_flow : list (string * prog (demo ECKey) response) :=
  [("page", toy CreateOffer (asking [("deferred", "true")]));
   ("wallet", toy TokenEndpoint (form [("grant_type", preAuthGrant); ("pre-authorized_code", random 1)]));
   ("wallet", toy NonceEndpoint (form []));
   ("wallet", toy CredentialEndpoint (with_token (random 2) ""));
   ("clock", pass_time (unix 1000010));
   ("wallet", toy DeferredEndpoint (with_token (random 2) (random 4)));
   ("wallet", toy DeferredEndpoint (with_token (random 2) (random 4)))].

Definition after_deferred_flow : demo ECKey := serve_all deferred_flow (New start).

Ltac all_served := repeat (apply Forall_cons; split; [constructor|]); apply Forall_nil; exact I.

Lemma code_flow_reachable : exists P, toy_reachable after_code_flow P.
Proof. destruct (reachable_all base ClientAuthOptional [] random "" ["demo-ticket"] _ _ _ _ _ _ _ code_flow start ltac:(all_served)) as [P HP]. by exists P. Qed.

Lemma deferred_flow_reachable : exists P, toy_reachable after_deferred_flow P.
Proof. destruct (reachable_all base ClientAuthOptional [] random "" ["demo-ticket"] _ _ _ _ _ _ _ deferred_flow start ltac:(all_served)) as [P HP]. by exists P. Qed.

Definition no_token : tokenState := mkToken (mkSettings [] false false 0 "") [] "" None zero_time.
Definition code_issuance : issuance := default (mkIssuance "" no_token (FromOffer "") (form [])) (head (issued after_code_flow)).

Lemma access_tokens_are_earned_witness :
  i_origin code_issuance = FromCode 0 (random 1) /\
  exists a, heap after_code_flow !! 0%nat = Some a /\ codeUsed a = true /\ earned base ClientAuthOptional [] (a_grant a) code_issuance.
Proof.
  destruct code_flow_reachable as [P HP]. split; [by vm_compute|].
  apply (access_tokens_are_earned base ClientAuthOptional [] random random_inj "" ["demo-ticket"] _ _ _ _ _ _ _ after_code_flow P code_issuance 0 (random 1) HP);
    [vm_compute; by left|by vm_compute].
Defined.

Lemma grants_are_spent_once_witness :
  i_origin <$> issued after_code_flow = [FromCode 0 (random 1)] /\ NoDup (spent ∘ i_origin <$> issued after_code_flow).
Proof.
  destruct code_flow_reachable as [P HP]. split; [by vm_compute|].
  exact (grants_are_spent_once base ClientAuthOptional [] random random_inj "" ["demo-ticket"] _ _ _ _ _ _ _ after_code_flow P HP).
Defined.

Lemma deferred_batches_collected_once_witness :
  collected after_deferred_flow = [(random 4, random 2)] /\ NoDup (collected after_deferred_flow).*1.
Proof.
  destruct deferred_flow_reachable as [P HP]. split; [by vm_compute|].
  exact (proj1 (deferred_batches_collected_once base ClientAuthOptional [] random random_inj "" ["demo-ticket"] _ _ _ _ _ _ _ after_deferred_flow P HP)).
Defined.

Lemma state_maps_are_bounded_witness : size (tokens after_code_flow) = 1%nat /\ (size (tokens after_code_flow) <= maxEntries)%nat.
Proof.
  destruct code_flow_reachable as [P HP]. split; [by vm_compute|].
  exact (proj1 (proj2 (proj2 (state_maps_are_bounded base ClientAuthOptional [] random random_inj "" ["demo-ticket"] _ _ _ _ _ _ _ after_code_flow P HP)))).
Defined.

(** *** One presentation, two codes

    An Intermediate Request looks its session up, verifies the presentation
    without the lock and deletes the session only with the code.  Two requests
    that overlap therefore both get a code, and the codes do not share an
    authorization request: each gives an access token. *)

Definition presentation_offer : http_request := asking [("grant", "authorization_code"); ("authorization", "presentation")].
Definition challenged : http_request := form
  [("client_id", "wallet"); ("response_type", "code"); ("code_challenge_method", "S256");
   ("code_challenge", EncodeBase64URL "verifier"); ("issuer_state", random 1); ("interaction_types_supported", interactionTypePresentation)].
Definition presenting : http_request := form [("client_id", "wallet"); ("auth_session", random 4); ("openid4vp_response", "{}")].
Definition challenge_exchange (code : string) : http_request := form
  [("grant_type", "authorization_code"); ("code", code); ("client_id", "wallet"); ("code_verifier", "verifier")].

Definition challenge_started : demo ECKey :=
  serve_all [("page", toy CreateOffer presentation_offer); ("wallet", toy AuthorizationChallenge challenged)] (New start).

Definition both_presented : demo ECKey :=
  (run_schedule (concat (repeat ["a"; "b"] 8)) challenge_started
    (<["a" := toy AuthorizationChallenge presenting]> (<["b" := toy AuthorizationChallenge presenting]> ∅))).1.

Definition both_exchanged : demo ECKey :=
  serve_all [("a", toy TokenEndpoint (challenge_exchange (random 5))); ("b", toy TokenEndpoint (challenge_exchange (random 6)))] both_presented.

Lemma one_session_two_tokens :
  size (interactive challenge_started) = 1%nat /\ size (interactive both_exchanged) = 0%nat /\
  i_origin <$> issued both_exchanged = [FromCode 0 (random 5); FromCode 1 (random 6)].
Proof. by vm_compute. Qed.
End IssuerToy.
