(* ===== verification/IssuerAuthFacts.v ===== *)
(** * IssuerAuthFacts: soundness of the demo issuer's checks

    What an accepted client attestation and an accepted key proof establish,
    which entries a full state map gives up, and how many credentials one
    request gets. *)

From stdpp Require Import base list strings gmap.
From Stdlib Require Import ZArith Lia Ascii.
From S2P Require Import Prelude GoStrings GoValue Numbers Format Validity SDJWT GoMap Conc Rooms IssuerAuth Issuer IssuerState IssuerProps.

Local Open Scope Z_scope.

(** ** Inversions *)

Section auth.
Context {jose : Jose} {json : Json} {hash : Hash}.
Context (base : string) (mode : ClientAuthMode) (anchors : list Cert).

(** A JWT by [key]: three parts, a 64-byte signature that verifies. *)
Definition signed_by (key : ECKey) (raw : string) (jwt : compactJWT) : Prop :=
  parseCompactJWT raw = Ok jwt /\ String.length (c_signature jwt) = 64%nat /\
  jws_valid (c_signingInput jwt +:+ "." +:+ EncodeBase64URL (c_signature jwt)) key = true.

Lemma signed_by_intro key raw jwt :
  parseCompactJWT raw = Ok jwt -> verifyES256 key (c_signingInput jwt) (c_signature jwt) = true -> signed_by key raw jwt.
Proof using. intros Hp [Hl%Nat.eqb_eq Hv]%andb_true_iff. by split. Qed.

(** The age of a proof is in its window. *)
Definition fresh_at (now : time) (payload : object) (maxAge skew : Z) : Prop :=
  exists iat, numeric_date payload "iat" = Some iat /\ - skew <= since now iat <= maxAge.

Lemma age_accepted now iat maxAge skew : age_refused now iat maxAge skew = false -> - skew <= since now iat <= maxAge.
Proof using. unfold age_refused. intros [Ha Hb]%orb_false_iff. lia. Qed.

Definition unexpired (now : time) (payload : object) : Prop :=
  exists exp, numeric_date payload "exp" = Some exp /\ after now exp = false.

(** A dedicated proof of possession by [key], made for this issuer. *)
Definition pop_proves (now : time) (key : ECKey) (raw : string) : Prop :=
  exists pop, signed_by key raw pop /\ get_string (c_payload pop) "aud" = issuerID base /\
    fresh_at now (c_payload pop) dpopProofMaxAge clockSkew.

Lemma check_pop_sound now raw clientID key : check_pop base now raw clientID key = Ok () -> pop_proves now key raw.
Proof using.
  unfold check_pop. destruct (parseCompactJWT raw) as [pop|] eqn:Ep; [|done]. cbv zeta.
  destruct (negb (_ =? "oauth-client-attestation-pop+jwt")%string); [done|]. destruct (negb (_ =? "ES256")%string); [done|].
  destruct (verifyES256 _ _ _) eqn:Ev; [|done]. cbn [negb].
  destruct (String.eqb_spec (get_string (c_payload pop) "aud") (issuerID base)) as [Ea|]; [|done]. cbn [negb].
  destruct (_ =? "")%string; [done|]. intros Hrest.
  assert (Hf : checkPoPFreshness now (c_payload pop) = Ok ()).
  { destruct (checkPoPFreshness now (c_payload pop)) as [[]|]; [done|]. revert Hrest. by repeat case_match. }
  exists pop. split; [by apply signed_by_intro|split; [done|]]. revert Hf. unfold checkPoPFreshness.
  destruct (numeric_date _ "iat") as [iat|] eqn:Ei; [|done]. destruct (age_refused _ _ _ _) eqn:Er; [done|]. intros _.
  exists iat. split; [done|by apply age_accepted].
Qed.

(** What an accepted attestation establishes about the client [c]. *)
Definition attested (now : time) (r : http_request) (clientID jkt : string) (c : clientAuthentication) : Prop :=
  exists attestation leaf attesterKey cnf clientKey,
    signed_by attesterKey (trim_space (Header r "OAuth-Client-Attestation")) attestation /\
    cert_ec_key leaf = Some attesterKey /\
    ca_clientID c = get_string (c_payload attestation) "sub" /\ ca_clientID c <> "" /\ (clientID = "" \/ clientID = ca_clientID c) /\
    unexpired now (c_payload attestation) /\
    as_obj (index (get_obj (c_payload attestation) "cnf") "jwk") = Some cnf /\ GoValue.get "d" cnf = None /\ holderKeyFromJWK cnf = Ok clientKey /\
    (pop_proves now clientKey (trim_space (Header r "OAuth-Client-Attestation-PoP")) \/
     jkt <> "" /\ jkt = KeyIDForPublicKey clientKey).

Lemma attestationSigner_key header s :
  attestationSigner_of anchors header = Ok s -> cert_ec_key (as_leaf s) = Some (as_key s).
Proof using.
  unfold attestationSigner_of. destruct (get_arr header "x5c") as [|v l]; [done|].
  destruct (x5c_certificates (v :: l)) as [certs|]; [|done]. cbn.
  destruct certs as [|leaf rest]; [done|]. destruct (cert_ec_key leaf) as [key|] eqn:E; [|done]. by intros [= <-].
Qed.

Lemma attested_client_inv now attestation clientID sub key :
  attested_client now attestation clientID = Ok (sub, key) ->
  sub = get_string (c_payload attestation) "sub" /\ sub <> "" /\ (clientID = "" \/ clientID = sub) /\
  unexpired now (c_payload attestation) /\
  exists cnf, as_obj (index (get_obj (c_payload attestation) "cnf") "jwk") = Some cnf /\ GoValue.get "d" cnf = None /\ holderKeyFromJWK cnf = Ok key.
Proof using.
  unfold attested_client. cbv zeta. set (s := get_string _ "sub").
  destruct (String.eqb_spec s "") as [|Hne]; [done|]. destruct (_ && _) eqn:Ec; [done|].
  destruct (checkJWTValidity _ _) as [[]|] eqn:Ev; [|done].
  destruct (as_obj _) as [cnf|]; [|done]. destruct (bool_decide _) eqn:Ed; [done|]. apply bool_decide_eq_false, eq_None_not_Some in Ed.
  destruct (holderKeyFromJWK cnf) as [k|] eqn:Ek; [|done]. intros [= <- <-].
  split; [done|split; [done|split; [|split]]].
  - destruct (String.eqb_spec clientID "") as [->|]; [by left|]. destruct (String.eqb_spec s clientID) as [->|]; [by right|done].
  - revert Ev. unfold checkJWTValidity. destruct (numeric_date _ "exp") as [exp|] eqn:Ee; [|done].
    destruct (after now exp) eqn:Ea; [done|]. intros _. by exists exp.
  - by exists cnf.
Qed.

Lemma check_possession_inv now rawPoP clientID jkt key method :
  check_possession base now rawPoP clientID jkt key = Ok method ->
  pop_proves now key rawPoP \/ jkt <> "" /\ jkt = KeyIDForPublicKey key.
Proof using.
  unfold check_possession. destruct (_ =? "")%string.
  - destruct (String.eqb_spec jkt "") as [|Hne]; [done|]. destruct (String.eqb_spec jkt (KeyIDForPublicKey key)) as [Ej|]; [|done].
    intros _. by right.
  - destruct (check_pop _ _ _ _ _) as [[]|] eqn:E; [|done]. intros _. left. by eapply check_pop_sound.
Qed.

(** the demo authorization server accepts a client without attestation
    only when it is configured to; otherwise the attestation verifies with the
    key of its own certificate, names the client, is unexpired, and the
    possession of the public key it confirms is proved by a fresh proof made
    for this server or by the DPoP key of the request. *)
Theorem client_authentication_sound now r clientID jkt c :
  authenticateClient base mode anchors now r clientID jkt = Ok c ->
  (mode = ClientAuthOptional /\ trim_space (Header r "OAuth-Client-Attestation") = "" /\ ca_method c = unauthenticatedClientAuth /\ ca_clientID c = "")
  \/ attested now r clientID jkt c.
Proof using.
  unfold authenticateClient. destruct (1 <? _)%nat; [done|]. destruct (1 <? _)%nat; [done|]. cbv zeta.
  destruct (String.eqb_spec (trim_space (Header r "OAuth-Client-Attestation")) "") as [Ea|Ea].
  - destruct (negb _); [done|]. destruct mode; [done|]. intros [= <-]. left. done.
  - unfold check_attestation. destruct (parseCompactJWT _) as [attestation|] eqn:Ep; [|done]. cbv zeta.
    destruct (negb _); [done|]. destruct (negb _); [done|]. destruct (attestationSigner_of _ _) as [attester|] eqn:Es; [|done].
    destruct (verifyES256 _ _ _) eqn:Ev; [|done]. cbn [negb].
    destruct (attested_client _ _ _) as [[sub key]|] eqn:Ec; [|done]. cbn.
    destruct (check_possession _ _ _ _ _ _) as [method|] eqn:Eo; [|done]. cbn. intros [= <-]. right.
    apply attested_client_inv in Ec as (E1 & E2 & E3 & E4 & cnf & E5 & E6 & E7). apply check_possession_inv in Eo.
    exists attestation, (as_leaf attester), (as_key attester), cnf, key. cbn.
    split; [by apply signed_by_intro|split; [by eapply attestationSigner_key|]].
    split; [done|split; [done|split; [done|split; [done|split; [done|split; [done|split; [done|done]]]]]]].
Qed.

(** C31: a key proof the credential endpoint accepts is a JWT for this issuer,
    signed by the key its header names, created within five minutes of now,
    whose nonce the issuer has handed out and not yet let expire. *)
Theorem key_proof_sound raw d key :
  (run (verifyProofJWT base raw) d).2 = Ok key ->
  exists proof expires,
    signed_by key raw proof /\ proofKeyMaterial (c_header proof) = Ok key /\
    get_string (c_payload proof) "aud" = issuerID base /\
    fresh_at (clock d) (c_payload proof) proofClockSkew proofClockSkew /\
    nonces d !! get_string (c_payload proof) "nonce" = Some expires /\ after (clock d) expires = false.
Proof using.
  unfold verifyProofJWT. rewrite run_bind. cbn [run Now get fst snd]. unfold proof_checks.
  destruct (parseCompactJWT raw) as [proof|] eqn:Ep; [|done]. cbv zeta.
  destruct (negb _); [done|]. destruct (negb _); [done|].
  destruct (proofKeyMaterial (c_header proof)) as [k|] eqn:Ek; [|done]. cbn [negb].
  destruct (verifyES256 _ _ _) eqn:Ev; [|done]. cbn [negb].
  destruct (String.eqb_spec (get_string (c_payload proof) "aud") (issuerID base)) as [Ea|]; [|done]. cbn [negb].
  destruct (numeric_date _ "iat") as [iat|] eqn:Ei; [|done]. destruct (age_refused _ _ _ _) eqn:Er; [done|].
  destruct (String.eqb_spec (get_string (c_payload proof) "nonce") "") as [|Hn]; [done|].
  unfold nonceIssued. destruct (String.eqb_spec (get_string (c_payload proof) "nonce") "") as [|_]; [done|].
  rewrite run_bind. cbn [run atomic fst snd]. unfold check_nonce.
  destruct (nonces d !! _) as [expires|] eqn:En; [|done]. destruct (after _ expires) eqn:Ex; [done|]. cbn. intros [= <-].
  exists proof, expires. split; [by apply signed_by_intro|split; [done|split; [done|split; [|done]]]].
  exists iat. split; [done|by apply age_accepted].
Qed.
End auth.

(** ** Eviction *)

Section eviction.
Context {map_order : MapOrder} {V : Type} (expires : V -> time).

Lemma before_irrefl t : before t t = false.
Proof using. unfold before, after. rewrite Z.ltb_irrefl. rewrite Z.eqb_refl, Z.ltb_irrefl. done. Qed.

(** The entry found so far expires no later than any seen. *)
Lemma soonest_from_min l best :
  Forall (fun kv : string * V => kv.1 <> "") l -> best.1 <> "" ->
  before best.2 (foldl (soonest_step expires) best l).2 = false /\
  forall kv, kv ∈ l -> before (expires kv.2) (foldl (soonest_step expires) best l).2 = false.
Proof using.
  revert best. induction l as [|[k v] l IH]; intros best Hne Hb; cbn [foldl].
  - split; [apply before_irrefl|]. by intros kv ?%not_elem_of_nil.
  - apply Forall_cons in Hne as [Hk Hne]. cbn in Hk.
    set (next := soonest_step expires best (k, v)).
    assert (Hnext : next.1 <> "" /\ before best.2 next.2 = false /\ before (expires v) next.2 = false).
    { unfold next, soonest_step. cbn. destruct (String.eqb_spec best.1 "") as [|_]; [done|]. cbn [orb].
      destruct (before (expires v) best.2) eqn:E; cbn; (split; [done|split; [|]]); try apply before_irrefl; [|done].
      by apply after_asym. }
    destruct Hnext as (Hn & Hbn & Hvn). destruct (IH next Hne Hn) as [Hmin Hall]. split.
    + by eapply after_neg_trans.
    + intros kv [->|Hin]%elem_of_cons; [by eapply after_neg_trans|by apply Hall].
Qed.

Lemma soonest_min (m : gmap string V) k v :
  m !! "" = None -> m !! k = Some v ->
  exists v0, m !! (soonest expires (order m)).1 = Some v0 /\
    forall k' v', m !! k' = Some v' -> before (expires v') (expires v0) = false.
Proof using.
  intros He Hk. assert (Hne : Forall (fun kv : string * V => kv.1 <> "") (order m)).
  { apply Forall_forall. intros [k0 v0] Hin%entries_of E. cbn in E. congruence. }
  destruct (soonest_in expires m) as [v0 Hv0]; [intros ->; by rewrite lookup_empty in Hk|]. exists v0. split; [done|].
  assert (Hsnd : expires v0 = (soonest expires (order m)).2 /\ forall kv, kv ∈ order m -> before (expires kv.2) (soonest expires (order m)).2 = false).
  2: { destruct Hsnd as [-> Hall]. intros k' v' Hk'. apply (Hall (k', v')). by apply entries_of. }
  assert (Hpair : exists v1, (soonest expires (order m)).2 = expires v1 /\ ((soonest expires (order m)).1, v1) ∈ order m).
  { destruct (order m) as [|kv l] eqn:E; [apply entries_of in Hk; rewrite E in Hk; by apply not_elem_of_nil in Hk|].
    unfold soonest. cbn [foldl]. replace (soonest_step expires ("", zero_time) kv) with (kv.1, expires kv.2) by done.
    clear. assert (Hgen : forall best v1, best = (best.1, expires v1) -> forall pre, (best.1, v1) ∈ pre -> exists v2,
      (foldl (soonest_step expires) best l).2 = expires v2 /\ ((foldl (soonest_step expires) best l).1, v2) ∈ pre ++ l).
    { induction l as [|[k v] l IH]; intros best v1 Eb pre Hin; cbn [foldl].
      - exists v1. rewrite app_nil_r. split; [by rewrite Eb|done].
      - replace (pre ++ (k, v) :: l) with ((pre ++ [(k, v)]) ++ l) by by rewrite <- app_assoc.
        unfold soonest_step at 2 4. cbn. destruct (_ || _).
        + apply (IH (k, expires v) v); [done|]. apply elem_of_app. right. by left.
        + apply (IH best v1); [done|]. apply elem_of_app. by left. }
    destruct kv as [k1 v1]. apply (Hgen (k1, expires v1) v1 eq_refl [(k1, v1)]). by left. }
  destruct Hpair as (v1 & E & Hin%entries_of). rewrite Hv0 in Hin. injection Hin as <-. split; [done|].
  destruct (order m) as [|kv l] eqn:Eo; [apply entries_of in Hk; rewrite Eo in Hk; by apply not_elem_of_nil in Hk|].
  unfold soonest in *. cbn [foldl] in *. replace (soonest_step expires ("", zero_time) kv) with (kv.1, expires kv.2) in * by done.
  apply Forall_cons in Hne as [Hkv Hne]. destruct (soonest_from_min l (kv.1, expires kv.2) Hne Hkv) as [Hmin Hall].
  by intros kv' [->|Hin]%elem_of_cons; [|apply Hall].
Qed.

Lemma evicted_before_kept fuel (m : gmap string V) k v k' v' :
  m !! "" = None -> m !! k = Some v -> makeRoom_loop expires fuel m !! k = None ->
  makeRoom_loop expires fuel m !! k' = Some v' -> before (expires v') (expires v) = false.
Proof using.
  revert m. induction fuel as [|fuel IH]; intros m He Hk; cbn [makeRoom_loop]; [congruence|].
  destruct (maxEntries <=? size m)%nat; [|congruence]. intros Hout Hkept.
  destruct (soonest_min m k v He Hk) as (v0 & Hv0 & Hmin).
  assert (Hin : m !! k' = Some v').
  { eapply lookup_weaken; [exact Hkept|]. etrans; [apply makeRoom_loop_sub|apply delete_subseteq]. }
  destruct (decide ((soonest expires (order m)).1 = k)) as [E|Hne].
  - rewrite E in Hv0. simplify_eq. by eapply Hmin.
  - apply (IH (delete (soonest expires (order m)).1 m)); [|by rewrite lookup_delete_ne|done|done].
    destruct (decide ((soonest expires (order m)).1 = "")) as [->|]; [by rewrite lookup_delete_eq|by rewrite lookup_delete_ne].
Qed.
End eviction.

(** A state map below its bound is left alone; a full one gives up only
    entries that expire no later than every entry it keeps, in whatever order
    the map is visited, and then has room. *)
Theorem eviction_takes_the_soonest `{MapOrder} {V : Type} (expires : V -> time) (m : gmap string V) :
  m !! "" = None ->
  (size (makeRoom expires m) < 500)%nat /\ ((size m < 500)%nat -> makeRoom expires m = m) /\
  forall k v k' v', m !! k = Some v -> makeRoom expires m !! k = None -> makeRoom expires m !! k' = Some v' ->
    before (expires v') (expires v) = false.
Proof.
  intros He. split; [apply makeRoom_size|split].
  - intros Hs. unfold makeRoom. destruct (size m) as [|n] eqn:E; [done|]. cbn [makeRoom_loop]. rewrite E.
    destruct (Nat.leb_spec maxEntries (S n)) as [Hle|]; [|done]. exfalso. apply (Nat.lt_irrefl (S n)). eapply Nat.lt_le_trans; [exact Hs|exact Hle].
  - intros k v k' v' Hk Hout Hkept. by eapply evicted_before_kept.
Qed.

(** ** Batches *)

Lemma parseBatchSize_range v : parseBatchSize v = 0 \/ 2 <= parseBatchSize v <= demoBatchSize.
Proof.
  unfold parseBatchSize, demoBatchSize, demoDefaultBatchSize. cbv zeta. destruct (_ =? "true")%string; [lia|].
  destruct (atoi _) as [n|]; [|by left]. destruct (Z.ltb_spec n 2); [by left|]. destruct (Z.ltb_spec 8 n); lia.
Qed.

Lemma sign_all_spec {jose : Jose} sign keys granted creds :
  sign_all sign keys granted = Ok creds -> Forall2 (fun key cred => sign key granted = Ok cred) keys creds.
Proof.
  revert creds. induction keys as [|key keys IH]; intros creds; cbn [sign_all]; [intros [= <-]; constructor|].
  destruct (sign key granted) as [cred|] eqn:E; [|done]. cbn. destruct (sign_all sign keys granted) as [rest|] eqn:Er; [|done].
  cbn. intros [= <-]. constructor; [done|]. by apply IH.
Qed.

(** A request gets one credential per proof key, in order, for at most as
    many keys as the offer asked for, a single one when it asked for none, and
    never more than eight. *)
Theorem batches_are_bounded {jose : Jose} sign keys granted creds v :
  batchSize (t_settings (g_token granted)) = parseBatchSize v -> signBatch sign keys granted = Ok creds ->
  Z.of_nat (length creds) = Z.min (Z.max 1 (parseBatchSize v)) (Z.of_nat (length keys)) /\ (length creds <= 8)%nat /\
  Forall2 (fun key cred => sign key granted = Ok cred) (take (length creds) keys) creds.
Proof.
  unfold signBatch. intros ->. destruct (parseBatchSize_range v) as [Ev|Hv]; unfold demoBatchSize in *.
  - rewrite Ev. cbn [Z.ltb]. change (0 <? 1) with true. cbv iota.
    destruct (Z.ltb_spec 1 (Z.of_nat (length keys))) as [Hlt|Hle]; intros Hs%sign_all_spec; pose proof (Forall2_length _ _ _ Hs) as El.
    + rewrite length_take in El. rewrite <- El. replace (Z.to_nat 1 `min` length keys)%nat with 1%nat by lia. split_and!; [lia|lia|exact Hs].
    + rewrite <- El. rewrite take_ge by done. split_and!; [lia|lia|exact Hs].
  - destruct (Z.ltb_spec (parseBatchSize v) 1); [lia|].
    destruct (Z.ltb_spec (parseBatchSize v) (Z.of_nat (length keys))) as [Hlt|Hle]; intros Hs%sign_all_spec; pose proof (Forall2_length _ _ _ Hs) as El.
    + rewrite length_take in El. rewrite Nat.min_l in El by lia. rewrite <- El. split_and!; [lia|lia|exact Hs].
    + rewrite <- El. rewrite take_ge by done. split_and!; [lia|lia|exact Hs].
Qed.

(** ** Examples *)

Module AuthToy.
Import IssuerToy.

(** An attestation for the client "wallet" and its proof of possession; the
    test server requires client authentication. *)
#[local] Instance auth_json : Json := {
  unmarshal_object s :=
    if (s =? "ah")%string then Some [("typ", VString "oauth-client-attestation+jwt"); ("alg", VString "ES256"); ("x5c", VArr [VString "QUJD"])]
    else if (s =? "ap")%string
    then Some [("sub", VString "wallet"); ("exp", VFloat (float64_of_Z 1000100)); ("cnf", VObj [("jwk", VObj [("kty", VString "EC")])])]
    else if (s =? "ph")%string then Some [("typ", VString "oauth-client-attestation-pop+jwt"); ("alg", VString "ES256")]
    else if (s =? "pp")%string
    then Some [("aud", VString "https://demo/issuer"); ("jti", VString "1"); ("iat", VFloat (float64_of_Z 999990))]
    else None;
  unmarshal_array _ := None }.

Definition compact (header payload : string) : string :=
  EncodeBase64URL header +:+ "." +:+ EncodeBase64URL payload +:+ "." +:+ EncodeBase64URL signature64.

Definition attested_request : http_request :=
  mkHttp "POST" (params [("OAuth-Client-Attestation", compact "ah" "ap"); ("OAuth-Client-Attestation-PoP", compact "ph" "pp")])
    (params [("client_id", "wallet")]) ∅ false "".

Definition accepted : clientAuthentication := mkClientAuth attestationClientAuth "wallet" "ABC" false.

Lemma client_authentication_sound_witness :
  authenticateClient base ClientAuthRequired [] start attested_request "wallet" "" = Ok accepted /\
  attested base start attested_request "wallet" "" accepted.
Proof.
  assert (E : authenticateClient base ClientAuthRequired [] start attested_request "wallet" "" = Ok accepted) by by vm_compute.
  split; [exact E|].
  destruct (client_authentication_sound base ClientAuthRequired [] start attested_request "wallet" "" accepted E) as [[? _]|Ha]; [done|exact Ha].
Defined.

(** A nonce of the issuer and a proof that uses it. *)
Definition nonce_given : demo ECKey :=
  with_nonces (New start) {[random 3 := unix 1000600]}.

Lemma key_proof_sound_witness :
  exists proof, signed_by (json := toy_json) "key" proof_jwt proof /\ get_string (c_payload proof) "aud" = issuerID base.
Proof.
  destruct (key_proof_sound (json := toy_json) base proof_jwt nonce_given "key" ltac:(by vm_compute)) as (proof & expires & Hs & _ & Ha & _).
  exists proof. split; [exact Hs|exact Ha].
Defined.

Definition two_copies : ticketGrant :=
  mkTicketGrant (mkToken (mkSettings ["demo-ticket"] false false 2 "") [] "" None zero_time) "demo-ticket".

Lemma batches_are_bounded_witness : (length (default [] (match signBatch (fun key _ => Ok key) ["a"; "b"; "c"] two_copies with Ok l => Some l | Err _ => None end)) <= 8)%nat.
Proof.
  exact (proj1 (proj2 (batches_are_bounded (jose := toy_jose) (fun key _ => Ok key) ["a"; "b"; "c"] two_copies ["a"; "b"] "2" eq_refl eq_refl))).
Defined.

Definition two_nonces : gmap string time := <["a" := unix 10]> {["b" := unix 20]}.

Lemma eviction_takes_the_soonest_witness : makeRoom id two_nonces = two_nonces.
Proof.
  apply (eviction_takes_the_soonest id two_nonces); [by vm_compute|]. vm_compute. repeat constructor.
Defined.
End AuthToy.
