(* ===== verification/UriQuery.v ===== *)
(** * UriQuery: the query of a request URI

    The parts of net/url that carry an authorization request: percent escapes,
    [url.Values] and [Values.Encode], and the readers of
    src/internal/oid4vc/parser.go, which take a plus sign literally.  A query
    that [EncodeURIQuery] writes reads back as it was; one that
    [Values.Encode] writes does not when a value holds a space. *)

From stdpp Require Import base list strings gmap.
From Stdlib Require Import ZArith Lia Ascii.
From S2P Require Import Prelude GoStrings StringFacts IssuerAuth.

Local Open Scope nat_scope.

(** ** Percent escapes *)

Definition hex_value (c : ascii) : option nat :=
  let n := nat_of_ascii c in
  if (48 <=? n) && (n <=? 57) then Some (n - 48)
  else if (65 <=? n) && (n <=? 70) then Some (n - 55)
  else if (97 <=? n) && (n <=? 102) then Some (n - 87)
  else None.

Definition hex_digit (n : nat) : ascii := ascii_of_nat (if n <? 10 then n + 48 else n + 55).

(** [url.PathUnescape] *)
Fixpoint PathUnescape (s : string) : option string :=
  match s with
  | "" => Some ""
  | String c s' =>
      if Ascii.eqb c "%" then
        match s' with
        | String h (String l rest) =>
            match hex_value h, hex_value l with
            | Some a, Some b => String (ascii_of_nat (16 * a + b)) <$> PathUnescape rest
            | _, _ => None
            end
        | _ => None
        end
      else String c <$> PathUnescape s'
  end.

(** A byte [url.QueryEscape] leaves alone. *)
Definition unreserved (c : ascii) : bool :=
  let n := nat_of_ascii c in
  (48 <=? n) && (n <=? 57) || (65 <=? n) && (n <=? 90) || (97 <=? n) && (n <=? 122)
  || (n =? 45) || (n =? 46) || (n =? 95) || (n =? 126).

Definition escape_byte (c : ascii) : string :=
  String "%" (String (hex_digit (nat_of_ascii c / 16)) (String (hex_digit (nat_of_ascii c mod 16)) "")).

(** [url.QueryEscape]: a space becomes a plus sign. *)
Fixpoint QueryEscape (s : string) : string :=
  match s with
  | "" => ""
  | String c s => (if unreserved c then String c "" else if Ascii.eqb c " " then "+" else escape_byte c) +:+ QueryEscape s
  end.

(** ** url.Values *)

Abbreviation values := (gmap string (list string)).

Definition Values_Add (q : values) (k v : string) : values := <[k := values_of q k ++ [v]]> q.

(** The keys in their order, each with its values. *)
Definition sorted_entries (q : values) : list (string * list string) :=
  slice_stable (fun a b => String.ltb a.1 b.1) (map_to_list q).

Definition pairs (entries : list (string * list string)) : list (string * string) :=
  entries ≫= (fun e => (fun v => (e.1, v)) <$> e.2).

Definition encode_pair (kv : string * string) : string := QueryEscape kv.1 +:+ "=" +:+ QueryEscape kv.2.

(** [Values.Encode] *)
Definition Values_Encode (q : values) : string := join "&" (encode_pair <$> pairs (sorted_entries q)).

(** [strings.ReplaceAll(s, "+", "%20")] *)
Fixpoint plus_to_percent (s : string) : string :=
  match s with
  | "" => ""
  | String c s => (if Ascii.eqb c "+" then "%20" else String c "") +:+ plus_to_percent s
  end.

Definition EncodeURIQuery (q : values) : string := plus_to_percent (Values_Encode q).

(** ** Reading a query *)

(** A component that does not unescape is taken as it stands. *)
Definition unescaped (s : string) : string := default s (PathUnescape s).

Definition add_part (q : values) (part : string) : values :=
  if (part =? "")%string then q
  else let '(key, value, _) := cut "=" part in Values_Add q (unescaped key) (unescaped value).

(** [URIQueryValues] of a URL with this raw query *)
Definition URIQueryValues (raw : string) : values := fold_left add_part (split "&" raw) ∅.

(** ** What was written reads back *)

Lemma hex_value_digit n : n < 16 -> hex_value (hex_digit n) = Some n.
Proof. intros Hn. do 16 (destruct n as [|n]; [reflexivity|]). lia. Qed.

Lemma unescape_triplet h l s :
  PathUnescape (String "%" (String h (String l s))) =
  match hex_value h, hex_value l with
  | Some a, Some b => String (ascii_of_nat (16 * a + b)) <$> PathUnescape s
  | _, _ => None
  end.
Proof. reflexivity. Qed.

Lemma unescape_byte c s : PathUnescape (escape_byte c +:+ s) = String c <$> PathUnescape s.
Proof.
  pose proof (nat_ascii_bounded c) as Hc.
  change (escape_byte c +:+ s) with (String "%" (String (hex_digit (nat_of_ascii c / 16)) (String (hex_digit (nat_of_ascii c mod 16)) s))).
  rewrite unescape_triplet.
  rewrite !hex_value_digit by (try apply Nat.mod_upper_bound; try apply Nat.Div0.div_lt_upper_bound; lia).
  rewrite <- Nat.div_mod_eq, ascii_nat_embedding. reflexivity.
Qed.

(** What [EncodeURIQuery] makes of a component. *)
Definition escaped (s : string) : string := plus_to_percent (QueryEscape s).

Lemma plus_to_percent_app a b : plus_to_percent (a +:+ b) = plus_to_percent a +:+ plus_to_percent b.
Proof. induction a as [|c a IH]; simpl; [done|]. by rewrite IH, append_assoc. Qed.

Lemma escaped_cons c s : escaped (String c s) = plus_to_percent (if unreserved c then String c "" else if Ascii.eqb c " " then "+" else escape_byte c) +:+ escaped s.
Proof. unfold escaped. simpl. by rewrite plus_to_percent_app. Qed.

(** All bytes of a component, one by one. *)
Definition good_byte (c : ascii) : bool :=
  let e := plus_to_percent (if unreserved c then String c "" else if Ascii.eqb c " " then "+" else escape_byte c) in
  free "&" e && free "=" e && negb (e =? "")%string
  && ((e =? escape_byte c)%string || (e =? String c "")%string && negb (Ascii.eqb c "%")).

Lemma every_byte (f : ascii -> bool) : forallb (fun n => f (ascii_of_nat n)) (seq 0 256) = true -> forall c, f c = true.
Proof.
  intros H c. rewrite forallb_forall in H. rewrite <- (ascii_nat_embedding c). apply H, in_seq.
  pose proof (nat_ascii_bounded c). lia.
Qed.

Lemma all_good c : good_byte c = true.
Proof. revert c. apply every_byte. vm_compute. reflexivity. Qed.

Lemma unescape_escaped s : PathUnescape (escaped s) = Some s.
Proof.
  induction s as [|c s IH]; [done|]. rewrite escaped_cons.
  pose proof (all_good c) as Hg. unfold good_byte in Hg. apply andb_true_iff in Hg as [_ Hg]. set (e := plus_to_percent _) in *.
  apply orb_true_iff in Hg as [->%String.eqb_eq|[->%String.eqb_eq Hp%negb_true_iff]%andb_true_iff].
  - by rewrite unescape_byte, IH.
  - change (String c "" +:+ escaped s) with (String c (escaped s)). cbn [PathUnescape]. by rewrite Hp, IH.
Qed.

Lemma free_app c a b : free c (a +:+ b) = free c a && free c b.
Proof. unfold free. induction a as [|x a IH]; simpl; [done|]. by rewrite IH, andb_assoc. Qed.

Lemma escaped_free s : free "&" (escaped s) = true /\ free "=" (escaped s) = true.
Proof.
  induction s as [|c s [IH1 IH2]]; [done|]. rewrite escaped_cons, !free_app, IH1, IH2.
  pose proof (all_good c) as Hg. unfold good_byte in Hg. rewrite !andb_true_iff in Hg. by destruct Hg as [[[-> ->] _] _].
Qed.

Lemma plus_to_percent_join l : plus_to_percent (join "&" l) = join "&" (plus_to_percent <$> l).
Proof.
  induction l as [|a [|b l] IH]; [done..|]. change (join "&" (a :: b :: l)) with (a +:+ "&" +:+ join "&" (b :: l)).
  rewrite !plus_to_percent_app, IH. done.
Qed.

Lemma plus_to_percent_pair kv : plus_to_percent (encode_pair kv) = escaped kv.1 +:+ "=" +:+ escaped kv.2.
Proof. unfold encode_pair. by rewrite !plus_to_percent_app. Qed.

Lemma split_joined c a l : Forall (fun s => free c s = true) (a :: l) -> split c (join (String c "") (a :: l)) = a :: l.
Proof.
  revert a. induction l as [|b l IH]; intros a Hl; inversion_clear Hl as [|? ? Ha Hl'].
  - by apply split_free.
  - change (join (String c "") (a :: b :: l)) with (a +:+ String c (join (String c "") (b :: l))). by rewrite split_sep, IH.
Qed.

Definition add_all (q : values) (l : list (string * string)) : values := fold_left (fun q kv => Values_Add q kv.1 kv.2) l q.

(** Adding the values of distinct keys builds the map. *)
Lemma add_values q k vs : vs <> [] -> add_all q ((fun v => (k, v)) <$> vs) = <[k := values_of q k ++ vs]> q.
Proof.
  revert q. induction vs as [|v [|v' vs] IH]; intros q Hne; [done|done|].
  change (add_all q ((fun v => (k, v)) <$> v :: v' :: vs)) with (add_all (Values_Add q k v) ((fun v => (k, v)) <$> v' :: vs)).
  rewrite IH by done. unfold Values_Add, values_of. rewrite lookup_insert_eq, insert_insert_eq. simpl. by rewrite <- app_assoc.
Qed.

Lemma pairs_cons k vs l : pairs ((k, vs) :: l) = ((fun v => (k, v)) <$> vs) ++ pairs l.
Proof. reflexivity. Qed.

Lemma add_all_app q l l' : add_all q (l ++ l') = add_all (add_all q l) l'.
Proof. apply fold_left_app. Qed.

Lemma add_entries (l : list (string * list string)) q :
  NoDup l.*1 -> Forall (fun e => e.2 <> []) l -> (forall k, k ∈ l.*1 -> q !! k = None) -> add_all q (pairs l) = list_to_map l ∪ q.
Proof.
  revert q. induction l as [|[k vs] l IH]; intros q Hn Hne Hq; [simpl; by rewrite (left_id_L ∅ (∪))|].
  inversion_clear Hn as [|? ? Hk Hn']. inversion_clear Hne as [|? ? Hvs Hne'].
  rewrite pairs_cons, add_all_app, add_values by done. rewrite IH; [|done|done|].
  - unfold values_of. rewrite (Hq k) by (by left). simpl.
    rewrite <- insert_union_l, insert_union_r; [done|]. by apply not_elem_of_list_to_map_1.
  - intros k' Hk'. rewrite lookup_insert_ne by (intros ->; done). apply Hq. by right.
Qed.


Definition map_values (f : string -> string) (q : values) : values := (fun vs : list string => f <$> vs) <$> q.

(** Reading components that some encoder wrote and the unescaping turns into
    [dec] of them. *)
Section component.
Context (enc dec : string -> string).
Context (Hdec : forall s, PathUnescape (enc s) = Some (dec s)).
Context (Hfree : forall s, free "&" (enc s) = true /\ free "=" (enc s) = true).

Definition enc_pair (kv : string * string) : string := enc kv.1 +:+ "=" +:+ enc kv.2.

Definition decode_pair (kv : string * string) : string * string := (dec kv.1, dec kv.2).
Definition decode_entry : string * list string -> string * list string := prod_map id (fun vs : list string => dec <$> vs).

Lemma add_part_encoded q kv : add_part q (enc_pair kv) = Values_Add q (dec kv.1) (dec kv.2).
Proof using Hdec Hfree.
  unfold add_part, enc_pair. assert (Hne : (enc kv.1 +:+ "=" +:+ enc kv.2 =? "")%string = false) by (by destruct (enc kv.1)).
  rewrite Hne. change ("=" +:+ enc kv.2) with (String "=" (enc kv.2)). rewrite cut_found by apply Hfree.
  unfold unescaped. by rewrite !Hdec.
Qed.

Lemma read_pairs l q : fold_left add_part (enc_pair <$> l) q = add_all q (decode_pair <$> l).
Proof using Hdec Hfree.
  revert q. induction l as [|kv l IH]; intros q; [done|]. cbn [fmap list_fmap fold_left]. rewrite add_part_encoded. apply IH.
Qed.

Lemma decoded_pairs (l : list (string * list string)) :
  Forall (fun e => dec e.1 = e.1) l -> decode_pair <$> pairs l = pairs (decode_entry <$> l).
Proof using.
  induction 1 as [|[k vs] l Hk _ IH]; [done|]. cbn [fmap list_fmap]. change (decode_entry (k, vs)) with (k, dec <$> vs).
  rewrite !pairs_cons, fmap_app, IH. f_equal. simpl in Hk. rewrite <- !list_fmap_compose. apply list_fmap_ext.
  intros i v _. unfold decode_pair. simpl. by rewrite Hk.
Qed.

Lemma read_encoded (q : values) :
  (forall k vs, q !! k = Some vs -> dec k = k /\ vs <> []) ->
  fold_left add_part (split "&" (join "&" (enc_pair <$> pairs (sorted_entries q)))) ∅ = map_values dec q.
Proof using Hdec Hfree.
  intros Hq. assert (Hperm : sorted_entries q ≡ₚ map_to_list q) by apply slice_stable_perm.
  assert (Hall : forall e, e ∈ sorted_entries q -> dec e.1 = e.1 /\ e.2 <> []).
  { intros [k vs]. rewrite Hperm. intros Hin%elem_of_map_to_list. by apply (Hq k vs). }
  assert (Hread : add_all ∅ (decode_pair <$> pairs (sorted_entries q)) = map_values dec q).
  { rewrite decoded_pairs by (apply Forall_forall; intros e He; by apply Hall).
    assert (Hkeys : (decode_entry <$> sorted_entries q).*1 = (sorted_entries q).*1)
      by (rewrite <- list_fmap_compose; by apply list_fmap_ext).
    rewrite add_entries; [|rewrite Hkeys, Hperm; apply NoDup_fst_map_to_list|
      apply Forall_fmap, Forall_forall; intros e He; simpl; destruct (Hall e He) as [_ Hne]; by destruct e.2|intros k _; apply lookup_empty].
    rewrite (right_id_L ∅ (∪)). rewrite (list_to_map_proper _ (decode_entry <$> map_to_list q)).
    - change (list_to_map (prod_map id (fun vs : list string => dec <$> vs) <$> map_to_list q) = map_values dec q).
      by rewrite list_to_map_fmap, list_to_map_to_list.
    - rewrite Hkeys, Hperm. apply NoDup_fst_map_to_list.
    - by rewrite Hperm. }
  rewrite <- Hread, <- read_pairs. destruct (pairs (sorted_entries q)) as [|kv l]; [done|].
  cbn [fmap list_fmap]. rewrite split_joined; [done|].
  apply Forall_forall. intros s. change (_ :: _) with (enc_pair <$> kv :: l).
  intros (p & -> & _)%list_elem_of_fmap. unfold enc_pair. rewrite !free_app.
  destruct (Hfree p.1) as [-> _], (Hfree p.2) as [-> _]. reflexivity.
Qed.
End component.

(** a query that [EncodeURIQuery] writes is read by the wallet with every
    key and every value, in their order, whatever bytes they hold. *)
Theorem uri_query_roundtrip (q : values) : (forall k vs, q !! k = Some vs -> vs <> []) -> URIQueryValues (EncodeURIQuery q) = q.
Proof.
  intros Hq. unfold EncodeURIQuery, Values_Encode, URIQueryValues. rewrite plus_to_percent_join, <- list_fmap_compose.
  assert (E : (plus_to_percent ∘ encode_pair) <$> pairs (sorted_entries q) = enc_pair escaped <$> pairs (sorted_entries q)).
  { apply list_fmap_ext. intros i kv _. apply plus_to_percent_pair. }
  rewrite E, (read_encoded escaped id unescape_escaped escaped_free); [|intros k vs Hk; split; [done|by eapply Hq]].
  unfold map_values. rewrite <- (map_fmap_id q) at 2. apply map_fmap_ext. intros k vs _. apply list_fmap_id.
Qed.

(** *** What [Values.Encode] wrote *)

Fixpoint spaces_to_plus (s : string) : string :=
  match s with "" => "" | String c s => String (if Ascii.eqb c " " then "+"%char else c) (spaces_to_plus s) end.

Definition query_byte (c : ascii) : bool :=
  let e := if unreserved c then String c "" else if Ascii.eqb c " " then "+" else escape_byte c in
  free "&" e && free "=" e
  && ((e =? escape_byte c)%string && negb (Ascii.eqb c " ") || (e =? String (if Ascii.eqb c " " then "+"%char else c) "")%string && negb (Ascii.eqb c "%")).

Lemma all_query c : query_byte c = true.
Proof. revert c. apply every_byte. vm_compute. reflexivity. Qed.

Lemma query_escape_free s : free "&" (QueryEscape s) = true /\ free "=" (QueryEscape s) = true.
Proof.
  induction s as [|c s [IH1 IH2]]; [done|]. cbn [QueryEscape]. rewrite !free_app, IH1, IH2.
  pose proof (all_query c) as Hg. unfold query_byte in Hg. rewrite !andb_true_iff in Hg. by destruct Hg as [[-> ->] _].
Qed.

Lemma unescape_query s : PathUnescape (QueryEscape s) = Some (spaces_to_plus s).
Proof.
  induction s as [|c s IH]; [done|]. cbn [QueryEscape spaces_to_plus].
  pose proof (all_query c) as Hg. unfold query_byte in Hg. apply andb_true_iff in Hg as [_ Hg].
  apply orb_true_iff in Hg as [[->%String.eqb_eq Hs%negb_true_iff]%andb_true_iff|[E%String.eqb_eq Hp%negb_true_iff]%andb_true_iff].
  - by rewrite unescape_byte, IH, Hs.
  - rewrite E. change (String ?x "" +:+ ?y) with (String x y). cbn [String.append PathUnescape].
    assert (Hn : Ascii.eqb (if Ascii.eqb c " " then "+"%char else c) "%" = false) by (by destruct (Ascii.eqb c " ")). by rewrite Hn, IH.
Qed.

(** A query that [Values.Encode] writes is read by the wallet with a plus
    sign for every space: the demo verifier's unsigned requests reach the
    wallet as they were sent only when no parameter holds a space. *)
Theorem form_encoding_loses_spaces (q : values) :
  (forall k vs, q !! k = Some vs -> spaces_to_plus k = k /\ vs <> []) -> URIQueryValues (Values_Encode q) = map_values spaces_to_plus q.
Proof. apply (read_encoded QueryEscape spaces_to_plus unescape_query query_escape_free). Qed.

(** ** Witnesses *)

Definition spaced : values := {[ "client_id" := ["my verifier"] ]}.

Lemma spaced_keys k vs : spaced !! k = Some vs -> k = "client_id" /\ vs = ["my verifier"].
Proof. unfold spaced. intros [<- <-]%lookup_singleton_Some. done. Defined.

Lemma uri_query_roundtrip_witness : URIQueryValues (EncodeURIQuery spaced) = spaced.
Proof. apply (uri_query_roundtrip spaced). intros k vs [_ ->]%spaced_keys. discriminate. Defined.

Lemma form_encoding_loses_spaces_witness : URIQueryValues (Values_Encode spaced) = {[ "client_id" := ["my+verifier"] ]}.
Proof.
  rewrite (form_encoding_loses_spaces spaced); [vm_compute; reflexivity|]. intros k vs [-> ->]%spaced_keys. split; [reflexivity|discriminate].
Defined.
