(* ===== verification/Requests.v ===== *)
(** * Requests: parsing credential offers and authorization requests

    src/internal/oid4vc (parser.go, types.go, error_description.go) and the
    fetch of a request object (src/internal/wallet/requestobj.go). *)

From stdpp Require Import base list strings gmap.
From Stdlib Require Import ZArith Lia Ascii.
From S2P Require Import Prelude GoStrings GoValue Format SDJWT WalletState Present.
From S2P Require Import Certs IssuerAuth UriQuery.

Local Open Scope Z_scope.

(** ** types.go *)

Record OfferGrants := mkGrants {
  PreAuthorizedCode : string; TxCode : option object; AuthorizationCode : string; IssuerState : string }.

Record CredentialOffer := mkOffer {
  CredentialIssuer : string; CredentialConfigurationIDs : list string; Grants : OfferGrants; offer_FullJSON : object }.

(** A nil map is [None]. *)
Record RequestObjectJWT := mkRequestObject { ro_Raw : string; ro_Header : option object; ro_Payload : option object }.

Record AuthorizationRequest := mkAuthRequest {
  ar_ClientID : string; ar_ResponseType : string; ar_ResponseMode : string; ar_Nonce : string; ar_State : string;
  ar_RedirectURI : string; ar_ResponseURI : string; ar_Scope : string; ar_RequestURIMethod : string; ar_RequestURI : string;
  ar_ClientMetadata : option object; ar_DCQLQuery : option object; ar_RequestObject : option RequestObjectJWT;
  ar_FullParams : gmap string string; ar_FullJSON : option object }.

Inductive parsed := Offer (o : CredentialOffer) | Authorization (r : AuthorizationRequest).

(** ** error_description.go

    A [range] loop visits runes; every rune outside ASCII becomes a space, and
    runs of spaces collapse, so a space for each of its bytes gives the same
    text. *)

Definition section_sign : string := bytes [194; 167]%nat.

Fixpoint replace_section_fuel (fuel : nat) (s : string) : string :=
  match fuel, s with
  | S fuel, String c s' =>
      match cut_prefix section_sign s with
      | Some rest => "section " +:+ replace_section_fuel fuel rest
      | None => String c (replace_section_fuel fuel s')
      end
  | _, _ => s
  end.

Definition described_byte (c : ascii) : ascii :=
  let n := nat_of_ascii c in
  if (n =? 34)%nat then "'"%char else if (n =? 92)%nat then "/"%char
  else if (32 <=? n)%nat && (n <=? 126)%nat then c else " "%char.

Fixpoint map_bytes (f : ascii -> ascii) (s : string) : string :=
  match s with "" => "" | String c s => String (f c) (map_bytes f s) end.

Definition ErrorDescription (message : string) : string :=
  join " " (fields (map_bytes described_byte (replace_section_fuel (String.length message) message))).

(** ** parser.go *)

(** [isJWT], which requestobj.go repeats. *)
Definition isJWT (s : string) : bool :=
  match split_n 4 "."%char s with
  | [h; p; _] => negb (h =? "")%string && negb (p =? "")%string
  | _ => false
  end.

Definition isJWE (s : string) : bool :=
  match split "."%char s with [h; _; _; _; _] => negb (h =? "")%string | _ => false end.

Definition DeriveResponseURI (clientID responseMode responseURI : string) : string :=
  if negb (responseURI =? "")%string then responseURI
  else if negb (contains ["direct_post"; "direct_post.jwt"] responseMode) then ""
  else default "" (cut_prefix "redirect_uri:" clientID).

(** [json.Unmarshal] into a map variable: [null] leaves it nil. *)
Definition json_spaces : list string := [" "; bytes [9]%nat; bytes [10]%nat; bytes [13]%nat].
Definition is_null (s : string) : bool :=
  (trim_left json_spaces (rev_string (trim_left json_spaces (rev_string s))) =? "null")%string.

Section parser.
Context {json : Json} {pki : Pki}.
Context (marshal_object : object -> option string).
(** [format.FetchURL] and the fetch of a request object: URL, method and
    client_id. *)
Context (FetchURL : string -> result why string).
Context (FetchRequestURI : string -> string -> string -> result why string).

Definition unmarshal_map (s : string) : option (option object) :=
  if is_null s then Some None else Some <$> unmarshal_object s.

Definition grants_of (m : object) : OfferGrants :=
  let grants := default [] (as_obj (index m "grants")) in
  let preAuth := as_obj (index grants "urn:ietf:params:oauth:grant-type:pre-authorized_code") in
  let authCode := as_obj (index grants "authorization_code") in
  mkGrants
    (match preAuth with Some p => get_string p "pre-authorized_code" | None => "" end)
    (match preAuth with Some p => as_obj (index p "tx_code") | None => None end)
    (match authCode with Some a => get_string a "authorization_code" | None => "" end)
    (match authCode with Some a => get_string a "issuer_state" | None => "" end).

Definition offer_of (m : object) : CredentialOffer :=
  mkOffer (get_string m "credential_issuer") (filter_map as_string (get_arr m "credential_configuration_ids")) (grants_of m) m.

Definition parseVCIJSON (data : string) : result why CredentialOffer :=
  match unmarshal_object data with
  | None => Err (Text "parsing credential offer JSON: %w")
  | Some m => Ok (offer_of m)
  end.

Definition parseVCIParams (q : values) : result why CredentialOffer :=
  if negb (first_of q "credential_offer" =? "")%string then parseVCIJSON (first_of q "credential_offer")
  else if negb (first_of q "credential_offer_uri" =? "")%string then
    match FetchURL (first_of q "credential_offer_uri") with
    | Err e => Err (Fmt "fetching credential_offer_uri: %w" [e])
    | Ok fetched => parseVCIJSON fetched
    end
  else Err (Text "VCI URI has no credential_offer or credential_offer_uri parameter").

(** The claims of the request object replace the parameters. *)
Definition applyRequestObjectPayload (req : AuthorizationRequest) (payload : object) : result why AuthorizationRequest :=
  let inner := get_string payload "client_id" in
  if negb (ar_ClientID req =? "")%string && negb (inner =? ar_ClientID req)%string
  then Err (Fmt "request object client_id %q does not match outer client_id %q" [Text inner; Text (ar_ClientID req)])
  else
    let str := get_string payload in
    Ok (mkAuthRequest inner (str "response_type") (str "response_mode") (str "nonce") (str "state") (str "redirect_uri")
          (DeriveResponseURI inner (str "response_mode") (str "response_uri")) (str "scope")
          (ar_RequestURIMethod req) (ar_RequestURI req) (as_obj (index payload "client_metadata")) (as_obj (index payload "dcql_query"))
          (ar_RequestObject req) (ar_FullParams req) (ar_FullJSON req)).

Definition with_request_object (ro : RequestObjectJWT) (req : AuthorizationRequest) : AuthorizationRequest :=
  mkAuthRequest (ar_ClientID req) (ar_ResponseType req) (ar_ResponseMode req) (ar_Nonce req) (ar_State req) (ar_RedirectURI req)
    (ar_ResponseURI req) (ar_Scope req) (ar_RequestURIMethod req) (ar_RequestURI req) (ar_ClientMetadata req) (ar_DCQLQuery req)
    (Some ro) (ar_FullParams req) (ar_FullJSON req).

Definition with_request_uri (uri : string) (req : AuthorizationRequest) : AuthorizationRequest :=
  mkAuthRequest (ar_ClientID req) (ar_ResponseType req) (ar_ResponseMode req) (ar_Nonce req) (ar_State req) (ar_RedirectURI req)
    (ar_ResponseURI req) (ar_Scope req) (ar_RequestURIMethod req) uri (ar_ClientMetadata req) (ar_DCQLQuery req)
    (ar_RequestObject req) (ar_FullParams req) (ar_FullJSON req).

(** A request object that carries the parameters of [req]. *)
Definition resolve_object (raw : string) (w : string) (req : AuthorizationRequest) : result why AuthorizationRequest :=
  match ParseJWTParts raw with
  | Err _ => Err (Text w)
  | Ok p => applyRequestObjectPayload (with_request_object (mkRequestObject raw (Some (jp_header p)) (Some (jp_payload p))) req) (jp_payload p)
  end.

(** The request as its parameters alone give it. *)
Definition outer_request (q : values) : AuthorizationRequest :=
  let get := first_of q in
  mkAuthRequest (get "client_id") (get "response_type") (get "response_mode") (get "nonce") (get "state") (get "redirect_uri")
    (DeriveResponseURI (get "client_id") (get "response_mode") (get "response_uri")) (get "scope") (get "request_uri_method") ""
    (if (get "client_metadata" =? "")%string then None else default None (unmarshal_map (get "client_metadata")))
    (if (get "dcql_query" =? "")%string then None else default None (unmarshal_map (get "dcql_query")))
    None (map_imap (fun k _ => Some (get k)) q) None.

(** [request_uri], then [request]. *)
Definition fetched_request (q : values) (req : AuthorizationRequest) : result why AuthorizationRequest :=
  let uri := first_of q "request_uri" in
  if (uri =? "")%string then Ok req
  else
    let req := with_request_uri uri req in
    let method := if (ar_RequestURIMethod req =? "")%string then "get" else ar_RequestURIMethod req in
    match FetchRequestURI uri method (ar_ClientID req) with
    | Err e => Err (Fmt "fetching request_uri: %w" [e])
    | Ok fetched => if isJWT fetched then resolve_object fetched "parsing request object JWT: %w" req else Ok req
    end.

Definition inline_request (q : values) (req : AuthorizationRequest) : result why AuthorizationRequest :=
  let jwt := first_of q "request" in
  if (jwt =? "")%string then Ok req else resolve_object jwt "parsing request JWT: %w" req.

Definition parseVPParams (q : values) : result why AuthorizationRequest :=
  let? req := fetched_request q (outer_request q) in inline_request q req.

Definition ParseAuthorizationParams (q : values) : result why AuthorizationRequest := parseVPParams q.

Definition empty_request : AuthorizationRequest := mkAuthRequest "" "" "" "" "" "" "" "" "" "" None None None ∅ None.

Definition buildVPFromJWT (raw : string) (header payload : object) : AuthorizationRequest :=
  let req := with_request_object (mkRequestObject raw (Some header) (Some payload)) empty_request in
  match applyRequestObjectPayload req payload with Ok req => req | Err _ => req end.

Definition has (m : object) (k : string) : bool := match get k m with Some _ => true | None => false end.

Definition parseJWTInput (raw : string) : result why parsed :=
  match ParseJWTParts raw with
  | Err _ => Err (Text "parsing JWT: %w")
  | Ok p =>
      let payload := jp_payload p in
      if has payload "credential_issuer" then
        match marshal_object payload with
        | None => Err (Text "marshaling JWT payload: %w")
        | Some data => let? offer := parseVCIJSON data in Ok (Offer offer)
        end
      else if has payload "client_id" || has payload "response_type" then Ok (Authorization (buildVPFromJWT raw (jp_header p) payload))
      else Err (Text "JWT payload does not contain VCI or VP markers (credential_issuer, client_id, response_type)")
  end.

Definition buildVPFromJSON (m : object) : AuthorizationRequest :=
  let str := get_string m in
  mkAuthRequest (str "client_id") (str "response_type") (str "response_mode") (str "nonce") (str "state") (str "redirect_uri")
    (DeriveResponseURI (str "client_id") (str "response_mode") (str "response_uri")) (str "scope") "" ""
    (as_obj (index m "client_metadata")) (as_obj (index m "dcql_query")) None ∅ (Some m).

Definition parseJSONInput (raw : string) : result why parsed :=
  match unmarshal_object raw with
  | None => Err (Text "parsing JSON: %w")
  | Some m =>
      if has m "credential_issuer" then let? offer := parseVCIJSON raw in Ok (Offer offer)
      else if existsb (has m) ["client_id"; "dcql_query"; "response_type"] then Ok (Authorization (buildVPFromJSON m))
      else Err (Text "JSON does not contain VCI or VP markers (credential_issuer, client_id, dcql_query, response_type)")
  end.

Definition parse_uri (raw message : string) (vci : values -> bool) : result why parsed :=
  match url_Parse raw with
  | None => Err (Text message)
  | Some u =>
      let q := URIQueryValues (u_RawQuery u) in
      if vci q then let? offer := parseVCIParams q in Ok (Offer offer) else let? req := parseVPParams q in Ok (Authorization req)
  end.

Definition Values_Has (q : values) (k : string) : bool := bool_decide (is_Some (q !! k)).

Definition ParseWithOptions (raw : string) : result why parsed :=
  let raw := trim_space raw in
  let starts := existsb (fun p => has_prefix p raw) in
  if starts ["openid-credential-offer://"; "haip-vci://"; "eu-eaa-offer://"] then parse_uri raw "parsing VCI URI: %w" (fun _ => true)
  else if starts ["openid4vp://"; "haip-vp://"; "eudi-openid4vp://"] then parse_uri raw "parsing VP URI: %w" (fun _ => false)
  else if starts ["https://"; "http://"] then parse_uri raw "parsing URL: %w" (fun q => Values_Has q "credential_offer" || Values_Has q "credential_offer_uri")
  else if isJWT raw then parseJWTInput raw
  else if has_prefix "{" raw then parseJSONInput raw
  else Err (Text "unable to detect OpenID4VCI/VP format: not a recognized URI, URL, JWT, or JSON").
End parser.

(** ** requestobj.go: fetching a request object *)

Record http_answer := mkAnswer { an_status : Z; an_contentType : string; an_body : result why string }.

(** What the fetch reads of the wallet. *)
Record fetcher `{Jose} := mkFetcher { f_strict : bool; RequireEncryptedRequest : bool; RequestEncryptionKey : option ECKey }.

Definition string_list (l : list string) : value := VArr (map VString l).

Definition wallet_jwk (x y : string) : object :=
  [("kty", VString "EC"); ("crv", VString "P-256"); ("x", VString (EncodeBase64URL x)); ("y", VString (EncodeBase64URL y));
   ("use", VString "enc"); ("alg", VString "ECDH-ES")].

Definition BuildWalletMetadata `{Jose} (w : fetcher) (clientID : string) : object :=
  [("vp_formats_supported", VObj [
      ("dc+sd-jwt", VObj [("sd-jwt_alg_values", string_list ["ES256"]); ("kb-jwt_alg_values", string_list ["ES256"])]);
      ("mso_mdoc", VObj [("issuerauth_alg_values", VArr [VInt KInt (-7)]); ("deviceauth_alg_values", VArr [VInt KInt (-7)])])]);
   ("client_id_prefixes_supported", string_list ["pre-registered"; "redirect_uri"; "x509_san_dns"; "x509_hash"]);
   ("response_types_supported", string_list ["vp_token"]);
   ("response_modes_supported", string_list ["direct_post"; "direct_post.jwt"; "dc_api"; "dc_api.jwt"]);
   ("authorization_encryption_alg_values_supported", string_list ["ECDH-ES"]);
   ("authorization_encryption_enc_values_supported", string_list ["A128GCM"; "A256GCM"])]
  ++ (if has_prefix "redirect_uri:" clientID then [] else [("request_object_signing_alg_values_supported", string_list ["ES256"])])
  ++ (match RequestEncryptionKey w with
      | None => []
      | Some key =>
          match ec_coords key with
          | None => []
          | Some (x, y) =>
              [("jwks", VObj [("keys", VArr [VObj (wallet_jwk x y)])]);
               ("request_object_encryption_alg_values_supported", string_list ["ECDH-ES"]);
               ("request_object_encryption_enc_values_supported", string_list ["A128GCM"; "A256GCM"])]
          end
      end).

Section fetch.
Context {jose : Jose} {json : Json}.
Context (http_do : string -> string -> string -> result why http_answer).
Context (ParseMediaType : string -> result why string).
Context (DecryptCompactJWE : string -> ECKey -> result why string).
Context (marshal_object : object -> option string).
Context (w : fetcher).

Definition validateRequestURIResponse (contentType : string) : option why :=
  if (contentType =? "")%string
  then Some (Text "OID4VP 1.0 §5.10.1: the request_uri response is missing the Content-Type application/oauth-authz-req+jwt")
  else match ParseMediaType contentType with
       | Err e => Some (Fmt "OID4VP 1.0 §5.10.1: the request_uri response Content-Type does not parse: %w" [e])
       | Ok mediaType =>
           if (mediaType =? "application/oauth-authz-req+jwt")%string then None
           else Some (Fmt "OID4VP 1.0 §5.10.1: the request_uri response Content-Type must be application/oauth-authz-req+jwt, got %q" [Text contentType])
       end.

(** The warnings, and the error. *)
Definition judgeRequestURIMediaType (contentType : string) : list why * option why :=
  match validateRequestURIResponse contentType with
  | None => ([], None)
  | Some e => if f_strict w then ([], Some e) else ([e], None)
  end.

Definition fetched := (list why * result why string)%type.
Definition failed (e : why) : fetched := ([], Err e).

Definition judged (contentType : string) (k : result why string) : fetched :=
  let '(warnings, err) := judgeRequestURIMediaType contentType in
  match err with Some e => (warnings, Err e) | None => (warnings, k) end.

Definition fetchRequestURIGET (requestURI : string) : fetched :=
  match http_do "GET" requestURI "" with
  | Err e => failed (Fmt "fetching %s: %w" [Text requestURI; e])
  | Ok a =>
      match an_body a with
      | Err e => failed (Fmt "reading response from %s: %w" [Text requestURI; e])
      | Ok body =>
          if negb (an_status a =? 200) then failed (Fmt "fetching %s: HTTP %d" [Text requestURI; Text (itoa (an_status a))])
          else judged (an_contentType a) (Ok (trim_space body))
      end
  end.

(** The object, decrypted if it came encrypted. *)
Definition open_object (body : string) : result why string :=
  if negb (isJWT body) && negb (isJWE body) then Err (Text "request_uri response must be a compact JWT or JWE")
  else if RequireEncryptedRequest w && negb (isJWE body)
  then Err (Text "request_uri response must be a compact JWE when encrypted request objects are required")
  else
  let? opened :=
    (if isJWE body then
       match RequestEncryptionKey w with
       | None => Err (Text "received encrypted request object (JWE) but wallet has no decryption key")
       | Some key => match DecryptCompactJWE body key with Err e => Err (Fmt "decrypting request object JWE: %w" [e]) | Ok s => Ok s end
       end
     else Ok body) in
  if isJWT opened then Ok opened else Err (Text "request_uri response did not resolve to a compact JWT").

(** A nonce the object returns is the one sent. *)
Definition check_wallet_nonce (walletNonce jwt : string) : result why string :=
  match ParseJWTParts jwt with
  | Err _ => Ok jwt
  | Ok p =>
      match as_string (index (jp_payload p) "wallet_nonce") with
      | Some returned =>
          if (returned =? walletNonce)%string then Ok jwt
          else Err (Fmt "wallet_nonce mismatch in request object: expected %s, got %s" [Text walletNonce; Text returned])
      | None => Ok jwt
      end
  end.

Definition post_form (metadata walletNonce : string) : string :=
  Values_Encode (<["wallet_metadata" := [metadata]]> {["wallet_nonce" := [walletNonce]]}).

Definition fetchRequestURIPOST (requestURI clientID : string) (GenerateWalletNonce : result why string) : fetched :=
  match marshal_object (BuildWalletMetadata w clientID), GenerateWalletNonce with
  | None, _ => failed (Text "marshaling wallet_metadata: %w")
  | _, Err e => failed e
  | Some metadata, Ok walletNonce =>
      match http_do "POST" requestURI (post_form metadata walletNonce) with
      | Err e => failed (Fmt "POSTing to request_uri: %w" [e])
      | Ok a =>
          match an_body a with
          | Err e => failed (Fmt "reading request_uri response: %w" [e])
          | Ok body =>
              if negb (an_status a =? 200) then failed (Fmt "POST to request_uri returned HTTP %d" [Text (itoa (an_status a))])
              else judged (an_contentType a) (let? jwt := open_object (trim_space body) in check_wallet_nonce walletNonce jwt)
          end
      end
  end.

Definition MakeFetchRequestURI (GenerateWalletNonce : result why string) (requestURI method clientID : string) : fetched :=
  if (method =? "post")%string then fetchRequestURIPOST requestURI clientID GenerateWalletNonce else fetchRequestURIGET requestURI.
End fetch.
