(* ===== verification/Jwe.v ===== *)
(** * Jwe: compact JWE with ECDH-ES and RSA-OAEP

    internal/jwe (decryption, Concat KDF, header), internal/wallet/jwe.go
    (encryption) and the JWK readers they use (ParseJWK, ParseJWKLenient and
    padECCoordinates of internal/keys).

    The elliptic curve, AES, HMAC, RSA and the decoding of a JWK by go-jose are
    libraries: the class [JweCrypto].  The random bytes of an encryption are
    arguments. *)

From stdpp Require Import base list strings.
From Stdlib Require Import ZArith Lia Ascii.
From S2P Require Import Prelude GoStrings GoValue Format Validity SDJWT DCQL Requests.

Local Open Scope Z_scope.

(** What go-jose decodes: a private key counts as its public key. *)
Inductive jwk_key (EC : Type) := JwkEC (k : EC) | JwkRSA | JwkUnsupported.
Arguments JwkEC {EC}. Arguments JwkRSA {EC}. Arguments JwkUnsupported {EC}.

Record RSAKey := mkRSA { rsa_N : Z; rsa_E : Z }.

Class JweCrypto := {
  (** [ecdsa.PublicKey], and crypto/ecdh on P-256 *)
  EcPub : Type;
  EcdhPub : Type;
  EcdhPriv : Type;
  pub_ecdh : EcPub -> option EcdhPub;
  ecdh_public : EcdhPriv -> EcdhPub;
  (** the uncompressed point: 4, then the coordinates *)
  pub_bytes : EcdhPub -> string;
  ecdh : EcdhPriv -> EcdhPub -> option string;
  (** [JSONWebKey.UnmarshalJSON] *)
  decode_jwk : string -> option (jwk_key EcPub);
  (** AES-GCM with a 12-byte nonce and a 16-byte tag behind the ciphertext *)
  gcm_seal : string -> string -> string -> string -> string;
  gcm_open : string -> string -> string -> string -> option string;
  (** AES-CBC of whole blocks, HMAC-SHA-256 and RSA-OAEP with SHA-1 or SHA-256 *)
  cbc_encrypt : string -> string -> string -> string;
  hmac_sha256 : string -> string -> string;
  oaep_encrypt : bool -> RSAKey -> string -> option string;
  (** [json.Marshal] of an object *)
  jwe_marshal : object -> option string }.

(** ** Bytes *)

Definition be32 (n : Z) : string := string_of (map (fun i => n / 2 ^ (8 * i) mod 256) [3; 2; 1; 0]).
Definition be64 (n : Z) : string := string_of (map (fun i => n / 2 ^ (8 * i) mod 256) [7; 6; 5; 4; 3; 2; 1; 0]).
Definition len (s : string) : Z := Z.of_nat (String.length s).
Definition slice_from (n : nat) (s : string) : string := String.substring n (String.length s - n) s.

(** ** internal/jwe *)

Definition EncKeyBitLen (enc : string) : result why Z :=
  if (enc =? "A128GCM")%string then Ok 128
  else if (enc =? "A256GCM")%string then Ok 256
  else if (enc =? "A128CBC-HS256")%string then Ok 256
  else Err (Fmt "unsupported content encryption algorithm: %s" [Text enc]).

Definition with_length (data : string) : string := be32 (len data) +:+ data.

Definition ConcatKDF `{Hash} (z enc apu apv : string) (keyBitLen : Z) : string :=
  slice_to (Z.to_nat (keyBitLen / 8))
    (sha256 (be32 1 +:+ z +:+ with_length enc +:+ with_length apu +:+ with_length apv +:+ be32 keyBitLen)).

(** A nil apu is the empty one. *)
Record JweHeader := mkJweHeader { jh_Enc : string; jh_EPK : option object; jh_APU : string; jh_APV : string; jh_Raw : object }.

Definition header_bytes (raw : object) (k : string) : string :=
  match as_string (index raw k) with Some b64 => default "" (DecodeBase64URL b64) | None => "" end.

Definition ParseHeader `{Json} (compact : string) : result why JweHeader :=
  match split "." compact with
  | [h; _; _; _; _] =>
      match DecodeBase64URL h with
      | None => Err (Text "decoding JWE header: %w")
      | Some headerBytes =>
          match unmarshal_object headerBytes with
          | None => Err (Text "parsing JWE header: %w")
          | Some raw =>
              let enc := get_string raw "enc" in
              if (enc =? "")%string then Err (Text "missing enc in JWE header")
              else Ok (mkJweHeader enc (as_obj (index raw "epk")) (header_bytes raw "apu") (header_bytes raw "apv") raw)
          end
      end
  | parts => Err (Fmt "invalid JWE: expected 5 parts, got %d" [Text (itoa (Z.of_nat (length parts)))])
  end.

(** The key sizes of [aes.NewCipher]. *)
Definition aes_key (key : string) : bool := existsb (Z.eqb (len key)) [16; 24; 32].

Definition OpenAESGCM `{JweCrypto} (key iv ciphertext tag aad : string) : result why string :=
  if negb (aes_key key) then Err (Text "creating AES cipher: %w")
  else if negb (len iv =? 12) then Err (Fmt "AES-GCM IV must be %d bytes, got %d" [Text "12"; Text (itoa (len iv))])
  else match gcm_open key iv (ciphertext +:+ tag) aad with
       | None => Err (Text "AES-GCM decryption failed: %w")
       | Some plaintext => Ok plaintext
       end.

Section jwe.
Context {json : Json} {hash : Hash} {crypto : JweCrypto}.

Definition DecryptWithCEK (compact cek : string) : result why string :=
  match split "." compact with
  | [h; _; i; c; t] =>
      let? header := ParseHeader compact in
      if negb (contains ["A128GCM"; "A256GCM"] (jh_Enc header))
      then Err (Fmt "unsupported content encryption algorithm: %s" [Text (jh_Enc header)])
      else match DecodeBase64URL i with
      | None => Err (Text "decoding IV: %w")
      | Some iv =>
          match DecodeBase64URL c with
          | None => Err (Text "decoding ciphertext: %w")
          | Some ciphertext =>
              match DecodeBase64URL t with
              | None => Err (Text "decoding tag: %w")
              | Some tag => OpenAESGCM cek iv ciphertext tag h
              end
          end
      end
  | parts => Err (Fmt "invalid JWE: expected 5 parts, got %d" [Text (itoa (Z.of_nat (length parts)))])
  end.

Definition ParseJWK (data : string) : result why (option EcPub) :=
  match decode_jwk data with
  | None => Err (Text "not a valid PEM or JWK: %w")
  | Some (JwkEC k) => Ok (Some k)
  | Some JwkRSA => Ok None
  | Some JwkUnsupported => Err (Text "unsupported JWK key type: %T")
  end.

Definition ParsePublicKeyJWK (m : object) : result why EcdhPub :=
  if negb (get_string m "crv" =? "P-256")%string then Err (Fmt "unsupported curve: %s" [Text (get_string m "crv")])
  else if (get_string m "x" =? "")%string then Err (Text "missing x or y coordinate")
  else if (get_string m "y" =? "")%string then Err (Text "missing x or y coordinate")
  else match jwe_marshal m with
  | None => Err (Text "re-encoding epk: %w")
  | Some doc =>
      let? parsed := ParseJWK doc in
      match parsed with
      | None => Err (Text "epk is not an EC key")
      | Some ecKey => match pub_ecdh ecKey with Some k => Ok k | None => Err (Text "ecdsa: unsupported curve") end
      end
  end.

Definition Decrypt (compact : string) (key : option EcdhPriv) : result why string :=
  match key with
  | None => Err (Text "decryption requires a private key")
  | Some key =>
      let? header := ParseHeader compact in
      match jh_EPK header with
      | None => Err (Text "missing epk in JWE header")
      | Some epkObject =>
          match ParsePublicKeyJWK epkObject with
          | Err e => Err (Fmt "parsing epk: %w" [e])
          | Ok epk =>
              match ecdh key epk with
              | None => Err (Text "ECDH key agreement: %w")
              | Some z =>
                  let? keyBitLen := EncKeyBitLen (jh_Enc header) in
                  DecryptWithCEK compact (ConcatKDF z (jh_Enc header) (jh_APU header) (jh_APV header) keyBitLen)
              end
          end
      end
  end.

(** requestobj.go: [key.ECDH()] of the wallet's P-256 key gives its ECDH key. *)
Definition DecryptCompactJWE (compact : string) (key : option EcdhPriv) : result why string :=
  let? plaintext := Decrypt compact key in Ok (trim_space plaintext).

(** ** internal/wallet/jwe.go *)

Definition unmarshalECDHPublicKey (pub : EcdhPub) : string * string :=
  let raw := pub_bytes pub in
  let coordLen := Nat.div (String.length raw - 1) 2 in
  (String.substring 1 coordLen raw, slice_from (1 + coordLen) raw).

(** iv, ciphertext and tag *)
Definition encryptAESGCM (key plaintext aad iv : string) : result why (string * string * string) :=
  if negb (aes_key key) then Err (Text "creating AES cipher: %w")
  else
    let sealed := gcm_seal key iv plaintext aad in
    let n := (String.length sealed - 16)%nat in
    Ok (iv, slice_to n sealed, slice_from n sealed).

Fixpoint repeat_byte (n : nat) (c : ascii) : string := match n with O => "" | S n => String c (repeat_byte n c) end.

Definition pkcs7Pad (data : string) (blockSize : nat) : string :=
  let padding := (blockSize - Nat.modulo (String.length data) blockSize)%nat in
  data +:+ repeat_byte padding (ascii_of_nat padding).

Definition encryptAESCBCHS256 (derivedKey plaintext aad iv : string) : result why (string * string * string) :=
  if negb (len derivedKey =? 32)
  then Err (Fmt "A128CBC-HS256 requires 256-bit key, got %d bits" [Text (itoa (len derivedKey * 8))])
  else
    let macKey := slice_to 16 derivedKey in
    let encKey := slice_from 16 derivedKey in
    let ciphertext := cbc_encrypt encKey iv (pkcs7Pad plaintext 16) in
    let fullMAC := hmac_sha256 macKey (aad +:+ iv +:+ ciphertext +:+ be64 (len aad * 8)) in
    Ok (iv, ciphertext, slice_to 16 fullMAC).

(** [rand_bytes n]: [rand.Read] into a slice of [n] bytes. *)
Context (rand_bytes : nat -> option string).

Definition random_iv (n : nat) : result why string :=
  match rand_bytes n with Some iv => Ok iv | None => Err (Text "generating IV: %w") end.

Definition encrypt_content (enc key plaintext aad : string) : result why (string * string * string) :=
  if contains ["A128GCM"; "A256GCM"] enc then let? iv := random_iv 12 in encryptAESGCM key plaintext aad iv
  else if (enc =? "A128CBC-HS256")%string then let? iv := random_iv 16 in encryptAESCBCHS256 key plaintext aad iv
  else Err (Fmt "unsupported enc algorithm: %s" [Text enc]).

Definition epk_members (pub : EcdhPub) : object :=
  let '(x, y) := unmarshalECDHPublicKey pub in
  [("kty", VString "EC"); ("crv", VString "P-256"); ("x", VString (EncodeBase64URL x)); ("y", VString (EncodeBase64URL y))].

(** A nil apu or apv is [None]. *)
Definition optional_member (k : string) (v : option string) : object :=
  match v with Some s => [(k, VString s)] | None => [] end.

Definition jwe_header (alg enc kid cty : string) (epk : EcdhPub) (apu apv : option string) : object :=
  [("alg", VString alg); ("enc", VString enc); ("kid", VString kid); ("epk", VObj (epk_members epk))]
  ++ optional_member "apu" (EncodeBase64URL <$> apu) ++ optional_member "apv" (EncodeBase64URL <$> apv)
  ++ (if (cty =? "")%string then [] else [("cty", VString cty)]).

(** The compact serialization and the content encryption key. *)
Definition encryptJWE (eph : option EcdhPriv) (payload : string) (recipientKey : EcPub) (kid alg enc cty : string) (apu apv : option string) :
  result why (string * string) :=
  let? keyBitLen := EncKeyBitLen enc in
  match eph with
  | None => Err (Text "generating ephemeral key: %w")
  | Some ephemeralPriv =>
      match pub_ecdh recipientKey with
      | None => Err (Text "converting recipient key to ECDH: %w")
      | Some recipientECDH =>
          match ecdh ephemeralPriv recipientECDH with
          | None => Err (Text "ECDH key agreement: %w")
          | Some z =>
              let derivedKey := ConcatKDF z enc (default "" apu) (default "" apv) keyBitLen in
              match jwe_marshal (jwe_header alg enc kid cty (ecdh_public ephemeralPriv) apu apv) with
              | None => Err (Text "marshaling header: %w")
              | Some headerJSON =>
                  let headerB64 := EncodeBase64URL headerJSON in
                  let? parts := encrypt_content enc derivedKey payload headerB64 in
                  let '(iv, ciphertext, tag) := parts in
                  Ok (headerB64 +:+ ".." +:+ EncodeBase64URL iv +:+ "." +:+ EncodeBase64URL ciphertext +:+ "." +:+ EncodeBase64URL tag, derivedKey)
              end
          end
      end
  end.

Definition EncryptJWE (eph : option EcdhPriv) (payload : string) (recipientKey : EcPub) (kid alg enc : string) (apu apv : option string) :=
  encryptJWE eph payload recipientKey kid alg enc "" apu apv.

Definition EncryptJWERSA (payload : string) (recipientKey : RSAKey) (kid alg enc : string) : result why (string * string) :=
  let? keyBitLen := EncKeyBitLen enc in
  let? sha2 := (if (alg =? "RSA-OAEP")%string then Ok false else if (alg =? "RSA-OAEP-256")%string then Ok true
                else Err (Fmt "unsupported RSA key management alg: %s" [Text alg])) in
  match rand_bytes (Z.to_nat (keyBitLen / 8)) with
  | None => Err (Text "generating content encryption key: %w")
  | Some cek =>
      match oaep_encrypt sha2 recipientKey cek with
      | None => Err (Text "RSA-OAEP wrapping the content encryption key: %w")
      | Some encryptedKey =>
          match jwe_marshal [("alg", VString alg); ("enc", VString enc); ("kid", VString kid)] with
          | None => Err (Text "marshaling header: %w")
          | Some headerJSON =>
              let headerB64 := EncodeBase64URL headerJSON in
              let? parts := encrypt_content enc cek payload headerB64 in
              let '(iv, ciphertext, tag) := parts in
              Ok (headerB64 +:+ "." +:+ EncodeBase64URL encryptedKey +:+ "." +:+ EncodeBase64URL iv +:+ "." +:+ EncodeBase64URL ciphertext
                  +:+ "." +:+ EncodeBase64URL tag, cek)
          end
      end
  end.

(** ** The verifier's key *)

(** The exponent accumulates in an int. *)
Definition rsa_exponent (eBytes : string) : Z := fold_left (fun e b => wrap64 (Z.lor (wrap64 (Z.shiftl e 8)) b)) (bytes_of eBytes) 0.
Definition big_endian (s : string) : Z := fold_left (fun n b => n * 256 + b) (bytes_of s) 0.

Definition rsaPublicKeyFromJWK (jwk : object) : result why RSAKey :=
  let nB64 := get_string jwk "n" in
  let eB64 := get_string jwk "e" in
  if (nB64 =? "")%string || (eB64 =? "")%string then Err (Text "RSA JWK missing n or e")
  else match DecodeBase64URL nB64 with
  | None => Err (Text "decoding n: %w")
  | Some nBytes =>
      match DecodeBase64URL eB64 with
      | None => Err (Text "decoding e: %w")
      | Some eBytes =>
          if rsa_exponent eBytes <? 2 then Err (Text "RSA exponent is too small")
          else Ok (mkRSA (big_endian nBytes) (rsa_exponent eBytes))
      end
  end.

Definition ecCurveSizes (crv : string) : option nat :=
  if (crv =? "P-256")%string then Some 32%nat else if (crv =? "P-384")%string then Some 48%nat
  else if (crv =? "P-521")%string then Some 66%nat else None.

(** One coordinate, left padded: whether it changed. *)
Definition pad_field (size : nat) (acc : object * bool) (field : string) : object * bool :=
  match as_string (index acc.1 field) with
  | None => acc
  | Some encoded =>
      match DecodeBase64URL encoded with
      | None => acc
      | Some raw =>
          if (size <=? String.length raw)%nat then acc
          else (set field (VString (EncodeBase64URL (repeat_byte (size - String.length raw) (ascii_of_nat 0) +:+ raw))) acc.1, true)
      end
  end.

Definition padECCoordinates (data : string) : string :=
  match unmarshal_object data with
  | None => data
  | Some doc =>
      if negb (get_string doc "kty" =? "EC")%string then data
      else match ecCurveSizes (get_string doc "crv") with
      | None => data
      | Some size =>
          let '(doc, changed) := fold_left (pad_field size) ["x"; "y"; "d"] (doc, false) in
          if changed then default data (jwe_marshal doc) else data
      end
  end.

(** The key and whether it was repaired. *)
Definition ParseJWKLenient (data : string) : result why (option EcPub * bool) :=
  match ParseJWK data with
  | Ok key => Ok (key, false)
  | Err err =>
      let repaired := padECCoordinates data in
      if (repaired =? data)%string then Err err
      else let? key := ParseJWK repaired in Ok (key, true)
  end.

Definition narrow_coordinate : string :=
  "encryption JWK has an EC coordinate narrower than P-256 requires (RFC 7518 6.2.1.2). It was left padded to read the key".

(** The key and a finding, the empty text for none. *)
Definition ecdsaPublicKeyFromJWK (mode : ValidationMode) (xB64 yB64 : string) : result why (EcPub * string) :=
  match jwe_marshal [("kty", VString "EC"); ("crv", VString "P-256"); ("x", VString xB64); ("y", VString yB64)] with
  | None => Err (Text "encoding JWK: %w")
  | Some doc =>
      let not_ec := Err (Text "JWK is not an EC key") in
      match mode with
      | Strict => let? parsed := ParseJWK doc in match parsed with Some key => Ok (key, "") | None => not_ec end
      | Debug =>
          let? parsed := ParseJWKLenient doc in
          match parsed with (Some key, repaired) => Ok (key, if repaired then narrow_coordinate else "") | (None, _) => not_ec end
      end
  end.
End jwe.
