(* ===== verification/ClientAuth.v ===== *)
(** * ClientAuth: who sent an authorization request

    src/internal/wallet/clientid.go: the client identifier prefixes, the
    signature of the request object and its header.  A finding is [Some]; the
    code returns the empty text for none. *)

From stdpp Require Import base list strings gmap.
From Stdlib Require Import ZArith Lia Ascii.
From S2P Require Import Prelude GoStrings GoValue Format Validity SDJWT Certs Requests.

Local Open Scope Z_scope.

(** [u.Hostname()]: the host without port and brackets. *)
Fixpoint last_index (c : ascii) (s : string) : option nat :=
  match s with
  | "" => None
  | String d s => match last_index c s with Some n => Some (S n) | None => if Ascii.eqb c d then Some O else None end
  end.

Definition drop_bytes (n : nat) (s : string) : string := String.substring n (String.length s - n) s.

Definition valid_optional_port (port : string) : bool :=
  match port with "" => true | String c digits => Ascii.eqb c ":" && all_bytes is_digit digits end.

Definition Hostname (host : string) : string :=
  let host := match last_index ":" host with
              | Some n => if valid_optional_port (drop_bytes n host) then slice_to n host else host
              | None => host
              end in
  if has_prefix "[" host && has_prefix "]" (rev_string host) then String.substring 1 (String.length host - 2) host else host.

Inductive key_family := ECFamily | RSAFamily | OtherFamily.

Definition prefix_signed : list string := ["x509_san_dns:"; "x509_hash:"; "decentralized_identifier:"; "verifier_attestation:"].

(** The client identifier without its prefix. *)
Definition trim_prefix (p s : string) : string := default s (cut_prefix p s).

Section clientid.
Context {json : Json} {hash : Hash} {pki : Pki}.
Context (family : PubKey -> key_family) (DNSNames : X509Cert -> list string).

Abbreviation header_of ro := (default [] (ro_Header ro)).

(** The header of a request object, if there is one and it is not nil. *)
Definition object_header (reqObj : option RequestObjectJWT) : option object := ro ← reqObj; ro_Header ro.

Definition extractLeafCert (reqObj : option RequestObjectJWT) : result why X509Cert :=
  match object_header reqObj with
  | None => Err (Text "OID4VP 1.0 §5.9.3: client_id uses an x509 prefix but the request object has no x5c header")
  | Some header =>
      match get_arr header "x5c" with
      | [] => Err (Text "OID4VP 1.0 §5.9.3: client_id uses an x509 prefix but the x5c header is empty or missing")
      | entry :: _ =>
          match entry with
          | VString leafB64 =>
              match DecodeBase64Std leafB64 with
              | None => Err (Text "client_id uses x509 scheme but failed to decode x5c[0]: %v")
              | Some der => match ParseCertificate der with
                            | None => Err (Text "client_id uses x509 scheme but failed to parse leaf certificate: %v")
                            | Some cert => Ok cert
                            end
              end
          | _ => Err (Text "client_id uses x509 scheme but x5c[0] is not a string")
          end
      end
  end.

Fixpoint x5c_chain (i : Z) (l : list value) : result why (list X509Cert) :=
  match l with
  | [] => Ok []
  | VString b64 :: l =>
      match DecodeBase64Std b64 with
      | None => Err (Fmt "failed to decode Request Object x5c[%d]: %v" [Text (itoa i)])
      | Some der => match ParseCertificate der with
                    | None => Err (Fmt "failed to parse Request Object x5c[%d]: %v" [Text (itoa i)])
                    | Some cert => let? rest := x5c_chain (i + 1) l in Ok (cert :: rest)
                    end
      end
  | _ :: _ => Err (Fmt "Request Object x5c[%d] is not a string" [Text (itoa i)])
  end.

Definition extractCertChain (reqObj : option RequestObjectJWT) : result why (list X509Cert) :=
  match get_arr (default [] (object_header reqObj)) "x5c" with
  | [] => Err (Text "OID4VP 1.0 §5.9.3: Request Object signature verification requires an x5c header")
  | l => x5c_chain 0 l
  end.

(** The chain proves itself with its last certificate as root. *)
Definition verifySuppliedX5CChain (certs : list X509Cert) : option why :=
  match certs with
  | leaf :: (_ :: _) as rest =>
      if chain_verifies (option_list (last rest)) (removelast rest) leaf then None
      else Some (Text "Request Object x5c chain is not internally consistent: %v")
  | _ => None
  end.

Definition clientIDVerifiesViaX5C (clientID : string) : bool := has_prefix "x509_san_dns:" clientID || has_prefix "x509_hash:" clientID.

Definition unverifiedSignatureFinding (clientID : string) : option why :=
  if has_prefix "decentralized_identifier:" clientID
  then Some (Fmt "Request Object signature was not verified: decentralized_identifier: resolves its key through the DID %s, which this wallet does not resolve"
               [Text (trim_prefix "decentralized_identifier:" clientID)])
  else if has_prefix "verifier_attestation:" clientID
  then Some (Text "Request Object signature was not verified: verifier_attestation: carries its key in the cnf claim of the Verifier Attestation JWT, which this wallet does not read")
  else if has_prefix "openid_federation:" clientID
  then Some (Text "Request Object signature was not verified: openid_federation: resolves its key through an OpenID Federation trust chain, which this wallet does not resolve")
  else if has_prefix "redirect_uri:" clientID || (clientID =? "")%string then None
  else Some (Fmt "Request Object signature was not verified: client_id %q carries no Client Identifier Prefix, so its key would have been pre-registered with this wallet, and nothing is" [Text clientID]).

Definition VerifyRequestObjectSignature (clientID : string) (reqObj : option RequestObjectJWT) : option why :=
  match reqObj with
  | None => None
  | Some ro =>
      if (ro_Raw ro =? "")%string then Some (Text "Request Object signature cannot be verified because the raw JWT is unavailable")
      else match ro_Header ro with
      | None => Some (Text "Request Object has no header")
      | Some header =>
          let alg := get_string header "alg" in
          if (alg =? "")%string then Some (Fmt "Request Object has unsupported signing algorithm %q" [Text alg])
          else if (alg =? "none")%string then None
          else match get_arr header "x5c" with
          | [] => if clientIDVerifiesViaX5C clientID
                  then Some (Text "OID4VP 1.0 §5.9.3: Request Object signature verification requires an x5c header")
                  else unverifiedSignatureFinding clientID
          | _ =>
              match extractCertChain reqObj with
              | Err e => Some e
              | Ok certs =>
                  match verifySuppliedX5CChain certs, certs with
                  | Some e, _ => Some e
                  | None, [] => None
                  | None, leaf :: _ =>
                      if negb (count "."%char (ro_Raw ro) =? 2)%nat then Some (Text "Request Object is not a compact JWS")
                      else if jws_Valid (ro_Raw ro) (cert_PublicKey leaf) then None
                      else Some (Text "OID4VP 1.0 §5.9.3: Request Object signature verification failed: %v")
                  end
              end
          end
      end
  end.

(** ** The client identifier *)

Definition verifyX509SAN (clientID : string) (reqObj : option RequestObjectJWT) (responseURI requestOrigin : string) : option why :=
  let expected := trim_prefix "x509_san_dns:" clientID in
  match extractLeafCert reqObj with
  | Err e => Some e
  | Ok cert =>
      if negb (contains (DNSNames cert) expected)
      then Some (Fmt "OID4VP 1.0 §5.9.3: client_id expects DNS SAN %q but the leaf certificate has DNSNames=%v" [Text expected; Text (join " " (DNSNames cert))])
      else if (requestOrigin =? "")%string && negb (responseURI =? "")%string then
        let bad := Some (Fmt "OID4VP 1.0 §5.9.3: the response goes to %q, whose host does not match the x509_san_dns client_id %q" [Text responseURI; Text expected]) in
        match url_Parse responseURI with
        | None => bad
        | Some u => if EqualFold (Hostname (u_Host u)) expected then None else bad
        end
      else None
  end.

Definition verifyX509Hash (clientID : string) (reqObj : option RequestObjectJWT) : option why :=
  match DecodeBase64URL (trim_prefix "x509_hash:" clientID) with
  | None => Some (Text "OID4VP 1.0 §5.9.3: the x509_hash client_id value is not valid base64url: %v")
  | Some expected =>
      match extractLeafCert reqObj with
      | Err e => Some e
      | Ok cert => if (expected =? sha256 (cert_Raw cert))%string then None
                   else Some (Text "OID4VP 1.0 §5.9.3: the SHA-256 of the leaf certificate does not match the x509_hash client_id")
      end
  end.

Definition verifyRedirectURI (clientID : string) (reqObj : option RequestObjectJWT) (responseURI : string) : option why :=
  let expected := trim_prefix "redirect_uri:" clientID in
  if match object_header reqObj with Some header => negb (get_string header "alg" =? "none")%string | None => false end
  then Some (Text "OID4VP 1.0 §5.9.3: the redirect_uri: prefix MUST NOT be used with a signed request object")
  else if negb (responseURI =? "")%string && negb (expected =? responseURI)%string
  then Some (Fmt "OID4VP 1.0 §5.9.3: the redirect_uri: prefix value %q does not match response_uri %q" [Text expected; Text responseURI])
  else None.

Definition verifyVerifierAttestation (clientID : string) (reqObj : option RequestObjectJWT) : option why :=
  match object_header reqObj with
  | None => Some (Text "OID4VP 1.0 §5.9.3: verifier_attestation: requires a signed Request Object")
  | Some header =>
      let jwt := get_string header "jwt" in
      if (jwt =? "")%string
      then Some (Text "OID4VP 1.0 §5.9.3: verifier_attestation: the Request Object must carry a 'jwt' header with the Verifier Attestation JWT")
      else if negb (isJWT jwt)
      then Some (Text "OID4VP 1.0 §5.9.3: verifier_attestation: the 'jwt' header value is not a valid JWT (expected 3 dot-separated parts)")
      else match ParseJWTParts jwt with
           | Err _ => Some (Text "OID4VP 1.0 §5.9.3: verifier_attestation: the Verifier Attestation JWT does not parse: %v")
           | Ok p =>
               let expected := trim_prefix "verifier_attestation:" clientID in
               let sub := get_string (jp_payload p) "sub" in
               if negb (sub =? "")%string && negb (sub =? expected)%string
               then Some (Fmt "OID4VP 1.0 §5.9.3: verifier_attestation: the Attestation JWT sub %q does not match the client_id value %q" [Text sub; Text expected])
               else None
           end
  end.

Definition is_did (did : string) : bool :=
  match split_n 3 ":"%char did with
  | [scheme; method; id] => (scheme =? "did")%string && negb (method =? "")%string && negb (id =? "")%string
  | _ => false
  end.

Definition verifyDecentralizedIdentifier (clientID : string) (reqObj : option RequestObjectJWT) : option why :=
  let did := trim_prefix "decentralized_identifier:" clientID in
  if negb (is_did did)
  then Some (Fmt "OID4VP 1.0 §5.9.3: decentralized_identifier: value %q is not a valid DID (expected did:method:identifier)" [Text did])
  else match object_header reqObj with
       | None => Some (Text "OID4VP 1.0 §5.9.3: decentralized_identifier: requires a signed Request Object")
       | Some header =>
           let kid := get_string header "kid" in
           if negb (kid =? "")%string && negb (has_prefix did kid)
           then Some (Fmt "OID4VP 1.0 §5.9.3: decentralized_identifier: the Request Object kid %q does not reference the DID %q" [Text kid; Text did])
           else None
       end.

Definition VerifyClientID (clientID : string) (reqObj : option RequestObjectJWT) (responseURI requestOrigin : string) : option why :=
  if has_prefix "x509_san_dns:" clientID then verifyX509SAN clientID reqObj responseURI requestOrigin
  else if has_prefix "x509_hash:" clientID then verifyX509Hash clientID reqObj
  else if has_prefix "origin:" clientID
  then Some (Text "OID4VP 1.0 §5.9.3: origin: is a reserved Client Identifier Prefix and MUST NOT be accepted in a request")
  else if has_prefix "openid_federation:" clientID then Some (Text "openid_federation: client_id is not supported by this wallet")
  else if has_prefix "redirect_uri:" clientID then verifyRedirectURI clientID reqObj responseURI
  else if has_prefix "verifier_attestation:" clientID then verifyVerifierAttestation clientID reqObj
  else if has_prefix "decentralized_identifier:" clientID then verifyDecentralizedIdentifier clientID reqObj
  else None.

(** ** The request object *)

Definition prefixRequiresSigning (clientID : string) : bool := existsb (fun p => has_prefix p clientID) prefix_signed.

Definition verifyAlgMatchesCert (reqObj : option RequestObjectJWT) : option why :=
  let alg := get_string (default [] (object_header reqObj)) "alg" in
  if (alg =? "")%string then None
  else match extractLeafCert reqObj with
       | Err _ => None
       | Ok cert =>
           match family <$> cert_PublicKey cert with
           | Some ECFamily =>
               if has_prefix "ES" alg then None else Some (Fmt "Request Object alg %q is not compatible with EC key in x5c certificate" [Text alg])
           | Some RSAFamily =>
               if has_prefix "RS" alg || has_prefix "PS" alg then None
               else Some (Fmt "Request Object alg %q is not compatible with RSA key in x5c certificate" [Text alg])
           | _ => None
           end
       end.

Definition ValidateRequestObject (clientID : string) (reqObj : option RequestObjectJWT) : option why :=
  match reqObj with
  | None =>
      if prefixRequiresSigning clientID
      then Some (Text "OID4VP 1.0 §5.9.3: the client_id prefix requires a signed Request Object but none was provided") else None
  | Some ro =>
      match ro_Header ro with
      | None => Some (Text "Request Object has no header")
      | Some header =>
          let alg := get_string header "alg" in
          let typ := get_string header "typ" in
          if (alg =? "none")%string && prefixRequiresSigning clientID
          then Some (Text "OID4VP 1.0 §5.9.3: the client_id prefix requires a signed Request Object but the Request Object is unsigned")
          else if (typ =? "")%string
          then (if (alg =? "none")%string then None
                else Some (Text "OID4VP 1.0 §5: the Request Object is missing the required typ header 'oauth-authz-req+jwt'"))
          else if negb (typ =? "oauth-authz-req+jwt")%string
          then Some (Fmt "OID4VP 1.0 §5: the Request Object has typ %q, required is 'oauth-authz-req+jwt'" [Text typ])
          else verifyAlgMatchesCert reqObj
      end
  end.

(** Whether the signature verified with the key in the request, and why not. *)
Definition clientAuthState (clientID : string) (reqObj : option RequestObjectJWT) : bool * option why :=
  match reqObj with
  | None => (false, Some (Text "The request was not a signed request object."))
  | Some ro =>
      if (get_string (default [] (ro_Header ro)) "alg" =? "none")%string then (false, Some (Text "The request object is unsigned (alg none)."))
      else match VerifyRequestObjectSignature clientID reqObj with
           | Some finding => (false, Some finding)
           | None => (true, None)
           end
  end.
End clientid.
