(* ===== verification/RequestChecks.v ===== *)
(** * RequestChecks: the form of an authorization request

    src/internal/wallet: validation.go (the syntax and the OpenID4VP findings),
    haip.go (the HAIP profile of requests and issuers), client_metadata.go, the
    choice of the response encryption key in presentation_encrypt.go, the
    response types of idtoken.go, and internal/netaddr.  The parameters of a
    request are those of server_auth.go. *)

From stdpp Require Import base list strings gmap.
From Stdlib Require Import ZArith Lia Ascii.
From S2P Require Import Prelude GoStrings GoValue Format Validity DCQL Present SDJWT Certs Requests ClientAuth GoMap.

Local Open Scope Z_scope.

(** ** server_auth.go *)

(** [ap_RelyingPartyCAs] and the two lists after it are the anchors of the ARF
    checks.  A nil map is [None]. *)
Record AuthorizationRequestParams `{Pki} := mkAuthParams {
  ap_ClientID : string; ap_ResponseType : string; ap_ResponseMode : string; ap_Nonce : string; ap_State : string;
  ap_RequestOrigin : string; ap_RedirectURI : string; ap_ResponseURI : string; ap_Scope : string;
  ap_RequestURIMethod : string; ap_RequestURI : string; ap_ClientMetadata : option object; ap_DCQLQuery : option object;
  ap_RequestObject : option RequestObjectJWT; ap_RequestPayload : option object; ap_FullParams : gmap string string;
  ap_UnsignedDCAPI : bool;
  ap_RelyingPartyCAs : list X509Cert; ap_RegistrarCAs : list X509Cert; ap_RegistrationStatusCAs : list X509Cert }.

Definition RequestPayload (reqObj : option RequestObjectJWT) (fallback : option object) : option object :=
  match (ro ← reqObj; ro_Payload ro) with Some p => Some p | None => fallback end.

Definition authorizationParams `{Pki} (p : AuthorizationRequest) : AuthorizationRequestParams :=
  mkAuthParams _ (ar_ClientID p) (ar_ResponseType p) (ar_ResponseMode p) (ar_Nonce p) (ar_State p) "" (ar_RedirectURI p)
    (ar_ResponseURI p) (ar_Scope p) (ar_RequestURIMethod p) (ar_RequestURI p) (ar_ClientMetadata p) (ar_DCQLQuery p)
    (ar_RequestObject p) (RequestPayload (ar_RequestObject p) (ar_FullJSON p)) (ar_FullParams p) false [] [] [].

(** ** idtoken.go *)

Definition ResponseTypeContains (responseType target : string) : bool := contains (fields responseType) target.

Definition ResponseTypeRequiresVP (responseType : string) : bool :=
  (responseType =? "")%string || ResponseTypeContains responseType "vp_token".

Definition isDCAPIResponseMode (mode : string) : bool := (mode =? "dc_api")%string || (mode =? "dc_api.jwt")%string.

Definition presentationAudience `{Pki} (params : AuthorizationRequestParams) : string :=
  if isDCAPIResponseMode (ap_ResponseMode params) && negb (ap_RequestOrigin params =? "")%string
  then "origin:" +:+ ap_RequestOrigin params else ap_ClientID params.

(** ** client_metadata.go

    A nil error is [None].  The order of a [range] over a map decides which of
    several errors is reported; the model takes the order of the object. *)

Definition ResolveClientMetadata (reqPayload outer : option object) : option object :=
  match reqPayload with
  | Some p => match as_obj (index p "client_metadata") with Some m => Some m | None => outer end
  | None => outer
  end.

Definition isJSONNumber (v : value) : bool :=
  match v with
  | VFloat _ | VFloat32 _ => true
  | VInt k _ => match k with KInt | KInt8 | KInt16 | KInt32 | KInt64 => true | _ => false end
  | _ => false
  end.

(** The first entry that fails, with its position. *)
Fixpoint first_failing {A} (ok : A -> bool) (i : Z) (l : list A) : option Z :=
  match l with [] => None | x :: l => if ok x then first_failing ok (i + 1) l else Some i end.

Definition is_string (v : value) : bool := match v with VString _ => true | _ => false end.

Definition validateFormatAlgValuesSupported (formatName : string) (raw : value) : option why :=
  match raw with
  | VNil => None
  | VArr values =>
      if (formatName =? "mso_mdoc")%string
      then (i ← first_failing isJSONNumber 0 values;
            Some (Fmt "client_metadata.vp_formats_supported.%s.alg_values_supported[%d] must be a COSE algorithm number" [Text formatName; Text (itoa i)]))
      else (i ← first_failing is_string 0 values;
            Some (Fmt "client_metadata.vp_formats_supported.%s.alg_values_supported[%d] must be a string" [Text formatName; Text (itoa i)]))
  | _ => Some (Fmt "client_metadata.vp_formats_supported.%s.alg_values_supported must be an array" [Text formatName])
  end.

Definition format_entry (e : string * value) : option why :=
  match as_obj e.2 with
  | None => Some (Fmt "client_metadata.vp_formats_supported.%s must be an object" [Text e.1])
  | Some formatMeta => validateFormatAlgValuesSupported e.1 (index formatMeta "alg_values_supported")
  end.

Definition validateVPFormatsSupported (raw : value) : option why :=
  match raw with
  | VNil => None
  | VObj formats => find_map format_entry formats
  | _ => Some (Text "client_metadata.vp_formats_supported must be an object")
  end.

Definition validateStringArrayField (clientMeta : object) (field : string) : option why :=
  match index clientMeta field with
  | VNil => None
  | VArr values =>
      i ← first_failing is_string 0 values; Some (Fmt "client_metadata.%s[%d] must be a string" [Text field; Text (itoa i)])
  | _ => Some (Fmt "client_metadata.%s must be an array" [Text field])
  end.

Definition is_object (v : value) : bool := match v with VObj _ => true | _ => false end.

Definition validateJWKSField (raw : value) : option why :=
  match raw with
  | VNil => None
  | VObj jwks =>
      match get "keys" jwks with
      | None => Some (Text "client_metadata.jwks.keys must be present")
      | Some (VArr keyList) =>
          i ← first_failing is_object 0 keyList; Some (Fmt "client_metadata.jwks.keys[%d] must be an object" [Text (itoa i)])
      | Some _ => Some (Text "client_metadata.jwks.keys must be an array")
      end
  | _ => Some (Text "client_metadata.jwks must be an object")
  end.

(** The first error of a sequence of checks. *)
Definition first_error (checks : list (option why)) : option why := find_map id checks.

Definition ValidateClientMetadata (clientMeta : option object) : option why :=
  match clientMeta with
  | None | Some [] => None
  | Some m =>
      first_error [validateVPFormatsSupported (index m "vp_formats_supported");
                   validateStringArrayField m "encrypted_response_enc_values_supported";
                   validateStringArrayField m "authorization_encryption_alg_values_supported";
                   validateJWKSField (index m "jwks")]
  end.

(** ** presentation_encrypt.go: the verifier's encryption key *)

Definition encryptableKeyMaterial (jwk : object) : bool :=
  let kty := get_string jwk "kty" in
  let has k := negb (get_string jwk k =? "")%string in
  if (kty =? "EC")%string then
    match as_string (index jwk "crv") with Some crv => (crv =? "P-256")%string | None => true end && has "x" && has "y"
  else if (kty =? "RSA")%string then has "n" && has "e"
  else false.

Definition usableEncryptionJWK (jwk : object) : bool :=
  match as_string (index jwk "use") with Some use => (use =? "enc")%string | None => true end && encryptableKeyMaterial jwk.

Definition jwks_keys (jwksVal : value) : list object :=
  match as_obj jwksVal with
  | None => []
  | Some jwks => filter_map as_obj (get_arr jwks "keys")
  end.

(** An EC key before any other. *)
Definition firstJWK (jwksVal : value) : option object :=
  let usable := filter (fun jwk => usableEncryptionJWK jwk = true) (jwks_keys jwksVal) in
  match find (fun jwk => (get_string jwk "kty" =? "EC")%string) usable with
  | Some jwk => Some jwk
  | None => head usable
  end.

Definition firstSigningOnlyEncryptionJWK (jwksVal : value) : option object :=
  find (fun jwk => (get_string jwk "use" =? "sig")%string && encryptableKeyMaterial jwk) (jwks_keys jwksVal).

Definition encryptionJWKS (reqObj : option RequestObjectJWT) (clientMetadata : option object) : value :=
  match (ro ← reqObj; p ← ro_Payload ro; as_obj (index p "client_metadata")) with
  | Some clientMeta => index clientMeta "jwks"
  | None => match clientMetadata with Some m => index m "jwks" | None => VNil end
  end.

Definition findEncryptionJWK (reqObj : option RequestObjectJWT) (clientMetadata : option object) : option object :=
  firstJWK (encryptionJWKS reqObj clientMetadata).

(** ** internal/netaddr

    [ip_loopback]: [netip.ParseAddr] succeeds and the address, unmapped, is a
    loopback address. *)

Definition DockerHost : string := "host.docker.internal".

Definition trim_suffix (p s : string) : string :=
  match cut_prefix (rev_string p) (rev_string s) with Some r => rev_string r | None => s end.

Definition normalize (host : string) : string := trim_suffix "." (to_lower (trim_space host)).

(** [strings.Trim(host, "[]")] *)
Fixpoint trim_left_brackets (s : string) : string :=
  match s with
  | String c s' => if Ascii.eqb c "[" || Ascii.eqb c "]" then trim_left_brackets s' else s
  | "" => ""
  end.
Definition trim_brackets (s : string) : string := rev_string (trim_left_brackets (rev_string (trim_left_brackets s))).

Section netaddr.
Context (ip_loopback : string -> bool).

Definition IsLoopback (host : string) : bool :=
  let host := normalize host in (host =? "localhost")%string || ip_loopback (trim_brackets host).

Definition IsLocal (host : string) : bool := IsLoopback host || (normalize host =? DockerHost)%string.
End netaddr.

(** ** validation.go *)

Definition requestRequiresNonce (responseType : string) : bool :=
  (responseType =? "")%string || ResponseTypeRequiresVP responseType || ResponseTypeContains responseType "id_token".

Definition responseModeUsesDirectPost (mode : string) : bool := (mode =? "direct_post")%string || (mode =? "direct_post.jwt")%string.

Definition known_prefixes : list string :=
  ["x509_san_dns:"; "x509_hash:"; "redirect_uri:"; "verifier_attestation:"; "decentralized_identifier:"].

Definition has_colon (s : string) : bool := (0 <? count ":"%char s)%nat.

Definition hasKnownClientIDPrefix (clientID : string) : bool :=
  negb (has_colon clientID) || existsb (fun p => has_prefix p clientID) known_prefixes.

Definition payloadHasKey (payload : option object) (key : string) : bool :=
  match payload with None => false | Some p => bool_decide (is_Some (get key p)) end.

Definition stringValues (raw : value) : list string :=
  match raw with
  | VArr entries => if forallb is_string entries then strings_of entries else []
  | _ => []
  end.

Definition validateRequestURIMethod (method : string) : option why :=
  if contains [""; "get"; "post"] method then None else Some (Fmt "unsupported request_uri_method %q" [Text method]).

Fixpoint response_types (responseType : string) (seen parts : list string) : option why :=
  match parts with
  | [] => None
  | part :: parts =>
      if contains ["vp_token"; "id_token"] part then
        if contains seen part then Some (Fmt "response_type %q contains duplicate %q" [Text responseType; Text part])
        else response_types responseType (part :: seen) parts
      else Some (Fmt "unsupported response_type value %q" [Text part])
  end.

Definition validateResponseType (responseType : string) : option why :=
  if (responseType =? "")%string then None else response_types responseType [] (fields responseType).

Definition validateResponseMode (responseMode responseURI redirectURI : string) : option why :=
  if contains [""; "direct_post"; "direct_post.jwt"] responseMode then
    if negb (responseMode =? "")%string && (responseURI =? "")%string
    then Some (Fmt "response_mode %q requires response_uri" [Text responseMode]) else None
  else if contains ["dc_api"; "dc_api.jwt"; "ia_post"; "ia_post.jwt"] responseMode then None
  else if (responseMode =? "fragment")%string then
    if (redirectURI =? "")%string then Some (Fmt "response_mode %q requires redirect_uri" [Text responseMode]) else None
  else Some (Fmt "unsupported response_mode %q" [Text responseMode]).

Section checks.
Context {pki : Pki}.

Definition validateAbsoluteURI (field raw : string) : option why :=
  if (raw =? "")%string then None
  else
    let relative := Some (Fmt "%s must be an absolute URI" [Text field]) in
    match url_Parse raw with
    | None => relative
    | Some u =>
        if (u_Scheme u =? "")%string then relative
        else if contains ["http"; "https"] (to_lower (u_Scheme u)) then None
        else Some (Fmt "%s must use http or https, got scheme %q" [Text field; Text (u_Scheme u)])
    end.

(** [RequestObject == nil] *)
Definition no_object (reqObj : option RequestObjectJWT) : bool := match reqObj with None => true | Some _ => false end.

Definition unsignedInteractiveAuthorizationRequest (params : AuthorizationRequestParams) : bool :=
  isInteractiveAuthorizationResponseMode (ap_ResponseMode params) && no_object (ap_RequestObject params).

Definition validateAuthorizationRequestSyntax (params : option AuthorizationRequestParams) : option why :=
  match params with
  | None => Some (Text "authorization request is missing")
  | Some p =>
      if (ap_ClientID p =? "")%string && negb (ap_UnsignedDCAPI p) && negb (unsignedInteractiveAuthorizationRequest p)
      then Some (Text "missing client_id")
      else first_error [validateResponseType (ap_ResponseType p);
                        validateResponseMode (ap_ResponseMode p) (ap_ResponseURI p) (ap_RedirectURI p);
                        validateRequestURIMethod (ap_RequestURIMethod p);
                        validateAbsoluteURI "response_uri" (ap_ResponseURI p);
                        validateAbsoluteURI "redirect_uri" (ap_RedirectURI p)]
  end.

(** The empty text is [None]. *)
Definition expectedOriginsFinding (params : AuthorizationRequestParams) (payload : option object) : option why :=
  let origin := ap_RequestOrigin params in
  let expected := index (default [] payload) "expected_origins" in
  if (origin =? "")%string then None
  else if isInteractiveAuthorizationResponseMode (ap_ResponseMode params) then
    if negb (payloadHasKey payload "expected_origins") || bool_decide (stringValues expected = [origin]) then None
    else Some (Fmt "OID4VCI 1.1 §6.2.1.1: expected_origins must contain only %q, the origin of the authorization challenge endpoint, and contains %v"
                 [Text origin; Text (Sprint expected)])
  else if isDCAPIResponseMode (ap_ResponseMode params) && negb (ap_UnsignedDCAPI params) then
    if contains (stringValues expected) origin then None
    else Some (Fmt "OID4VP 1.0 Appendix A.2: expected_origins must include the caller origin %q" [Text origin])
  else None.

(** The text of a finding on the query. *)
Definition finding_text (f : finding) : why :=
  match f with
  | CredentialsRequired => Text "OID4VP 1.0 §6: dcql_query.credentials is required and must be a non-empty array"
  | NotAnObject i => Fmt "OID4VP 1.0 §6: dcql_query.credentials[%d] must be an object" [Text (itoa i)]
  | BadIdentifier i id =>
      Fmt "OID4VP 1.0 §6.1: dcql_query.credentials[%d].id must be a non-empty string of alphanumeric, underscore or hyphen characters, got %q" [Text (itoa i); Text id]
  | DuplicateIdentifier id => Fmt "OID4VP 1.0 §6.1: the credential query id %q is present more than once" [Text id]
  | MissingFormat label => Fmt "OID4VP 1.0 §6.1: the credential query %q is missing the required format" [Text label]
  | MultipleNotBool label => Fmt "OID4VP 1.0 §6.1: the credential query %q has a multiple that is not a boolean" [Text label]
  | BindingNotBool label =>
      Fmt "OID4VP 1.0 §6.1: the credential query %q has a require_cryptographic_holder_binding that is not a boolean" [Text label]
  | MissingMeta label =>
      Fmt "OID4VP 1.0 §6.1: the credential query %q is missing the required meta (use an empty object to place no constraints)" [Text label]
  | MetaNotObject label => Fmt "OID4VP 1.0 §6.1: the credential query %q has a meta that is not an object" [Text label]
  end.

Definition found (b : bool) (w : why) : list why := if b then [w] else [].

Definition query_or_scope (params : AuthorizationRequestParams) : list why :=
  if ResponseTypeRequiresVP (ap_ResponseType params) then
    match ap_DCQLQuery params, (trim_space (ap_Scope params) =? "")%string with
    | Some _, false => [Text "OID4VP 1.0 §5.1: dcql_query and scope must not both be present"]
    | None, true => [Text "OID4VP 1.0 §5.1: a vp_token request must carry either dcql_query or scope"]
    | _, _ => []
    end
  else [].

Definition authorizationFindings (params : AuthorizationRequestParams) (payload : option object) : list why :=
  found (negb (hasKnownClientIDPrefix (ap_ClientID params)))
    (Fmt "OID4VP 1.0 §5.9.3: client_id uses an unsupported prefix: %q" [Text (ap_ClientID params)])
  ++ found (requestRequiresNonce (ap_ResponseType params) && (ap_Nonce params =? "")%string) (Text "OID4VP 1.0 §5.2: nonce is required")
  ++ found (responseModeUsesDirectPost (ap_ResponseMode params) && negb (ap_RedirectURI params =? "")%string)
       (Fmt "OID4VP 1.0 §8.2: redirect_uri must not be used with response_mode %q" [Text (ap_ResponseMode params)])
  ++ query_or_scope params
  ++ map finding_text (DCQLQueryFindings (ap_DCQLQuery params))
  ++ found (payloadHasKey payload "transaction_data") (Text "OID4VP 1.0 §5.1: transaction_data is not supported by this wallet")
  ++ option_list (expectedOriginsFinding params payload).

(** ** haip.go *)

Definition haipContentEncryptionAlgorithms (metadata : object) : list string :=
  strings_of (get_arr metadata "encrypted_response_enc_values_supported").

Definition haipClientMetadataViolations (metadata : option object) : list why :=
  match metadata with
  | None => []
  | Some m =>
      let listed := contains (haipContentEncryptionAlgorithms m) in
      found (negb (listed "A128GCM") && negb (listed "A256GCM"))
        (Text "HAIP 1.0 §5: client metadata MUST list both 'A128GCM' and 'A256GCM' in encrypted_response_enc_values_supported, and lists neither")
  end.

Definition HAIPAdvisories (params : AuthorizationRequestParams) : list why :=
  match ap_ClientMetadata params with
  | None => []
  | Some m =>
      if isInteractiveAuthorizationResponseMode (ap_ResponseMode params) then []
      else
        let listed := contains (haipContentEncryptionAlgorithms m) in
        found (xorb (listed "A128GCM") (listed "A256GCM"))
          (Text "HAIP 1.0 §5: client metadata MUST list both 'A128GCM' and 'A256GCM' in encrypted_response_enc_values_supported")
  end.

Definition haipCredentialFormatViolations (query : option object) : list why :=
  flat_map (fun credential =>
    let format := get_string credential "format" in
    found (negb (contains ["mso_mdoc"; "dc+sd-jwt"] format))
      (Fmt "HAIP 1.0 §5.3.1/§5.3.2: credential format MUST be 'mso_mdoc' or 'dc+sd-jwt', got %q" [Text format]))
    (filter_map as_obj (get_arr (default [] query) "credentials")).

Definition haipEncryptionKeyViolations (reqObj : option RequestObjectJWT) (clientMetadata : option object) : list why :=
  match findEncryptionJWK reqObj clientMetadata with
  | None => []
  | Some jwk =>
      let kty := get_string jwk "kty" in
      if negb (kty =? "")%string && negb (kty =? "EC")%string
      then [Fmt "HAIP 1.0 §5: response encryption key MUST be an EC key on P-256 (ECDH-ES), got kty %q" [Text kty]]
      else match as_string (index jwk "crv") with
           | Some crv => found (negb (crv =? "P-256")%string)
                           (Fmt "HAIP 1.0 §5: response encryption key MUST be on the P-256 curve, got %q" [Text crv])
           | None => []
           end
  end.

(** The first self-signed certificate behind the leaf of a request. *)
Fixpoint request_self_signed_at (i : Z) (certs : list X509Cert) : list why :=
  match certs with
  | [] => []
  | cert :: certs =>
      if SelfSignedCertificate cert
      then [Fmt "HAIP 1.0 §5: the x5c header of the signed request carries a self-signed certificate at position %d (subject %q), where the certificate of the trust anchor MUST NOT be included"
              [Text (itoa (i + 2)); Text (cert_Subject cert)]]
      else request_self_signed_at (i + 1) certs
  end.

Definition haipSignedRequestViolations (reqObj : option RequestObjectJWT) : list why :=
  match object_header reqObj with
  | None => []
  | Some _ =>
      match extractCertChain reqObj with
      | Ok (leaf :: rest) =>
          found (SelfSignedCertificate leaf) (Text "HAIP 1.0 §5: the certificate signing the request MUST NOT be self-signed")
          ++ request_self_signed_at 0 rest
      | _ => []
      end
  end.

Definition ValidateHAIPCompliance (params : AuthorizationRequestParams) (reqObj : option RequestObjectJWT) : list why :=
  let mode := ap_ResponseMode params in
  let dcapi := isDCAPIResponseMode mode in
  let unsigned := ap_UnsignedDCAPI params || (no_object reqObj && dcapi) in
  let interactive := isInteractiveAuthorizationResponseMode mode in
  found (negb (ap_ResponseType params =? "vp_token")%string)
    (Fmt "HAIP 1.0 §5: response_type MUST be 'vp_token', got %q" [Text (ap_ResponseType params)])
  ++ found (negb interactive && negb (contains ["direct_post.jwt"; "dc_api.jwt"] mode))
       (Fmt "HAIP 1.0 §5.1/§5.2: response_mode MUST be 'direct_post.jwt' or 'dc_api.jwt', got %q" [Text mode])
  ++ (if negb unsigned && negb interactive then
        found (negb (has_prefix "x509_hash:" (ap_ClientID params)))
          (Fmt "HAIP 1.0 §5: a signed request MUST use the 'x509_hash:' Client Identifier Prefix, got %q" [Text (ap_ClientID params)])
        ++ found (match object_header reqObj with None => true | Some _ => false end)
             (Text "HAIP 1.0 §5.1: signed Request Object (JAR) MUST be used")
        ++ found (negb (no_object reqObj) && negb dcapi && (ap_RequestURI params =? "")%string)
             (Text "HAIP 1.0 §5.1: the signed Request Object MUST be delivered through the request_uri parameter")
        ++ haipSignedRequestViolations reqObj
      else [])
  ++ found (match ap_DCQLQuery params with None => true | Some _ => false end)
       (Text "HAIP 1.0 §5: DCQL query MUST be used (not presentation_definition)")
  ++ haipCredentialFormatViolations (ap_DCQLQuery params)
  ++ (if negb interactive then
        haipClientMetadataViolations (ap_ClientMetadata params)
        ++ haipEncryptionKeyViolations (ap_RequestObject params) (ap_ClientMetadata params)
      else []).

(** *** Issuance *)

Definition metadataListContains (meta : object) (key want : string) : bool := contains (strings_of (get_arr meta key)) want.

Definition interactiveAuthorizationEndpoint (oauthMeta : object) : string :=
  trim_space (get_string oauthMeta "authorization_challenge_endpoint").

Definition usesAuthorizationEndpoint (offer : CredentialOffer) : bool :=
  let g := Grants offer in
  if negb (AuthorizationCode g =? "")%string || negb (IssuerState g =? "")%string then true
  else (PreAuthorizedCode g =? "")%string.

Definition supportsAuthorizationCodeFlow (oauthMeta : object) : bool :=
  match get "grant_types_supported" oauthMeta with
  | Some _ => metadataListContains oauthMeta "grant_types_supported" "authorization_code"
  | None =>
      negb (interactiveAuthorizationEndpoint oauthMeta =? "")%string
      || negb (trim_space (get_string oauthMeta "authorization_endpoint") =? "")%string
  end.

(** A list that is declared and lacks the entry. *)
Definition declared_without (oauthMeta : object) (key want : string) : bool :=
  match get key oauthMeta with Some _ => negb (metadataListContains oauthMeta key want) | None => false end.

Context (ip_loopback : string -> bool).

Definition secureIssuerOrigin (issuer : string) : bool :=
  match url_Parse issuer with
  | None => false
  | Some u => (u_Scheme u =? "https")%string || (u_Scheme u =? "http")%string && IsLocal ip_loopback (Hostname (u_Host u))
  end.

Definition ValidateHAIPIssuanceCompliance (offer : option CredentialOffer) (oauthMeta : option object) : list why :=
  match offer with
  | None => [Text "HAIP 1.0: credential offer is missing"]
  | Some offer =>
      let issuer := trim_space (CredentialIssuer offer) in
      let violations := found (negb (issuer =? "")%string && negb (secureIssuerOrigin issuer))
                          (Fmt "OID4VCI 1.0 §12.2.1: the credential issuer must be an https URL, got %q" [Text issuer]) in
      if negb (usesAuthorizationEndpoint offer) then violations
      else match oauthMeta with
      | None => violations ++ [Text "HAIP 1.0 §4: the authorization server metadata could not be read"]
      | Some m =>
          violations
          ++ found (negb (supportsAuthorizationCodeFlow m)) (Text "HAIP 1.0 §4: the authorization server must support the authorization code flow")
          ++ found (negb (is_string (index m "pushed_authorization_request_endpoint")) && (interactiveAuthorizationEndpoint m =? "")%string)
               (Text "HAIP 1.0 §4: the authorization server must support pushed authorization requests")
          ++ found (declared_without m "code_challenge_methods_supported" "S256")
               (Text "HAIP 1.0 §4: the authorization server advertises PKCE without S256")
          ++ found (declared_without m "dpop_signing_alg_values_supported" "ES256")
               (Text "HAIP 1.0 §7: the authorization server advertises DPoP without ES256")
      end
  end.
End checks.
