(* ===== verification/Response.v ===== *)
(** * Response: building and sending an authorization response

    src/internal/wallet: presentation.go (the envelope of a response and its
    submission), presentation_encrypt.go (the verifier's key and the encrypted
    response), response.go (direct_post, direct_post.jwt, fragment, the answer of
    the verifier) and authorizationResponsePlaintext of logging.go.

    json.Marshal, crypto and HTTP are parameters; log lines are not modelled.
    Sending returns what was posted beside the result. *)

From stdpp Require Import base list strings gmap.
From Stdlib Require Import ZArith Lia Ascii.
From S2P Require Import Prelude GoStrings GoValue Format Validity SDJWT DCQL Present Certs IssuerAuth UriQuery Requests Jwe ClientAuth RequestChecks.

Local Open Scope Z_scope.

(** The parameters of a presentation, with those of its delivery. *)
Record ResponseParams := mkResponseParams {
  rp_Params : PresentationParams; rp_ResponseURI : string; rp_RedirectURI : string; rp_ClientMetadata : option object;
  rp_RequestObject : option RequestObjectJWT }.

Abbreviation rp_mode p := (pp_ResponseMode (rp_Params p)).

Record VPTokenMapResult := mkVPResult { TokenMap : gmap string (list string); vp_MDocNonce : string }.

(** [json.Marshal] writes the entries of a map in the order of their keys. *)
Definition VPToken (r : VPTokenMapResult) : value :=
  VObj (map (fun e => (e.1, string_list e.2)) (sorted_entries (TokenMap r))).

Definition nonempty_member (k v : string) : object := if (v =? "")%string then [] else [(k, VString v)].
Definition member (k : string) (v : option value) : object := match v with Some v => [(k, v)] | None => [] end.

Definition buildPlainAuthorizationResponse (vpToken : option value) (idToken state : string) : object :=
  nonempty_member "state" state ++ member "vp_token" vpToken ++ nonempty_member "id_token" idToken.

Definition buildPlainAuthorizationErrorResponse (errorCode errorDescription state : string) : object :=
  [("error", VString errorCode)]
  ++ (if (errorDescription =? "")%string then [] else [("error_description", VString (ErrorDescription errorDescription))])
  ++ nonempty_member "state" state.

Definition authorizationResponsePlaintext (plain : object) (responseMode : string) : object :=
  if isDCAPIResponseMode responseMode then List.filter (fun kv => negb (fst kv =? "state")%string) plain else plain.

Record AuthorizationResponseEnvelope := mkEnvelope {
  env_ResponseMode : string; env_Plain : object; env_ResponseJWT : string; env_CEK : string; env_RedirectURI : string }.

(** ** presentation_encrypt.go *)

(** An EC key or an RSA key. *)
Record encryptionKeyInfo `{JweCrypto} := mkKeyInfo { ek_Key : EcPub + RSAKey; ek_Kid : string; ek_Alg : string; ek_Finding : string }.

Definition joinFindings (findings : list string) : string := join ". " (List.filter (fun f => negb (f =? "")%string) findings).

Definition signing_key_used : string :=
  "verifier's key in client_metadata.jwks is marked " +:+ quoted "use" +:+ ":" +:+ quoted "sig"
  +:+ " (signing only). OID4VP 1.0 needs an encryption key for a direct_post.jwt response, so it was used for encryption".

(** The value a member of a JWK holds in its text. *)
Definition canonical_jwk (jwk : object) : option object :=
  let str k := get_string jwk k in
  let has k := negb (str k =? "")%string in
  if (str "kty" =? "EC")%string then
    if has "crv" && has "x" && has "y"
    then Some [("crv", VString (str "crv")); ("kty", VString "EC"); ("x", VString (str "x")); ("y", VString (str "y"))] else None
  else if (str "kty" =? "RSA")%string then
    if has "e" && has "n" then Some [("e", VString (str "e")); ("kty", VString "RSA"); ("n", VString (str "n"))] else None
  else None.

Section response.
Context {json : Json} {hash : Hash} {crypto : JweCrypto} {pki : Pki}.
Context (marshal_value : value -> option string).
Context (rand_bytes : nat -> option string).
(** The ephemeral key of an encryption. *)
Context (eph : option EcdhPriv).
(** [w.Mode()] *)
Context (mode : ValidationMode).

(** A nil thumbprint is the empty one. *)
Definition computeJWKThumbprint (jwk : object) : string :=
  match canonical_jwk jwk with
  | None => ""
  | Some canonical => match jwe_marshal canonical with Some canonicalJSON => sha256 canonicalJSON | None => "" end
  end.

Definition extractJWKThumbprint (reqObj : option RequestObjectJWT) (clientMetadata : option object) : string :=
  match findEncryptionJWK reqObj clientMetadata with Some jwk => computeJWKThumbprint jwk | None => "" end.

(** The chosen key, and the finding of the choice. *)
Definition choose_key (m : ValidationMode) (reqObj : option RequestObjectJWT) (clientMetadata : option object) : option (object * string) :=
  match findEncryptionJWK reqObj clientMetadata with
  | Some jwk => Some (jwk, "")
  | None =>
      if is_debug m then (cand ← firstSigningOnlyEncryptionJWK (encryptionJWKS reqObj clientMetadata); Some (cand, signing_key_used)) else None
  end.

Definition extractEncryptionKey (m : ValidationMode) (reqObj : option RequestObjectJWT) (clientMetadata : option object) :
  result why encryptionKeyInfo :=
  match choose_key m reqObj clientMetadata with
  | None => Err (Text "client_metadata.jwks carries no encryption key (OID4VP 1.0 requires one for an encrypted response)")
  | Some (jwk, selectionFinding) =>
      let kid := get_string jwk "kid" in
      let alg := get_string jwk "alg" in
      let kty := get_string jwk "kty" in
      if (alg =? "")%string then Err (Text "JWK missing required 'alg' parameter (OID4VP 1.0 requires alg in each JWK)")
      else if (kty =? "RSA")%string then
        match rsaPublicKeyFromJWK jwk with
        | Err e => Err (Fmt "constructing RSA key: %w" [e])
        | Ok rsaKey => Ok (mkKeyInfo _ (inr rsaKey) kid alg selectionFinding)
        end
      else if (kty =? "EC")%string then
        let x := get_string jwk "x" in
        let y := get_string jwk "y" in
        if (x =? "")%string || (y =? "")%string then Err (Text "missing x or y in JWK")
        else match ecdsaPublicKeyFromJWK m x y with
        | Err e => Err (Fmt "constructing EC key: %w" [e])
        | Ok (pubKey, finding) => Ok (mkKeyInfo _ (inl pubKey) kid alg (joinFindings [selectionFinding; finding]))
        end
      else Err (Fmt "unsupported encryption key type %q in client_metadata.jwks" [Text kty])
  end.

Definition HasEncryptionKey (reqObj : option RequestObjectJWT) : bool := is_ok (extractEncryptionKey Debug reqObj None).

Definition detectEncAlgorithm (reqObj : option RequestObjectJWT) (clientMetadata : option object) (fallback : string) : string :=
  let clientMeta := match (ro ← reqObj; p ← ro_Payload ro; as_obj (index p "client_metadata")) with
                    | Some m => m | None => default [] clientMetadata end in
  match get_arr clientMeta "encrypted_response_enc_values_supported" with
  | VString v :: _ => if (v =? "")%string then fallback else v
  | _ => fallback
  end.

(** The JWE and its content encryption key. *)
Definition encryptDirectPostJWTPayload (payload : object) (mdocNonce : string) (params : ResponseParams) : result why (string * string) :=
  match jwe_marshal payload with
  | None => Err (Text "marshaling response payload: %w")
  | Some payloadJSON =>
      match extractEncryptionKey mode (rp_RequestObject params) (rp_ClientMetadata params) with
      | Err e => Err (Fmt "extracting encryption key: %w" [e])
      | Ok keyInfo =>
          let enc := detectEncAlgorithm (rp_RequestObject params) (rp_ClientMetadata params) "A128GCM" in
          match ek_Key keyInfo with
          | inr rsaKey => EncryptJWERSA rand_bytes payloadJSON rsaKey (ek_Kid keyInfo) (ek_Alg keyInfo) enc
          | inl key =>
              let nonce := pp_Nonce (rp_Params params) in
              let apu := if (mdocNonce =? "")%string then None else Some mdocNonce in
              let apv := if (mdocNonce =? "")%string || (nonce =? "")%string then None else Some nonce in
              EncryptJWE rand_bytes eph payloadJSON key (ek_Kid keyInfo) (ek_Alg keyInfo) enc apu apv
          end
      end
  end.

Definition state_member (state responseMode : string) : object :=
  if isDCAPIResponseMode responseMode then [] else nonempty_member "state" state.

Definition response_payload (vpToken : option value) (idToken state responseMode : string) : object :=
  state_member state responseMode ++ member "vp_token" vpToken ++ nonempty_member "id_token" idToken.

Definition EncryptResponse (vpToken : option value) (idToken state mdocNonce : string) (params : ResponseParams) : result why (string * string) :=
  encryptDirectPostJWTPayload (response_payload vpToken idToken state (rp_mode params)) mdocNonce params.

Definition error_payload (errorCode errorDescription state responseMode : string) : object :=
  [("error", VString errorCode)]
  ++ (if (errorDescription =? "")%string then [] else [("error_description", VString (ErrorDescription errorDescription))])
  ++ state_member state responseMode.

Definition EncryptErrorResponse (errorCode errorDescription state : string) (params : ResponseParams) : result why (string * string) :=
  encryptDirectPostJWTPayload (error_payload errorCode errorDescription state (rp_mode params)) "" params.

(** ** response.go: the fragment *)

Definition appendFragmentParams (redirectURI : string) (params : values) : string :=
  let encoded := Values_Encode params in
  let '(base, existing, hadFragment) := cut "#" redirectURI in
  if negb hadFragment || (existing =? "")%string then base +:+ "#" +:+ encoded
  else if (encoded =? "")%string then redirectURI
  else base +:+ "#" +:+ existing +:+ "&" +:+ encoded.

(** [Values.Set] of a text that is not empty. *)
Definition set_nonempty (k v : string) (q : values) : values := if (v =? "")%string then q else <[k := [v]]> q.

Definition BuildFragmentRedirect (redirectURI state : string) (vpToken : option value) (idToken : string) : result why string :=
  let? fragment := match vpToken with
                   | None => Ok ∅
                   | Some v => match marshal_value v with
                               | None => Err (Text "marshaling vp_token: %w")
                               | Some tokenJSON => Ok {["vp_token" := [tokenJSON]]}
                               end
                   end in
  Ok (appendFragmentParams redirectURI (set_nonempty "state" state (set_nonempty "id_token" idToken fragment))).

Definition BuildFragmentErrorRedirect (redirectURI state errorCode errorDescription : string) : string :=
  let fragment := {["error" := [errorCode]]} in
  let fragment := if (errorDescription =? "")%string then fragment
                  else <["error_description" := [ErrorDescription errorDescription]]> fragment in
  appendFragmentParams redirectURI (set_nonempty "state" state fragment).

(** ** presentation.go: the envelope *)

Definition response_mode (params : ResponseParams) : string := if (rp_mode params =? "")%string then "direct_post" else rp_mode params.

Definition errFragmentWithoutRedirect : why := Text "response_mode fragment needs a redirect_uri".

Definition BuildAuthorizationResponse (vpResult : option VPTokenMapResult) (idToken state : string) (params : ResponseParams) :
  result why AuthorizationResponseEnvelope :=
  let vpToken := VPToken <$> vpResult in
  let mdocNonce := match vpResult with Some r => vp_MDocNonce r | None => "" end in
  let responseMode := response_mode params in
  let plain := buildPlainAuthorizationResponse vpToken idToken state in
  if contains ["direct_post.jwt"; "dc_api.jwt"; "ia_post.jwt"] responseMode then
    match EncryptResponse vpToken idToken state mdocNonce params with
    | Err e => Err (Fmt "encrypting response: %w" [e])
    | Ok (jwe, cek) => Ok (mkEnvelope responseMode (authorizationResponsePlaintext plain responseMode) jwe cek "")
    end
  else if (responseMode =? "fragment")%string then
    if (rp_RedirectURI params =? "")%string then Err errFragmentWithoutRedirect
    else match BuildFragmentRedirect (rp_RedirectURI params) state vpToken idToken with
    | Err e => Err (Fmt "building fragment redirect: %w" [e])
    | Ok redirectURL => Ok (mkEnvelope responseMode plain "" "" redirectURL)
    end
  else if contains ["direct_post"; "dc_api"; "ia_post"] responseMode then Ok (mkEnvelope responseMode plain "" "" "")
  else Err (Fmt "unsupported response_mode %q" [Text responseMode]).

Definition BuildAuthorizationErrorResponse (errorCode errorDescription state : string) (params : ResponseParams) :
  result why AuthorizationResponseEnvelope :=
  let responseMode := response_mode params in
  let plain := buildPlainAuthorizationErrorResponse errorCode errorDescription state in
  if isDCAPIResponseMode responseMode then Ok (mkEnvelope responseMode [("error", VString errorCode)] "" "" "")
  else if contains ["direct_post.jwt"; "ia_post.jwt"] responseMode then
    match EncryptErrorResponse errorCode errorDescription state params with
    | Err e => Err (Fmt "encrypting error response: %w" [e])
    | Ok (jwe, cek) => Ok (mkEnvelope responseMode plain jwe cek "")
    end
  else if (responseMode =? "fragment")%string then
    if (rp_RedirectURI params =? "")%string then Err errFragmentWithoutRedirect
    else Ok (mkEnvelope responseMode plain "" "" (BuildFragmentErrorRedirect (rp_RedirectURI params) state errorCode errorDescription))
  else if contains ["direct_post"; "ia_post"] responseMode then Ok (mkEnvelope responseMode plain "" "" "")
  else Err (Fmt "unsupported response_mode %q" [Text responseMode]).

(** ** Sending *)

(** A form posted to the verifier; the header is X-Debug-JWE-CEK. *)
Record posted := mkPosted { po_URL : string; po_Form : values; po_DebugCEK : option string }.

(** The status, the Location header and the body of the answer. *)
Context (post : posted -> result why (Z * string * result why string)).

Record DirectPostResult := mkDirectResult { dp_StatusCode : Z; dp_Body : string; dp_RedirectURI : string }.

Definition outcome : Type := list posted * result why DirectPostResult.

Definition form_entry (kv : string * value) (form : result why values) : result why values :=
  let? form := form in
  if (fst kv =? "vp_token")%string then
    match marshal_value (snd kv) with
    | None => Err (Text "marshaling vp_token: %w")
    | Some tokenJSON => Ok (<["vp_token" := [tokenJSON]]> form)
    end
  else if contains ["id_token"; "state"; "error"; "error_description"] (fst kv) then
    Ok (set_nonempty (fst kv) (default "" (as_string (snd kv))) form)
  else Ok form.

Definition directPostForm (payload : object) : result why values := fold_right form_entry (Ok ∅) payload.

(** The redirect_uri of the body, then the Location header. *)
Definition body_redirect (body : string) : string :=
  match unmarshal_object body with Some m => get_string m "redirect_uri" | None => "" end.

Definition applyVerifierResponse (status : Z) (location body : string) : result why DirectPostResult :=
  let fromBody := body_redirect body in
  match validateAbsoluteURI "redirect_uri" fromBody with
  | Some e => Err e
  | None =>
      if (location =? "")%string then Ok (mkDirectResult status body fromBody)
      else match validateAbsoluteURI "Location" location with
           | Some e => Err e
           | None => Ok (mkDirectResult status body location)
           end
  end.

Definition send (p : posted) : outcome :=
  ([p], match post p with
        | Err e => Err (Fmt "posting to response_uri: %w" [e])
        | Ok (status, location, body) =>
            match body with
            | Err e => Err (Fmt "reading response: %w" [e])
            | Ok body => applyVerifierResponse status location body
            end
        end).

Definition SubmitDirectPostObject (responseURI : string) (payload : object) : outcome :=
  match directPostForm payload with
  | Err e => ([], Err e)
  | Ok form => send (mkPosted responseURI form None)
  end.

Definition SubmitDirectPostJWT (responseURI responseJWT cek : string) : outcome :=
  send (mkPosted responseURI {["response" := [responseJWT]]} (if (cek =? "")%string then None else Some (EncodeBase64URL cek))).

(** What a built response does. *)
Definition deliver (response : result why AuthorizationResponseEnvelope) (responseURI : string) : outcome :=
  match response with
  | Err e => ([], Err e)
  | Ok r =>
      let m := env_ResponseMode r in
      if (m =? "direct_post.jwt")%string then SubmitDirectPostJWT responseURI (env_ResponseJWT r) (env_CEK r)
      else if (m =? "fragment")%string then ([], Ok (mkDirectResult 302 "" (env_RedirectURI r)))
      else if (m =? "direct_post")%string then SubmitDirectPostObject responseURI (env_Plain r)
      else if isDCAPIResponseMode m
      then ([], Err (Fmt "response_mode %q must be returned via Browser API, not direct submission" [Text m]))
      else if isInteractiveAuthorizationResponseMode m
      then ([], Err (Fmt "response_mode %q goes back to the Authorization Challenge Endpoint, not to a response_uri" [Text m]))
      else ([], Err (Fmt "unsupported response_mode %q" [Text m]))
  end.

Definition SubmitPresentation (vpResult : option VPTokenMapResult) (idToken state responseURI : string) (params : ResponseParams) : outcome :=
  deliver (BuildAuthorizationResponse vpResult idToken state params) responseURI.

Definition SubmitAuthorizationError (errorCode errorDescription state responseURI : string) (params : ResponseParams) : outcome :=
  deliver (BuildAuthorizationErrorResponse errorCode errorDescription state params) responseURI.
End response.
