(* ===== verification/Registration.v ===== *)
(** * Registration: relying party registration, and the checks of a request

    src/internal/wallet/verifier_info.go: the registration certificates of a
    request, their binding to the access certificate that signed it, their
    content, validity and status, and whether the request asks for more than is
    registered.  Also registrar/helpers.go (CredentialTypes), format.IsWebURL
    and firstNonEmpty of arf_trust.go.

    src/internal/wallet/validation.go (ValidateAuthorizationRequest and
    validatePresentationRequestCore) and PrepareARFChecks of arf_trust.go.  The
    checks are those of ClientAuth, RequestChecks and this file; the mode of the
    wallet decides what a finding does. *)

From stdpp Require Import base list strings gmap.
From Stdlib Require Import ZArith Lia Ascii.
From S2P Require Import Prelude GoStrings GoValue Format Validity DCQL StatusList SDJWT Certs Requests ClientAuth GoMap RequestChecks.

Local Open Scope Z_scope.

(** ** time.AddDate, in UTC *)

(** Days since 1970-01-01 of a date, whose day may lie past the month's end. *)
Definition days_of_civil (y m d : Z) : Z :=
  let y := if m <=? 2 then y - 1 else y in
  let era := y / 400 in
  let yoe := y - era * 400 in
  let doy := (153 * ((m + 9) mod 12) + 2) / 5 + d - 1 in
  era * 146097 + (yoe * 365 + yoe / 4 - yoe / 100 + doy) - 719468.

Definition civil_of_days (z : Z) : Z * Z * Z :=
  let z := z + 719468 in
  let era := z / 146097 in
  let doe := z - era * 146097 in
  let yoe := (doe - doe / 1460 + doe / 36524 - doe / 146096) / 365 in
  let doy := doe - (365 * yoe + yoe / 4 - yoe / 100) in
  let mp := (5 * doy + 2) / 153 in
  let m := if mp <? 10 then mp + 3 else mp - 9 in
  ((if m <=? 2 then yoe + era * 400 + 1 else yoe + era * 400), m, doy - (153 * mp + 2) / 5 + 1).

(** [time.Unix(sec, 0).AddDate(years, 0, 0)] *)
Definition add_years (sec years : Z) : time :=
  let '(y, m, d) := civil_of_days (sec / 86400) in
  unix (days_of_civil (y + years) m d * 86400 + sec mod 86400).

Example add_years_examples :
  add_years 1709164800 1 = unix 1740787200 (* 2024-02-29 to 2025-03-01 *) /\ add_years 1735732800 1 = unix 1767268800.
Proof. vm_compute. done. Qed.

(** ** Reading claims *)

Definition stringClaim (v : value) : string := trim_space (default "" (as_string v)).
Definition numberClaim (v : value) : option float64 := as_float64 v.
Definition nonEmptyList (v : value) : bool := match v with VArr (_ :: _) => true | _ => false end.
Definition listOfMaps (v : value) : list object := filter_map as_obj (default [] (as_arr v)).

Definition firstNonEmpty (values : list string) : string :=
  default "" (find_map (fun v => let v := trim_space v in if (v =? "")%string then None else Some v) values).

Definition IsWebURL `{Pki} (rawURL : string) : bool :=
  match url_Parse (trim_space rawURL) with
  | None => false
  | Some u => if (u_Host u =? "")%string then false else contains ["http"; "https"] (to_lower (u_Scheme u))
  end.

Definition CredentialTypes (meta : value) : list string :=
  match as_obj meta with
  | None => []
  | Some m =>
      strings_of (get_arr m "vct_values")
      ++ (let s := get_string m "doctype_value" in if (s =? "")%string then [] else [s])
  end.

Definition hasContact (v : value) : bool := negb (stringClaim v =? "")%string || nonEmptyList v.

Definition hasSupervisoryAuthority (v : value) : bool :=
  match as_obj v with
  | None => false
  | Some m => existsb (fun k => negb (stringClaim (index m k) =? "")%string) ["email"; "phone"; "uri"]
  end.

(** What the loop over a list of purposes has found: the plain texts, the first
    translation and the English one. *)
Record purposes_seen := mkSeen { seen_plain : list string; seen_first : string; seen_english : string }.

Definition note_text (s : purposes_seen) (entry : object) : purposes_seen :=
  let value := get_string entry "value" in
  let text := trim_space (if (value =? "")%string then get_string entry "content" else value) in
  if (text =? "")%string then s
  else mkSeen (seen_plain s) (if (seen_first s =? "")%string then text else seen_first s)
         (if has_prefix "en" (to_lower (get_string entry "lang")) && (seen_english s =? "")%string then text else seen_english s).

Definition one_text (s : string) : list string := let v := trim_space s in if (v =? "")%string then [] else [v].

Definition chosen (s : purposes_seen) : list string :=
  seen_plain s ++ (if negb (seen_english s =? "")%string then [seen_english s]
                   else if negb (seen_first s =? "")%string then [seen_first s] else []).

Fixpoint purposeStrings (raw : value) : list string :=
  match raw with
  | VString s => one_text s
  | VArr items =>
      chosen ((fix loop (items : list value) (s : purposes_seen) : purposes_seen :=
        match items with
        | [] => s
        | item :: items =>
            loop items
              match item with
              | VString t => mkSeen (seen_plain s ++ one_text t) (seen_first s) (seen_english s)
              | VArr _ => mkSeen (seen_plain s ++ purposeStrings item) (seen_first s) (seen_english s)
              | VObj entry => note_text s entry
              | _ => s
              end
        end) items (mkSeen [] "" ""))
  | _ => []
  end.

Example purposeStrings_example :
  purposeStrings (VArr [VObj [("lang", VString "de"); ("value", VString "Alter")];
                        VObj [("lang", VString "EN-us"); ("content", VString " age ")]; VArr [VString "x"]]) = ["x"; "age"].
Proof. vm_compute. done. Qed.

Record registeredCredential := mkRegistered { rc_format : string; rc_types : list string; rc_paths : list (list value) }.

Definition nonempty_paths (claims : list object) : list (list value) :=
  filter_map (fun claim => match get_arr claim "path" with [] => None | path => Some path end) claims.

Definition registeredCredentials (cert : object) : list registeredCredential :=
  map (fun entry => mkRegistered (get_string entry "format") (CredentialTypes (index entry "meta"))
                      (nonempty_paths (listOfMaps (index entry "claim"))))
    (listOfMaps (index cert "credentials")).

Definition registeredFor (registered : list registeredCredential) (format credentialType : string) : list registeredCredential :=
  filter (fun rc => negb (rc_format rc =? "")%string && (rc_format rc =? format)%string && contains (rc_types rc) credentialType = true) registered.

Definition registersCredential (registered : list registeredCredential) (format : string) (types : list string) : bool :=
  match types with
  | [] => false
  | _ => forallb (fun t => negb (bool_decide (registeredFor registered format t = []))) types
  end.

(** Path elements are compared as printed. *)
Fixpoint pathPrefix (registered requested : list value) : bool :=
  match registered, requested with
  | [], _ => true
  | _ :: _, [] => false
  | a :: registered, b :: requested => (Sprint a =? Sprint b)%string && pathPrefix registered requested
  end.

Definition registeredCovers (registered : list registeredCredential) (format : string) (types : list string) (path : list value) : bool :=
  forallb (fun t => existsb (fun rc => existsb (fun p => pathPrefix p path) (rc_paths rc)) (registeredFor registered format t)) types
  && negb (bool_decide (types = [])).

Definition credentialTypeName (format : string) (types : list string) : string := default format (head types).

Definition describeClaim (format : string) (types : list string) (path : list value) : string :=
  let claim := join "." (map Sprint path) in
  let label := credentialTypeName format types in
  if (label =? "")%string then claim else claim +:+ " of " +:+ label.

Definition over_ask (what : string) : why :=
  Fmt "ARF RPRC_21: the request asks for %s, which the registration certificate does not register (over-asking)" [Text what].

Definition query_over_asking (registered : list registeredCredential) (cq : object) : list why :=
  let format := get_string cq "format" in
  let types := CredentialTypes (index cq "meta") in
  if negb (registersCredential registered format types) then [over_ask (credentialTypeName format types)]
  else flat_map (fun path => found (negb (registeredCovers registered format types path)) (over_ask (describeClaim format types path)))
         (nonempty_paths (listOfMaps (index cq "claims"))).

Definition overAskingFindings (cert : object) (dcql : option object) : list why :=
  match registeredCredentials cert with
  | [] => []
  | registered => flat_map (query_over_asking registered) (listOfMaps (index (default [] dcql) "credentials"))
  end.

(** ** Content and validity *)

Definition miss (rule field : string) : why := Fmt "%s: the registration certificate has no %s" [Text rule; Text field].
Definition empty_claim (cert : object) (k : string) : bool := (stringClaim (index cert k) =? "")%string.

Definition table7 : string := "ETSI TS 119 475 V1.2.1 GEN-5.2.4-01".

Definition registeredPartyFindings (cert : object) (supportRule supervisoryRule : string) : list why :=
  found (empty_claim cert "country") (miss table7 "country")
  ++ found (empty_claim cert "registry_uri") (miss table7 "registry_uri")
  ++ found (negb (nonEmptyList (index cert "policy_id"))) (miss table7 "policy_id")
  ++ found (empty_claim cert "certificate_policy") (miss table7 "certificate_policy")
  ++ found (negb (hasContact (index cert "support_uri"))) (miss supportRule "support_uri (data deletion contact)")
  ++ found (negb (hasSupervisoryAuthority (index cert "supervisory_authority"))) (miss supervisoryRule "supervisory_authority contact").

Definition registrationValidityFindings (now : time) (cert : object) (rule : string) : list why :=
  let iat := numberClaim (index cert "iat") in
  found (bool_decide (iat = None)) (Text "ETSI TS 119 475 V1.2.1 GEN-5.2.4-01: the registration certificate has no iat")
  ++ match numberClaim (index cert "exp") with
     | None => []
     | Some exp =>
         let expTime := unix (int_of_float64 exp) in
         found (before expTime now) (Fmt "%s: the registration certificate has expired" [Text rule])
         ++ match iat with
            | Some iat => found (after expTime (add_years (int_of_float64 iat) 1))
                (Text "ETSI TS 119 475 V1.2.1 GEN-5.2.4-08: the registration certificate is valid for more than 12 months")
            | None => []
            end
     end.

Definition registrationCertificateContentFindings (now : time) (cert : object) : list why :=
  found (empty_claim cert "name") (miss "ARF RPRC_06" "name (trade name)")
  ++ found (empty_claim cert "sub") (miss "ARF RPRC_07" "sub (relying party identifier)")
  ++ found (empty_claim cert "privacy_policy") (miss table7 "privacy_policy")
  ++ found (bool_decide (purposeStrings (index cert "srv_description") = [])) (miss table7 "srv_description")
  ++ found (negb (nonEmptyList (index cert "entitlements"))) (miss "ETSI TS 119 475 V1.2.1 GEN-5.2.4-03" "entitlements (at least one)")
  ++ registeredPartyFindings cert "ARF RPRC_11" "ARF RPRC_12"
  ++ found (negb (nonEmptyList (index cert "credentials")))
       (miss "ETSI TS 119 475 V1.2.1 GEN-5.2.4-06" "credentials (the registered attestations and attributes)")
  ++ found (match ExtractStatusRef cert with None => true | Some _ => false end)
       (miss "ETSI TS 119 475 V1.2.1 Table 7" "status (its entry in the registrar's status list), so the wallet cannot check revocation")
  ++ registrationValidityFindings now cert "ARF RPRC_17".

Section registration.
Context {json : Json} {pki : Pki}.
(** [json.Unmarshal] into an [any]. *)
Context (unmarshal_any : string -> option value).
(** The attributes of a certificate's subject: the object identifier and the
    value when it is a string. *)
Context (subject_names : X509Cert -> list (string * option string)).
(** The status list of a URL, asked for in a preferred format, and the parser
    of CWT status tokens. *)
Context (fetch : string -> string -> option (string * string * string)).
Context (parseCWT : string -> CheckOptions -> result token_error statusListToken).
Context (now : time).

(** ** The registration certificates of a request *)

Definition infoEntries (payload : option object) (name : string) : list object :=
  match payload with
  | None => []
  | Some p =>
      let raw := index p name in
      listOfMaps match raw with
                 | VString encoded => if (encoded =? "")%string then raw else default raw (unmarshal_any encoded)
                 | _ => raw
                 end
  end.

Definition requestVerifierInfo (authReq : AuthorizationRequestParams) : option object :=
  match ap_RequestPayload authReq with
  | Some p => Some p
  | None =>
      let info := default "" (ap_FullParams authReq !! "verifier_info") in
      if no_object (ap_RequestObject authReq) && negb (trim_space info =? "")%string
      then Some [("verifier_info", VString info)] else None
  end.

Definition decodeCompactJWT (compact : string) : option (object * object) :=
  match split "."%char compact with
  | [h; p; _] =>
      headerBytes ← DecodeBase64URL h; header ← unmarshal_object headerBytes;
      payloadBytes ← DecodeBase64URL p; payload ← unmarshal_object payloadBytes;
      Some (header, payload)
  | _ => None
  end.

Definition RegistrationCertificateTyp : string := "rc-wrp+jwt".

Record verifiedRegistration := mkVerified { vreg_claims : object; vreg_chain : list X509Cert }.

(** Nothing, a problem, or a registration whose x5c leaf verifies it. *)
Definition registration_entry (entry : object) : option (why + verifiedRegistration) :=
  let data := get_string entry "data" in
  if negb (count "."%char data =? 2)%nat then None
  else match decodeCompactJWT data with
  | None => None
  | Some (header, claims) =>
      if negb (get_string header "typ" =? RegistrationCertificateTyp)%string then None
      else match X5CCertificates header with
      | Ok (leaf :: rest) =>
          Some (if jws_Valid data (cert_PublicKey leaf) then inr (mkVerified claims (leaf :: rest))
                else inl (Text "has a signature that does not verify with its x5c leaf"))
      | _ => Some (inl (Text "has no readable x5c certificate"))
      end
  end.

Definition as_left {A B} (x : A + B) : option A := match x with inl a => Some a | inr _ => None end.
Definition as_right {A B} (x : A + B) : option B := match x with inr b => Some b | inl _ => None end.

Definition verifyRegistrationEntries (entries : list object) : list verifiedRegistration * list why :=
  let seen := filter_map registration_entry entries in (filter_map as_right seen, filter_map as_left seen).

(** ** The access certificate *)

Definition requestAccessChain (authReq : AuthorizationRequestParams) : list X509Cert :=
  match ap_RequestObject authReq with
  | None => []
  | Some ro =>
      let header := default [] (ro_Header ro) in
      if (stringClaim (index header "alg") =? "none")%string || negb (count "."%char (ro_Raw ro) =? 2)%nat then []
      else match X5CCertificates header with
           | Ok (leaf :: rest) => if jws_Valid (ro_Raw ro) (cert_PublicKey leaf) then leaf :: rest else []
           | _ => []
           end
  end.

Definition relyingPartyAuthenticated (authReq : AuthorizationRequestParams) : bool :=
  is_ok (certchain_Verify (requestAccessChain authReq) (ap_RelyingPartyCAs authReq)).

(** The first attribute with the OID 2.5.4.97. *)
Definition organizationIdentifier (cert : X509Cert) : string :=
  match find (fun a : string * option string => (a.1 =? "2.5.4.97")%string) (subject_names cert) with
  | Some a => default "" a.2
  | None => ""
  end.

Definition registration_identifier (cert : object) : string :=
  match as_obj (index cert "act") with
  | Some act => if (stringClaim (index act "sub") =? "")%string then stringClaim (index cert "sub") else stringClaim (index act "sub")
  | None => stringClaim (index cert "sub")
  end.

Definition registrationBindingFindings (cert : object) (access : X509Cert) (rule : string) : list why :=
  let identifier := registration_identifier cert in
  let accessIdentifier := organizationIdentifier access in
  if negb (identifier =? "")%string && (identifier =? accessIdentifier)%string then []
  else [Fmt "%s: the registration certificate identifies %q, but the access certificate's organizationIdentifier is %q"
          [Text rule; Text identifier; Text accessIdentifier]].

Definition party_name (cert : object) : string :=
  firstNonEmpty [stringClaim (index cert "name"); stringClaim (index cert "sub"); "the relying party"].

Definition status_options (statusCAs : list X509Cert) : CheckOptions := mkOptions (map cert_Raw statusCAs) [] [] now.

Definition registrationStatusFindings (cert : object) (statusCAs : list X509Cert) (rule : string) : list why :=
  match ExtractStatusRef cert with
  | None => []
  | Some ref =>
      match CheckWithOptions (fetch (acceptHeader FormatJWT)) parseCWT (Some ref) (status_options statusCAs) with
      | Err _ => [Fmt "%s: the status of the registration certificate of %s cannot be checked: %v" [Text rule; Text (party_name cert)]]
      | Ok r =>
          found (negb (res_IsValid r))
            (Fmt "%s: the registrar revoked the registration certificate of %s (status %s at index %d of %s)"
               [Text rule; Text (party_name cert); Text (res_StatusName r); Text (itoa (ref_Idx ref)); Text (ref_URI ref)])
      end
  end.

(** ** ARFFindings *)

Definition count_findings (n : nat) : list why :=
  match n with
  | O => [Text "ARF RPRC_19: the request has no registration certificate in verifier_info (typ rc-wrp+jwt)"]
  | 1%nat => []
  | _ => [Fmt "ARF RPRC_19: the request carries %d registration certificates. It must carry exactly one" [Text (itoa (Z.of_nat n))]]
  end.

Definition access_findings (authReq : AuthorizationRequestParams) : list why :=
  match requestAccessChain authReq with
  | [] => [Text "ARF RPA_03: the request is not signed with a relying party access certificate in x5c"]
  | leaf :: rest =>
      match certchain_Verify (leaf :: rest) (ap_RelyingPartyCAs authReq) with
      | Err e => [Fmt "ARF RPA_04: the access certificate %q does not chain to a trusted access certificate authority: %v" [Text (cert_Subject leaf); e]]
      | Ok _ => []
      end
  end.

Definition registration_findings (authReq : AuthorizationRequestParams) (r : verifiedRegistration) : list why :=
  let cert := vreg_claims r in
  registrationCertificateContentFindings now cert
  ++ match requestAccessChain authReq with [] => [] | access :: _ => registrationBindingFindings cert access "ARF RPRC_17a" end
  ++ match certchain_Verify (vreg_chain r) (ap_RegistrarCAs authReq) with
     | Err e => [Fmt "ARF RPRC_02a: the registration certificate of %s does not chain to a trusted registrar: %v" [Text (party_name cert); e]]
     | Ok _ => []
     end
  ++ registrationStatusFindings cert (ap_RegistrationStatusCAs authReq) "ARF RPRC_17".

Definition request_registrations (authReq : AuthorizationRequestParams) : list verifiedRegistration * list why :=
  verifyRegistrationEntries (infoEntries (requestVerifierInfo authReq) "verifier_info").

Definition ARFFindings (authReq : AuthorizationRequestParams) : list why :=
  let '(registrations, problems) := request_registrations authReq in
  map (fun problem => Fmt "ARF RPRC_17: the registration certificate %s" [problem]) problems
  ++ count_findings (length registrations + length problems)
  ++ access_findings authReq
  ++ flat_map (registration_findings authReq) registrations
  ++ match registrations with [r] => overAskingFindings (vreg_claims r) (ap_DCQLQuery authReq) | _ => [] end.

(** ** What the consent dialog shows *)

Definition add_once (l : list string) (s : string) : list string := if contains l s then l else l ++ [s].

Definition registrationPurposes (certs : list object) : list string * list string :=
  fold_left (fun (acc : list string * list string) cert =>
    let policy := stringClaim (index cert "privacy_policy") in
    (fold_left add_once (purposeStrings (index cert "purpose")) acc.1,
     if IsWebURL policy then add_once acc.2 policy else acc.2)) certs ([], []).

Definition consentRegistration (authReq : AuthorizationRequestParams) : list string * list string :=
  match requestAccessChain authReq with
  | [] => ([], [])
  | access :: _ =>
      let registrations := fst (request_registrations authReq) in
      registrationPurposes (filter_map (fun r => match registrationBindingFindings (vreg_claims r) access "" with
                                                 | [] => Some (vreg_claims r) | _ => None end) registrations)
  end.
End registration.

Record ConformanceSettings := mkSettings { cs_ValidationMode : ValidationMode; RequireHAIP : bool; RequireARF : bool }.

(** An error of the validation: any other, or the ARFRefusal with its findings. *)
Inductive refusal := Refused (e : why) | ARFRefusal (findings : list why).

Section policy.
Context {json : Json} {hash : Hash} {pki : Pki}.
Context (family : PubKey -> key_family) (DNSNames : X509Cert -> list string).
Context (unmarshal_any : string -> option value).
Context (subject_names : X509Cert -> list (string * option string)).
Context (fetch : string -> string -> option (string * string * string)).
Context (parseCWT : string -> CheckOptions -> result token_error statusListToken).
Context (now : time).

(** The findings of every mode. *)
Definition base_findings (clientID : string) (reqObj : option RequestObjectJWT) (responseURI requestOrigin : string)
  (params : AuthorizationRequestParams) (payload : option object) : list why :=
  option_list (VerifyClientID DNSNames clientID reqObj responseURI requestOrigin)
  ++ option_list (ValidateRequestObject family clientID reqObj)
  ++ option_list (VerifyRequestObjectSignature clientID reqObj)
  ++ authorizationFindings params payload.

Definition validatePresentationRequestCore (mode : ValidationMode) (requireHAIP requireARF : bool) (clientID : string)
  (reqObj : option RequestObjectJWT) (responseURI requestOrigin : string) (params : AuthorizationRequestParams)
  (payload : option object) : result refusal (list why) :=
  let findings := base_findings clientID reqObj responseURI requestOrigin params payload
                  ++ (if requireHAIP then ValidateHAIPCompliance params reqObj else []) in
  let advisories := if requireHAIP then HAIPAdvisories params else [] in
  let arfFindings := if requireARF then ARFFindings unmarshal_any subject_names fetch parseCWT now params else [] in
  if is_strict mode && bool_decide (findings = []) && negb (bool_decide (arfFindings = [])) && relyingPartyAuthenticated params
  then Err (ARFRefusal arfFindings)
  else
    let findings := findings ++ arfFindings in
    if is_strict mode && negb (bool_decide (findings = []))
    then Err (Refused (Fmt "authorization request validation failed: %s" findings))
    else Ok (findings ++ advisories).

(** [reqPayload] of the caller: the request object's payload first. *)
Definition request_payload (p : AuthorizationRequestParams) : option object :=
  match (ro ← ap_RequestObject p; ro_Payload ro) with Some m => Some m | None => ap_RequestPayload p end.

Definition response_uri_of (p : AuthorizationRequestParams) : string :=
  if (ap_ResponseURI p =? "")%string then ap_RedirectURI p else ap_ResponseURI p.

Definition ValidateAuthorizationRequest (settings : ConformanceSettings) (params : option AuthorizationRequestParams) :
  result refusal (list why) :=
  let refused e := Err (Refused (Fmt "authorization request validation failed: %w" [e])) in
  match validateAuthorizationRequestSyntax params, params with
  | Some e, _ => refused e
  | None, None => refused (Text "authorization request is missing")
  | None, Some p =>
      match ValidateClientMetadata (ResolveClientMetadata (request_payload p) (ap_ClientMetadata p)) with
      | Some e => refused e
      | None =>
          validatePresentationRequestCore (cs_ValidationMode settings) (RequireHAIP settings) (RequireARF settings)
            (ap_ClientID p) (ap_RequestObject p) (response_uri_of p) (ap_RequestOrigin p) p (request_payload p)
      end
  end.

(** PrepareARFChecks: the anchors, when the ARF checks are on. *)
Definition PrepareARFChecks (arf : bool) (relyingParties registrars status : list X509Cert) (p : AuthorizationRequestParams) :
  AuthorizationRequestParams :=
  if arf then
    mkAuthParams _ (ap_ClientID p) (ap_ResponseType p) (ap_ResponseMode p) (ap_Nonce p) (ap_State p) (ap_RequestOrigin p)
      (ap_RedirectURI p) (ap_ResponseURI p) (ap_Scope p) (ap_RequestURIMethod p) (ap_RequestURI p) (ap_ClientMetadata p)
      (ap_DCQLQuery p) (ap_RequestObject p) (ap_RequestPayload p) (ap_FullParams p) (ap_UnsignedDCAPI p)
      relyingParties registrars status
  else p.
End policy.
