(* ===== verification/RequestFacts.v ===== *)
(** * RequestFacts: what an accepted authorization request establishes

    Theorems on ClientAuth, RequestChecks and Registration, with
    the parser of Requests: who signed an accepted request, where its parameters
    come from, what the HAIP and ARF profiles add, and what the two validation
    modes have in common. *)

From stdpp Require Import base list strings gmap.
From Stdlib Require Import ZArith Lia Ascii.
From S2P Require Import Prelude GoStrings StringFacts GoValue Format Validity StatusList DCQL SDJWT Certs ValidateFacts IssuerAuth UriQuery Requests ClientAuth.
From S2P Require Import Present GoMap RequestChecks Registration.

Local Open Scope Z_scope.

(** ** Shared lemmas *)

Lemma found_nil b w : found b w = [] <-> b = false.
Proof. by destruct b. Qed.

Lemma option_list_nil {A} (o : option A) : option_list o = [] <-> o = None.
Proof. by destruct o. Qed.

Lemma flat_map_nil {A B} (f : A -> list B) l : flat_map f l = [] <-> forall x, x ∈ l -> f x = [].
Proof.
  induction l as [|x l IH]; [split; [intros _ y Hy; by apply elem_of_nil in Hy|done]|].
  cbn [flat_map]. rewrite app_nil, IH. setoid_rewrite elem_of_cons. naive_solver.
Qed.

Lemma filter_map_elem {A B} (f : A -> option B) l y : y ∈ filter_map f l <-> exists x, x ∈ l /\ f x = Some y.
Proof.
  induction l as [|x l IH]; cbn [filter_map].
  - setoid_rewrite elem_of_nil. naive_solver.
  - setoid_rewrite elem_of_cons. destruct (f x) as [b|] eqn:E; [rewrite elem_of_cons|]; rewrite ?IH; naive_solver.
Qed.

(** Lists of findings are empty when every part is. *)
Create HintDb findings.
#[export] Hint Rewrite @app_nil found_nil @option_list_nil @flat_map_nil : findings.
Ltac no_findings H := autorewrite with findings in H.

(** ** The parser: whose parameters a request carries *)

(** The parameters of a request are those of a payload. *)
Definition carries (r : AuthorizationRequest) (payload : object) : Prop :=
  ar_ClientID r = get_string payload "client_id" /\
  ar_ResponseType r = get_string payload "response_type" /\
  ar_ResponseMode r = get_string payload "response_mode" /\
  ar_Nonce r = get_string payload "nonce" /\
  ar_State r = get_string payload "state" /\
  ar_RedirectURI r = get_string payload "redirect_uri" /\
  ar_ResponseURI r = DeriveResponseURI (get_string payload "client_id") (get_string payload "response_mode") (get_string payload "response_uri") /\
  ar_Scope r = get_string payload "scope" /\
  ar_ClientMetadata r = as_obj (index payload "client_metadata") /\
  ar_DCQLQuery r = as_obj (index payload "dcql_query").

(** The object is the decoding of its text, and the request is its content. *)
Definition object_of `{Json} (r : AuthorizationRequest) (raw : string) (parts : jwt_parts) : Prop :=
  ParseJWTParts raw = Ok parts /\
  ar_RequestObject r = Some (mkRequestObject raw (Some (jp_header parts)) (Some (jp_payload parts))) /\
  carries r (jp_payload parts).

Section parser.
Context {json : Json}.
Context (FetchRequestURI : string -> string -> string -> result why string).

Lemma resolve_object_inv raw w req r :
  resolve_object raw w req = Ok r ->
  exists parts, object_of r raw parts /\ (ar_ClientID req <> "" -> ar_ClientID r = ar_ClientID req).
Proof.
  unfold resolve_object, applyRequestObjectPayload. destruct (ParseJWTParts raw) as [parts|e] eqn:Ep; [|done].
  cbn [with_request_object ar_ClientID]. intros Hr. dmatch_in Hr; [done|]. injection Hr as <-. exists parts.
  split; [by repeat split|]. intros Hne. cbn. apply andb_false_iff in E as [E|E]; bsimpl; congruence.
Qed.

(** A request that has an object carries the parameters of that object, and an
    outer client_id is the object's. *)
Lemma parse_object_governs q r ro :
  ParseAuthorizationParams FetchRequestURI q = Ok r -> ar_RequestObject r = Some ro ->
  exists raw parts, object_of r raw parts /\ ro_Raw ro = raw /\
    (first_of q "client_id" <> "" -> ar_ClientID r = first_of q "client_id").
Proof.
  unfold ParseAuthorizationParams, parseVPParams. intros Hr Ho.
  destruct (fetched_request _ _ _) as [r1|e] eqn:E1; [|done]. cbn in Hr.
  assert (H1 : r1 = outer_request q \/ (exists uri, r1 = with_request_uri uri (outer_request q)) \/
    exists raw parts, object_of r1 raw parts /\ (ar_ClientID (outer_request q) <> "" -> ar_ClientID r1 = ar_ClientID (outer_request q))).
  { unfold fetched_request in E1. dmatch_in E1; [left; congruence|]. right.
    destruct (FetchRequestURI _ _ _) as [body|]; [|done].
    destruct (isJWT body).
    - right. apply resolve_object_inv in E1 as (parts & Hp & Hc). by exists body, parts.
    - left. injection E1 as <-. by eexists. }
  unfold inline_request in Hr. destruct (first_of q "request" =? "")%string.
  - injection Hr as <-. destruct H1 as [->|[[uri ->]|(raw & parts & Hp & Hc)]]; [done..|].
    exists raw, parts. split; [done|]. split; [|exact Hc]. destruct Hp as (_ & Hro & _). rewrite Ho in Hro. by injection Hro as ->.
  - apply resolve_object_inv in Hr as (parts & Hp & Hc). exists (first_of q "request"), parts. split; [done|]. split.
    + destruct Hp as (_ & Hro & _). rewrite Ho in Hro. by injection Hro as ->.
    + intros Hne. destruct H1 as [->|[[uri ->]|(raw & parts1 & Hp1 & Hc1)]]; cbn in *; [auto..|].
      rewrite Hc; [auto|]. rewrite Hc1; auto.
Qed.
End parser.

(** ** The policy *)

Section policy.
Context {json : Json} {hash : Hash} {pki : Pki}.
Context (family : PubKey -> key_family) (DNSNames : X509Cert -> list string).
Context (unmarshal_any : string -> option value).
Context (subject_names : X509Cert -> list (string * option string)).
Context (fetch : string -> string -> option (string * string * string)).
Context (parseCWT : string -> CheckOptions -> result token_error statusListToken).
Context (now : time).

Abbreviation validate := (ValidateAuthorizationRequest family DNSNames unmarshal_any subject_names fetch parseCWT now).
Abbreviation core := (validatePresentationRequestCore family DNSNames unmarshal_any subject_names fetch parseCWT now).
Abbreviation arf_findings := (ARFFindings unmarshal_any subject_names fetch parseCWT now).
Abbreviation base_of p :=
  (base_findings family DNSNames (ap_ClientID p) (ap_RequestObject p) (response_uri_of p) (ap_RequestOrigin p) p (request_payload p)).

Definition haip_findings (settings : ConformanceSettings) (p : AuthorizationRequestParams) : list why :=
  if RequireHAIP settings then ValidateHAIPCompliance p (ap_RequestObject p) else [].
Definition haip_advice (settings : ConformanceSettings) (p : AuthorizationRequestParams) : list why :=
  if RequireHAIP settings then HAIPAdvisories p else [].
Definition arf_findings_of (settings : ConformanceSettings) (p : AuthorizationRequestParams) : list why :=
  if RequireARF settings then arf_findings p else [].

(** What a mode makes of the findings, once the request is well formed. *)
Lemma accepted_inv settings p out :
  validate settings (Some p) = Ok out ->
  validateAuthorizationRequestSyntax (Some p) = None /\
  ValidateClientMetadata (ResolveClientMetadata (request_payload p) (ap_ClientMetadata p)) = None /\
  out = base_of p ++ haip_findings settings p ++ arf_findings_of settings p ++ haip_advice settings p /\
  (cs_ValidationMode settings = Strict -> base_of p = [] /\ haip_findings settings p = [] /\ arf_findings_of settings p = []).
Proof.
  unfold ValidateAuthorizationRequest, validatePresentationRequestCore. cbv zeta.
  fold (haip_findings settings p) (haip_advice settings p) (arf_findings_of settings p). intros Hv.
  destruct (validateAuthorizationRequestSyntax _); [done|]. destruct (ValidateClientMetadata _); [done|].
  split; [done|]. split; [done|].
  dmatch_in Hv; [done|]. dmatch_in Hv; [done|]. injection Hv as <-. rewrite <- !app_assoc. split; [done|].
  intros Hm. rewrite Hm in E0. cbn in E0. apply negb_false_iff, bool_decide_eq_true in E0.
  rewrite !app_nil in E0. tauto.
Qed.

(** Debug mode refuses only what is malformed. *)
Lemma debug_accepts settings p :
  cs_ValidationMode settings = Debug -> validateAuthorizationRequestSyntax (Some p) = None ->
  ValidateClientMetadata (ResolveClientMetadata (request_payload p) (ap_ClientMetadata p)) = None ->
  validate settings (Some p) = Ok (base_of p ++ haip_findings settings p ++ arf_findings_of settings p ++ haip_advice settings p).
Proof.
  intros Hm Hs Hc. unfold ValidateAuthorizationRequest, validatePresentationRequestCore. rewrite Hs, Hc, Hm. cbn.
  by rewrite <- !app_assoc.
Qed.

Lemma strict_accepts settings p :
  validateAuthorizationRequestSyntax (Some p) = None ->
  ValidateClientMetadata (ResolveClientMetadata (request_payload p) (ap_ClientMetadata p)) = None ->
  base_of p = [] -> haip_findings settings p = [] -> arf_findings_of settings p = [] ->
  validate settings (Some p) = Ok (haip_advice settings p).
Proof.
  intros Hs Hc Hb Hh Ha. unfold ValidateAuthorizationRequest, validatePresentationRequestCore. cbv zeta.
  fold (haip_findings settings p) (haip_advice settings p) (arf_findings_of settings p).
  rewrite Hs, Hc, Hb, Hh, Ha. by destruct (cs_ValidationMode settings).
Qed.

Definition in_mode (m : ValidationMode) (settings : ConformanceSettings) : ConformanceSettings :=
  mkSettings m (RequireHAIP settings) (RequireARF settings).

(** C23: The validation mode decides only what a finding does.  For every
    request, setting and world, strict mode accepts the request exactly when
    debug mode accepts it and reports nothing but the advisories of the HAIP
    profile; then both give the same warnings. *)
Theorem modes_agree settings p out :
  validate (in_mode Strict settings) (Some p) = Ok out <->
  validate (in_mode Debug settings) (Some p) = Ok out /\ out = haip_advice settings p.
Proof.
  split.
  - intros Hv. apply accepted_inv in Hv as (Hs & Hc & -> & Hstrict).
    destruct (Hstrict eq_refl) as (Hb & Hh & Ha). change (haip_findings (in_mode ?m settings)) with (haip_findings settings) in *.
    rewrite (debug_accepts (in_mode Debug settings) p eq_refl Hs Hc). rewrite Hb. split; [done|].
    change (haip_findings (in_mode Strict settings) p) with (haip_findings settings p) in *. rewrite Hh, Ha. done.
  - intros [Hv Hout]. apply accepted_inv in Hv as (Hs & Hc & Heq & _).
    rewrite Heq in Hout. rewrite !app_assoc in Hout.
    apply (app_inv_tail_iff _ _ []) in Hout. rewrite !app_nil in Hout. destruct Hout as [[Hb Hh] Ha].
    rewrite (strict_accepts (in_mode Strict settings) p Hs Hc Hb Hh Ha). f_equal. rewrite Heq, Hb. 
    change (haip_findings (in_mode Debug settings) p) with (haip_findings settings p) in *. by rewrite Hh, Ha.
Qed.
(** ** Who signed an accepted request *)

Lemma leaf_of_chain ro leaf rest cert :
  extractCertChain (Some ro) = Ok (leaf :: rest) -> extractLeafCert (Some ro) = Ok cert -> leaf = cert.
Proof.
  unfold extractCertChain, extractLeafCert. cbn [object_header mbind option_bind].
  destruct (ro_Header ro) as [header|]; cbn [default from_option id]; [|done].
  destruct (get_arr header "x5c") as [|[] l]; try done. cbn [x5c_chain].
  destruct (DecodeBase64Std s); [|done]. destruct (ParseCertificate s0); [|done].
  intros Hc Hl. injection Hl as <-.
  dmatch_in Hc; cbn in Hc; congruence.
Qed.

(** The object is signed by the leaf of the chain in its header. *)
Definition signed_by (ro : RequestObjectJWT) (leaf : X509Cert) (rest : list X509Cert) : Prop :=
  extractCertChain (Some ro) = Ok (leaf :: rest) /\ jws_Valid (ro_Raw ro) (cert_PublicKey leaf) = true /\
  (rest <> [] -> chain_verifies (option_list (last rest)) (removelast rest) leaf = true).

(** The certificate stands for the client identifier. *)
Definition certifies (leaf : X509Cert) (clientID responseURI : string) : Prop :=
  (has_prefix "x509_hash:" clientID = true ->
     DecodeBase64URL (trim_prefix "x509_hash:" clientID) = Some (sha256 (cert_Raw leaf))) /\
  (has_prefix "x509_san_dns:" clientID = true ->
     trim_prefix "x509_san_dns:" clientID ∈ DNSNames leaf /\
     (responseURI <> "" -> exists u, url_Parse responseURI = Some u /\
        EqualFold (Hostname (u_Host u)) (trim_prefix "x509_san_dns:" clientID) = true)).

Lemma prefixes_differ clientID : has_prefix "x509_san_dns:" clientID = true -> has_prefix "x509_hash:" clientID = true -> False.
Proof.
  assert (Hs : forall p s, has_prefix p s = true -> exists z, s = p +:+ z).
  { induction p as [|c p IH]; intros s Hp; [by exists s|]. destruct s as [|d s]; [done|]. cbn in Hp. bsimpl.
    destruct Hp as [Hc Hp]. apply Ascii.eqb_eq in Hc as ->. destruct (IH s Hp) as [z ->]. by exists z. }
  intros H1 H2. apply Hs in H1 as [z ->], H2 as [y Hy]. done.
Qed.

Lemma object_signed clientID reqObj :
  clientIDVerifiesViaX5C clientID = true -> ValidateRequestObject family clientID reqObj = None ->
  VerifyRequestObjectSignature clientID reqObj = None ->
  exists ro header leaf rest, reqObj = Some ro /\ ro_Header ro = Some header /\ signed_by ro leaf rest /\
    get_string header "typ" = "oauth-authz-req+jwt" /\ get_string header "alg" <> "" /\ get_string header "alg" <> "none".
Proof.
  intros Hx Hv Hs.
  assert (Hp : prefixRequiresSigning clientID = true).
  { unfold clientIDVerifiesViaX5C in Hx. unfold prefixRequiresSigning, prefix_signed. cbn [existsb].
    apply orb_true_iff in Hx as [->| ->]; [apply orb_true_l|]. rewrite orb_true_l. apply orb_true_r. }
  unfold ValidateRequestObject in Hv. unfold VerifyRequestObjectSignature in Hs. rewrite Hx in Hs. rewrite Hp in Hv.
  destruct reqObj as [ro|]; [|done]. destruct (ro_Raw ro =? "")%string; [done|].
  destruct (ro_Header ro) as [header|] eqn:Eh; [|done].
  destruct (get_string header "alg" =? "")%string eqn:Ea; [done|].
  destruct (get_string header "alg" =? "none")%string eqn:En; [done|]. cbn in Hv.
  destruct (get_string header "typ" =? "")%string; [done|].
  destruct (get_string header "typ" =? "oauth-authz-req+jwt")%string eqn:Et; [|done].
  destruct (get_arr header "x5c") eqn:Ex; [done|].
  destruct (extractCertChain (Some ro)) as [certs|] eqn:Ec; [|done].
  destruct (verifySuppliedX5CChain certs) eqn:Ev; [done|].
  destruct certs as [|leaf rest].
  { unfold extractCertChain in Ec. cbn [object_header mbind option_bind] in Ec. rewrite Eh in Ec. cbn [default from_option id] in Ec. rewrite Ex in Ec. cbn [x5c_chain] in Ec.
    repeat (dmatch_in Ec; try done). }
  dmatch_in Hs; [done|]. destruct (jws_Valid _ _) eqn:Ej; [|done].
  bsimpl. exists ro, header, leaf, rest. repeat split; try done.
  intros Hr. unfold verifySuppliedX5CChain in Ev. destruct rest; [done|]. by dmatch_in Ev.
Qed.

Lemma client_certified clientID ro leaf rest responseURI :
  VerifyClientID DNSNames clientID (Some ro) responseURI "" = None -> extractCertChain (Some ro) = Ok (leaf :: rest) ->
  certifies leaf clientID responseURI.
Proof.
  intros Hv Hc. unfold VerifyClientID in Hv. split; intros Hp.
  - destruct (has_prefix "x509_san_dns:" clientID) eqn:E; [by destruct (prefixes_differ clientID)|]. rewrite Hp in Hv.
    unfold verifyX509Hash in Hv. destruct (DecodeBase64URL _) as [h|]; [|done].
    destruct (extractLeafCert (Some ro)) as [cert|] eqn:El; [|done]. dmatch_in Hv; [|done]. bsimpl.
    by rewrite (leaf_of_chain _ _ _ _ Hc El), E0.
  - rewrite Hp in Hv. unfold verifyX509SAN in Hv.
    destruct (extractLeafCert (Some ro)) as [cert|] eqn:El; [|done]. rewrite <- (leaf_of_chain _ _ _ _ Hc El) in Hv.
    destruct (contains (DNSNames leaf) _) eqn:Ed; [|done]. unfold contains in Ed. apply bool_decide_eq_true in Ed.
    split; [done|]. intros Hne. apply String.eqb_neq in Hne. cbn in Hv. rewrite Hne in Hv. cbn in Hv.
    destruct (url_Parse responseURI) as [u|]; [|done]. exists u. split; [done|]. by destruct (EqualFold _ _).
Qed.
(** The parsed request with the anchors the wallet adds. *)
Abbreviation prepared arf rp reg st r := (PrepareARFChecks arf rp reg st (authorizationParams r)).

Lemma prepared_fields arf rp reg st r :
  let p := prepared arf rp reg st r in
  ap_ClientID p = ar_ClientID r /\ ap_RequestObject p = ar_RequestObject r /\ ap_RequestOrigin p = "" /\
  response_uri_of p = (if (ar_ResponseURI r =? "")%string then ar_RedirectURI r else ar_ResponseURI r) /\
  ap_Nonce p = ar_Nonce r /\ ap_ResponseType p = ar_ResponseType r /\ ap_ResponseMode p = ar_ResponseMode r /\
  ap_DCQLQuery p = ar_DCQLQuery r.
Proof. by destruct arf. Qed.

Lemma base_findings_nil clientID reqObj responseURI origin params payload :
  base_findings family DNSNames clientID reqObj responseURI origin params payload = [] ->
  VerifyClientID DNSNames clientID reqObj responseURI origin = None /\ ValidateRequestObject family clientID reqObj = None /\
  VerifyRequestObjectSignature clientID reqObj = None /\ authorizationFindings params payload = [].
Proof. unfold base_findings. intros H. no_findings H. tauto. Qed.

(** C19: A request accepted in strict mode under an x509_hash or
    x509_san_dns client identifier comes from the holder of that identifier.
    For every query string, every answer to the fetch of its request_uri and
    every setting, there is one request object: the parameters the wallet goes
    on with are all read from its payload, the leaf of its x5c chain verifies
    its signature, the chain proves itself, its type and algorithm are those of
    a signed request object, and the leaf either hashes to the identifier or
    names it as a DNS name that is also the host the response goes to. *)
Theorem accepted_request_is_signed FetchRequestURI q r settings rp reg st out :
  ParseAuthorizationParams FetchRequestURI q = Ok r ->
  validate settings (Some (prepared (RequireARF settings) rp reg st r)) = Ok out ->
  cs_ValidationMode settings = Strict -> clientIDVerifiesViaX5C (ar_ClientID r) = true ->
  exists ro parts leaf rest,
    object_of r (ro_Raw ro) parts /\ ar_RequestObject r = Some ro /\ signed_by ro leaf rest /\
    certifies leaf (ar_ClientID r) (if (ar_ResponseURI r =? "")%string then ar_RedirectURI r else ar_ResponseURI r) /\
    get_string (jp_header parts) "typ" = "oauth-authz-req+jwt" /\
    get_string (jp_header parts) "alg" <> "" /\ get_string (jp_header parts) "alg" <> "none" /\
    (requestRequiresNonce (ar_ResponseType r) = true -> ar_Nonce r <> "").
Proof.
  intros Hq Hv Hm Hx. apply accepted_inv in Hv as (_ & _ & _ & Hs). destruct (Hs Hm) as (Hb & _ & _).
  destruct (prepared_fields (RequireARF settings) rp reg st r) as (Hc & Ho & Hor & Hu & Hn & Ht & _).
  apply base_findings_nil in Hb as (Hid & Hro & Hsig & Haf). rewrite Hc, Ho, Hor, Hu in *.
  destruct (object_signed _ _ Hx Hro Hsig) as (ro & header & leaf & rest & Hobj & Hh & Hsigned & Htyp & Ha & Hna).
  destruct (parse_object_governs _ _ _ _ Hq Hobj) as (raw & parts & Hp & Hraw & _).
  destruct Hp as (Hpp & Hpo & Hpc). rewrite Hobj in Hpo. injection Hpo as Hpo. subst ro. cbn in Hh. injection Hh as <-.
  exists (mkRequestObject raw (Some (jp_header parts)) (Some (jp_payload parts))), parts, leaf, rest.
  split; [by repeat split; try apply Hpc|]. split; [done|]. split; [done|].
  split; [rewrite Hobj in Hid; destruct Hsigned; by eapply client_certified|].
  repeat split; try done. intros Hr. unfold authorizationFindings in Haf. no_findings Haf. destruct Haf as (_ & Hnn & _).
  rewrite Ht, Hn, Hr in Hnn. cbn in Hnn. by apply String.eqb_neq.
Qed.

(** ** The HAIP profile *)

Lemma request_self_signed_none i certs : request_self_signed_at i certs = [] -> forall c, c ∈ certs -> SelfSignedCertificate c = false.
Proof.
  revert i. induction certs as [|c certs IH]; intros i H d Hd; [by apply elem_of_nil in Hd|]. cbn in H.
  destruct (SelfSignedCertificate c) eqn:E; [done|]. apply elem_of_cons in Hd as [->|Hd]; [done|by eapply IH].
Qed.

Lemma firstJWK_usable v jwk : firstJWK v = Some jwk -> usableEncryptionJWK jwk = true.
Proof.
  unfold firstJWK. intros H. assert (Hin : jwk ∈ filter (fun j => usableEncryptionJWK j = true) (jwks_keys v)).
  { destruct (find _ _) eqn:E.
    - injection H as <-. apply find_some in E as [E _]. by apply list_elem_of_In.
    - destruct (filter _ _); [done|]. injection H as <-. apply elem_of_cons. by left. }
  by apply list_elem_of_filter in Hin as [? _].
Qed.

(** What the profile asks of the response key. *)
Definition p256_key (jwk : object) : Prop :=
  get_string jwk "kty" = "EC" /\ (forall crv, as_string (index jwk "crv") = Some crv -> crv = "P-256").

Lemma haip_key reqObj m jwk : haipEncryptionKeyViolations reqObj m = [] -> findEncryptionJWK reqObj m = Some jwk -> p256_key jwk.
Proof.
  unfold haipEncryptionKeyViolations. intros H Hj. rewrite Hj in H. apply firstJWK_usable in Hj.
  assert (Hk : get_string jwk "kty" <> "").
  { intros E. unfold usableEncryptionJWK, encryptableKeyMaterial in Hj. rewrite E in Hj. by rewrite andb_false_r in Hj. }
  destruct (negb _ && _) eqn:E; [done|]. apply andb_false_iff in E. rewrite !negb_false_iff, !String.eqb_eq in E.
  split; [tauto|]. intros crv Hc. rewrite Hc in H. apply found_nil, negb_false_iff in H. by bsimpl.
Qed.

(** With the HAIP profile required, strict mode accepts a signed request
    only in the form the profile gives it: response type vp_token, an encrypted
    response mode, a client identifier that is the hash of the leaf certificate
    which signed the request object, no self-signed certificate in its chain, a
    request_uri unless the Digital Credentials API carries it, a DCQL query for
    SD-JWT and mdoc credentials only, and an EC key on P-256 whenever there is
    a key to encrypt the response to. *)
Theorem haip_request_conforms settings p out :
  validate settings (Some p) = Ok out -> cs_ValidationMode settings = Strict -> RequireHAIP settings = true ->
  isInteractiveAuthorizationResponseMode (ap_ResponseMode p) = false -> ap_UnsignedDCAPI p = false ->
  ap_RequestObject p <> None ->
  ap_ResponseType p = "vp_token" /\ ap_ResponseMode p ∈ ["direct_post.jwt"; "dc_api.jwt"] /\
  (isDCAPIResponseMode (ap_ResponseMode p) = false -> ap_RequestURI p <> "") /\
  (exists ro leaf rest, ap_RequestObject p = Some ro /\ signed_by ro leaf rest /\
     DecodeBase64URL (trim_prefix "x509_hash:" (ap_ClientID p)) = Some (sha256 (cert_Raw leaf)) /\
     forall c, c ∈ leaf :: rest -> SelfSignedCertificate c = false) /\
  (exists query, ap_DCQLQuery p = Some query /\
     forall cq, VObj cq ∈ get_arr query "credentials" -> get_string cq "format" ∈ ["mso_mdoc"; "dc+sd-jwt"]) /\
  (forall jwk, findEncryptionJWK (ap_RequestObject p) (ap_ClientMetadata p) = Some jwk -> p256_key jwk).
Proof.
  intros Hv Hm Hh Hi Hu Ho. apply accepted_inv in Hv as (_ & _ & _ & Hs). destruct (Hs Hm) as (Hb & Hf & _).
  unfold haip_findings in Hf. rewrite Hh in Hf. unfold ValidateHAIPCompliance in Hf. cbv zeta in Hf. rewrite Hi, Hu in Hf.
  destruct (ap_RequestObject p) as [ro|] eqn:Er; [|done]. cbn [no_object orb andb negb] in Hf. no_findings Hf.
  destruct Hf as (Ht & Hmode & (Hx & _ & Huri & Hself) & Hq & Hfmt & _ & Hkey).
  apply negb_false_iff in Ht, Hx. apply String.eqb_eq in Ht. apply base_findings_nil in Hb as (Hid & Hro & Hsig & _).
  split; [done|]. split; [apply negb_false_iff in Hmode; by apply bool_decide_eq_true in Hmode|].
  split. { intros Hd. rewrite Hd in Huri. cbn in Huri. by apply String.eqb_neq. }
  assert (Hc : clientIDVerifiesViaX5C (ap_ClientID p) = true) by (unfold clientIDVerifiesViaX5C; rewrite Hx; apply orb_true_r).
  destruct (object_signed _ _ Hc Hro Hsig) as (ro' & header & leaf & rest & Hobj & Hhd & Hsigned & _).
  injection Hobj as <-. split.
  { exists ro, leaf, rest. split; [done|]. split; [done|]. destruct Hsigned as (Hchain & _). split.
    - unfold VerifyClientID in Hid. destruct (has_prefix "x509_san_dns:" _) eqn:E; [by destruct (prefixes_differ (ap_ClientID p))|].
      rewrite Hx in Hid. unfold verifyX509Hash in Hid. destruct (DecodeBase64URL _); [|done].
      destruct (extractLeafCert (Some ro)) as [cert|] eqn:El; [|done]. rewrite (leaf_of_chain _ _ _ _ Hchain El).
      dmatch_in Hid; [|done]. bsimpl. by subst.
    - unfold haipSignedRequestViolations in Hself. cbn [object_header mbind option_bind] in Hself. rewrite Hhd, Hchain in Hself.
      no_findings Hself. destruct Hself as [Hl Hr]. intros c Hin. apply elem_of_cons in Hin as [->|Hin]; [done|].
      by eapply request_self_signed_none. }
  split; [|intros jwk; by apply haip_key].
  destruct (ap_DCQLQuery p) as [query|] eqn:Ed; [|done]. exists query. split; [done|]. intros cq Hin.
  assert (Hcq : cq ∈ filter_map as_obj (get_arr query "credentials")) by (apply filter_map_elem; by exists (VObj cq)).
  unfold haipCredentialFormatViolations in Hfmt. no_findings Hfmt. specialize (Hfmt cq Hcq). cbn beta zeta in Hfmt.
  apply found_nil, negb_false_iff in Hfmt. by apply bool_decide_eq_true in Hfmt.
Qed.
(** ** The ARF profile *)

(** A chain from the certificate to an anchor. *)
Definition anchored (chain anchors : list X509Cert) (leaf : X509Cert) : Prop :=
  exists rest, chain = leaf :: rest /\ chain_verifies anchors rest leaf = true.

(** The entry of a certificate for a format and type. *)
Definition registers (cert : object) (format type : string) (rc : registeredCredential) : Prop :=
  rc ∈ registeredCredentials cert /\ rc_format rc = format /\ type ∈ rc_types rc.

(** The registered path, element by element as printed, is a prefix. *)
Definition covers (registered requested : list value) : Prop := map Sprint registered `prefix_of` map Sprint requested.

Lemma pathPrefix_covers registered requested : pathPrefix registered requested = true <-> covers registered requested.
Proof.
  unfold covers. revert requested. induction registered as [|a l IH]; intros [|b r]; cbn [pathPrefix map].
  - split; [intros _; apply prefix_nil|done].
  - split; [intros _; apply prefix_nil|done].
  - split; [done|]. intros H. by apply prefix_nil_not in H.
  - rewrite andb_true_iff, String.eqb_eq, IH. split.
    + intros [-> H]. by apply prefix_cons.
    + intros H. split; [by apply prefix_cons_inv_1 in H|by apply prefix_cons_inv_2 in H].
Qed.

Lemma registeredFor_elem cert format t rc :
  rc ∈ registeredFor (registeredCredentials cert) format t <-> registers cert format t rc /\ format <> "".
Proof.
  unfold registeredFor, registers. rewrite list_elem_of_filter, !andb_true_iff, negb_true_iff, String.eqb_neq, String.eqb_eq.
  unfold contains. rewrite bool_decide_eq_true. split; [intros [[[? <-] ?] ?]; auto|intros [(? & <- & ?) ?]; auto].
Qed.

Lemma registered_types cert format types :
  registersCredential (registeredCredentials cert) format types = true ->
  types <> [] /\ forall t, t ∈ types -> exists rc, registers cert format t rc.
Proof.
  unfold registersCredential. destruct types as [|t0 types]; [done|]. intros H. split; [done|]. intros t Ht.
  rewrite forallb_forall in H. specialize (H t (proj1 (list_elem_of_In _ _) Ht)).
  apply negb_true_iff, bool_decide_eq_false in H. destruct (registeredFor _ format t) as [|rc l] eqn:E; [done|].
  exists rc. apply (registeredFor_elem cert format t rc). rewrite E. apply elem_of_cons. by left.
Qed.

Lemma covered_path cert format types path t :
  registeredCovers (registeredCredentials cert) format types path = true -> t ∈ types ->
  exists rc registered, registers cert format t rc /\ registered ∈ rc_paths rc /\ covers registered path.
Proof.
  unfold registeredCovers. rewrite andb_true_iff, forallb_forall. intros [H _] Ht.
  specialize (H t (proj1 (list_elem_of_In _ _) Ht)). apply existsb_exists in H as (rc & Hrc & H).
  apply existsb_exists in H as (p & Hp & H). apply list_elem_of_In, registeredFor_elem in Hrc as [Hrc _].
  exists rc, p. by rewrite list_elem_of_In, <- pathPrefix_covers.
Qed.

(** Everything the query asks for is registered. *)
Definition asks_only_registered (cert : object) (query : option object) : Prop :=
  forall cq, cq ∈ listOfMaps (index (default [] query) "credentials") ->
    let format := get_string cq "format" in
    let types := CredentialTypes (index cq "meta") in
    types <> [] /\
    (forall t, t ∈ types -> exists rc, registers cert format t rc) /\
    (forall claim path t, claim ∈ listOfMaps (index cq "claims") -> get_arr claim "path" = path -> path <> [] -> t ∈ types ->
       exists rc registered, registers cert format t rc /\ registered ∈ rc_paths rc /\ covers registered path).

Lemma no_over_asking cert query :
  registeredCredentials cert <> [] -> overAskingFindings cert query = [] -> asks_only_registered cert query.
Proof.
  unfold overAskingFindings. intros Hne H cq Hcq. destruct (registeredCredentials cert) as [|rc0 rcs] eqn:Er; [done|].
  rewrite <- Er in *. no_findings H. specialize (H cq Hcq). unfold query_over_asking in H. cbv zeta in H.
  destruct (registersCredential _ _ _) eqn:Ereg; cbn [negb] in H; [|done].
  destruct (registered_types _ _ _ Ereg) as [Ht Hrc]. split; [done|]. split; [done|].
  intros claim path t Hc Hp Hpne Hin. no_findings H.
  assert (Hpath : path ∈ nonempty_paths (listOfMaps (index cq "claims"))).
  { apply filter_map_elem. exists claim. split; [done|]. rewrite Hp. by destruct path. }
  specialize (H path Hpath). apply found_nil, negb_false_iff in H. by eapply covered_path.
Qed.

(** The list of a status reference says the entry is valid. *)
Definition not_revoked (cert : object) (statusCAs : list X509Cert) : Prop :=
  exists ref res, ExtractStatusRef cert = Some ref /\
    CheckWithOptions (fetch (acceptHeader FormatJWT)) parseCWT (Some ref) (status_options now statusCAs) = Ok res /\ res_IsValid res = true.

Lemma status_clean cert statusCAs rule ref :
  ExtractStatusRef cert = Some ref -> registrationStatusFindings fetch parseCWT now cert statusCAs rule = [] -> not_revoked cert statusCAs.
Proof.
  unfold registrationStatusFindings. intros Hr. rewrite Hr. intros H. destruct (CheckWithOptions _ _ _ _) as [res|] eqn:E; [|done].
  apply found_nil, negb_false_iff in H. by exists ref, res.
Qed.
(** A registration certificate of the request, signed by the leaf of its own
    chain. *)
Definition registration_signed (p : AuthorizationRequestParams) (r : verifiedRegistration) (leaf : X509Cert) : Prop :=
  exists entry header, entry ∈ infoEntries unmarshal_any (requestVerifierInfo p) "verifier_info" /\
    decodeCompactJWT (get_string entry "data") = Some (header, vreg_claims r) /\
    get_string header "typ" = RegistrationCertificateTyp /\ X5CCertificates header = Ok (vreg_chain r) /\
    head (vreg_chain r) = Some leaf /\ jws_Valid (get_string entry "data") (cert_PublicKey leaf) = true.

Lemma registration_entry_signed p r :
  r ∈ fst (request_registrations unmarshal_any p) -> exists leaf, registration_signed p r leaf.
Proof.
  unfold request_registrations, verifyRegistrationEntries. cbv zeta. cbn [fst]. intros H.
  apply filter_map_elem in H as (x & H & Hx). apply filter_map_elem in H as (entry & Hin & H).
  unfold registration_entry in H. cbv zeta in H. dmatch_in H; [done|].
  destruct (decodeCompactJWT _) as [[header claims]|] eqn:Ed; [|done].
  dmatch_in H; [done|]. destruct (X5CCertificates header) as [[|leaf rest]|] eqn:Ex; try (injection H as <-; done).
  injection H as <-. destruct (jws_Valid _ _) eqn:Ej; [|done]. injection Hx as <-. apply negb_false_iff, String.eqb_eq in E0.
  exists leaf, entry, header. done.
Qed.

Lemma access_signs p leaf rest :
  requestAccessChain p = leaf :: rest ->
  exists ro, ap_RequestObject p = Some ro /\ jws_Valid (ro_Raw ro) (cert_PublicKey leaf) = true.
Proof.
  unfold requestAccessChain. intros H. destruct (ap_RequestObject p) as [ro|]; [|done]. exists ro. split; [done|]. cbv zeta in H.
  dmatch_in H; [done|]. destruct (X5CCertificates _) as [[|l r]|]; try done. destruct (jws_Valid _ _) eqn:E1; [|done]. by injection H as -> _.
Qed.

Lemma one_registration n : count_findings n = [] -> n = 1%nat.
Proof. by destruct n as [|[|n]]. Qed.

Lemma single_registration p :
  arf_findings p = [] -> exists reg, request_registrations unmarshal_any p = ([reg], []).
Proof.
  unfold ARFFindings. destruct (request_registrations _ _) as [regs problems]. intros H. no_findings H.
  destruct H as (Hp & Hn & _). apply map_eq_nil in Hp. subst. apply one_registration in Hn. cbn in Hn. rewrite Nat.add_0_r in Hn.
  destruct regs as [|reg [|]]; [done| |done]. by exists reg.
Qed.

(** The registration [reg] of the request speaks for its sender. *)
Definition registered_sender (p : AuthorizationRequestParams) (reg : verifiedRegistration) (access registrar : X509Cert) : Prop :=
  (exists ro, ap_RequestObject p = Some ro /\ jws_Valid (ro_Raw ro) (cert_PublicKey access) = true) /\
  anchored (requestAccessChain p) (ap_RelyingPartyCAs p) access /\
  registration_signed p reg registrar /\ anchored (vreg_chain reg) (ap_RegistrarCAs p) registrar /\
  registration_identifier (vreg_claims reg) <> "" /\ registration_identifier (vreg_claims reg) = organizationIdentifier subject_names access.

(** A list of credentials that holds entries, none of which is an object. *)
Definition lists_no_object (cert : object) : Prop :=
  exists items, index cert "credentials" = VArr items /\ items <> [] /\ filter_map as_obj items = [].

Lemma registers_or_malformed cert :
  nonEmptyList (index cert "credentials") = true -> registeredCredentials cert <> [] \/ lists_no_object cert.
Proof.
  unfold nonEmptyList, registeredCredentials, lists_no_object, listOfMaps. destruct (index cert "credentials") as [| | | | | | | | |[|x l]|]; try done.
  intros _. cbn [as_arr default from_option id]. destruct (filter_map as_obj (x :: l)) eqn:E; [right; by exists (x :: l)|by left].
Qed.

(** C20: With the ARF checks required, strict mode accepts a request only from
    a registered relying party, and only for what it registered.  The request
    carries exactly one registration certificate; a trusted registrar signed
    it, a trusted access certificate signed the request, both name the same
    organisation, the registrar's status list holds the certificate valid, the
    certificate is not past its exp when it has one, and every credential type
    and every claim the query names is covered by it for each type the query
    accepts.  The one exception is a certificate whose list of credentials holds
    entries but no object: nothing is compared with that one. *)
Theorem arf_request_is_registered settings p out :
  validate settings (Some p) = Ok out -> cs_ValidationMode settings = Strict -> RequireARF settings = true ->
  exists reg access registrar,
    request_registrations unmarshal_any p = ([reg], []) /\ registered_sender p reg access registrar /\
    not_revoked (vreg_claims reg) (ap_RegistrationStatusCAs p) /\
    (forall exp, numberClaim (index (vreg_claims reg) "exp") = Some exp -> before (unix (int_of_float64 exp)) now = false) /\
    (asks_only_registered (vreg_claims reg) (ap_DCQLQuery p) \/ lists_no_object (vreg_claims reg)).
Proof.
  intros Hv Hm Ha. apply accepted_inv in Hv as (_ & _ & _ & Hs). destruct (Hs Hm) as (_ & _ & Hf).
  unfold arf_findings_of in Hf. rewrite Ha in Hf. destruct (single_registration p Hf) as (reg & Hreg).
  destruct (registration_entry_signed p reg) as (registrar & Hsigned); [rewrite Hreg; apply elem_of_cons; by left|].
  unfold ARFFindings in Hf. rewrite Hreg in Hf. no_findings Hf. destruct Hf as (_ & _ & Hacc & Hregf & Hover).
  specialize (Hregf reg ltac:(apply elem_of_cons; by left)). unfold access_findings in Hacc. unfold registration_findings in Hregf. cbv zeta in Hregf.
  destruct (requestAccessChain p) as [|access rest] eqn:Ec; [done|].
  destruct (certchain_Verify (access :: rest) _) as [leaf|] eqn:Ev; [|done]. apply certchain_Verify_inv in Ev as (rest' & Heq & _ & Hver). injection Heq as <- <-.
  no_findings Hregf. destruct Hregf as (Hcontent & Hbind & Hchain & Hstatus).
  destruct (certchain_Verify (vreg_chain reg) _) as [leaf|] eqn:Er; [|done]. apply certchain_Verify_inv in Er as (rrest & Heq & _ & Hrver).
  exists reg, access, registrar. split; [done|]. split.
  { split; [by eapply access_signs|]. split; [rewrite Ec; by exists rest|]. split; [done|].
    destruct Hsigned as (entry & header & _ & _ & _ & _ & Hh & _). rewrite Heq in Hh. injection Hh as <-.
    split; [by exists rrest|]. unfold registrationBindingFindings in Hbind. cbv zeta in Hbind.
    dmatch_in Hbind; [|done]. rewrite andb_true_iff, negb_true_iff, String.eqb_neq, String.eqb_eq in E. tauto. }
  unfold registrationCertificateContentFindings, registrationValidityFindings in Hcontent. cbv zeta in Hcontent. no_findings Hcontent.
  destruct Hcontent as (_ & _ & _ & _ & _ & _ & Hlist & Href & _ & Hval). split.
  { destruct (ExtractStatusRef (vreg_claims reg)) as [ref|] eqn:Eref; [|done]. by eapply status_clean. }
  split; [|destruct (registers_or_malformed (vreg_claims reg)) as [Hne|]; [by apply negb_false_iff|left; by apply no_over_asking|by right]].
  intros exp He. rewrite He in Hval. no_findings Hval. tauto.
Qed.

(** The over-asking check can be escaped: a registration certificate whose
    list of credentials holds no object counts as having one, so nothing is
    reported as missing, and no query, whatever it asks for, is compared with
    it. *)
Theorem malformed_registration_escapes cert items query :
  index cert "credentials" = VArr items -> items <> [] -> filter_map as_obj items = [] ->
  nonEmptyList (index cert "credentials") = true /\ overAskingFindings cert query = [].
Proof.
  intros Hc Hne Hi. unfold overAskingFindings, registeredCredentials, listOfMaps. rewrite Hc. cbn [as_arr default from_option id].
  rewrite Hi. by destruct items.
Qed.
End policy.

(** ** error_description *)

Lemma all_bytes_map f g s : (forall c, f (g c) = true) -> all_bytes f (map_bytes g s) = true.
Proof. intros H. induction s as [|c s IH]; [done|]. cbn. by rewrite H, IH. Qed.

Lemma all_bytes_cut f e s r : cut_prefix e s = Some r -> all_bytes f s = true -> all_bytes f r = true.
Proof.
  revert s. induction e as [|c e IH]; intros s H Hs; [by injection H as <-|]. destruct s as [|d s]; [done|].
  cbn in H, Hs. apply andb_true_iff in Hs as [_ Hs]. dmatch_in H; [|done]. by eapply IH.
Qed.

Lemma find_map_elem {A B} (f : A -> option B) l b : find_map f l = Some b -> exists a, f a = Some b.
Proof. induction l as [|a l IH]; [done|]. cbn. destruct (f a) eqn:E; [|done]. injection 1 as ->. by exists a. Qed.

Lemma all_bytes_trim f encs fuel s : all_bytes f s = true -> all_bytes f (trim_left_fuel encs fuel s) = true.
Proof.
  revert s. induction fuel as [|fuel IH]; intros s Hs; [done|]. cbn [trim_left_fuel].
  destruct (find_map _ encs) as [r|] eqn:E; [|done]. apply find_map_elem in E as [e He]. apply IH. by eapply all_bytes_cut.
Qed.

Lemma all_bytes_word f s w rest : take_word s = (w, rest) -> all_bytes f s = true -> all_bytes f w = true /\ all_bytes f rest = true.
Proof.
  revert w rest. induction s as [|c s IH]; intros w rest H Hs; [by injection H as <- <-|]. cbn [take_word] in H.
  destruct (existsb _ _); [by injection H as <- <-|]. destruct (take_word s) as [w' r'] eqn:E. injection H as <- <-.
  cbn in Hs. apply andb_true_iff in Hs as [Hc Hs]. destruct (IH w' r' eq_refl Hs) as [Hw Hr]. split; [|done]. cbn. by rewrite Hc, Hw.
Qed.

Lemma all_bytes_fields f fuel s : all_bytes f s = true -> Forall (fun w => all_bytes f w = true) (fields_fuel fuel s).
Proof.
  revert s. induction fuel as [|fuel IH]; intros s Hs; [constructor|]. cbn [fields_fuel].
  assert (Ht : all_bytes f (trim_left space_encodings s) = true) by by apply all_bytes_trim.
  destruct (trim_left space_encodings s) as [|c t]; [constructor|].
  destruct (take_word (String c t)) as [w rest] eqn:E. destruct (all_bytes_word _ _ _ _ E Ht) as [Hw Hr].
  constructor; [done|by apply IH].
Qed.

Lemma all_bytes_join f sep l :
  all_bytes f sep = true -> Forall (fun w => all_bytes f w = true) l -> all_bytes f (join sep l) = true.
Proof.
  intros Hsep. induction 1 as [|w l Hw Hl IH]; [done|]. cbn [join]. destruct l; [done|].
  by rewrite !all_bytes_app, Hw, Hsep, IH.
Qed.

(** The characters RFC 6749 allows in error_description. *)
Definition described (c : ascii) : bool :=
  let n := nat_of_ascii c in
  ((32 <=? n) && (n <=? 33) || (35 <=? n) && (n <=? 91) || (93 <=? n) && (n <=? 126))%nat.

Lemma described_byte_ok c : described (described_byte c) = true.
Proof. destruct c as [[] [] [] [] [] [] [] []]; reflexivity. Qed.

(** C39: Whatever a message contains (quotes, backslashes, control bytes,
    invalid UTF-8), the text ErrorDescription makes of it has only the
    characters RFC 6749 allows in error_description: %x20-21, %x23-5B and
    %x5D-7E.  (The wallet's own API answers some errors without calling it.) *)
Theorem error_description_is_typed message : all_bytes described (ErrorDescription message) = true.
Proof.
  unfold ErrorDescription. apply all_bytes_join; [reflexivity|]. apply all_bytes_fields, all_bytes_map, described_byte_ok.
Qed.

(** ** The POST of a request_uri *)

Section fetch_facts.
Context {jose : Jose} {json : Json}.
Context (http_do : string -> string -> string -> result why http_answer).
Context (ParseMediaType : string -> result why string).
Context (DecryptCompactJWE : string -> ECKey -> result why string).
Context (marshal_object : object -> option string).

(** Where a fetched object came from. *)
Definition decrypted (w : fetcher) (body jwt : string) : Prop :=
  (isJWE body = true /\ exists key, RequestEncryptionKey w = Some key /\ DecryptCompactJWE body key = Ok jwt) \/
  (isJWE body = false /\ jwt = body /\ RequireEncryptedRequest w = false).

Lemma open_object_inv w body jwt :
  open_object DecryptCompactJWE w body = Ok jwt -> isJWT jwt = true /\ decrypted w body jwt.
Proof.
  unfold open_object, decrypted. intros H. dmatch_in H; [done|]. dmatch_in H; [done|].
  destruct (isJWE body) eqn:Ej.
  - destruct (RequestEncryptionKey w) as [key|]; [|done]. destruct (DecryptCompactJWE body key) eqn:Ed; [|done].
    cbn in H. destruct (isJWT a) eqn:Et; [|done]. injection H as <-. split; [done|]. left. split; [done|]. by exists key.
  - cbn in H. destruct (isJWT body) eqn:Et; [|done]. injection H as <-. split; [done|]. right.
    rewrite andb_true_r in E0. done.
Qed.

Lemma check_wallet_nonce_inv nonce jwt out :
  check_wallet_nonce nonce jwt = Ok out ->
  out = jwt /\ forall parts returned, ParseJWTParts jwt = Ok parts ->
    as_string (index (jp_payload parts) "wallet_nonce") = Some returned -> returned = nonce.
Proof.
  unfold check_wallet_nonce. destruct (ParseJWTParts jwt) as [parts|e] eqn:E; [|injection 1 as <-; split; [done|]; intros; congruence].
  destruct (as_string _) as [s|] eqn:Es.
  - destruct (s =? nonce)%string eqn:En; [|done]. injection 1 as <-. split; [done|]. intros p r Hp Hr. bsimpl. congruence.
  - injection 1 as <-. split; [done|]. intros p r Hp Hr. congruence.
Qed.

(** A request object fetched by POST is the answer to this wallet's
    request.  Whatever the server answers, an object the fetch returns is a
    compact JWT from a 200 answer to a body that carries the wallet's metadata
    and nonce; a wallet_nonce in it is the one sent; when encryption is
    required it came encrypted to the wallet's key; and in strict mode the
    answer was typed as a request object. *)
Theorem posted_request_object w uri clientID nonce warnings jwt :
  fetchRequestURIPOST http_do ParseMediaType DecryptCompactJWE marshal_object w uri clientID (Ok nonce) = (warnings, Ok jwt) ->
  exists metadata answer body,
    marshal_object (BuildWalletMetadata w clientID) = Some metadata /\
    http_do "POST" uri (post_form metadata nonce) = Ok answer /\ an_status answer = 200 /\ an_body answer = Ok body /\
    isJWT jwt = true /\ decrypted w (trim_space body) jwt /\
    (forall parts returned, ParseJWTParts jwt = Ok parts ->
       as_string (index (jp_payload parts) "wallet_nonce") = Some returned -> returned = nonce) /\
    (f_strict w = true -> validateRequestURIResponse ParseMediaType (an_contentType answer) = None).
Proof.
  unfold fetchRequestURIPOST. destruct (marshal_object _) as [metadata|]; [|done].
  destruct (http_do _ _ _) as [answer|] eqn:Eh; [|done]. destruct (an_body answer) as [body|] eqn:Eb; [|done].
  destruct (an_status answer =? 200) eqn:Es; [|done]. cbn [negb]. unfold judged, judgeRequestURIMediaType.
  intros H. exists metadata, answer, body. apply Z.eqb_eq in Es.
  assert (Hk : (let? j := open_object DecryptCompactJWE w (trim_space body) in check_wallet_nonce nonce j) = Ok jwt /\
               (f_strict w = true -> validateRequestURIResponse ParseMediaType (an_contentType answer) = None)).
  { destruct (validateRequestURIResponse _ _); [|by injection H as _ H].
    destruct (f_strict w); [done|]. by injection H as _ H. }
  destruct Hk as [Hk Hstrict]. destruct (open_object _ _ _) as [j|] eqn:Eo; [|done]. cbn in Hk.
  apply check_wallet_nonce_inv in Hk as [<- Hnonce]. apply open_object_inv in Eo as [Hj Hd]. done.
Qed.
End fetch_facts.

(** ** Instances for the witnesses: a registered verifier's signed request

    The access certificate "verifier", the registrar's certificate and the one
    that signs the status list are each their own key and chain to "ca". *)
Module RequestToy.
Definition jwt (h p : string) : string := EncodeBase64URL h +:+ "." +:+ EncodeBase64URL p +:+ ".c2ln".
Definition object_raw : string := jwt "h" "p".
Definition registration_raw : string := jwt "rh" "rp".
Definition list_raw : string := jwt "lh" "lp".
Definition client : string := "x509_hash:" +:+ EncodeBase64URL "verifier".

Definition texts (l : list string) : value := VArr (map VString l).
Definition header (typ cert : string) : object := [("alg", VString "ES256"); ("typ", VString typ); ("x5c", texts [cert])].

Definition key : object :=
  [("kty", VString "EC"); ("crv", VString "P-256"); ("x", VString "AQ"); ("y", VString "Ag"); ("use", VString "enc")].
Definition meta : value := VObj [("vct_values", texts ["urn:pid"])].
Definition query : object :=
  [("credentials", VArr [VObj [("id", VString "pid"); ("format", VString "dc+sd-jwt"); ("meta", meta);
                               ("claims", VArr [VObj [("path", texts ["address"; "street"])]])]])].
Definition request : object :=
  [("client_id", VString client); ("response_type", VString "vp_token"); ("response_mode", VString "direct_post.jwt");
   ("nonce", VString "n"); ("response_uri", VString "https://verifier.example/cb"); ("dcql_query", VObj query);
   ("client_metadata", VObj [("jwks", VObj [("keys", VArr [VObj key])]);
                             ("encrypted_response_enc_values_supported", texts ["A128GCM"; "A256GCM"])]);
   ("verifier_info", VArr [VObj [("format", VString "registration_cert"); ("data", VString registration_raw)]])].

Definition registration : object :=
  [("name", VString "Shop"); ("sub", VString "VATDE-1"); ("privacy_policy", VString "https://shop.example/privacy");
   ("srv_description", VString "A shop"); ("entitlements", texts ["Service_Provider"]); ("country", VString "DE");
   ("registry_uri", VString "https://registry.example"); ("policy_id", texts ["1.2.3"]);
   ("certificate_policy", VString "https://registry.example/cp"); ("support_uri", VString "https://shop.example/support");
   ("supervisory_authority", VObj [("email", VString "dpa@example")]);
   ("credentials", VArr [VObj [("format", VString "dc+sd-jwt"); ("meta", meta); ("claim", VArr [VObj [("path", texts ["address"])]])]]);
   ("status", VObj [("status_list", VObj [("idx", VFloat (float64_of_Z 1)); ("uri", VString "https://registry.example/list")])]);
   ("iat", VFloat (float64_of_Z 1700000000)); ("exp", VFloat (float64_of_Z 1710000000))].

Definition status_list : object :=
  [("sub", VString "https://registry.example/list"); ("iat", VFloat (float64_of_Z 1700000000));
   ("status_list", VObj [("bits", VFloat (float64_of_Z 2)); ("lst", VString "AQI")])].

#[local] Instance toy_json : Json := {
  unmarshal_object s :=
    match find (fun e : string * object => (e.1 =? s)%string)
      [("h", header "oauth-authz-req+jwt" "dmVyaWZpZXI="); ("p", request); ("rh", header "rc-wrp+jwt" "cmVnaXN0cmFy"); ("rp", registration);
       ("lh", header "statuslist+jwt" "c3RhdHVz"); ("lp", status_list)] with
    | Some e => Some e.2 | None => None end;
  unmarshal_array _ := None }.

#[local] Instance toy_hash : Hash := { sha256 s := s; sha384 s := s; sha512 s := s }.

#[local] Instance toy_pki : Pki := {
  PubKey := string; X509Cert := string;
  ParseCertificate s := Some s; cert_Raw c := c; Parse_Raw c := eq_refl;
  cert_PublicKey c := Some c; cert_Subject c := c; cert_Issuer _ := "ca"; cert_CommonName c := c;
  chain_verifies roots _ _ := contains roots "ca";
  signs_itself _ := false;
  jose_verifies raw key := contains [object_raw +:+ "verifier"; registration_raw +:+ "registrar"; list_raw +:+ "status"] (raw +:+ key);
  ParsePublicKey _ := None;
  url_Parse s := if has_prefix "https://verifier.example" s then Some (mkUrl "https" "verifier.example" "" false "" "/cb") else None;
  http_get _ := Err (Text "offline"); decode_first_object _ := None;
  zlib_inflate s := Some (bytes_of s, false); flate_inflate _ := ([], false) }.

Definition family (_ : PubKey) : key_family := ECFamily.
Definition DNSNames (_ : X509Cert) : list string := [].
Definition unmarshal_any (_ : string) : option value := None.
Definition subject_names (_ : X509Cert) : list (string * option string) := [("2.5.4.97", Some "VATDE-1")].
Definition fetch (_ _ : string) : option (string * string * string) := Some (list_raw, MediaTypeJWT, MediaTypeJWT).
Definition parseCWT (_ : string) (_ : CheckOptions) : result token_error statusListToken := Err NotCompactJWS.
Definition now : time := unix 1705000000.

Definition q : values := <["client_id" := [client]]> {["request_uri" := ["https://verifier.example/r"]]}.
Definition fetch_object (_ _ _ : string) : result why string := Ok object_raw.
Definition settings : ConformanceSettings := mkSettings Strict true true.

Definition parsed_request : result why AuthorizationRequest := ParseAuthorizationParams fetch_object q.
Definition the_request : AuthorizationRequest := match parsed_request with Ok r => r | Err _ => empty_request end.
Definition ca : list X509Cert := ["ca"].
Abbreviation prepared_request := (PrepareARFChecks (RequireARF settings) ca ca ca (authorizationParams the_request)).
Lemma parses : parsed_request = Ok the_request.
Proof. vm_compute. reflexivity. Qed.
Lemma accepted :
  ValidateAuthorizationRequest family DNSNames unmarshal_any subject_names fetch parseCWT now settings (Some prepared_request) = Ok [].
Proof. vm_compute. reflexivity. Qed.

(** The request parses and is accepted with every profile on. *)
Lemma accepted_request_is_signed_witness :
  exists ro parts leaf rest,
    object_of the_request (ro_Raw ro) parts /\ ar_RequestObject the_request = Some ro /\ signed_by ro leaf rest /\
    certifies DNSNames leaf (ar_ClientID the_request) "https://verifier.example/cb" /\ ar_Nonce the_request <> "".
Proof.
  destruct (accepted_request_is_signed family DNSNames unmarshal_any subject_names fetch parseCWT now
    fetch_object q the_request settings ca ca ca [] parses accepted eq_refl) as (ro & parts & leaf & rest & H1 & H2 & H3 & H4 & _ & _ & _ & H5).
  { vm_compute. reflexivity. }
  exists ro, parts, leaf, rest. split; [exact H1|]. split; [exact H2|]. split; [exact H3|]. split; [exact H4|].
  apply H5. vm_compute. reflexivity.
Defined.

Lemma haip_request_conforms_witness :
  ap_ResponseType prepared_request = "vp_token" /\ ap_RequestURI prepared_request <> "" /\
  exists jwk, findEncryptionJWK (ap_RequestObject prepared_request) (ap_ClientMetadata prepared_request) = Some jwk /\ p256_key jwk.
Proof.
  destruct (haip_request_conforms family DNSNames unmarshal_any subject_names fetch parseCWT now
    settings prepared_request [] accepted eq_refl eq_refl) as (H1 & _ & H2 & _ & _ & H3).
  1-3: vm_compute; done.
  split; [exact H1|]. split; [apply H2; vm_compute; reflexivity|]. exists key. split; [vm_compute; reflexivity|apply H3; vm_compute; reflexivity].
Defined.

Lemma arf_request_is_registered_witness :
  exists reg access registrar, registered_sender unmarshal_any subject_names prepared_request reg access registrar /\
    asks_only_registered (vreg_claims reg) (Some query).
Proof.
  destruct (arf_request_is_registered family DNSNames unmarshal_any subject_names fetch parseCWT now
    settings prepared_request [] accepted eq_refl eq_refl) as (reg & access & registrar & H1 & H2 & _ & _ & H3).
  exists reg, access, registrar. split; [exact H2|]. destruct H3 as [H3|(items & H3 & _ & H4)]; [exact H3|].
  assert (E : request_registrations unmarshal_any prepared_request = ([mkVerified registration ["registrar"]], [])) by (vm_compute; reflexivity).
  rewrite E in H1. injection H1 as <-. vm_compute in H3. injection H3 as <-. vm_compute in H4. discriminate H4.
Defined.

Definition odd_registration : object := [("credentials", texts ["urn:pid"])].

Lemma malformed_registration_escapes_witness :
  nonEmptyList (index odd_registration "credentials") = true /\ overAskingFindings odd_registration (Some query) = [].
Proof. apply (malformed_registration_escapes odd_registration [VString "urn:pid"] (Some query)); done. Defined.

#[local] Instance toy_jose : Jose := {
  ECKey := string; Cert := string; unmarshal_jwk _ := None; ec_coords k := Some (k, k); jws_valid _ _ := true;
  parse_certificate s := Some s; cert_ec_key _ := None; common_name s := s; verifies _ _ _ := true }.

Definition strict_fetcher : fetcher := mkFetcher _ true true (Some "wallet").
Definition jwe : string := "a.b.c.d.e".
Definition post (_ _ body : string) : result why http_answer :=
  Ok (mkAnswer 200 "application/oauth-authz-req+jwt" (Ok (if (body =? post_form "{}" "n")%string then jwe else ""))).
Definition decrypt (s : string) (_ : ECKey) : result why string := if (s =? jwe)%string then Ok object_raw else Err (Text "jwe").

Lemma posted_request_object_witness :
  isJWT object_raw = true /\ exists key, RequestEncryptionKey strict_fetcher = Some key /\ decrypt jwe key = Ok object_raw.
Proof.
  destruct (posted_request_object post Ok decrypt (fun _ => Some "{}") strict_fetcher "https://verifier.example/r" client "n" [] object_raw)
    as (metadata & answer & body & Hm & Ha & _ & Hb & Hj & Hd & _ & _).
  { vm_compute. reflexivity. }
  split; [exact Hj|]. destruct Hd as [[_ Hd]|(_ & _ & Hd)]; [|vm_compute in Hd; discriminate Hd].
  destruct Hd as (k & Hk & _). exists k. split; [exact Hk|reflexivity].
Defined.
End RequestToy.
