(* ===== verification/ResponseFacts.v ===== *)
(** * ResponseFacts: what a verifier receives

    The encrypted response of Response can be read by the holder of the key the
    verifier chose, and by whoever sees the debug header; the other response
    modes post nothing, or the plain form.

    The encryption of internal/wallet/jwe.go and the decryption of internal/jwe
    undo each other: the reader with the private key gets the plaintext, and so
    does anyone with the content encryption key the wallet returns. *)

From stdpp Require Import base list strings gmap.
From Stdlib Require Import ZArith Lia Ascii.
From S2P Require Import Prelude GoStrings StringFacts GoValue Format Validity SDJWT DCQL Present Certs IssuerAuth UriQuery Requests PresentWire Jwe ClientAuth RequestChecks Response RequestFacts.

Local Open Scope Z_scope.

(** ** Strings *)

Lemma substring_all s : String.substring 0 (String.length s) s = s.
Proof. induction s as [|c s IH]; [done|]. cbn. by rewrite IH. Qed.

Lemma slices_join n s : (n <= String.length s)%nat -> slice_to n s +:+ slice_from n s = s.
Proof.
  unfold slice_to, slice_from. revert s. induction n as [|n IH]; intros s Hn.
  - destruct s as [|c s]; [done|]. rewrite Nat.sub_0_r. apply substring_all.
  - destruct s as [|c s]; [cbn in Hn; lia|]. cbn in Hn.
    change (String c (String.substring 0 n s +:+ String.substring n (String.length s - n) s) = String c s).
    f_equal. apply IH. lia.
Qed.

Lemma slice_to_length n s : (n <= String.length s)%nat -> String.length (slice_to n s) = n.
Proof.
  unfold slice_to. revert s. induction n as [|n IH]; intros s Hn; [by destruct s|].
  destruct s as [|c s]; [cbn in Hn; lia|]. cbn in *. f_equal. apply IH. lia.
Qed.

Lemma encode_not_empty s : s <> "" -> EncodeBase64URL s <> "".
Proof. intros Hs E. apply (f_equal DecodeBase64URL) in E. rewrite Decode_Encode in E. injection E as E. done. Qed.

(** The five parts of a compact JWE. *)
Lemma split_compact h i c t :
  free "." h = true -> free "." i = true -> free "." c = true -> free "." t = true ->
  split "." (h +:+ ".." +:+ i +:+ "." +:+ c +:+ "." +:+ t) = [h; ""; i; c; t].
Proof.
  intros Hh Hi Hc Ht.
  change (split "." (h +:+ String "." ("" +:+ String "." (i +:+ String "." (c +:+ String "." t)))) = [h; ""; i; c; t]).
  rewrite !split_sep by done. by rewrite (split_free _ t Ht).
Qed.

Lemma split_sealed h k i c t :
  free "." h = true -> free "." k = true -> free "." i = true -> free "." c = true -> free "." t = true ->
  split "." (h +:+ "." +:+ k +:+ "." +:+ i +:+ "." +:+ c +:+ "." +:+ t) = [h; k; i; c; t].
Proof.
  intros Hh Hk Hi Hc Ht.
  change (split "." (h +:+ String "." (k +:+ String "." (i +:+ String "." (c +:+ String "." t)))) = [h; k; i; c; t]).
  rewrite !split_sep by done. by rewrite (split_free _ t Ht).
Qed.

(** ** What the libraries promise *)

(** [json.Unmarshal] of what [json.Marshal] wrote: the strings of an object,
    and those of its inner objects; no other member. *)
Definition same_strings (m m' : object) : Prop := forall k v, get k m = Some (VString v) -> get k m' = Some (VString v).

Definition read_back (m m' : object) : Prop :=
  same_strings m m' /\ (forall k, get k m = None -> get k m' = None) /\
  (forall k o, get k m = Some (VObj o) -> exists o', get k m' = Some (VObj o') /\ same_strings o o').

Class JweLaws {json : Json} {hash : Hash} {crypto : JweCrypto} (rand_bytes : nat -> option string) := {
  (** Diffie-Hellman agreement *)
  ecdh_agree : forall a b z, ecdh a (ecdh_public b) = Some z -> ecdh b (ecdh_public a) = Some z;
  (** authenticated encryption opens what it sealed, with a 16-byte tag *)
  gcm_opens : forall k iv p aad, gcm_open k iv (gcm_seal k iv p aad) aad = Some p;
  gcm_length : forall k iv p aad, String.length (gcm_seal k iv p aad) = (String.length p + 16)%nat;
  rand_length : forall n s, rand_bytes n = Some s -> String.length s = n;
  sha256_length : forall s, String.length (sha256 s) = 32%nat;
  point_length : forall p, String.length (pub_bytes p) = 65%nat;
  json_reads : forall alg enc kid cty epk apu apv s, jwe_marshal (jwe_header alg enc kid cty epk apu apv) = Some s ->
    exists m', unmarshal_object s = Some m' /\ read_back (jwe_header alg enc kid cty epk apu apv) m';
  json_reads_rsa : forall alg enc kid s, jwe_marshal [("alg", VString alg); ("enc", VString enc); ("kid", VString kid)] = Some s ->
    exists m', unmarshal_object s = Some m' /\ same_strings [("alg", VString alg); ("enc", VString enc); ("kid", VString kid)] m';
  (** go-jose decodes the JWK of an ephemeral key to that key *)
  jwk_decodes : forall k m, same_strings (epk_members (ecdh_public k)) m ->
    exists s key, jwe_marshal m = Some s /\ decode_jwk s = Some (JwkEC key) /\ pub_ecdh key = Some (ecdh_public k) }.

Section facts.
Context {json : Json} {hash : Hash} {crypto : JweCrypto} (rand_bytes : nat -> option string) {laws : JweLaws rand_bytes}.

Lemma derived_key_length z enc apu apv n : EncKeyBitLen enc = Ok n -> aes_key (ConcatKDF z enc apu apv n) = true.
Proof.
  intros Hn. assert (Hk : n = 128 \/ n = 256).
  { unfold EncKeyBitLen in Hn. repeat (dmatch_in Hn; [injection Hn as <-; auto|]). done. }
  unfold ConcatKDF, aes_key, len. rewrite slice_to_length; [by destruct Hk as [-> | ->]|].
  rewrite sha256_length. by destruct Hk as [-> | ->]; apply Nat.leb_le.
Qed.

Lemma aes_key_not_empty k : aes_key k = true -> k <> "".
Proof. by intros H ->. Qed.

Lemma slice_from_length n s : (n <= String.length s)%nat -> String.length (slice_from n s) = (String.length s - n)%nat.
Proof.
  intros Hn. pose proof (slices_join n s Hn) as Hj. apply (f_equal String.length) in Hj.
  rewrite append_length, slice_to_length in Hj by done. lia.
Qed.

Lemma long_not_empty s n : String.length s = S n -> s <> "".
Proof. by intros H ->. Qed.

Lemma epk_readable k m : same_strings (epk_members (ecdh_public k)) m -> ParsePublicKeyJWK m = Ok (ecdh_public k).
Proof.
  intros Hm. destruct (jwk_decodes k m Hm) as (s & key & Hs & Hd & Hp). unfold ParsePublicKeyJWK, get_string, index.
  unfold epk_members, unmarshalECDHPublicKey in Hm. cbv zeta in Hm. rewrite point_length in Hm. cbn [Nat.sub Nat.div] in Hm.
  set (raw := pub_bytes (ecdh_public k)) in *.
  assert (Hl : String.length raw = 65%nat) by apply point_length. clearbody raw.
  rewrite (Hm "crv" "P-256" eq_refl), (Hm "x" _ eq_refl), (Hm "y" _ eq_refl). cbn [default from_option as_string id].
  assert (Hne : forall a n, String.length a = S n -> (EncodeBase64URL a =? "")%string = false).
  { intros a n Ha. by eapply String.eqb_neq, encode_not_empty, long_not_empty. }
  rewrite (Hne _ 31%nat), (Hne _ 31%nat).
  2: { rewrite slice_from_length; rewrite Hl; [done|apply Nat.leb_le; done]. }
  2: { destruct raw as [|c raw']; [done|]. change (String.length (slice_to 32 raw') = 32%nat). apply slice_to_length. cbn in Hl. lia. }
  rewrite Hs. unfold ParseJWK. rewrite Hd. cbn. by rewrite Hp.
Qed.

Definition agreed (enc : string) (apu apv : option string) (z : string) (n : Z) : string := ConcatKDF z enc (default "" apu) (default "" apv) n.

(** The parts of an encrypted response, and the header its reader sees. *)
Lemma encryptJWE_inv eph payload recipient kid alg enc cty apu apv compact cek :
  encryptJWE rand_bytes eph payload recipient kid alg enc cty apu apv = Ok (compact, cek) ->
  exists e pub z n header iv ciphertext tag,
    eph = Some e /\ pub_ecdh recipient = Some pub /\ ecdh e pub = Some z /\ EncKeyBitLen enc = Ok n /\ cek = agreed enc apu apv z n /\
    jwe_marshal (jwe_header alg enc kid cty (ecdh_public e) apu apv) = Some header /\
    encrypt_content rand_bytes enc cek payload (EncodeBase64URL header) = Ok (iv, ciphertext, tag) /\
    split "." compact = [EncodeBase64URL header; ""; EncodeBase64URL iv; EncodeBase64URL ciphertext; EncodeBase64URL tag].
Proof.
  unfold encryptJWE. destruct (EncKeyBitLen enc) as [n|] eqn:En; [|done]. cbn. intros H. destruct eph as [e|]; [|done].
  destruct (pub_ecdh recipient) as [pub|] eqn:Ep; [|done]. destruct (ecdh e pub) as [z|] eqn:Ez; [|done].
  destruct (jwe_marshal _) as [header|] eqn:Eh; [|done]. fold (agreed enc apu apv z n) in H.
  destruct (encrypt_content _ _ _ _ _) as [[[iv ct] tag]|] eqn:Ec; [|done]. injection H as <- <-.
  exists e, pub, z, n, header, iv, ct, tag. repeat split; try done. apply split_compact; apply encode_free_dot.
Qed.

Lemma read_string m m' k s : read_back m m' -> get k m = Some (VString s) -> as_string (index m' k) = Some s.
Proof. intros [Hs _] Hk. unfold index. by rewrite (Hs _ _ Hk). Qed.

Lemma read_optional m m' k v :
  read_back m m' -> get k m = VString ∘ EncodeBase64URL <$> v -> header_bytes m' k = default "" v.
Proof.
  intros Hr Hk. unfold header_bytes. destruct v as [s|].
  - rewrite (read_string _ _ _ _ Hr Hk). cbn. by rewrite Decode_Encode.
  - destruct Hr as (_ & Hn & _). unfold index. by rewrite (Hn _ Hk).
Qed.

Lemma header_parses header alg enc kid cty e apu apv compact rest :
  jwe_marshal (jwe_header alg enc kid cty (ecdh_public e) apu apv) = Some header -> enc <> "" ->
  split "." compact = EncodeBase64URL header :: rest -> length rest = 4%nat ->
  exists h epk, ParseHeader compact = Ok h /\ jh_Enc h = enc /\ jh_EPK h = Some epk /\ ParsePublicKeyJWK epk = Ok (ecdh_public e) /\
    jh_APU h = default "" apu /\ jh_APV h = default "" apv.
Proof.
  intros Hm Hne Hs Hl. destruct (json_reads _ _ _ _ _ _ _ _ Hm) as (m' & Hu & Hr).
  unfold ParseHeader. rewrite Hs. destruct rest as [|r1 [|r2 [|r3 [|r4 [|]]]]]; try done. rewrite Decode_Encode, Hu.
  assert (He : get_string m' "enc" = enc) by (unfold get_string; by rewrite (read_string _ _ "enc" enc Hr eq_refl)).
  rewrite He. apply String.eqb_neq in Hne. rewrite Hne.
  destruct (proj2 (proj2 Hr) "epk" _ eq_refl) as (epk & Hepk & Hsame).
  eexists _, epk. split; [done|]. cbn [jh_Enc jh_EPK jh_APU jh_APV]. unfold index. rewrite Hepk.
  split; [done|]. split; [done|]. split; [by apply epk_readable|].
  split; apply (read_optional _ _ _ _ Hr); unfold jwe_header; destruct apu, apv; cbn; by destruct (cty =? "")%string.
Qed.

Lemma content_opens enc n key payload aad iv ciphertext tag :
  contains ["A128GCM"; "A256GCM"] enc = true -> aes_key key = true -> EncKeyBitLen enc = Ok n ->
  encrypt_content rand_bytes enc key payload aad = Ok (iv, ciphertext, tag) -> OpenAESGCM key iv ciphertext tag aad = Ok payload.
Proof.
  intros He Hk _ H. unfold encrypt_content, random_iv in H. rewrite He in H. destruct (rand_bytes 12) as [i|] eqn:Er; [|done]. cbn in H.
  unfold encryptAESGCM in H. rewrite Hk in H. cbn in H. injection H as <- <- <-.
  unfold OpenAESGCM, len. rewrite Hk, (rand_length _ _ Er). cbn [negb Z.of_nat Z.eqb]. cbn.
  rewrite slices_join by lia. by rewrite gcm_opens.
Qed.

(** Whoever has the content encryption key that encryptJWE returns reads what it
    encrypted. *)
Lemma sealed_opens eph payload recipient kid alg enc cty apu apv compact cek :
  encryptJWE rand_bytes eph payload recipient kid alg enc cty apu apv = Ok (compact, cek) ->
  contains ["A128GCM"; "A256GCM"] enc = true -> DecryptWithCEK compact cek = Ok payload.
Proof.
  intros He Henc. apply encryptJWE_inv in He as (e & pub & z & n & header & iv & ct & tag & -> & Hp & Hz & Hn & Hcek & Hm & Hc & Hs).
  assert (Hne : enc <> "") by (intros ->; done).
  destruct (header_parses _ _ _ _ _ _ _ _ _ _ Hm Hne Hs eq_refl) as (h & epk & Hh & Henc' & _).
  unfold DecryptWithCEK. rewrite Hs, Hh. cbn [negb]. rewrite Henc', Henc. cbn [negb]. rewrite !Decode_Encode.
  eapply content_opens; [done| |done|done]. rewrite Hcek. by apply derived_key_length.
Qed.

(** What the wallet encrypts to a key, the holder of the key reads. *)
Lemma jwe_opens eph payload recipient key kid alg enc cty apu apv compact cek :
  encryptJWE rand_bytes eph payload recipient kid alg enc cty apu apv = Ok (compact, cek) ->
  contains ["A128GCM"; "A256GCM"] enc = true -> pub_ecdh recipient = Some (ecdh_public key) ->
  Decrypt compact (Some key) = Ok payload.
Proof.
  intros He Henc Hkey. pose proof (sealed_opens _ _ _ _ _ _ _ _ _ _ _ He Henc) as Hcek'. apply encryptJWE_inv in He as (e & pub & z & n & header & iv & ct & tag & -> & Hp & Hz & Hn & Hcek & Hm & Hc & Hs).
  rewrite Hkey in Hp. injection Hp as <-.
  assert (Hne : enc <> "") by (intros ->; done).
  destruct (header_parses _ _ _ _ _ _ _ _ _ _ Hm Hne Hs eq_refl) as (h & epk & Hh & Henc' & Hepk & Hpk & Hu & Hv).
  unfold Decrypt. rewrite Hh, Hepk, Hpk, (ecdh_agree _ _ _ Hz), Henc', Hu, Hv, Hn.
  unfold agreed in Hcek. by rewrite <- Hcek.
Qed.

(** The same for an RSA key, which wraps the content encryption key. *)
Lemma rsa_opens payload recipient kid alg enc compact cek :
  EncryptJWERSA rand_bytes payload recipient kid alg enc = Ok (compact, cek) ->
  cek <> "" /\ exists sha2 wrapped h i c t, oaep_encrypt sha2 recipient cek = Some wrapped /\
    split "." compact = [h; EncodeBase64URL wrapped; i; c; t] /\
    (contains ["A128GCM"; "A256GCM"] enc = true -> DecryptWithCEK compact cek = Ok payload).
Proof.
  unfold EncryptJWERSA. destruct (EncKeyBitLen enc) as [n|] eqn:En; [|done]. intros H.
  match type of H with match ?x with Ok _ => _ | Err _ => _ end = _ => destruct x as [sha2|] eqn:Es end; [|done].
  destruct (rand_bytes _) as [k|] eqn:Er; [|done]. destruct (oaep_encrypt sha2 recipient k) as [wrapped|] eqn:Eo; [|done].
  destruct (jwe_marshal _) as [header|] eqn:Em; [|done]. destruct (encrypt_content _ _ _ _ _) as [[[iv ct] tg]|] eqn:Ec; [|done].
  injection H as <- <-. assert (Hn : n = 128 \/ n = 256).
  { unfold EncKeyBitLen in En. repeat (dmatch_in En; [injection En as <-; auto|]). done. }
  pose proof (rand_length _ _ Er) as Hlen. assert (Hk : aes_key k = true).
  { unfold aes_key, len. rewrite Hlen. by destruct Hn as [-> | ->]. }
  split; [by apply aes_key_not_empty|]. exists sha2, wrapped, (EncodeBase64URL header), (EncodeBase64URL iv), (EncodeBase64URL ct), (EncodeBase64URL tg).
  split; [exact Eo|]. assert (Hs := split_sealed _ _ _ _ _ (encode_free_dot header) (encode_free_dot wrapped) (encode_free_dot iv) (encode_free_dot ct) (encode_free_dot tg)).
  split; [exact Hs|]. intros Henc. destruct (json_reads_rsa _ _ _ _ Em) as (m' & Hu & Hr).
  unfold DecryptWithCEK, ParseHeader. rewrite Hs, Decode_Encode, Hu.
  assert (He : get_string m' "enc" = enc) by (unfold get_string, index; by rewrite (Hr "enc" enc eq_refl)).
  rewrite He. assert (Hne : (enc =? "")%string = false) by (apply String.eqb_neq; intros ->; done). rewrite Hne. cbn [jh_Enc]. rewrite Henc. cbn [negb].
  rewrite !Decode_Encode. eapply content_opens; [exact Henc|exact Hk|exact En|exact Ec].
Qed.
End facts.

(** ** Instances for the witness: one key, a fixed shared secret, and a cipher
    that appends its tag. *)
Module JweToy.
Definition tag : string := repeat_byte 16 "t".
Definition point : string := repeat_byte 65 "p".

#[local] Instance toy_hash : Hash := { sha256 _ := repeat_byte 32 "h"; sha384 s := s; sha512 s := s }.

#[local] Instance toy_crypto : JweCrypto := {
  EcPub := unit; EcdhPub := unit; EcdhPriv := unit; pub_ecdh _ := Some tt; ecdh_public _ := tt; pub_bytes _ := point;
  ecdh _ _ := Some "z"; decode_jwk _ := Some (JwkEC tt);
  gcm_seal _ _ p _ := p +:+ tag; gcm_open _ _ s _ := Some (slice_to (String.length s - 16) s);
  cbc_encrypt _ _ p := p; hmac_sha256 _ m := m; oaep_encrypt _ _ _ := None;
  jwe_marshal m :=
    match get "kty" m with
    | Some _ => Some "jwk"
    | None =>
        if bool_decide (is_Some (get "vp_token" m)) then Some "response"
        else if (get_string m "alg" =? "ECDH-ES")%string && (get_string m "enc" =? "A128GCM")%string && (get_string m "kid" =? "k")%string
           && bool_decide (length m = 4%nat)
        then Some "header" else None
    end }.

Definition the_header : object := jwe_header "ECDH-ES" "A128GCM" "k" "" tt None None.

#[local] Instance toy_json : Json := { unmarshal_object s := if (s =? "header")%string then Some the_header else None; unmarshal_array _ := None }.

Definition random (n : nat) : option string := Some (repeat_byte n "r").

Lemma repeat_length n c : String.length (repeat_byte n c) = n.
Proof. induction n; cbn; congruence. Qed.

Lemma slice_to_app s t : slice_to (String.length s) (s +:+ t) = s.
Proof. induction s as [|c s IH]; [by destruct t|]. change (String c (slice_to (String.length s) (s +:+ t)) = String c s). by rewrite IH. Qed.

Lemma read_back_refl m : read_back m m.
Proof. split; [by intros k v|]. split; [done|]. intros k o H. exists o. split; [done|by intros k' v]. Qed.

Lemma toy_header alg enc kid cty epk apu apv s :
  jwe_marshal (jwe_header alg enc kid cty epk apu apv) = Some s -> jwe_header alg enc kid cty epk apu apv = the_header /\ s = "header".
Proof.
  assert (Hk : get "kty" (jwe_header alg enc kid cty epk apu apv) = None).
  { unfold jwe_header. by destruct apu, apv, (cty =? "")%string. }
  assert (Ht : bool_decide (is_Some (get "vp_token" (jwe_header alg enc kid cty epk apu apv))) = false).
  { unfold jwe_header. by destruct apu, apv, (cty =? "")%string. }
  cbn [jwe_marshal toy_crypto]. rewrite Hk, Ht.
  change (get_string (jwe_header alg enc kid cty epk apu apv) "alg") with alg.
  change (get_string (jwe_header alg enc kid cty epk apu apv) "enc") with enc.
  change (get_string (jwe_header alg enc kid cty epk apu apv) "kid") with kid.
  intros H. match type of H with (if ?b then _ else _) = _ => destruct b eqn:E end; [|done]. injection H as <-. bsimpl.
  destruct E as [[[-> ->] ->] E]. apply bool_decide_eq_true in E. unfold jwe_header in *. rewrite !length_app in E.
  destruct epk, apu, apv, (cty =? "")%string; cbn [length optional_member fmap option_fmap option_map] in E; try lia. done.
Qed.

#[local] Instance toy_laws : JweLaws random.
Proof.
  split; try done.
  - intros k iv p aad. cbn. rewrite append_length. f_equal. replace (_ - 16)%nat with (String.length p) by (cbn; lia). apply slice_to_app.
  - intros k iv p aad. cbn. by rewrite append_length.
  - intros n s [= <-]. apply repeat_length.
  - intros. apply toy_header in H as [-> ->]. exists the_header. split; [done|apply read_back_refl].
  - intros alg enc kid s H. cbn in H. destruct (_ && _) eqn:E; [|done]. apply andb_true_iff in E as [_ E]. done.
  - intros k m Hm. exists "jwk", tt. split; [|done]. cbn. by rewrite (Hm "kty" "EC" eq_refl).
Qed.
End JweToy.

Section facts.
Context {json : Json} {hash : Hash} {crypto : JweCrypto} {pki : Pki}.
Context (marshal_value : value -> option string) (rand_bytes : nat -> option string) {laws : JweLaws rand_bytes}.
Context (eph : option EcdhPriv) (mode : ValidationMode).
Context (post : posted -> result why (Z * string * result why string)).

Abbreviation submit := (SubmitPresentation marshal_value rand_bytes eph mode post).

Lemma posts_of_send p : (send post p).1 = [p].
Proof. done. Qed.

Lemma encrypted_with vpToken idToken state mdocNonce params jwe cek :
  EncryptResponse rand_bytes eph mode vpToken idToken state mdocNonce params = Ok (jwe, cek) ->
  exists plaintext key, jwe_marshal (response_payload vpToken idToken state (rp_mode params)) = Some plaintext /\
    extractEncryptionKey mode (rp_RequestObject params) (rp_ClientMetadata params) = Ok key /\
    let enc := detectEncAlgorithm (rp_RequestObject params) (rp_ClientMetadata params) "A128GCM" in
    match ek_Key key with
    | inl pub => exists apu apv, EncryptJWE rand_bytes eph plaintext pub (ek_Kid key) (ek_Alg key) enc apu apv = Ok (jwe, cek)
    | inr rsa => EncryptJWERSA rand_bytes plaintext rsa (ek_Kid key) (ek_Alg key) enc = Ok (jwe, cek)
    end.
Proof.
  unfold EncryptResponse, encryptDirectPostJWTPayload. destruct (jwe_marshal _) as [plaintext|]; [|done].
  destruct (extractEncryptionKey _ _ _) as [key|] eqn:Ek; [|done]. intros H. exists plaintext, key.
  split; [done|]. split; [done|]. cbv zeta in *. destruct (ek_Key key); [by eexists _, _|done].
Qed.

(** The key an encrypted response carries beside it is never empty. *)
Lemma cek_not_empty payload recipient kid alg enc apu apv jwe cek :
  EncryptJWE rand_bytes eph payload recipient kid alg enc apu apv = Ok (jwe, cek) -> cek <> "".
Proof.
  intros H. apply encryptJWE_inv in H as (e & pub & z & n & header & iv & ct & tag & _ & _ & _ & Hn & -> & _).
  apply aes_key_not_empty. by eapply derived_key_length.
Qed.

(** C18: An encrypted authorization response of mode direct_post.jwt goes to the
    response_uri and nowhere else, as one form whose only member is the JWE, with
    the content encryption key in X-Debug-JWE-CEK, in every validation mode.
    When the content is encrypted with AES-GCM, anyone reads the JSON of state,
    vp_token and id_token, and nothing else, with that header alone; the holder
    of the verifier's chosen EC key decrypts the JWE to it, and a chosen RSA key
    wraps the very same content encryption key in the JWE.  (For A128CBC-HS256
    the program has no reader, and nothing is said of opening it.) *)
Theorem posted_response_is_sealed vpResult idToken state responseURI params p :
  rp_mode params = "direct_post.jwt" -> p ∈ (submit vpResult idToken state responseURI params).1 ->
  po_URL p = responseURI /\ exists jwe cek key plaintext,
    po_Form p = {["response" := [jwe]]} /\ po_DebugCEK p = Some (EncodeBase64URL cek) /\
    extractEncryptionKey mode (rp_RequestObject params) (rp_ClientMetadata params) = Ok key /\
    jwe_marshal (nonempty_member "state" state ++ member "vp_token" (VPToken <$> vpResult) ++ nonempty_member "id_token" idToken) = Some plaintext /\
    (forall rsa, ek_Key key = inr rsa -> exists sha2 wrapped h i c t,
       oaep_encrypt sha2 rsa cek = Some wrapped /\ split "." jwe = [h; EncodeBase64URL wrapped; i; c; t]) /\
    (contains ["A128GCM"; "A256GCM"] (detectEncAlgorithm (rp_RequestObject params) (rp_ClientMetadata params) "A128GCM") = true ->
     DecryptWithCEK jwe cek = Ok plaintext /\
     forall pub priv, ek_Key key = inl pub -> pub_ecdh pub = Some (ecdh_public priv) -> Decrypt jwe (Some priv) = Ok plaintext).
Proof.
  intros Hm. unfold SubmitPresentation, BuildAuthorizationResponse, response_mode. rewrite Hm.
  change (if (_ =? "")%string then "direct_post" else "direct_post.jwt") with "direct_post.jwt".
  change (contains ["direct_post.jwt"; "dc_api.jwt"; "ia_post.jwt"] "direct_post.jwt") with true. cbv beta iota zeta.
  destruct (EncryptResponse _ _ _ _ _ _ _ _) as [[jwe cek]|e] eqn:E; [|by intros ?%elem_of_nil].
  unfold deliver. cbn [env_ResponseMode env_ResponseJWT env_CEK]. unfold SubmitDirectPostJWT. cbn [String.eqb Ascii.eqb Bool.eqb]. rewrite posts_of_send.
  intros ->%list_elem_of_singleton. split; [done|]. cbn [po_Form po_DebugCEK].
  destruct (encrypted_with _ _ _ _ _ _ _ E) as (plaintext & key & Hp & Hk & He). rewrite Hm in Hp. exists jwe, cek, key, plaintext.
  split; [done|]. cbv zeta in He. destruct (ek_Key key) as [pub|rsa].
  - destruct He as (apu & apv & Hj). pose proof (cek_not_empty _ _ _ _ _ _ _ _ _ Hj) as Hne%String.eqb_neq. rewrite Hne.
    do 3 (split; [done|]). split; [done|]. intros Henc. destruct (pub_ecdh pub) as [q|] eqn:Eq.
    + split; [by eapply (sealed_opens rand_bytes)|]. intros pub' priv [= <-] Hpriv. by apply (jwe_opens rand_bytes _ _ _ priv _ _ _ _ _ _ _ _ Hj Henc).
    + apply encryptJWE_inv in Hj as (e & q & z & n & header & iv & ct & tag & _ & Hq & _). congruence.
  - destruct (rsa_opens rand_bytes _ _ _ _ _ _ _ He) as (Hne%String.eqb_neq & sha2 & wrapped & h & i & c & t & Ho & Hs & Hopen). rewrite Hne.
    do 3 (split; [done|]). split; [|intros Henc; split; [by apply Hopen|done]].
    intros rsa' [= <-]. by exists sha2, wrapped, h, i, c, t.
Qed.

(** A mode that is neither direct_post nor direct_post.jwt posts nothing. *)
Lemma only_direct_post_posts vpResult idToken state responseURI params :
  contains ["direct_post"; "direct_post.jwt"] (response_mode params) = false ->
  (submit vpResult idToken state responseURI params).1 = [].
Proof.
  intros Hm. unfold SubmitPresentation. destruct (BuildAuthorizationResponse _ _ _ _ _ _ _ _) as [r|e] eqn:E; [|done].
  assert (Hr : env_ResponseMode r = response_mode params).
  { unfold BuildAuthorizationResponse in E. repeat (dmatch_in E; try done; try (injection E as <-; done)). }
  unfold deliver. rewrite Hr. apply bool_decide_eq_false in Hm. rewrite !not_elem_of_cons in Hm. destruct Hm as (Ha%String.eqb_neq & Hb%String.eqb_neq & _).
  rewrite Ha, Hb. by repeat case_match.
Qed.
End facts.

(** ** A verifier with one key, and a presentation of one credential *)
Module ResponseToy.
#[local] Existing Instances JweToy.toy_hash JweToy.toy_crypto JweToy.toy_json RequestToy.toy_pki.

Definition metadata : object :=
  [("jwks", VObj [("keys", VArr [VObj [("kty", VString "EC"); ("kid", VString "k"); ("alg", VString "ECDH-ES"); ("crv", VString "P-256");
                                       ("x", VString "x"); ("y", VString "y")]])])].
Definition params : ResponseParams :=
  mkResponseParams (mkParams "nonce" "verifier" "" "direct_post.jwt" "") "https://verifier/response" "" (Some metadata) None.
Definition tokens : VPTokenMapResult := mkVPResult {["pid" := ["credential"]]} "".
Definition answer (p : posted) : result why (Z * string * result why string) := Ok (200, "", Ok "").
Definition submitted : list posted :=
  (SubmitPresentation (fun _ => None) JweToy.random (Some tt) Strict answer (Some tokens) "" "s" (rp_ResponseURI params) params).1.

Lemma one_post : exists p, submitted = [p].
Proof. eexists. vm_compute. reflexivity. Qed.

Lemma posted_response_is_sealed_witness :
  exists p, submitted = [p] /\ po_URL p = "https://verifier/response" /\
    exists jwe, po_Form p = {["response" := [jwe]]} /\ Decrypt jwe (Some tt) = Ok "response".
Proof.
  destruct one_post as [p Hp]. exists p. split; [exact Hp|].
  assert (Hin : p ∈ submitted) by (rewrite Hp; apply list_elem_of_here).
  destruct (posted_response_is_sealed (laws := JweToy.toy_laws) (fun _ => None) JweToy.random (Some tt) Strict answer (Some tokens) "" "s"
              "https://verifier/response" params p eq_refl Hin) as [Hu (jwe & cek & key & plaintext & Hf & _ & Hk & Hm & _ & H)].
  split; [exact Hu|]. exists jwe. split; [exact Hf|].
  vm_compute in Hk, Hm. injection Hk as <-. injection Hm as <-.
  refine (proj2 (H _) tt tt eq_refl eq_refl). vm_compute. reflexivity.
Defined.
End ResponseToy.
