(* ===== verification/MdocPresent.v ===== *)
(** * MdocPresent: the DeviceResponse a wallet presents

    src/internal/wallet/presentation_mdoc.go: the selected elements of a stored
    mdoc, the session transcript of the request and the holder's signature over
    it.  The CBOR codec and COSE signing are the classes [Cbor], [CborRaw] and
    [CoseSigner]; log lines and protocol warnings are not modelled. *)

From stdpp Require Import base list strings.
From Stdlib Require Import ZArith.
From S2P Require Import Prelude GoStrings GoValue Format Validity SDJWT WalletState DCQL Present Certs Mdoc IssuerAuth Requests Jwe RequestChecks Response.

Local Open Scope Z_scope.

(** [SessionTranscriptMode]; the empty text is unset. *)
Definition SessionTranscriptISO : string := "iso".
Definition SessionTranscriptOID4VP : string := "oid4vp".

(** [cbor.Unmarshal] into a [map[string]cbor.RawMessage] *)
Class CborRaw := { cbor_raw_map : string -> option (list (string * string)) }.

(** [cose.NewSigner], [msg.Sign] and [msg.MarshalCBOR] of an untagged
    COSE_Sign1 with alg ES256 in the protected header, no other header, whose
    payload is detached. *)
Class CoseSigner `{Signer} := { cose_sign1 : PrivateKey -> string -> option string }.

Record VPTokenResult := mkVPToken { vp_Token : string; vt_MDocNonce : string }.

(** A deviation refuses the flow in strict mode. *)
Definition reportDeviation (mode : ValidationMode) (refusal : why) : option why :=
  match mode with Strict => Some refusal | Debug => None end.

Definition credentialLabel (c : StoredCredential) : string :=
  if negb (VCT c =? "")%string then VCT c else if negb (WalletState.DocType c =? "")%string then WalletState.DocType c else ID c.

(** The transcript mode of a presentation: its own, or the wallet's. *)
Definition sessionTranscriptFor (override wallet_mode : string) : string :=
  if negb (override =? "")%string then override else wallet_mode.

(** A text key and its value. *)
Abbreviation field k v := (CText k, v).

(** [m[k]] of a Go map of raw messages: a missing one is encoded as null. *)
Definition raw_member (k : string) (m : list (string * string)) : cbor :=
  match List.find (fun kv => (kv.1 =? k)%string) m with Some kv => CRaw kv.2 | None => CNil end.

(** The elements the presentation discloses. *)
Definition item_selected (selectedKeys : list string) (ns : string) (item : IssuerSignedItem) : bool :=
  contains selectedKeys (ns +:+ ":" +:+ item_ElementIdentifier item) && negb (bool_decide (item_RawCBOR item = [])).

Definition selected_items (selectedKeys : list string) (ns : string * list IssuerSignedItem) : list IssuerSignedItem :=
  List.filter (item_selected selectedKeys ns.1) ns.2.

(** A Go map: a namespace without a selected element has no entry. *)
Definition filteredNS (selectedKeys : list string) (nameSpaces : list (string * list IssuerSignedItem)) : list (string * list IssuerSignedItem) :=
  List.filter (fun ns => negb (bool_decide (ns.2 = []))) (map (fun ns => (ns.1, selected_items selectedKeys ns)) nameSpaces).

Definition raw_items (ns : string * list IssuerSignedItem) : cbor * cbor :=
  field ns.1 (CArr (map (fun item => CRaw (string_of (item_RawCBOR item))) ns.2)).

Section mdoc.
Context {json : Json} {hash : Hash} {pki : Pki} {codec : Cbor} {raws : CborRaw} {reader : CredentialReader}.
Context {signer : Signer} {csigner : CoseSigner}.
Context (rand_bytes : nat -> option string).
Context {crypto : JweCrypto}.

Definition newMDocGeneratedNonce : result why string :=
  match rand_bytes 16 with Some nonce => Ok (EncodeBase64URL nonce) | None => Err (Text "generating nonce: %w") end.

Definition buildSessionTranscript (transcript_mode : string) (params : ResponseParams) (mdocNonce jwkThumbprint : string) : result why string :=
  let p := rp_Params params in
  let m := pp_ResponseMode p in
  if isInteractiveAuthorizationResponseMode m then
    BuildOID4VCIIAESessionTranscript (pp_InteractiveAuthorizationEndpoint p) (pp_Nonce p)
      (if (m =? "ia_post")%string then "" else jwkThumbprint)
  else
    let mode := if (transcript_mode =? "")%string then SessionTranscriptOID4VP else transcript_mode in
    if (mode =? SessionTranscriptISO)%string then buildSessionTranscriptISO (pp_ClientID p) (rp_ResponseURI params) (pp_Nonce p) mdocNonce
    else if (mode =? SessionTranscriptOID4VP)%string then
      if isDCAPIResponseMode m then buildSessionTranscriptOID4VPDCAPI (pp_RequestOrigin p) (pp_Nonce p) jwkThumbprint
      else BuildOID4VPSessionTranscript (pp_ClientID p) (pp_Nonce p) jwkThumbprint (rp_ResponseURI params)
    else Err (Fmt "unknown session transcript mode: %s" [Text mode]).

Definition emptyDeviceNamespacesBytes : result why string := tag24 (CMap []).

Definition createDeviceAuth (sessionTranscriptBytes docType : string) (signingKey : PrivateKey) : result why string :=
  match emptyDeviceNamespacesBytes with
  | Err e => Err (Fmt "encoding DeviceNameSpaces: %w" [e])
  | Ok deviceNamespacesBytes =>
      match cbor_encode (CArr [CText "DeviceAuthentication"; CRaw sessionTranscriptBytes; CText docType; CRaw deviceNamespacesBytes]) with
      | None => Err (Text "encoding DeviceAuthentication: %w")
      | Some deviceAuthBytes =>
          match tag24Raw deviceAuthBytes with
          | Err e => Err (Fmt "encoding Tag24(DeviceAuthentication): %w" [e])
          | Ok tag24Payload => match cose_sign1 signingKey tag24Payload with Some s => Ok s | None => Err (Text "COSE signing: %w") end
          end
      end
  end.

(** [json]-like maps have no order in Go; the model encodes them in this one. *)
Definition device_response (docType : string) (nameSpaces : list (string * list IssuerSignedItem)) (issuerAuth : cbor)
    (deviceNamespaces deviceAuth : string) : cbor :=
  CMap [field "version" (CText "1.0");
        field "documents" (CArr [CMap [
          field "docType" (CText docType);
          field "issuerSigned" (CMap [field "nameSpaces" (CMap (map raw_items nameSpaces)); field "issuerAuth" issuerAuth]);
          field "deviceSigned" (CMap [field "nameSpaces" (CRaw deviceNamespaces);
                                      field "deviceAuth" (CMap [field "deviceSignature" (CRaw deviceAuth)])])]]);
        field "status" (CInt KInt 0)].

(** The ISO transcript alone uses the generated nonce. *)
Definition transcript_nonce (mode mdocNonce : string) : result why string :=
  if negb (mode =? SessionTranscriptISO)%string then Ok "" else if (mdocNonce =? "")%string then newMDocGeneratedNonce else Ok mdocNonce.

Definition missing_device_key (cred : StoredCredential) : why :=
  Fmt "strict mode does not present mdoc %s without an MSO deviceKey (ISO 18013-5 9.1.2.4)" [Text (credentialLabel cred)].

(** The signed parts of a presentation: the issuer's, then the holder's. *)
Definition device_signed (cred : StoredCredential) (params : ResponseParams) (transcript_mode mdocNonce : string) (signingKey : PrivateKey) :
  result why (string * string) :=
  match buildSessionTranscript transcript_mode params mdocNonce (extractJWKThumbprint (rp_RequestObject params) (rp_ClientMetadata params)) with
  | Err e => Err (Fmt "building SessionTranscript: %w" [e])
  | Ok sessionTranscriptBytes =>
      match createDeviceAuth sessionTranscriptBytes (WalletState.DocType cred) signingKey with
      | Err e => Err (Fmt "creating DeviceAuth: %w" [e])
      | Ok deviceAuthBytes =>
          match emptyDeviceNamespacesBytes with
          | Err e => Err (Fmt "encoding DeviceNameSpaces: %w" [e])
          | Ok deviceNamespacesBytes => Ok (deviceNamespacesBytes, deviceAuthBytes)
          end
      end
  end.

(** A nil signing key makes go-cose panic; the key is not optional here. *)
Definition createMDocPresentation (mode : ValidationMode) (wallet_transcript transcript_override : string) (cred : StoredCredential)
    (selectedKeys : list string) (params : ResponseParams) (mdocNonce : string) (signingKey : PrivateKey) : result why VPTokenResult :=
  match (if holder_bound (Raw cred) then None else reportDeviation mode (missing_device_key cred)) with
  | Some e => Err e
  | None =>
      match DecodeHexOrBase64URL (Raw cred) with
      | None => Err (Text "decoding mdoc: %w")
      | Some rawBytes =>
          match cbor_raw_map rawBytes with
          | None => Err (Text "parsing IssuerSigned CBOR: %w")
          | Some issuerSigned =>
              let transcript_mode := sessionTranscriptFor transcript_override wallet_transcript in
              let? mdocNonce := transcript_nonce (if (transcript_mode =? "")%string then SessionTranscriptOID4VP else transcript_mode) mdocNonce in
              let? parts := device_signed cred params transcript_mode mdocNonce signingKey in
              match cbor_encode (device_response (WalletState.DocType cred) (filteredNS selectedKeys (NameSpaces cred))
                                   (raw_member "issuerAuth" issuerSigned) parts.1 parts.2) with
              | None => Err (Text "encoding DeviceResponse: %w")
              | Some responseBytes => Ok (mkVPToken (EncodeBase64URL responseBytes) mdocNonce)
              end
          end
      end
  end.
End mdoc.
