(* ===== verification/MdocPresentFacts.v ===== *)
(** * MdocPresentFacts: what a presented mdoc is bound to, and who reads it

    The holder's signature covers one request: the transcripts of different
    requests differ, and those of different handovers too.  The verifier's
    parser reads the DeviceResponse back and accepts the signature.

    It opens with the laws of encoding and decoding that the theorems on
    presented mdocs use, and a small codec with all of them, for the witnesses. *)

From stdpp Require Import base list strings.
From Stdlib Require Import ZArith Lia Ascii Wf_nat.
From S2P Require Import Prelude GoStrings StringFacts GoValue Format Validity SDJWT WalletState DCQL Present PresentWire Certs Mdoc MdocFacts.
From S2P Require Import IssuerAuth Requests Jwe RequestChecks Response MdocPresent.

Local Open Scope Z_scope.

(** ** Encoding *)

(** Values whose encoding is fixed: no raw message, number, map with
    members or tag but 24. *)
Fixpoint simple (v : cbor) : bool :=
  match v with
  | CNil | CText _ | CBytes _ | CMap [] => true
  | CArr l => forallb simple l
  | CTag n c => (n =? 24) && simple c
  | _ => false
  end.

(** fxamacker/cbor: a raw message is written as it is; simple values are
    written in one way, each in its own, and well-formed. *)
Class CborLaws (codec : Cbor) := {
  encode_raw : forall l v b r, cbor_encode v = Some b -> cbor_encode (CArr (l ++ CRaw b :: r)) = cbor_encode (CArr (l ++ v :: r));
  encode_inj : forall v w b, simple v = true -> simple w = true -> cbor_encode v = Some b -> cbor_encode w = Some b -> v = w;
  encode_wellformed : forall v b, simple v = true -> cbor_encode v = Some b -> cbor_wellformed b = true }.

(** ** Reading what was written *)

Section reading.
Context {codec : Cbor}.

(** A value as the decoder sees it in its encoding: the raw messages read, a
    signed number as an unsigned one. *)
Fixpoint resolve (v : cbor) : option cbor :=
  match v with
  | CRaw b => cbor_decode b
  | CInt _ z => Some (CInt (if z <? 0 then KInt64 else KUint64) z)
  | CArr l => CArr <$> (fix go l := match l with [] => Some [] | x :: l => y ← resolve x; ys ← go l; Some (y :: ys) end) l
  | CMap m => CMap <$> (fix go m := match m with [] => Some [] | (k, x) :: m => y ← resolve x; ys ← go m; Some ((k, y) :: ys) end) m
  | CTag n c => CTag n <$> resolve c
  | _ => Some v
  end.

Definition reads_back_cbor (v : cbor) : Prop := forall b w, cbor_encode v = Some b -> resolve v = Some w -> cbor_decode b = Some w.

(** A decoded value can be written and read again. *)
Definition recodes (v : cbor) : Prop := exists b, cbor_encode v = Some b /\ cbor_decode b = Some v.

Definition resolve_list (l : list cbor) : option (list cbor) := mapM resolve l.
Definition resolve_members (m : cbor_map) : option cbor_map := mapM (fun kv => y ← resolve kv.2; Some (kv.1, y)) m.

Lemma resolve_arr l : resolve (CArr l) = CArr <$> resolve_list l.
Proof. reflexivity. Qed.

Lemma resolve_map m : resolve (CMap m) = CMap <$> resolve_members m.
Proof.
  cbn [resolve]. f_equal. unfold resolve_members. induction m as [|[k x] m IH]; [done|]. cbn. destruct (resolve x); [|done]. cbn. by rewrite IH.
Qed.

Lemma resolve_members_cons k v m :
  resolve_members ((k, v) :: m) = (y ← resolve v; ys ← resolve_members m; Some ((k, y) :: ys)).
Proof. unfold resolve_members. cbn. by destruct (resolve v). Qed.
End reading.

Class CborReads (codec : Cbor) := {
  print_text : forall s, print_key (CText s) = s;
  tag24_reads : forall e b, cbor_encode (CTag 24 (CBytes e)) = Some b -> cbor_decode b = Some (CTag 24 (CBytes e));
  (** the head of a map of three members *)
  map_head : forall a b c s, cbor_encode (CMap [a; b; c]) = Some s -> exists rest, s = String (ascii_of 163) rest }.

(** ** A codec: a list or a map is its items, a string is escaped *)
Module CborCodec.
Fixpoint escape (s : string) : string := match s with "" => "." | String c s => String "," (String c (escape s)) end.

Fixpoint unescape (s : string) : option (string * string) :=
  match s with
  | String "." s => Some ("", s)
  | String "," (String c s) => match unescape s with Some (x, s) => Some (String c x, s) | None => None end
  | _ => None
  end.

Lemma unescape_escape s rest : unescape (escape s +:+ rest) = Some (s, rest).
Proof.
  induction s as [|c s IH]; [done|]. change (escape (String c s) +:+ rest) with (String "," (String c (escape s +:+ rest))).
  cbn [unescape]. by rewrite IH.
Qed.

Fixpoint enc (v : cbor) : string :=
  match v with
  | CText s => String "t" (escape s)
  | CBytes s => String "b" (escape s)
  | CArr l => (fix go l := match l with [] => "]" | x :: l => String "," (enc x +:+ go l) end) l
  | CMap m =>
      (fix go m := match m with
                   | [] => String (ascii_of 160) ""
                   | (k, x) :: m' => String (ascii_of (160 + Z.of_nat (length m)))
                                       (escape (default "" (as_text k)) +:+ (enc x +:+ go m'))
                   end) m
  | CTag _ c => String "g" (enc c)
  | CRaw b => b
  | CInt _ _ => "i"
  | _ => "n"
  end.

Definition read_escaped (f : string -> cbor) (s : string) : option (cbor * string) := '(x, s) ← unescape s; Some (f x, s).

Fixpoint dec (fuel : nat) (s : string) : option (cbor * string) :=
  match fuel, s with
  | S n, String c s =>
      if (160 <? nat_of_ascii c)%nat then
        '(k, s) ← unescape s; '(x, s) ← dec n s; r ← dec n s;
        match r with (CMap m, s) => Some (CMap ((CText k, x) :: m), s) | _ => None end
      else if (nat_of_ascii c =? 160)%nat then Some (CMap [], s)
      else if (c =? "n")%char then Some (CNil, s)
      else if (c =? "i")%char then Some (CInt KUint64 0, s)
      else if (c =? "t")%char then read_escaped CText s
      else if (c =? "b")%char then read_escaped CBytes s
      else if (c =? "g")%char then '(x, s) ← dec n s; Some (CTag 24 x, s)
      else if (c =? "]")%char then Some (CArr [], s)
      else if (c =? ",")%char then
        '(x, s) ← dec n s; r ← dec n s; match r with (CArr l, s) => Some (CArr (x :: l), s) | _ => None end
      else None
  | _, _ => None
  end.

Definition decode (s : string) : option cbor := match dec (String.length s) s with Some (v, "") => Some v | _ => None end.

Lemma unescape_ext s x r rest : unescape s = Some (x, r) -> unescape (s +:+ rest) = Some (x, r +:+ rest) /\ (String.length x + String.length r < String.length s)%nat.
Proof.
  revert x r. induction s as [s IH] using (induction_ltof1 _ String.length); unfold ltof in IH. intros x r H.
  destruct s as [|c s]; [done|]. change (String c s +:+ rest) with (String c (s +:+ rest)). destruct (Ascii.eqb_spec c ".") as [->|Hd].
  { cbn in H |- *. injection H as <- <-. split; [done|cbn; lia]. }
  destruct (Ascii.eqb_spec c ",") as [->|Hc].
  - destruct s as [|d s]; [done|]. change (String d s +:+ rest) with (String d (s +:+ rest)). cbn [unescape] in *.
    destruct (unescape s) as [[y r']|] eqn:E; [|done]. injection H as <- <-. destruct (IH s ltac:(cbn; lia) _ _ E) as [-> Hl].
    split; [done|]. cbn. lia.
  - exfalso. clear IH. cbn [unescape] in H. destruct c as [[] [] [] [] [] [] [] []]; done.
Qed.

Lemma read_escaped_ext f s v r rest :
  (forall x, cbor_weight (f x) = S (String.length x)) -> read_escaped f s = Some (v, r) ->
  read_escaped f (s +:+ rest) = Some (v, r +:+ rest) /\ (cbor_weight v + String.length r <= S (String.length s))%nat.
Proof.
  intros Hf. unfold read_escaped. destruct (unescape s) as [[x r']|] eqn:E; [|done]. cbn. intros [= <- <-].
  destruct (unescape_ext _ _ _ rest E) as [-> Hl]. split; [done|]. rewrite Hf. lia.
Qed.

Lemma dec_ext n n' s v r rest :
  dec n s = Some (v, r) -> (n <= n')%nat -> dec n' (s +:+ rest) = Some (v, r +:+ rest) /\ (cbor_weight v + String.length r <= String.length s)%nat.
Proof.
  revert n' s v r. induction n as [|n IH]; intros n' s v r H Hn; [done|]. destruct n' as [|n']; [lia|]. destruct s as [|c s]; [done|].
  change (String c s +:+ rest) with (String c (s +:+ rest)). cbn [dec String.length] in H |- *.
  assert (IH' : forall s v r, dec n s = Some (v, r) -> dec n' (s +:+ rest) = Some (v, r +:+ rest) /\ (cbor_weight v + String.length r <= String.length s)%nat)
    by (intros; apply IH; [done|lia]).
  destruct (160 <? nat_of_ascii c)%nat.
  { destruct (unescape s) as [[k s1]|] eqn:Ek; [|done]. cbn in H. destruct (unescape_ext _ _ _ rest Ek) as [-> Lk].
    destruct (dec n s1) as [[x s2]|] eqn:Ex; [|done]. cbn in H. destruct (IH' _ _ _ Ex) as [Ex' Lx].
    destruct (dec n s2) as [[y s3]|] eqn:Ey; [|done]. cbn in H. destruct (IH' _ _ _ Ey) as [Ey' Ly].
    destruct y; try done. injection H as <- <-. cbn. rewrite Ex'. cbn. rewrite Ey'. cbn. split; [done|]. cbn in Ly. lia. }
  destruct (_ =? 160)%nat; [injection H as <- <-; split; [done|cbn; lia]|].
  destruct (c =? "n")%char; [injection H as <- <-; split; [done|cbn; lia]|].
  destruct (c =? "i")%char; [injection H as <- <-; split; [done|cbn; lia]|].
  destruct (c =? "t")%char; [by apply read_escaped_ext|]. destruct (c =? "b")%char; [by apply read_escaped_ext|].
  destruct (c =? "g")%char.
  { destruct (dec n s) as [[x s2]|] eqn:Ex; [|done]. cbn in H. destruct (IH' _ _ _ Ex) as [-> Lx]. injection H as <- <-. split; [done|cbn; lia]. }
  destruct (c =? "]")%char; [injection H as <- <-; split; [done|cbn; lia]|].
  destruct (c =? ",")%char; [|done].
  destruct (dec n s) as [[x s2]|] eqn:Ex; [|done]. cbn in H. destruct (IH' _ _ _ Ex) as [-> Lx].
  destruct (dec n s2) as [[y s3]|] eqn:Ey; [|done]. cbn in H. destruct (IH' _ _ _ Ey) as [Ey' Ly].
  destruct y; try done. injection H as <- <-. cbn. rewrite Ey'. cbn. split; [done|]. cbn in Ly. lia.
Qed.

Lemma decode_weight s v : decode s = Some v -> (cbor_weight v <= String.length s)%nat.
Proof.
  unfold decode. destruct (dec _ s) as [[w []]|] eqn:E; [|done..]. intros [= <-].
  destruct (dec_ext _ (String.length s) _ _ _ "" E ltac:(lia)) as [_ H]. cbn in H. lia.
Qed.

#[export] Instance codec : Cbor := {
  cbor_decode := decode; cbor_decode_weight := decode_weight; cbor_encode v := Some (enc v);
  cbor_raw_tag _ := None; cbor_raw_array _ := Some ["protected"; "unprotected"; "payload"; "signature"];
  cbor_bytes _ := Some (Some (enc (CMap [(CText "deviceKeyInfo", CMap [(CText "deviceKey", CText "key")])])));
  cbor_wellformed _ := true; print_key c := match c with CText s => s | _ => "" end; parse_rfc3339 _ := None }.

(** The values the codec covers. *)
Fixpoint covered (v : cbor) : bool :=
  match v with
  | CNil | CText _ | CBytes _ | CRaw _ => true
  | CInt KInt z | CInt KUint64 z => z =? 0
  | CArr l => forallb covered l
  | CMap m => (length m <? 24)%nat && (fix go m := match m with [] => true | (k, x) :: m => bool_decide (is_Some (as_text k)) && (covered x && go m) end) m
  | CTag n c => (n =? 24) && covered c
  | _ => false
  end.

Lemma covered_tail kv m : covered (CMap (kv :: m)) = true -> covered (CMap m) = true.
Proof.
  cbn [covered length]. intros [Hl H]%andb_true_iff. destruct kv as [k x]. rewrite !andb_true_iff in H. destruct H as (_ & _ & H).
  apply andb_true_iff. split; [|done]. apply Nat.ltb_lt in Hl. apply Nat.ltb_lt. lia.
Qed.

Lemma member_head n : (n < 23)%nat -> (160 <? nat_of_ascii (ascii_of (160 + Z.of_nat (S n))))%nat = true.
Proof. intros H. unfold ascii_of. rewrite nat_ascii_embedding by lia. apply Nat.ltb_lt. lia. Qed.

Lemma dec_enc n v w rest :
  covered v = true -> resolve v = Some w -> (String.length (enc v) <= n)%nat -> dec n (enc v +:+ rest) = Some (w, rest).
Proof.
  revert v w rest. induction n as [|n IH]; intros v w rest Hc Hr Hn.
  all: destruct v as [| |k z| |s|s| |l|m|k c|b]; try done.
  all: try (cbn [resolve cbor_decode codec] in Hr; unfold decode in Hr; cbn [enc] in *; destruct (dec _ b) as [[x []]|] eqn:E; [|done..]; injection Hr as ->;
            by apply (dec_ext _ _ _ _ _ rest E) in Hn as [? _]).
  all: try (cbn in Hn; lia).
  - destruct l as [|x l]; cbn in Hn; lia.
  - destruct m as [|[k x] m]; cbn in Hn; lia.
  - by injection Hr as <-.
  - destruct k; try done; cbn in Hc; apply Z.eqb_eq in Hc as ->; by injection Hr as <-.
  - injection Hr as <-. change (enc (CText s) +:+ rest) with (String "t" (escape s +:+ rest)). cbn [dec]. cbn -[unescape]. unfold read_escaped. by rewrite unescape_escape.
  - injection Hr as <-. change (enc (CBytes s) +:+ rest) with (String "b" (escape s +:+ rest)). cbn -[unescape]. unfold read_escaped. by rewrite unescape_escape.
  - destruct l as [|x l]; [by injection Hr as <-|]. change (enc (CArr (x :: l))) with (String "," (enc x +:+ enc (CArr l))) in *.
    change (String "," (enc x +:+ enc (CArr l)) +:+ rest) with (String "," ((enc x +:+ enc (CArr l)) +:+ rest)). rewrite append_assoc.
    cbn [covered forallb] in Hc. apply andb_true_iff in Hc as [Hx Hl]. rewrite resolve_arr in Hr. unfold resolve_list in Hr. cbn in Hr.
    destruct (resolve x) as [y|] eqn:Ex; [|done]. cbn in Hr. destruct (mapM resolve l) as [ys|] eqn:El; [|done]. injection Hr as <-.
    cbn [String.length] in Hn. rewrite append_length in Hn.
    pose proof (IH x y (enc (CArr l) +:+ rest) Hx Ex ltac:(lia)) as Dx. pose proof (IH (CArr l) (CArr ys) rest Hl) as Dl.
    rewrite resolve_arr in Dl. unfold resolve_list in Dl. rewrite El in Dl. specialize (Dl eq_refl ltac:(lia)).
    cbn -[enc]. rewrite Dx. cbn -[enc]. by rewrite Dl.
  - destruct m as [|[k x] m]; [by injection Hr as <-|].
    pose proof (covered_tail _ _ Hc) as Hm. change (enc (CMap ((k, x) :: m))) with
      (String (ascii_of (160 + Z.of_nat (S (length m)))) (escape (default "" (as_text k)) +:+ (enc x +:+ enc (CMap m)))) in *.
    cbn [covered length] in Hc. rewrite !andb_true_iff in Hc. destruct Hc as (Hlen & [t Hk]%bool_decide_eq_true & Hx & _). destruct k; try done.
    rewrite resolve_map, resolve_members_cons in Hr. destruct (resolve x) as [y|] eqn:Ex; [|done]. cbn in Hr.
    destruct (resolve_members m) as [ys|] eqn:Em; [|done]. injection Hr as <-. cbn [as_text default from_option id] in *.
    cbn [String.length] in Hn. rewrite !append_length in Hn.
    pose proof (IH x y (enc (CMap m) +:+ rest) Hx Ex ltac:(lia)) as Dx. pose proof (IH (CMap m) (CMap ys) rest Hm) as Dm.
    rewrite resolve_map, Em in Dm. specialize (Dm eq_refl ltac:(lia)).
    match goal with |- dec _ (String ?c ?s +:+ rest) = _ => change (String c s +:+ rest) with (String c (s +:+ rest)) end.
    rewrite !append_assoc. cbn [dec]. rewrite member_head by (apply Nat.ltb_lt in Hlen; lia). rewrite unescape_escape. cbn -[enc]. rewrite Dx. cbn -[enc]. by rewrite Dm.
  - cbn [covered resolve] in *. apply andb_true_iff in Hc as [->%Z.eqb_eq Hc]. destruct (resolve c) as [y|] eqn:Ey; [|done]. injection Hr as <-.
    change (enc (CTag 24 c) +:+ rest) with (String "g" (enc c +:+ rest)). cbn -[enc]. cbn in Hn. by rewrite (IH c y rest Hc Ey ltac:(lia)).
Qed.

Lemma simple_covered n v : (cbor_weight v <= n)%nat -> simple v = true -> covered v = true /\ resolve v = Some v.
Proof.
  revert v. induction n as [|n IH]; intros v Hw Hs; [destruct v; cbn in Hw; lia|]. destruct v as [| | | |s|s| |l|m|k c|]; try done.
  - rewrite resolve_arr. cbn [simple covered] in *. assert (H : forallb covered l = true /\ resolve_list l = Some l); [|by destruct H as [-> ->]].
    unfold resolve_list. induction l as [|x l IHl]; [done|]. cbn in Hs. apply andb_true_iff in Hs as [Hx Hl]. cbn [cbor_weight] in Hw.
    assert (1 <= cbor_weight x)%nat by (destruct x; cbn; lia). destruct (IH x ltac:(lia) Hx) as [Cx Rx].
    destruct IHl as [Cl Rl]; [cbn [cbor_weight]; lia|done|]. cbn. by rewrite Cx, Cl, Rx, Rl.
  - by destruct m.
  - cbn [simple covered resolve] in *. apply andb_true_iff in Hs as [-> Hc]. destruct (IH c) as [-> ->]; [cbn in Hw; lia|done|done].
Qed.

Lemma encodes v w b : covered v = true -> resolve v = Some w -> cbor_encode v = Some b -> cbor_decode b = Some w.
Proof.
  intros Hc Hr [= <-]. cbn. unfold decode. pose proof (dec_enc (String.length (enc v)) v w "" Hc Hr ltac:(lia)) as H. rewrite append_nil in H. by rewrite H.
Qed.

#[export] Instance codec_laws : CborLaws codec.
Proof.
  split; [|intros v w b Hv Hw Ha Hb|done].
  - intros l v b r [= <-]. cbn. f_equal. by induction l as [|x l IH]; [|cbn; rewrite IH].
  - destruct (simple_covered _ v ltac:(done) Hv) as [Cv Rv], (simple_covered _ w ltac:(done) Hw) as [Cw Rw].
    pose proof (encodes _ _ _ Cv Rv Ha). pose proof (encodes _ _ _ Cw Rw Hb). congruence.
Qed.

#[export] Instance codec_reads : CborReads codec.
Proof.
  split; [done|intros e b; by apply encodes|]. intros [a x] [b y] [c z] s [= <-]. eexists. reflexivity.
Qed.
End CborCodec.

(** Two texts with one SHA-256 digest. *)
Definition collision `{Hash} : Prop := exists a b, a <> b /\ sha256 a = sha256 b.

Section binding.
Context {hash : Hash} {codec : Cbor} {laws : CborLaws codec}.

(** What a transcript names of a request. *)
Inductive handover :=
| Interactive (endpoint nonce thumbprint : string)
| IsoHandover (clientID responseURI nonce mdocNonce : string)
| OpenID4VP (clientID nonce thumbprint responseURI : string)
| DigitalCredentials (origin nonce thumbprint : string).

Definition handover_of (transcript_mode : string) (params : ResponseParams) (mdocNonce thumbprint : string) : handover :=
  let p := rp_Params params in
  let m := pp_ResponseMode p in
  if isInteractiveAuthorizationResponseMode m
  then Interactive (pp_InteractiveAuthorizationEndpoint p) (pp_Nonce p) (if (m =? "ia_post")%string then "" else thumbprint)
  else if (transcript_mode =? SessionTranscriptISO)%string then IsoHandover (pp_ClientID p) (rp_ResponseURI params) (pp_Nonce p) mdocNonce
  else if isDCAPIResponseMode m then DigitalCredentials (pp_RequestOrigin p) (pp_Nonce p) thumbprint
  else OpenID4VP (pp_ClientID p) (pp_Nonce p) thumbprint (rp_ResponseURI params).

(** The handover's array, and the digests in it as their preimages. *)
Definition labelled (label : string) (info : list cbor) (t : cbor) : Prop :=
  exists bytes, cbor_encode (CArr info) = Some bytes /\ t = CArr [CText label; CBytes (sha256 bytes)].

Definition handover_value (h : handover) (t : cbor) : Prop :=
  match h with
  | Interactive e n th => labelled "OpenID4VCIIAEHandover" [CText e; CText n; thumbprint_value th] t
  | OpenID4VP c n th u => labelled "OpenID4VPHandover" [CText c; CText n; thumbprint_value th; CText u] t
  | DigitalCredentials o n th => labelled "OpenID4VPDCAPIHandover" [CText o; CText n; thumbprint_value th] t
  | IsoHandover c u n mn => exists cb ub,
      cbor_encode (CArr [CText c; CText mn]) = Some cb /\ cbor_encode (CArr [CText u; CText mn]) = Some ub /\
      t = CArr [CBytes (sha256 cb); CBytes (sha256 ub); CText n]
  end.

Lemma handover_transcript_inv label info t :
  handover_transcript label info = Ok t -> exists h, labelled label info h /\ cbor_encode (CArr [CNil; CNil; h]) = Some t.
Proof.
  unfold handover_transcript. destruct (cbor_encode (CArr info)) as [b|] eqn:E; [|done].
  destruct (cbor_encode (CArr [CNil; CNil; _])) as [t'|] eqn:Et; [|done]. intros [= <-]. eexists. split; [by exists b|done].
Qed.

Lemma transcript_inv transcript_mode params mdocNonce th t :
  buildSessionTranscript transcript_mode params mdocNonce th = Ok t ->
  exists h, handover_value (handover_of transcript_mode params mdocNonce th) h /\ cbor_encode (CArr [CNil; CNil; h]) = Some t.
Proof.
  unfold buildSessionTranscript, handover_of. destruct (isInteractiveAuthorizationResponseMode _).
  { unfold BuildOID4VCIIAESessionTranscript. destruct (_ =? "")%string; [done|]. apply handover_transcript_inv. }
  destruct (String.eqb_spec transcript_mode "") as [->|Hne].
  { cbn [String.eqb Ascii.eqb Bool.eqb SessionTranscriptISO SessionTranscriptOID4VP]. destruct (isDCAPIResponseMode _); apply handover_transcript_inv. }
  destruct (transcript_mode =? SessionTranscriptISO)%string.
  { unfold buildSessionTranscriptISO. destruct (cbor_encode (CArr [CText (pp_ClientID _); _])) as [cb|] eqn:Ec; [|done].
    destruct (cbor_encode (CArr [CText (rp_ResponseURI _); _])) as [ub|] eqn:Eu; [|done].
    destruct (cbor_encode (CArr [CNil; CNil; _])) as [t'|] eqn:Et; [|done].
    intros [= <-]. eexists. split; [by exists cb, ub|done]. }
  destruct (transcript_mode =? SessionTranscriptOID4VP)%string; [|done]. destruct (isDCAPIResponseMode _); apply handover_transcript_inv.
Qed.

Lemma simple_thumbprint th : simple (thumbprint_value th) = true.
Proof. unfold thumbprint_value. by destruct (th =? "")%string. Qed.

Lemma thumbprint_inj th th' : thumbprint_value th = thumbprint_value th' -> th = th'.
Proof. unfold thumbprint_value. destruct (String.eqb_spec th ""), (String.eqb_spec th' ""); congruence. Qed.

Lemma handover_simple h t : handover_value h t -> simple t = true.
Proof. destruct h; cbn; [| |..]; first [by intros (b & _ & ->)|by intros (cb & ub & _ & _ & ->)]. Qed.

(** Equal digests have equal preimages, or a collision shows. *)
Lemma digest_eq v w a b :
  simple v = true -> simple w = true -> cbor_encode v = Some a -> cbor_encode w = Some b -> sha256 a = sha256 b -> v = w \/ collision.
Proof.
  intros Hv Hw Ha Hb Hs. destruct (decide (a = b)) as [->|Hne]; [left; by eapply encode_inj|right; by exists a, b].
Qed.

Lemma labelled_eq label label' info info' t :
  labelled label info t -> labelled label' info' t ->
  label = label' /\ (forallb simple info = true -> forallb simple info' = true -> info = info' \/ collision).
Proof.
  intros (a & Ha & ->) (b & Hb & E). injection E as -> E. split; [done|]. intros Hi Hi'.
  destruct (digest_eq (CArr info) (CArr info') a b Hi Hi' Ha Hb E) as [[= ->]|]; auto.
Qed.

Ltac by_label H H' :=
  destruct (labelled_eq _ _ _ _ _ H H') as [El Hi];
  first [discriminate El
        |destruct Hi as [E|]; [by cbn; rewrite simple_thumbprint..|injection E; intros; subst; left; f_equal; by apply thumbprint_inj|by right]].

Lemma handover_eq h h' t : handover_value h t -> handover_value h' t -> h = h' \/ collision.
Proof.
  destruct h, h'; cbn [handover_value]; intros H H'; try by_label H H'.
  all: try (destruct H as (? & _ & ->), H' as (? & ? & _ & _ & ?); discriminate).
  all: try (destruct H as (? & ? & _ & _ & ->), H' as (? & _ & ?); discriminate).
  destruct H as (a & b & Ha & Hb & ->), H' as (c & d & Hc & Hd & E). injection E as Ec Eu ->.
  destruct (digest_eq (CArr [CText _; CText _]) (CArr [CText _; CText _]) _ _ eq_refl eq_refl Ha Hc Ec) as [[= -> ->]|]; [|auto].
  destruct (digest_eq (CArr [CText _; CText _]) (CArr [CText _; CText _]) _ _ eq_refl eq_refl Hb Hd Eu) as [[= ->]|]; auto.
Qed.

(** What the holder signs, without raw messages. *)
Definition authentication_value (h : cbor) (docType e : string) : cbor :=
  CArr [CText "DeviceAuthentication"; CArr [CNil; CNil; h]; CText docType; CTag 24 (CBytes e)].

Lemma device_authentication_inv t docType p h :
  cbor_encode (CArr [CNil; CNil; h]) = Some t -> device_authentication t docType = Ok p ->
  exists e b, cbor_encode (CMap []) = Some e /\ cbor_encode (authentication_value h docType e) = Some b /\ cbor_encode (CTag 24 (CBytes b)) = Some p.
Proof.
  intros Ht H. unfold device_authentication, tag24, tag24Raw in H. destruct (cbor_encode (CMap [])) as [e|] eqn:Ee; [|done].
  destruct (cbor_encode (CTag 24 (CBytes e))) as [ns|] eqn:En; [|done]. cbn in H. destruct (negb _); [done|].
  match type of H with context [cbor_encode (CArr ?l)] => destruct (cbor_encode (CArr l)) as [b|] eqn:Eb; [|done] end.
  destruct (cbor_encode (CTag 24 (CBytes b))) as [p'|] eqn:Ep; [|done]. injection H as <-.
  exists e, b. split; [done|]. split; [|done]. unfold authentication_value. rewrite <- Eb.
  pose proof (encode_raw [CText "DeviceAuthentication"] (CArr [CNil; CNil; h]) t [CText docType; CRaw ns] Ht) as E1.
  pose proof (encode_raw [CText "DeviceAuthentication"; CArr [CNil; CNil; h]; CText docType] _ ns [] En) as E2.
  cbn [app] in E1, E2. by rewrite E1, E2.
Qed.

(** C17: A device signature answers one request.  When the holder's signature
    over an mdoc presentation is also valid for another request, that is when
    the signed bytes are the same, then the document type is the same and the
    requests agree in all the transcript names: the kind of handover, and the
    client identifier, nonce, response_uri and encryption key thumbprint
    (OpenID4VP), the origin (Digital Credentials API), the challenge endpoint
    (interactive authorization) or the client identifier, response_uri, nonce
    and mdoc nonce (ISO 18013-7).  Otherwise SHA-256 collides. *)
Theorem device_signature_is_for_one_request transcript_mode transcript_mode' params params' mdocNonce mdocNonce' th th' t t' docType docType' payload :
  buildSessionTranscript transcript_mode params mdocNonce th = Ok t ->
  buildSessionTranscript transcript_mode' params' mdocNonce' th' = Ok t' ->
  device_authentication t docType = Ok payload -> device_authentication t' docType' = Ok payload ->
  docType = docType' /\ handover_of transcript_mode params mdocNonce th = handover_of transcript_mode' params' mdocNonce' th' \/ collision.
Proof.
  intros (h & Hh & Ht)%transcript_inv (h' & Hh' & Ht')%transcript_inv Hp Hp'.
  destruct (device_authentication_inv _ _ _ _ Ht Hp) as (e & b & He & Hb & Hc).
  destruct (device_authentication_inv _ _ _ _ Ht' Hp') as (e' & b' & He' & Hb' & Hc').
  pose proof (handover_simple _ _ Hh) as Hs. pose proof (handover_simple _ _ Hh') as Hs'.
  pose proof (encode_inj (CTag 24 (CBytes _)) (CTag 24 (CBytes _)) _ eq_refl eq_refl Hc Hc') as [= <-].
  assert (E : authentication_value h docType e = authentication_value h' docType' e') by (eapply encode_inj; [..|done|done]; cbn; by rewrite ?Hs, ?Hs').
  injection E as <- <- _. destruct (handover_eq _ _ _ Hh Hh') as [->|]; auto.
Qed.
End binding.

(** ** A witness *)
Module MdocPresentToy.
Import CborCodec.
#[local] Instance toy_hash : Hash := { sha256 s := s; sha384 s := s; sha512 s := s }.

Definition params : ResponseParams := mkResponseParams (mkParams "nonce" "verifier" "" "direct_post.jwt" "") "https://verifier/response" "" None None.
Definition transcript : string := match buildSessionTranscript "" params "" "thumb" with Ok t => t | Err _ => "" end.
Definition payload : string := match device_authentication transcript "doc" with Ok p => p | Err _ => "" end.

Lemma device_signature_is_for_one_request_witness :
  "doc" = "doc" /\ handover_of "" params "" "thumb" = handover_of SessionTranscriptOID4VP params "" "thumb" \/ collision.
Proof.
  apply (device_signature_is_for_one_request (codec := codec) (hash := toy_hash) "" SessionTranscriptOID4VP params params "" "" "thumb" "thumb"
           transcript transcript "doc" "doc" payload); vm_compute; reflexivity.
Defined.
End MdocPresentToy.
