(* ===== verification/MdocRoundtrip.v ===== *)
(** * MdocRoundtrip: the verifier reads the mdoc the wallet presents

    createMDocPresentation of MdocPresent and the parser and device signature
    check of Mdoc undo each other: the issuer's part arrives unchanged, the
    elements are the selected ones with the bytes their digests cover, and the
    holder's signature verifies against the transcript of the request. *)

From stdpp Require Import base list strings gmap.
From Stdlib Require Import ZArith Lia Ascii.
From S2P Require Import Prelude GoStrings StringFacts GoValue Format Validity SDJWT WalletState DCQL Present PresentWire Certs Mdoc MdocFacts.
From S2P Require Import IssuerAuth Requests Jwe RequestChecks Response MdocPresent MdocPresentFacts ResponseFacts RequestFacts.

Local Open Scope Z_scope.

(** ** Base64url of a CBOR map *)

Lemma url_not_first_of_space c s e : url_byte c = true -> e ∈ space_encodings -> cut_prefix e (String c s) = None.
Proof.
  intros Hc He. apply cut_prefix_visible.
  - pose proof spaces_invisible as [Hi _]%andb_true_iff. rewrite forallb_forall in Hi. by apply Hi, list_elem_of_In.
  - unfold url_byte in Hc. rewrite !andb_true_iff in Hc. tauto.
Qed.

Lemma string_last s : s <> "" -> exists s' c, s = s' +:+ String c "".
Proof.
  induction s as [|c s IH]; [done|]. intros _. destruct s as [|d s]; [by exists "", c|].
  destruct IH as (s' & e & E); [done|]. exists (String c s'), e. by rewrite E.
Qed.

Lemma trim_space_url s : all_bytes url_byte s = true -> trim_space s = s.
Proof.
  destruct s as [|c s]; [done|]. intros H. destruct (string_last (String c s)) as (s' & d & E); [done|].
  eapply trim_space_fixed; [exact E| |].
  - rewrite E, all_bytes_app in H. apply andb_true_iff in H as [_ H]. cbn in H. rewrite andb_true_r in H.
    unfold url_byte in H. rewrite !andb_true_iff in H. tauto.
  - intros e He. apply url_not_first_of_space; [|done]. cbn in H. by apply andb_true_iff in H as [H _].
Qed.

(** The base64url text of a map of three members starts with an o. *)
Lemma decode_map_text rest : DecodeHexOrBase64URL (trim_space (EncodeBase64URL (String (ascii_of 163) rest))) = Some (String (ascii_of 163) rest).
Proof.
  set (b := String (ascii_of 163) rest). unfold DecodeHexOrBase64URL. rewrite !(trim_space_url (EncodeBase64URL b)) by apply encode_url.
  assert (E : isHex (EncodeBase64URL b) = false).
  { assert (Ho : exists s, EncodeBase64URL b = String "o" s).
    { unfold b, EncodeBase64URL. change (bytes_of (String (ascii_of 163) rest)) with (163 :: bytes_of rest).
      destruct (bytes_of rest) as [|x [|y l]]; eexists; reflexivity. }
    destruct Ho as [s ->]. unfold isHex. cbn [all_bytes]. rewrite andb_false_r. done. }
  rewrite E. apply Decode_Encode.
Qed.

(** ** Reading what was written *)

Section reading.
Context {codec : Cbor}.

(** An item in tag 24, read from the bytes its digest covers. *)
Definition tagged_item (item : IssuerSignedItem) : Prop :=
  let raw := string_of (item_RawCBOR item) in
  exists inner m, cbor_decode raw = Some (CTag 24 (CBytes inner)) /\ cbor_encode (CTag 24 (CBytes inner)) = Some raw /\
    decode_map inner = Some m /\ item_of_map m raw = item.

Lemma tagged_item_parses item : tagged_item item -> exists v, cbor_decode (string_of (item_RawCBOR item)) = Some v /\ parseIssuerSignedItem v = Ok item.
Proof.
  intros (inner & m & Hd & He & Hm & Hi). eexists. split; [exact Hd|]. unfold parseIssuerSignedItem, item_bytes.
  change (negb (24 =? 24)) with false. cbn [as_bytes]. rewrite He. cbn [default from_option id]. cbn. rewrite Hm. by rewrite Hi.
Qed.

Lemma resolve_items items :
  Forall tagged_item items ->
  exists l, resolve_list (map (fun item => CRaw (string_of (item_RawCBOR item))) items) = Some l /\
    Forall2 (fun item v => parseIssuerSignedItem v = Ok item) items l.
Proof.
  induction 1 as [|item items (v & Hv & Hp)%tagged_item_parses _ (l & Hl & Hf)]; [by exists []|].
  exists (v :: l). split; [|by constructor]. unfold resolve_list in *. cbn. rewrite Hv. cbn. by rewrite Hl.
Qed.

Lemma parse_items_read ns seen items l :
  Forall2 (fun item v => parseIssuerSignedItem v = Ok item) items l -> NoDup (item_ElementIdentifier <$> items) ->
  (forall item, item ∈ items -> item_ElementIdentifier item ∉ seen) -> parse_items ns seen l = (items, []).
Proof.
  intros H. revert seen. induction H as [|item v items l Hp _ IH]; intros seen Hn Hs; [done|].
  cbn in Hn. apply NoDup_cons in Hn as [Hi Hn]. cbn [parse_items]. rewrite Hp.
  rewrite bool_decide_eq_false_2 by (apply Hs; left).
  rewrite IH; [done|done|]. intros item' Hin [E|Hin']%elem_of_union.
  - apply elem_of_singleton in E. apply Hi. apply list_elem_of_fmap. by exists item'.
  - eapply Hs; [by right|done].
Qed.

Context {reads : CborReads codec}.

Definition read_namespace (ns : string * list IssuerSignedItem) (kv : cbor * cbor) : Prop :=
  exists l, kv = (CText ns.1, CArr l) /\ Forall2 (fun item v => parseIssuerSignedItem v = Ok item) ns.2 l.

Lemma append_all {A} ns (items : list A) out :
  items <> [] -> ns ∉ out.*1 -> fold_left (fun out item => append_ns ns item out) items out = out ++ [(ns, items)].
Proof.
  assert (Hnew : forall item, ns ∉ out.*1 -> append_ns ns item out = out ++ [(ns, [item])]).
  { induction out as [|[ns' items'] out IH]; intros item Hn; [done|]. cbn in Hn. apply not_elem_of_cons in Hn as [Hne Hn].
    cbn. destruct (String.eqb_spec ns ns'); [done|]. by rewrite IH. }
  assert (Hold : forall its item, ns ∉ out.*1 -> append_ns ns item (out ++ [(ns, its)]) = out ++ [(ns, its ++ [item])]).
  { clear Hnew. intros its item. induction out as [|[ns' items'] out IH]; intros Hn; [cbn; by rewrite String.eqb_refl|].
    cbn in Hn. apply not_elem_of_cons in Hn as [Hne Hn]. cbn. destruct (String.eqb_spec ns ns'); [done|]. by rewrite IH. }
  destruct items as [|item items]; [done|]. intros _ Hn. cbn [fold_left]. rewrite Hnew by done.
  change (item :: items) with ([item] ++ items). generalize [item]. induction items as [|i items IH]; intros its; [by rewrite app_nil_r|].
  cbn [fold_left]. rewrite Hold, IH by done. by rewrite <- app_assoc.
Qed.

Lemma parse_namespaces_read nss m out :
  Forall2 read_namespace nss m -> NoDup (out.*1 ++ nss.*1) ->
  (forall ns, ns ∈ nss -> ns.2 <> [] /\ NoDup (item_ElementIdentifier <$> ns.2)) -> parse_namespaces m out = (out ++ nss, []).
Proof.
  intros H. revert out. induction H as [|ns kv nss m (l & -> & Hl) _ IH]; intros out Hn Hok; [by rewrite app_nil_r|].
  destruct (Hok ns ltac:(left)) as [Hne Hnd]. cbn [parse_namespaces]. rewrite print_text.
  rewrite (parse_items_read ns.1 ∅ ns.2 l Hl Hnd ltac:(set_solver)).
  cbn [fmap list_fmap map] in Hn. rewrite append_all; [|done|].
  2: { apply NoDup_app in Hn as (_ & Hd & _). intros Hin. by apply (Hd _ Hin); left. }
  rewrite IH; [by rewrite <- app_assoc, <- surjective_pairing| |].
  - rewrite fmap_app, <- app_assoc. exact Hn.
  - intros ns' Hin. apply Hok. by right.
Qed.

Lemma resolve_namespaces nss :
  (forall ns, ns ∈ nss -> Forall tagged_item ns.2) -> exists m, resolve_members (map raw_items nss) = Some m /\ Forall2 read_namespace nss m.
Proof.
  induction nss as [|ns nss IH]; intros Hok; [by exists []|].
  destruct IH as (m & Hm & Hf); [intros ns' Hin; apply Hok; by right|].
  destruct (resolve_items ns.2) as (l & Hl & Hi); [apply Hok; left|].
  exists ((CText ns.1, CArr l) :: m). split; [|by constructor; [exists l|]].
  cbn [map]. unfold raw_items at 1. rewrite resolve_members_cons, resolve_arr. unfold resolve_list in *. rewrite Hl. cbn. by rewrite Hm.
Qed.
End reading.

(** ** The libraries *)

(** go-cose verifies what it signed, and writes it as the CBOR library does. *)
Class CoseSignerLaws {pki : Pki} {codec : Cbor} {cose : Cose pki} {signer : Signer} {csigner : CoseSigner} (device_public : PrivateKey -> CoseKey) := {
  sign1_verifies : forall k p s, cose_sign1 k p = Some s -> untagged_parses s = true /\ es256_verifies s p (device_public k) = true;
  sign1_recodes : forall k p s, cose_sign1 k p = Some s -> s <> "" /\ exists v, cbor_decode s = Some v /\ cbor_encode v = Some s }.

(** ** Parsing the response *)

Section roundtrip.
Context {json : Json} {hash : Hash} {pki : Pki} {codec : Cbor} {raws : CborRaw} {reader : CredentialReader} {cose : Cose pki}.
Context {signer : Signer} {csigner : CoseSigner} {crypto : JweCrypto} (rand_bytes : nat -> option string).
Context {laws : CborLaws codec} {reads : CborReads codec} (device_public : PrivateKey -> CoseKey) {slaws : CoseSignerLaws device_public}.

(** A stored mdoc: its signature and its elements as they were imported. *)
Record holds_mdoc (cred : StoredCredential) (auth : string) (authv : cbor) (ia : IssuerAuth) : Prop := {
  hm_raw : exists raw m, DecodeHexOrBase64URL (Raw cred) = Some raw /\ cbor_raw_map raw = Some m /\ raw_member "issuerAuth" m = CRaw auth;
  hm_auth : cbor_decode auth = Some authv /\ parseIssuerAuth authv = Ok ia;
  hm_items : forall ns, ns ∈ NameSpaces cred -> Forall tagged_item ns.2 /\ NoDup (item_ElementIdentifier <$> ns.2);
  hm_namespaces : NoDup (NameSpaces cred).*1 }.

Lemma filter_fmap_NoDup {A B} (f : A -> B) p (l : list A) : NoDup (f <$> l) -> NoDup (f <$> List.filter p l).
Proof.
  induction l as [|x l IH]; [done|]. cbn. rewrite NoDup_cons. intros [Hx Hl]. destruct (p x); [|auto]. cbn. rewrite NoDup_cons. split; [|auto].
  intros (y & E & Hy%list_elem_of_In)%list_elem_of_fmap. apply Hx, list_elem_of_fmap. exists y. split; [done|].
  apply List.filter_In in Hy as [Hy _]. by apply list_elem_of_In.
Qed.

Lemma selected_namespace keys nss ns :
  ns ∈ filteredNS keys nss -> ns.2 <> [] /\ exists all, (ns.1, all) ∈ nss /\ ns.2 = List.filter (item_selected keys ns.1) all.
Proof.
  unfold filteredNS. intros [Hin Hne]%list_elem_of_In%List.filter_In. apply negb_true_iff, bool_decide_eq_false in Hne. split; [done|].
  apply in_map_iff in Hin as ([n all] & <- & Hall%list_elem_of_In). by exists all.
Qed.

Lemma item_selected_true keys ns item :
  item_selected keys ns item = true <-> ns +:+ ":" +:+ item_ElementIdentifier item ∈ keys /\ item_RawCBOR item <> [].
Proof. unfold item_selected. by rewrite andb_true_iff, contains_spec, negb_true_iff, bool_decide_eq_false. Qed.

(** An element is presented exactly when it is stored and selected. *)
Lemma elem_of_filteredNS keys nss ns item :
  (exists items, (ns, items) ∈ filteredNS keys nss /\ item ∈ items) <->
  (exists all, (ns, all) ∈ nss /\ item ∈ all) /\ ns +:+ ":" +:+ item_ElementIdentifier item ∈ keys /\ item_RawCBOR item <> [].
Proof.
  split.
  - intros (items & (_ & all & Hall & E)%selected_namespace & Hi). cbn in E, Hall. rewrite E in Hi.
    apply list_elem_of_In, List.filter_In in Hi as [Hi Hs]. apply item_selected_true in Hs. split; [|done]. exists all. split; [done|by apply list_elem_of_In].
  - intros [(all & Hall & Hi) Hs%item_selected_true]. exists (selected_items keys (ns, all)).
    assert (Hin : item ∈ selected_items keys (ns, all)) by (apply list_elem_of_In, List.filter_In; split; [by apply list_elem_of_In|done]).
    split; [|done]. apply list_elem_of_In, List.filter_In. split.
    + apply in_map_iff. exists (ns, all). split; [done|by apply list_elem_of_In].
    + cbn [snd]. apply negb_true_iff, bool_decide_eq_false. intros E. rewrite E in Hin. by apply elem_of_nil in Hin.
Qed.

Lemma filteredNS_names keys nss : NoDup nss.*1 -> NoDup (filteredNS keys nss).*1.
Proof.
  intros H. unfold filteredNS. apply filter_fmap_NoDup. replace ((map _ nss).*1) with nss.*1; [done|].
  induction nss as [|ns nss IH]; [done|]. cbn. f_equal. apply IH. cbn in H. by apply NoDup_cons in H as [_ H].
Qed.

Lemma selected_items_ok cred auth authv ia keys ns :
  holds_mdoc cred auth authv ia -> ns ∈ filteredNS keys (NameSpaces cred) ->
  Forall tagged_item ns.2 /\ ns.2 <> [] /\ NoDup (item_ElementIdentifier <$> ns.2).
Proof.
  intros Hc (Hne & all & Hall & E)%selected_namespace. destruct (hm_items _ _ _ _ Hc _ Hall) as [Ht Hn]. rewrite E in *. split_and!; [|done|by apply filter_fmap_NoDup].
  rewrite !Forall_forall in *. intros item [Hin _]%list_elem_of_In%List.filter_In. by apply Ht, list_elem_of_In.
Qed.

(** The issuer's part of a response, as the decoder sees it. *)
Definition received_issuer (m : cbor_map) (authv : cbor) : cbor_map := [field "nameSpaces" (CMap m); field "issuerAuth" authv].

Definition received (docType : string) (m : cbor_map) (authv dns sig : cbor) : cbor :=
  CMap [field "version" (CText "1.0");
        field "documents" (CArr [CMap [
          field "docType" (CText docType); field "issuerSigned" (CMap (received_issuer m authv));
          field "deviceSigned" (CMap [field "nameSpaces" dns; field "deviceAuth" (CMap [field "deviceSignature" sig])])]]);
        field "status" (CInt KUint64 0)].

Lemma response_resolves docType nss auth authv dns dnsv da sig m :
  resolve_members (map raw_items nss) = Some m -> cbor_decode auth = Some authv -> cbor_decode dns = Some dnsv -> cbor_decode da = Some sig ->
  resolve (device_response docType nss (CRaw auth) dns da) = Some (received docType m authv dnsv sig).
Proof.
  intros Hm Ha Hd Hs. assert (Hn : resolve (CMap (map raw_items nss)) = Some (CMap m)) by (rewrite resolve_map, Hm; done).
  unfold device_response. cbn [resolve] in *. rewrite Hn, Ha, Hd, Hs. reflexivity.
Qed.

Lemma document_reads nss m data authv ia :
  Forall2 read_namespace nss m -> NoDup nss.*1 -> (forall ns, ns ∈ nss -> ns.2 <> [] /\ NoDup (item_ElementIdentifier <$> ns.2)) ->
  parseIssuerAuth authv = Ok ia ->
  let doc := document_of data (received_issuer m authv) in
  doc_NameSpaces doc = nss /\ doc_IssuerAuth doc = Some ia /\ Deviations doc = [].
Proof.
  intros Hm Hn Hok Ha. unfold document_of, parse_nameSpaces. change (cget "nameSpaces" (received_issuer m authv)) with (Some (CMap m)). cbv beta iota zeta.
  rewrite (parse_namespaces_read nss m [] Hm Hn Hok). change (cget "issuerAuth" (received_issuer m authv)) with (Some authv). cbv beta iota zeta. by rewrite Ha.
Qed.

Lemma response_parses b docType nss m authv ia dns sig s :
  cbor_decode b = Some (received docType m authv dns sig) -> recodes (CMap (received_issuer m authv)) ->
  Forall2 read_namespace nss m -> NoDup nss.*1 -> (forall ns, ns ∈ nss -> ns.2 <> [] /\ NoDup (item_ElementIdentifier <$> ns.2)) ->
  parseIssuerAuth authv = Ok ia -> cbor_encode sig = Some s ->
  exists doc, parseDeviceResponse b = Ok doc /\ Mdoc.DocType doc = docType /\ doc_NameSpaces doc = nss /\ doc_IssuerAuth doc = Some ia /\ Deviations doc = [] /\
    exists ds, doc_DeviceSigned doc = Some ds /\ is_Some (DeviceAuth ds) /\ RawDeviceSignature ds = s.
Proof.
  intros Hb (ib & Hi & Hib) Hm Hn Hok Ha Hs. destruct (document_reads nss m ib authv ia Hm Hn Hok Ha) as (Dn & Da & Dd).
  eexists. split.
  { unfold parseDeviceResponse, decode_map. rewrite Hb. unfold received. change (cget "documents" _) with (Some (CArr [CMap [
          field "docType" (CText docType); field "issuerSigned" (CMap (received_issuer m authv));
          field "deviceSigned" (CMap [field "nameSpaces" dns; field "deviceAuth" (CMap [field "deviceSignature" sig])])]])).
    cbv beta iota zeta. unfold as_map. cbv beta iota zeta.
    change (get_map "issuerSigned" _) with (Some (received_issuer m authv)). cbv beta iota zeta. rewrite Hi.
    unfold parseIssuerSigned, decode_map. rewrite Hib. reflexivity. }
  split; [done|]. split; [exact Dn|]. split; [exact Da|]. split; [exact Dd|].
  eexists. split; [reflexivity|]. unfold parseDeviceSigned.
  change (get_map "deviceAuth" _) with (Some [field "deviceSignature" sig]). cbv beta iota zeta. split; [by eexists|].
  change (cget "deviceSignature" _) with (Some sig). cbn [RawDeviceSignature]. cbv beta iota zeta. by rewrite Hs.
Qed.

(** ** The signature *)

Lemma transcript_wellformed transcript_mode params mdocNonce th t :
  buildSessionTranscript transcript_mode params mdocNonce th = Ok t -> cbor_wellformed t = true.
Proof.
  intros (h & Hh & Ht)%transcript_inv. eapply encode_wellformed; [|exact Ht]. cbn. by rewrite (handover_simple _ _ Hh).
Qed.

Lemma createDeviceAuth_inv t docType key da :
  cbor_wellformed t = true -> createDeviceAuth t docType key = Ok da ->
  exists p, device_authentication t docType = Ok p /\ cose_sign1 key p = Some da.
Proof.
  intros Ht. unfold createDeviceAuth, emptyDeviceNamespacesBytes, device_authentication. rewrite Ht. destruct (tag24 (CMap [])) as [e|]; [|done].
  destruct (cbor_encode _) as [b|]; [|done]. destruct (tag24Raw b) as [p|] eqn:Ep; [|done]. destruct (cose_sign1 key p) as [s|] eqn:Es; [|done].
  intros [= <-]. by exists p.
Qed.

Lemma namespaces_decode dns : emptyDeviceNamespacesBytes = Ok dns -> exists v, cbor_decode dns = Some v.
Proof.
  unfold emptyDeviceNamespacesBytes, tag24, tag24Raw. destruct (cbor_encode (CMap [])) as [e|]; [|done].
  destruct (cbor_encode (CTag 24 _)) as [b|] eqn:E; [|done]. intros [= <-]. eexists. by apply tag24_reads.
Qed.

Lemma device_accepts doc ds t docType key p :
  doc_DeviceSigned doc = Some ds -> is_Some (DeviceAuth ds) -> Mdoc.DocType doc = docType -> device_authentication t docType = Ok p ->
  cose_sign1 key p = Some (RawDeviceSignature ds) -> DeviceKey doc = Ok (device_public key) -> VerifyDeviceAuth doc t = Ok ().
Proof.
  intros Hd [auth Ha] Ht Hp Hs Hk. destruct (sign1_verifies _ _ _ Hs) as [Hu Hv]. destruct (sign1_recodes _ _ _ Hs) as [Hne%String.eqb_neq _].
  unfold VerifyDeviceAuth. rewrite Hd. cbn [mbind option_bind]. rewrite Ha. cbn [mbind option_bind]. rewrite Hne, Hk, Ht, Hp, Hu. cbn. by rewrite Hv.
Qed.

Lemma createMDocPresentation_inv mode wallet_transcript override cred keys params mdocNonce key tok auth authv ia :
  holds_mdoc cred auth authv ia ->
  createMDocPresentation rand_bytes mode wallet_transcript override cred keys params mdocNonce key = Ok tok ->
  exists transcript dns da b,
    buildSessionTranscript (sessionTranscriptFor override wallet_transcript) params (vt_MDocNonce tok)
      (extractJWKThumbprint (rp_RequestObject params) (rp_ClientMetadata params)) = Ok transcript /\
    createDeviceAuth transcript (WalletState.DocType cred) key = Ok da /\ emptyDeviceNamespacesBytes = Ok dns /\
    cbor_encode (device_response (WalletState.DocType cred) (filteredNS keys (NameSpaces cred)) (CRaw auth) dns da) = Some b /\
    vp_Token tok = EncodeBase64URL b.
Proof.
  intros Hc. destruct (hm_raw _ _ _ _ Hc) as (raw & m & Hd & Hm & Ha). unfold createMDocPresentation.
  destruct (if holder_bound _ then None else _); [done|]. rewrite Hd, Hm. destruct (transcript_nonce _ _ _) as [n|]; [|done].
  cbn. unfold device_signed. destruct (buildSessionTranscript _ _ _ _) as [t|] eqn:Et; [|done].
  destruct (createDeviceAuth _ _ _) as [da|] eqn:Ed; [|done]. destruct emptyDeviceNamespacesBytes as [dns|] eqn:En; [|done].
  cbn. rewrite Ha. destruct (cbor_encode _) as [b|] eqn:Eb; [|done]. intros [= <-]. exists t, dns, da, b. done.
Qed.

(** C16: The verifier reads the mdoc the wallet presents.  For a stored mdoc,
    any selection, request, transcript mode and key: when createMDocPresentation
    makes a token, Parse reads it as one document of the credential's type with
    the issuer's signature unchanged and, in every namespace, exactly the
    selected elements with the bytes their digests cover and no deviation; and
    when the signing key is the device key of the mobile security object,
    VerifyDeviceAuth accepts the holder's signature over the transcript of the
    request. *)
Theorem presented_mdoc_is_read mode wallet_transcript override cred keys params mdocNonce key tok auth authv ia :
  holds_mdoc cred auth authv ia ->
  createMDocPresentation rand_bytes mode wallet_transcript override cred keys params mdocNonce key = Ok tok ->
  (forall dns da, reads_back_cbor (device_response (WalletState.DocType cred) (filteredNS keys (NameSpaces cred)) (CRaw auth) dns da)) ->
  (forall m, resolve_members (map raw_items (filteredNS keys (NameSpaces cred))) = Some m -> recodes (CMap (received_issuer m authv))) ->
  exists doc transcript, mdoc_Parse (vp_Token tok) = Ok doc /\
    buildSessionTranscript (sessionTranscriptFor override wallet_transcript) params (vt_MDocNonce tok)
      (extractJWKThumbprint (rp_RequestObject params) (rp_ClientMetadata params)) = Ok transcript /\
    Mdoc.DocType doc = WalletState.DocType cred /\ doc_IssuerAuth doc = Some ia /\
    doc_NameSpaces doc = filteredNS keys (NameSpaces cred) /\ Deviations doc = [] /\
    (forall ns item, (exists items, (ns, items) ∈ doc_NameSpaces doc /\ item ∈ items) <->
       (exists all, (ns, all) ∈ NameSpaces cred /\ item ∈ all) /\ ns +:+ ":" +:+ item_ElementIdentifier item ∈ keys /\ item_RawCBOR item <> []) /\
    (DeviceKey doc = Ok (device_public key) -> VerifyDeviceAuth doc transcript = Ok ()).
Proof.
  intros Hc Hp Hread Hre. destruct (createMDocPresentation_inv _ _ _ _ _ _ _ _ _ _ _ _ Hc Hp) as (t & dns & da & b & Ht & Hda & Hdns & Hb & ->).
  destruct (createDeviceAuth_inv _ _ _ _ (transcript_wellformed _ _ _ _ _ Ht) Hda) as (p & Hauth & Hs).
  destruct (sign1_recodes _ _ _ Hs) as (_ & sig & Hsig & Hsig'). destruct (namespaces_decode _ Hdns) as [dnsv Hdnsv].
  destruct (hm_auth _ _ _ _ Hc) as [Hav Hia].
  destruct (resolve_namespaces (filteredNS keys (NameSpaces cred))) as (m & Hm & Hread_ns).
  { intros ns Hns. by apply (selected_items_ok _ _ _ _ _ _ Hc Hns). }
  pose proof (Hread _ _ _ _ Hb (response_resolves _ _ _ _ _ _ _ _ _ Hm Hav Hdnsv Hsig)) as Hdec.
  destruct (response_parses b _ _ m authv ia dnsv sig da Hdec (Hre m Hm) Hread_ns) as (doc & Hdoc & Hty & Hns & Hi & Hdev & ds & Hds & Hauthd & Hraw); try done.
  { apply filteredNS_names. by eapply hm_namespaces. }
  { intros ns Hns. by apply (selected_items_ok _ _ _ _ _ _ Hc Hns). }
  exists doc, t. split.
  { destruct (map_head _ _ _ _ Hb) as [rest ->]. unfold mdoc_Parse. by rewrite decode_map_text, Hdoc. }
  split_and!; try done.
  - intros ns item. rewrite Hns. apply elem_of_filteredNS.
  - intros Hk. eapply device_accepts; try done. by rewrite Hraw.
Qed.
End roundtrip.


(** ** A stored mdoc of two elements, one of them presented *)
Module RoundtripToy.
Import CborCodec.
#[local] Existing Instances JweToy.toy_hash JweToy.toy_crypto JweToy.toy_json RequestToy.toy_pki.

#[local] Instance cose : Cose RequestToy.toy_pki := {
  sign1_parses _ := true; verifier_for _ _ := true; sign1_verifies _ _ _ := true; CoseKey := string; cose_key s := Ok s; cose_curve _ := Some "P-256";
  untagged_parses _ := true; es256_verifies s payload _ := (s =? enc (CArr [CText payload]))%string }.

#[local] Instance signer : Signer := { PrivateKey := unit; marshal_object _ := None; ecdsa_sign _ _ := None; curve_bits _ := 256 }.
#[local] Instance csigner : CoseSigner := { cose_sign1 _ p := Some (enc (CArr [CText p])) }.
Definition device_key : @CoseKey RequestToy.toy_pki cose := enc (CText "key").

#[local] Instance signer_laws : CoseSignerLaws (cose := cose) (fun _ => device_key).
Proof.
  split; intros k p s [= <-].
  - split; [done|]. apply String.eqb_refl.
  - split; [done|]. exists (CArr [CText p]). split; [|done]. by apply (encodes (CArr [CText p])).
Defined.

Definition auth : string := enc (CArr [CText "auth"]).
#[local] Instance raws : CborRaw := { cbor_raw_map _ := Some [("issuerAuth", auth)] }.
#[local] Instance reader : CredentialReader :=
  {| Anchor := unit; holder_bound := fun _ => true; issued_at := issuedAt; chain_akis := fun _ => Some [];
     chain_ends_in := fun _ _ => false; issuance_anchors := fun _ => Err "unreachable" |}.

Definition item (name : string) : IssuerSignedItem :=
  let m := [(CText "elementIdentifier", CText name); (CText "elementValue", CText "x")] in
  item_of_map m (enc (CTag 24 (CBytes (enc (CMap m))))).
Definition cred : StoredCredential :=
  mkCred "1" "mso_mdoc" "00" [] "" "pid" false None None "" "" 0 zero_time [] zero_time [("ns", [item "given_name"; item "family_name"])].
Definition params : ResponseParams := mkResponseParams (mkParams "nonce" "verifier" "" "direct_post" "") "https://verifier/response" "" None None.
Definition issuer_auth : IssuerAuth := match parseIssuerAuth (CArr [CText "auth"]) with Ok ia => ia | Err _ => mkIssuerAuth "" [] [] None "" None end.

Definition presented : result why VPTokenResult := createMDocPresentation JweToy.random Strict "" "" cred ["ns:given_name"] params "" tt.

Definition members (name : string) : cbor_map := [(CText "elementIdentifier", CText name); (CText "elementValue", CText "x")].

Lemma tagged name : tagged_item (item name).
Proof.
  exists (enc (CMap (members name))), (members name).
  assert (E : string_of (item_RawCBOR (item name)) = enc (CTag 24 (CBytes (enc (CMap (members name)))))) by apply string_of_bytes_of.
  rewrite E. split; [by apply (encodes (CTag 24 (CBytes (enc (CMap (members name))))))|]. split; [reflexivity|]. split; [|reflexivity].
  unfold decode_map. by rewrite (encodes (CMap (members name)) (CMap (members name)) _ eq_refl eq_refl eq_refl).
Qed.

Lemma mdoc_held : holds_mdoc cred auth (CArr [CText "auth"]) issuer_auth.
Proof.
  split.
  - exists (String (ascii_of 0) ""), [("issuerAuth", auth)]. split_and!; vm_compute; reflexivity.
  - split; vm_compute; reflexivity.
  - intros ns ->%list_elem_of_singleton. split; [repeat constructor; apply tagged|]. apply (bool_decide_unpack _). vm_compute. exact I.
  - apply NoDup_singleton.
Qed.

Lemma presented_mdoc_is_read_witness :
  exists tok doc, presented = Ok tok /\ mdoc_Parse (vp_Token tok) = Ok doc /\ doc_NameSpaces doc = [("ns", [item "given_name"])] /\
    exists transcript, DeviceKey doc = Ok device_key -> VerifyDeviceAuth doc transcript = Ok ().
Proof.
  destruct presented as [tok|e] eqn:E; [|vm_compute in E; discriminate E].
  destruct (presented_mdoc_is_read (codec := codec) JweToy.random (cose := cose) (fun _ => device_key) (slaws := signer_laws) Strict "" "" cred ["ns:given_name"] params "" tt tok auth
              (CArr [CText "auth"]) issuer_auth mdoc_held E) as (doc & transcript & Hd & Ht & Hty & Hi & Hn & Hdev & _ & Hv).
  - intros dns da b w Hb Hw. apply (encodes _ _ _) with (2 := Hw) (3 := Hb). vm_compute. reflexivity.
  - intros m Hm. vm_compute in Hm. injection Hm as <-. eexists. split; [reflexivity|]. vm_compute. reflexivity.
  - exists tok, doc. split; [reflexivity|]. split; [exact Hd|]. split; [exact Hn|]. exists transcript. exact Hv.
Defined.
End RoundtripToy.
