(* ===== verification/PresentFlow.v ===== *)
(** * PresentFlow: from the chosen credentials to the verifier

    src/internal/wallet: createVPToken and CreateVPTokenMap (presentation.go),
    the self-issued id_token (idtoken.go), and preparing and submitting a
    presentation or an error (server_auth.go).

    Reading and renewing credentials, keys, CBOR and HTTP are parameters; log
    lines, warnings and saving are not modelled.  What the wallet posts is
    returned beside the reply to the caller. *)

From stdpp Require Import base list strings gmap.
From Stdlib Require Import ZArith Ascii.
From S2P Require Import Prelude GoStrings GoValue Format Validity SDJWT WalletState DCQL Present Certs Mdoc IssuerAuth UriQuery Requests Jwe.
From S2P Require Import ClientAuth RequestChecks Response MdocPresent.

Local Open Scope Z_scope.

(** An authorization request with how it arrived. *)
Record AuthRequest `{Pki} := mkRequestOf {
  rq_params : AuthorizationRequestParams; rq_AutoAccept : bool; rq_SessionTranscript : string; rq_Session : string;
  rq_Source : string; rq_BrowserRedirect : bool }.

(** What the HTTP caller is told. *)
Inductive reply :=
| RedirectBrowser (uri : string)
| BadRequest (code : string) (description : why)
| Failed (status : Z) (e : why)
| Refusal (status code description : string) (r : DirectPostResult)
| NoMatch (code description redirect : string)
| Fulfilled (protocol : string) (data : value)
| Unfulfilled (status : Z) (code description : string)
| Submitted (r : DirectPostResult) (vp_token_keys : list string).

(** [SubmissionResult] of a presentation. *)
Record SubmissionResult := mkSubmission { sr_RedirectURI : string; sr_Error : why; sr_StatusCode : Z }.

Record effect := mkEffect { ef_posts : list posted; ef_reply : reply; ef_result : SubmissionResult }.

Definition present_why (e : present_error) : why :=
  match e with
  | IssuerPayloadUnreadable => Text "parsing issuer JWT payload: %w"
  | SdHashFailed _ => Text "computing sd_hash: %w"
  | MarshalFailed | NoPrivateKey | SigningFailed => Text "creating KB-JWT: %w"
  end.

(** The formats the wallet presents. *)
Definition walletPresentationFormats : list string := ["dc+sd-jwt"; "mso_mdoc"; "jwt_vc_json"].

Definition access_denied : string * string := ("access_denied", "no stored credential satisfies the requested query").

(** The formats the wallet cannot present, or the first query it could. *)
Fixpoint unsupported_formats (credQueries : list value) : option (list string) :=
  match credQueries with
  | [] => Some []
  | VObj cq :: l =>
      let requested := get_string cq "format" in
      if (requested =? "")%string || contains walletPresentationFormats requested then None
      else cons requested <$> unsupported_formats l
  | _ :: l => unsupported_formats l
  end.

(** [sort.Strings] of a set. *)
Fixpoint insert_string (s : string) (l : list string) : list string :=
  match l with
  | [] => [s]
  | x :: l' => if (s =? x)%string then l else if String.ltb s x then s :: l else x :: insert_string s l'
  end.
Definition sorted_set (l : list string) : list string := fold_right insert_string [] l.

Definition unsatisfiableQueryError (query : option object) : string * string :=
  match unsupported_formats (get_arr (default [] query) "credentials") with
  | None | Some [] => access_denied
  | Some formats => ("vp_formats_not_supported", "unsupported credential format(s): " +:+ join ", " (sorted_set formats))
  end.

(** The code of a request that failed validation; its error has none of its own. *)
Definition refusalCodeForRequest `{Pki} (authReq : AuthorizationRequestParams) : string :=
  if negb (contains [""; "get"; "post"] (ap_RequestURIMethod authReq)) then "invalid_request_uri_method"
  else if payloadHasKey (ap_RequestPayload authReq) "transaction_data" then "invalid_transaction_data" else "invalid_request".

Definition canDeliverAuthorizationError `{Pki} (p : AuthorizationRequestParams) : bool :=
  negb (isDCAPIResponseMode (ap_ResponseMode p)) && (negb (ap_ResponseURI p =? "")%string || negb (ap_RedirectURI p =? "")%string).

Section flow.
Context {json : Json} {hash : Hash} {pki : Pki} {codec : Cbor} {raws : CborRaw} {reader : CredentialReader}.
Context {signer : Signer} {csigner : CoseSigner} {crypto : JweCrypto}.
Context (marshal_value : value -> option string) (rand_bytes : nat -> option string) (eph : option EcdhPriv) (mode : ValidationMode).
Context (post : posted -> result why (Z * string * result why string)).
(** Whether the credential is bound to the key, and the key of a batch copy. *)
Context (binding_held : string -> PrivateKey -> bool) (decode_key : string -> option PrivateKey).
(** CredentialNeedsRenewal at this moment, and RefreshCredential. *)
Context (needs_renewal : StoredCredential -> bool) (refresh : Wallet -> string -> Wallet * option StoredCredential).
(** The wallet's holder key, which is not nil, and its public JWK. *)
Context (holder_key : PrivateKey) (sub_jwk : object).
(** [w.SessionTranscript], the time, and the fuel of createSDJWTPresentation. *)
Context (wallet_transcript : string) (now : time) (fuel : nat).

(** ** presentation.go *)

Definition batchSigningKey (cred : StoredCredential) : result why PrivateKey :=
  if (BindingKeyPEM cred =? "")%string then Ok holder_key
  else match decode_key (BindingKeyPEM cred) with
       | Some key => Ok key
       | None => Err (Fmt "decoding the binding key of credential %s: %w" [Text (ID cred)])
       end.

Definition keyBindingNotHeld (cred : StoredCredential) : bool :=
  match batchSigningKey cred with
  | Ok signingKey => holder_bound (Raw cred) && negb (binding_held (Raw cred) signingKey)
  | Err _ => false
  end.

Definition checkPresentableKeyBinding (cred : StoredCredential) : option why :=
  if negb (contains ["dc+sd-jwt"; "mso_mdoc"] (CFormat cred)) then None
  else if negb (keyBindingNotHeld cred) then None
  else reportDeviation mode
         (Fmt "Credential %s is bound to a holder key this wallet does not hold, so the key binding signature of this presentation comes from the wrong key and the verifier refuses it."
            [Text (credentialLabel cred)]).

(** The stored credential, renewed first when it is about to expire. *)
Definition renewed (w : Wallet) (cred : StoredCredential) : Wallet * StoredCredential :=
  if CanRenew cred && needs_renewal cred
  then match refresh w (ID cred) with (w, Some cred') => (w, cred') | (w, None) => (w, cred) end
  else (w, cred).

(** [None] when the fuel does not cover the nesting of the disclosures. *)
Definition token_for (cred : StoredCredential) (m : CredentialMatch) (params : ResponseParams) (transcript mdocNonce : string) (signingKey : PrivateKey) :
  option (result why VPTokenResult) :=
  if (CFormat cred =? "dc+sd-jwt")%string then
    token ← createSDJWTPresentation fuel cred (SelectedKeys m) (Unix now) (pp_Nonce (rp_Params params)) (sdJWTAudience (rp_Params params)) (Some signingKey);
    Some (match token with Ok token => Ok (mkVPToken token "") | Err e => Err (present_why e) end)
  else if (CFormat cred =? "jwt_vc_json")%string then Some (Ok (mkVPToken (Raw cred) ""))
  else if (CFormat cred =? "mso_mdoc")%string then
    Some (createMDocPresentation rand_bytes mode wallet_transcript transcript cred (SelectedKeys m) params mdocNonce signingKey)
  else Some (Err (Fmt "unsupported credential format: %s" [Text (CFormat cred)])).

Definition createVPToken (w : Wallet) (m : CredentialMatch) (params : ResponseParams) (transcript mdocNonce : string) :
  option (Wallet * result why VPTokenResult) :=
  match GetCredential w (CredentialID m) with
  | None => Some (w, Err (Fmt "credential %s not found" [Text (CredentialID m)]))
  | Some cred =>
      let '(w, cred) := renewed w cred in
      match checkPresentableKeyBinding cred with
      | Some e => Some (w, Err e)
      | None =>
          match batchSigningKey cred with
          | Err e => Some (w, Err e)
          | Ok signingKey => token ← token_for cred m params transcript mdocNonce signingKey; Some (w, token)
          end
      end
  end.

(** [append(TokenMap[id], token)] *)
Definition add_token (id token : string) (tokens : gmap string (list string)) : gmap string (list string) :=
  <[id := default [] (tokens !! id) ++ [token]]> tokens.

Fixpoint create_tokens (w : Wallet) (matches : list CredentialMatch) (params : ResponseParams) (transcript mdocNonce : string) (r : VPTokenMapResult) :
  option (Wallet * result why VPTokenMapResult) :=
  match matches with
  | [] => Some (w, Ok r)
  | m :: matches =>
      token ← createVPToken w m params transcript mdocNonce;
      match token with
      | (w, Err e) => Some (w, Err (Fmt "creating VP token for %s: %w" [Text (QueryID m); e]))
      | (w, Ok t) =>
          let r := mkVPResult (add_token (QueryID m) (vp_Token t) (TokenMap r)) (if (vt_MDocNonce t =? "")%string then vp_MDocNonce r else vt_MDocNonce t) in
          create_tokens (recordBatchPresentation w (CredentialID m) now).1 matches params transcript mdocNonce r
      end
  end.

(** One nonce for the documents of an ISO response. *)
Definition response_nonce (transcript : string) : result why string :=
  if (sessionTranscriptFor transcript wallet_transcript =? SessionTranscriptISO)%string then newMDocGeneratedNonce rand_bytes else Ok "".

Definition CreateVPTokenMap (w : Wallet) (matches : list CredentialMatch) (params : ResponseParams) (transcript : string) :
  option (Wallet * result why VPTokenMapResult) :=
  match response_nonce transcript with
  | Err e => Some (w, Err e)
  | Ok mdocNonce => create_tokens w matches params transcript mdocNonce (mkVPResult ∅ "")
  end.

(** ** idtoken.go *)

Definition jwkThumbprint (jwk : object) : string :=
  let member k := quoted k +:+ ":" +:+ quoted (get_string jwk k) in
  EncodeBase64URL (sha256 ("{" +:+ join "," (map member ["crv"; "kty"; "x"; "y"]) +:+ "}")).

Definition CreateSelfIssuedIDToken (nonce clientID : string) : result present_error string :=
  Sign [("alg", VString "ES256"); ("typ", VString "JWT"); ("jwk", VObj sub_jwk)]
    [("iss", VString "https://self-issued.me/v2"); ("sub", VString (jwkThumbprint sub_jwk)); ("aud", VString clientID); ("nonce", VString nonce);
     ("iat", VInt KInt64 (Unix now)); ("exp", VInt KInt64 (Unix (add now (5 * Minute)))); ("sub_jwk", VObj sub_jwk)] (Some holder_key).

(** ** server_auth.go *)

Definition presentation_params (p : AuthorizationRequestParams) : ResponseParams :=
  mkResponseParams (mkParams (ap_Nonce p) (ap_ClientID p) (ap_RequestOrigin p) (ap_ResponseMode p) "")
    (if (ap_ResponseURI p =? "")%string then ap_RedirectURI p else ap_ResponseURI p) (ap_RedirectURI p) (ap_ClientMetadata p) (ap_RequestObject p).

Record preparedPresentation := mkPrepared { VPResult : option VPTokenMapResult; IDToken : string }.

Definition with_id_token (p : AuthorizationRequestParams) (vp : option VPTokenMapResult) : result why preparedPresentation :=
  if ResponseTypeContains (ap_ResponseType p) "id_token"
  then match CreateSelfIssuedIDToken (ap_Nonce p) (presentationAudience p) with
       | Err e => Err (Fmt "creating id_token: %w" [present_why e])
       | Ok idToken => Ok (mkPrepared vp idToken)
       end
  else Ok (mkPrepared vp "").

Definition preparePresentation (w : Wallet) (req : AuthRequest) (matches : list CredentialMatch) : option (Wallet * result why preparedPresentation) :=
  let p := rq_params req in
  if ResponseTypeContains (ap_ResponseType p) "vp_token" || (ap_ResponseType p =? "")%string then
    tokens ← CreateVPTokenMap w matches (presentation_params p) (rq_SessionTranscript req);
    match tokens with
    | (w, Err e) => Some (w, Err (Fmt "creating VP token map: %w" [e]))
    | (w, Ok vp) => Some (w, with_id_token p (Some vp))
    end
  else Some (w, with_id_token p None).

Definition submission_of (r : DirectPostResult) : SubmissionResult :=
  mkSubmission (dp_RedirectURI r) (if 400 <=? dp_StatusCode r then Text (dp_Body r) else Text "") (dp_StatusCode r).

Definition failed_with (status : Z) (posts : list posted) (e : why) : effect := mkEffect posts (Failed status e) (mkSubmission "" e 0).

Definition submitPresentation (w : Wallet) (req : AuthRequest) (matches : list CredentialMatch) : option (Wallet * effect) :=
  let p := rq_params req in
  prepared ← preparePresentation w req matches;
  Some (match prepared with
        | (w, Err e) => (w, failed_with 500 [] e)
        | (w, Ok prepared) =>
            let params := presentation_params p in
            (w, match SubmitPresentation marshal_value rand_bytes eph mode post (VPResult prepared) (IDToken prepared) (ap_State p) (rp_ResponseURI params) params with
                | (posts, Err e) => failed_with 502 posts e
                | (posts, Ok r) =>
                    mkEffect posts
                      (if rq_BrowserRedirect req then RedirectBrowser (dp_RedirectURI r)
                       else Submitted r (match VPResult prepared with Some vp => (sorted_entries (TokenMap vp)).*1 | None => [] end))
                      (submission_of r)
                end)
        end).

Definition deliverAuthorizationError (p : AuthorizationRequestParams) (errorCode errorDescription : string) : outcome :=
  let params := presentation_params p in
  SubmitAuthorizationError marshal_value rand_bytes eph mode post errorCode errorDescription (ap_State p) (rp_ResponseURI params) params.

(** What was posted, and the redirect_uri of the verifier's answer. *)
Definition reportRefusalToVerifier (p : AuthorizationRequestParams) (errorCode errorDescription : string) : list posted * string :=
  if negb (canDeliverAuthorizationError p) then ([], "")
  else match deliverAuthorizationError p errorCode errorDescription with
       | (posts, Ok r) => (posts, dp_RedirectURI r)
       | (posts, Err _) => (posts, "")
       end.

Definition submitAuthorizationError (req : AuthRequest) (status errorCode errorDescription : string) : effect :=
  match deliverAuthorizationError (rq_params req) errorCode errorDescription with
  | (posts, Err e) => failed_with 502 posts e
  | (posts, Ok r) =>
      mkEffect posts (if rq_BrowserRedirect req then RedirectBrowser (dp_RedirectURI r) else Refusal status errorCode errorDescription r) (submission_of r)
  end.
End flow.
