(* ===== verification/BrowserApi.v ===== *)
(** * BrowserApi: presentation requests as they arrive, and the DC API

    src/internal/wallet: the endpoints that read a presentation request
    (server_presentation.go, parseAuthParams of server_auth.go, request.go), the
    Digital Credentials API envelope (browser_api.go), and the results it
    returns instead of a post (server_browser.go, server_auth.go).

    A log line or the record of an error for the page is not modelled. *)

From stdpp Require Import base list strings gmap.
From Stdlib Require Import ZArith Lia Ascii.
From S2P Require Import Prelude GoStrings GoValue Format Validity SDJWT WalletState DCQL Present Certs Mdoc IssuerAuth UriQuery Requests Jwe.
From S2P Require Import ClientAuth RequestChecks Response Deferred MdocPresent PresentFlow.

Local Open Scope Z_scope.

(** An error with its OpenID4VP code. *)
Record authorizationError := mkAuthError { ae_Code : string; ae_Err : why }.
Definition no_code (e : why) : authorizationError := mkAuthError "" e.

Definition authorizationErrorCode (e : authorizationError) : string := if (ae_Code e =? "")%string then "invalid_request" else ae_Code e.

(** The DC API request with its protocol and data. *)
Record BrowserAPICredentialRequest := mkBrowserRequest { br_Protocol : string; br_Data : value }.

Definition BrowserAPIProtocolOpenID4VPUnsigned : string := "openid4vp-v1-unsigned".
Definition BrowserAPIProtocolOpenID4VPSigned : string := "openid4vp-v1-signed".
Definition BrowserAPIProtocolOpenID4VPMulti : string := "openid4vp-v1-multisigned".

(** The client_id, the caller's origin and whether the request was unsigned. *)
Definition from_browser `{Pki} (clientID origin : string) (unsigned : bool) (p : AuthorizationRequestParams) : AuthorizationRequestParams :=
  mkAuthParams _ clientID (ap_ResponseType p) (ap_ResponseMode p) (ap_Nonce p) (ap_State p) origin (ap_RedirectURI p)
    (ap_ResponseURI p) (ap_Scope p) (ap_RequestURIMethod p) (ap_RequestURI p) (ap_ClientMetadata p) (ap_DCQLQuery p)
    (ap_RequestObject p) (ap_RequestPayload p) (ap_FullParams p) unsigned (ap_RelyingPartyCAs p) (ap_RegistrarCAs p)
    (ap_RegistrationStatusCAs p).

Section parsing.
Context {json : Json} {pki : Pki}.
Context (marshal_object : object -> option string) (marshal_value : value -> option string) (json_valid : string -> bool).
Context (FetchURL : string -> result why string) (FetchRequestURI : string -> string -> string -> result why string).

(** ** request.go and parseAuthParams *)

Definition ParseAuthorizationRequestWithOptions (raw : string) : result why AuthorizationRequest :=
  match ParseWithOptions marshal_object FetchURL FetchRequestURI (trim_space raw) with
  | Err e => Err (Fmt "parsing authorization request: %w" [e])
  | Ok (Offer _) => Err (Text "expected VP authorization request, got VCI")
  | Ok (Authorization r) => Ok r
  end.

Definition parseAuthParams (q : values) (mode : ValidationMode) : result authorizationError AuthorizationRequestParams :=
  let get k := first_of q k in
  let given k := negb (get k =? "")%string in
  let method := get "request_uri_method" in
  if given "client_metadata" && negb (json_valid (get "client_metadata")) then Err (no_code (Text "parsing client_metadata: not valid JSON"))
  else if given "dcql_query" && negb (json_valid (get "dcql_query")) then Err (no_code (Text "parsing dcql_query: not valid JSON"))
  else if given "transaction_data" && is_strict mode
  then Err (mkAuthError "invalid_transaction_data" (Text "transaction_data is not supported by this wallet"))
  else if given "request_uri_method" && negb (given "request_uri") then Err (no_code (Text "request_uri_method requires request_uri"))
  else if given "request_uri_method" && negb (contains ["get"; "post"] method)
  then Err (mkAuthError "invalid_request_uri_method" (Fmt "unsupported request_uri_method %q" [Text method]))
  else match ParseAuthorizationParams FetchRequestURI q with
  | Err e => Err (no_code (if given "request_uri" then Fmt "parsing request_uri %q: %w" [Text (get "request_uri"); e]
                           else Fmt "parsing request JWT: %w" [e]))
  | Ok parsed =>
      if (ar_ClientID parsed =? "")%string then Err (no_code (Text "missing client_id")) else Ok (authorizationParams parsed)
  end.

(** ** server_presentation.go *)

Definition isBrowserNavigation (method accept : string) : bool := (method =? "GET")%string && Contains accept "text/html".

(** [form] is the parsed form of a POST; [owner] is requestOwner and
    [new_session] the session a navigation without one gets. *)
Definition handleAuthorize (mode : ValidationMode) (method rawQuery accept : string) (form : result why values) (owner new_session : string) :
  result why AuthRequest :=
  let? q := if (method =? "GET")%string then Ok (URIQueryValues rawQuery)
            else match form with Ok q => Ok q | Err _ => Err (Text "invalid form data") end in
  match parseAuthParams q mode with
  | Err e => Err (Fmt "invalid authorization request: %v" [ae_Err e])
  | Ok p =>
      let navigation := isBrowserNavigation method accept in
      Ok (mkRequestOf _ p false "" (if navigation && (owner =? "")%string then new_session else owner) "authorize" navigation)
  end.

Definition handlePresentationAPI (uri : string) (autoAccept interactive : bool) (sessionTranscript owner : string) : result why AuthRequest :=
  if negb (contains [""; "oid4vp"; SessionTranscriptISO] sessionTranscript)
  then Err (Fmt "invalid session transcript %q" [Text sessionTranscript])
  else let? parsed := ParseAuthorizationRequestWithOptions uri in
       Ok (mkRequestOf _ (authorizationParams parsed) autoAccept sessionTranscript owner (if interactive then "interactive" else "api") false).

(** ** browser_api.go *)

(** The texts of an object, as query parameters. *)
Definition text_params (m : object) : values :=
  fold_left (fun q kv => match snd kv with VString text => <[fst kv := [text]]> q | _ => q end) m ∅.

Definition signed_browser_request (data : value) : result why string :=
  match data with
  | VString raw => Ok raw
  | VObj typed =>
      if negb (get_string typed "request" =? "")%string then Ok (get_string typed "request")
      else if negb (get_string typed "request_uri" =? "")%string
      then Ok ("openid4vp://authorize?" +:+ Values_Encode (text_params typed))
      else Err (Text "signed browser request must contain request or request_uri")
  | _ => Err (Text "signed browser request data must be a JWT string or object")
  end.

(** The first signature that verifies, or the first that parses. *)
Fixpoint multi_signed (payload origin : string) (signatures : list value) (firstCandidate : option AuthorizationRequestParams) :
  option AuthorizationRequestParams :=
  match signatures with
  | [] => firstCandidate
  | VObj m :: signatures =>
      let protected := get_string m "protected" in
      let signature := get_string m "signature" in
      if (protected =? "")%string || (signature =? "")%string then multi_signed payload origin signatures firstCandidate
      else match ParseAuthorizationRequestWithOptions (protected +:+ "." +:+ payload +:+ "." +:+ signature) with
      | Err _ => multi_signed payload origin signatures firstCandidate
      | Ok parsed =>
          let clientID := match ar_RequestObject parsed with
                          | Some ro => if (ar_ClientID parsed =? "")%string then get_string (default [] (ro_Header ro)) "client_id" else ar_ClientID parsed
                          | None => ar_ClientID parsed end in
          let candidate := from_browser clientID origin false (authorizationParams parsed) in
          let firstCandidate := match firstCandidate with None => Some candidate | Some c => Some c end in
          match ar_RequestObject parsed with
          | Some ro => if negb (clientID =? "")%string && bool_decide (VerifyRequestObjectSignature clientID (Some ro) = None)
                       then Some candidate else multi_signed payload origin signatures firstCandidate
          | None => multi_signed payload origin signatures firstCandidate
          end
      end
  | _ :: signatures => multi_signed payload origin signatures firstCandidate
  end.

Definition parseMultiSignedBrowserAuthorizationRequest (requestObject : object) (requestOrigin : string) : result why AuthorizationRequestParams :=
  let payload := get_string requestObject "payload" in
  match as_arr (index requestObject "signatures") with
  | Some (s :: signatures) =>
      if (payload =? "")%string then Err (Text "multisigned browser request must contain payload and signatures")
      else match multi_signed payload requestOrigin (s :: signatures) None with
      | Some candidate => Ok candidate
      | None => Err (Text "multisigned browser request did not contain a parseable signature")
      end
  | _ => Err (Text "multisigned browser request must contain payload and signatures")
  end.

(** Appendix A.2: an unsigned request has no client_id or expected_origins. *)
Definition unsigned_payload (data : value) : value :=
  match data with
  | VObj m => VObj (List.filter (fun kv => negb (contains ["client_id"; "expected_origins"] (fst kv))) m)
  | _ => data
  end.

Definition parseBrowserAuthorizationRequest (protocol : string) (data : value) (requestOrigin : string) : result why AuthorizationRequestParams :=
  let parse_raw unsigned raw :=
    let? parsed := ParseAuthorizationRequestWithOptions raw in
    Ok (from_browser (ar_ClientID parsed) requestOrigin unsigned (authorizationParams parsed)) in
  if (protocol =? BrowserAPIProtocolOpenID4VPSigned)%string then
    let? raw := signed_browser_request data in parse_raw false raw
  else if (protocol =? BrowserAPIProtocolOpenID4VPMulti)%string then
    match data with
    | VObj m => match index m "request" with
                | VObj requestObject => parseMultiSignedBrowserAuthorizationRequest requestObject requestOrigin
                | _ => Err (Text "multisigned browser request must contain a request object")
                end
    | _ => Err (Text "multisigned browser request data must be an object")
    end
  else if (protocol =? BrowserAPIProtocolOpenID4VPUnsigned)%string then
    match marshal_value (unsigned_payload data) with
    | None => Err (Text "marshaling unsigned browser request: %w")
    | Some raw => parse_raw true raw
    end
  else Err (Fmt "unsupported browser protocol %q" [Text protocol]).

Definition browser_protocols : list string :=
  [BrowserAPIProtocolOpenID4VPUnsigned; BrowserAPIProtocolOpenID4VPSigned; BrowserAPIProtocolOpenID4VPMulti].

Fixpoint ParseBrowserAPIRequest (requests : list BrowserAPICredentialRequest) (requestOrigin : string) :
  result why (string * AuthorizationRequestParams) :=
  match requests with
  | [] => Err (Text "browser request did not contain a supported OpenID4VP protocol")
  | r :: requests =>
      if contains browser_protocols (br_Protocol r) then
        let? params := parseBrowserAuthorizationRequest (br_Protocol r) (br_Data r) requestOrigin in Ok (br_Protocol r, params)
      else ParseBrowserAPIRequest requests requestOrigin
  end.

(** handleBrowserPresentationAPI, as far as it reads the request. *)
Definition browser_request (requests : list BrowserAPICredentialRequest) (origin owner : string) : result why (string * AuthRequest) :=
  let? parsed := ParseBrowserAPIRequest requests (trim_space origin) in
  Ok (parsed.1, mkRequestOf _ parsed.2 false "" owner "browser_api" false).
End parsing.

(** ** The results of the DC API *)

Definition dcAPIData (plain : object) : value :=
  match index plain "error" with
  | VString errorCode => VObj [("error", VString errorCode)]
  | _ => VObj plain
  end.

(** The data of the result; the plain response is never nil. *)
Definition BuildBrowserAPIResult (response : AuthorizationResponseEnvelope) : result why value :=
  let m := env_ResponseMode response in
  if (m =? "dc_api.jwt")%string then
    if (env_ResponseJWT response =? "")%string then Ok (dcAPIData (env_Plain response))
    else Ok (VObj [("response", VString (env_ResponseJWT response))])
  else if (m =? "dc_api")%string || (m =? "")%string then Ok (dcAPIData (env_Plain response))
  else Err (Fmt "response_mode %q cannot be returned via Browser API" [Text m]).

Section results.
Context {json : Json} {hash : Hash} {pki : Pki} {codec : Cbor} {raws : CborRaw} {reader : CredentialReader}.
Context {signer : Signer} {csigner : CoseSigner} {crypto : JweCrypto}.
Context (marshal_value : value -> option string) (rand_bytes : nat -> option string) (eph : option EcdhPriv) (mode : ValidationMode).
Context (binding_held : string -> PrivateKey -> bool) (decode_key : string -> option PrivateKey).
Context (needs_renewal : StoredCredential -> bool) (refresh : Wallet -> string -> Wallet * option StoredCredential).
Context (holder_key : PrivateKey) (sub_jwk : object) (wallet_transcript : string) (now : time) (fuel : nat).

Definition buildBrowserPresentationResult (w : Wallet) (req : AuthRequest) (matches : list CredentialMatch) :
  option (Wallet * result why value) :=
  prepared ← preparePresentation rand_bytes mode binding_held decode_key needs_renewal refresh holder_key sub_jwk wallet_transcript now fuel w req matches;
  let p := rq_params req in
  Some (prepared.1, let? prep := prepared.2 in
                    let? response := BuildAuthorizationResponse marshal_value rand_bytes eph mode (VPResult prep) (IDToken prep) (ap_State p)
                                       (presentation_params p) in
                    BuildBrowserAPIResult response).

(** The error keeps the request's own response_uri. *)
Definition browser_error_params (p : AuthorizationRequestParams) : ResponseParams :=
  mkResponseParams (rp_Params (presentation_params p)) (ap_ResponseURI p) (ap_RedirectURI p) (ap_ClientMetadata p) (ap_RequestObject p).

Definition buildBrowserAuthorizationErrorResult (req : AuthRequest) (errorCode errorDescription : string) : result why value :=
  let p := rq_params req in
  let? response := BuildAuthorizationErrorResponse rand_bytes eph mode errorCode errorDescription (ap_State p) (browser_error_params p) in
  BuildBrowserAPIResult response.

(** ** server_browser.go *)

Definition writeBrowserAuthorizationError (req : AuthRequest) (protocol errorCode errorDescription : string) : effect :=
  mkEffect [] (match buildBrowserAuthorizationErrorResult req errorCode errorDescription with
               | Ok data => Fulfilled protocol data
               | Err _ => Unfulfilled 200 errorCode errorDescription
               end) (mkSubmission "" (Text "") 0).

Definition writeBrowserPresentationResult (w : Wallet) (req : AuthRequest) (protocol : string) (matches : list CredentialMatch) :
  option (Wallet * effect) :=
  built ← buildBrowserPresentationResult w req matches;
  Some (built.1, match built.2 with
                 | Err e => failed_with 500 [] e
                 | Ok data => mkEffect [] (Fulfilled protocol data) (mkSubmission "" (Text "") 200)
                 end).

(** The denial, and the override of the next error, in the DC API. *)
Definition browser_denial (req : AuthRequest) (protocol errorCode errorDescription : string) : effect :=
  match buildBrowserAuthorizationErrorResult req errorCode errorDescription with
  | Err e => failed_with 502 [] e
  | Ok data => mkEffect [] (Fulfilled protocol data) (mkSubmission "" (Text "access_denied") 200)
  end.
End results.
