(* ===== verification/ConsentFlow.v ===== *)
(** * ConsentFlow: the wallet server and the user's consent

    src/internal/wallet: the registry of consent requests (wallet_events.go),
    who may answer one (server_owner.go), handleAuthFlow and the wait for the
    answer (server_auth.go, consent_selection.go), the same flow for the DC API
    (server_browser.go), and the approve and deny handlers (server_requests.go).

    A flow is the goroutine of one presentation request with the consent request
    it made; a call is one request to approve or deny.  Each step of a flow or a
    call is one action of [wstep], and actions interleave freely.  The registry's
    lock makes its operations atomic; reading and evaluating an arriving request
    is one action.  Logs, notifications and the issuance consents, which share
    the registry under ids of their own, are not modelled.  A fresh id is one no
    flow and no call has named. *)

From stdpp Require Import base list strings gmap relations.
From Stdlib Require Import ZArith Lia Ascii.
From S2P Require Import Prelude GoStrings GoValue Format Validity StatusList SDJWT WalletState WalletStore DCQL Consent Present Certs Mdoc IssuerAuth UriQuery Requests Jwe.
From S2P Require Import ClientAuth RequestChecks Response Registration MdocPresent PresentFlow BrowserApi.

Local Open Scope Z_scope.

(** ** server_owner.go *)

(** What identifies the sender of an HTTP request. *)
Record caller := mkCaller { ca_cookie : string; ca_header : string; ca_query : string; ca_request : string }.

Definition maxOwnerLength : nat := 128.

Definition boundedOwner (v : string) : string := let v := trim_space v in if (maxOwnerLength <? String.length v)%nat then "" else v.

Definition namedOwner (c : caller) : string := boundedOwner (ca_header c).
Definition presentedOwner (c : caller) : string :=
  if (namedOwner c =? "")%string then boundedOwner (ca_query c) else namedOwner c.
Definition requestOwner (c : caller) : string := if (namedOwner c =? "")%string then ca_cookie c else namedOwner c.

Definition ownedBy (owners : list string) (want : string) : bool := contains owners want.

Definition callerOwners (c : caller) : list string :=
  let owners := if (ca_cookie c =? "")%string then [] else [ca_cookie c] in
  let token := presentedOwner c in
  if negb (token =? "")%string && negb (ownedBy owners token) then owners ++ [token] else owners.

(** ** The state *)

Inductive consent_status := Pending | Approved | Denied | Expired.
#[global] Instance consent_status_eq_dec : EqDecision consent_status. Proof. solve_decision. Defined.

(** A decision on the channel of a consent request. *)
Record decision := mkDecision {
  dc_Approved : bool; dc_Owner : string; dc_TxCode : string; dc_ConfigurationID : string; dc_selection : ConsentResult }.

(** The channels hold at most one value. *)
Record ConsentRequest := mkConsentRequest {
  cr_ID : string; cr_Owner : string; cr_Status : consent_status; cr_CreatedAt : time; cr_OfferConfigs : list string;
  cr_CredentialOptions : option ConsentCredentialOptions; cr_ResultCh : option decision; cr_SubmissionCh : option SubmissionResult }.

Definition ownsRequest (owners : list string) (req : ConsentRequest) (named : string) : bool :=
  (cr_Owner req =? "")%string || ownedBy owners (cr_Owner req) || (negb (named =? "")%string && (cr_ID req =? named)%string).

(** The body of an approval; a pick is a list of ids, or null. *)
Record approve_body := mkApprove {
  ab_SelectedClaims : option (gmap string (list string)); ab_TxCode : string; ab_ConfigurationID : string;
  ab_Picks : gmap string (option (list string)); ab_SetChoices : list Z; ab_ClaimSets : gmap string Z }.

Definition selection_of (b : approve_body) : ConsentResult :=
  mkConsent (ab_SelectedClaims b) (omap id (ab_Picks b)) (ab_SetChoices b) (ab_ClaimSets b).

Definition no_selection : ConsentResult := mkConsent None ∅ [] ∅.

(** [None] is a denial. *)
Definition decision_of (c : caller) (body : option approve_body) : decision :=
  match body with
  | Some b => mkDecision true (requestOwner c) (trim_space (ab_TxCode b)) (ab_ConfigurationID b) (selection_of b)
  | None => mkDecision false "" "" "" no_selection
  end.

(** How the answer travels: to the verifier, or as the result of the DC API. *)
Inductive delivery := ByPost | ByBrowser (protocol : string).

(** The wallet's settings, with the anchors of the ARF checks. *)
Record settings `{Pki} := mkWalletSettings {
  st_Conformance : ConformanceSettings; st_AutoAccept : bool; st_PreferredFormat : string; st_SessionTranscript : string;
  st_RelyingPartyCAs : list X509Cert; st_RegistrarCAs : list X509Cert; st_RegistrationStatusCAs : list X509Cert }.

Abbreviation st_Mode st := (cs_ValidationMode (st_Conformance st)).

Definition autoAccepts `{Pki} (st : settings) (req : AuthRequest) : bool :=
  st_AutoAccept st || rq_AutoAccept req || (rq_Source req =? "api")%string.

(** What the handlers of a call and of a flow answer. *)
Inductive call_reply :=
| NotFound | Conflict (reason : string) | NoConfiguration (configurationID : string) | InvalidSelection (e : consent_error)
| StrictRefuses | Answered (approved : bool) (r : SubmissionResult) | StillRunning (approved : bool).

Inductive call_phase :=
| Checked (id : string)              (* the checks on the pending request passed *)
| Sending (f : nat) (d : decision)    (* resolved, the decision goes to the flow *)
| Awaiting (f : nat) (approved : bool)
| Replied (r : call_reply).

Record call := mkCall { cl_caller : caller; cl_body : option approve_body; cl_mode : ValidationMode; cl_phase : call_phase }.

Inductive flow_phase :=
| Accepted                      (* without a dialog *)
| Waiting                       (* for the answer or the timeout *)
| Blocked                       (* the timeout lost: for the answer only *)
| TimedOut
| Decided (d : decision)
| Reporting (r : SubmissionResult)
| Done.

(** History: the presentation a flow sent, with the wallet and mode it was made in. *)
Record presentation := mkPresentation { pr_wallet : Wallet; pr_mode : ValidationMode; pr_matches : list CredentialMatch; pr_effect : effect }.

(** History: the call that resolved a consent request. *)
Record decided_by := mkDecidedBy { db_caller : caller; db_body : option approve_body; db_mode : ValidationMode }.

(** The code of a status. *)
Definition statusExpired : consent_status := Expired.
Definition refusalReason (status : consent_status) : string :=
  if decide (status = statusExpired) then "This request timed out before it was answered" else "This request was already answered".

Section server.
Context {json : Json} {hash : Hash} {pki : Pki} {codec : Cbor} {raws : CborRaw} {reader : CredentialReader}.
Context {signer : Signer} {csigner : CoseSigner} {crypto : JweCrypto}.
Context (family : PubKey -> key_family) (DNSNames : X509Cert -> list string) (unmarshal_any : string -> option value).
Context (subject_names : X509Cert -> list (string * option string)).
Context (marshal_value : value -> option string).
Context (binding_held : string -> PrivateKey -> bool) (decode_key : string -> option PrivateKey).
Context (holder_key : PrivateKey) (sub_jwk : object).
(** The text of an error, and of a finding on a trusted list. *)
Context (error_text : why -> string) (list_finding : string * string -> string).

(** The world while one action runs. *)
Record world := mkWorld {
  wd_now : time;
  wd_fetch : string -> string -> option (string * string * string);
  wd_parseCWT : string -> CheckOptions -> result token_error statusListToken;
  wd_rnd : string -> nat -> nat; wd_rnd' : string -> nat -> nat;
  wd_rand_bytes : nat -> option string; wd_eph : option EcdhPriv;
  wd_post : posted -> result why (Z * string * result why string);
  wd_needs_renewal : StoredCredential -> bool;
  wd_refresh : Wallet -> string -> Wallet * option StoredCredential;
  wd_fuel : nat }.

(** The last three fields are history: the settings, the wallet and the world
    when the request arrived. *)
Record flow := mkFlow {
  fl_req : AuthRequest; fl_delivery : delivery; fl_matches : list CredentialMatch; fl_consent : option ConsentRequest; fl_phase : flow_phase;
  fl_decided : list decided_by; fl_presented : list presentation; fl_errors : list effect;
  fl_settings : settings; fl_wallet : Wallet; fl_world : world }.

(** [requests] maps an id to the flow that holds the consent request. *)
Record wserver := mkServer {
  wallet : Wallet; wsettings : settings; requests : gmap string nat; nextError : option (string * string);
  flows : gmap nat flow; calls : gmap nat call; refusals : list effect }.

Definition with_flow (f : nat) (fl : flow) (s : wserver) : wserver :=
  mkServer (wallet s) (wsettings s) (requests s) (nextError s) (<[f := fl]> (flows s)) (calls s) (refusals s).
Definition with_call (k : nat) (c : call) (s : wserver) : wserver :=
  mkServer (wallet s) (wsettings s) (requests s) (nextError s) (flows s) (<[k := c]> (calls s)) (refusals s).
Definition with_wallet (w : Wallet) (s : wserver) : wserver :=
  mkServer w (wsettings s) (requests s) (nextError s) (flows s) (calls s) (refusals s).
Definition refused (e : effect) (s : wserver) : wserver :=
  mkServer (wallet s) (wsettings s) (requests s) (nextError s) (flows s) (calls s) (refusals s ++ [e]).

Definition with_phase (p : flow_phase) (fl : flow) : flow :=
  mkFlow (fl_req fl) (fl_delivery fl) (fl_matches fl) (fl_consent fl) p (fl_decided fl) (fl_presented fl) (fl_errors fl)
    (fl_settings fl) (fl_wallet fl) (fl_world fl).
Definition with_consent (cr : ConsentRequest) (fl : flow) : flow :=
  mkFlow (fl_req fl) (fl_delivery fl) (fl_matches fl) (Some cr) (fl_phase fl) (fl_decided fl) (fl_presented fl) (fl_errors fl)
    (fl_settings fl) (fl_wallet fl) (fl_world fl).
Definition with_phase_call (p : call_phase) (c : call) : call := mkCall (cl_caller c) (cl_body c) (cl_mode c) p.

Definition with_status (st : consent_status) (cr : ConsentRequest) : ConsentRequest :=
  mkConsentRequest (cr_ID cr) (cr_Owner cr) st (cr_CreatedAt cr) (cr_OfferConfigs cr) (cr_CredentialOptions cr) (cr_ResultCh cr) (cr_SubmissionCh cr).
Definition with_result (d : option decision) (cr : ConsentRequest) : ConsentRequest :=
  mkConsentRequest (cr_ID cr) (cr_Owner cr) (cr_Status cr) (cr_CreatedAt cr) (cr_OfferConfigs cr) (cr_CredentialOptions cr) d (cr_SubmissionCh cr).
Definition with_submission (r : option SubmissionResult) (cr : ConsentRequest) : ConsentRequest :=
  mkConsentRequest (cr_ID cr) (cr_Owner cr) (cr_Status cr) (cr_CreatedAt cr) (cr_OfferConfigs cr) (cr_CredentialOptions cr) (cr_ResultCh cr) r.

(** ** wallet_events.go *)

Definition resolvedConsentRetention : Z := 10 * Minute.
Definition consentRequestMaxAge : Z := Hour.

Definition consent_of (s : wserver) (f : nat) : option ConsentRequest := fl ← flows s !! f; fl_consent fl.

(** Whether CreateConsentRequest keeps the entry. *)
Definition kept (s : wserver) (now : time) (f : nat) : bool :=
  match consent_of s f with
  | None => true
  | Some cr =>
      let age := sub now (cr_CreatedAt cr) in
      negb ((consentRequestMaxAge <? age) || (negb (bool_decide (cr_Status cr = Pending)) && (resolvedConsentRetention <? age)))
  end.

Definition CreateConsentRequest (now : time) (f : nat) (id : string) (s : wserver) : wserver :=
  mkServer (wallet s) (wsettings s) (<[id := f]> (filter (fun e => kept s now e.2 = true) (requests s))) (nextError s) (flows s) (calls s) (refusals s).

Definition GetRequest (s : wserver) (id : string) : option (nat * ConsentRequest) :=
  f ← requests s !! id; cr ← consent_of s f; Some (f, cr).

(** The request of the id, if any, and the state in which it is resolved. *)
Definition ResolveRequest (id : string) (status : consent_status) (s : wserver) : option (nat * ConsentRequest) * option wserver :=
  match GetRequest s id with
  | None => (None, None)
  | Some (f, cr) =>
      (Some (f, cr),
       if decide (cr_Status cr = Pending)
       then fl ← flows s !! f; Some (with_flow f (with_consent (with_status status cr) fl) s) else None)
  end.

Definition PendingRequestsFor (owners : list string) (named : string) (s : wserver) : list string :=
  (List.filter (fun e => match consent_of s e.2 with
                         | Some cr => bool_decide (cr_Status cr = Pending) && ownsRequest owners cr named
                         | None => false end) (map_to_list (requests s))).*1.

Definition SetNextError (e : option (string * string)) (s : wserver) : wserver :=
  mkServer (wallet s) (wsettings s) (requests s) e (flows s) (calls s) (refusals s).

Definition with_settings (st : settings) (s : wserver) : wserver :=
  mkServer (wallet s) st (requests s) (nextError s) (flows s) (calls s) (refusals s).

(** ** Answering in the request's own way *)

Definition refuse_with (W : world) (m : ValidationMode) (d : delivery) (req : AuthRequest) (status code description : string) : effect :=
  match d with
  | ByPost => submitAuthorizationError marshal_value (wd_rand_bytes W) (wd_eph W) m (wd_post W) req status code description
  | ByBrowser protocol => writeBrowserAuthorizationError (wd_rand_bytes W) (wd_eph W) m req protocol code description
  end.

(** The override of the next error, and the denial. *)
Definition answer_error (W : world) (m : ValidationMode) (d : delivery) (req : AuthRequest) (status code description : string) : effect :=
  match d with
  | ByPost => submitAuthorizationError marshal_value (wd_rand_bytes W) (wd_eph W) m (wd_post W) req status code description
  | ByBrowser protocol => browser_denial (wd_rand_bytes W) (wd_eph W) m req protocol code description
  end.

Definition no_match_with (W : world) (m : ValidationMode) (d : delivery) (req : AuthRequest) : effect :=
  let '(code, description) := unsatisfiableQueryError (ap_DCQLQuery (rq_params req)) in
  match d with
  | ByPost =>
      let '(posts, redirectURI) := reportRefusalToVerifier marshal_value (wd_rand_bytes W) (wd_eph W) m (wd_post W) (rq_params req) code description in
      mkEffect posts (if rq_BrowserRedirect req then RedirectBrowser redirectURI else NoMatch code description redirectURI) (mkSubmission "" (Text "") 0)
  | ByBrowser protocol => writeBrowserAuthorizationError (wd_rand_bytes W) (wd_eph W) m req protocol code description
  end.

Definition present_with (W : world) (st : settings) (d : delivery) (w : Wallet) (req : AuthRequest) (matches : list CredentialMatch) : option (Wallet * effect) :=
  match d with
  | ByPost =>
      submitPresentation marshal_value (wd_rand_bytes W) (wd_eph W) (st_Mode st) (wd_post W) binding_held decode_key (wd_needs_renewal W)
        (wd_refresh W) holder_key sub_jwk (st_SessionTranscript st) (wd_now W) (wd_fuel W) w req matches
  | ByBrowser protocol =>
      writeBrowserPresentationResult marshal_value (wd_rand_bytes W) (wd_eph W) (st_Mode st) binding_held decode_key (wd_needs_renewal W)
        (wd_refresh W) holder_key sub_jwk (st_SessionTranscript st) (wd_now W) (wd_fuel W) w req protocol matches
  end.

(** ** A request arrives: handleAuthFlow and handleBrowserPresentationAPI *)

Definition validate (W : world) (st : settings) (req : AuthRequest) : result refusal (list why) :=
  ValidateAuthorizationRequest family DNSNames unmarshal_any subject_names (wd_fetch W) (wd_parseCWT W) (wd_now W) (st_Conformance st) (Some (rq_params req)).

Definition prepared_request (st : settings) (req : AuthRequest) : AuthRequest :=
  mkRequestOf _ (PrepareARFChecks (RequireARF (st_Conformance st)) (st_RelyingPartyCAs st) (st_RegistrarCAs st) (st_RegistrationStatusCAs st) (rq_params req))
    (rq_AutoAccept req) (rq_SessionTranscript req) (rq_Session req) (if (rq_Source req =? "")%string then "authorize" else rq_Source req) (rq_BrowserRedirect req).

Definition evaluate (W : world) (st : settings) (w : Wallet) (req : AuthRequest) :
  result evaluate_error (list CredentialMatch * option ConsentCredentialOptions) :=
  match ap_DCQLQuery (rq_params req) with
  | Some query =>
      if ResponseTypeRequiresVP (ap_ResponseType (rq_params req)) then
        let? r := EvaluateDCQLWithOptions (st_Mode st) (st_PreferredFormat st) (wd_rnd W) (wd_rnd' W) (Credentials w) (Some query) in
        Ok (default [] r.1, r.2)
      else Ok ([], None)
  | None => Ok ([], None)
  end.

(** A refused query: the answer to the caller only, or a code and a
    description for the verifier. *)
Definition refuseQuery (e : evaluate_error) : reply + string * string :=
  match e with
  | InvalidRequest findings => inl (BadRequest "invalid_request" (Fmt "invalid dcql_query: %s" (map finding_text findings)))
  | AccessDenied queryID lists => inr ("access_denied", "credential query " +:+ queryID +:+ ": " +:+ join ". " (map list_finding lists))
  end.

Definition arf_description (findings : list why) : string :=
  "The request does not meet the ARF registration rules: " +:+ join ", " (map error_text findings).

Definition answered_without (reply : reply) : effect := mkEffect [] reply (mkSubmission "" (Text "") 0).

(** What happens to an arriving request: an answer at once, or a flow. *)
Inductive arrival :=
| Rejected (override_used : bool) (e : effect)
| Proceeds (matches : list CredentialMatch) (options : option ConsentCredentialOptions).

Definition arrive (W : world) (s : wserver) (d : delivery) (req : AuthRequest) : arrival :=
  let st := wsettings s in
  let m := st_Mode st in
  match validate W st req with
  | Err (ARFRefusal findings) => Rejected false (refuse_with W m d req "refused" "access_denied" (arf_description findings))
  | Err (Refused e) => Rejected false (answered_without (BadRequest (refusalCodeForRequest (rq_params req)) e))
  | Ok _ =>
      match nextError s with
      | Some (code, description) => Rejected true (answer_error W m d req "error" code description)
      | None =>
          match evaluate W st (wallet s) req with
          | Err e =>
              Rejected false
                (match refuseQuery e with
                 | inl reply => answered_without reply
                 | inr (code, description) => refuse_with W m d req "refused" code description
                 end)
          | Ok (matches, options) =>
              let nothing := ResponseTypeRequiresVP (ap_ResponseType (rq_params req)) && bool_decide (matches = []) in
              if nothing && (bool_decide (options = None) || autoAccepts st req) then Rejected false (no_match_with W m d req)
              else Proceeds matches options
          end
      end
  end.

Definition flow_names (id : string) (fl : flow) : bool := match fl_consent fl with Some cr => (cr_ID cr =? id)%string | None => false end.
Definition call_names (id : string) (c : call) : bool := match cl_phase c with Checked id' => (id' =? id)%string | _ => false end.

Definition fresh_id (id : string) (s : wserver) : bool :=
  negb (existsb (fun e => flow_names id e.2) (map_to_list (flows s))) && negb (existsb (fun e => call_names id e.2) (map_to_list (calls s))).

Definition newPresentationConsent (id owner : string) (now : time) (options : option ConsentCredentialOptions) : ConsentRequest :=
  mkConsentRequest id owner Pending now [] options None None.

Definition receive (W : world) (f : nat) (id : string) (d : delivery) (req : AuthRequest) (s : wserver) : option wserver :=
  let st := wsettings s in
  let req := prepared_request st req in
  match arrive W s d req with
  | Rejected used e => Some (refused e (if used then SetNextError None s else s))
  | Proceeds matches options =>
      if decide (flows s !! f = None) then
        let start consent phase := mkFlow req d matches consent phase [] [] [] st (wallet s) W in
        if autoAccepts st req then Some (with_flow f (start None Accepted) s)
        else if fresh_id id s then
          let s := with_flow f (start (Some (newPresentationConsent id (rq_Session req) (wd_now W) options)) Waiting) s in
          Some (CreateConsentRequest (wd_now W) f id s)
        else None
      else None
  end.

(** The endpoint of the DC API, with the codecs and fetches of its parser. *)
Definition handleBrowserPresentationAPI (marshal_object : object -> option string) (FetchURL : string -> result why string)
  (FetchRequestURI : string -> string -> string -> result why string) (W : world) (f : nat) (id : string)
  (requests : list BrowserAPICredentialRequest) (origin : string) (c : caller) (s : wserver) : result why (option wserver) :=
  let? parsed := browser_request marshal_object marshal_value FetchURL FetchRequestURI requests origin (requestOwner c) in
  Ok (receive W f id (ByBrowser parsed.1) parsed.2 s).

(** ** The flow's goroutine *)

(** awaitConsent: the answer arrives. *)
Definition take_answer (f : nat) (s : wserver) : option wserver :=
  fl ← flows s !! f; cr ← fl_consent fl; d ← cr_ResultCh cr;
  match fl_phase fl with
  | Waiting | Blocked => Some (with_flow f (with_phase (Decided d) (with_consent (with_result None cr) fl)) s)
  | _ => None
  end.

(** awaitConsent: the timer fires. *)
Definition time_out (f : nat) (s : wserver) : option wserver :=
  fl ← flows s !! f; cr ← fl_consent fl;
  match fl_phase fl with
  | Waiting =>
      match ResolveRequest (cr_ID cr) statusExpired s with
      | (_, Some s') => fl' ← flows s' !! f; Some (with_flow f (with_phase TimedOut fl') s')
      | (_, None) => Some (with_flow f (with_phase Blocked fl) s)
      end
  | _ => None
  end.

Definition consentedMatches (m : ValidationMode) (w : Wallet) (options : option ConsentCredentialOptions) (matches : list CredentialMatch) (r : ConsentResult) :
  list CredentialMatch :=
  applySelectedClaims m w (ApplyConsentSelection options matches r) (SelectedClaims r).

Definition sent_presentation (p : presentation) (fl : flow) : flow :=
  mkFlow (fl_req fl) (fl_delivery fl) (fl_matches fl) (fl_consent fl) (Reporting (ef_result (pr_effect p))) (fl_decided fl) (fl_presented fl ++ [p]) (fl_errors fl)
    (fl_settings fl) (fl_wallet fl) (fl_world fl).
Definition sent_error (e : effect) (fl : flow) : flow :=
  mkFlow (fl_req fl) (fl_delivery fl) (fl_matches fl) (fl_consent fl) (Reporting (ef_result e)) (fl_decided fl) (fl_presented fl) (fl_errors fl ++ [e])
    (fl_settings fl) (fl_wallet fl) (fl_world fl).

Definition present (W : world) (f : nat) (fl : flow) (matches : list CredentialMatch) (s : wserver) : option wserver :=
  sent ← present_with W (wsettings s) (fl_delivery fl) (wallet s) (fl_req fl) matches;
  Some (with_wallet sent.1 (with_flow f (sent_presentation (mkPresentation (wallet s) (st_Mode (wsettings s)) matches sent.2) fl) s)).

(** autoAcceptPresentation, and awaitPresentationConsent after the answer. *)
Definition finish (W : world) (f : nat) (s : wserver) : option wserver :=
  fl ← flows s !! f;
  match fl_phase fl with
  | Accepted => present W f fl (fl_matches fl) s
  | Decided d =>
      if dc_Approved d then
        present W f fl (consentedMatches (st_Mode (wsettings s)) (wallet s) (fl_consent fl ≫= cr_CredentialOptions) (fl_matches fl) (dc_selection d)) s
      else
        let e := answer_error W (st_Mode (wsettings s)) (fl_delivery fl) (fl_req fl) "denied" "access_denied" "User denied presentation" in
        Some (with_flow f (sent_error e fl) s)
  | TimedOut =>
      let e := mkEffect [] (Failed 408 (Text "consent timeout")) (mkSubmission "" (Text "consent timeout") 0) in
      Some (with_flow f (sent_error e fl) s)
  | _ => None
  end.

(** [consentReq.SubmissionCh <- result]; without a dialog there is no channel. *)
Definition report (f : nat) (s : wserver) : option wserver :=
  fl ← flows s !! f;
  match fl_phase fl with
  | Reporting r =>
      match fl_consent fl with
      | None => Some (with_flow f (with_phase Done fl) s)
      | Some cr => match cr_SubmissionCh cr with
                   | None => Some (with_flow f (with_phase Done (with_consent (with_submission (Some r) cr) fl)) s)
                   | Some _ => None
                   end
      end
  | _ => None
  end.

(** ** server_requests.go: handleApproveRequest and handleDenyRequest *)

(** The checks on the request found under the id. *)
Definition call_checks (m : ValidationMode) (c : caller) (body : option approve_body) (pending : ConsentRequest) : option call_reply :=
  if negb (ownsRequest (callerOwners c) pending (ca_request c)) then Some NotFound
  else match body with
  | None => None
  | Some b =>
      let configurationID := ab_ConfigurationID b in
      if negb (configurationID =? "")%string && negb (contains (cr_OfferConfigs pending) configurationID)
      then Some (NoConfiguration configurationID)
      else match ValidateConsentSelection (cr_CredentialOptions pending) (selection_of b) with
      | Err e => Some (InvalidSelection e)
      | Ok _ => if is_strict m && debugOnlySelection (cr_CredentialOptions pending) (selection_of b) then Some StrictRefuses else None
      end
  end.

Definition start_call (k : nat) (id : string) (c : caller) (body : option approve_body) (s : wserver) : option wserver :=
  if decide (calls s !! k = None) then
    let m := st_Mode (wsettings s) in
    let phase := match GetRequest s id with
                 | Some (_, pending) => match call_checks m c body pending with Some r => Replied r | None => Checked id end
                 | None => Checked id
                 end in
    Some (with_call k (mkCall c body m phase) s)
  else None.

Definition handleApproveRequest (k : nat) (id : string) (c : caller) (body : approve_body) (s : wserver) : option wserver := start_call k id c (Some body) s.
Definition handleDenyRequest (k : nat) (id : string) (c : caller) (s : wserver) : option wserver := start_call k id c None s.

Definition decided_flow (f : nat) (c : call) (s : wserver) : wserver :=
  match flows s !! f with
  | Some fl =>
      with_flow f (mkFlow (fl_req fl) (fl_delivery fl) (fl_matches fl) (fl_consent fl) (fl_phase fl)
                     (fl_decided fl ++ [mkDecidedBy (cl_caller c) (cl_body c) (cl_mode c)]) (fl_presented fl) (fl_errors fl)
                     (fl_settings fl) (fl_wallet fl) (fl_world fl)) s
  | None => s
  end.

Definition resolve (k : nat) (s : wserver) : option wserver :=
  c ← calls s !! k;
  match cl_phase c with
  | Checked id =>
      match ResolveRequest id (match cl_body c with Some _ => Approved | None => Denied end) s with
      | (Some (f, _), Some s') =>
          Some (with_call k (with_phase_call (Sending f (decision_of (cl_caller c) (cl_body c))) c) (decided_flow f c s'))
      | (Some (_, cr), None) => Some (with_call k (with_phase_call (Replied (Conflict (refusalReason (cr_Status cr)))) c) s)
      | (None, _) => Some (with_call k (with_phase_call (Replied NotFound) c) s)
      end
  | _ => None
  end.

(** [req.ResultCh <- result]: it blocks while the channel is full. *)
Definition send_decision (k : nat) (s : wserver) : option wserver :=
  c ← calls s !! k;
  match cl_phase c with
  | Sending f d =>
      fl ← flows s !! f; cr ← fl_consent fl;
      match cr_ResultCh cr with
      | None => Some (with_call k (with_phase_call (Awaiting f (dc_Approved d)) c) (with_flow f (with_consent (with_result (Some d) cr) fl) s))
      | Some _ => None
      end
  | _ => None
  end.

Definition collect (k : nat) (s : wserver) : option wserver :=
  c ← calls s !! k;
  match cl_phase c with
  | Awaiting f approved =>
      fl ← flows s !! f; cr ← fl_consent fl; r ← cr_SubmissionCh cr;
      Some (with_call k (with_phase_call (Replied (Answered approved r)) c) (with_flow f (with_consent (with_submission None cr) fl) s))
  | _ => None
  end.

Definition stop_waiting (k : nat) (s : wserver) : option wserver :=
  c ← calls s !! k;
  match cl_phase c with
  | Awaiting _ approved => Some (with_call k (with_phase_call (Replied (StillRunning approved)) c) s)
  | _ => None
  end.

(** ** The server *)

Inductive action :=
| Receive (W : world) (f : nat) (id : string) (d : delivery) (req : AuthRequest)
| Take (f : nat) | Timeout (f : nat) | Finish (W : world) (f : nat) | Report (f : nat)
| Call (k : nat) (id : string) (c : caller) (body : option approve_body)
| Resolve (k : nat) | Send (k : nat) | Collect (k : nat) | GiveUp (k : nat)
| NextError (e : option (string * string)) | Configure (st : settings) | OtherOperation (w : Wallet).

(** [None]: the action cannot happen now. *)
Definition wstep (s : wserver) (a : action) : option wserver :=
  match a with
  | Receive W f id d req => receive W f id d req s
  | Take f => take_answer f s
  | Timeout f => time_out f s
  | Finish W f => finish W f s
  | Report f => report f s
  | Call k id c body => start_call k id c body s
  | Resolve k => resolve k s
  | Send k => send_decision k s
  | Collect k => collect k s
  | GiveUp k => stop_waiting k s
  | NextError e => Some (SetNextError e s)
  | Configure st => Some (with_settings st s)
  | OtherOperation w => Some (with_wallet w s)
  end.

Fixpoint wrun (s : wserver) (l : list action) : option wserver :=
  match l with [] => Some s | a :: l => s ← wstep s a; wrun s l end.

Definition new_server (w : Wallet) (st : settings) : wserver := mkServer w st ∅ None ∅ ∅ [].

Definition wstepped (s s' : wserver) : Prop := exists a, wstep s a = Some s'.
Definition wreachable (s : wserver) : Prop := exists w st, rtc wstepped (new_server w st) s.
End server.
