(* ===== verification/ConsentErrors.v ===== *)
(** * ConsentErrors: an error shows no credential

    What the wallet server sends when it refuses, denies or gives up carries an
    error and no vp_token, in every response mode, in every state it reaches. *)

From stdpp Require Import base list strings gmap relations.
From Stdlib Require Import ZArith Lia Ascii.
From S2P Require Import Prelude GoStrings GoValue Format Validity StatusList SDJWT WalletState WalletStore DCQL Consent Present Certs Mdoc IssuerAuth UriQuery Requests Jwe.
From S2P Require Import ClientAuth RequestChecks Response Registration MdocPresent PresentFlow BrowserApi ConsentFlow.

Local Open Scope Z_scope.

(** Posted forms without a vp_token; a result of the DC API is the code alone. *)
Record shows_nothing (e : effect) : Prop := {
  sn_posts : forall p, p ∈ ef_posts e -> po_Form p !! "vp_token" = None;
  sn_result : forall protocol data, ef_reply e = Fulfilled protocol data -> exists code, data = VObj [("error", VString code)] }.

Lemma set_nonempty_other k v q : k <> "vp_token" -> q !! "vp_token" = None -> set_nonempty k v q !! "vp_token" = None.
Proof. intros Hk Hq. unfold set_nonempty. destruct (_ =? _)%string; [done|]. by rewrite lookup_insert_ne. Qed.

Section errors.
Context {json : Json} {hash : Hash} {pki : Pki} {codec : Cbor} {raws : CborRaw} {reader : CredentialReader}.
Context {signer : Signer} {csigner : CoseSigner} {crypto : JweCrypto}.
Context (marshal_value : value -> option string) (rand_bytes : nat -> option string) (eph : option EcdhPriv) (mode : ValidationMode).
Context (post : posted -> result why (Z * string * result why string)).

Lemma form_shows_nothing payload form :
  Forall (fun kv => fst kv <> "vp_token") payload -> directPostForm marshal_value payload = Ok form -> form !! "vp_token" = None.
Proof using.
  intros Hp. revert form. unfold directPostForm. induction Hp as [|[k v] payload Hk _ IH]; intros form; cbn [foldr fold_right]; [by intros [= <-]|].
  destruct (foldr _ _ payload) as [q|e]; [|done]. specialize (IH q eq_refl). unfold form_entry. cbn [fst snd] in *.
  destruct (String.eqb_spec k "vp_token"); [done|]. destruct (contains _ _) eqn:Ec; [|by intros [= <-]].
  intros [= <-]. apply set_nonempty_other; [|done]. intros ->. by apply contains_spec in Ec.
Qed.

Lemma error_payload_shows_nothing code description state :
  Forall (fun kv : string * value => fst kv <> "vp_token") (buildPlainAuthorizationErrorResponse code description state).
Proof using.
  unfold buildPlainAuthorizationErrorResponse, nonempty_member. repeat apply Forall_app_2.
  - by repeat constructor.
  - destruct (_ =? _)%string; by repeat constructor.
  - destruct (_ =? _)%string; by repeat constructor.
Qed.

(** The envelope of an error. *)
Lemma error_envelope code description state params r :
  BuildAuthorizationErrorResponse rand_bytes eph mode code description state params = Ok r ->
  env_Plain r = (if isDCAPIResponseMode (env_ResponseMode r) then [("error", VString code)] else buildPlainAuthorizationErrorResponse code description state)
  /\ (isDCAPIResponseMode (env_ResponseMode r) = true -> env_ResponseJWT r = "")
  /\ env_ResponseMode r <> "".
Proof using.
  unfold BuildAuthorizationErrorResponse. cbv zeta.
  assert (Hm : response_mode params <> "") by (unfold response_mode; destruct (String.eqb_spec (rp_mode params) ""); done).
  revert Hm. generalize (response_mode params). intros rm Hm.
  destruct (isDCAPIResponseMode _) eqn:Ed; [intros [= <-]; cbn; by rewrite Ed|].
  destruct (contains ["direct_post.jwt"; "ia_post.jwt"] _); [destruct (EncryptErrorResponse _ _ _ _ _ _ _) as [[jwe cek]|]; [|done]; intros [= <-]; cbn; by rewrite Ed|].
  destruct (_ =? "fragment")%string; [destruct (_ =? _)%string; [done|]; intros [= <-]; cbn; by rewrite Ed|].
  destruct (contains _ _); [|done]. intros [= <-]. cbn. by rewrite Ed.
Qed.

Lemma delivered_shows_nothing code description state params uri posts r :
  SubmitAuthorizationError marshal_value rand_bytes eph mode post code description state uri params = (posts, r) ->
  forall p, p ∈ posts -> po_Form p !! "vp_token" = None.
Proof using.
  unfold SubmitAuthorizationError, deliver. destruct (BuildAuthorizationErrorResponse _ _ _ _ _ _ _) as [env|e] eqn:Eb; [|intros [= <- _] p Hp; by apply not_elem_of_nil in Hp].
  apply error_envelope in Eb as (Hplain & _ & _). cbv zeta.
  destruct (_ =? "direct_post.jwt")%string.
  { unfold SubmitDirectPostJWT, send. intros [= <- _] p Hp. apply list_elem_of_singleton in Hp as ->. cbn. by rewrite lookup_singleton_ne. }
  destruct (_ =? "fragment")%string; [intros [= <- _] p Hp; by apply not_elem_of_nil in Hp|].
  destruct (String.eqb_spec (env_ResponseMode env) "direct_post") as [Em|].
  - rewrite Em in Hplain. cbn in Hplain. unfold SubmitDirectPostObject. rewrite Hplain.
    destruct (directPostForm _ _) as [form|e] eqn:Ef; [|intros [= <- _] p Hp; by apply not_elem_of_nil in Hp].
    unfold send. intros [= <- _] p Hp. apply list_elem_of_singleton in Hp as ->. cbn.
    by apply (form_shows_nothing _ _ (error_payload_shows_nothing code description state)).
  - repeat (destruct (isDCAPIResponseMode _) || destruct (isInteractiveAuthorizationResponseMode _)); intros [= <- _] p Hp; by apply not_elem_of_nil in Hp.
Qed.

Lemma browser_error_is_code req code description data :
  buildBrowserAuthorizationErrorResult rand_bytes eph mode req code description = Ok data -> exists c, data = VObj [("error", VString c)].
Proof using.
  unfold buildBrowserAuthorizationErrorResult. destruct (BuildAuthorizationErrorResponse _ _ _ _ _ _ _) as [env|e] eqn:Eb; [|done]. cbn.
  apply error_envelope in Eb as (Hplain & Hj & Hne). unfold BuildBrowserAPIResult. cbv zeta.
  assert (Hd : isDCAPIResponseMode (env_ResponseMode env) = true -> dcAPIData (env_Plain env) = VObj [("error", VString code)]).
  { intros H. rewrite Hplain, H. reflexivity. }
  unfold isDCAPIResponseMode in *. destruct (String.eqb_spec (env_ResponseMode env) "dc_api.jwt") as [E|].
  - rewrite E in *. cbn in Hj, Hd. rewrite Hj, Hd by done. cbn. intros [= <-]. by exists code.
  - destruct (String.eqb_spec (env_ResponseMode env) "dc_api") as [E|]; cbn [orb].
    + rewrite Hd by done. intros [= <-]. by exists code.
    + destruct (String.eqb_spec (env_ResponseMode env) ""); [done|]. done.
Qed.

Lemma submitted_error_shows_nothing req status code description :
  shows_nothing (submitAuthorizationError marshal_value rand_bytes eph mode post req status code description).
Proof using.
  unfold submitAuthorizationError, deliverAuthorizationError. destruct (SubmitAuthorizationError _ _ _ _ _ _ _ _ _ _) as [posts [r|e]] eqn:Es;
    pose proof (delivered_shows_nothing _ _ _ _ _ _ _ Es) as Hp; (split; [exact Hp|]); cbn; [by destruct (rq_BrowserRedirect req)|done].
Qed.

Lemma browser_error_shows_nothing req protocol code description :
  shows_nothing (writeBrowserAuthorizationError rand_bytes eph mode req protocol code description).
Proof using.
  unfold writeBrowserAuthorizationError. split; cbn; [intros p Hp; by apply not_elem_of_nil in Hp|].
  destruct (buildBrowserAuthorizationErrorResult _ _ _ _ _ _) as [data|e] eqn:Eb; [|done]. intros ? ? [= _ <-]. by apply browser_error_is_code in Eb.
Qed.

Lemma browser_denial_shows_nothing req protocol code description :
  shows_nothing (browser_denial rand_bytes eph mode req protocol code description).
Proof using.
  unfold browser_denial. destruct (buildBrowserAuthorizationErrorResult _ _ _ _ _ _) as [data|e] eqn:Eb;
    (split; cbn; [intros p Hp; by apply not_elem_of_nil in Hp|]); [|done]. intros ? ? [= _ <-]. by apply browser_error_is_code in Eb.
Qed.
End errors.

Section server.
Context {json : Json} {hash : Hash} {pki : Pki} {codec : Cbor} {raws : CborRaw} {reader : CredentialReader}.
Context {signer : Signer} {csigner : CoseSigner} {crypto : JweCrypto}.
Context (family : PubKey -> key_family) (DNSNames : X509Cert -> list string) (unmarshal_any : string -> option value).
Context (subject_names : X509Cert -> list (string * option string)).
Context (marshal_value : value -> option string).
Context (binding_held : string -> PrivateKey -> bool) (decode_key : string -> option PrivateKey).
Context (holder_key : PrivateKey) (sub_jwk : object).
Context (error_text : why -> string) (list_finding : string * string -> string).

Lemma answer_error_shows_nothing W m d req status code description :
  shows_nothing (answer_error marshal_value W m d req status code description).
Proof using. destruct d; [apply submitted_error_shows_nothing|apply browser_denial_shows_nothing]. Qed.

Lemma refuse_with_shows_nothing W m d req status code description :
  shows_nothing (refuse_with marshal_value W m d req status code description).
Proof using. destruct d; [apply submitted_error_shows_nothing|apply browser_error_shows_nothing]. Qed.

Lemma answered_without_shows_nothing r : (forall protocol data, r <> Fulfilled protocol data) -> shows_nothing (answered_without r).
Proof using. intros Hr. split; cbn; [intros p Hp; by apply not_elem_of_nil in Hp|]. intros protocol data E. by destruct (Hr protocol data). Qed.

Lemma no_match_shows_nothing W m d req : shows_nothing (no_match_with marshal_value W m d req).
Proof using.
  unfold no_match_with. destruct (unsatisfiableQueryError _) as [code description]. destruct d; [|apply browser_error_shows_nothing].
  unfold reportRefusalToVerifier. destruct (negb _).
  { split; cbn; [intros p Hp; by apply not_elem_of_nil in Hp|]. by destruct (rq_BrowserRedirect req). }
  unfold deliverAuthorizationError. destruct (SubmitAuthorizationError _ _ _ _ _ _ _ _ _ _) as [posts [r|e]] eqn:Es;
    pose proof (delivered_shows_nothing _ _ _ _ _ _ _ _ _ _ _ _ Es) as Hp; (split; [exact Hp|]); cbn; by destruct (rq_BrowserRedirect req).
Qed.

Lemma rejected_shows_nothing W s d req used e :
  arrive family DNSNames unmarshal_any subject_names marshal_value error_text list_finding W s d req = Rejected used e -> shows_nothing e.
Proof using.
  unfold arrive. destruct (validate _ _ _ _ _ _ _) as [findings|[e'|fs]].
  - destruct (nextError s) as [[code description]|]; [intros [= _ <-]; apply answer_error_shows_nothing|].
    destruct (evaluate _ _ _ _) as [[ms o]|e'].
    + destruct (_ && _); [intros [= _ <-]; apply no_match_shows_nothing|done].
    + destruct e' as [fs|q l]; cbn; intros [= _ <-]; [by apply answered_without_shows_nothing|apply refuse_with_shows_nothing].
  - intros [= _ <-]. by apply answered_without_shows_nothing.
  - intros [= _ <-]. apply refuse_with_shows_nothing.
Qed.

(** Every error the server sent. *)
Record quiet (s : wserver) : Prop := {
  q_refusals : forall e, e ∈ refusals s -> shows_nothing e;
  q_errors : forall f fl e, flows s !! f = Some fl -> e ∈ fl_errors fl -> shows_nothing e }.

Lemma quiet_flows s s' :
  quiet s -> refusals s' = refusals s ->
  (forall f fl e, flows s' !! f = Some fl -> e ∈ fl_errors fl -> (exists fl0, flows s !! f = Some fl0 /\ e ∈ fl_errors fl0) \/ shows_nothing e) -> quiet s'.
Proof using.
  intros [Hr He] Er Hf. split; [by rewrite Er|]. intros f fl e Hfl Hin. destruct (Hf f fl e Hfl Hin) as [(fl0 & H0 & Hin0)|]; [by apply (He f fl0)|done].
Qed.

(** A flow that keeps its errors, or adds one that shows nothing. *)
Lemma quiet_with_flow s f fl fl' :
  quiet s -> flows s !! f = Some fl -> (forall e, e ∈ fl_errors fl' -> e ∈ fl_errors fl \/ shows_nothing e) -> quiet (with_flow f fl' s).
Proof using.
  intros Hq Hf He. apply (quiet_flows s); [done|done|]. intros g gl e. cbn. destruct (decide (g = f)) as [->|Hne].
  - rewrite lookup_insert_eq. intros [= <-] [Hin|]%He; [|by right]. left. by exists fl.
  - rewrite lookup_insert_ne by done. intros Hg Hin. left. by exists gl.
Qed.

Lemma quiet_same s s' : quiet s -> flows s' = flows s -> refusals s' = refusals s -> quiet s'.
Proof using. intros Hq Ef Er. apply (quiet_flows s); [done|done|]. intros f fl e. rewrite Ef. left. by exists fl. Qed.

Lemma added_error e0 fl e : shows_nothing e0 -> e ∈ fl_errors (sent_error e0 fl) -> e ∈ fl_errors fl \/ shows_nothing e.
Proof using. intros Hn. cbn. rewrite elem_of_app, list_elem_of_singleton. intros [| ->]; auto. Qed.

Lemma ResolveRequest_flow id st s f cr s' : ResolveRequest id st s = (Some (f, cr), Some s') ->
  exists fl, flows s !! f = Some fl /\ s' = with_flow f (with_consent (with_status st cr) fl) s.
Proof using.
  unfold ResolveRequest. destruct (GetRequest s id) as [[g cr']|]; [|done]. destruct (decide _); [|done].
  destruct (flows s !! g) as [fl|] eqn:Hf; [|done]. cbn. intros [= -> -> <-]. by exists fl.
Qed.
Abbreviation Step := (wstep family DNSNames unmarshal_any subject_names marshal_value binding_held decode_key holder_key sub_jwk error_text list_finding).
Abbreviation Reachable := (wreachable family DNSNames unmarshal_any subject_names marshal_value binding_held decode_key holder_key sub_jwk error_text list_finding).

Lemma quiet_call k c s : quiet s -> quiet (with_call k c s).
Proof using. intros Hq. by apply (quiet_same s). Qed.

Ltac one_flow Hq Hf := apply (quiet_with_flow _ _ _ _ Hq Hf); cbn; by left.

Lemma receive_quiet W f id d req s s' :
  receive family DNSNames unmarshal_any subject_names marshal_value error_text list_finding W f id d req s = Some s' -> quiet s -> quiet s'.
Proof using.
  unfold receive. cbv zeta. set (r := prepared_request _ req). destruct (arrive _ _ _ _ _ _ _ _ _ _ _) as [used e|ms options] eqn:Ea; intros Hs Hq.
  - apply rejected_shows_nothing in Ea. injection Hs as <-. destruct Hq as [Hr He].
    split; [|by destruct used]. intros e' Hin.
    assert (e' ∈ refusals s ++ [e]) as [| ->%list_elem_of_singleton]%elem_of_app by (by destruct used); [by apply Hr|done].
  - destruct (decide _); [|done]. assert (Hnew : forall g gl e' c p, (<[f := mkFlow r d ms c p [] [] [] (wsettings s) (wallet s) W]> (flows s)) !! g = Some gl -> e' ∈ fl_errors gl ->
      (exists fl0, flows s !! g = Some fl0 /\ e' ∈ fl_errors fl0) \/ shows_nothing e').
    { intros g gl e' c p. destruct (decide (g = f)) as [->|Hne]; [rewrite lookup_insert_eq; intros [= <-] Hin; by apply not_elem_of_nil in Hin|].
      rewrite lookup_insert_ne by done. intros Hg Hin. left. by exists gl. }
    destruct (autoAccepts _ _); [|destruct (fresh_id id s); [|done]]; injection Hs as <-; apply (quiet_flows s); try done; intros g gl e'; apply Hnew.
Qed.

Lemma present_quiet W f fl ms s s' :
  present marshal_value binding_held decode_key holder_key sub_jwk W f fl ms s = Some s' -> flows s !! f = Some fl -> quiet s -> quiet s'.
Proof using.
  unfold present. destruct (present_with _ _ _ _ _ _ _ _ _ _) as [[w e]|]; [|done]. cbn. intros [= <-] Hf Hq.
  apply (quiet_same (with_flow f (sent_presentation (mkPresentation (wallet s) (st_Mode (wsettings s)) ms e) fl) s)); [|done|done]. one_flow Hq Hf.
Qed.

Lemma finish_quiet W f s s' :
  finish marshal_value binding_held decode_key holder_key sub_jwk W f s = Some s' -> quiet s -> quiet s'.
Proof using.
  unfold finish. destruct (flows s !! f) as [fl|] eqn:Hf; [|done]. cbn. destruct (fl_phase fl) as [| | | |d| |]; try done.
  - intros Hs. by apply (present_quiet _ _ _ _ _ _ Hs).
  - intros [= <-] Hq. apply (quiet_with_flow _ _ _ _ Hq Hf). intros e. apply added_error.
    split; cbn; [intros p Hp; by apply not_elem_of_nil in Hp|done].
  - destruct (dc_Approved d); [intros Hs; by apply (present_quiet _ _ _ _ _ _ Hs)|].
    intros [= <-] Hq. apply (quiet_with_flow _ _ _ _ Hq Hf). intros e. apply added_error, answer_error_shows_nothing.
Qed.

Lemma flow_step_quiet f s s' : take_answer f s = Some s' \/ time_out f s = Some s' \/ report f s = Some s' -> quiet s -> quiet s'.
Proof using.
  unfold take_answer, time_out, report. destruct (flows s !! f) as [fl|] eqn:Hf; [|by intros [|[|]]]. cbn. intros [Hs|[Hs|Hs]] Hq.
  - destruct (fl_consent fl) as [cr|]; [|done]. cbn in Hs. destruct (cr_ResultCh cr) as [d|]; [|done]. cbn in Hs.
    destruct (fl_phase fl); try done; injection Hs as <-; one_flow Hq Hf.
  - destruct (fl_consent fl) as [cr|]; [|done]. cbn in Hs. destruct (fl_phase fl); try done. revert Hs.
    destruct (ResolveRequest _ _ _) as [[[g crg]|] [s1|]] eqn:Er; try (intros [= <-]; one_flow Hq Hf).
    + apply ResolveRequest_flow in Er as (gl & Hg & ->). cbn. destruct (decide (g = f)) as [->|Hne].
      * rewrite lookup_insert_eq. cbn. intros [= <-]. assert (Hq' : quiet (with_flow f (with_consent (with_status statusExpired crg) gl) s)) by one_flow Hq Hg.
        apply (quiet_with_flow _ _ (with_consent (with_status statusExpired crg) gl) _ Hq'); cbn; [by rewrite lookup_insert_eq|by left].
      * rewrite lookup_insert_ne, Hf by done. cbn. intros [= <-]. assert (Hq' : quiet (with_flow g (with_consent (with_status statusExpired crg) gl) s)) by one_flow Hq Hg.
        apply (quiet_with_flow _ _ fl _ Hq'); cbn; [by rewrite lookup_insert_ne|by left].
    + unfold ResolveRequest in Er. destruct (GetRequest s _) as [[? ?]|]; [|done]. by destruct (decide _).
  - destruct (fl_phase fl) as [| | | | |r|]; try done. destruct (fl_consent fl) as [cr|]; [destruct (cr_SubmissionCh cr); [done|]|]; injection Hs as <-; one_flow Hq Hf.
Qed.

Lemma resolve_quiet k s s' : resolve k s = Some s' -> quiet s -> quiet s'.
Proof using.
  unfold resolve. destruct (calls s !! k) as [c|]; [|done]. cbn. destruct (cl_phase c) as [id| | |]; try done.
  destruct (ResolveRequest _ _ _) as [[[f cr]|] [s1|]] eqn:Er; intros [= <-] Hq; apply quiet_call; try done.
  apply ResolveRequest_flow in Er as (fl & Hf & ->). unfold decided_flow, with_flow. cbn. rewrite lookup_insert_eq. cbn. rewrite insert_insert_eq.
  apply (quiet_with_flow s f fl (mkFlow _ _ _ _ _ _ _ _ _ _ _) Hq Hf). cbn. by left.
Qed.

Lemma call_step_quiet k id c body s s' :
  start_call k id c body s = Some s' \/ send_decision k s = Some s' \/ collect k s = Some s' \/ stop_waiting k s = Some s' -> quiet s -> quiet s'.
Proof using.
  intros [Hs|Hs] Hq.
  { unfold start_call in Hs. destruct (decide _); [|done]. injection Hs as <-. by apply quiet_call. }
  unfold send_decision, collect, stop_waiting in Hs. destruct (calls s !! k) as [c'|]; [|by destruct Hs as [|[|]]]. cbn in Hs.
  destruct (cl_phase c') as [|f d|f ap|]; cbn in Hs; try (by destruct Hs as [|[|]]).
  - destruct Hs as [Hs|[|]]; [|done|done]. destruct (flows s !! f) as [fl|] eqn:Hf; [|done]. cbn in Hs. destruct (fl_consent fl) as [cr|]; [|done]. cbn in Hs.
    destruct (cr_ResultCh cr); [done|]. injection Hs as <-. apply quiet_call. one_flow Hq Hf.
  - destruct Hs as [|[Hs|Hs]]; [done| |injection Hs as <-; by apply quiet_call]. destruct (flows s !! f) as [fl|] eqn:Hf; [|done]. cbn in Hs.
    destruct (fl_consent fl) as [cr|]; [|done]. cbn in Hs. destruct (cr_SubmissionCh cr); [|done]. cbn in Hs. injection Hs as <-. apply quiet_call. one_flow Hq Hf.
Qed.

Lemma step_quiet s a s' : Step s a = Some s' -> quiet s -> quiet s'.
Proof using.
  destruct a; cbn [wstep]; intros Hs.
  - by apply (receive_quiet _ _ _ _ _ _ _ Hs).
  - apply (flow_step_quiet f). by left.
  - apply (flow_step_quiet f). right. by left.
  - by apply (finish_quiet _ _ _ _ Hs).
  - apply (flow_step_quiet f). right. by right.
  - apply (call_step_quiet k id c body). by left.
  - by apply (resolve_quiet _ _ _ Hs).
  - apply (call_step_quiet k "" (mkCaller "" "" "" "") None). right. by left.
  - apply (call_step_quiet k "" (mkCaller "" "" "" "") None). right. right. by left.
  - apply (call_step_quiet k "" (mkCaller "" "" "" "") None). right. right. by right.
  - injection Hs as <-. intros Hq. by apply (quiet_same s).
  - injection Hs as <-. intros Hq. by apply (quiet_same s).
  - injection Hs as <-. intros Hq. by apply (quiet_same s).
Qed.

Lemma reachable_quiet s : Reachable s -> quiet s.
Proof using.
  intros (w & st & Hr). assert (Hq : quiet (new_server w st)).
  { split; cbn; [intros e He; by apply not_elem_of_nil in He|]. intros f fl e. by rewrite lookup_empty. }
  revert Hq. induction Hr as [|s1 s2 s3 [a Ha] _ IH]; [done|]. intros Hq. by apply IH, (step_quiet s1 a).
Qed.
End server.
