(* ===== verification/ConsentFlowFacts.v ===== *)
(** * ConsentFlowFacts: what leaves the wallet has been consented to

    The invariant of ConsentFlow's server, by induction over its actions: where
    each consent request stands, and which call decided it. *)

From stdpp Require Import base list strings gmap relations.
From Stdlib Require Import ZArith Lia Ascii.
From S2P Require Import Prelude GoStrings GoValue Format Validity StatusList SDJWT WalletState WalletStore DCQL Consent Present Certs Mdoc IssuerAuth UriQuery Requests Jwe.
From S2P Require Import ClientAuth RequestChecks Response Registration MdocPresent PresentFlow BrowserApi ConsentFlow ConsentErrors ConsentFacts ResponseFacts RequestFacts.

Local Open Scope Z_scope.

(** What never changes of a consent request. *)
Definition static (cr : ConsentRequest) := (cr_ID cr, cr_Owner cr, cr_OfferConfigs cr, cr_CredentialOptions cr).

Lemma call_checks_static m c body cr cr' : static cr = static cr' -> call_checks m c body cr = call_checks m c body cr'.
Proof. unfold static. intros [= E1 E2 E3 E4]. unfold call_checks, ownsRequest. by rewrite E1, E2, E3, E4. Qed.

Section facts.
Context {json : Json} {hash : Hash} {pki : Pki} {codec : Cbor} {raws : CborRaw} {reader : CredentialReader}.
Context {signer : Signer} {csigner : CoseSigner} {crypto : JweCrypto}.
Context (family : PubKey -> key_family) (DNSNames : X509Cert -> list string) (unmarshal_any : string -> option value).
Context (subject_names : X509Cert -> list (string * option string)).
Context (marshal_value : value -> option string).
Context (binding_held : string -> PrivateKey -> bool) (decode_key : string -> option PrivateKey).
Context (holder_key : PrivateKey) (sub_jwk : object).
Context (error_text : why -> string) (list_finding : string * string -> string).

Abbreviation Step := (wstep family DNSNames unmarshal_any subject_names marshal_value binding_held decode_key holder_key sub_jwk error_text list_finding).
Abbreviation Reachable := (wreachable family DNSNames unmarshal_any subject_names marshal_value binding_held decode_key holder_key sub_jwk error_text list_finding).
Abbreviation Valid W st req := (validate family DNSNames unmarshal_any subject_names W st req).

(** The calls that hold a decision for the flow. *)
Definition sends (s : wserver) (f k : nat) (d : decision) : Prop := exists c, calls s !! k = Some c /\ cl_phase c = Sending f d.

Definition listening (p : flow_phase) : Prop := p = Waiting \/ p = Blocked.
Definition answered (p : flow_phase) : Prop := (exists r, p = Reporting r) \/ p = Done.

(** The call that resolved the request passed the checks. *)
Record resolved_by (fl : flow) (cr : ConsentRequest) (db : decided_by) : Prop := {
  rb_only : fl_decided fl = [db];
  rb_checks : call_checks (db_mode db) (db_caller db) (db_body db) cr = None;
  rb_status : cr_Status cr = match db_body db with Some _ => Approved | None => Denied end }.

Definition the_decision (db : decided_by) : decision := decision_of (db_caller db) (db_body db).

(** The presentation of the credentials and claims the user chose. *)
Definition of_choice (fl : flow) (cr : ConsentRequest) (b : approve_body) (p : presentation) : Prop :=
  pr_matches p = consentedMatches (pr_mode p) (pr_wallet p) (cr_CredentialOptions cr) (fl_matches fl) (selection_of b).

(** What went out is the presentation of those matches, in the mode and from
    the wallet it records. *)
Definition sent_as (fl : flow) (p : presentation) : Prop :=
  exists W st w', st_Mode st = pr_mode p /\
    present_with marshal_value binding_held decode_key holder_key sub_jwk W st (fl_delivery fl) (pr_wallet p) (fl_req fl) (pr_matches p)
    = Some (w', pr_effect p).

Definition unsent (fl : flow) : Prop := fl_presented fl = [] /\ fl_errors fl = [].

(** Where a consent request stands; [snd] is who sends a decision to it. *)
Inductive consent_inv (snd : nat -> decision -> Prop) (fl : flow) (cr : ConsentRequest) : Prop :=
| still_pending : cr_Status cr = Pending -> fl_decided fl = [] -> listening (fl_phase fl) -> cr_ResultCh cr = None ->
    (forall k d, ~ snd k d) -> unsent fl -> consent_inv snd fl cr
| has_expired : cr_Status cr = Expired -> fl_decided fl = [] -> fl_phase fl = TimedOut \/ answered (fl_phase fl) -> cr_ResultCh cr = None ->
    (forall k d, ~ snd k d) -> fl_presented fl = [] -> consent_inv snd fl cr
| being_sent db k : resolved_by fl cr db -> listening (fl_phase fl) -> cr_ResultCh cr = None ->
    (forall k' d, snd k' d <-> k' = k /\ d = the_decision db) -> unsent fl -> consent_inv snd fl cr
| queued db : resolved_by fl cr db -> listening (fl_phase fl) -> cr_ResultCh cr = Some (the_decision db) ->
    (forall k d, ~ snd k d) -> unsent fl -> consent_inv snd fl cr
| taken db : resolved_by fl cr db -> fl_phase fl = Decided (the_decision db) -> cr_ResultCh cr = None ->
    (forall k d, ~ snd k d) -> unsent fl -> consent_inv snd fl cr
| carried_out db : resolved_by fl cr db -> answered (fl_phase fl) -> cr_ResultCh cr = None ->
    (forall k d, ~ snd k d) ->
    match db_body db with
    | Some b => fl_errors fl = [] /\ exists p, fl_presented fl = [p] /\ of_choice fl cr b p /\ sent_as fl p
    | None => fl_presented fl = [] /\ exists e, fl_errors fl = [e]
    end -> consent_inv snd fl cr.

(** A flow without a dialog. *)
Inductive accepted_inv (fl : flow) : Prop :=
| not_yet : fl_phase fl = Accepted -> unsent fl -> accepted_inv fl
| submitted p : answered (fl_phase fl) -> fl_presented fl = [p] -> fl_errors fl = [] -> pr_matches p = fl_matches fl -> sent_as fl p -> accepted_inv fl.

(** The request was validated and evaluated when it arrived. *)
Definition received (fl : flow) : Prop :=
  (exists findings, Valid (fl_world fl) (fl_settings fl) (fl_req fl) = Ok findings) /\
  exists options, evaluate (fl_world fl) (fl_settings fl) (fl_wallet fl) (fl_req fl) = Ok (fl_matches fl, options) /\
    forall cr, fl_consent fl = Some cr -> cr_CredentialOptions cr = options.

Record flow_inv (snd : nat -> decision -> Prop) (fl : flow) : Prop := {
  fi_received : received fl;
  fi_stands : match fl_consent fl with
              | Some cr => consent_inv snd fl cr /\ (fl_phase fl <> Done -> cr_SubmissionCh cr = None)
              | None => accepted_inv fl /\ autoAccepts (fl_settings fl) (fl_req fl) = true /\ fl_decided fl = []
              end }.

Record good (s : wserver) : Prop := {
  g_flow : forall f fl, flows s !! f = Some fl -> flow_inv (sends s f) fl;
  g_requests : forall id f, requests s !! id = Some f -> exists cr, consent_of s f = Some cr /\ cr_ID cr = id;
  g_ids : forall f f' cr cr', consent_of s f = Some cr -> consent_of s f' = Some cr' -> cr_ID cr = cr_ID cr' -> f = f';
  g_checked : forall k c id, calls s !! k = Some c -> cl_phase c = Checked id ->
    forall f cr, requests s !! id = Some f -> consent_of s f = Some cr -> call_checks (cl_mode c) (cl_caller c) (cl_body c) cr = None;
  g_sends : forall f k d, sends s f k d -> is_Some (consent_of s f) }.

Lemma consent_inv_ext snd snd' fl cr : (forall k d, snd k d <-> snd' k d) -> consent_inv snd fl cr -> consent_inv snd' fl cr.
Proof using.
  intros He [?????|?????|db k Hr Hl Hc Hs Hu|db Hr Hl Hc Hs Hu|db Hr Hl Hc Hs Hu|db Hr Hl Hc Hs Hu].
  - apply still_pending; try done. intros k d. by rewrite <- He.
  - apply has_expired; try done. intros k d. by rewrite <- He.
  - apply (being_sent _ _ _ db k); try done. intros k' d. by rewrite <- He.
  - apply (queued _ _ _ db); try done. intros k d. by rewrite <- He.
  - apply (taken _ _ _ db); try done. intros k d. by rewrite <- He.
  - apply (carried_out _ _ _ db); try done. intros k d. by rewrite <- He.
Qed.

Lemma flow_inv_ext snd snd' fl : (forall k d, snd k d <-> snd' k d) -> flow_inv snd fl -> flow_inv snd' fl.
Proof using.
  intros He [Hr Hs]. split; [done|]. destruct (fl_consent fl); [|done]. destruct Hs as [Hs ?].
  split; [by apply (consent_inv_ext snd)|done].
Qed.

(** ** Actions that change one flow *)

Definition same_request (fl fl' : flow) : Prop := static <$> fl_consent fl = static <$> fl_consent fl'.

Lemma good_update s s' f fl fl' :
  good s -> flows s !! f = Some fl -> flows s' = <[f := fl']> (flows s) -> requests s' = requests s -> same_request fl fl' ->
  (forall k c id, calls s' !! k = Some c -> cl_phase c = Checked id -> calls s !! k = Some c) ->
  (forall f' k d, f' <> f -> sends s' f' k d <-> sends s f' k d) ->
  (forall k d, sends s' f k d -> is_Some (fl_consent fl)) ->
  flow_inv (sends s' f) fl' -> good s'.
Proof using.
  intros Hg Hf Ef Er Hsame Hc Hs Hsf Hi.
  assert (Hcons : forall g cr', consent_of s' g = Some cr' -> exists cr, consent_of s g = Some cr /\ static cr = static cr').
  { unfold consent_of. intros g cr'. rewrite Ef. destruct (decide (g = f)) as [->|Hne].
    - rewrite lookup_insert_eq, Hf. cbn. intros E. unfold same_request in Hsame. rewrite E in Hsame.
      destruct (fl_consent fl) as [cr|]; [|done]. exists cr. cbn in Hsame. split; [done|]. congruence.
    - rewrite lookup_insert_ne by done. eauto. }
  assert (Hback : forall g, is_Some (consent_of s g) -> is_Some (consent_of s' g)).
  { unfold consent_of. intros g. rewrite Ef. destruct (decide (g = f)) as [->|Hne]; [|by rewrite lookup_insert_ne].
    rewrite lookup_insert_eq, Hf. cbn. unfold same_request in Hsame. destruct (fl_consent fl), (fl_consent fl'); naive_solver. }
  assert (Hid : forall cr cr', static cr = static cr' -> cr_ID cr = cr_ID cr') by (unfold static; congruence).
  split.
  - intros g gl. rewrite Ef. destruct (decide (g = f)) as [->|Hne].
    + rewrite lookup_insert_eq. by intros [= <-].
    + rewrite lookup_insert_ne by done. intros Hgl. apply (flow_inv_ext (sends s g)); [|by apply Hg].
      intros k d. symmetry. by apply Hs.
  - intros id g. rewrite Er. intros (cr & Hcr & <-)%(g_requests s Hg).
    destruct (Hback g ltac:(by eexists)) as [cr' Hcr']. exists cr'. split; [done|].
    destruct (Hcons g cr' Hcr') as (cr0 & Hcr0 & Est). replace cr with cr0 by congruence. symmetry. by apply Hid.
  - intros g g' cr cr' (cr0 & H0 & E0)%Hcons (cr1 & H1 & E1)%Hcons E. apply (g_ids s Hg g g' cr0 cr1 H0 H1).
    by rewrite (Hid _ _ E0), (Hid _ _ E1).
  - intros k c id Hk Hp g cr. rewrite Er. intros Hr (cr0 & H0 & E0)%Hcons. rewrite <- (call_checks_static _ _ _ _ _ E0).
    by apply (g_checked s Hg k c id (Hc k c id Hk Hp) Hp g).
  - intros g k d Hsd. apply Hback. destruct (decide (g = f)) as [->|Hne].
    + apply Hsf in Hsd. unfold consent_of. by rewrite Hf.
    + rewrite Hs in Hsd by done. by apply (g_sends s Hg g k d).
Qed.

Lemma good_same s s' : good s -> flows s' = flows s -> requests s' = requests s -> calls s' = calls s -> good s'.
Proof using.
  intros Hg Ef Er Ec. destruct s, s'. cbn in *. subst. by destruct Hg.
Qed.
Lemma with_flow_twice f x y s : with_flow f x (with_flow f y s) = with_flow f x s.
Proof using. unfold with_flow. cbn. by rewrite insert_insert_eq. Qed.

Lemma good_flow s f fl fl' :
  good s -> flows s !! f = Some fl -> same_request fl fl' -> flow_inv (sends s f) fl' -> good (with_flow f fl' s).
Proof using.
  intros Hg Hf Hs Hi. apply (good_update s _ f fl fl'); try done.
  intros k d Hsd%(g_sends s Hg). unfold consent_of in Hsd. by rewrite Hf in Hsd.
Qed.

Lemma GetRequest_inv s id f cr : GetRequest s id = Some (f, cr) -> requests s !! id = Some f /\ consent_of s f = Some cr.
Proof using.
  unfold GetRequest. destruct (requests s !! id) as [g|]; [|done]. cbn. destruct (consent_of s g) eqn:E; [|done].
  cbn. intros [= -> ->]. done.
Qed.

Lemma consent_of_inv s f cr : consent_of s f = Some cr -> exists fl, flows s !! f = Some fl /\ fl_consent fl = Some cr.
Proof using. unfold consent_of. destruct (flows s !! f) as [fl|] eqn:E; [|done]. cbn. eauto. Qed.

Lemma stands s f fl cr : good s -> flows s !! f = Some fl -> fl_consent fl = Some cr ->
  received fl /\ consent_inv (sends s f) fl cr /\ (fl_phase fl <> Done -> cr_SubmissionCh cr = None).
Proof using. intros Hg Hf Hc. destruct (g_flow s Hg f fl Hf) as [Hr Hs]. by rewrite Hc in Hs. Qed.

Lemma resolved_by_same fl fl' cr cr' db :
  fl_decided fl' = fl_decided fl -> static cr' = static cr -> cr_Status cr' = cr_Status cr -> resolved_by fl cr db -> resolved_by fl' cr' db.
Proof using.
  intros E1 E2 E3 [H1 H2 H3]. split; [congruence| |congruence]. by rewrite (call_checks_static _ _ _ _ _ E2).
Qed.

Lemma received_same fl fl' cr cr' :
  fl_req fl' = fl_req fl -> fl_matches fl' = fl_matches fl -> fl_settings fl' = fl_settings fl -> fl_wallet fl' = fl_wallet fl ->
  fl_world fl' = fl_world fl -> fl_consent fl = Some cr -> fl_consent fl' = Some cr' -> cr_CredentialOptions cr' = cr_CredentialOptions cr ->
  received fl -> received fl'.
Proof using.
  intros E1 E2 E3 E4 E5 Hc Hc' Eo [Hv (o & He & Ho)]. unfold received. rewrite E1, E2, E3, E4, E5. split; [done|].
  exists o. split; [done|]. intros cr0 H0. assert (cr0 = cr') as -> by congruence. rewrite Eo. by apply Ho.
Qed.

(** A step of the flow that leaves the consent request's fixed part. *)
Lemma good_stands s f fl fl' cr cr' :
  good s -> flows s !! f = Some fl -> fl_consent fl = Some cr -> fl_consent fl' = Some cr' -> static cr' = static cr ->
  fl_req fl' = fl_req fl -> fl_matches fl' = fl_matches fl -> fl_settings fl' = fl_settings fl -> fl_wallet fl' = fl_wallet fl ->
  fl_world fl' = fl_world fl -> (fl_phase fl' <> Done -> cr_SubmissionCh cr' = None) ->
  consent_inv (sends s f) fl' cr' -> good (with_flow f fl' s).
Proof using.
  intros Hg Hf Hc Hc' Es E1 E2 E3 E4 E5 Hsub Hi. destruct (stands s f fl cr Hg Hf Hc) as (Hr & _ & _).
  apply (good_flow s f fl fl' Hg Hf); [unfold same_request; rewrite Hc, Hc'; cbn; by rewrite Es|]. split.
  - apply (received_same fl fl' cr cr'); try done. unfold static in Es. congruence.
  - by rewrite Hc'.
Qed.

Ltac not_now :=
  exfalso; unfold listening, answered in *;
  repeat match goal with
  | H : _ \/ _ |- _ => destruct H
  | H : exists _ : SubmissionResult, _ |- _ => destruct H
  end; congruence.
Ltac step_flow Hg Hf Hc := eapply (good_stands _ _ _ _ _ _ Hg Hf Hc); try reflexivity; cbn.

Lemma take_good f s s' : take_answer f s = Some s' -> good s -> good s'.
Proof using.
  unfold take_answer. destruct (flows s !! f) as [fl|] eqn:Hf; [|done]. cbn. destruct (fl_consent fl) as [cr|] eqn:Hc; [|done]. cbn.
  destruct (cr_ResultCh cr) as [d|] eqn:Hd; [|done]. cbn. intros Hs Hg. destruct (stands s f fl cr Hg Hf Hc) as (_ & Hi & Hsub).
  assert (Hl : listening (fl_phase fl) /\ s' = with_flow f (with_phase (Decided d) (with_consent (with_result None cr) fl)) s).
  { unfold listening. destruct (fl_phase fl); try done; injection Hs as <-; split; auto. }
  destruct Hl as [Hl ->]. destruct Hi as [????|????|????|db Hr _ Hd' Hno Hu|????|????]; try congruence.
  rewrite Hd in Hd'. injection Hd' as ->. step_flow Hg Hf Hc.
  - intros _. apply Hsub. destruct Hl; congruence.
  - apply (taken _ _ _ db); try done. by apply (resolved_by_same fl _ cr).
Qed.

Lemma time_out_good f s s' : time_out f s = Some s' -> good s -> good s'.
Proof using.
  unfold time_out. destruct (flows s !! f) as [fl|] eqn:Hf; [|done]. cbn. destruct (fl_consent fl) as [cr|] eqn:Hc; [|done]. cbn.
  destruct (fl_phase fl) eqn:Hp; try done. intros Hs Hg. destruct (stands s f fl cr Hg Hf Hc) as (_ & Hi & Hsub). rewrite Hp in Hsub.
  assert (Hblock : good (with_flow f (with_phase Blocked fl) s)).
  { step_flow Hg Hf Hc; [done|by auto|].
    destruct Hi as [?????|? ? [?|?]|db k Hr|db Hr|? ? ?|? ? ?]; try (not_now).
    - apply still_pending; try done. by right.
    - apply (being_sent _ _ _ db k); try done; [by apply (resolved_by_same fl _ cr)|by right].
    - apply (queued _ _ _ db); try done; [by apply (resolved_by_same fl _ cr)|by right]. }
  revert Hs. unfold ResolveRequest. destruct (GetRequest s (cr_ID cr)) as [[g crg]|] eqn:Eg; [|by intros [= <-]].
  apply GetRequest_inv in Eg as [Hreq Hcg]. destruct (g_requests s Hg _ _ Hreq) as (cr0 & H0 & Eid).
  assert (Hcf : consent_of s f = Some cr) by (unfold consent_of; by rewrite Hf).
  assert (g = f) as -> by (apply (g_ids s Hg g f cr0 cr); done). assert (crg = cr) as -> by congruence.
  destruct (decide _) as [Hpend|]; [|by intros [= <-]]. rewrite Hf. cbn. rewrite lookup_insert_eq. cbn. intros [= <-].
  rewrite with_flow_twice. step_flow Hg Hf Hc; [by auto|].
  destruct Hi as [????? []|? ? [?|?]|db k [_ _ Hst]|db [_ _ Hst]|? ? ?|? ? ?]; try (not_now); try (rewrite Hst in Hpend; by destruct (db_body db)).
  apply has_expired; try done. by left.
Qed.

Lemma present_good W f fl ms s s' :
  present marshal_value binding_held decode_key holder_key sub_jwk W f fl ms s = Some s' ->
  exists p, pr_matches p = ms /\ pr_wallet p = wallet s /\ pr_mode p = st_Mode (wsettings s) /\ sent_as fl p /\
    (good (with_flow f (sent_presentation p fl) s) -> good s').
Proof using.
  unfold present. destruct (present_with _ _ _ _ _ _ _ _ _ _) as [[w e]|] eqn:Ep; [|done]. cbn. intros [= <-].
  eexists (mkPresentation _ _ _ _). split_and!; try reflexivity; [by exists W, (wsettings s), w|]. intros Hg. by apply (good_same _ _ Hg).
Qed.

Lemma finish_good W f s s' :
  finish marshal_value binding_held decode_key holder_key sub_jwk W f s = Some s' -> good s -> good s'.
Proof using.
  unfold finish. destruct (flows s !! f) as [fl|] eqn:Hf; [|done]. cbn. intros Hs Hg.
  destruct (fl_consent fl) as [cr|] eqn:Hc.
  - destruct (stands s f fl cr Hg Hf Hc) as (_ & Hi & Hsub). destruct (fl_phase fl) eqn:Hp; try done.
    + destruct Hi; not_now.
    + injection Hs as <-. step_flow Hg Hf Hc; [done|by auto|].
      destruct Hi; rewrite Hp in *; try (not_now). apply has_expired; try done. right. left. by eexists.
    + destruct Hi as [? ? ?|? ? ?|? ? ? ?|? ? ?|db Hr Hd Hn Hno Hu|? ? ?]; rewrite Hp in *; try (not_now).
      injection Hd as ->. destruct Hu as [Hu1 Hu2].
      revert Hs. unfold the_decision, decision_of. destruct (db_body db) as [b|] eqn:Hb; cbn.
      * intros (p & Em & Ew & Emd & Hsa & Hgo)%present_good. apply Hgo. step_flow Hg Hf Hc; [done|by auto|].
        apply (carried_out _ _ _ db); try done; [by apply (resolved_by_same fl _ cr)|left; by eexists|].
        rewrite Hb. split; [done|]. exists p. split; [by cbn; rewrite Hu1|]. split; [unfold of_choice; by rewrite Em, Ew, Emd|exact Hsa].
      * intros [= <-]. step_flow Hg Hf Hc; [done|by auto|].
        apply (carried_out _ _ _ db); try done; [by apply (resolved_by_same fl _ cr)|left; by eexists|].
        rewrite Hb. split; [done|]. eexists. cbn. by rewrite Hu2.
  - destruct (g_flow s Hg f fl Hf) as [Hr Hst]. rewrite Hc in Hst. destruct Hst as (Hi & Ha & Hd).
    destruct Hi as [Hp [Hu1 Hu2]|p0 Hans]; [|exfalso; destruct Hans as [[r Hp]|Hp]; by rewrite Hp in Hs].
    rewrite Hp in Hs. apply present_good in Hs as (p & Em & _ & _ & Hsa & Hgo). apply Hgo.
    apply (good_flow s f fl _ Hg Hf); [unfold same_request; cbn; by rewrite Hc|]. split.
    + destruct Hr as [Hv (o & He & _)]. split; [done|]. exists o. split; [done|]. cbn. intros cr. by rewrite Hc.
    + cbn. rewrite Hc. split; [|done]. apply (submitted _ p); cbn; [left; by eexists|by rewrite Hu1|done|done|exact Hsa].
Qed.

Lemma report_good f s s' : report f s = Some s' -> good s -> good s'.
Proof using.
  unfold report. destruct (flows s !! f) as [fl|] eqn:Hf; [|done]. cbn. destruct (fl_phase fl) as [| | | | |r|] eqn:Hp; try done. intros Hs Hg.
  destruct (fl_consent fl) as [cr|] eqn:Hc.
  - destruct (stands s f fl cr Hg Hf Hc) as (_ & Hi & _). destruct (cr_SubmissionCh cr); [done|]. injection Hs as <-. step_flow Hg Hf Hc; [done|].
    destruct Hi as [? ? ?|? ? [?|?]|? ? ? ?|? ? ?|? ? ?|db Hr]; rewrite ?Hp in *; try (not_now).
    + apply has_expired; try done. right. by right.
    + apply (carried_out _ _ _ db); try done; [by apply (resolved_by_same fl _ cr)|by right].
  - injection Hs as <-. destruct (g_flow s Hg f fl Hf) as [Hr Hst]. rewrite Hc in Hst. destruct Hst as (Hi & Ha & Hd).
    apply (good_flow s f fl _ Hg Hf); [unfold same_request; cbn; by rewrite Hc|]. split; [exact Hr|].
    cbn. rewrite Hc. split; [|done]. destruct Hi as [?|p ? ? ? ? ?]; [not_now|]. apply (submitted _ p); try done. by right.
Qed.
(** ** Actions of the calls *)

Lemma sends_call f k0 c s k d : sends (with_call k0 c s) f k d <-> (k = k0 /\ cl_phase c = Sending f d) \/ (k <> k0 /\ sends s f k d).
Proof using.
  unfold sends, with_call. cbn. destruct (decide (k = k0)) as [->|Hne].
  - rewrite lookup_insert_eq. naive_solver.
  - rewrite lookup_insert_ne by done. naive_solver.
Qed.

(** A call that neither held a decision nor gets one. *)
Lemma good_call s k c :
  good s -> (forall f d, cl_phase c <> Sending f d) -> (forall f d, ~ sends s f k d) ->
  (forall id f cr, cl_phase c = Checked id -> requests s !! id = Some f -> consent_of s f = Some cr ->
     call_checks (cl_mode c) (cl_caller c) (cl_body c) cr = None) -> good (with_call k c s).
Proof using.
  intros Hg Hc Ho Hk.
  assert (Hsame : forall f k' d, sends (with_call k c s) f k' d <-> sends s f k' d).
  { intros f k' d. rewrite sends_call. split; [intros [[-> H]|[_ H]]; [by destruct (Hc f d)|done]|].
    intros H. right. split; [|done]. intros ->. by destruct (Ho f d). }
  split.
  - intros f fl Hf. apply (flow_inv_ext (sends s f)); [|by apply Hg]. intros k' d. by rewrite Hsame.
  - apply Hg.
  - apply Hg.
  - intros k' c' id. cbn. destruct (decide (k' = k)) as [->|Hne]; [rewrite lookup_insert_eq; intros [= <-] Hp f cr; by apply Hk|].
    rewrite lookup_insert_ne by done. apply (g_checked s Hg).
  - intros f k' d. rewrite Hsame. apply (g_sends s Hg).
Qed.

Lemma not_sending s k c f d : calls s !! k = Some c -> cl_phase c <> Sending f d -> ~ sends s f k d.
Proof using. intros Hk Hp (c' & Hk' & Hp'). congruence. Qed.

Lemma start_call_good k id c body s s' : start_call k id c body s = Some s' -> good s -> good s'.
Proof using.
  unfold start_call. destruct (decide _) as [Hn|]; [|done]. intros [= <-] Hg. apply good_call; [done| | |].
  - cbn. intros f d. destruct (GetRequest s id) as [[? pending]|]; [|done]. by destruct (call_checks _ _ _ _).
  - intros f d (c' & Hk & _). congruence.
  - cbn. intros id' f cr Hp Hreq Hcr. destruct (GetRequest s id) as [[g pending]|] eqn:Eg.
    + destruct (call_checks _ _ _ _) eqn:Ec; [done|]. injection Hp as ->. apply GetRequest_inv in Eg as [Hreq' Hcr']. congruence.
    + injection Hp as ->. unfold GetRequest in Eg. rewrite Hreq in Eg. cbn in Eg. by rewrite Hcr in Eg.
Qed.

Lemma stop_waiting_good k s s' : stop_waiting k s = Some s' -> good s -> good s'.
Proof using.
  unfold stop_waiting. destruct (calls s !! k) as [c|] eqn:Hk; [|done]. cbn. destruct (cl_phase c) eqn:Hp; try done. intros [= <-] Hg.
  apply good_call; try done. intros g d. apply (not_sending s k c g d Hk). congruence.
Qed.

Lemma collect_good k s s' : collect k s = Some s' -> good s -> good s'.
Proof using.
  unfold collect. destruct (calls s !! k) as [c|] eqn:Hk; [|done]. cbn. destruct (cl_phase c) as [| |f approved|] eqn:Hp; try done.
  destruct (flows s !! f) as [fl|] eqn:Hf; [|done]. cbn. destruct (fl_consent fl) as [cr|] eqn:Hc; [|done]. cbn.
  destruct (cr_SubmissionCh cr) as [r|] eqn:Hr; [|done]. cbn. intros [= <-] Hg.
  destruct (stands s f fl cr Hg Hf Hc) as (_ & Hi & Hsub). apply good_call; try done.
  - step_flow Hg Hf Hc. destruct Hi as [?????|?????|db k' ?|db ?|db ?|db ?].
    + by apply still_pending.
    + by apply has_expired.
    + apply (being_sent _ _ _ db k'); try done. by apply (resolved_by_same fl _ cr).
    + apply (queued _ _ _ db); try done. by apply (resolved_by_same fl _ cr).
    + apply (taken _ _ _ db); try done. by apply (resolved_by_same fl _ cr).
    + apply (carried_out _ _ _ db); try done. by apply (resolved_by_same fl _ cr).
  - intros g d (c' & Hk' & Hp'). cbn in Hk'. congruence.
Qed.

Lemma send_good k s s' : send_decision k s = Some s' -> good s -> good s'.
Proof using.
  unfold send_decision. destruct (calls s !! k) as [c|] eqn:Hk; [|done]. cbn. destruct (cl_phase c) as [|f d| |] eqn:Hp; try done.
  destruct (flows s !! f) as [fl|] eqn:Hf; [|done]. cbn. destruct (fl_consent fl) as [cr|] eqn:Hc; [|done]. cbn.
  destruct (cr_ResultCh cr) as [r|] eqn:Hr; [done|]. intros [= <-] Hg.
  destruct (stands s f fl cr Hg Hf Hc) as (Hrec & Hi & Hsub).
  assert (Hsd : sends s f k d) by (by exists c). destruct Hi as [? ? ? ? Hno ?|? ? ? ? Hno ?|db k' Hres Hl _ Hs Hu|? ? ? ? Hno ?|? ? ? ? Hno ?|? ? ? ? Hno ?];
    try (by destruct (Hno k d)). destruct (proj1 (Hs k d) Hsd) as [<- ->].
  apply (good_update s _ f fl (with_consent (with_result (Some (the_decision db)) cr) fl)); try done.
  - unfold same_request. by rewrite Hc.
  - intros k' c' id. cbn. destruct (decide (k' = k)) as [->|Hne]; [by rewrite lookup_insert_eq; intros [= <-]|by rewrite lookup_insert_ne].
  - intros f' k' d' Hne. rewrite sends_call. cbn. split; [intros [[_ ?]|[_ ?]]; done|]. intros H. right. split; [|done].
    intros ->. destruct H as (c' & Hk' & Hp'). congruence.
  - split.
    + apply (received_same fl _ cr (with_result (Some (the_decision db)) cr)); done.
    + cbn. split; [|by apply Hsub]. apply (queued _ _ _ db); try done; [by apply (resolved_by_same fl _ cr)|].
      intros k' d'. rewrite sends_call. cbn. intros [[_ ?]|[Hne Hs']]; [done|]. by apply (Hs k' d') in Hs' as [-> _].
Qed.

Lemma resolve_good k s s' : resolve k s = Some s' -> good s -> good s'.
Proof using.
  unfold resolve. destruct (calls s !! k) as [c|] eqn:Hk; [|done]. cbn. destruct (cl_phase c) as [id| | |] eqn:Hp; try done.
  assert (Hfail : forall r, good s -> good (with_call k (with_phase_call (Replied r) c) s)).
  { intros r Hg. apply good_call; try done. intros g d. apply (not_sending s k c g d Hk). congruence. }
  unfold ResolveRequest. destruct (GetRequest s id) as [[f cr]|] eqn:Eg; [|intros [= <-]; apply Hfail].
  destruct (decide _) as [Hpend|]; [|intros [= <-]; apply Hfail]. apply GetRequest_inv in Eg as [Hreq Hcr].
  destruct (consent_of_inv s f cr Hcr) as (fl & Hf & Hc). rewrite Hf. cbn. unfold decided_flow, with_flow. cbn. rewrite lookup_insert_eq. cbn.
  intros [= <-] Hg. destruct (stands s f fl cr Hg Hf Hc) as (Hrec & Hi & Hsub).
  pose proof (g_checked s Hg k c id Hk Hp f cr Hreq Hcr) as Hchk.
  destruct Hi as [_ Hd Hl Hn Hno Hu|Hst|? ? [_ _ Hst]|? [_ _ Hst]|? [_ _ Hst]|? [_ _ Hst]]; try (rewrite Hst in Hpend; try done; by destruct (db_body _)).
  set (db := mkDecidedBy (cl_caller c) (cl_body c) (cl_mode c)). set (st := match cl_body c with Some _ => Approved | None => Denied end).
  apply (good_update s _ f fl (mkFlow (fl_req fl) (fl_delivery fl) (fl_matches fl) (Some (with_status st cr)) (fl_phase fl)
    (fl_decided fl ++ [db]) (fl_presented fl) (fl_errors fl) (fl_settings fl) (fl_wallet fl) (fl_world fl))); try done.
  - cbn. by rewrite insert_insert_eq.
  - unfold same_request. by rewrite Hc.
  - intros k' c' id'. cbn. destruct (decide (k' = k)) as [->|Hne]; [by rewrite lookup_insert_eq; intros [= <-]|by rewrite lookup_insert_ne].
  - intros f' k' d' Hne. rewrite (sends_call f' k). cbn. split; [intros [[_ ?]|[_ ?]]; [congruence|done]|]. intros H. right. split; [|done].
    intros ->. destruct H as (c' & Hk' & Hp'). congruence.
  - split.
    + apply (received_same fl _ cr (with_status st cr)); done.
    + cbn. split; [|by apply Hsub]. apply (being_sent _ _ _ db k); try done.
      * split; cbn; [by rewrite Hd| |done]. by rewrite (call_checks_static _ _ _ _ cr).
      * intros k' d'. rewrite (sends_call f k). cbn. unfold the_decision. cbn. split.
        -- intros [[-> [= <-]]|[_ Hs]]; [done|by destruct (Hno k' d')].
        -- intros [-> ->]. by left.
Qed.

(** ** Arrivals *)

Lemma fresh_id_spec id s : fresh_id id s = true ->
  (forall f cr, consent_of s f = Some cr -> cr_ID cr <> id) /\ (forall k c, calls s !! k = Some c -> cl_phase c <> Checked id).
Proof using.
  unfold fresh_id. rewrite andb_true_iff, !negb_true_iff. intros [Hf Hc]. split.
  - intros f cr (fl & Hfl & Hcr)%consent_of_inv <-. apply not_true_iff_false in Hf. apply Hf, existsb_elem.
    exists (f, fl). split; [by apply elem_of_map_to_list|]. unfold flow_names. cbn. rewrite Hcr. by apply String.eqb_refl.
  - intros k c Hk Hp. apply not_true_iff_false in Hc. apply Hc, existsb_elem.
    exists (k, c). split; [by apply elem_of_map_to_list|]. unfold call_names. cbn. rewrite Hp. by apply String.eqb_refl.
Qed.

Lemma no_flow_no_sender s f k d : good s -> flows s !! f = None -> ~ sends s f k d.
Proof using. intros Hg Hf (cr & Hs)%(g_sends s Hg). unfold consent_of in Hs. by rewrite Hf in Hs. Qed.

(** A flow arrives, with the consent request it may have made. *)
Lemma good_arrival s s' f fl :
  good s -> flows s !! f = None -> flows s' = <[f := fl]> (flows s) -> calls s' = calls s ->
  (forall id g, requests s' !! id = Some g -> requests s !! id = Some g \/
     g = f /\ exists cr, fl_consent fl = Some cr /\ cr_ID cr = id /\ forall k c, calls s !! k = Some c -> cl_phase c <> Checked id) ->
  (forall cr, fl_consent fl = Some cr -> forall g cr', consent_of s g = Some cr' -> cr_ID cr' <> cr_ID cr) ->
  flow_inv (fun _ _ => False) fl -> good s'.
Proof using.
  intros Hg Hn Ef Ec Hreq Hid Hi.
  assert (Hold : forall g cr, consent_of s g = Some cr -> consent_of s' g = Some cr).
  { unfold consent_of. intros g cr. rewrite Ef. destruct (decide (g = f)) as [->|]; [by rewrite Hn|by rewrite lookup_insert_ne]. }
  assert (Hcons : forall g cr, consent_of s' g = Some cr -> (g = f /\ fl_consent fl = Some cr) \/ (g <> f /\ consent_of s g = Some cr)).
  { unfold consent_of. intros g cr. rewrite Ef. destruct (decide (g = f)) as [->|]; [rewrite lookup_insert_eq; by left|].
    rewrite lookup_insert_ne by done. by right. }
  assert (Hs : forall g k d, sends s' g k d <-> sends s g k d) by (intros g k d; unfold sends; by rewrite Ec).
  split.
  - intros g gl. rewrite Ef. destruct (decide (g = f)) as [->|Hne].
    + rewrite lookup_insert_eq. intros [= <-]. apply (flow_inv_ext (fun _ _ => False)); [|done].
      intros k d. rewrite Hs. split; [done|]. by apply no_flow_no_sender.
    + rewrite lookup_insert_ne by done. intros Hgl. apply (flow_inv_ext (sends s g)); [|by apply Hg]. intros k d. by rewrite Hs.
  - intros id g [Hr|(-> & cr & Hc & Hidc & _)]%Hreq.
    + destruct (g_requests s Hg id g Hr) as (cr & Hcr & Hidc). eauto.
    + exists cr. split; [|done]. unfold consent_of. by rewrite Ef, lookup_insert_eq.
  - intros g g' cr cr' [[-> H]|[_ H]]%Hcons [[-> H']|[_ H']]%Hcons E; [done| | |by apply (g_ids s Hg g g' cr cr')].
    + by destruct (Hid cr H g' cr' H').
    + by destruct (Hid cr' H' g cr H).
  - intros k c id. rewrite Ec. intros Hk Hp g cr [Hr|(_ & cr' & _ & _ & Hno)]%Hreq Hcr; [|by destruct (Hno k c Hk)].
    apply Hcons in Hcr as [[-> _]|[_ H]]; [|by apply (g_checked s Hg k c id Hk Hp g)].
    destruct (g_requests s Hg id f Hr) as (cr0 & H0 & _). unfold consent_of in H0. by rewrite Hn in H0.
  - intros g k d Hsd. rewrite Hs in Hsd. destruct (g_sends s Hg g k d Hsd) as [cr Hcr]. eauto.
Qed.

Lemma arrive_proceeds W s d req ms options :
  arrive family DNSNames unmarshal_any subject_names marshal_value error_text list_finding W s d req = Proceeds ms options ->
  (exists findings, Valid W (wsettings s) req = Ok findings) /\ evaluate W (wsettings s) (wallet s) req = Ok (ms, options).
Proof using.
  unfold arrive. destruct (validate _ _ _ _ _ _ _) as [findings|[e|fs]] eqn:Ev; try done.
  destruct (nextError s) as [[? ?]|]; [done|]. destruct (evaluate _ _ _ _) as [[ms' o']|e]; [|done].
  destruct (_ && _); [done|]. intros [= <- <-]. eauto.
Qed.

Lemma receive_good W f id d req s s' :
  receive family DNSNames unmarshal_any subject_names marshal_value error_text list_finding W f id d req s = Some s' -> good s -> good s'.
Proof using.
  unfold receive. cbv zeta. set (r := prepared_request _ req). destruct (arrive _ _ _ _ _ _ _ _ _ _ _) as [used e|ms options] eqn:Ea.
  { intros [= <-] Hg. destruct used; by apply (good_same s). }
  apply arrive_proceeds in Ea as [Hv He]. destruct (decide _) as [Hn|]; [|done].
  destruct (autoAccepts (wsettings s) r) eqn:Eacc.
  - intros [= <-] Hg. eapply (good_arrival s _ f); try done; cbn; [by left|].
    split; cbn; [split; [done|by exists options]|]. split; [|done]. by apply not_yet.
  - destruct (fresh_id id s) eqn:Ef; [|done]. intros [= <-] Hg. apply fresh_id_spec in Ef as [Hfl Hcl].
    eapply (good_arrival s _ f); try done; cbn.
    + intros id' g. cbn. destruct (decide (id' = id)) as [->|Hne].
      * rewrite lookup_insert_eq. intros [= <-]. right. split; [done|]. eexists. split; [done|]. by split.
      * rewrite lookup_insert_ne by done. intros [Hr _]%map_lookup_filter_Some. by left.
    + intros cr [= <-]. cbn. by apply Hfl.
    + split; cbn; [split; [done|exists options; split; [done|by intros cr [= <-]]]|]. split; [|done].
      apply still_pending; try done; [by left|naive_solver].
Qed.

Lemma step_good s a s' : Step s a = Some s' -> good s -> good s'.
Proof using.
  destruct a; cbn [wstep].
  - apply receive_good.
  - apply take_good.
  - apply time_out_good.
  - apply finish_good.
  - apply report_good.
  - apply start_call_good.
  - apply resolve_good.
  - apply send_good.
  - apply collect_good.
  - apply stop_waiting_good.
  - intros [= <-] Hg. by apply (good_same s).
  - intros [= <-] Hg. by apply (good_same s).
  - intros [= <-] Hg. by apply (good_same s).
Qed.

Lemma consents_good s : Reachable s -> good s.
Proof using.
  intros (w & st & Hr). assert (Hg : good (new_server w st)).
  { split; cbn; unfold consent_of, sends; cbn; intros *; rewrite ?lookup_empty; try done. by intros (? & ? & ?). }
  revert Hg. induction Hr as [|s1 s2 s3 [a Ha] _ IH]; [done|]. intros Hg. by apply IH, (step_good s1 a).
Qed.
Lemma wrun_reaches s l s' :
  wrun family DNSNames unmarshal_any subject_names marshal_value binding_held decode_key holder_key sub_jwk error_text list_finding s l = Some s' ->
  rtc (wstepped family DNSNames unmarshal_any subject_names marshal_value binding_held decode_key holder_key sub_jwk error_text list_finding) s s'.
Proof using.
  revert s. induction l as [|a l IH]; intros s; cbn [wrun]; [by intros [= ->]|].
  destruct (Step s a) as [s1|] eqn:E; [|done]. cbn. intros H. eapply rtc_l; [by exists a|by apply IH].
Qed.

(** ** The properties *)

Lemma checks_passed m c b cr : call_checks m c (Some b) cr = None ->
  ownsRequest (callerOwners c) cr (ca_request c) = true /\ ValidateConsentSelection (cr_CredentialOptions cr) (selection_of b) = Ok tt /\
  (m = Strict -> debugOnlySelection (cr_CredentialOptions cr) (selection_of b) = false).
Proof using.
  unfold call_checks. destruct (ownsRequest _ _ _); [|done]. cbn [negb]. destruct (_ && _); [done|].
  destruct (ValidateConsentSelection _ _) as [[]|]; [|done]. destruct m; cbn [is_strict andb].
  - destruct (debugOnlySelection _ _); [done|]. intros _. by split_and!.
  - intros _. by split_and!.
Qed.

(** An approval: by a browser that owns the request, with a selection the
    request offers and, in strict mode, that strict mode sends. *)
Record approved_by (cr : ConsentRequest) (db : decided_by) (b : approve_body) : Prop := {
  ap_body : db_body db = Some b;
  ap_owner : ownsRequest (callerOwners (db_caller db)) cr (ca_request (db_caller db)) = true;
  ap_selection : ValidateConsentSelection (cr_CredentialOptions cr) (selection_of b) = Ok tt;
  ap_strict : db_mode db = Strict -> debugOnlySelection (cr_CredentialOptions cr) (selection_of b) = false }.

Lemma resolved_approved fl cr db b : resolved_by fl cr db -> db_body db = Some b -> approved_by cr db b.
Proof using. intros [_ Hc _] Hb. rewrite Hb in Hc. apply checks_passed in Hc as (? & ? & ?). by split. Qed.

(** What a presentation of a flow rests on. *)
Lemma presented_inv s f fl p :
  good s -> flows s !! f = Some fl -> p ∈ fl_presented fl ->
  received fl /\ sent_as fl p /\ fl_presented fl = [p] /\ fl_errors fl = [] /\
  match fl_consent fl with
  | None => autoAccepts (fl_settings fl) (fl_req fl) = true /\ pr_matches p = fl_matches fl
  | Some cr => exists db b, fl_decided fl = [db] /\ approved_by cr db b /\ of_choice fl cr b p
  end.
Proof using.
  intros Hg Hf Hp. destruct (g_flow s Hg f fl Hf) as [Hr Hst]. split; [done|].
  destruct (fl_consent fl) as [cr|].
  - destruct Hst as [Hi _].
    destruct Hi as [? ? ? ? ? [Hu _]|? ? ? ? ? Hu|? ? ? ? ? ? [Hu _]|? ? ? ? ? [Hu _]|? ? ? ? ? [Hu _]|db Hres ? ? ? Hb]; try (rewrite Hu in Hp; by apply not_elem_of_nil in Hp).
    destruct (db_body db) as [b|] eqn:Eb; [|destruct Hb as [Hu _]; rewrite Hu in Hp; by apply not_elem_of_nil in Hp].
    destruct Hb as (He & p' & Hp' & Hch & Hsa). rewrite Hp' in Hp. apply list_elem_of_singleton in Hp as ->.
    split_and!; try done. exists db, b. split; [apply Hres|]. split; [by apply (resolved_approved fl)|done].
  - destruct Hst as (Hi & Ha & _). destruct Hi as [? [Hu _]|p' ? Hp' He Hm Hsa]; [rewrite Hu in Hp; by apply not_elem_of_nil in Hp|].
    rewrite Hp' in Hp. apply list_elem_of_singleton in Hp as ->. by split_and!.
Qed.

(** C7: Nothing is presented without consent.  Whatever requests arrive and
    however the flows, the calls to approve or deny, the timeouts, changes of
    the settings and other operations of the wallet interleave: what the server
    sends besides the presentations of its flows shows no credential, and a
    presentation answers a request that passed validation when it arrived, it
    is the only answer of its flow, and either its request goes without a
    dialog and it presents the matches of the evaluation, or exactly one call
    decided its consent request: an approval by a browser that owns it, with a
    selection the dialog offered, and it presents what that selection chose. *)
Theorem presentations_are_consented s :
  Reachable s ->
  (forall e, e ∈ refusals s -> shows_nothing e) /\
  forall f fl, flows s !! f = Some fl ->
    (forall e, e ∈ fl_errors fl -> shows_nothing e) /\
    forall p, p ∈ fl_presented fl ->
      received fl /\ sent_as fl p /\ fl_presented fl = [p] /\ fl_errors fl = [] /\
      match fl_consent fl with
      | None => autoAccepts (fl_settings fl) (fl_req fl) = true /\ pr_matches p = fl_matches fl
      | Some cr => exists db b, fl_decided fl = [db] /\ approved_by cr db b /\ of_choice fl cr b p
      end.
Proof using.
  intros Hreach. pose proof (consents_good s Hreach) as Hg. apply reachable_quiet in Hreach as [Hq1 Hq2]. split; [done|]. intros f fl Hf.
  split; [intros e; by apply (Hq2 f fl)|]. intros p. by apply (presented_inv s f).
Qed.

(** C8: A strict wallet server tells a verifier only what it asked for.
    When the wallet was strict as the request arrived, as the user approved
    it and as the presentation was made, then whoever owns the browser and
    whatever they picked in the dialog or sent to the API in its place, each
    credential presented is a matching candidate of the evaluation of the
    verifier's query, and each claim disclosed was selected by that query. *)
Theorem strict_server_sends_what_was_asked s f fl p m' :
  Reachable s -> flows s !! f = Some fl -> p ∈ fl_presented fl -> m' ∈ pr_matches p ->
  st_Mode (fl_settings fl) = Strict -> (forall db, db ∈ fl_decided fl -> db_mode db = Strict) -> pr_mode p = Strict ->
  exists query ms o q m,
    ap_DCQLQuery (rq_params (fl_req fl)) = Some query /\
    EvaluateDCQLWithOptions Strict (st_PreferredFormat (fl_settings fl)) (wd_rnd (fl_world fl)) (wd_rnd' (fl_world fl)) (Credentials (fl_wallet fl)) (Some query)
      = Ok (ms, Some o) /\
    q ∈ co_Queries o /\ m ∈ qo_Candidates q /\ narrows m' m.
Proof using.
  intros Hg%consents_good Hf Hp Hm Hst Hdb Hpm. destruct (presented_inv s f fl p Hg Hf Hp) as ((_ & options & He & Hopt) & _ & _ & _ & Hch).
  assert (Hev : forall m0, m0 ∈ fl_matches fl \/ is_Some options -> exists query ms, ap_DCQLQuery (rq_params (fl_req fl)) = Some query /\
    EvaluateDCQLWithOptions Strict (st_PreferredFormat (fl_settings fl)) (wd_rnd (fl_world fl)) (wd_rnd' (fl_world fl)) (Credentials (fl_wallet fl)) (Some query)
      = Ok (ms, options) /\ fl_matches fl = default [] ms).
  { intros m0 H0. revert He. unfold evaluate. rewrite Hst. destruct (ap_DCQLQuery _) as [query|].
    - destruct (ResponseTypeRequiresVP _).
      + destruct (EvaluateDCQLWithOptions _ _ _ _ _ _) as [[ms o]|] eqn:E; [|done]. cbn. intros [= <- <-]. by exists query, ms.
      + intros [= E <-]. destruct H0 as [H0|[? ?]]; [rewrite <- E in H0; by apply not_elem_of_nil in H0|done].
    - intros [= E <-]. destruct H0 as [H0|[? ?]]; [rewrite <- E in H0; by apply not_elem_of_nil in H0|done]. }
  assert (Hcand : forall ms o, fl_matches fl = default [] ms -> forall query, EvaluateDCQLWithOptions Strict (st_PreferredFormat (fl_settings fl)) (wd_rnd (fl_world fl))
    (wd_rnd' (fl_world fl)) (Credentials (fl_wallet fl)) (Some query) = Ok (ms, Some o) -> Forall (candidate o) (fl_matches fl)).
  { intros [ms|] o -> query E; [by apply (presented_are_candidates _ _ _ _ _ _ _ _ E)|by constructor]. }
  assert (Hplain : forall m0, m0 ∈ fl_matches fl -> narrows m' m0 -> exists query ms o q m, ap_DCQLQuery (rq_params (fl_req fl)) = Some query /\
    EvaluateDCQLWithOptions Strict (st_PreferredFormat (fl_settings fl)) (wd_rnd (fl_world fl)) (wd_rnd' (fl_world fl)) (Credentials (fl_wallet fl)) (Some query)
      = Ok (ms, Some o) /\ q ∈ co_Queries o /\ m ∈ qo_Candidates q /\ narrows m' m).
  { intros m0 H0 Hn. destruct (Hev m0 ltac:(by left)) as (query & ms & Hq & E & Ems). destruct ms as [ms|]; [|rewrite Ems in H0; by apply not_elem_of_nil in H0].
    cbn in Ems. rewrite Ems in H0. destruct (presented_offered _ _ _ _ _ _ _ _ m0 E H0) as (o & -> & q & Hqo & Hmq). by exists query, (Some ms), o, q, m0. }
  destruct (fl_consent fl) as [cr|] eqn:Hc.
  - destruct Hch as (db & b & Hd & Hap & Hof). unfold of_choice in Hof. rewrite Hof, Hpm in Hm. unfold consentedMatches in Hm. rewrite (Hopt cr eq_refl) in Hm.
    pose proof (ap_strict _ _ _ Hap (Hdb db ltac:(rewrite Hd; by left))) as Hno. rewrite (Hopt cr eq_refl) in Hno.
    destruct options as [o|].
    + destruct (Hev m' ltac:(right; by eexists)) as (query & ms & Hq & E & Ems).
      destruct (strict_choice_narrows o _ _ _ _ m' Hno (Hcand ms o Ems query E) Hm) as (q & m & ? & ? & ?). by exists query, ms, o, q, m.
    + cbn in Hm. apply strict_claims_narrow in Hm as (m0 & H0 & Hn). by apply (Hplain m0).
  - destruct Hch as [_ Hpe]. rewrite Hpe in Hm. apply (Hplain m' Hm). by repeat split.
Qed.

(** C9: A consent request is answered once, and for good.  While it is pending
    nothing decided it and nothing was sent; an approved request has one
    decision and never gets an error; a denied one has one decision and is never
    presented; an expired one has no decision and is never presented. *)
Theorem consent_is_final s f fl cr :
  Reachable s -> flows s !! f = Some fl -> fl_consent fl = Some cr ->
  match cr_Status cr with
  | Pending => fl_decided fl = [] /\ fl_presented fl = [] /\ fl_errors fl = []
  | Approved => (exists db b, fl_decided fl = [db] /\ db_body db = Some b) /\ (length (fl_presented fl) <= 1)%nat /\ fl_errors fl = []
  | Denied => (exists db, fl_decided fl = [db] /\ db_body db = None) /\ fl_presented fl = [] /\ (length (fl_errors fl) <= 1)%nat
  | Expired => fl_decided fl = [] /\ fl_presented fl = []
  end.
Proof using.
  intros Hg%consents_good Hf Hc. destruct (stands s f fl cr Hg Hf Hc) as (_ & Hi & _).
  assert (Hwaits : forall db, resolved_by fl cr db -> unsent fl ->
    match cr_Status cr with
    | Pending => fl_decided fl = [] /\ fl_presented fl = [] /\ fl_errors fl = []
    | Approved => (exists db b, fl_decided fl = [db] /\ db_body db = Some b) /\ (length (fl_presented fl) <= 1)%nat /\ fl_errors fl = []
    | Denied => (exists db, fl_decided fl = [db] /\ db_body db = None) /\ fl_presented fl = [] /\ (length (fl_errors fl) <= 1)%nat
    | Expired => fl_decided fl = [] /\ fl_presented fl = []
    end).
  { intros db [Ho _ ->] [H1 H2]. rewrite H1, H2. destruct (db_body db) as [b|] eqn:Eb; cbn; split_and!; try done; try lia; [by exists db, b|by exists db]. }
  destruct Hi as [-> Hd ? ? ? []| -> ? ? ? ?|? ? ? ? ? ?|? ? ? ? ? ?|? ? ? ? ? ?|db [Ho _ ->] ? ? ? Hb]; try done; try (by eapply Hwaits).
  destruct (db_body db) as [b|] eqn:Eb.
  - destruct Hb as (He & p & Hp & _). rewrite Hp, He. cbn. split_and!; [by exists db, b|lia|done].
  - destruct Hb as (Hp & e & He). rewrite Hp, He. cbn. split_and!; [by exists db|done|lia].
Qed.

Abbreviation Run := (wrun family DNSNames unmarshal_any subject_names marshal_value binding_held decode_key holder_key sub_jwk error_text list_finding).

(** C10: A decision is carried out.  No call ever waits for room to send its
    decision and no flow for room to report, and however late, whenever a call
    has resolved a consent request, the call's send and the flow's receive can
    happen, after which the flow acts on exactly that decision: the timeout
    cannot take it away, even when it fires at the same moment. *)
Theorem decisions_are_carried_out s f fl cr db :
  Reachable s -> flows s !! f = Some fl -> fl_consent fl = Some cr -> db ∈ fl_decided fl ->
  (forall k c g d, calls s !! k = Some c -> cl_phase c = Sending g d -> is_Some (send_decision k s)) /\
  (forall r, fl_phase fl = Reporting r -> is_Some (report f s)) /\
  exists l s' fl', (length l <= 2)%nat /\ Run s l = Some s' /\ flows s' !! f = Some fl' /\
    (fl_phase fl' = Decided (the_decision db) \/ answered (fl_phase fl')).
Proof using.
  intros Hg%consents_good Hf Hc Hdb. destruct (stands s f fl cr Hg Hf Hc) as (_ & Hi & Hsub). split_and!.
  - intros k c g d Hk Hp. assert (Hsd : sends s g k d) by (by exists c). destruct (g_sends s Hg g k d Hsd) as [cr' (fl' & Hf' & Hc')%consent_of_inv].
    unfold send_decision. rewrite Hk. cbn. rewrite Hp, Hf'. cbn. rewrite Hc'. cbn.
    destruct (stands s g fl' cr' Hg Hf' Hc') as (_ & Hi' & _).
    destruct Hi' as [? ? ? Hn|? ? ? Hn|? ? ? ? Hn|? ? ? ? Hno|? ? ? Hn|? ? ? Hn]; try (rewrite Hn; by eexists). by destruct (Hno k d).
  - intros r Hp. unfold report. rewrite Hf. cbn. rewrite Hp, Hc. rewrite Hsub by congruence. by eexists.
  - assert (Hrecv : forall s0 fl0 cr0, flows s0 !! f = Some fl0 -> fl_consent fl0 = Some cr0 -> listening (fl_phase fl0) -> cr_ResultCh cr0 = Some (the_decision db) ->
      exists s' fl', Run s0 [Take f] = Some s' /\ flows s' !! f = Some fl' /\ fl_phase fl' = Decided (the_decision db)).
    { intros s0 fl0 cr0 Hf0 Hc0 Hl Hd. do 2 eexists. cbn. unfold take_answer. rewrite Hf0. cbn. rewrite Hc0. cbn. rewrite Hd. cbn.
      destruct Hl as [El|El]; rewrite El; (split; [reflexivity|]); cbn; by rewrite lookup_insert_eq. }
    destruct Hi as [? Hno|? Hno|db' k [Ho _ _] Hl Hn Hs _|db' [Ho _ _] Hl Hd _ _|db' [Ho _ _] Hd|db' [Ho _ _] Ha].
    1,2: rewrite Hno in Hdb; by apply not_elem_of_nil in Hdb.
    all: rewrite Ho in Hdb; apply list_elem_of_singleton in Hdb as ->.
    + destruct (proj2 (Hs k (the_decision db')) ltac:(done)) as (c & Hk & Hp).
      edestruct (Hrecv (with_call k (with_phase_call (Awaiting f (dc_Approved (the_decision db'))) c)
        (with_flow f (with_consent (with_result (Some (the_decision db')) cr) fl) s))) as (s' & fl' & Hrun & Hf' & Hp').
      * cbn. by rewrite lookup_insert_eq.
      * reflexivity.
      * done.
      * reflexivity.
      * exists [Send k; Take f], s', fl'. split; [cbn; lia|]. split; [|by auto].
        change (Run s [Send k; Take f]) with (s0 ← send_decision k s; Run s0 [Take f]). unfold send_decision.
        rewrite Hk. cbn [mbind option_bind]. rewrite Hp, Hf. cbn [mbind option_bind]. rewrite Hc. cbn [mbind option_bind]. rewrite Hn. exact Hrun.
    + destruct (Hrecv s fl cr Hf Hc Hl Hd) as (s' & fl' & Hrun & Hf' & Hp'). exists [Take f], s', fl'. split; [cbn; lia|]. by auto.
    + exists [], s, fl. split; [cbn; lia|]. by auto.
    + exists [], s, fl. split; [cbn; lia|]. by auto.
Qed.
End facts.

(** ** A strict wallet server that asks its user *)

Module ConsentFlowToy.
#[local] Existing Instances RequestToy.toy_json RequestToy.toy_hash RequestToy.toy_pki JweToy.toy_crypto.
#[local] Instance toy_codec : Cbor.
Proof.
  refine {| cbor_decode := fun _ => None; cbor_encode := fun _ => None; cbor_raw_tag := fun _ => None; cbor_raw_array := fun _ => None;
            cbor_bytes := fun _ => None; cbor_wellformed := fun _ => false; print_key := fun _ => ""; parse_rfc3339 := fun _ => None |}.
  done.
Defined.
#[local] Instance toy_raws : CborRaw := { cbor_raw_map _ := None }.
#[local] Instance toy_reader : CredentialReader :=
  {| Anchor := unit; holder_bound := fun _ => true; issued_at := issuedAt; chain_akis := fun _ => Some [];
     chain_ends_in := fun _ _ => false; issuance_anchors := fun _ => Err "unreachable" |}.
#[local] Instance toy_signer : Signer :=
  {| PrivateKey := unit; marshal_object := fun _ => Some "o"; ecdsa_sign := fun _ _ => Some (1, 2); curve_bits := fun _ => 256 |}.
#[local] Instance toy_csigner : CoseSigner := { cose_sign1 _ _ := None }.

Definition claims : object := [("address", VObj [("street", VString "Main Street")]); ("age", VInt KInt 40)].
Definition cred : StoredCredential :=
  mkCred "pid" "dc+sd-jwt" (RequestToy.jwt "h" "rp" +:+ "~") claims "urn:pid" "" false None None "" "" 0 zero_time [] (Time 10 0) [].
Definition toy_wallet : Wallet := mkWallet [cred] ∅ 0 0 false.

Definition uri : string := "https://verifier.example/cb".
Definition params : AuthorizationRequestParams :=
  mkAuthParams _ ("redirect_uri:" +:+ uri) "vp_token" "direct_post" "n" "s" "" "" uri "" "" "" None (Some RequestToy.query) None None ∅ false [] [] [].
Definition req : AuthRequest := mkRequestOf _ params false "" "browser" "authorize" false.

Definition W : world := mkWorld RequestToy.now RequestToy.fetch RequestToy.parseCWT (fun _ _ => O) (fun _ _ => O) JweToy.random (Some tt)
  (fun _ => Ok (200, "", Ok "")) (fun _ => false) (fun w _ => (w, None)) 9.
Definition st : settings := mkWalletSettings _ (mkSettings Strict false false) false "" "" [] [] [].
Definition text_of (_ : value) : option string := Some "token".

Abbreviation toy_run :=
  (wrun RequestToy.family RequestToy.DNSNames RequestToy.unmarshal_any RequestToy.subject_names text_of (fun _ _ => true) (fun _ => None) tt []
     (fun _ => "") (fun _ => "")).

Definition owner : caller := mkCaller "browser" "" "" "".
Definition stranger : caller := mkCaller "other" "" "" "".
(** The user asks for one claim more than the verifier did. *)
Definition choice : approve_body := mkApprove (Some {["pid" := ["address.street"; "age"]]}) "" "" {["pid" := Some ["pid"]]} [] ∅.

(** A stranger's approval, the owner's, and one more, with a timeout between
    the owner's decision and its arrival. *)
Definition actions : list action :=
  [Receive W 0 "id" ByPost req; Call 0 "id" stranger (Some choice); Call 1 "id" owner (Some choice); Resolve 1; Timeout 0; Send 1;
   Take 0; Finish W 0; Report 0; Call 2 "id" owner None; Resolve 2; Collect 1].
Definition run_of (n : nat) : option wserver := toy_run (new_server toy_wallet st) (firstn n actions).
Definition server_after (n : nat) : wserver := default (new_server toy_wallet st) (run_of n).

Definition happens (n : nat) : bool := match run_of n with Some _ => true | None => false end.
Lemma all_happen : forallb happens (seq 0 13) = true.
Proof. vm_compute. reflexivity. Qed.

Lemma reached n : (n <= 12)%nat ->
  wreachable RequestToy.family RequestToy.DNSNames RequestToy.unmarshal_any RequestToy.subject_names text_of (fun _ _ => true) (fun _ => None) tt []
    (fun _ => "") (fun _ => "") (server_after n).
Proof.
  intros Hn. exists toy_wallet, st. eapply wrun_reaches.
  pose proof (proj1 (forallb_forall _ _) all_happen n ltac:(apply in_seq; lia)) as Hh. unfold happens in Hh. unfold server_after.
  destruct (run_of n) as [s|] eqn:E; [exact E|done].
Qed.

(** The claims the flow presented, its decisions and its status. *)
Definition shown (s : wserver) : list (list (list string)) * list bool * option consent_status :=
  match flows s !! 0%nat with
  | Some fl => (map (fun p => map SelectedKeys (pr_matches p)) (fl_presented fl), map (fun db => bool_decide (is_Some (ab_SelectedClaims <$> db_body db))) (fl_decided fl),
                cr_Status <$> fl_consent fl)
  | None => ([], [], None)
  end.

Lemma shown_inv s x y st' : shown s = (x, y, Some st') -> exists fl cr, flows s !! 0%nat = Some fl /\ fl_consent fl = Some cr /\ cr_Status cr = st' /\
  map (fun p => map SelectedKeys (pr_matches p)) (fl_presented fl) = x /\ map (fun db => bool_decide (is_Some (ab_SelectedClaims <$> db_body db))) (fl_decided fl) = y.
Proof.
  unfold shown. destruct (flows s !! 0%nat) as [fl|]; [|done]. destruct (fl_consent fl) as [cr|] eqn:Hc; [|done]. intros [= <- <- <-]. by exists fl, cr.
Qed.

Lemma map_one {A B} (f : A -> B) l b : map f l = [b] -> exists a, l = [a] /\ f a = b.
Proof. destruct l as [|a [|]]; try done. intros [= <-]. by exists a. Qed.

Lemma finally_shown : shown (server_after 12) = ([[["address.street"]]], [true], Some Approved).
Proof. vm_compute. reflexivity. Qed.
Lemma shown_midway : shown (server_after 5) = ([], [true], Some Approved).
Proof. vm_compute. reflexivity. Qed.

(** The owner's approval, not the stranger's, is what the presentation rests on. *)
Lemma presentations_are_consented_witness :
  exists fl cr p db b, flows (server_after 12) !! 0%nat = Some fl /\ fl_consent fl = Some cr /\ fl_presented fl = [p] /\
    map SelectedKeys (pr_matches p) = [["address.street"]] /\ fl_decided fl = [db] /\ approved_by cr db b.
Proof.
  destruct (shown_inv _ _ _ _ finally_shown) as (fl & cr & Hf & Hc & _ & Hp & _). apply map_one in Hp as (p & Hp & Hk).
  destruct (presentations_are_consented _ _ _ _ _ _ _ _ _ _ _ (server_after 12) (reached 12 ltac:(lia))) as [_ H].
  destruct (H 0%nat fl Hf) as [_ H']. destruct (H' p ltac:(rewrite Hp; apply list_elem_of_here)) as (_ & _ & _ & _ & Hd). rewrite Hc in Hd.
  destruct Hd as (db & b & Hd & Hap & _). exists fl, cr, p, db, b. split_and!; assumption.
Defined.

Lemma consent_is_final_witness :
  exists fl db b, flows (server_after 12) !! 0%nat = Some fl /\ fl_decided fl = [db] /\ db_body db = Some b /\ fl_errors fl = [].
Proof.
  destruct (shown_inv _ _ _ _ finally_shown) as (fl & cr & Hf & Hc & Hs & _).
  pose proof (consent_is_final _ _ _ _ _ _ _ _ _ _ _ (server_after 12) 0%nat fl cr (reached 12 ltac:(lia)) Hf Hc) as H. rewrite Hs in H.
  destruct H as ((db & b & Hd & Hb) & _ & He). exists fl, db, b. split_and!; assumption.
Defined.

(** After the timeout fired, before the decision was sent. *)
Lemma decisions_are_carried_out_witness :
  exists fl db s' fl', flows (server_after 5) !! 0%nat = Some fl /\ fl_decided fl = [db] /\ flows s' !! 0%nat = Some fl' /\
    (fl_phase fl' = Decided (the_decision db) \/ answered (fl_phase fl')).
Proof.
  destruct (shown_inv _ _ _ _ shown_midway) as (fl & cr & Hf & Hc & _ & _ & Hd). apply map_one in Hd as (db & Hd & _).
  destruct (decisions_are_carried_out _ _ _ _ _ _ _ _ _ _ _ (server_after 5) 0%nat fl cr db (reached 5 ltac:(lia)) Hf Hc
    ltac:(rewrite Hd; apply list_elem_of_here)) as (_ & _ & l & s' & fl' & _ & _ & Hf' & Hp).
  exists fl, db, s', fl'. split_and!; assumption.
Defined.

Definition strict_throughout (s : wserver) : bool :=
  match flows s !! 0%nat with
  | Some fl => is_strict (st_Mode (fl_settings fl)) && forallb (fun db => is_strict (db_mode db)) (fl_decided fl)
               && forallb (fun p => is_strict (pr_mode p) && (0 <? length (pr_matches p))%nat) (fl_presented fl)
  | None => false
  end.
Lemma finally_strict : strict_throughout (server_after 12) = true.
Proof. vm_compute. reflexivity. Qed.

Lemma strict_inv s fl : strict_throughout s = true -> flows s !! 0%nat = Some fl ->
  st_Mode (fl_settings fl) = Strict /\ (forall db, db ∈ fl_decided fl -> db_mode db = Strict) /\
  forall p, p ∈ fl_presented fl -> pr_mode p = Strict /\ exists m, m ∈ pr_matches p.
Proof.
  unfold strict_throughout. intros H E. rewrite E in H. rewrite !andb_true_iff, !forallb_forall in H. destruct H as [[H1 H2] H3]. split_and!.
  - by destruct (st_Mode _).
  - intros db Hdb. specialize (H2 db (proj1 (list_elem_of_In _ _) Hdb)). by destruct (db_mode db).
  - intros p Hp. specialize (H3 p (proj1 (list_elem_of_In _ _) Hp)). apply andb_true_iff in H3 as [Hm Hl]. split; [by destruct (pr_mode p)|].
    destruct (pr_matches p) as [|m ms]; [done|]. exists m. apply list_elem_of_here.
Qed.

Lemma strict_server_sends_what_was_asked_witness :
  exists fl p m' m, flows (server_after 12) !! 0%nat = Some fl /\ p ∈ fl_presented fl /\ m' ∈ pr_matches p /\ narrows m' m.
Proof.
  destruct (shown_inv _ _ _ _ finally_shown) as (fl & cr & Hf & Hc & _ & Hp & _). apply map_one in Hp as (p & Hp & _).
  assert (Hin : p ∈ fl_presented fl) by (rewrite Hp; apply list_elem_of_here).
  destruct (strict_inv _ fl finally_strict Hf) as (Hs & Hdb & Hpr). destruct (Hpr p Hin) as [Hm (m' & Hm')].
  destruct (strict_server_sends_what_was_asked _ _ _ _ _ _ _ _ _ _ _ (server_after 12) 0%nat fl p m' (reached 12 ltac:(lia)) Hf Hin Hm' Hs Hdb Hm)
    as (query & ms & o & q & m & _ & _ & _ & _ & Hn).
  exists fl, p, m', m. split_and!; assumption.
Defined.
End ConsentFlowToy.
