(* ===== verification/VciNet.v ===== *)
(** * VciNet: the wallet's conversation with an issuer

    The effects of the issuance code under src/internal/wallet: HTTP requests,
    the clock and random numbers, as programs of Conc over a state that holds
    the rest of the world and the exchanges so far.  Any function of the request
    and of its own state may answer, so a statement about all worlds is one
    about every issuer.

    [runs p Q]: whatever the world does, running [p] adds some exchanges to the
    conversation and ends with a result, which [Q] relates.  The rules follow
    the structure of a program. *)

From stdpp Require Import base list strings gmap.
From Stdlib Require Import ZArith Lia Ascii.
From S2P Require Import Prelude GoStrings GoValue Format Validity DCQL Present Certs IssuerAuth Conc MdocPresent.

Local Open Scope Z_scope.

(** ** Requests and answers *)

(** Header names are written as the code writes them. *)
Record outgoing := mkOut { o_Method : string; o_URL : string; o_Header : gmap string string; o_Body : string }.

(** The body as far as it was read, and the error the transfer broke off with. *)
Record incoming := mkIn { in_StatusCode : Z; in_Header : gmap string (list string); in_Body : string; in_Broken : option why }.

Definition ReadRemoteBody (r : incoming) (what : string) : result why string :=
  match in_Broken r with
  | Some e => Err e
  | None =>
      if MaxRemoteBytes <? Z.of_nat (String.length (in_Body r)) then Err (Fmt "%s exceeds %d bytes" [Text what; Text (itoa MaxRemoteBytes)])
      else Ok (in_Body r)
  end.

(** [resp.Header.Get(name)] *)
Definition header_of (r : incoming) (name : string) : string := first_of (in_Header r) name.

Class World := {
  world : Type;
  serve : outgoing -> world -> world * result why incoming;
  clock : world -> world * time;
  (** [rand.Read] *)
  entropy : nat -> world -> world * string;
  (** the error of [http.NewRequest] *)
  NewRequest : string -> string -> option why }.

Section net.
Context {w : World}.

(** The exchanges are history: no step reads them. *)
Record net := mkNet { around : world; exchanges : list (outgoing * result why incoming) }.

Abbreviation io := (prog net).

Definition do_send (r : outgoing) (s : net) : net * result why incoming :=
  let '(a, answer) := serve r (around s) in (mkNet a (exchanges s ++ [(r, answer)]), answer).

Definition do_clock (s : net) : net * time := let '(a, t) := clock (around s) in (mkNet a (exchanges s), t).
Definition do_draw (n : nat) (s : net) : net * string := let '(a, b) := entropy n (around s) in (mkNet a (exchanges s), b).

(** [doIssuanceRequest] *)
Definition doIssuanceRequest (r : outgoing) : io (result why incoming) := atomic (do_send r).

(** [time.Now()] *)
Definition time_Now : io time := atomic do_clock.

Definition randomBase64URL (n : nat) : io string := do b <- atomic (do_draw n); Ret (EncodeBase64URL b).
End net.
Abbreviation io := (prog net).

(** [reportServerDeviation]: the error in strict mode; debug mode logs. *)
Definition reportServerDeviation (mode : ValidationMode) (detail : why) : option why := reportDeviation mode detail.

(** [if err := check; err != nil { return ..., err }; k] *)
Definition unless {E A} (refused : option E) (k : result E A) : result E A :=
  match refused with Some e => Err e | None => k end.

Section trace.
Context {w : World}.

Abbreviation talk := (list (outgoing * result why incoming)).

Definition runs {A} (p : io A) (Q : A -> talk -> Prop) : Prop :=
  forall s, exists l, exchanges (run p s).1 = exchanges s ++ l /\ Q (run p s).2 l.

Lemma runs_mono {A} (p : io A) (Q Q' : A -> talk -> Prop) : runs p Q -> (forall a l, Q a l -> Q' a l) -> runs p Q'.
Proof. intros H HQ s. destruct (H s) as (l & ? & ?). exists l. auto. Qed.

Lemma runs_ret {A} (a : A) (Q : A -> talk -> Prop) : Q a [] -> runs (Ret a) Q.
Proof. intros H s. exists []. by rewrite app_nil_r. Qed.

Lemma runs_bind {A B} (p : io A) (g : A -> io B) (R : A -> talk -> Prop) (Q : B -> talk -> Prop) :
  runs p R -> (forall a l, R a l -> runs (g a) (fun b l' => Q b (l ++ l'))) -> runs (bind p g) Q.
Proof.
  intros Hp Hg s. rewrite run_bind. destruct (Hp s) as (l & E & HR). destruct (Hg _ _ HR (run p s).1) as (l' & E' & HQ).
  exists (l ++ l'). by rewrite E', E, app_assoc.
Qed.

(** A step that exchanges nothing. *)
Definition quiet {A} (p : io A) : Prop := runs p (fun _ l => l = []).

Lemma quiet_then {A B} (p : io A) (g : A -> io B) (Q : B -> talk -> Prop) :
  quiet p -> (forall a, runs (g a) Q) -> runs (bind p g) Q.
Proof. intros Hp Hg. eapply runs_bind; [exact Hp|]. intros a l ->. apply Hg. Qed.

Lemma runs_quiet {A} (p : io A) (Q : A -> talk -> Prop) : quiet p -> (forall a, Q a []) -> runs p Q.
Proof. intros Hp HQ. eapply runs_mono; [exact Hp|]. intros a l ->. apply HQ. Qed.

Lemma quiet_ret {A} (a : A) : quiet (Ret a).
Proof. by apply runs_ret. Qed.

Lemma quiet_clock : quiet time_Now.
Proof.
  intros s. exists []. unfold time_Now, atomic, do_clock. simpl. destruct (clock (around s)). simpl. by rewrite app_nil_r.
Qed.

(** [t] is a reading of the clock. *)
Definition read_at (t : time) : Prop := exists a, (clock a).2 = t.

Lemma clock_runs : runs time_Now (fun t l => l = [] /\ read_at t).
Proof.
  intros s. exists []. unfold time_Now, atomic, do_clock. simpl. destruct (clock (around s)) as [a t] eqn:E. simpl.
  rewrite app_nil_r. split; [done|]. split; [done|]. exists (around s). by rewrite E.
Qed.

Lemma quiet_draw n : quiet (atomic (do_draw n)).
Proof. intros s. exists []. simpl. unfold do_draw. destruct (entropy n (around s)). simpl. by rewrite app_nil_r. Qed.

(** [s] encodes [n] random bytes. *)
Definition drawn (n : nat) (s : string) : Prop := exists a, EncodeBase64URL (entropy n a).2 = s.

Lemma random_runs n : runs (randomBase64URL n) (fun r l => l = [] /\ drawn n r).
Proof.
  intros s. exists []. unfold randomBase64URL, atomic, do_draw. simpl. destruct (entropy n (around s)) as [a b] eqn:E. simpl.
  rewrite app_nil_r. split; [done|]. split; [done|]. exists (around s). by rewrite E.
Qed.

Lemma quiet_random n : quiet (randomBase64URL n).
Proof. eapply runs_mono; [apply random_runs|]. by intros r l [-> _]. Qed.

Lemma runs_send r (Q : result why incoming -> talk -> Prop) : (forall answer, Q answer [(r, answer)]) -> runs (doIssuanceRequest r) Q.
Proof.
  intros H s. unfold doIssuanceRequest, atomic. simpl. unfold do_send. destruct (serve r (around s)) as [a answer]. simpl.
  by exists [(r, answer)].
Qed.

Lemma runs_try {E A B} (p : io (result E A)) (g : A -> io (result E B)) (R : result E A -> talk -> Prop) (Q : result E B -> talk -> Prop) :
  runs p R -> (forall e l, R (Err e) l -> Q (Err e) l) ->
  (forall a l, R (Ok a) l -> runs (g a) (fun b l' => Q b (l ++ l'))) ->
  runs (try a <- p; g a) Q.
Proof.
  intros Hp He Hg. eapply runs_bind; [exact Hp|]. intros [a|e] l HR; [by apply Hg|]. apply runs_ret. rewrite app_nil_r. by apply He.
Qed.

(** Every request of a program. *)
Definition only {A} (P : outgoing -> Prop) (p : io A) : Prop := runs p (fun _ l => Forall (fun e => P e.1) l).

Lemma only_bind {A B} (P : outgoing -> Prop) (p : io A) (g : A -> io B) : only P p -> (forall a, only P (g a)) -> only P (bind p g).
Proof. intros Hp Hg. eapply runs_bind; [exact Hp|]. intros a l Hl. eapply runs_mono; [apply Hg|]. intros b l' Hl'. by apply Forall_app_2. Qed.

Lemma only_quiet {A} (P : outgoing -> Prop) (p : io A) : quiet p -> only P p.
Proof. intros H. apply runs_quiet; [exact H|]. intros; constructor. Qed.

Lemma only_send (P : outgoing -> Prop) r : P r -> only P (doIssuanceRequest r).
Proof. intros H. apply runs_send. intros answer. by repeat constructor. Qed.

Lemma only_mono {A} (P P' : outgoing -> Prop) (p : io A) : only P p -> (forall r, P r -> P' r) -> only P' p.
Proof. intros H HP. eapply runs_mono; [exact H|]. intros a l Hl. eapply Forall_impl; [exact Hl|]. intros e. apply HP. Qed.
End trace.

Create HintDb vci.
#[export] Hint Resolve quiet_ret quiet_clock quiet_draw quiet_random : vci.

(** [only_tac]: one step of a proof that a program makes only some requests. *)
Ltac only_step :=
  match goal with
  | |- only _ (bind _ _) => apply only_bind; [|intros ?]
  | |- only _ (Ret _) => apply only_quiet, quiet_ret
  | |- only _ time_Now => apply only_quiet, quiet_clock
  | |- only _ (randomBase64URL _) => apply only_quiet, quiet_random
  | |- only _ (doIssuanceRequest _) => apply only_send
  | |- only _ (match ?x with _ => _ end) => destruct x
  end.
