(* ===== verification/VciMetadata.v ===== *)
(** * VciMetadata: what the wallet reads from the metadata of an issuer

    src/internal/wallet: the offer an issuance continues with, fetching and
    parsing the issuer's and the authorization server's metadata, the choice of
    the server and of the endpoints (issuance.go, issuance_steps.go), client
    authentication methods, scopes and proof types (issuance_authcode.go).

    [sdjwt.Parse] and the readers of an offer are arguments; the trust in the
    signer of signed metadata is only logged and left out, as are other logs. *)

From stdpp Require Import base list strings gmap.
From Stdlib Require Import ZArith Lia Ascii.
From S2P Require Import Prelude GoStrings GoValue Numbers Format Validity SDJWT DCQL Certs Conc Deferred IssuerAuth UriQuery GoMap.
From S2P Require Import Requests ClientAuth RequestChecks MdocPresent VciNet.

Local Open Scope Z_scope.

(** ** The offer *)

Definition sameCredentialOffer (approved offered : CredentialOffer) : bool :=
  (CredentialIssuer approved =? CredentialIssuer offered)%string
  && bool_decide (CredentialConfigurationIDs approved = CredentialConfigurationIDs offered).

Definition keepApprovedOffer (approved : option CredentialOffer) (cause : why) : result why CredentialOffer :=
  match approved with
  | None => Err (Fmt "parsing credential offer: %w" [cause])
  | Some o => Ok o
  end.

(** [reread] is what [oid4vc.ParseWithOptions] makes of the URI this time. *)
Definition resolveOffer (reread : result why parsed) (approved : option CredentialOffer) : result why CredentialOffer :=
  match reread with
  | Err e => keepApprovedOffer approved e
  | Ok (Authorization _) => Err (Text "expected VCI credential offer, got VP")
  | Ok (Offer offer) =>
      if (trim_space (CredentialIssuer offer) =? "")%string then keepApprovedOffer approved (Text "the response carried no credential_issuer")
      else match approved with
           | Some a => if sameCredentialOffer a offer then Ok offer else Ok a
           | None => Ok offer
           end
  end.

(** [%v] of a slice of strings *)
Definition Sprint_strings (l : list string) : string := "[" +:+ join " " l +:+ "]".

Definition chooseOfferConfiguration (offer : CredentialOffer) (chosen : string) : result why string :=
  let ids := CredentialConfigurationIDs offer in
  if negb (chosen =? "")%string then
    if contains ids chosen then Ok chosen
    else Err (Fmt "the credential offer from %s does not offer credential configuration %q (it offers %v)"
                [Text (CredentialIssuer offer); Text chosen; Text (Sprint_strings ids)])
  else match ids with
       | [] => Err (Fmt "the credential offer from %s lists no credential_configuration_ids, which OID4VCI 1.0 §4.1.1 requires"
                      [Text (CredentialIssuer offer)])
       | id :: _ => Ok id
       end.

(** ** Members of the metadata *)

(** [if s, _ := entry.(string); s != ""] over a list. *)
Definition nonempty_strings (l : list value) : list string :=
  filter_map (fun entry => match as_string entry with Some "" | None => None | Some s => Some s end) l.

Definition authorizationServersFromMetadata (metadata : object) : list string :=
  nonempty_strings (get_arr metadata "authorization_servers").

Definition getAuthorizationServer (metadata : object) (issuer : string) : string :=
  match authorizationServersFromMetadata metadata with [] => issuer | server :: _ => server end.

Definition preAuthorizedCodeGrant : string := "urn:ietf:params:oauth:grant-type:pre-authorized_code".

(** The first grant of the offer that names a server. *)
Definition offerAuthorizationServer (offer : CredentialOffer) : string :=
  match as_obj (index (offer_FullJSON offer) "grants") with
  | None => ""
  | Some grants =>
      default "" (find_map (fun grantType =>
        match as_obj (index grants grantType) with
        | None => None
        | Some grant => let server := get_string grant "authorization_server" in
                        if (server =? "")%string then None else Some server
        end) [preAuthorizedCodeGrant; "authorization_code"])
  end.

Definition selectAuthorizationServer (metadata : object) (offer : CredentialOffer) : result why string :=
  let servers := authorizationServersFromMetadata metadata in
  let hint := offerAuthorizationServer offer in
  let issuer := CredentialIssuer offer in
  if (hint =? "")%string then Ok (match servers with [] => issuer | server :: _ => server end)
  else if contains servers hint then Ok hint
  else Err (Fmt "credential offer names authorization server %q, which the issuer metadata of %s does not list" [Text hint; Text issuer]).

(** The second result is false when the server states no grant. *)
Definition grantTypesSupported (oauthMeta : object) : list string * bool :=
  let out := nonempty_strings (get_arr oauthMeta "grant_types_supported") in
  (out, match out with [] => false | _ => true end).

Definition sameIdentifier (a b : string) : bool := (a =? b)%string.

(** A server that does not list the grant. *)
Definition lacks_grant (oauthMeta : object) (grantType : string) : bool :=
  let '(supported, stated) := grantTypesSupported oauthMeta in stated && negb (contains supported grantType).

Definition checkAuthorizationServerGrant (mode : ValidationMode) (authServer : string) (oauthMeta : object) (grantType : string) : option why :=
  if lacks_grant oauthMeta grantType then
    reportDeviation mode (Fmt "Authorization server %s does not support %s, which this issuance uses. Its metadata supports %s."
      [Text authServer; Text grantType; Text (join ", " (grantTypesSupported oauthMeta).1)])
  else None.

Definition validateAuthorizationServerIssuer (authServer : string) (oauthMeta : object) : option why :=
  let issuer := get_string oauthMeta "issuer" in
  if (issuer =? "")%string then Some (Text "authorization server metadata missing issuer")
  else if negb (sameIdentifier issuer authServer)
  then Some (Fmt "authorization server issuer %q did not match authorization server %q" [Text issuer; Text authServer])
  else None.

Definition resolveTokenEndpoint (mode : ValidationMode) (metadata oauthMeta : object) (issuer : string) : result why string :=
  let ep := get_string oauthMeta "token_endpoint" in
  let ep' := get_string metadata "token_endpoint" in
  if negb (ep =? "")%string then Ok ep
  else if negb (ep' =? "")%string then Ok ep'
  else
    let fallback := getAuthorizationServer metadata issuer +:+ "/token" in
    unless (reportServerDeviation mode (Fmt "the authorization server metadata has no token_endpoint, which RFC 8414 requires (assuming %s)" [Text fallback]))
      (Ok fallback).

Definition resolveCredentialEndpoint (mode : ValidationMode) (metadata : object) (issuer : string) : result why string :=
  let ep := get_string metadata "credential_endpoint" in
  if negb (ep =? "")%string then Ok ep
  else
    let fallback := trim_right_slashes issuer +:+ "/credential" in
    unless (reportServerDeviation mode (Fmt "the credential issuer metadata has no credential_endpoint, which OID4VCI 1.0 requires (assuming %s)" [Text fallback]))
      (Ok fallback).

(** [configs[configID]] of the supported configurations. *)
Definition configuration_of (metadata : object) (configID : string) : option object :=
  configs ← as_obj (index metadata "credential_configurations_supported"); as_obj (index configs configID).

Definition resolveCredentialFormat (metadata : object) (configID : string) : string :=
  match configuration_of metadata configID with Some cfg => get_string cfg "format" | None => "" end.

Definition resolveCredentialScope (metadata : object) (configID : string) : string :=
  match configuration_of metadata configID with Some cfg => get_string cfg "scope" | None => "" end.

Definition oauthIssuer (oauthMeta : object) (fallback : string) : string :=
  let issuer := get_string oauthMeta "issuer" in if (issuer =? "")%string then fallback else issuer.

Definition issAdvertised (oauthMeta : object) : bool :=
  default false (as_bool (index oauthMeta "authorization_response_iss_parameter_supported")).

Definition supportsDPoP (oauthMeta : object) : bool :=
  match get_arr oauthMeta "dpop_signing_alg_values_supported" with [] => false | _ => true end.

(** ** Client authentication methods *)

Definition unauthenticatedClientMethod : string := "none".
Definition unregisteredPublicClientMethod : string := "public".

(** The first method of the list that is one of [wanted]. *)
Definition first_method (wanted : list string) (methods : list value) : option string :=
  find_map (fun raw => let method := default "" (as_string raw) in if contains wanted method then Some method else None) methods.

Definition detectTokenEndpointAuthMethod (oauthMeta : object) : string :=
  let methods := get_arr oauthMeta "token_endpoint_auth_methods_supported" in
  match methods with
  | [] => ""
  | first :: _ =>
      match first_method ["attest_jwt_client_auth"] methods with
      | Some method => method
      | None =>
          match first_method ["attest_jwt_client_auth_dpop"] methods with
          | Some method => method
          | None =>
              match first_method ["private_key_jwt"] methods with
              | Some method => method
              | None =>
                  match first_method [unauthenticatedClientMethod; unregisteredPublicClientMethod] methods with
                  | Some method => method
                  | None => default "" (as_string first)
                  end
              end
          end
      end
  end.

(** [raw == want] for a value and a string *)
Definition lists_string (l : list value) (want : string) : bool :=
  existsb (fun raw => match as_string raw with Some s => (s =? want)%string | None => false end) l.

Definition usesCombinedPoP (oauthMeta : object) : bool :=
  if (detectTokenEndpointAuthMethod oauthMeta =? "attest_jwt_client_auth_dpop")%string then true
  else
    let values := get_arr oauthMeta "client_attestation_pop_methods_supported" in
    lists_string values "dpop_combined" && negb (lists_string values "attestation_pop_jwt").

Definition usesDPoP (oauthMeta : object) : bool := supportsDPoP oauthMeta || usesCombinedPoP oauthMeta.

(** ** Proof types *)

Definition credentialProofTypes (metadata : object) (configID : string) : object :=
  get_obj (default [] (configuration_of metadata configID)) "proof_types_supported".

Definition credentialProofType (metadata : object) (configID : string) : string :=
  let proofTypes := credentialProofTypes metadata configID in
  match as_obj (index proofTypes "attestation") with
  | None => "jwt"
  | Some _ =>
      match as_obj (index proofTypes "jwt") with
      | None => "attestation"
      | Some jwtProof => if bool_decide (is_Some (GoValue.get "key_attestations_required" jwtProof)) then "attestation" else "jwt"
      end
  end.

(** The empty text is [None]. *)
Definition proofSigningAlgFinding (metadata : object) (configID : string) (requireHAIP : bool) : option why :=
  let proofType := credentialProofType metadata configID in
  let proof := get_obj (credentialProofTypes metadata configID) proofType in
  match as_arr (index proof "proof_signing_alg_values_supported") with
  | None => None
  | Some algs =>
      if lists_string algs "ES256" then None
      else
        let finding := Fmt "OID4VCI 1.0 Appendix F: the %s proof type lists proof_signing_alg_values_supported %v without ES256, the algorithm this wallet signs with"
                         [Text proofType; Text (Sprint (VArr algs))] in
        Some (if requireHAIP then Fmt "%s (HAIP 1.0 §7: issuers MUST support ES256 for key proofs and key attestations)" [finding] else finding)
  end.

(** The second result says whether a key attestation is required. *)
Definition credentialKeyAttestationRequirement (metadata : object) (configID : string) : object * bool :=
  let proofTypes := credentialProofTypes metadata configID in
  let proofType := credentialProofType metadata configID in
  let raw := GoValue.get "key_attestations_required" (get_obj proofTypes proofType) in
  if (proofType =? "attestation")%string then
    let raw := match raw with Some v => v | None => index (get_obj proofTypes "jwt") "key_attestations_required" end in
    (default [] (as_obj raw), true)
  else (default [] (raw ≫= as_obj), match raw with Some _ => true | None => false end).

Definition keyAttestationClaimNames : list string := ["key_storage"; "user_authentication"].
Definition keyAttestationLevelValues : list string := ["iso_18045_high"; "iso_18045_moderate"; "iso_18045_enhanced-basic"; "iso_18045_basic"].

Definition ParseKeyAttestationLevel (value : string) : result why string :=
  if (value =? "")%string || (value =? "none")%string || contains keyAttestationLevelValues value then Ok value
  else Err (Fmt "%q is not a key attestation level: use 'none' or one of %s" [Text value; Text (join ", " keyAttestationLevelValues)]).

Definition requiredKeyAttestationClaims (requirement : object) : object :=
  filter_map (fun claim => match as_arr (index requirement claim) with
                           | Some [] | None => None
                           | Some values => Some (claim, VArr values)
                           end) keyAttestationClaimNames.

Definition keyAttestationClaims (level : string) (requirement : object) : object :=
  if (level =? "none")%string then []
  else if (level =? "")%string then requiredKeyAttestationClaims requirement
  else (fun claim => (claim, VArr [VString level])) <$> keyAttestationClaimNames.

(** ** Reading the metadata documents *)

Definition isLikelyCompactJWT (raw : string) : bool :=
  let byte_ok c := let n := nat_of_ascii c in
    ((97 <=? n) && (n <=? 122) || (65 <=? n) && (n <=? 90) || (48 <=? n) && (n <=? 57) || (n =? 45) || (n =? 95))%nat in
  if has_prefix "{" raw || has_prefix "[" raw then false
  else match split "."%char raw with
       | [p0; p1; p2] => forallb (fun part => negb (part =? "")%string && all_bytes byte_ok part) [p0; p1; p2]
       | _ => false
       end.

Definition signedIssuerMetadataTyp : string := "openidvci-issuer-metadata+jwt".

(** The decoder yields no [[]string]. *)
Definition normalizeMetadataX5CEntries (raw : value) : result why (list string) :=
  match as_arr raw with
  | None => Err (Text "x5c is not an array")
  | Some l => match mapM as_string l with Some out => Ok out | None => Err (Text "x5c entry is not a string") end
  end.

Record metadataPolicy := mkPolicy { mp_strict : bool }.

(** What a problem of signed metadata is made of: refused, or reported. *)
Record metadata_document (C : Type) := mkDocument { md_metadata : object; md_chain : list C; md_problem : option why }.
Arguments mkDocument {C} md_metadata md_chain md_problem.
Arguments md_metadata {C} m.
Arguments md_chain {C} m.
Arguments md_problem {C} m.

Section documents.
Context {json : Json} {pki : Pki} {w : World}.
Context (sdjwt_Parse : string -> result why Token).

Fixpoint metadata_certs (i : Z) (l : list string) : result why (list X509Cert) :=
  match l with
  | [] => Ok []
  | entry :: l =>
      match Std_Decode entry with
      | None => Err (Fmt "decoding issuer metadata x5c entry %d: %w" [Text (itoa i)])
      | Some der =>
          match ParseCertificate der with
          | None => Err (Fmt "parsing issuer metadata x5c entry %d: %w" [Text (itoa i)])
          | Some cert => let? certs := metadata_certs (i + 1) l in Ok (cert :: certs)
          end
      end
  end.

Definition signedIssuerMetadataChain (token : Token) : result why (list X509Cert) :=
  match GoValue.get "x5c" (t_Header token) with
  | None => Err (Text "signed issuer metadata carries no x5c, so its signer cannot be trusted")
  | Some raw =>
      match normalizeMetadataX5CEntries raw with
      | Err e => Err (Fmt "parsing issuer metadata x5c: %w" [e])
      | Ok [] => Err (Text "signed issuer metadata x5c is empty, so its signer cannot be trusted")
      | Ok entries => metadata_certs 0 entries
      end
  end.

(** The trust in the chain is only logged. *)
Definition verifySignedIssuerMetadata (now : time) (token : Token) (issuer : string) : option why :=
  let typ := get_string (t_Header token) "typ" in
  let alg := get_string (t_Header token) "alg" in
  let sub := get_string (t_Payload token) "sub" in
  if negb (typ =? signedIssuerMetadataTyp)%string
  then Some (Fmt "signed issuer metadata has typ %q, want %q" [Text typ; Text signedIssuerMetadataTyp])
  else if (alg =? "")%string || EqualFold alg "none" || has_prefix "hs" (fold_ascii alg)
  then Some (Fmt "signed issuer metadata alg %q is not an asymmetric digital signature algorithm" [Text alg])
  else if negb (sub =? issuer)%string
  then Some (Fmt "signed issuer metadata sub %q does not match the credential issuer identifier %q" [Text sub; Text issuer])
  else
  match signedIssuerMetadataChain token with
  | Err e => Some e
  | Ok certs =>
      if vr_SignatureValid (sdjwt_Verify now token (head certs ≫= cert_PublicKey)) then None
      else Some (Text "issuer metadata signature is invalid")
  end.

(** The empty text is [None]; the date in the message is left out. *)
Definition signedIssuerMetadataFreshness (now : time) (token : Token) : option why :=
  match as_float64 (index (t_Payload token) "iat") with
  | None => Some (Text "the signed issuer metadata has no iat")
  | Some _ =>
      match unix_claim (t_Payload token) "exp" with
      | Some exp => if after now exp then Some (Text "the signed issuer metadata expired at %s") else None
      | None => None
      end
  end.

Definition checkCredentialIssuerIdentifier (metadata : object) (issuer : string) : option why :=
  let declared := get_string metadata "credential_issuer" in
  if sameIdentifier declared issuer then None
  else if (declared =? "")%string then Some (Fmt "issuer metadata for %q carries no credential_issuer identifier" [Text issuer])
  else Some (Fmt "issuer metadata declares credential_issuer %q but was fetched for %q, so it cannot be used" [Text declared; Text issuer]).

(** The signed form. *)
Definition read_signed_metadata (now : time) (raw issuer : string) (policy : metadataPolicy) : result why (metadata_document X509Cert) :=
  match sdjwt_Parse raw with
  | Err e => Err (Fmt "parsing signed issuer metadata: %w" [e])
  | Ok token =>
      unless (verifySignedIssuerMetadata now token issuer)
        (let chain := match signedIssuerMetadataChain token with Ok chain => chain | Err _ => [] end in
         match signedIssuerMetadataFreshness now token with
         | None => Ok (mkDocument (t_Payload token) chain None)
         | Some problem =>
             let problem := Fmt "OpenID4VCI 1.0 §12.2.3: %s" [problem] in
             if mp_strict policy then Err problem else Ok (mkDocument (t_Payload token) chain (Some problem))
         end)
  end.

(** [json.Unmarshal] into a map; null leaves it nil, which reads like an empty one. *)
Definition read_map (body : string) : option object := if is_null body then Some [] else unmarshal_object body.

Definition parseIssuerMetadataDocument (now : time) (body contentType issuer : string) (policy : metadataPolicy) :
    result why (metadata_document X509Cert) :=
  let raw := trim_space body in
  if (raw =? "")%string then Err (Text "issuer metadata response was empty")
  else
    let mediaType := to_lower (trim_space (default "" (head (split ";"%char contentType)))) in
    let? doc :=
      (if (mediaType =? "application/jwt")%string || Contains mediaType signedIssuerMetadataTyp || isLikelyCompactJWT raw
       then read_signed_metadata now raw issuer policy
       else match read_map body with
            | Some metadata => Ok (mkDocument metadata [] None)
            | None => Err (Text "parsing metadata JSON: %w")
            end) in
    unless (checkCredentialIssuerIdentifier (md_metadata doc) issuer) (Ok doc).

(** ** Fetching them *)

Definition wellKnownURL (issuerOrServer wellKnownType : string) : result why string :=
  match url_Parse (trim_space issuerOrServer) with
  | None => Err (Text "parsing issuer URL: %w")
  | Some u =>
      if (u_Scheme u =? "")%string || (u_Host u =? "")%string then Err (Text "issuer URL must be absolute")
      else
        let path := if (wellKnownType =? "oauth-authorization-server")%string then trim_suffix "/" (u_EscapedPath u) else u_EscapedPath u in
        Ok (u_Scheme u +:+ "://" +:+ u_Host u +:+ "/.well-known/" +:+ wellKnownType +:+ path)
  end.

Definition metadataFetchAttempts : nat := 3.

(** [attempts] are left, of which the next may be the last. *)
Fixpoint fetch_attempts (attempts : nat) (url accept : string) (lastErr : why) : io (result why incoming) :=
  match attempts with
  | O => Ret (Err lastErr)
  | S attempts =>
      match NewRequest "GET" url with
      | Some e => Ret (Err e)
      | None =>
          do answer <- doIssuanceRequest (mkOut "GET" url {[ "Accept" := accept ]} "");
          match answer with
          | Ok resp =>
              if in_StatusCode resp <? 500 then Ret (Ok resp)
              else fetch_attempts attempts url accept (Fmt "%s answered HTTP %d" [Text url; Text (itoa (in_StatusCode resp))])
          | Err e => fetch_attempts attempts url accept e
          end
      end
  end.

Definition fetchMetadataDocument (url accept : string) : io (result why incoming) :=
  fetch_attempts metadataFetchAttempts url accept (Text "").

(** [body, _ := ReadRemoteBody(...)] as a text. *)
Definition body_text (resp : incoming) (what : string) : why :=
  match ReadRemoteBody resp what with Ok body => Text body | Err _ => Text "" end.

Definition fetchIssuerMetadataDocument (issuer : string) (preferSigned : bool) (policy : metadataPolicy) :
    io (result why (metadata_document X509Cert)) :=
  match wellKnownURL issuer "openid-credential-issuer" with
  | Err e => Ret (Err (Fmt "building issuer metadata URL: %w" [e]))
  | Ok metadataURL =>
      do answer <- fetchMetadataDocument metadataURL
                     (if preferSigned then "application/jwt, application/json;q=0.5" else "application/json, application/jwt");
      match answer with
      | Err e => Ret (Err (Fmt "fetching metadata: %w" [e]))
      | Ok resp =>
          if negb (in_StatusCode resp =? 200)
          then Ret (Err (Fmt "metadata request failed (%d): %s" [Text (itoa (in_StatusCode resp)); body_text resp "issuer response"]))
          else match ReadRemoteBody resp "issuer response" with
               | Err e => Ret (Err (Fmt "reading metadata: %w" [e]))
               | Ok body => do now <- time_Now; Ret (parseIssuerMetadataDocument now body (header_of resp "Content-Type") issuer policy)
               end
      end
  end.

(** [format.DecodeRemoteJSON]: a complete value decodes even when the transfer
    broke off behind it. *)
Definition decode_remote (resp : incoming) (what : string) : result why object :=
  match DecodeRemoteJSON (in_Body resp) what, in_Broken resp with
  | Ok doc, _ => Ok doc
  | Err e, None => Err e
  | Err e, Some broken => Err (if MaxRemoteBytes <? Z.of_nat (String.length (in_Body resp)) then e else broken)
  end.

Definition fetchOAuthMetadata (authServer : string) : io (result why object) :=
  match wellKnownURL authServer "oauth-authorization-server" with
  | Err e => Ret (Err e)
  | Ok oauthURL =>
      do answer <- fetchMetadataDocument oauthURL "application/json";
      Ret (match answer with
           | Err e => Err (Fmt "no OAuth metadata found at %s: %w" [Text authServer; e])
           | Ok resp =>
               if negb (in_StatusCode resp =? 200)
               then Err (Fmt "no OAuth metadata found at %s: HTTP %d" [Text authServer; Text (itoa (in_StatusCode resp))])
               else match decode_remote resp "OAuth metadata" with
                    | Err e => Err (Fmt "parsing OAuth metadata from %s: %w" [Text authServer; e])
                    | Ok meta => Ok meta
                    end
           end)
  end.

(** The first other advertised server that lists the grant. *)
Fixpoint fallback_among (candidates : list string) (authServer grantType : string) : io (option (string * object)) :=
  match candidates with
  | [] => Ret None
  | candidate :: candidates =>
      if (candidate =? authServer)%string then fallback_among candidates authServer grantType
      else
        do answer <- fetchOAuthMetadata candidate;
        match answer with
        | Ok candidateMeta =>
            if contains (grantTypesSupported candidateMeta).1 grantType then Ret (Some (candidate, candidateMeta))
            else fallback_among candidates authServer grantType
        | Err _ => fallback_among candidates authServer grantType
        end
  end.

Definition fallbackAuthorizationServer (metadata : object) (authServer : string) (oauthMeta : object) (grantType : string) :
    io (option (string * object)) :=
  if lacks_grant oauthMeta grantType then fallback_among (authorizationServersFromMetadata metadata) authServer grantType
  else Ret None.

(** ** The issuer of an issuance *)

(** The findings of the ARF on an issuer, and those of the catalogue. *)
Context (issuerARFCheck : object -> list X509Cert -> list string -> list why).
Context (catalogueFindings : object -> list string -> list why).

(** [checkIssuer]: the findings it reports. *)
Definition checkIssuer (mode : ValidationMode) (metadata : object) (signerChain : list X509Cert) (configurations : list string) : result why (list why) :=
  let findings := issuerARFCheck metadata signerChain configurations in
  let catalogue := catalogueFindings metadata configurations in
  match findings with
  | [] => Ok catalogue
  | _ => unless (reportDeviation mode (Fmt "the issuer does not authenticate as the ARF requires: %s" findings)) (Ok (findings ++ catalogue))
  end.

(** The metadata, and the findings reported on the way. *)
Definition loadIssuerMetadata (mode : ValidationMode) (arf : bool) (issuer : string) (configurations : list string) :
    io (result why (object * list why)) :=
  do doc <- fetchIssuerMetadataDocument issuer arf (mkPolicy (bool_decide (mode = Strict)));
  Ret (match doc with
       | Err e => Err (Fmt "fetching issuer metadata: %w" [e])
       | Ok doc =>
           let? findings := checkIssuer mode (md_metadata doc) (md_chain doc) configurations in
           Ok (md_metadata doc, option_list (md_problem doc) ++ findings)
       end).
End documents.
