(* ===== verification/VciAuth.v ===== *)
(** * VciAuth: what the wallet signs for an issuer

    src/internal/wallet/issuance_authcode.go: the choice of the client
    authentication, the client attestation and its proof of possession, the
    client assertion, the DPoP proof, the key attestation; createProofJWT and
    buildCredentialProofs of issuance.go and createProofJWTs of
    issuance_batch.go; the keys' JWKs of internal/mock.

    json.Marshal and ECDSA are the class Signer; a JWT reads the clock once.
    Warnings are not modelled. *)

From stdpp Require Import base list strings gmap.
From Stdlib Require Import ZArith Lia Ascii.
From S2P Require Import Prelude GoStrings GoValue Numbers Format Validity SDJWT WalletState DCQL Present Certs IssuerAuth UriQuery.
From S2P Require Import Conc VciNet VciMetadata.

Local Open Scope Z_scope.

(** ** The wallet as a client *)

Definition VCIVersion11 : string := "1.1".

(** [VCIVersion.ABCADraft] and [UsesInteractiveAuthorization] *)
Definition ABCADraft (v : string) : Z := if (v =? VCIVersion11)%string then 8 else 7.
Definition UsesInteractiveAuthorization (v : string) : bool := (v =? VCIVersion11)%string.

(** The settings and keys the issuance reads.  The signing material of the
    wallet provider, with the chain's certificates as [x5c] carries them, is
    [None] when the wallet has no issuer key or chain; making it can fail. *)
Record vci_wallet `{Signer} := mkVciWallet {
  vw_Mode : ValidationMode; vw_HAIP : bool; vw_ARF : bool; vw_Version : string;
  vw_VCIClientID : string; vw_VCIRedirectURI : string; vw_BaseURL : string; vw_ServingOrigin : string; vw_IssuerURL : string;
  vw_ForceClientAttestation : bool; vw_KeyAttestationLevel : string;
  vw_HolderKey : PrivateKey; vw_provider : option (result why (PrivateKey * list string)) }.

Definition ClientAuthAttestation : string := "attestation".
Definition ClientAuthPrivateKeyJWT : string := "private_key_jwt".

Section auth.
Context {json : Json} {hash : Hash} {jose : Jose} {pki : Pki} {signer : Signer} {w : World}.
(** [json.Unmarshal] into a struct with the member error *)
Context (decode_error : string -> option string).
(** [key.PublicKey] *)
Context (public : PrivateKey -> ECKey).
(** [url.Parse], and the text of the URL without query and fragment *)
Context (url_without_query : string -> option string).
Context (wallet : vci_wallet).

Definition attestsClient (oauthMeta : object) : bool :=
  let method := detectTokenEndpointAuthMethod oauthMeta in
  if vw_ForceClientAttestation wallet || contains ["attest_jwt_client_auth"; "attest_jwt_client_auth_dpop"] method then true
  else if negb (vw_HAIP wallet) then false
  else if decide (vw_Mode wallet = Strict) then true
  else (method =? "")%string.

Definition attestationClientAuth (oauthMeta : object) (tokenEndpoint : string) : ClientAuthentication :=
  WalletState.mkClientAuth ClientAuthAttestation (oauthIssuer oauthMeta tokenEndpoint) (get_string oauthMeta "challenge_endpoint")
    (ABCADraft (vw_Version wallet)) (usesCombinedPoP oauthMeta) "".

(** [None] is unauthenticated access. *)
Definition resolveClientAuthentication (method : string) (oauthMeta : object) (tokenEndpoint : string) : option ClientAuthentication :=
  if (method =? ClientAuthPrivateKeyJWT)%string
  then Some (WalletState.mkClientAuth ClientAuthPrivateKeyJWT (oauthIssuer oauthMeta tokenEndpoint) "" 0 false "")
  else if attestsClient oauthMeta then Some (attestationClientAuth oauthMeta tokenEndpoint)
  else None.

Definition walletClientIdentifier : string :=
  let id := trim_space (vw_VCIClientID wallet) in if (id =? "")%string then trim_space (vw_BaseURL wallet) else id.

(** ** Signing *)

Definition sign_why (e : present_error) : why :=
  match e with
  | MarshalFailed => Text "marshaling: %w"
  | NoPrivateKey => Text "no private key"
  | _ => Text "signing: %w"
  end.

Definition signJWT (header payload : object) (key : PrivateKey) : result why string :=
  match Sign header payload (Some key) with Ok jwt => Ok jwt | Err e => Err (sign_why e) end.

(** The members of a JWK; a key without coordinates has none. *)
Definition SigningJWKMap (key : ECKey) : object :=
  let '(crv, kty, x, y) := default ("", "", "", "") (PublicKeyJWKMap key) in
  [("kty", VString kty); ("crv", VString crv); ("x", VString x); ("y", VString y); ("kid", VString (KeyIDForPublicKey key));
   ("use", VString "sig"); ("alg", VString "ES256")].

(** [mock.PublicKeyJWK], decoded; the text of its error is left out. *)
Definition PublicKeyJWK (key : ECKey) : object :=
  match PublicKeyJWKMap key with
  | Some (crv, kty, x, y) => [("crv", VString crv); ("kty", VString kty); ("x", VString x); ("y", VString y)]
  | None => [("error", VString "")]
  end.

Definition unix_value (t : time) : value := VInt KInt64 (Unix t).
Definition five_minutes_later (t : time) : value := VInt KInt64 (Unix (add t (5 * Minute))).
Definition string_list (l : list string) : value := VArr (VString <$> l).

(** *** createClientAssertionJWT *)
Definition createClientAssertionJWT (key : PrivateKey) (clientID audience : string) : io (result why string) :=
  do now <- time_Now;
  do jti <- randomBase64URL 18;
  Ret (signJWT [("alg", VString "ES256"); ("typ", VString "JWT"); ("kid", VString (KeyIDForPublicKey (public key)))]
    [("iss", VString clientID); ("sub", VString clientID); ("aud", VString audience); ("iat", unix_value now);
     ("exp", five_minutes_later now); ("jti", VString jti)] key).

(** *** createDPoPProofJWT *)

Definition dpopTargetURI (raw : string) : string := default raw (url_without_query raw).

(** [strings.ToUpper] on the ASCII letters: a method is one of the code's constants. *)
Definition upper_ascii (c : ascii) : ascii :=
  let n := nat_of_ascii c in if (97 <=? n)%nat && (n <=? 122)%nat then ascii_of_nat (n - 32) else c.
Fixpoint to_upper (s : string) : string := match s with "" => "" | String c s' => String (upper_ascii c) (to_upper s') end.

Definition nonempty_claim (k v : string) : object := if (v =? "")%string then [] else [(k, VString v)].

Definition dpop_header (key : PrivateKey) : object :=
  [("alg", VString "ES256"); ("typ", VString "dpop+jwt"); ("jwk", VObj (SigningJWKMap (public key)))].

Definition dpop_payload (now : time) (jti method target nonce accessToken challenge : string) : object :=
  [("jti", VString jti); ("htm", VString (to_upper method)); ("htu", VString target); ("iat", unix_value now)]
  ++ nonempty_claim "nonce" nonce ++ nonempty_claim "challenge" challenge
  ++ (if (accessToken =? "")%string then [] else [("ath", VString (EncodeBase64URL (sha256 accessToken)))]).

Definition createDPoPProofJWT (key : PrivateKey) (method targetURL nonce accessToken challenge : string) : io (result why string) :=
  do jti <- randomBase64URL 18;
  do now <- time_Now;
  Ret (signJWT (dpop_header key) (dpop_payload now jti method (dpopTargetURI targetURL) nonce accessToken challenge) key).

(** ** Client attestation *)

Definition attestation_header (key : ECKey) (x5c : list string) : object :=
  [("alg", VString "ES256"); ("typ", VString "oauth-client-attestation+jwt"); ("x5c", string_list x5c)]
  ++ nonempty_claim "kid" (KeyIDForPublicKey key).

Definition attestation_payload (now : time) (clientID : string) : object :=
  [("sub", VString clientID); ("iat", unix_value now); ("exp", five_minutes_later now);
   ("cnf", VObj [("jwk", VObj (SigningJWKMap (public (vw_HolderKey wallet))))]); ("iss", VString (vw_IssuerURL wallet));
   ("nbf", unix_value now)].

Definition pop_header : object :=
  [("alg", VString "ES256"); ("typ", VString "oauth-client-attestation-pop+jwt"); ("jwk", VObj (SigningJWKMap (public (vw_HolderKey wallet))))].

Definition pop_payload (now : time) (jti audience clientID challenge : string) : object :=
  [("aud", VString audience); ("iat", unix_value now); ("jti", VString jti); ("iss", VString clientID); ("nbf", unix_value now);
   ("exp", five_minutes_later now)] ++ nonempty_claim "challenge" challenge.

Definition createClientAttestationHeaders (auth : ClientAuthentication) (clientID challenge : string) : io (result why (gmap string string)) :=
  match vw_provider wallet with
  | None => Ret (Err (Text "wallet issuer signing material is not configured"))
  | Some (Err e) => Ret (Err e)
  | Some (Ok (signingKey, x5c)) =>
      do now <- time_Now;
      match signJWT (attestation_header (public signingKey) x5c) (attestation_payload now clientID) signingKey with
      | Err e => Ret (Err e)
      | Ok attestation =>
          if auth_CombinedPoP auth then Ret (Ok {[ "OAuth-Client-Attestation" := attestation ]})
          else
            do now <- time_Now;
            do jti <- randomBase64URL 18;
            Ret (let? pop := signJWT pop_header (pop_payload now jti (auth_Audience auth) clientID challenge) (vw_HolderKey wallet) in
                 Ok (<["OAuth-Client-Attestation-PoP" := pop]> {[ "OAuth-Client-Attestation" := attestation ]}))
      end
  end.

Definition fetchAttestationChallenge (endpoint : string) : io (result why string) :=
  if (endpoint =? "")%string then Ret (Ok "")
  else
    match NewRequest "POST" endpoint with
    | Some e => Ret (Err (Fmt "creating challenge request: %w" [e]))
    | None =>
        do answer <- doIssuanceRequest (mkOut "POST" endpoint {[ "Accept" := "application/json" ]} "");
        Ret (match answer with
             | Err e => Err (Fmt "challenge request: %w" [e])
             | Ok resp =>
                 if negb (in_StatusCode resp =? 200)
                 then Err (Fmt "challenge endpoint returned HTTP %d: %s" [Text (itoa (in_StatusCode resp)); body_text resp "issuer response"])
                 else match decode_remote resp "challenge response" with
                      | Err e => Err (Fmt "parsing challenge response: %w" [e])
                      | Ok payload =>
                          let challenge := get_string payload "attestation_challenge" in
                          Ok (if (challenge =? "")%string then get_string payload "challenge" else challenge)
                      end
             end)
    end.

(** *** The attestor of one request *)

Record clientAttestor := mkAttestor { at_auth : ClientAuthentication; at_clientID : string; at_challenge : string }.

Definition attestorFor (auth : option ClientAuthentication) (clientID : string) : option clientAttestor :=
  match auth with
  | Some a => if (auth_Method a =? ClientAuthAttestation)%string then Some (mkAttestor a clientID "") else None
  | None => None
  end.

(** A challenge of a response is used once; without one the endpoint gives a
    fresh one. *)
Definition requestChallenge (a : clientAttestor) : io (clientAttestor * result why string) :=
  let spent := mkAttestor (at_auth a) (at_clientID a) "" in
  if negb (at_challenge a =? "")%string then Ret (spent, Ok (at_challenge a))
  else
    do challenge <- fetchAttestationChallenge (auth_ChallengeEndpoint (at_auth a));
    Ret (spent, match challenge with Ok c => Ok c | Err e => Err (Fmt "fetching client attestation challenge: %w" [e]) end).

Definition headers (a : clientAttestor) : io (clientAttestor * result why (gmap string string)) :=
  do (a, challenge) <- (if auth_CombinedPoP (at_auth a) then Ret (a, Ok "") else requestChallenge a);
  match challenge with
  | Err e => Ret (a, Err e)
  | Ok challenge =>
      do made <- createClientAttestationHeaders (at_auth a) (at_clientID a) challenge;
      Ret (a, match made with Ok h => Ok h | Err e => Err (Fmt "creating client attestation headers: %w" [e]) end)
  end.

Definition dpopChallenge (a : clientAttestor) : io (clientAttestor * result why string) :=
  if auth_CombinedPoP (at_auth a) then requestChallenge a else Ret (a, Ok "").

Definition observe (a : clientAttestor) (resp : incoming) : clientAttestor :=
  let value := trim_space (header_of resp "OAuth-Client-Attestation-Challenge") in
  if (value =? "")%string then a else mkAttestor (at_auth a) (at_clientID a) value.

Definition retryAfterRefusal (a : clientAttestor) (body : string) : bool :=
  match decode_error body with
  | None => false
  | Some "use_attestation_challenge" => negb (at_challenge a =? "")%string
  | Some "use_fresh_attestation" => true
  | Some _ => false
  end.

(** private_key_jwt authenticates with form fields. *)
Definition Set_field (form : values) (k v : string) : values := <[k := [v]]> form.

Definition applyClientAuthentication (form : values) (auth : option ClientAuthentication) (clientID : string) : io (result why values) :=
  match auth with
  | Some a =>
      if (auth_Method a =? ClientAuthPrivateKeyJWT)%string then
        do assertion <- createClientAssertionJWT (vw_HolderKey wallet) clientID (auth_Audience a);
        Ret (match assertion with
             | Err e => Err (Fmt "creating client assertion: %w" [e])
             | Ok assertion =>
                 Ok (Set_field (Set_field form "client_assertion_type" "urn:ietf:params:oauth:client-assertion-type:jwt-bearer")
                       "client_assertion" assertion)
             end)
      else Ret (Ok form)
  | None => Ret (Ok form)
  end.

(** ** Key attestations and key proofs *)

Definition key_attestation_payload (now : time) (keys : list PrivateKey) (claims : object) (cNonce : string) : object :=
  [("iat", unix_value now); ("nbf", unix_value now); ("exp", five_minutes_later now);
   ("attested_keys", VArr ((fun key => VObj (SigningJWKMap (public key))) <$> keys))] ++ claims ++ nonempty_claim "nonce" cNonce.

(** The empty text when none is required. *)
Definition createKeyAttestation (metadata : object) (configID cNonce : string) (proofKeys : list PrivateKey) : io (result why string) :=
  let '(requirement, required) := credentialKeyAttestationRequirement metadata configID in
  if negb required then Ret (Ok "")
  else
    match vw_provider wallet with
    | None => Ret (Err (Text "wallet issuer signing material is not configured"))
    | Some (Err e) => Ret (Err e)
    | Some (Ok (signingKey, x5c)) =>
        let keys := match proofKeys with [] => [vw_HolderKey wallet] | _ => proofKeys end in
        let header := [("alg", VString "ES256"); ("typ", VString "key-attestation+jwt"); ("x5c", string_list x5c)]
                      ++ nonempty_claim "kid" (KeyIDForPublicKey (public signingKey)) in
        do now <- time_Now;
        Ret (match signJWT header (key_attestation_payload now keys (keyAttestationClaims (vw_KeyAttestationLevel wallet) requirement) cNonce) signingKey with
             | Ok jwt => Ok jwt
             | Err e => Err (Fmt "creating key attestation JWT: %w" [e])
             end)
    end.

Definition proof_header (key : PrivateKey) (extraHeader : object) : object :=
  fold_left (fun h kv => GoValue.set kv.1 kv.2 h) extraHeader
    [("alg", VString "ES256"); ("typ", VString "openid4vci-proof+jwt"); ("jwk", VObj (PublicKeyJWK (public key)))].

Definition proof_payload (now : time) (audience clientID cNonce : string) : object :=
  [("aud", VString audience); ("iat", unix_value now)] ++ nonempty_claim "iss" clientID ++ nonempty_claim "nonce" cNonce.

Definition createProofJWT (holderKey : PrivateKey) (audience clientID cNonce : string) (extraHeader : object) : io (result why string) :=
  do now <- time_Now;
  Ret (signJWT (proof_header holderKey extraHeader) (proof_payload now audience clientID cNonce) holderKey).

Fixpoint createProofJWTs (keys : list PrivateKey) (audience clientID cNonce : string) (extraHeader : object) : io (result why (list string)) :=
  match keys with
  | [] => Ret (Ok [])
  | key :: keys =>
      try proof <- createProofJWT key audience clientID cNonce extraHeader;
      try proofs <- createProofJWTs keys audience clientID cNonce extraHeader;
      Ret (Ok (proof :: proofs))
  end.

Record credentialProofs := mkProofs { cp_Type : string; cp_Values : list string }.

(** The inputs of a credential request that a retry needs again; its DPoP nonce
    is passed along. *)
Record credentialRequestAttempt := mkAttempt {
  cq_metadata : object; cq_endpoint : string; cq_issuer : string; cq_configID : string; cq_accessToken : string; cq_authScheme : string;
  cq_credentialIdentifier : string; cq_credentialConfigurationID : string; cq_responseEncryption : option object;
  cq_dpopKey : option PrivateKey; cq_proofKeys : list PrivateKey; cq_clientID : string }.

(** One proof per key; a required key attestation comes in the header of one
    proof by the first key. *)
Definition attested_proof (attestation : string) (keys : list PrivateKey) : object * list PrivateKey :=
  if (attestation =? "")%string then ([], keys) else ([("key_attestation", VString attestation)], take 1 keys).

Definition buildCredentialProofs (a : credentialRequestAttempt) (cNonce : string) : io (result why credentialProofs) :=
  match proofSigningAlgFinding (cq_metadata a) (cq_configID a) (vw_HAIP wallet), vw_Mode wallet with
  | Some finding, Strict => Ret (Err finding)
  | _, _ =>
      do attestation <- createKeyAttestation (cq_metadata a) (cq_configID a) cNonce (cq_proofKeys a);
      match attestation with
      | Err e => Ret (Err (Fmt "building key attestation: %w" [e]))
      | Ok attestation =>
          if (credentialProofType (cq_metadata a) (cq_configID a) =? "attestation")%string then Ret (Ok (mkProofs "attestation" [attestation]))
          else
            let '(header, keys) := attested_proof attestation (cq_proofKeys a) in
            do proofs <- createProofJWTs keys (cq_issuer a) (cq_clientID a) cNonce header;
            Ret (match proofs with
                 | Ok proofs => Ok (mkProofs "jwt" proofs)
                 | Err e => Err (Fmt "creating proof JWT: %w" [e])
                 end)
      end
  end.
End auth.
