(* ===== verification/VciRequests.v ===== *)
(** * VciRequests: the wallet's requests to an issuer

    src/internal/wallet/issuance_authcode.go: doDPoPRequest with its retries,
    the token request and its answer, the nonce endpoint, the credential request,
    one deferred request and the notification; issuance.go: credential response
    encryption, c_nonce and the retry of an invalid nonce; issuance_steps.go:
    requestAccessToken, refreshAccessToken and requestCredential.

    A pointer to a DPoP nonce is an argument and a result; [None] is nil.  Logs
    and debug warnings are not modelled.  JSON decoding into structs and the
    compact JWE of requests and responses are arguments. *)

From stdpp Require Import base list strings gmap.
From Stdlib Require Import ZArith Lia Ascii.
From S2P Require Import Prelude GoStrings GoValue Numbers Format Validity SDJWT WalletState DCQL Batch Present Certs IssuerAuth UriQuery Jwe.
From S2P Require Import Conc Deferred MdocPresent VciNet VciMetadata VciAuth.

Local Open Scope Z_scope.

Section requests.
Context {json : Json} {hash : Hash} {jose : Jose} {pki : Pki} {crypto : JweCrypto} {signer : Signer} {w : World}.
Context (decode_error : string -> option string) (public : PrivateKey -> ECKey) (url_without_query : string -> option string).
Context (wallet : vci_wallet).
(** Error documents: error, error_description and the raw message; a message is
    a text or a list of texts. *)
Context (decode_refusal : string -> option (string * string * string)) (decode_text : string -> option string) (decode_texts : string -> option (list string)).
(** The holder key for ECDH, and the random choices of one encryption. *)
Context (holder_ecdh : option EcdhPriv) (choices : world -> world * (option EcdhPriv * (nat -> option string))).
(** [json.Marshal] of a request *)
Context (marshal_request : object -> option string).

Abbreviation mode := (vw_Mode wallet).

(** ** doDPoPRequest *)

Record dpop_request := mkDpopRequest {
  dr_method : string; dr_target : string; dr_contentType : string; dr_accept : string; dr_body : string; dr_authScheme : string;
  dr_token : string; dr_key : option PrivateKey }.

(** The body, the status and the error, with the nonce afterwards. *)
Record exchanged := mkExchanged { ex_body : string; ex_status : Z; ex_err : option why; ex_nonce : option string }.

Definition updateDPoPNonce (target : option string) (resp : incoming) : option string :=
  match target with
  | None => None
  | Some old => let value := trim_space (header_of resp "DPoP-Nonce") in Some (if (value =? "")%string then old else value)
  end.

Definition needsDPoPRetry (statusCode : Z) (resp : incoming) (body : string) : bool :=
  if statusCode <? 400 then false
  else if negb (trim_space (header_of resp "DPoP-Nonce") =? "")%string then true
  else match read_map body with
       | None => false
       | Some parsed => (get_string parsed "error" =? "use_dpop_nonce")%string
       end.

Definition optional_header (name value : string) (h : gmap string string) : gmap string string :=
  if (value =? "")%string then h else <[name := value]> h.

(** The headers that do not depend on the attempt. *)
Definition fixed_headers (q : dpop_request) : gmap string string :=
  let h := optional_header "Content-Type" (dr_contentType q) ∅ in
  let h := <["Accept" := if (dr_accept q =? "")%string then "application/json, application/jwt" else dr_accept q]> h in
  if negb (dr_token q =? "")%string && negb (dr_authScheme q =? "")%string
  then <["Authorization" := dr_authScheme q +:+ " " +:+ dr_token q]> h else h.

(** The attestation headers. *)
Definition attest (attestor : option clientAttestor) (h : gmap string string) : io (option clientAttestor * result why (gmap string string)) :=
  match attestor with
  | None => Ret (None, Ok h)
  | Some a => do (a, made) <- headers public wallet a; Ret (Some a, match made with Ok m => Ok (m ∪ h) | Err e => Err e end)
  end.

(** The DPoP header. *)
Definition prove (q : dpop_request) (nonce : option string) (attestor : option clientAttestor) (h : gmap string string) :
    io (option clientAttestor * result why (gmap string string)) :=
  match dr_key q with
  | None => Ret (attestor, Ok h)
  | Some key =>
      do (attestor, challenge) <- (match attestor with
                                   | None => Ret (None, Ok "")
                                   | Some a => do (a, c) <- dpopChallenge a; Ret (Some a, c)
                                   end);
      match challenge with
      | Err e => Ret (attestor, Err e)
      | Ok challenge =>
          do proof <- createDPoPProofJWT public url_without_query key (dr_method q) (dr_target q) (default "" nonce) (dr_token q) challenge;
          Ret (attestor, match proof with
                         | Ok jwt => Ok (<["DPoP" := jwt]> h)
                         | Err e => Err (Fmt "creating DPoP proof: %w" [e])
                         end)
      end
  end.

(** A retry of the loop, from the nonce and the attestor of the last answer. *)
Abbreviation retry := (option string -> option clientAttestor -> io exchanged).

(** What an answer leads to: each kind of retry, unless it was used. *)
Definition judge_answer (nonce : option string) (attestor : option clientAttestor) (resp : incoming)
    (dpop_retry attestation_retry : option retry) : io exchanged :=
  match ReadRemoteBody resp "issuer response" with
  | Err e => Ret (mkExchanged "" (in_StatusCode resp) (Some (Fmt "reading response: %w" [e])) nonce)
  | Ok body =>
      let nonce := updateDPoPNonce nonce resp in
      let attestor := (fun a => observe a resp) <$> attestor in
      let failed := 400 <=? in_StatusCode resp in
      let finished :=
        Ret (mkExchanged body (in_StatusCode resp)
               (if failed then Some (Fmt "HTTP %d: %s" [Text (itoa (in_StatusCode resp)); Text body]) else None) nonce) in
      let after_dpop :=
        match attestation_retry, attestor with
        | Some again, Some a => if failed && retryAfterRefusal decode_error a body then again nonce attestor else finished
        | _, _ => finished
        end in
      match dpop_retry with
      | Some again => if needsDPoPRetry (in_StatusCode resp) resp body then again nonce attestor else after_dpop
      | None => after_dpop
      end
  end.

(** One pass of the loop.  A retry whose flag is set is [None]. *)
Definition attempt (q : dpop_request) (dpop_retry attestation_retry : option retry) : retry := fun nonce attestor =>
  let failed e := Ret (mkExchanged "" 0 (Some e) nonce) in
  match NewRequest (dr_method q) (dr_target q) with
  | Some e => failed (Fmt "creating request: %w" [e])
  | None =>
      do (attestor, made) <- attest attestor (fixed_headers q);
      match made with
      | Err e => failed e
      | Ok h =>
          do (attestor, made) <- prove q nonce attestor h;
          match made with
          | Err e => failed e
          | Ok h =>
              do answer <- doIssuanceRequest (mkOut (dr_method q) (dr_target q) h (dr_body q));
              match answer with
              | Err e => failed (Fmt "request: %w" [e])
              | Ok resp => judge_answer nonce attestor resp dpop_retry attestation_retry
              end
          end
      end
  end.

(** Both retries used, one used, none used. *)
Definition last_attempt (q : dpop_request) : retry := attempt q None None.
Definition after_dpop_retry (q : dpop_request) : retry := attempt q None (Some (last_attempt q)).
Definition after_attestation_retry (q : dpop_request) : retry := attempt q (Some (last_attempt q)) None.

Definition doDPoPRequest (q : dpop_request) (nonce : option string) (attestor : option clientAttestor) : io exchanged :=
  attempt q (Some (after_dpop_retry q)) (Some (after_attestation_retry q)) nonce attestor.

(** ** The token endpoint *)

Definition errorBodyMessage (raw : string) : string :=
  if (raw =? "")%string then ""
  else match decode_text raw with
       | Some single => trim_space single
       | None => match decode_texts raw with Some many => trim_space (join ", " many) | None => "" end
       end.

(** A body that is no refusal gives the empty text. *)
Definition oauthErrorMessage (body : string) : string :=
  match decode_refusal body with
  | None | Some ("", _, _) => ""
  | Some (error, description, message) =>
      let reason := if (description =? "")%string then errorBodyMessage message else description in
      if (reason =? "")%string || (reason =? error)%string then error else error +:+ ": " +:+ reason
  end.

(** What an answer to a form is taken as. *)
Definition form_answer (r : exchanged) : result why object :=
  match ex_err r with
  | Some e => let message := oauthErrorMessage (ex_body r) in Err (if (message =? "")%string then e else Text message)
  | None =>
      match read_map (ex_body r) with
      | None => Err (Text "parsing JSON response: %w")
      | Some out =>
          let refusal := oauthErrorMessage (ex_body r) in
          if (refusal =? "")%string then Ok out else Err (Text refusal)
      end
  end.

Definition form_request (target : string) (form : values) (key : option PrivateKey) (accessToken : string) : dpop_request :=
  mkDpopRequest "POST" target "application/x-www-form-urlencoded" "" (Values_Encode form) "" accessToken key.

Definition postFormWithDPoP (target : string) (form : values) (key : option PrivateKey) (accessToken : string) (nonce : option string)
    (attestor : option clientAttestor) : io (option string * result why object) :=
  do r <- doDPoPRequest (form_request target form key accessToken) nonce attestor;
  Ret (ex_nonce r, form_answer r).

Definition accessTokenScheme (tokenResp : object) (sentDPoP : bool) : string :=
  let tokenType := get_string tokenResp "token_type" in
  if EqualFold tokenType "DPoP" then "DPoP"
  else if (tokenType =? "")%string && sentDPoP then "DPoP" else "Bearer".

Definition checkTokenType (tokenResp : object) (sentDPoP : bool) : option why :=
  let tokenType := get_string tokenResp "token_type" in
  if (tokenType =? "")%string
  then reportServerDeviation mode (Fmt "the token response omitted token_type, which RFC 6749 §5.1 requires (assuming %s)"
                                     [Text (accessTokenScheme tokenResp sentDPoP)])
  else if negb (EqualFold tokenType "Bearer") && negb (EqualFold tokenType "DPoP")
  then reportServerDeviation mode (Fmt "the token response token_type %q is neither Bearer (RFC 6749) nor DPoP (RFC 9449), treating it as Bearer"
                                     [Text tokenType])
  else None.

Definition tokenGrantRenewal (tokenResp : object) : string * Z :=
  (get_string tokenResp "refresh_token",
   match as_float64 (index tokenResp "expires_in") with
   | Some s => if f64_ltb (float64_of_Z 0) s then int_of_float64 s else 0
   | None => 0
   end).

Definition dpopKeyForRenewal (r : CredentialRenewal) : option PrivateKey :=
  if ren_UseDPoP r then Some (vw_HolderKey wallet) else None.

(** A grant with the response it was read from; one that fails a check is
    returned beside the error. *)
Record token_outcome := mkTokenOutcome { to_grant : option (accessGrant * object); to_err : option why; to_nonce : option string }.

Definition grant_of_response (resp : object) (sentDPoP : bool) : (accessGrant * object) * option why :=
  let '(refresh, expires) := tokenGrantRenewal resp in
  let access := get_string resp "access_token" in
  let unchecked := (mkGrant access "" refresh expires, resp) in
  if (access =? "")%string then (unchecked, Some (Text "the token response carried no access_token"))
  else match checkTokenType resp sentDPoP with
       | Some e => (unchecked, Some e)
       | None => ((mkGrant access (accessTokenScheme resp sentDPoP) refresh expires, resp), None)
       end.

Definition requestAccessToken (r : CredentialRenewal) (form : values) (nonce : string) : io token_outcome :=
  do authenticated <- applyClientAuthentication public wallet form (ren_ClientAuth r) (ren_ClientID r);
  match authenticated with
  | Err e => Ret (mkTokenOutcome None (Some e) (Some nonce))
  | Ok form =>
      let key := dpopKeyForRenewal r in
      do (nonce, answer) <- postFormWithDPoP (ren_TokenEndpoint r) form key "" (Some nonce) (attestorFor (ren_ClientAuth r) (ren_ClientID r));
      match answer with
      | Err e => Ret (mkTokenOutcome None (Some e) nonce)
      | Ok resp =>
          let '(grant, refused) := grant_of_response resp (bool_decide (is_Some key)) in
          Ret (mkTokenOutcome (Some grant) refused nonce)
      end
  end.

Definition refresh_form (r : CredentialRenewal) : values :=
  let form := Set_field (Set_field ∅ "grant_type" "refresh_token") "refresh_token" (ren_RefreshToken r) in
  if (ren_ClientID r =? "")%string then form else Set_field form "client_id" (ren_ClientID r).

Definition refreshAccessToken (r : CredentialRenewal) : io token_outcome := requestAccessToken r (refresh_form r) "".

(** ** The nonce endpoint *)

Definition nonceRequest (method ep : string) (nonce : option string) : io (option string * (string * Z)) :=
  do r <- doDPoPRequest (mkDpopRequest method ep "" "" "" "" "" None) nonce None;
  Ret (ex_nonce r, match ex_err r with
                   | Some _ => ("", ex_status r)
                   | None => match read_map (ex_body r) with
                             | None => ("", ex_status r)
                             | Some resp => (get_string resp "c_nonce", ex_status r)
                             end
                   end).

(** The empty text when there is no nonce. *)
Definition fetchNonce (metadata : object) (nonce : option string) : io (option string * string) :=
  let ep := get_string metadata "nonce_endpoint" in
  if (ep =? "")%string then Ret (nonce, "")
  else
    do (nonce, (cNonce, status)) <- nonceRequest "POST" ep nonce;
    if (cNonce =? "")%string && (status =? 405) && bool_decide (mode = Debug) then
      do (nonce, (getNonce, _)) <- nonceRequest "GET" ep nonce;
      Ret (nonce, getNonce)
    else Ret (nonce, cNonce).

Definition issuanceChallenge (metadata tokenResp : object) (issuer : string) (nonce : option string) : io (option string * result why string) :=
  do (nonce, cNonce) <- fetchNonce metadata nonce;
  let ep := get_string metadata "nonce_endpoint" in
  if negb (cNonce =? "")%string then Ret (nonce, Ok cNonce)
  else if negb (ep =? "")%string then
    Ret (nonce, match mode with
                | Strict => Err (Fmt "the nonce endpoint %s that %s advertises returned no c_nonce (OID4VCI 1.0 §7.1)" [Text ep; Text issuer])
                | Debug => Ok ""
                end)
  else
    Ret (nonce, match mode with Strict => Ok "" | Debug => Ok (get_string tokenResp "c_nonce") end).

(** ** Credential request and response encryption *)

Definition preferredCredentialResponseEncryptionAlgs : list string := ["ECDH-ES"].
Definition preferredCredentialResponseEncryptionEncs : list string := ["A128GCM"; "A256GCM"; "A128CBC-HS256"].
Definition preferredCredentialRequestEncryptionEncs : list string := ["A256GCM"; "A128GCM"; "A128CBC-HS256"].

(** The decoder yields no [[]string]. *)
Definition supportedStringValues (raw : value) : list string := nonempty_strings (default [] (as_arr raw)).

Definition firstSupportedString (raw : value) (preferred : list string) : string :=
  let values := supportedStringValues raw in
  default "" (find_map (fun want => if contains values want then Some want else None) preferred).

Record credentialRequestEncryptionParams := mkEncryption { ce_key : EcPub; ce_kid : string; ce_alg : string; ce_enc : string }.

Definition credentialRequestEncryptionRequired (raw : object) : bool := default false (as_bool (index raw "encryption_required")).

(** The first usable key of the set. *)
Definition usable_key (enc : string) (keyRaw : value) : option credentialRequestEncryptionParams :=
  jwk ← as_obj keyRaw;
  let use := get_string jwk "use" in
  if negb (use =? "")%string && negb (use =? "enc")%string then None
  else if negb (get_string jwk "alg" =? "ECDH-ES")%string then None
  else
    let kid := get_string jwk "kid" in
    if (kid =? "")%string then None
    else match ecdsaPublicKeyFromJWK mode (get_string jwk "x") (get_string jwk "y") with
         | Err _ => None
         | Ok (key, _) => Some (mkEncryption key kid (get_string jwk "alg") enc)
         end.

Definition selectCredentialRequestEncryption (metadata : object) : result why (option credentialRequestEncryptionParams) :=
  match as_obj (index metadata "credential_request_encryption") with
  | None => Ok None
  | Some raw =>
      let unusable reason := if credentialRequestEncryptionRequired raw then Err (Text reason) else Ok None in
      let enc := firstSupportedString (index raw "enc_values_supported") preferredCredentialRequestEncryptionEncs in
      if (enc =? "")%string then unusable "credential request encryption is required but no supported enc value was advertised"
      else match as_obj (index raw "jwks") with
           | None => unusable "credential request encryption is required but jwks is missing"
           | Some jwks =>
               match as_arr (index jwks "keys") with
               | None | Some [] => unusable "credential request encryption is required but jwks.keys is missing"
               | Some keys =>
                   match find_map (usable_key enc) keys with
                   | Some p => Ok (Some p)
                   | None => unusable "credential request encryption is required but no usable ECDH-ES encryption key was advertised"
                   end
               end
           end
  end.

Definition publicCredentialResponseEncryptionJWK (key : ECKey) (alg : string) : object :=
  let '(crv, kty, x, y) := default ("", "", "", "") (PublicKeyJWKMap key) in
  [("kty", VString kty); ("crv", VString crv); ("x", VString x); ("y", VString y); ("kid", VString (KeyIDForPublicKey key));
   ("use", VString "enc"); ("alg", VString alg)].

(** [None] when no encrypted response is asked for. *)
Definition buildCredentialResponseEncryptionRequest (metadata : object) (holderKey : PrivateKey) : result why (option object) :=
  match as_obj (index metadata "credential_response_encryption") with
  | None => Ok None
  | Some raw =>
      let required := default false (as_bool (index raw "encryption_required")) in
      let alg := firstSupportedString (index raw "alg_values_supported") preferredCredentialResponseEncryptionAlgs in
      let enc := firstSupportedString (index raw "enc_values_supported") preferredCredentialResponseEncryptionEncs in
      if (alg =? "")%string || (enc =? "")%string then
        if required then Err (Text "issuer requires an encrypted credential response but advertised no alg or enc value the wallet supports") else Ok None
      else
        let? requestEncryption := selectCredentialRequestEncryption metadata in
        match requestEncryption with
        | Some _ => Ok (Some [("jwk", VObj (publicCredentialResponseEncryptionJWK (public holderKey) alg)); ("enc", VString enc)])
        | None =>
            if required
            then Err (Text "issuer requires an encrypted credential response but published no usable credential_request_encryption key, and the credential request must be encrypted whenever credential_response_encryption is sent")
            else Ok None
        end
  end.

Definition do_choose (s : net) : net * (option EcdhPriv * (nat -> option string)) :=
  let '(a, c) := choices (around s) in (mkNet a (exchanges s), c).

(** The body and its content type. *)
Definition prepareCredentialRequestBody (metadata reqBody : object) : io (result why (string * string)) :=
  match marshal_request reqBody with
  | None => Ret (Err (Text "marshaling request: %w"))
  | Some bodyJSON =>
      match selectCredentialRequestEncryption metadata with
      | Err e => Ret (Err e)
      | Ok None => Ret (Ok (bodyJSON, "application/json"))
      | Ok (Some p) =>
          do (eph, rand_bytes) <- atomic do_choose;
          Ret (match encryptJWE rand_bytes eph bodyJSON (ce_key p) (ce_kid p) (ce_alg p) (ce_enc p) "json" None None with
               | Err e => Err (Fmt "encrypting credential request: %w" [e])
               | Ok (jwe, _) => Ok (jwe, "application/jwt")
               end)
      end
  end.

Definition parseCredentialResponseBody (body : string) : result why object :=
  let trimmed := trim_space body in
  match read_map trimmed with
  | Some out => Ok out
  | None =>
      match DecryptCompactJWE trimmed holder_ecdh with
      | Err e => Err (Fmt "credential response is neither valid JSON nor decryptable compact JWE: %w" [e])
      | Ok decrypted =>
          match read_map decrypted with
          | Some out => Ok out
          | None => Err (Text "parsing decrypted credential response JSON: %w")
          end
      end
  end.

(** ** The credential endpoint *)

Definition credentialRequestBody (proofs : credentialProofs) (identifier configurationID : string) (encryption : option object) : object :=
  [("proofs", VObj [(cp_Type proofs, string_list (cp_Values proofs))])]
  ++ (if negb (identifier =? "")%string then [("credential_identifier", VString identifier)]
      else nonempty_claim "credential_configuration_id" configurationID)
  ++ match encryption with Some e => [("credential_response_encryption", VObj e)] | None => [] end.

Definition credentialAccept (encryption : option object) : string :=
  match encryption with Some _ => "application/json, application/jwt" | None => "application/json" end.

(** A Credential Error Response, or another failure. *)
Inductive credential_failure := ErrorResponse (code description : string) | Failure (e : why).

Definition failure_text (f : credential_failure) : why :=
  match f with
  | ErrorResponse code description =>
      if (description =? "")%string then Fmt "credential error: %s" [Text code]
      else Fmt "credential error: %s: %s" [Text code; Text description]
  | Failure e => e
  end.

Definition credential_answer (r : exchanged) : result credential_failure object :=
  let out := parseCredentialResponseBody (ex_body r) in
  let code := match out with Ok out => get_string out "error" | Err _ => "" end in
  if negb (code =? "")%string
  then Err (ErrorResponse code (match out with Ok out => get_string out "error_description" | Err _ => "" end))
  else match ex_err r, out with
       | Some e, _ => Err (Failure e)
       | None, Err e => Err (Failure e)
       | None, Ok out => Ok out
       end.

(** [requestCredentialWithDPoP] and [sendCredentialRequest] *)
Definition sendCredentialRequest (a : credentialRequestAttempt) (proofs : credentialProofs) (nonce : option string) :
    io (option string * result credential_failure object) :=
  let reqBody := credentialRequestBody proofs (cq_credentialIdentifier a) (cq_credentialConfigurationID a) (cq_responseEncryption a) in
  do prepared <- prepareCredentialRequestBody (cq_metadata a) reqBody;
  match prepared with
  | Err e => Ret (nonce, Err (Failure e))
  | Ok (body, contentType) =>
      do r <- doDPoPRequest (mkDpopRequest "POST" (cq_endpoint a) contentType (credentialAccept (cq_responseEncryption a)) body
                               (cq_authScheme a) (cq_accessToken a) (cq_dpopKey a)) nonce None;
      Ret (ex_nonce r, credential_answer r)
  end.

Definition isInvalidNonceError (f : credential_failure) : bool :=
  match f with ErrorResponse code _ => (code =? "invalid_nonce")%string | Failure _ => false end.

Definition requestCredentialWithNonceRetry (a : credentialRequestAttempt) (proofs : credentialProofs) (nonce : option string) :
    io (option string * result credential_failure object) :=
  do (nonce, answer) <- sendCredentialRequest a proofs nonce;
  match answer with
  | Ok out => Ret (nonce, Ok out)
  | Err f =>
      if negb (isInvalidNonceError f) then Ret (nonce, Err f)
      else
        do (nonce, cNonce) <- fetchNonce (cq_metadata a) nonce;
        if (cNonce =? "")%string then Ret (nonce, Err f)
        else
          do rebuilt <- buildCredentialProofs public wallet a cNonce;
          match rebuilt with
          | Err e => Ret (nonce, Err (Failure e))
          | Ok retryProofs => sendCredentialRequest a retryProofs nonce
          end
  end.

(** The identifier, and the configuration it is for when that is another one. *)
Fixpoint identifier_among (details : list value) (configID firstID firstConfig : string) : string * string :=
  match details with
  | [] => if negb (firstID =? "")%string && negb (configID =? "")%string && negb (firstConfig =? configID)%string
          then (firstID, firstConfig) else (firstID, "")
  | detail :: details =>
      match as_obj detail with
      | None => identifier_among details configID firstID firstConfig
      | Some d =>
          match get_arr d "credential_identifiers" with
          | VString id :: _ =>
              let config := get_string d "credential_configuration_id" in
              if negb (configID =? "")%string && (config =? configID)%string then (id, "")
              else if (firstID =? "")%string then identifier_among details configID id config
              else identifier_among details configID firstID firstConfig
          | _ => identifier_among details configID firstID firstConfig
          end
      end
  end.

Definition resolveCredentialIdentifier (tokenResp : object) (configID : string) : string * string :=
  identifier_among (get_arr tokenResp "authorization_details") configID "" "".

Record credentialRequest := mkCredentialRequest {
  rq_renewal : CredentialRenewal; rq_metadata : object; rq_grant : accessGrant * object; rq_proofKeys : list PrivateKey }.

Definition attempt_of (r : credentialRequest) (encryption : option object) : credentialRequestAttempt :=
  let renewal := rq_renewal r in
  let configID := ren_ConfigurationID renewal in
  let identifier := (resolveCredentialIdentifier (rq_grant r).2 configID).1 in
  mkAttempt (rq_metadata r) (ren_CredentialEndpoint renewal) (ren_Issuer renewal) configID (accessToken (rq_grant r).1) (authScheme (rq_grant r).1)
    identifier (if (identifier =? "")%string then configID else "") encryption (dpopKeyForRenewal renewal) (rq_proofKeys r) (ren_ClientID renewal).

Definition requestCredential (r : credentialRequest) (nonce : option string) : io (option string * result why object) :=
  do (nonce, challenge) <- issuanceChallenge (rq_metadata r) (rq_grant r).2 (ren_Issuer (rq_renewal r)) nonce;
  match challenge with
  | Err e => Ret (nonce, Err e)
  | Ok cNonce =>
      match buildCredentialResponseEncryptionRequest (rq_metadata r) (vw_HolderKey wallet) with
      | Err e => Ret (nonce, Err e)
      | Ok encryption =>
          let a := attempt_of r encryption in
          do built <- buildCredentialProofs public wallet a cNonce;
          match built with
          | Err e => Ret (nonce, Err e)
          | Ok proofs =>
              do (nonce, answer) <- requestCredentialWithNonceRetry a proofs nonce;
              Ret (nonce, match answer with Ok out => Ok out | Err f => Err (Fmt "requesting credential: %w" [failure_text f]) end)
          end
      end
  end.

(** ** Deferred requests *)

(** The interval when the issuer is not ready. *)
Definition deferredIssuancePending (out : object) : option Z :=
  if negb (get_string out "transaction_id" =? "")%string && bool_decide (credentialStringsFromResponse out = [])
  then Some (deferredInterval out) else None.

Inductive deferred_failure := StillPendingError (interval : Z) | DeferredFailed (e : why).

Definition deferred_answer (r : exchanged) : result deferred_failure object :=
  match parseCredentialResponseBody (ex_body r), ex_err r with
  | Err _, Some e => Err (DeferredFailed e)
  | Err e, None => Err (DeferredFailed (Fmt "parsing deferred credential response: %w" [e]))
  | Ok out, reqErr =>
      match deferredIssuancePending out with
      | Some interval => Err (StillPendingError interval)
      | None =>
          let errMsg := get_string out "error" in
          if negb (errMsg =? "")%string
          then Err (DeferredFailed (Fmt "deferred credential error: %s: %s" [Text errMsg; Text (get_string out "error_description")]))
          else match reqErr with Some e => Err (DeferredFailed e) | None => Ok out end
      end
  end.

Definition deferredCredentialAttempt (metadata : object) (endpoint accessToken authScheme transactionID : string)
    (responseEncryption : option object) (key : option PrivateKey) (nonce : option string) : io (option string * result deferred_failure object) :=
  let reqBody := [("transaction_id", VString transactionID)]
    ++ match responseEncryption with Some e => [("credential_response_encryption", VObj e)] | None => [] end in
  do prepared <- prepareCredentialRequestBody metadata reqBody;
  match prepared with
  | Err e => Ret (nonce, Err (DeferredFailed e))
  | Ok (body, contentType) =>
      do r <- doDPoPRequest (mkDpopRequest "POST" endpoint contentType (credentialAccept responseEncryption) body authScheme accessToken key) nonce None;
      Ret (ex_nonce r, deferred_answer r)
  end.

(** ** Notifications *)

Definition notificationRequestBody (notificationID : string) : object :=
  [("notification_id", VString notificationID); ("event", VString "credential_accepted")].

Definition sendNotificationWithDPoP (endpoint accessToken authScheme notificationID : string) (key : option PrivateKey) (nonce : option string) :
    io (option string * option why) :=
  match marshal_request (notificationRequestBody notificationID) with
  | None => Ret (nonce, Some (Text "marshaling notification request: %w"))
  | Some body =>
      do r <- doDPoPRequest (mkDpopRequest "POST" endpoint "application/json" "" body authScheme accessToken key) nonce None;
      Ret (ex_nonce r,
           match ex_err r with
           | Some e => Some e
           | None => if (ex_status r <? 200) || (300 <=? ex_status r)
                     then Some (Fmt "notification endpoint returned HTTP %d" [Text (itoa (ex_status r))]) else None
           end)
  end.

(** A failure is only logged. *)
Definition notifyCredentialAccepted (metadata credResp : object) (accessToken authScheme : string) (key : option PrivateKey) (nonce : option string) :
    io (option string) :=
  let notificationID := get_string credResp "notification_id" in
  let endpoint := get_string metadata "notification_endpoint" in
  if (notificationID =? "")%string || (endpoint =? "")%string then Ret nonce
  else do (nonce, _) <- sendNotificationWithDPoP endpoint accessToken authScheme notificationID key nonce; Ret nonce.
End requests.
