(* ===== verification/VciExchangeFacts.v ===== *)
(** * VciExchangeFacts: how the wallet retries

    doDPoPRequest against any server: what goes over the wire, in which order
    and how often, and what the result says about the last answer. *)

From stdpp Require Import base list strings gmap.
From Stdlib Require Import ZArith Lia Ascii.
From S2P Require Import Prelude GoStrings GoValue Numbers Format Validity SDJWT WalletState DCQL Present Certs IssuerAuth UriQuery.
From S2P Require Import Conc Jwe VciNet VciMetadata VciAuth VciRequests.

Local Open Scope Z_scope.

Abbreviation talk := (list (outgoing * result why incoming)).

Section exchange.
Context {json : Json} {hash : Hash} {jose : Jose} {pki : Pki} {crypto : JweCrypto} {signer : Signer} {w : World}.
Context (decode_error : string -> option string) (public : PrivateKey -> ECKey) (url_without_query : string -> option string).
Context (wallet : vci_wallet).

(** ** The wire protocol *)

Definition challenge_request (ep : string) : outgoing := mkOut "POST" ep {[ "Accept" := "application/json" ]} "".

(** The client authentication and the client of an attestor. *)
Abbreviation identity := (option (ClientAuthentication * string)).
Definition who (at_ : option clientAttestor) : identity := (fun a => (at_auth a, at_clientID a)) <$> at_.
Definition endpoint_of (id : identity) : option string := (fun i => auth_ChallengeEndpoint i.1) <$> id.
Definition combined (id : identity) : bool := from_option (fun i => auth_CombinedPoP i.1) false id.

(** The attestation headers of a request: a fresh attestation of the holder key
    by the wallet provider, and a fresh proof of possession unless the DPoP
    proof is one. *)
Definition attested_for (id : identity) (h : gmap string string) : Prop :=
  match id with
  | None => h !! "OAuth-Client-Attestation" = None /\ h !! "OAuth-Client-Attestation-PoP" = None
  | Some (auth, clientID) =>
      exists key x5c now jwt,
        vw_provider wallet = Some (Ok (key, x5c)) /\ read_at now /\
        signJWT (attestation_header (public key) x5c) (attestation_payload public wallet now clientID) key = Ok jwt /\
        h !! "OAuth-Client-Attestation" = Some jwt /\
        if auth_CombinedPoP auth then h !! "OAuth-Client-Attestation-PoP" = None
        else exists now jti challenge pop, read_at now /\ drawn 18 jti /\
               signJWT (pop_header public wallet) (pop_payload now jti (auth_Audience auth) clientID challenge) (vw_HolderKey wallet) = Ok pop /\
               h !! "OAuth-Client-Attestation-PoP" = Some pop
  end.

(** The DPoP header of a request of [q], made with the nonce [n]. *)
Definition proved_for (q : dpop_request) (n : option string) (h : gmap string string) : Prop :=
  match dr_key q with
  | None => h !! "DPoP" = None
  | Some key =>
      exists now jti challenge jwt, read_at now /\ drawn 18 jti /\
        signJWT (dpop_header public key)
          (dpop_payload now jti (dr_method q) (dpopTargetURI url_without_query (dr_target q)) (default "" n) (dr_token q) challenge) key = Ok jwt /\
        h !! "DPoP" = Some jwt
  end.

(** The headers of each attempt's own proofs. *)
Definition attestation_names : list string := ["OAuth-Client-Attestation"; "OAuth-Client-Attestation-PoP"].
Definition own_names : list string := "DPoP" :: attestation_names.

(** A request of [q]. *)
Definition made_for (q : dpop_request) (id : identity) (n : option string) (r : outgoing) : Prop :=
  o_Method r = dr_method q /\ o_URL r = dr_target q /\ o_Body r = dr_body q /\
  (forall k, k ∉ own_names -> o_Header r !! k = fixed_headers q !! k) /\ attested_for id (o_Header r) /\ proved_for q n (o_Header r).

(** The nonce after an answer. *)
Definition nonce_after (n : option string) (a : result why incoming) : option string :=
  match a with
  | Ok resp => match ReadRemoteBody resp "issuer response" with Ok _ => updateDPoPNonce n resp | Err _ => n end
  | Err _ => n
  end.

(** Nothing, or one request for a challenge. *)
Definition at_most_a_challenge (ep : option string) (c : talk) : Prop :=
  c = [] \/ exists ep' a, ep = Some ep' /\ c = [(challenge_request ep', a)].

(** At most [k] requests of [q], each with the nonce of the last answer before
    it and after at most one request for a challenge. *)
Inductive tells (q : dpop_request) (id : identity) : nat -> option string -> talk -> option string -> Prop :=
| tells_end k n : tells q id k n [] n
| tells_lost k n c : at_most_a_challenge (endpoint_of id) c -> tells q id (S k) n c n
| tells_attempt k n c r a l n' :
    at_most_a_challenge (endpoint_of id) c -> made_for q id n r -> tells q id k (nonce_after n a) l n' -> tells q id (S k) n (c ++ (r, a) :: l) n'.

(** What a result without an error says. *)
Definition answered_by (r : exchanged) (l : talk) : Prop :=
  ex_err r = None ->
  exists l0 rq resp, l = l0 ++ [(rq, Ok resp)] /\ in_StatusCode resp < 400 /\ in_Broken resp = None /\
    ex_body r = in_Body resp /\ ex_status r = in_StatusCode resp.

(** ** One pass *)

Lemma fetch_challenge_runs ep : runs (fetchAttestationChallenge ep) (fun _ l => at_most_a_challenge (Some ep) l).
Proof.
  unfold fetchAttestationChallenge. destruct (ep =? "")%string; [apply runs_ret; by left|].
  destruct (NewRequest "POST" ep); [apply runs_ret; by left|].
  eapply runs_bind; [apply runs_send|].
  - intros answer. instantiate (1 := fun _ l => at_most_a_challenge (Some ep) l). right. by exists ep, answer.
  - intros a l Hl. apply runs_ret. by rewrite app_nil_r.
Qed.

Lemma requestChallenge_runs a :
  runs (requestChallenge a) (fun r l => who (Some r.1) = who (Some a) /\ at_most_a_challenge (endpoint_of (who (Some a))) l).
Proof.
  unfold requestChallenge. destruct (negb _); [apply runs_ret; split; [done|by left]|].
  eapply runs_bind; [apply fetch_challenge_runs|]. intros c l Hl. apply runs_ret. rewrite app_nil_r. done.
Qed.

(** The keys of the attestation headers, and their values. *)
Lemma attestation_headers_runs auth clientID challenge :
  runs (createClientAttestationHeaders public wallet auth clientID challenge)
    (fun r l => l = [] /\ forall h, r = Ok h -> attested_for (Some (auth, clientID)) h /\ forall k, k ∉ attestation_names -> h !! k = None).
Proof.
  unfold createClientAttestationHeaders. destruct (vw_provider wallet) as [[[key x5c]|e]|] eqn:Ep; [|by apply runs_ret..].
  eapply runs_bind; [apply clock_runs|]. intros now ? [-> Hnow]. destruct (signJWT _ _ _) as [jwt|e] eqn:Es; [|by apply runs_ret].
  destruct (auth_CombinedPoP auth) eqn:Ec.
  - apply runs_ret. split; [done|]. intros h [= <-]. split.
    + exists key, x5c, now, jwt. rewrite Ec. split_and!; [done..|by rewrite lookup_singleton_eq|by rewrite lookup_singleton_ne].
    + intros k Hk. rewrite lookup_singleton_ne; [done|]. set_solver.
  - eapply runs_bind; [apply clock_runs|]. intros now' ? [-> Hnow']. eapply runs_bind; [apply random_runs|]. intros jti ? [-> Hjti].
    apply runs_ret. split; [done|]. intros h. destruct (signJWT (pop_header _ _) _ _) as [pop|e] eqn:Epop; [|done]. intros [= <-]. split.
    + exists key, x5c, now, jwt. rewrite Ec. split_and!; [done..|by rewrite lookup_insert_ne, lookup_singleton_eq|].
      exists now', jti, challenge, pop. by rewrite lookup_insert_eq.
    + intros k Hk. rewrite lookup_insert_ne by set_solver. rewrite lookup_singleton_ne; [done|]. set_solver.
Qed.

(** The headers of an attestor: a challenge is fetched for a dedicated proof
    only. *)
Lemma headers_runs a :
  runs (headers public wallet a) (fun r l =>
    who (Some r.1) = who (Some a) /\ at_most_a_challenge (endpoint_of (who (Some a))) l /\ (combined (who (Some a)) = true -> l = []) /\
    forall h, r.2 = Ok h -> attested_for (who (Some a)) h /\ forall k, k ∉ attestation_names -> h !! k = None).
Proof.
  unfold headers. eapply runs_bind with
    (R := fun r l => who (Some r.1) = who (Some a) /\ at_most_a_challenge (endpoint_of (who (Some a))) l /\ (combined (who (Some a)) = true -> l = [])).
  - destruct (auth_CombinedPoP (at_auth a)) eqn:E.
    + apply runs_ret. split_and!; [done|by left|done].
    + eapply runs_mono; [apply requestChallenge_runs|]. intros r l [? ?]. split_and!; [done|done|]. intros Hc. simpl in Hc. congruence.
  - intros [a' [challenge|e]] l (Ha & Hl & Hc); [|apply runs_ret; rewrite app_nil_r; by split_and!].
    eapply runs_bind; [apply attestation_headers_runs|]. intros made l' [-> Hh]. apply runs_ret. rewrite app_nil_r.
    split_and!; [done|done|by auto|].
    intros h. destruct made as [h'|]; [|done]. intros [= <-]. rewrite <- Ha. by apply Hh.
Qed.

Lemma attested_ext id h h' : (forall k, k ∈ attestation_names -> h' !! k = h !! k) -> attested_for id h -> attested_for id h'.
Proof.
  intros Hk. unfold attested_for. rewrite !Hk by set_solver. done.
Qed.

Lemma attest_runs at_ h :
  (forall k, k ∈ attestation_names -> h !! k = None) ->
  runs (attest public wallet at_ h) (fun r l =>
    who r.1 = who at_ /\ at_most_a_challenge (endpoint_of (who at_)) l /\ (combined (who at_) = true -> l = []) /\
    forall h', r.2 = Ok h' -> attested_for (who at_) h' /\ forall k, k ∉ attestation_names -> h' !! k = h !! k).
Proof.
  intros Hn. unfold attest. destruct at_ as [a|].
  2: { apply runs_ret. split_and!; [done|by left|done|]. intros h' [= <-]. split; [|done]. split; apply Hn; set_solver. }
  eapply runs_bind; [apply headers_runs|]. intros [a' made] l (Ha & Hl & Hc & Hh). apply runs_ret. rewrite app_nil_r.
  split_and!; [done..|].
  destruct made as [m|]; [|done]. intros h' [= <-]. destruct (Hh m eq_refl) as [H1 H2]. split.
  - eapply attested_ext; [|exact H1]. intros k Hk. rewrite lookup_union, Hn by done. by rewrite (right_id_L None _).
  - intros k Hk. by rewrite lookup_union, H2, (left_id_L None _).
Qed.

Lemma dpop_proof_runs key method target nonce token challenge :
  runs (createDPoPProofJWT public url_without_query key method target nonce token challenge) (fun r l => l = [] /\ exists now jti, read_at now /\ drawn 18 jti /\
    r = signJWT (dpop_header public key) (dpop_payload now jti method (dpopTargetURI url_without_query target) nonce token challenge) key).
Proof.
  unfold createDPoPProofJWT. eapply runs_bind; [apply random_runs|]. intros jti ? [-> Hjti]. eapply runs_bind; [apply clock_runs|]. intros now ? [-> Hnow].
  apply runs_ret. split; [done|]. by exists now, jti.
Qed.

Lemma prove_runs q n at_ h :
  h !! "DPoP" = None ->
  runs (prove public url_without_query q n at_ h) (fun r l =>
    who r.1 = who at_ /\ at_most_a_challenge (endpoint_of (who at_)) l /\ (combined (who at_) = false -> l = []) /\
    forall h', r.2 = Ok h' -> proved_for q n h' /\ forall k, k <> "DPoP" -> h' !! k = h !! k).
Proof.
  intros Hh. unfold prove, proved_for. destruct (dr_key q) as [key|]; [|apply runs_ret; split_and!; [done|by left|done|by intros h' [= <-]]].
  eapply runs_bind with (R := fun r l => who r.1 = who at_ /\ at_most_a_challenge (endpoint_of (who at_)) l /\ (combined (who at_) = false -> l = [])).
  { destruct at_ as [a|]; [|apply runs_ret; split_and!; [done|by left|done]]. unfold dpopChallenge.
    destruct (auth_CombinedPoP (at_auth a)) eqn:E.
    - eapply runs_bind; [apply requestChallenge_runs|]. intros [a' c] l [Ha Hl]. apply runs_ret. rewrite app_nil_r.
      split_and!; [done|done|]. intros Hc. simpl in Hc. congruence.
    - cbn [bind]. apply runs_ret. split_and!; [done|by left|done]. }
  intros [a' [challenge|e]] l (Ha & Hl & Hc); [|apply runs_ret; rewrite app_nil_r; by split_and!].
  eapply runs_bind; [apply dpop_proof_runs|]. intros proof l' [-> (now & jti & Hnow & Hjti & ->)]. apply runs_ret. rewrite app_nil_r.
  split_and!; [done|done|by auto|]. intros h'. destruct (signJWT _ _ key) as [jwt|] eqn:E; [|done]. intros [= <-].
  split; [exists now, jti, challenge, jwt; by rewrite lookup_insert_eq|]. intros k Hk. by rewrite lookup_insert_ne.
Qed.

Lemma fixed_names q : fixed_headers q !! "DPoP" = None /\ forall k, k ∈ attestation_names -> fixed_headers q !! k = None.
Proof.
  unfold fixed_headers, optional_header. split; [by repeat case_match; rewrite !lookup_insert_ne|].
  intros k Hk. unfold attestation_names in Hk. assert (k = "OAuth-Client-Attestation" \/ k = "OAuth-Client-Attestation-PoP") as [-> | ->] by set_solver;
    by repeat case_match; rewrite !lookup_insert_ne.
Qed.

(** What a retry is expected to do. *)
Definition continues (q : dpop_request) (id : identity) (k : nat) (again : option (option string -> option clientAttestor -> io exchanged)) : Prop :=
  forall f, again = Some f -> forall n at_, who at_ = id ->
  runs (f n at_) (fun r l => tells q id k n l (ex_nonce r) /\ answered_by r l).

Lemma continues_None q id k : continues q id k None.
Proof. done. Qed.

Lemma answered_app r c l : answered_by r l -> answered_by r (c ++ l).
Proof. intros H He. destruct (H He) as (l0 & rq & resp & -> & ?). exists (c ++ l0), rq, resp. by rewrite app_assoc. Qed.

(** The judgement of the answer to [r]. *)
Lemma judge_runs q id k n at_ rq resp dpop_retry attestation_retry :
  continues q id k dpop_retry -> continues q id k attestation_retry -> who at_ = id ->
  runs (judge_answer decode_error n at_ resp dpop_retry attestation_retry)
    (fun r l => tells q id k (nonce_after n (Ok resp)) l (ex_nonce r) /\ answered_by r ((rq, Ok resp) :: l)).
Proof.
  intros Hd Ha Hep. unfold judge_answer, nonce_after.
  destruct (ReadRemoteBody resp _) as [body|e] eqn:Eb; [|apply runs_ret; split; [constructor|done]].
  assert (Hbody : in_Broken resp = None /\ body = in_Body resp).
  { unfold ReadRemoteBody in Eb. destruct (in_Broken resp); [done|]. destruct (_ <? _); simplify_eq. done. }
  assert (Hep' : who ((fun a => observe a resp) <$> at_) = id).
  { rewrite <- Hep. destruct at_ as [a|]; [|done]. simpl. unfold observe. by destruct (_ =? "")%string. }
  generalize dependent ((fun a => observe a resp) <$> at_). intros at' Hep'.
  assert (Hretry : forall again, continues q id k (Some again) ->
    runs (again (updateDPoPNonce n resp) at') (fun r l => tells q id k (updateDPoPNonce n resp) l (ex_nonce r) /\ answered_by r ((rq, Ok resp) :: l))).
  { intros again Hc. eapply runs_mono; [by apply (Hc again)|]. intros r l [Ht Hr]. split; [done|]. by apply (answered_app r [(rq, Ok resp)]). }
  set (finished := Ret (mkExchanged _ _ _ _)).
  assert (Hfin : runs finished (fun r l => tells q id k (updateDPoPNonce n resp) l (ex_nonce r) /\ answered_by r ((rq, Ok resp) :: l))).
  { apply runs_ret. split; [constructor|]. intros He. exists [], rq, resp. destruct Hbody as [? ->].
    simpl in He. destruct (Z.leb_spec 400 (in_StatusCode resp)); [done|]. done. }
  assert (Hatt : runs (match attestation_retry, at' with
                       | Some again, Some a => if (400 <=? in_StatusCode resp) && retryAfterRefusal decode_error a body
                                               then again (updateDPoPNonce n resp) at' else finished
                       | _, _ => finished end)
                   (fun r l => tells q id k (updateDPoPNonce n resp) l (ex_nonce r) /\ answered_by r ((rq, Ok resp) :: l))).
  { destruct attestation_retry as [again|]; [|done]. destruct at' as [a|]; [|done]. destruct (_ && _); [|done]. by apply Hretry. }
  destruct dpop_retry as [again|]; [|exact Hatt]. destruct (needsDPoPRetry _ _ _); [by apply Hretry|exact Hatt].
Qed.

Lemma attempt_runs q id k n at_ dpop_retry attestation_retry :
  continues q id k dpop_retry -> continues q id k attestation_retry -> who at_ = id ->
  runs (attempt decode_error public url_without_query wallet q dpop_retry attestation_retry n at_)
    (fun r l => tells q id (S k) n l (ex_nonce r) /\ answered_by r l).
Proof.
  intros Hd Ha <-. unfold attempt. destruct (NewRequest _ _); [apply runs_ret; split; [constructor|done]|].
  destruct (fixed_names q) as [Hfd Hfn].
  eapply runs_bind; [by apply (attest_runs at_ (fixed_headers q))|]. intros [a1 [h|e]] c1 (Hs1 & Hc1 & Hd1 & Hh1).
  2: { apply runs_ret. rewrite app_nil_r. split; [by apply tells_lost|done]. }
  destruct (Hh1 h eq_refl) as (Hat & Hk1). simpl in Hs1.
  eapply runs_bind; [apply (prove_runs q n a1 h); rewrite Hk1; [done|unfold attestation_names; set_solver]|]. intros [a2 made] c2 (Hs2 & Hc2 & Hd2 & Hh2). simpl in Hs2. rewrite Hs1 in Hs2, Hc2, Hd2.
  assert (Hc : at_most_a_challenge (endpoint_of (who at_)) (c1 ++ c2)).
  { destruct (combined (who at_)); [by rewrite Hd1|by rewrite Hd2, app_nil_r]. }
  destruct made as [h'|e]; [|apply runs_ret; rewrite app_nil_r; split; [by apply tells_lost|done]].
  destruct (Hh2 h' eq_refl) as [Hproof Hk].
  set (rq := mkOut (dr_method q) (dr_target q) h' (dr_body q)).
  assert (Hmade : made_for q (who at_) n rq).
  { split_and!; [done..| | |done]; simpl; [intros k' Hk'; unfold own_names in Hk'; rewrite Hk by set_solver; apply Hk1; set_solver|]. eapply attested_ext; [|exact Hat]. intros k' Hk'. apply Hk. intros ->. set_solver. }
  eapply runs_bind; [apply runs_send with (Q := fun a l => l = [(rq, a)]); done|]. intros a l ->.
  destruct a as [resp|e].
  - eapply runs_mono; [by apply (judge_runs q (who at_) k n a2 rq resp dpop_retry attestation_retry)|].
    intros r l [Ht Hr]. simpl. rewrite (app_assoc c1 c2). split; [by apply tells_attempt|]. by apply answered_app.
  - apply runs_ret. simpl. rewrite (app_assoc c1 c2). split; [|done]. apply tells_attempt; [done..|]. constructor.
Qed.

Lemma challenge_length ep c : at_most_a_challenge ep c -> (length c <= 1)%nat.
Proof. intros [->|(? & ? & _ & ->)]; simpl; lia. Qed.

Lemma tells_length q id k n l n' : tells q id k n l n' -> (length l <= 2 * k)%nat.
Proof.
  induction 1 as [| |k n c r a l n' Hc _ _ IH]; [simpl; lia|apply challenge_length in H; lia|].
  rewrite length_app. simpl. apply challenge_length in Hc. lia.
Qed.

(** Every exchange is a request for a challenge or a request of [q]. *)
Lemma tells_made q id k n l n' :
  tells q id k n l n' -> Forall (fun e => (exists ep, e.1 = challenge_request ep) \/ exists m, made_for q id m e.1) l.
Proof.
  assert (Hc : forall ep c, at_most_a_challenge ep c -> Forall (fun e => (exists ep, e.1 = challenge_request ep) \/ exists m, made_for q id m e.1) c).
  { intros ep c [->|(ep' & a & _ & ->)]; [constructor|]. apply Forall_singleton. left. by exists ep'. }
  induction 1 as [| |k n c r a l n' Hat Hm _ IH]; [constructor|by apply (Hc (endpoint_of id))|].
  apply Forall_app_2; [by apply (Hc (endpoint_of id))|]. constructor; [|exact IH]. right. by exists n.
Qed.

Lemma doDPoPRequest_runs q n at_ :
  runs (doDPoPRequest decode_error public url_without_query wallet q n at_) (fun r l => tells q (who at_) 3 n l (ex_nonce r) /\ answered_by r l).
Proof.
  assert (Hlast : forall id, continues q id 1 (Some (last_attempt decode_error public url_without_query wallet q))).
  { intros id f [= <-] n' at' He. by apply attempt_runs. }
  unfold doDPoPRequest. apply attempt_runs; [| |done]; intros f [= <-] n' at' He; apply attempt_runs; by auto using continues_None.
Qed.

(** C15: whatever a server answers, one request of the wallet ends after at most
    three attempts of the same method, URL, body and access token, each preceded
    by at most one request for an attestation challenge; every attempt carries a
    client attestation and a DPoP proof of its own, the proof made for this
    request with the nonce the server gave last, and the nonce the wallet keeps
    is that of the last answer.  A result without an error is the complete body
    of the last answer, whose status was below 400. *)
Theorem requests_are_bounded q n at_ :
  runs (doDPoPRequest decode_error public url_without_query wallet q n at_) (fun r l =>
    tells q (who at_) 3 n l (ex_nonce r) /\ (length l <= 6)%nat /\ answered_by r l).
Proof.
  eapply runs_mono; [apply doDPoPRequest_runs|]. intros r l [Ht Ha]. split_and!; [done| |done]. by apply tells_length in Ht.
Qed.
End exchange.
