(* ===== verification/VciFlow.v ===== *)
(** * VciFlow: an issuance from the offer to the credential

    src/internal/wallet: the authorization code flow with PAR, PKCE, the browser
    callback or a direct call, and the Interactive Authorization
    (issuance_authcode.go, issuance_interactive.go, authcode_callback.go); the
    offer, the pre-authorized flow and the end both share (issuance.go,
    issuance_steps.go, issuance_batch.go); renewing a credential
    (credential_refresh.go).

    Arguments: reading the offer at its URI, answering an OpenID4VP request
    during authorization, the checks of received credentials, their display and
    what importing them stores.  The registry of callbacks holds the one of this
    flow: [browse] gives the callbacks that reach the wallet before the timeout.
    Logs, and the verification status shown with a result, are not modelled. *)

From stdpp Require Import base list strings gmap.
From Stdlib Require Import ZArith Lia Ascii.
From S2P Require Import Prelude GoStrings GoValue Numbers Format Validity SDJWT WalletState DCQL Batch Present Certs IssuerAuth Storage UriQuery Jwe.
From S2P Require Import Requests ClientAuth RequestChecks Conc Deferred MdocPresent VciNet VciMetadata VciAuth VciRequests.

Local Open Scope Z_scope.

(** [url.URL.Port] and [Path] *)
Definition Port (host : string) : string :=
  match last_index ":" host with
  | Some n => if valid_optional_port (drop_bytes n host) then drop_bytes (S n) host else ""
  | None => ""
  end.
Definition url_path (u : url) : string := default (u_EscapedPath u) (PathUnescape (u_EscapedPath u)).

Definition maxInteractiveAuthorizationRounds : nat := 8.
Definition interactionTypePresentation : string := "urn:openid:dcp:ia:openid4vp_presentation".
Definition interactionTypeAuthViaWeb : string := "urn:openid:dcp:ia:auth_via_web".
Definition errorInsufficientAuthorization : string := "insufficient_authorization".
Definition errorRedirectToWeb : string := "redirect_to_web".

Definition Get (v : values) (k : string) : string := first_of v k.

Section flow.
Context {json : Json} {hash : Hash} {jose : Jose} {pki : Pki} {crypto : JweCrypto} {signer : Signer} {w : World}.
Context (decode_error : string -> option string) (public : PrivateKey -> ECKey) (url_without_query : string -> option string).
Context (wallet : vci_wallet).
Context (decode_refusal : string -> option (string * string * string)) (decode_text : string -> option string) (decode_texts : string -> option (list string)).
Context (holder_ecdh : option EcdhPriv) (choices : world -> world * (option EcdhPriv * (nat -> option string))).
Context (marshal_request : object -> option string).
Context (sdjwt_Parse : string -> result why Token).
Context (issuerARFCheck : object -> list X509Cert -> list string -> list why) (catalogueFindings : object -> list string -> list why).
Context (ip_loopback : string -> bool).
(** The prompt of a sign-in: [None] when nothing opens it, else the callbacks
    that arrive in time, in their order. *)
Context (browse : string -> string -> world -> world * option (list values)).
(** A GET that follows no redirect, and [url.Parse] with [Query] of a redirect *)
Context (redirect_query : string -> option values).
(** [runPresentationInteraction] for an endpoint, its response, prior consent and owner *)
Context (presentation_interaction : string -> object -> bool -> string -> io (result why values)).
(** The checks of a credential response, with their findings; the binding of a
    credential to a key, the PEM of a key and the parser of [sortBatch] *)
Context (checkReceivedCredentials : object -> string -> result why (list why)).
Context (binds : string -> PrivateKey -> bool) (pem : PrivateKey -> option string) (readable : string -> string -> bool).
Context (resolveCredentialDisplay : object -> string -> option CredentialDisplay).
(** why parsing or storing what was received fails *)
Context (importing : string -> sortedBatch -> list PrivateKey -> option why).
(** [ecdsa.GenerateKey] *)
Context (generate_key : world -> world * option PrivateKey).
(** reading the offer at its URI *)
Context (read_offer : string -> io (result why parsed)).

Abbreviation mode := (vw_Mode wallet).
Abbreviation holder := (vw_HolderKey wallet).
Abbreviation attestor_for := (attestorFor).
Abbreviation post_form := (postFormWithDPoP decode_error public url_without_query wallet decode_refusal decode_text decode_texts).
Abbreviation dpop_exchange := (doDPoPRequest decode_error public url_without_query wallet).

(** ** The authorization response *)

Definition validateAuthorizationCodeResponse (v : values) (expectedState expectedIssuer : string) (issRequired : bool) : option why :=
  let expectedState := trim_space expectedState in
  let state := Get v "state" in
  let issuer := Get v "iss" in
  let state_refused :=
    if (expectedState =? "")%string then None
    else if (state =? "")%string
    then reportServerDeviation mode (Text "the authorization response omitted state, which RFC 6749 §4.1.2 returns when the request carried one")
    else if negb (state =? expectedState)%string
    then reportServerDeviation mode (Fmt "the authorization response state %q does not match the request's %q" [Text state; Text expectedState])
    else None in
  match state_refused with
  | Some e => Some e
  | None =>
      if (issuer =? "")%string && issRequired
      then reportServerDeviation mode (Text "the authorization response omitted iss, which RFC 9207 requires when the authorization server advertises authorization_response_iss_parameter_supported")
      else if negb (issuer =? "")%string && negb (expectedIssuer =? "")%string && negb (sameIdentifier issuer expectedIssuer)
      then reportServerDeviation mode (Fmt "the authorization response iss %q does not match the expected issuer %q" [Text issuer; Text expectedIssuer])
      else None
  end.

Definition authorizationRequestURL (endpoint clientID requestURI : string) (params : values) : result why string :=
  let v := if negb (requestURI =? "")%string
           then Set_field (Set_field ∅ "client_id" clientID) "request_uri" requestURI
           else Set_field (filter (fun e => e.2 <> []) params) "client_id" clientID in
  let authURL := endpoint +:+ "?" +:+ Values_Encode v in
  unless (validateAbsoluteURI "authorization_endpoint" authURL) (Ok authURL).

Definition sameLoopbackHost (a b : string) : bool :=
  EqualFold (trim_space a) (trim_space b) || IsLoopback ip_loopback a && IsLoopback ip_loopback b.

Definition canUseInteractiveAuthorizationCallback (redirectURI : string) : bool :=
  let base := trim_space (vw_BaseURL wallet) in
  let base := if (base =? "")%string then trim_space (vw_ServingOrigin wallet) else base in
  if (base =? "")%string then false
  else match url_Parse redirectURI, url_Parse base with
       | Some redirectURL, Some baseURL =>
           sameLoopbackHost (Hostname (u_Host redirectURL)) (Hostname (u_Host baseURL))
           && (Port (u_Host redirectURL) =? Port (u_Host baseURL))%string
           && bool_decide (is_Some (cut_prefix (rev_string "/callback") (rev_string (trim_right_slashes (url_path redirectURL)))))
       | _, _ => false
       end.

(** [CompleteAuthorizationCodeCallback] of the registered flow. *)
Definition completes (state : string) (v : values) : bool := negb (state =? "")%string && (Get v "state" =? state)%string.

Definition do_browse (url owner : string) (s : net) : net * option (list values) :=
  let '(a, r) := browse url owner (around s) in (mkNet a (exchanges s), r).

(** The redirect target; the empty text for a page. *)
Definition callAuthorizationEndpoint (authURL : string) : io (result why (string * string)) :=
  match NewRequest "GET" authURL with
  | Some e => Ret (Err (Fmt "creating authorization request: %w" [e]))
  | None =>
      do answer <- doIssuanceRequest (mkOut "GET" authURL ∅ "");
      Ret (match answer with
           | Err e => Err (Fmt "authorization request: %w" [e])
           | Ok resp =>
               let body := match ReadRemoteBody resp "issuer response" with Ok body => body | Err _ => "" end in
               if in_StatusCode resp =? 200 then Ok ("", body)
               else if (in_StatusCode resp <? 300) || (400 <=? in_StatusCode resp)
               then Err (Fmt "authorization endpoint returned HTTP %d: %s" [Text (itoa (in_StatusCode resp)); Text body])
               else
                 let location := header_of resp "Location" in
                 if (location =? "")%string then Err (Text "authorization response missing Location header") else Ok (location, body)
           end)
  end.

Definition truncateBody (body : string) : string :=
  let body := trim_space body in
  if (String.length body <=? 200)%nat then body else slice_to 200 body +:+ "...".

(** What a redirect answers: values with a code, an error or a session. *)
Definition redirected (location redirectURI body expectedState expectedIssuer : string) (issRequired : bool) : result why values :=
  let page := Fmt "authorization requires interactive browser login, but redirect_uri %q is not handled by the running wallet server (body: %s)"
                [Text redirectURI; Text (truncateBody body)] in
  let unhandled := Fmt "authorization requires interactive browser login at %q, but redirect_uri %q is not handled by the running wallet server"
                     [Text location; Text redirectURI] in
  if (location =? "")%string then Err page
  else match redirect_query location with
       | None => Err unhandled
       | Some v =>
           if negb (Get v "code" =? "")%string || negb (Get v "error" =? "")%string || negb (Get v "auth_session" =? "")%string
           then unless (validateAuthorizationCodeResponse v expectedState expectedIssuer issRequired) (Ok v)
           else Err unhandled
       end.

Definition runAuthorizationCodeRequest (endpoint clientID requestURI : string) (params : values)
    (redirectURI expectedState expectedIssuer owner : string) (issRequired : bool) : io (result why values) :=
  match authorizationRequestURL endpoint clientID requestURI params with
  | Err e => Ret (Err e)
  | Ok authURL =>
      if canUseInteractiveAuthorizationCallback redirectURI then
        do callbacks <- atomic (do_browse authURL owner);
        Ret (match callbacks with
             | None => Err (Fmt "this offer needs an interactive sign-in at %s, and nothing is attached to this wallet that can open it" [Text authURL])
             | Some arrived =>
                 match List.filter (completes expectedState) arrived with
                 | v :: _ => unless (validateAuthorizationCodeResponse v expectedState expectedIssuer issRequired) (Ok v)
                 | [] => Err (Fmt "timed out waiting for authorization callback at %s" [Text redirectURI])
                 end
             end)
      else
        try (location, body) <- callAuthorizationEndpoint authURL;
        Ret (redirected location redirectURI body expectedState expectedIssuer issRequired)
  end.

(** ** Interactive Authorization *)

(** What the authorization request of a flow is made of; its DPoP nonce is
    passed along. *)
Record authorizationCodeSetup := mkSetup {
  su_clientID : string; su_redirectURI : string; su_scope : string; su_state : string; su_codeVerifier : string; su_codeChallenge : string;
  su_clientAuth : option ClientAuthentication; su_dpopKey : option PrivateKey; su_authorizationEndpoint : string; su_issuer : string;
  su_issRequired : bool; su_presentationConsented : bool; su_owner : string }.

Definition interactionTypesSupported (setup : authorizationCodeSetup) : list string :=
  interactionTypePresentation
  :: if negb (su_redirectURI setup =? "")%string && negb (su_authorizationEndpoint setup =? "")%string then [interactionTypeAuthViaWeb] else [].

Definition optional_field (k v : string) (form : values) : values := if (v =? "")%string then form else Set_field form k v.

Definition initialAuthorizationChallengeForm (setup : authorizationCodeSetup) (issuerState : string) : values :=
  let form := Set_field (Set_field (Set_field (Set_field ∅ "response_type" "code") "client_id" (su_clientID setup)) "scope" (su_scope setup))
                "state" (su_state setup) in
  let form := Set_field (Set_field (Set_field form "code_challenge" (su_codeChallenge setup)) "code_challenge_method" "S256")
                "interaction_types_supported" (join "," (interactionTypesSupported setup)) in
  optional_field "issuer_state" issuerState (optional_field "redirect_uri" (su_redirectURI setup) form).

(** The body decides, whatever the status; an empty body or one that is no
    object is a failure. *)
Definition postAuthorizationChallenge (endpoint : string) (form : values) (setup : authorizationCodeSetup) (nonce : option string) :
    io (option string * result why object) :=
  do r <- dpop_exchange (form_request endpoint form (su_dpopKey setup) "") nonce (attestor_for (su_clientAuth setup) (su_clientID setup));
  let response := if (ex_body r =? "")%string || is_null (ex_body r) then None else unmarshal_object (ex_body r) in
  Ret (ex_nonce r,
       match response with
       | Some response => Ok response
       | None => Err (Fmt "authorization challenge request: %w" [default (Text "authorization challenge response was not JSON") (ex_err r)])
       end).

(** The empty text when there is none. *)
Definition authorizationChallengeCode (response : object) : result why string :=
  let code := get_string response "authorization_code" in
  let alias := get_string response "code" in
  if negb (code =? "")%string then Ok code
  else if negb (alias =? "")%string
  then unless (reportServerDeviation mode (Text "authorization challenge response carried the authorization code in %q. Section 5.2.1 of the OAuth 2.0 for First-Party Applications specification names it %q"))
         (Ok alias)
  else Ok "".

Definition authorizationChallengeError (response : object) : why :=
  let code := get_string response "error" in
  let description := get_string response "error_description" in
  if (code =? "")%string then Text "authorization challenge response carried neither an authorization code nor an error"
  else if negb (description =? "")%string then Fmt "authorization challenge failed: %s: %s" [Text code; Text description]
  else Fmt "authorization challenge failed: %s" [Text code].

Record interactionOutcome := mkOutcome { oc_form : values; oc_code : string; oc_authSession : string }.

Definition runAuthViaWebInteraction (response : object) (setup : authorizationCodeSetup) : io (result why interactionOutcome) :=
  let requestURI := trim_space (get_string response "request_uri") in
  if (requestURI =? "")%string
  then Ret (Err (Fmt "authorization server asked for the %s interaction without a request_uri (OpenID4VCI 1.1 §6.2.1.2)" [Text interactionTypeAuthViaWeb]))
  else
    try v <- runAuthorizationCodeRequest (su_authorizationEndpoint setup) (su_clientID setup) requestURI ∅ (su_redirectURI setup)
               (su_state setup) (su_issuer setup) (su_owner setup) (su_issRequired setup);
    Ret (if negb (Get v "error" =? "")%string
         then Err (if negb (Get v "error_description" =? "")%string
                   then Fmt "the browser sign-in failed: %s: %s" [Text (Get v "error"); Text (Get v "error_description")]
                   else Fmt "the browser sign-in failed: %s" [Text (Get v "error")])
         else if negb (Get v "code" =? "")%string then Ok (mkOutcome ∅ (Get v "code") "")
         else if negb (Get v "auth_session" =? "")%string then Ok (mkOutcome ∅ "" (Get v "auth_session"))
         else Err (Text "the redirect back from the browser sign-in carried neither a code nor an auth_session (OpenID4VCI 1.1 §6.2.1.2)")).

Definition runAuthorizationInteraction (endpoint : string) (response : object) (setup : authorizationCodeSetup) : io (result why interactionOutcome) :=
  let interaction := get_string response "interaction_type_required" in
  if (interaction =? interactionTypePresentation)%string then
    try form <- presentation_interaction endpoint response (su_presentationConsented setup) (su_owner setup);
    Ret (Ok (mkOutcome form "" ""))
  else if (interaction =? interactionTypeAuthViaWeb)%string then
    if (su_redirectURI setup =? "")%string || (su_authorizationEndpoint setup =? "")%string
    then Ret (Err (Fmt "authorization server asked for the %s interaction, which this wallet did not advertise (it needs a redirect URI and an authorization endpoint)"
                     [Text interactionTypeAuthViaWeb]))
    else runAuthViaWebInteraction response setup
  else if (interaction =? "")%string
  then Ret (Err (Text "authorization server asked for an interaction without naming its type (OpenID4VCI 1.1 §6.2.1 makes interaction_type_required REQUIRED)"))
  else Ret (Err (Fmt "authorization server asked for the unsupported interaction type %q" [Text interaction])).

(** How the conversation ends: a code, which may have come through the browser,
    a move to the browser with a request, or an error. *)
Inductive conversation_end := GotCode (code : string) (viaWeb : bool) | RedirectToWeb (requestURI : string) | Broken (e : why).

(** [rounds] are left. *)
Fixpoint converse (rounds : nat) (endpoint : string) (setup : authorizationCodeSetup) (form : values) (authSession : string) (nonce : option string) :
    io (option string * conversation_end) :=
  match rounds with
  | O => Ret (nonce, Broken (Fmt "interactive authorization did not finish after %d rounds" [Text (itoa (Z.of_nat maxInteractiveAuthorizationRounds))]))
  | S rounds =>
      do (nonce, answer) <- postAuthorizationChallenge endpoint form setup nonce;
      match answer with
      | Err e => Ret (nonce, Broken e)
      | Ok response =>
          let session := get_string response "auth_session" in
          let authSession := if (session =? "")%string then authSession else session in
          let errorCode := get_string response "error" in
          match authorizationChallengeCode response with
          | Err e => Ret (nonce, Broken e)
          | Ok code =>
              if negb (code =? "")%string then Ret (nonce, GotCode code false)
              else if (errorCode =? errorRedirectToWeb)%string then Ret (nonce, RedirectToWeb (get_string response "request_uri"))
              else if negb (errorCode =? errorInsufficientAuthorization)%string then Ret (nonce, Broken (authorizationChallengeError response))
              else if (authSession =? "")%string
              then Ret (nonce, Broken (Text "authorization server asked for an interaction without an auth_session (OpenID4VCI 1.1 §6.2.1)"))
              else
                do outcome <- runAuthorizationInteraction endpoint response setup;
                match outcome with
                | Err e => Ret (nonce, Broken e)
                | Ok outcome =>
                    if negb (oc_code outcome =? "")%string then Ret (nonce, GotCode (oc_code outcome) true)
                    else
                      let authSession := if (oc_authSession outcome =? "")%string then authSession else oc_authSession outcome in
                      let next := optional_field "client_id" (su_clientID setup) (Set_field (oc_form outcome) "auth_session" authSession) in
                      do authenticated <- applyClientAuthentication public wallet next (su_clientAuth setup) (su_clientID setup);
                      match authenticated with
                      | Err e => Ret (nonce, Broken e)
                      | Ok next => converse rounds endpoint setup next authSession nonce
                      end
                end
          end
      end
  end.

Definition obtainInteractiveAuthorizationCode (endpoint : string) (setup : authorizationCodeSetup) (issuerState : string) (nonce : option string) :
    io (option string * conversation_end) :=
  do authenticated <- applyClientAuthentication public wallet (initialAuthorizationChallengeForm setup issuerState) (su_clientAuth setup) (su_clientID setup);
  match authenticated with
  | Err e => Ret (nonce, Broken e)
  | Ok form => converse maxInteractiveAuthorizationRounds endpoint setup form "" nonce
  end.

Definition noteRedirectToWeb (redirectURI authorizationEndpoint : string) : option why :=
  if (redirectURI =? "")%string
  then Some (Text "the authorization server asked for a browser sign-in (redirect_to_web), which needs a redirect URI: run the wallet with --vci-redirect-uri")
  else if (authorizationEndpoint =? "")%string
  then Some (Text "the authorization server asked for a browser sign-in (redirect_to_web) but published no authorization_endpoint")
  else None.

(** ** The end of an issuance *)

Record issuanceSession := mkSession { is_metadata : object; is_renewal : CredentialRenewal; is_authzServer : option string; is_resource : option string }.

(** What the wallet stores: the primary credential with its copies, and what it
    keeps beside them; [dv_replaceID] names the one a renewal replaces. *)
Record delivery := mkDelivery {
  dv_batch : sortedBatch; dv_renewal : CredentialRenewal; dv_display : option CredentialDisplay; dv_proofKeys : list PrivateKey; dv_replaceID : string;
  dv_findings : list why }.

Inductive issuance := Deferred_to (pending : DeferredIssuance) | Delivered (d : delivery).

Definition nth_key (keys : list PrivateKey) (i : nat) : PrivateKey := default holder (keys !! i).

Definition deviation_why (d : batch_deviation) : why :=
  match d with
  | BoundToNoKey i => Fmt "OID4VCI 1.0 §8.3: credential %d of the response is bound to none of the proof keys of the request" [Text (itoa i)]
  | SameKey i j => Fmt "OID4VCI 1.0 §8.3: credentials %d and %d of the response are bound to the same proof key, and each key binds at most one credential"
                     [Text (itoa i); Text (itoa j)]
  | Unreadable i => Fmt "credential %d of the response cannot be read: %v" [Text (itoa i)]
  end.

Definition batch_why (e : batch_error) : why :=
  match e with
  | NoCredential => Text "no credential in response"
  | EncodingFailed i => Fmt "encoding the binding key of credential %d: %w" [Text (itoa i)]
  | ServerDeviation d => deviation_why d
  | NoneBound n => Fmt "none of the %d credentials of the response is bound to a proof key of the request" [Text (itoa n)]
  end.

Definition sort_response (credResp : object) (keys : list PrivateKey) : result why (sortedBatch * list batch_deviation) :=
  match sortBatch (fun raw i => binds raw (nth_key keys i)) (length keys) (fun i => pem (nth_key keys i)) readable (bool_decide (mode = Strict)) credResp with
  | Ok r => Ok r
  | Err e => Err (batch_why e)
  end.

(** [storeIssuedCredential] up to what is stored, and the notification. *)
Definition storeIssuedCredential (metadata credResp : object) (renewal : CredentialRenewal) (display : option CredentialDisplay)
    (proofKeys : list PrivateKey) (replaceID : string) (grant : accessGrant) (nonce : option string) : io (result why delivery) :=
  match checkReceivedCredentials credResp (ren_Issuer renewal) with
  | Err e => Ret (Err e)
  | Ok received =>
      match sort_response credResp proofKeys with
      | Err e => Ret (Err e)
      | Ok (batch, deviations) =>
          match importing replaceID batch proofKeys with
          | Some e => Ret (Err e)
          | None =>
          let batch := if (replaceID =? "")%string then batch else mkBatch (batch_primary batch) [] in
          do _ <- notifyCredentialAccepted decode_error public url_without_query wallet marshal_request metadata credResp (accessToken grant) (authScheme grant)
                    (dpopKeyForRenewal wallet renewal) nonce;
          Ret (Ok (mkDelivery batch renewal display proofKeys replaceID (received ++ (deviation_why <$> deviations))))
          end
      end
  end.

Definition do_generate (s : net) : net * option PrivateKey := let '(a, k) := generate_key (around s) in (mkNet a (exchanges s), k).

Fixpoint batch_keys (n : nat) : io (result why (list PrivateKey)) :=
  match n with
  | O => Ret (Ok [])
  | S n =>
      do key <- atomic do_generate;
      match key with
      | None => Ret (Err (Text "generating batch proof key: %w"))
      | Some key => try keys <- batch_keys n; Ret (Ok (key :: keys))
      end
  end.

Definition issuanceProofKeys (metadata : object) : io (result why (list PrivateKey)) :=
  try keys <- batch_keys (Z.to_nat (issuanceProofKeys_count metadata - 1)); Ret (Ok (holder :: keys)).

Definition with_refresh (r : CredentialRenewal) (token : string) : CredentialRenewal :=
  mkRenewal (ren_Issuer r) (ren_TokenEndpoint r) (ren_CredentialEndpoint r) (ren_ConfigurationID r) (ren_ClientID r) token (ren_UseDPoP r) (ren_ClientAuth r).

(** [newCredentialID] *)
Definition newCredentialID : io string := do b <- atomic (do_draw 8); Ret (hex_encode b).

(** What a credential response leads to. *)
Definition conclude (metadata : object) (renewal : CredentialRenewal) (grant : accessGrant) (proofKeys : list PrivateKey) (credResp : object)
    (nonce : option string) : io (result why issuance) :=
  let display := resolveCredentialDisplay metadata (ren_ConfigurationID renewal) in
  let transactionID := get_string credResp "transaction_id" in
  if negb (transactionID =? "")%string then
    do now <- time_Now;
    do id <- newCredentialID;
    let pems := mapM pem proofKeys in
    let pending := newDeferredIssuance id now (mkTransaction transactionID (deferredInterval credResp) renewal metadata
                     (resolveCredentialFormat metadata (ren_ConfigurationID renewal)) display grant (default [] pems)) in
    Ret (match pending, pems with
         | Err e, _ => Err (Text e)
         | Ok _, None => Err (Text "encoding proof key for the deferred credential: %w")
         | Ok pending, Some _ => Ok (Deferred_to pending)
         end)
  else
    try d <- storeIssuedCredential metadata credResp renewal display proofKeys "" grant nonce;
    Ret (Ok (Delivered d)).

Definition issueWithToken (s : issuanceSession) (tokenForm : values) : io (result why issuance) :=
  do outcome <- requestAccessToken decode_error public url_without_query wallet decode_refusal decode_text decode_texts
                  (is_renewal s) tokenForm (default "" (is_authzServer s));
  match to_err outcome, to_grant outcome with
  | Some e, _ => Ret (Err (Fmt "token exchange: %w" [e]))
  | None, None => Ret (Err (Text "token exchange: %w"))
  | None, Some grant =>
      let renewal := with_refresh (is_renewal s) (refreshToken grant.1) in
      do keys <- issuanceProofKeys (is_metadata s);
      match keys with
      | Err e => Ret (Err (Fmt "preparing proof keys: %w" [e]))
      | Ok proofKeys =>
          do (nonce, answer) <- requestCredential decode_error public url_without_query wallet holder_ecdh choices marshal_request
                                  (mkCredentialRequest renewal (is_metadata s) grant proofKeys) (is_resource s);
          match answer with
          | Err e => Ret (Err e)
          | Ok credResp => conclude (is_metadata s) renewal grant.1 proofKeys credResp nonce
          end
      end
  end.

(** ** The authorization code flow *)

Definition codeChallengeS256 (verifier : string) : string := EncodeBase64URL (sha256 verifier).

Definition token_form (clientID code redirectURI codeVerifier : string) : values :=
  Set_field (optional_field "redirect_uri" redirectURI
    (Set_field (Set_field (Set_field ∅ "grant_type" "authorization_code") "code" code) "client_id" clientID)) "code_verifier" codeVerifier.

Definition completeAuthorizationCodeIssuance (s : issuanceSession) (redirectURI codeVerifier code : string) : io (result why issuance) :=
  issueWithToken s (token_form (ren_ClientID (is_renewal s)) code redirectURI codeVerifier).

Definition par_form (clientID redirectURI scope state codeChallenge issuerState : string) : values :=
  let form := Set_field (Set_field (Set_field (Set_field ∅ "response_type" "code") "client_id" clientID) "redirect_uri" redirectURI) "scope" scope in
  optional_field "issuer_state" issuerState
    (Set_field (Set_field (Set_field form "state" state) "code_challenge" codeChallenge) "code_challenge_method" "S256").

(** The methods the wallet can use; an unregistered alias is a deviation. *)
Definition client_auth_refused (method : string) : option why :=
  if contains [""; unauthenticatedClientMethod; "private_key_jwt"; "attest_jwt_client_auth"; "attest_jwt_client_auth_dpop"] method then None
  else if (method =? unregisteredPublicClientMethod)%string
  then reportServerDeviation mode (Fmt "authorization server advertises the unregistered token endpoint auth method %q. RFC 8414 takes these values from the OAuth Token Endpoint Authentication Methods registry, where an unauthenticated client is %q"
         [Text unregisteredPublicClientMethod; Text unauthenticatedClientMethod])
  else Some (Fmt "unsupported token endpoint auth method %q" [Text method]).

Definition with_client (r : CredentialRenewal) (clientID : string) (auth : option ClientAuthentication) : CredentialRenewal :=
  mkRenewal (ren_Issuer r) (ren_TokenEndpoint r) (ren_CredentialEndpoint r) (ren_ConfigurationID r) clientID (ren_RefreshToken r) (ren_UseDPoP r) auth.

(** From the pushed request, or the one the server named, to the code. *)
Definition through_browser (s : issuanceSession) (setup : authorizationCodeSetup) (parForm : values) (parEndpoint requestURI : string) : io (result why issuance) :=
  do (nonce, pushed) <-
    (if (requestURI =? "")%string && negb (parEndpoint =? "")%string then
       do (nonce, answer) <- post_form parEndpoint parForm (su_dpopKey setup) "" (is_authzServer s) (attestor_for (su_clientAuth setup) (su_clientID setup));
       Ret (nonce, match answer with
                   | Err e => Err (Fmt "PAR request: %w" [e])
                   | Ok parResp => let uri := get_string parResp "request_uri" in
                                   if (uri =? "")%string then Err (Text "PAR response missing request_uri") else Ok uri
                   end)
     else Ret (is_authzServer s, Ok requestURI));
  match pushed with
  | Err e => Ret (Err e)
  | Ok requestURI =>
      do answer <- runAuthorizationCodeRequest (su_authorizationEndpoint setup) (su_clientID setup) requestURI parForm (su_redirectURI setup)
                     (su_state setup) (su_issuer setup) (su_owner setup) (su_issRequired setup);
      match answer with
      | Err e => Ret (Err (Fmt "authorization request: %w" [e]))
      | Ok v =>
          let code := Get v "code" in
          if (code =? "")%string then Ret (Err (Fmt "authorization callback missing code in values %q" [Text (Values_Encode v)]))
          else completeAuthorizationCodeIssuance (mkSession (is_metadata s) (is_renewal s) nonce (is_resource s))
                 (su_redirectURI setup) (su_codeVerifier setup) code
      end
  end.

Definition processAuthorizationCodeOffer (issuerState : string) (s : issuanceSession) (oauthMeta : object) (presentationConsented : bool) (owner : string) :
    io (result why issuance) :=
  let clientID := trim_space (vw_VCIClientID wallet) in
  let redirectURI := trim_space (vw_VCIRedirectURI wallet) in
  let challengeEndpoint := interactiveAuthorizationEndpoint oauthMeta in
  let useInteractive := negb (challengeEndpoint =? "")%string && UsesInteractiveAuthorization (vw_Version wallet) in
  let parEndpoint := get_string oauthMeta "pushed_authorization_request_endpoint" in
  let authorizationEndpoint := get_string oauthMeta "authorization_endpoint" in
  let method := detectTokenEndpointAuthMethod oauthMeta in
  let configID := ren_ConfigurationID (is_renewal s) in
  let scope := resolveCredentialScope (is_metadata s) configID in
  if (clientID =? "")%string then Ret (Err (Text "OID4VCI authorization_code flow requires a configured wallet client_id"))
  else if negb useInteractive && (redirectURI =? "")%string
  then Ret (Err (Text "OID4VCI authorization_code flow requires configured wallet client_id and redirect_uri"))
  else if (authorizationEndpoint =? "")%string && negb useInteractive
  then Ret (Err (Text "authorization server metadata did not include authorization_endpoint"))
  else
  match client_auth_refused method with
  | Some e => Ret (Err e)
  | None =>
      if (scope =? "")%string
      then Ret (Err (Fmt "credential configuration %q did not expose a scope for authorization_code flow" [Text configID]))
      else
        do state <- randomBase64URL 18;
        do codeVerifier <- randomBase64URL 32;
        let codeChallenge := codeChallengeS256 codeVerifier in
        let clientAuth := resolveClientAuthentication wallet method oauthMeta (ren_TokenEndpoint (is_renewal s)) in
        do authenticated <- applyClientAuthentication public wallet (par_form clientID redirectURI scope state codeChallenge issuerState) clientAuth clientID;
        match authenticated with
        | Err e => Ret (Err e)
        | Ok parForm =>
            let s := mkSession (is_metadata s) (with_client (is_renewal s) clientID clientAuth) (is_authzServer s) (is_resource s) in
            let setup := mkSetup clientID redirectURI scope state codeVerifier codeChallenge clientAuth (dpopKeyForRenewal wallet (is_renewal s))
                           authorizationEndpoint (oauthIssuer oauthMeta "") (issAdvertised oauthMeta) presentationConsented owner in
            if useInteractive then
              do (nonce, ended) <- obtainInteractiveAuthorizationCode challengeEndpoint setup issuerState (is_authzServer s);
              let s := mkSession (is_metadata s) (is_renewal s) nonce (is_resource s) in
              match ended with
              | GotCode code viaWeb => completeAuthorizationCodeIssuance s (if viaWeb then redirectURI else "") codeVerifier code
              | RedirectToWeb requestURI =>
                  match noteRedirectToWeb redirectURI authorizationEndpoint with
                  | Some e => Ret (Err e)
                  | None => through_browser s setup parForm parEndpoint requestURI
                  end
              | Broken e => Ret (Err e)
              end
            else through_browser s setup parForm parEndpoint ""
        end
  end.

(** ** processCredentialOffer *)

Definition txCodeHintSuffix (txCode : object) : string :=
  let description := trim_space (get_string txCode "description") in
  let inputMode := get_string txCode "input_mode" in
  let length := match index txCode "length" with VFloat f => int_of_float64 f | VInt KInt z => z | _ => 0 end in
  if negb (description =? "")%string then " (" +:+ description +:+ ")"
  else if (0 <? length) && negb (inputMode =? "")%string then " (" +:+ itoa length +:+ " " +:+ inputMode +:+ " characters)"
  else if 0 <? length then " (" +:+ itoa length +:+ " characters)"
  else if negb (inputMode =? "")%string then " (" +:+ inputMode +:+ ")" else "".

Record OfferOptions := mkOptions {
  oo_PresentationConsented : bool; oo_TxCode : string; oo_Owner : string; oo_ResolvedOffer : option CredentialOffer; oo_ConfigurationID : string }.

(** The authorization server of an offer, with its metadata; [None] is metadata
    that could not be read. *)
Definition authorization_server (metadata : object) (offer : CredentialOffer) (grantType : string) :
    io (result why (string * option object * option why)) :=
  match selectAuthorizationServer metadata offer with
  | Err e => Ret (Err e)
  | Ok authServer =>
      do answer <- fetchOAuthMetadata authServer;
      let oauthMeta := match answer with Ok m => m | Err _ => [] end in
      match checkAuthorizationServerGrant mode authServer oauthMeta grantType with
      | Some e => Ret (Err e)
      | None =>
          do fallback <- fallbackAuthorizationServer metadata authServer oauthMeta grantType;
          Ret (Ok (match fallback, answer with
                   | Some (server, meta), _ => (server, Some meta, None)
                   | None, Ok meta => (authServer, Some meta, None)
                   | None, Err e => (authServer, None, Some e)
                   end))
      end
  end.

(** HAIP findings refuse in strict mode. *)
Definition haip_findings (offer : CredentialOffer) (oauthMeta : option object) : result why (list why) :=
  if vw_HAIP wallet then
    match ValidateHAIPIssuanceCompliance ip_loopback (Some offer) oauthMeta with
    | [] => Ok []
    | violations => unless (reportDeviation mode (Fmt "credential offer: %s" violations)) (Ok violations)
    end
  else Ok [].

Definition preauthorized_form (code txCode : string) : values :=
  optional_field "tx_code" txCode (Set_field (Set_field ∅ "grant_type" preAuthorizedCodeGrant) "pre-authorized_code" code).

(** The strict checks on the metadata of an authorization server. *)
Definition strict_server_refused (authServer : string) (oauthMeta : object) (oauthErr : option why) : option why :=
  match mode, oauthErr with
  | Debug, _ => None
  | Strict, Some e => Some (Fmt "fetching authorization server metadata: %w" [e])
  | Strict, None => validateAuthorizationServerIssuer authServer oauthMeta
  end.

(** The token and credential requests of an offer whose endpoints are known. *)
Definition redeem (offer : CredentialOffer) (opts : OfferOptions) (metadata : object) (authServer : string) (oauthMeta : object) (oauthErr : option why)
    (configID tokenEndpoint credentialEndpoint : string) : io (result why issuance) :=
  let renewal := mkRenewal (CredentialIssuer offer) tokenEndpoint credentialEndpoint configID "" "" (usesDPoP oauthMeta) None in
  if (PreAuthorizedCode (Grants offer) =? "")%string then
    match strict_server_refused authServer oauthMeta oauthErr with
    | Some e => Ret (Err e)
    | None => processAuthorizationCodeOffer (IssuerState (Grants offer)) (mkSession metadata renewal (Some "") (Some "")) oauthMeta
                (oo_PresentationConsented opts) (oo_Owner opts)
    end
  else
    let auth := resolveClientAuthentication wallet "" oauthMeta tokenEndpoint in
    let renewal := with_client renewal (match auth with Some _ => walletClientIdentifier wallet | None => "" end) auth in
    let txCode := default [] (TxCode (Grants offer)) in
    if negb (bool_decide (txCode = [])) && (trim_space (oo_TxCode opts) =? "")%string
    then Ret (Err (Fmt "this offer requires a transaction code, which the issuer delivers separately: supply it as tx_code on the call, or --tx-code on the command line%s"
                     [Text (txCodeHintSuffix txCode)]))
    else issueWithToken (mkSession metadata renewal (Some "") (Some "")) (preauthorized_form (PreAuthorizedCode (Grants offer)) (oo_TxCode opts)).

(** The issuance, with the findings of debug mode. *)
Definition processCredentialOffer (offerURI : string) (opts : OfferOptions) : io (result why (issuance * list why)) :=
  do reread <- read_offer offerURI;
  match resolveOffer reread (oo_ResolvedOffer opts) with
  | Err e => Ret (Err e)
  | Ok offer =>
      match chooseOfferConfiguration offer (oo_ConfigurationID opts) with
      | Err e => Ret (Err e)
      | Ok configID =>
          try (metadata, findings) <- loadIssuerMetadata sdjwt_Parse issuerARFCheck catalogueFindings mode (vw_ARF wallet)
                                        (CredentialIssuer offer) (CredentialConfigurationIDs offer);
          let grantType := if (PreAuthorizedCode (Grants offer) =? "")%string then "authorization_code" else preAuthorizedCodeGrant in
          try (authServer, oauth, oauthErr) <- authorization_server metadata offer grantType;
          let oauthMeta := default [] oauth in
          match resolveTokenEndpoint mode metadata oauthMeta (CredentialIssuer offer), resolveCredentialEndpoint mode metadata (CredentialIssuer offer) with
          | Err e, _ | Ok _, Err e => Ret (Err e)
          | Ok tokenEndpoint, Ok credentialEndpoint =>
              match haip_findings offer oauth with
              | Err e => Ret (Err e)
              | Ok haip =>
                  try issued <- redeem offer opts metadata authServer oauthMeta oauthErr configID tokenEndpoint credentialEndpoint;
                  Ret (Ok (issued, findings ++ haip))
              end
          end
      end
  end.

(** ** Renewal *)

(** [rememberRenewal]: what the credential keeps afterwards. *)
Definition rememberRenewal (old renewal : CredentialRenewal) : CredentialRenewal :=
  if (ren_RefreshToken renewal =? "")%string || (ren_CredentialEndpoint renewal =? "")%string || (ren_TokenEndpoint renewal =? "")%string
  then old else renewal.

(** The renewal the credential keeps, whatever the outcome, beside it. *)
Record renewed_credential := mkRenewed { rn_kept : CredentialRenewal; rn_outcome : result why delivery }.

Definition RefreshCredential (id : string) (old : CredentialRenewal) : io renewed_credential :=
  do loaded <- loadIssuerMetadata sdjwt_Parse issuerARFCheck catalogueFindings mode (vw_ARF wallet) (ren_Issuer old) [ren_ConfigurationID old];
  match loaded with
  | Err e => Ret (mkRenewed old (Err e))
  | Ok (metadata, _) =>
      do outcome <- refreshAccessToken decode_error public url_without_query wallet decode_refusal decode_text decode_texts old;
      let renewal := match to_grant outcome with
                     | Some (grant, _) => if (refreshToken grant =? "")%string then old else with_refresh old (refreshToken grant)
                     | None => old
                     end in
      let kept := rememberRenewal old renewal in
      match to_err outcome, to_grant outcome with
      | Some e, _ => Ret (mkRenewed kept (Err (Fmt "renewing the access token: %w" [e])))
      | None, None => Ret (mkRenewed kept (Err (Text "renewing the access token: %w")))
      | None, Some grant =>
          let keys := [holder] in
          do (nonce, answer) <- requestCredential decode_error public url_without_query wallet holder_ecdh choices marshal_request
                                  (mkCredentialRequest renewal metadata grant keys) (Some "");
          match answer with
          | Err e => Ret (mkRenewed kept (Err e))
          | Ok credResp =>
              do stored <- storeIssuedCredential metadata credResp renewal None keys id grant.1 nonce;
              Ret (mkRenewed (match stored with Ok d => dv_renewal d | Err _ => kept end) stored)
          end
      end
  end.
End flow.
