(* ===== verification/VerifierChecks.v ===== *)
(** * VerifierChecks: what the demo verifier asks for and checks

    src/internal/demorp/verifier.go: the queries of a request and when an answer
    satisfies them, the check list, and the verification of a vp_token.

    A verification writes the check list and may fail: [checked].  [None] means
    that the disclosures nest deeper than the fuel ([sdjwt.Parse], see SDJWT).
    It reads the clock once.  JSON decoding of the vp_token and the credential
    checks of internal/validate are those of Validate. *)

From stdpp Require Import base list strings gmap.
From Stdlib Require Import ZArith Lia Ascii.
From S2P Require Import Prelude GoStrings GoValue Format CredType Validity StatusList SDJWT WalletState Present.
From S2P Require Import Certs Mdoc Validate IssuerAuth.

Local Open Scope Z_scope.

(** ** Queries *)

Record credentialQuery := mkQuery {
  q_id : string; q_format : string; q_vct : string; q_docType : string; q_paths : list (list value); q_multiple : bool;
  trustedAuthorities : list object; resultKey : string }.

Record credentialSet := mkSet { options : list (list string); optional : bool }.

Definition label (q : credentialQuery) : string := if negb (resultKey q =? "")%string then resultKey q else q_id q.

Definition strings (l : list string) : value := VArr (map VString l).

Definition query_entry (q : credentialQuery) : object :=
  [("id", VString (q_id q)); ("format", VString (q_format q));
   ("meta", VObj [if (q_format q =? "mso_mdoc")%string then ("doctype_value", VString (q_docType q)) else ("vct_values", strings [q_vct q])])]
  ++ (match q_paths q with [] => [] | paths => [("claims", VArr (map (fun path => VObj [("path", VArr path)]) paths))] end)
  ++ (if q_multiple q then [("multiple", VBool true)] else [])
  ++ (match trustedAuthorities q with [] => [] | l => [("trusted_authorities", VArr (map VObj l))] end).

Definition set_entry (s : credentialSet) : object :=
  [("options", VArr (map strings (options s)))] ++ (if optional s then [("required", VBool false)] else []).

Definition dcqlQuery (queries : list credentialQuery) (sets : list credentialSet) : object :=
  [("credentials", VArr (map (fun q => VObj (query_entry q)) queries))]
  ++ (match sets with [] => [] | l => [("credential_sets", VArr (map (fun s => VObj (set_entry s)) l))] end).

(** An option all of whose queries are answered. *)
Definition option_answered (answered : string -> bool) (option : list string) : bool := forallb answered option.

Definition errIf (cond : bool) (w : why) : option why := if cond then Some w else None.

Definition unsatisfied_set (answered : string -> bool) (s : credentialSet) : option why :=
  if optional s || existsb (option_answered answered) (options s) then None
  else Some (Fmt "no presentation answers any of the options %s"
               [Text (join " or " (map (fun o => "[" +:+ join ", " o +:+ "]") (options s)))]).

(** Why the answered query ids do not satisfy the request. *)
Definition unsatisfied (queries : list credentialQuery) (sets : list credentialSet) (answered : string -> bool) : option why :=
  match sets with
  | [] =>
      let missing := List.filter (fun id => negb (answered id)) (map q_id queries) in
      errIf (negb (length missing =? 0)%nat) (Fmt "no presentation for %s" [Text (join ", " missing)])
  | _ => find_map (unsatisfied_set answered) sets
  end.

(** ** Claims paths *)

Definition index_of_step (step : value) : option Z :=
  match step with VFloat f => Some (int_of_float64 f) | VInt KInt z => Some z | _ => None end.

Fixpoint claimPathPresent (v : value) (path : list value) : bool :=
  match path with
  | [] => match v with VNil => false | _ => true end
  | step :: path =>
      match step with
      | VString s =>
          match as_obj v with
          | None => false
          | Some obj => match get s obj with Some next => claimPathPresent next path | None => false end
          end
      | VNil => existsb (fun element => claimPathPresent element path) (default [] (as_arr v))
      | _ =>
          match index_of_step step, as_arr v with
          | Some i, Some array =>
              if 0 <=? i then match array !! Z.to_nat i with Some x => claimPathPresent x path | None => false end else false
          | _, _ => false
          end
      end
  end.

Definition missingClaimPaths (claims : object) (paths : list (list value)) : list (list value) :=
  List.filter (fun path => negb (claimPathPresent (VObj claims) path)) paths.

Definition namePaths (namespace : string) (names : list string) : list (list value) :=
  map (fun name => if negb (namespace =? "")%string then [VString namespace; VString name] else [VString name]) names.

(** ** The check list *)

(** Why a response is refused. *)
Inductive failure :=
| Because (w : why)
| NotSDJWT (e : strict_error)
| MissingPaths (paths : list (list value))
| RejectedBy (name : string) (d : detail).

Inductive note := NoNote | ErrorNote (f : failure) | WarningNote (d : detail) | DetailNote (d : detail) | SkippedNote (d : detail).

Record entry := mkCheckEntry { e_name : string; e_ok : bool; e_note : note }.

(** The check list, and the presentations stored for the decoder one after
    the other ([recordPresentation]); the last one stays. *)
Record journal := mkJournal { entries : list entry; kept : list string }.

(** A computation that appends to the list and may fail or not return. *)
Definition checked (A : Type) : Type := journal -> option (journal * result failure A).

Definition ret {A} (a : A) : checked A := fun log => Some (log, Ok a).
Definition fail {A} (f : failure) : checked A := fun log => Some (log, Err f).

Definition cbind {A B} (m : checked A) (k : A -> checked B) : checked B :=
  fun log => '(log, r) ← m log; match r with Ok a => k a log | Err f => Some (log, Err f) end.

Notation "'chk' x <- m ; k" := (cbind m (fun x => k)) (at level 10, x pattern, m at level 100, k at level 200) : go_scope.

Definition log_entries (l : list entry) (log : journal) : journal := mkJournal (entries log ++ l) (kept log).

Definition append (e : entry) : checked () := fun log => Some (log_entries [e] log, Ok ()).

Definition recordPresentation (p : string) : checked () := fun log => Some (mkJournal (entries log) (kept log ++ [p]), Ok ()).

(** Keeps the presentation that failed. *)
Definition keep_failed {A} (p : string) (m : checked A) : checked A :=
  fun log => '(log, r) ← m log; Some (match r with Ok _ => log | Err _ => mkJournal (entries log) (kept log ++ [p]) end, r).

(** [c.record(name, err)]; the caller returns on an error. *)
Definition record (name : string) (err : option failure) : checked () :=
  fun log => match err with
             | None => Some (log_entries [mkCheckEntry name true NoNote] log, Ok ())
             | Some f => Some (log_entries [mkCheckEntry name false (ErrorNote f)] log, Err f)
             end.

Definition require (name : string) (cond : bool) (w : why) : checked () := record name (if cond then None else Some (Because w)).

(** A value, or its error as the check's error. *)
Definition obtain {A} (name : string) (r : result failure A) : checked A :=
  match r with
  | Ok a => chk _ <- record name None; ret a
  | Err f => chk _ <- record name (Some f); fail f
  end.

Definition because {A} (r : result why A) : result failure A := match r with Ok a => Ok a | Err w => Err (Because w) end.

Definition warn (name : string) (d : detail) : checked () := append (mkCheckEntry name true (WarningNote d)).

Fixpoint warn_all (name : string) (l : list detail) : checked () :=
  match l with [] => ret () | d :: l => chk _ <- warn name d; warn_all name l end.

Definition decidingChecks : list string := [CheckType; CheckExpiry; CheckIntegrity; CheckSignature; CheckStatus].

(** The signature must pass; another deciding check must not fail. *)
Definition rejects (c : Check) : bool :=
  contains decidingChecks (c_Name c) &&
  (bool_decide (c_Status c = Fail) || ((c_Name c =? CheckSignature)%string && negb (bool_decide (c_Status c = Pass)))).

Definition credential_entry (label : string) (c : Check) : list entry :=
  let name := label +:+ c_Name c in
  if rejects c then [mkCheckEntry name false (ErrorNote (RejectedBy name (c_Detail c)))]
  else match c_Status c with
       | Pass => [mkCheckEntry name true (DetailNote (c_Detail c))]
       | Skipped => if contains decidingChecks (c_Name c) then [mkCheckEntry name true (SkippedNote (c_Detail c))] else []
       | _ => [mkCheckEntry name true (WarningNote (c_Detail c))]
       end.

(** All checks are listed; the first rejection is the error. *)
Definition credential (label : string) (checks : list Check) : checked () :=
  fun log => Some (log_entries (List.concat (map (credential_entry label) checks)) log,
                   match List.find rejects checks with
                   | Some c => Err (RejectedBy (label +:+ c_Name c) (c_Detail c))
                   | None => Ok ()
                   end).

(** ** Requests *)

Record requestState `{Jose} := mkRequest {
  rq_id : string;
  rq_queries : list credentialQuery;
  rq_sets : list credentialSet;
  rq_nonce : string;
  rq_clientID : string;
  interactiveEndpoint : string;
  rq_expires : time;
  rq_answered : bool;
  rq_requestObject : string;
  rq_encKey : option ECKey;
  rq_status : string;
  rq_err : option failure;
  rq_claims : object;
  rq_checks : list entry;
  rq_presentation : string }.

(** The anchors of the wallet's credential provider lists and the verifier's
    own. *)
Definition credentialTrust `{Pki} (issuanceServices revocationServices verifierTrustAnchors : list X509Cert) : Trust :=
  mkTrust _ [] (issuanceServices ++ verifierTrustAnchors) (revocationServices ++ verifierTrustAnchors) true false None [] None None.

Section verification.
Context {jose : Jose} {json : Json} {hash : Hash} {pki : Pki} {cbor_lib : Cbor} {cose : Cose pki}.
Context (fetch : string -> string -> option (string * string * string)).
Context (parseCWT : string -> CheckOptions -> result token_error statusListToken).
(** [d.baseURL()], [d.credentialTrust()], and the decoding of a JSON object
    of query ids to lists of presentations. *)
Context (base : string) (trust : Trust).
Context (decode_presentations : string -> option (list (string * list string))).

(** ** Audience and session transcript *)

Definition originOf (raw : string) : string :=
  match url_Parse (trim_space raw) with
  | None => ""
  | Some u => if (u_Scheme u =? "")%string || (u_Host u =? "")%string then "" else u_Scheme u +:+ "://" +:+ u_Host u
  end.

Definition checkPresentationAudience (req : requestState) (aud : string) : option why :=
  if (interactiveEndpoint req =? "")%string
  then errIf (negb (aud =? rq_clientID req)%string) (Fmt "aud is %q, want %q" [Text aud; Text (rq_clientID req)])
  else
    let endpoint := "ia:" +:+ interactiveEndpoint req in
    let origin := "ia:" +:+ originOf (interactiveEndpoint req) in
    errIf (negb (aud =? endpoint)%string && negb (aud =? origin)%string) (Fmt "aud is %q, want %q" [Text aud; Text endpoint]).

Definition encryptionJWKThumbprint (key : option ECKey) : string :=
  match key with
  | None => ""
  | Some key =>
      match ec_coords key with
      | None => ""
      | Some (x, y) =>
          sha256 ("{" +:+ quoted "crv" +:+ ":" +:+ quoted "P-256" +:+ "," +:+ quoted "kty" +:+ ":" +:+ quoted "EC" +:+ ","
            +:+ quoted "x" +:+ ":" +:+ quoted (EncodeBase64URL x) +:+ "," +:+ quoted "y" +:+ ":" +:+ quoted (EncodeBase64URL y) +:+ "}")
      end
  end.

Definition response_uri (id : string) : string := base +:+ "/verifier/response/" +:+ id.

Definition rebuildSessionTranscript (req : requestState) : result why string :=
  if negb (interactiveEndpoint req =? "")%string
  then BuildOID4VCIIAESessionTranscript (interactiveEndpoint req) (rq_nonce req) ""
  else BuildOID4VPSessionTranscript (rq_clientID req) (rq_nonce req) (encryptionJWKThumbprint (rq_encKey req)) (response_uri (rq_id req)).

(** ** SD-JWT presentations *)

Fixpoint disclosures_referenced (referenced seen : gset string) (ds : list Disclosure) : option why :=
  match ds with
  | [] => None
  | d :: ds =>
      if negb (bool_decide (d_Digest d ∈ referenced))
      then Some (Fmt "disclosure %q is not referenced by any digest in the credential"
                   [Text (if (d_Name d =? "")%string then "array element" else d_Name d)])
      else if bool_decide (d_Digest d ∈ seen) then Some (Fmt "disclosure %q appears more than once" [Text (d_Name d)])
      else disclosures_referenced referenced ({[d_Digest d]} ∪ seen) ds
  end.

Definition checkDisclosuresReferenced (t : Token) : option why :=
  disclosures_referenced (ReferencedDigests t) ∅ (t_Disclosures t).

Definition protocol_claims : list string := ["iss"; "iat"; "exp"; "nbf"; "cnf"; "vct"; "status"; "_sd_alg"; "_sd"].

Definition disclosedClaims (t : Token) : object :=
  set "vct" (index (t_ResolvedClaims t) "vct")
    (List.filter (fun kv => negb (contains protocol_claims kv.1)) (t_ResolvedClaims t)).

(** [s[:strings.LastIndex(s, sep)+1]] *)
Fixpoint up_to_last (sep : ascii) (s : string) : string :=
  match s with
  | "" => ""
  | String c s' =>
      let rest := up_to_last sep s' in
      if (rest =? "")%string then (if Ascii.eqb c sep then String c "" else "") else String c rest
  end.

Definition credentialChecks : Options := mkOpts false true true zero_time.

Definition token_warning_text (w : token_warning) : why :=
  match w with
  | MissingLastTilde => Text "no tilde after the last disclosure"
  | ArrayUndisclosed name n => Fmt "array %q: none of its %d elements is disclosed" [Text name; Text (itoa n)]
  | ObjectUndisclosed name n => Fmt "object %q: none of its %d members is disclosed" [Text name; Text (itoa n)]
  end.

(** The age of the key binding JWT. *)
Definition kb_iat_error (now : time) (payload : object) : option why :=
  match as_float64 (index payload "iat") with
  | None => Some (Text "the key binding JWT has no numeric iat")
  | Some iat =>
      if age_refused now (unix (int_of_float64 iat)) proofClockSkew proofClockSkew
      then Some (Text "the key binding JWT iat is %s away from now, outside the %s window this verifier accepts") else None
  end.

Definition of_why (w : option why) : option failure := Because <$> w.

(** The key binding JWT, verified with the key of the credential. *)
Definition check_key_binding (label : string) (now : time) (t : Token) : checked compactJWT :=
  match t_KeyBindingJWT t with
  | None => chk _ <- record (label +:+ "key binding JWT present") (Some (Because (Text "the presentation has no key binding JWT"))); fail (Because (Text ""))
  | Some kb =>
      chk _ <- record (label +:+ "key binding JWT present") None;
      chk cnfJWK <- obtain (label +:+ "credential is holder bound (cnf.jwk)")
        (match as_obj (index (get_obj (t_Payload t) "cnf") "jwk") with
         | Some jwk => Ok jwk
         | None => Err (Because (Text "the credential carries no cnf.jwk"))
         end);
      chk holderKey <- obtain (label +:+ "cnf.jwk parses") (because (holderKeyFromJWK cnfJWK));
      chk kbJWT <- obtain (label +:+ "key binding JWT parses") (because (parseCompactJWT (j_Raw kb)));
      let typ := get_string (c_header kbJWT) "typ" in
      chk _ <- require (label +:+ "key binding JWT is typed kb+jwt") (typ =? "kb+jwt")%string (Fmt "typ is %q" [Text typ]);
      chk _ <- require (label +:+ "key binding signature verifies with cnf key")
        (verifyES256 holderKey (c_signingInput kbJWT) (c_signature kbJWT)) (Text "key binding signature is invalid");
      chk _ <- record (label +:+ "key binding was created within an acceptable window") (of_why (kb_iat_error now (c_payload kbJWT)));
      ret kbJWT
  end.

(** What the key binding JWT is bound to. *)
Definition check_binding (label : string) (req : requestState) (presentation : string) (t : Token) (kbJWT : compactJWT) : checked () :=
  match SDHash (up_to_last "~" presentation) (SDAlgFromPayload (t_Payload t)) with
  | Err _ => record (label +:+ "sd_hash algorithm is supported") (Some (Because (Text "unsupported hash algorithm")))
  | Ok wantHash =>
      chk _ <- require (label +:+ "sd_hash matches the presentation") (get_string (c_payload kbJWT) "sd_hash" =? wantHash)%string (Text "sd_hash does not match");
      chk _ <- require (label +:+ "nonce matches the request") (get_string (c_payload kbJWT) "nonce" =? rq_nonce req)%string (Text "nonce mismatch");
      record (label +:+ "audience is this verifier") (of_why (checkPresentationAudience req (get_string (c_payload kbJWT) "aud")))
  end.

Definition check_paths (name : string) (claims : object) (paths : list (list value)) : checked () :=
  record name (match missingClaimPaths claims paths with [] => None | missing => Some (MissingPaths missing) end).

Definition sdjwt_checks (now : time) (t : Token) : list Check := Checks (SDJWT fetch parseCWT trust credentialChecks now t).

(** The type a credential has must answer the requested one. *)
Definition check_type (label expectedVCT : string) (t : Token) : checked () :=
  let gotVCT := get_string (t_ResolvedClaims t) "vct" in
  require (label +:+ "credential type matches the request") (Answers gotVCT (AkaVCTs (t_ResolvedClaims t)) expectedVCT)
    (Fmt "vct is %q, requested %q" [Text gotVCT; Text expectedVCT]).

Definition verifySDJWTEntry (fuel : nat) (now : time) (req : requestState) (presentation expectedVCT : string)
    (paths : list (list value)) (label : string) : checked object :=
  fun log =>
  parsed ← Parse fuel presentation;
  (chk t <- obtain (label +:+ "presentation parses as SD-JWT") (match parsed with Ok t => Ok t | Err e => Err (NotSDJWT e) end);
   chk _ <- warn_all (label +:+ "credential is well-formed (RFC 9901)") (map (fun w => Says (token_warning_text w)) (t_Warnings t));
   chk _ <- record (label +:+ "every disclosure is referenced by the credential") (of_why (checkDisclosuresReferenced t));
   chk _ <- check_type label expectedVCT t;
   chk _ <- credential label (sdjwt_checks now t);
   chk kbJWT <- check_key_binding label now t;
   chk _ <- check_binding label req presentation t kbJWT;
   chk _ <- check_paths (label +:+ "requested claims were disclosed") (disclosedClaims t) paths;
   ret (disclosedClaims t)) log.

(** ** mdoc presentations *)

Definition mdoc_elements (items : list IssuerSignedItem) : object :=
  fold_left (fun m i => set (item_ElementIdentifier i) (item_ElementValue i) m) items [].

Definition mdoc_claims (doc : Document) : object :=
  fold_left (fun m i => set (item_ElementIdentifier i) (item_ElementValue i) m) (List.concat (map snd (doc_NameSpaces doc))) [].

Definition mdoc_by_namespace (doc : Document) : object := map (fun ns => (ns.1, VObj (mdoc_elements ns.2))) (doc_NameSpaces doc).

Definition mdoc_result (now : time) (doc : Document) : Result := MDOC fetch parseCWT trust credentialChecks now doc.

Definition verifyMDOCPresentation (now : time) (req : requestState) (presentation docType : string)
    (paths : list (list value)) (label : string) : checked object :=
  chk doc <- obtain (label +:+ "presentation parses as an mdoc DeviceResponse") (because (mdoc_Parse presentation));
  chk _ <- require (label +:+ "credential type matches the request") (DocType doc =? docType)%string
    (Fmt "doctype is %q, requested %q" [Text (DocType doc); Text docType]);
  let result := mdoc_result now doc in
  chk _ <- credential label (Checks result);
  chk _ <- warn_all (label +:+ "mdoc MSO declares its required members")
    (map Says (match MDOCVerify result with Some v => mr_Warnings v | None => [] end));
  chk transcript <- obtain (label +:+ "session transcript rebuilds") (because (rebuildSessionTranscript req));
  chk _ <- obtain (label +:+ "holder signed this request") (because (VerifyDeviceAuth doc transcript));
  chk _ <- check_paths (label +:+ "the requested elements are present") (mdoc_by_namespace doc) paths;
  ret (mdoc_claims doc).

(** ** verifyPresentation *)

Definition verify_one (fuel : nat) (now : time) (req : requestState) (q : credentialQuery) (label presentation : string) : checked object :=
  if (q_format q =? "mso_mdoc")%string then verifyMDOCPresentation now req presentation (q_docType q) (q_paths q) label
  else verifySDJWTEntry fuel now req presentation (q_vct q) (q_paths q) label.

Definition item_label (q : credentialQuery) (i : nat) : string :=
  if q_multiple q then label q +:+ "[" +:+ itoa (Z.of_nat i) +:+ "]: "
  else if negb (resultKey q =? "")%string then resultKey q +:+ ": " else "".

Fixpoint verify_items (fuel : nat) (now : time) (req : requestState) (q : credentialQuery) (i : nat) (presentations : list string) :
    checked (list object) :=
  match presentations with
  | [] => ret []
  | p :: presentations =>
      chk claims <- keep_failed p (verify_one fuel now req q (item_label q i) p);
      chk rest <- verify_items fuel now req q (S i) presentations;
      ret (claims :: rest)
  end.

(** [maps.Copy(result, claims)] *)
Definition copy_into (result claims : object) : object := fold_left (fun m kv => set kv.1 kv.2 m) claims result.

Definition add_answers (q : credentialQuery) (answers : list object) (result : object) : object :=
  if q_multiple q then set (label q) (VArr (map VObj answers)) result
  else if (resultKey q =? "")%string then copy_into result (default [] (head answers))
  else set (resultKey q) (VObj (default [] (head answers))) result.

Definition verify_query (fuel : nat) (now : time) (req : requestState) (q : credentialQuery) (presentations : list string) (result : object) :
    checked object :=
  match presentations with
  | [] => chk _ <- record (label q +:+ ": not presented, which the request allows") None; ret result
  | _ =>
      let n := length presentations in
      chk _ <- (if q_multiple q then ret ()
                else require ((if negb (resultKey q =? "")%string then resultKey q +:+ ": " else "") +:+ "vp_token holds exactly one presentation")
                       (n =? 1)%nat (Fmt "expected 1 presentation, got %d" [Text (itoa (Z.of_nat n))]));
      chk answers <- verify_items fuel now req q 0 presentations;
      chk _ <- (if q_multiple q then record (label q +:+ ": " +:+ itoa (Z.of_nat n) +:+ " presentation(s) verified") None else ret ());
      ret (add_answers q answers result)
  end.

(** [tokenDoc[id]] *)
Definition presentations_of (tokenDoc : list (string * list string)) (id : string) : list string :=
  default [] (snd <$> List.find (fun kv => (kv.1 =? id)%string) tokenDoc).

Fixpoint verify_queries (fuel : nat) (now : time) (req : requestState) (tokenDoc : list (string * list string))
    (recorded : bool) (queries : list credentialQuery) (result : object) : checked object :=
  match queries with
  | [] => ret result
  | q :: queries =>
      let presentations := presentations_of tokenDoc (q_id q) in
      chk _ <- (match presentations with p :: _ => if recorded then ret () else recordPresentation p | [] => ret () end);
      chk result <- verify_query fuel now req q presentations result;
      verify_queries fuel now req tokenDoc (recorded || negb (length presentations =? 0)%nat) queries result
  end.

Definition answered_ids (tokenDoc : list (string * list string)) (id : string) : bool :=
  negb (length (presentations_of tokenDoc id) =? 0)%nat.

Definition verifyPresentation (fuel : nat) (now : time) (req : requestState) (vpToken : string) : checked object :=
  if (trim_space vpToken =? "")%string
  then chk _ <- record "vp_token present" (Some (Because (Text "the response carried no vp_token"))); fail (Because (Text ""))
  else match decode_presentations vpToken with
  | None => chk _ <- record "vp_token parses" (Some (Because (Text "vp_token is not a JSON object of query id to presentations: %w"))); fail (Because (Text ""))
  | Some tokenDoc =>
      match List.find (fun kv => negb (contains (map q_id (rq_queries req)) kv.1)) tokenDoc with
      | Some (id, _) =>
          chk _ <- record "vp_token answers only requested queries" (Some (Because (Fmt "the request has no credential query %q" [Text id])));
          fail (Because (Text ""))
      | None =>
          chk _ <- record "vp_token satisfies the credential query" (of_why (unsatisfied (rq_queries req) (rq_sets req) (answered_ids tokenDoc)));
          verify_queries fuel now req tokenDoc false (rq_queries req) []
      end
  end.
End verification.
