(* ===== verification/VerifierFacts.v ===== *)
(** * VerifierFacts: what an accepted presentation establishes

    The inversion of the check list, the acceptance of an SD-JWT or mdoc
    presentation as a predicate on what was presented, and the answers a
    vp_token gives to a query. *)

From stdpp Require Import base list strings gmap.
From Stdlib Require Import ZArith Lia Ascii.
From S2P Require Import Prelude GoStrings GoValue Format CredType Validity StatusList SDJWT WalletState Present.
From S2P Require Import Certs Mdoc Validate ValidateFacts MdocFacts IssuerAuth VerifierChecks.

Local Open Scope Z_scope.

(** ** The check list *)

Lemma cbind_ok {A B} (m : checked A) (k : A -> checked B) log log' b :
  cbind m k log = Some (log', Ok b) <-> exists log1 a, m log = Some (log1, Ok a) /\ k a log1 = Some (log', Ok b).
Proof.
  unfold cbind. split.
  - intros Hm. destruct (m log) as [[log1 [a|f]]|]; simplify_eq/=; eauto.
  - intros (log1 & a & -> & Hk). done.
Qed.

Lemma ret_ok {A} (a b : A) log log' : ret a log = Some (log', Ok b) <-> log' = log /\ b = a.
Proof. unfold ret. split; [intros; by simplify_eq|by intros [-> ->]]. Qed.

Lemma fail_ok {A} f log log' (b : A) : fail f log = Some (log', Ok b) <-> False.
Proof. done. Qed.

Lemma record_ok name err log log' u :
  record name err log = Some (log', Ok u) <-> err = None /\ log' = log_entries [mkCheckEntry name true NoNote] log.
Proof. unfold record. destruct err, u; split; intros; destruct_and?; by simplify_eq. Qed.

Lemma require_ok name cond w log log' u :
  require name cond w log = Some (log', Ok u) <-> cond = true /\ log' = log_entries [mkCheckEntry name true NoNote] log.
Proof. unfold require. rewrite record_ok. destruct cond; naive_solver. Qed.

Lemma obtain_ok {A} name (r : result failure A) log log' a :
  obtain name r log = Some (log', Ok a) <-> r = Ok a /\ log' = log_entries [mkCheckEntry name true NoNote] log.
Proof.
  unfold obtain. destruct r as [b|f]; rewrite cbind_ok.
  - split.
    + intros (log1 & [] & [_ ->]%record_ok & [-> ->]%ret_ok). done.
    + intros [[= ->] ->]. eexists _, (). by rewrite record_ok, ret_ok.
  - split; [intros (log1 & [] & [? _]%record_ok & _)|intros []]; done.
Qed.

Lemma because_ok {A} (r : result why A) a : because r = Ok a <-> r = Ok a.
Proof. destruct r; simpl; naive_solver. Qed.

Lemma keep_failed_ok {A} p (m : checked A) log log' a : keep_failed p m log = Some (log', Ok a) <-> m log = Some (log', Ok a).
Proof. unfold keep_failed. destruct (m log) as [[log1 [b|f]]|]; simpl; naive_solver. Qed.

Lemma credential_ok lbl checks log log' u :
  credential lbl checks log = Some (log', Ok u) -> forall c, c ∈ checks -> rejects c = false.
Proof.
  unfold credential. intros Hc c Hin. destruct (List.find rejects checks) eqn:E; [done|].
  eapply find_none in E; [done|by apply list_elem_of_In].
Qed.

(** A computation that always gives this result. *)
Definition accepts {A} (m : checked A) (a : A) : Prop := forall log, exists log', m log = Some (log', Ok a).

Lemma accepts_bind {A B} (m : checked A) (k : A -> checked B) a b : accepts m a -> accepts (k a) b -> accepts (cbind m k) b.
Proof. intros Hm Hk log. destruct (Hm log) as [log1 H1], (Hk log1) as [log2 H2]. exists log2. apply cbind_ok. eauto. Qed.

Lemma accepts_ret {A} (a : A) : accepts (ret a) a.
Proof. intros log. by eexists. Qed.

Lemma accepts_record name err : err = None -> accepts (record name err) ().
Proof. intros -> log. by eexists. Qed.

Lemma accepts_require name cond w : cond = true -> accepts (require name cond w) ().
Proof. intros ->. by apply accepts_record. Qed.

Lemma accepts_obtain {A} name (r : result failure A) a : r = Ok a -> accepts (obtain name r) a.
Proof. intros ->. eapply accepts_bind; [by apply accepts_record|apply accepts_ret]. Qed.

Lemma accepts_credential lbl checks : (forall c, c ∈ checks -> rejects c = false) -> accepts (credential lbl checks) ().
Proof.
  intros Hall log. unfold credential. destruct (List.find rejects checks) as [c|] eqn:E; [|by eexists].
  apply find_some in E as [Hin%list_elem_of_In Hr]. rewrite Hall in Hr; done.
Qed.

Lemma accepts_warn_all name l : accepts (warn_all name l) ().
Proof. induction l as [|d l IH]; simpl; [apply accepts_ret|]. eapply accepts_bind; [|exact IH]. intros log. by eexists. Qed.

Lemma of_why_None w : of_why w = None <-> w = None.
Proof. by destruct w. Qed.

Ltac checked_inv :=
  repeat match goal with
  | Hx : cbind _ _ _ = Some (_, Ok _) |- _ => apply cbind_ok in Hx as (? & ? & ? & ?)
  | Hx : ret _ _ = Some (_, Ok _) |- _ => apply ret_ok in Hx as [? ?]; subst
  | Hx : fail _ _ = Some (_, Ok _) |- _ => by apply fail_ok in Hx
  | Hx : record _ _ _ = Some (_, Ok _) |- _ => apply record_ok in Hx as [? ?]; subst
  | Hx : require _ _ _ _ = Some (_, Ok _) |- _ => apply require_ok in Hx as [? ?]; subst
  | Hx : obtain _ _ _ = Some (_, Ok _) |- _ => apply obtain_ok in Hx as [? ?]; subst
  | Hx : keep_failed _ _ _ = Some (_, Ok _) |- _ => apply keep_failed_ok in Hx
  | Hx : because _ = Ok _ |- _ => apply because_ok in Hx
  end.

(** A check that is not refused. *)
Lemma accepted_check c name : rejects c = false -> c_Name c = name -> name ∈ decidingChecks -> c_Status c <> Fail.
Proof.
  unfold rejects. intros Hr <- Hd. apply contains_spec in Hd. rewrite Hd in Hr. cbn [andb] in Hr.
  apply orb_false_iff in Hr as [Hf _]. by apply bool_decide_eq_false in Hf.
Qed.

Lemma accepted_signature c : rejects c = false -> c_Name c = CheckSignature -> c_Status c = Pass.
Proof.
  unfold rejects. intros Hr Hn. rewrite Hn in Hr. cbn in Hr. apply orb_false_iff in Hr as [_ Hp]. by destruct (c_Status c).
Qed.

(** ** SD-JWT presentations *)

Section sdjwt.
Context {jose : Jose} {json : Json} {hash : Hash} {pki : Pki} {cbor_lib : Cbor} {cose : Cose pki}.
Context (fetch : string -> string -> option (string * string * string)).
Context (parseCWT : string -> CheckOptions -> result token_error statusListToken).
Context (trust : Trust).

(** The holder's signature over this presentation for this request. *)
Definition key_bound (now : time) (req : requestState) (presentation : string) (t : Token) : Prop :=
  exists kb jwk holderKey kbJWT,
    t_KeyBindingJWT t = Some kb /\ as_obj (index (get_obj (t_Payload t) "cnf") "jwk") = Some jwk /\
    holderKeyFromJWK jwk = Ok holderKey /\ parseCompactJWT (j_Raw kb) = Ok kbJWT /\
    get_string (c_header kbJWT) "typ" = "kb+jwt" /\
    verifyES256 holderKey (c_signingInput kbJWT) (c_signature kbJWT) = true /\
    kb_iat_error now (c_payload kbJWT) = None /\
    SDHash (up_to_last "~" presentation) (SDAlgFromPayload (t_Payload t)) = Ok (get_string (c_payload kbJWT) "sd_hash") /\
    get_string (c_payload kbJWT) "nonce" = rq_nonce req /\
    checkPresentationAudience req (get_string (c_payload kbJWT) "aud") = None.

(** The presentations the verifier accepts, as a predicate. *)
Record accepted_sdjwt (now : time) (req : requestState) (presentation vct : string) (paths : list (list value)) (t : Token) : Prop := {
  acc_referenced : checkDisclosuresReferenced t = None;
  acc_type : Answers (get_string (t_ResolvedClaims t) "vct") (AkaVCTs (t_ResolvedClaims t)) vct = true;
  acc_issuer : forall c, c ∈ sdjwt_checks fetch parseCWT trust now t -> rejects c = false;
  acc_binding : key_bound now req presentation t;
  acc_paths : missingClaimPaths (disclosedClaims t) paths = [] }.

Lemma key_binding_ok lbl now t log log' kbJWT :
  check_key_binding lbl now t log = Some (log', Ok kbJWT) ->
  exists kb jwk holderKey,
    t_KeyBindingJWT t = Some kb /\ as_obj (index (get_obj (t_Payload t) "cnf") "jwk") = Some jwk /\
    holderKeyFromJWK jwk = Ok holderKey /\ parseCompactJWT (j_Raw kb) = Ok kbJWT /\
    get_string (c_header kbJWT) "typ" = "kb+jwt" /\
    verifyES256 holderKey (c_signingInput kbJWT) (c_signature kbJWT) = true /\
    kb_iat_error now (c_payload kbJWT) = None.
Proof using.
  unfold check_key_binding. destruct (t_KeyBindingJWT t) as [kb|]; [|intros; by checked_inv].
  intros Hk. checked_inv. destruct (as_obj _) as [jwk|] eqn:Ej; [|done]. simplify_eq.
  match goal with Ht : (_ =? "kb+jwt")%string = true |- _ => apply String.eqb_eq in Ht end.
  match goal with Hi : of_why _ = None |- _ => apply of_why_None in Hi end. eauto 20.
Qed.

Lemma key_binding_accepts lbl now t kb jwk holderKey kbJWT :
  t_KeyBindingJWT t = Some kb -> as_obj (index (get_obj (t_Payload t) "cnf") "jwk") = Some jwk ->
  holderKeyFromJWK jwk = Ok holderKey -> parseCompactJWT (j_Raw kb) = Ok kbJWT ->
  get_string (c_header kbJWT) "typ" = "kb+jwt" ->
  verifyES256 holderKey (c_signingInput kbJWT) (c_signature kbJWT) = true ->
  kb_iat_error now (c_payload kbJWT) = None ->
  accepts (check_key_binding lbl now t) kbJWT.
Proof using.
  intros Hkb Hjwk Hkey Hparse Htyp Hver Hiat. unfold check_key_binding. rewrite Hkb, Hjwk.
  eapply accepts_bind; [by apply accepts_record|]. eapply accepts_bind; [by apply accepts_obtain|].
  eapply accepts_bind; [by apply accepts_obtain; rewrite Hkey|]. eapply accepts_bind; [by apply accepts_obtain; rewrite Hparse|].
  eapply accepts_bind; [by apply accepts_require; rewrite Htyp|]. eapply accepts_bind; [by apply accepts_require|].
  eapply accepts_bind; [by apply accepts_record; rewrite Hiat|]. apply accepts_ret.
Qed.

Lemma binding_ok lbl req presentation t kbJWT log log' u :
  check_binding lbl req presentation t kbJWT log = Some (log', Ok u) ->
  SDHash (up_to_last "~" presentation) (SDAlgFromPayload (t_Payload t)) = Ok (get_string (c_payload kbJWT) "sd_hash") /\
  get_string (c_payload kbJWT) "nonce" = rq_nonce req /\ checkPresentationAudience req (get_string (c_payload kbJWT) "aud") = None.
Proof using.
  unfold check_binding. destruct (SDHash _ _) as [h|]; [|intros Hr; by apply record_ok in Hr as [? _]].
  intros Hk. checked_inv. repeat match goal with Ht : (_ =? _)%string = true |- _ => apply String.eqb_eq in Ht end.
  match goal with Hi : of_why _ = None |- _ => apply of_why_None in Hi end. subst. done.
Qed.

Lemma binding_accepts lbl req presentation t kbJWT :
  SDHash (up_to_last "~" presentation) (SDAlgFromPayload (t_Payload t)) = Ok (get_string (c_payload kbJWT) "sd_hash") ->
  get_string (c_payload kbJWT) "nonce" = rq_nonce req -> checkPresentationAudience req (get_string (c_payload kbJWT) "aud") = None ->
  accepts (check_binding lbl req presentation t kbJWT) ().
Proof using.
  intros Hh Hn Ha. unfold check_binding. rewrite Hh.
  eapply accepts_bind; [apply accepts_require, String.eqb_refl|]. eapply accepts_bind; [by apply accepts_require; rewrite Hn, String.eqb_refl|].
  apply accepts_record. by rewrite Ha.
Qed.

(** The verifier accepts exactly the presentations that meet the predicate,
    and shows their disclosed claims. *)
Lemma verifySDJWTEntry_spec fuel now req presentation vct paths lbl log claims :
  (exists log', verifySDJWTEntry fetch parseCWT trust fuel now req presentation vct paths lbl log = Some (log', Ok claims)) <->
  exists t, Parse fuel presentation = Some (Ok t) /\ accepted_sdjwt now req presentation vct paths t /\ claims = disclosedClaims t.
Proof using.
  unfold verifySDJWTEntry. split.
  - intros [log' Hv]. destruct (Parse fuel presentation) as [parsed|]; [|done]. cbn [mbind option_bind] in Hv. checked_inv.
    destruct parsed as [t'|]; [|done]. simplify_eq. eexists. split; [reflexivity|]. split; [|done].
    match goal with Hk : check_key_binding _ _ _ _ = _ |- _ => apply key_binding_ok in Hk as (kb & jwk & key & ?) end.
    match goal with Hk : check_binding _ _ _ _ _ _ = _ |- _ => apply binding_ok in Hk end.
    match goal with Hi : of_why _ = None |- _ => apply of_why_None in Hi end.
    match goal with Hk : check_type _ _ _ _ = _ |- _ => apply require_ok in Hk as [? _] end.
    match goal with Hk : check_paths _ _ _ _ = _ |- _ => apply record_ok in Hk as [? _] end.
    match goal with Hk : credential _ _ _ = _ |- _ => pose proof (credential_ok _ _ _ _ _ Hk) end.
    split; try done; [|by destruct (missingClaimPaths _ _)]. unfold key_bound. destruct_and!. eauto 20.
  - intros (t & -> & [Href Htype Hissuer (kb & jwk & key & kbJWT & ? & ? & ? & ? & ? & ? & ? & ? & ? & ?) Hpaths] & ->). cbn [mbind option_bind].
    match goal with |- exists log', ?m log = Some (log', Ok ?a) => cut (accepts m a); [by auto|] end.
    eapply accepts_bind; [by apply accepts_obtain|]. eapply accepts_bind; [apply accepts_warn_all|].
    eapply accepts_bind; [by apply accepts_record; rewrite Href|]. eapply accepts_bind; [by apply accepts_require|].
    eapply accepts_bind; [by apply accepts_credential|]. eapply accepts_bind; [by eapply key_binding_accepts|].
    eapply accepts_bind; [by apply binding_accepts|]. eapply accepts_bind; [by apply accepts_record; rewrite Hpaths|]. apply accepts_ret.
Qed.
End sdjwt.

(** ** mdoc presentations and whole tokens *)

Section tokens.
Context {jose : Jose} {json : Json} {hash : Hash} {pki : Pki} {cbor_lib : Cbor} {cose : Cose pki}.
Context (fetch : string -> string -> option (string * string * string)).
Context (parseCWT : string -> CheckOptions -> result token_error statusListToken).
Context (base : string) (trust : Trust).
Context (decode_presentations : string -> option (list (string * list string))).

Record accepted_mdoc (now : time) (req : requestState) (docType : string) (paths : list (list value)) (doc : Document) : Prop := {
  acd_type : DocType doc = docType;
  acd_issuer : forall c, c ∈ Checks (mdoc_result fetch parseCWT trust now doc) -> rejects c = false;
  acd_holder : exists transcript, rebuildSessionTranscript base req = Ok transcript /\ VerifyDeviceAuth doc transcript = Ok ();
  acd_paths : missingClaimPaths (mdoc_by_namespace doc) paths = [] }.

Lemma verifyMDOCPresentation_spec now req presentation docType paths lbl log claims :
  (exists log', verifyMDOCPresentation fetch parseCWT base trust now req presentation docType paths lbl log = Some (log', Ok claims)) <->
  exists doc, mdoc_Parse presentation = Ok doc /\ accepted_mdoc now req docType paths doc /\ claims = mdoc_claims doc.
Proof using.
  unfold verifyMDOCPresentation. split.
  - intros [log' Hv]. checked_inv.
    match goal with Hk : check_paths _ _ _ _ = _ |- _ => apply record_ok in Hk as [? _] end.
    match goal with Ht : (_ =? _)%string = true |- _ => apply String.eqb_eq in Ht end.
    match goal with Hk : credential _ _ _ = _ |- _ => pose proof (credential_ok _ _ _ _ _ Hk) end.
    eexists. split; [eassumption|]. split; [|done]. split; try done; [|by destruct (missingClaimPaths _ _)].
    match goal with Hd : VerifyDeviceAuth _ _ = Ok ?u |- _ => destruct u end. eauto.
  - intros (doc & Hp & [Htype Hissuer (transcript & Htr & Hdev) Hpaths] & ->).
    match goal with |- exists log', ?m log = Some (log', Ok ?a) => cut (accepts m a); [by auto|] end.
    eapply accepts_bind; [by apply accepts_obtain; rewrite Hp|]. eapply accepts_bind; [by apply accepts_require; rewrite Htype, String.eqb_refl|].
    eapply accepts_bind; [by apply accepts_credential|]. eapply accepts_bind; [apply accepts_warn_all|].
    eapply accepts_bind; [by apply accepts_obtain; rewrite Htr|]. eapply accepts_bind; [by apply accepts_obtain; rewrite Hdev|].
    eapply accepts_bind; [by apply accepts_record; rewrite Hpaths|]. apply accepts_ret.
Qed.

(** One presentation answers a query. *)
Definition answers_query (now : time) (req : requestState) (q : credentialQuery) (presentation : string) : Prop :=
  if (q_format q =? "mso_mdoc")%string
  then exists doc, mdoc_Parse presentation = Ok doc /\ accepted_mdoc now req (q_docType q) (q_paths q) doc
  else exists fuel t, Parse fuel presentation = Some (Ok t) /\
         accepted_sdjwt fetch parseCWT trust now req presentation (q_vct q) (q_paths q) t.

Lemma verify_one_answers fuel now req q lbl p log log' claims :
  verify_one fetch parseCWT base trust fuel now req q lbl p log = Some (log', Ok claims) -> answers_query now req q p.
Proof using.
  unfold verify_one, answers_query. destruct (q_format q =? "mso_mdoc")%string; intros Hv.
  - destruct (proj1 (verifyMDOCPresentation_spec now req p (q_docType q) (q_paths q) lbl log claims) (ex_intro _ _ Hv)) as (doc & ? & ? & _). by exists doc.
  - destruct (proj1 (verifySDJWTEntry_spec fetch parseCWT trust fuel now req p (q_vct q) (q_paths q) lbl log claims) (ex_intro _ _ Hv)) as (t & ? & ? & _).
    by exists fuel, t.
Qed.

Lemma verify_items_answers fuel now req q i ps log log' answers :
  verify_items fetch parseCWT base trust fuel now req q i ps log = Some (log', Ok answers) -> Forall (answers_query now req q) ps.
Proof using.
  revert i log answers. induction ps as [|p ps IH]; intros i log answers Hv; [constructor|]. cbn [verify_items] in Hv. checked_inv.
  constructor; [by eapply verify_one_answers|by eapply IH].
Qed.

(** How a query is answered by the presentations under its id. *)
Definition query_answered (now : time) (req : requestState) (q : credentialQuery) (ps : list string) : Prop :=
  (q_multiple q = false -> length ps <= 1)%nat /\ Forall (answers_query now req q) ps.

Lemma verify_query_answered fuel now req q ps acc log log' r :
  verify_query fetch parseCWT base trust fuel now req q ps acc log = Some (log', Ok r) -> query_answered now req q ps.
Proof using.
  unfold verify_query, query_answered. destruct ps as [|p ps]; [split; [simpl; lia|constructor]|]. intros Hv. checked_inv. split.
  - destruct (q_multiple q); [done|]. intros _. checked_inv.
    match goal with Hn : (_ =? 1)%nat = true |- _ => apply Nat.eqb_eq in Hn; lia end.
  - by eapply verify_items_answers.
Qed.

Lemma verify_queries_answered fuel now req doc recorded queries acc log log' r :
  verify_queries fetch parseCWT base trust fuel now req doc recorded queries acc log = Some (log', Ok r) ->
  forall q, q ∈ queries -> query_answered now req q (presentations_of doc (q_id q)).
Proof using.
  revert recorded acc log. induction queries as [|q0 queries IH]; intros recorded acc log Hv q; [by intros ?%elem_of_nil|].
  cbn [verify_queries] in Hv. checked_inv. intros [->|Hq]%elem_of_cons; [by eapply verify_query_answered|by eapply IH].
Qed.

(** The sets of a request are satisfied by the answered ids. *)
Definition satisfies (queries : list credentialQuery) (sets : list credentialSet) (answered : string -> bool) : Prop :=
  (sets = [] -> forall q, q ∈ queries -> answered (q_id q) = true) /\
  forall s, s ∈ sets -> optional s = false -> exists option, option ∈ options s /\ forall id, id ∈ option -> answered id = true.

Lemma unsatisfied_spec queries sets answered : unsatisfied queries sets answered = None <-> satisfies queries sets answered.
Proof using.
  unfold unsatisfied, satisfies. destruct sets as [|s0 sets].
  - split.
    + intros Hm. split; [|by intros s ?%elem_of_nil]. intros _ q Hq. destruct (answered (q_id q)) eqn:Ea; [done|].
      assert (Hin : q_id q ∈ List.filter (fun id => negb (answered id)) (map q_id queries)).
      { apply elem_of_Lfilter. rewrite Ea. split; [|done]. apply list_elem_of_fmap. by exists q. }
      destruct (List.filter _ _); [by apply elem_of_nil in Hin|done].
    + intros [Hall _]. destruct (List.filter _ _) as [|id l] eqn:E; [done|].
      assert (Hin : id ∈ List.filter (fun id => negb (answered id)) (map q_id queries)) by (rewrite E; by left).
      apply elem_of_Lfilter in Hin as [(q & -> & Hq)%list_elem_of_fmap Hn]. by rewrite (Hall eq_refl q Hq) in Hn.
  - rewrite find_map_None. split.
    + intros Hall. split; [done|]. intros s Hs Ho. specialize (Hall s Hs). unfold unsatisfied_set in Hall. rewrite Ho in Hall. cbn [orb] in Hall.
      destruct (existsb (option_answered answered) (options s)) eqn:Ee; [|done]. apply existsb_exists in Ee as (o & Hin%list_elem_of_In & Hf).
      exists o. split; [done|]. unfold option_answered in Hf. rewrite forallb_forall in Hf. intros id Hid. by apply Hf, list_elem_of_In.
    + intros [_ Hall] s Hs. unfold unsatisfied_set. destruct (optional s) eqn:Eo; [done|]. destruct (Hall s Hs Eo) as (o & Ho & Hids).
      assert (existsb (option_answered answered) (options s) = true) as ->; [|done]. apply existsb_exists. exists o.
      split; [by apply list_elem_of_In|]. apply forallb_forall. intros id Hid%list_elem_of_In. by apply Hids.
Qed.

(** A vp_token that answers a request. *)
Definition answers_request (now : time) (req : requestState) (doc : list (string * list string)) : Prop :=
  (forall id ps, (id, ps) ∈ doc -> exists q, q ∈ rq_queries req /\ q_id q = id) /\
  satisfies (rq_queries req) (rq_sets req) (answered_ids doc) /\
  forall q, q ∈ rq_queries req -> query_answered now req q (presentations_of doc (q_id q)).

Lemma verifyPresentation_answers fuel now req vpToken log log' r :
  verifyPresentation fetch parseCWT base trust decode_presentations fuel now req vpToken log = Some (log', Ok r) ->
  exists doc, decode_presentations vpToken = Some doc /\ answers_request now req doc.
Proof using.
  unfold verifyPresentation. destruct (trim_space vpToken =? "")%string; [intros; by checked_inv|].
  destruct (decode_presentations vpToken) as [doc|]; [|intros; by checked_inv].
  destruct (List.find _ doc) as [[id ps]|] eqn:Ef; [intros; by checked_inv|]. intros Hv. checked_inv. exists doc. split; [done|]. split_and!.
  - intros id ps Hin%list_elem_of_In. eapply find_none in Ef; [|exact Hin]. cbn in Ef. apply negb_false_iff, contains_spec, list_elem_of_fmap in Ef as (q & -> & Hq).
    by exists q.
  - match goal with Hi : of_why _ = None |- _ => apply of_why_None, unsatisfied_spec in Hi end. done.
  - by eapply verify_queries_answered.
Qed.
End tokens.
