(* ===== verification/VerifierProps.v ===== *)
(** * VerifierProps: the properties of a verification

    An accepted presentation is genuine, fresh and bound to the request; an
    accepted vp_token answers the request's query. *)

From stdpp Require Import base list strings gmap.
From Stdlib Require Import ZArith Lia Ascii.
From S2P Require Import Prelude GoStrings GoValue Format CredType Validity StatusList SDJWT WalletState Present.
From S2P Require Import Certs Mdoc Validate ValidateFacts MdocFacts IssuerAuth VerifierChecks VerifierFacts.

Local Open Scope Z_scope.

Section properties.
Context {jose : Jose} {json : Json} {hash : Hash} {pki : Pki} {cbor_lib : Cbor} {cose : Cose pki}.
Context (fetch : string -> string -> option (string * string * string)).
Context (parseCWT : string -> CheckOptions -> result token_error statusListToken).
Context (issuance revocation anchors : list X509Cert).

Abbreviation trust := (credentialTrust issuance revocation anchors).

(** Every disclosure is referenced, and none comes twice. *)
Lemma disclosures_referenced_spec referenced seen ds :
  disclosures_referenced referenced seen ds = None ->
  NoDup (map d_Digest ds) /\ forall d, d ∈ ds -> d_Digest d ∈ referenced /\ d_Digest d ∉ seen.
Proof using.
  revert seen. induction ds as [|d ds IH]; intros seen; simpl; [split; [constructor|by intros d ?%elem_of_nil]|].
  destruct (bool_decide_reflect (d_Digest d ∈ referenced)); [|done]. destruct (bool_decide_reflect (d_Digest d ∈ seen)); [done|]. cbn [negb].
  intros [Hn Hall]%IH. split.
  - constructor; [|done]. intros (d2 & He & Hin)%list_elem_of_fmap. destruct (Hall d2 Hin) as [_ Hne]. set_solver.
  - intros d2 [->|Hd2]%elem_of_cons; [done|]. destruct (Hall d2 Hd2). set_solver.
Qed.

Lemma paths_present claims paths :
  missingClaimPaths claims paths = [] -> forall path, path ∈ paths -> claimPathPresent (VObj claims) path = true.
Proof.
  unfold missingClaimPaths. intros Hm path Hp. destruct (claimPathPresent (VObj claims) path) eqn:E; [done|].
  assert (Hin : path ∈ List.filter (fun p => negb (claimPathPresent (VObj claims) p)) paths) by (apply elem_of_Lfilter; by rewrite E).
  rewrite Hm in Hin. by apply elem_of_nil in Hin.
Qed.

(** The issuer's side of an accepted credential: one of the deciding checks
    is the signature. *)
Record issuer_vouches (now : time) (t : Token) : Prop := {
  iv_type : get "typ" (t_Header t) = Some (VString TypeSDJWTVC);
  iv_key : exists key certs, signed_with t key /\ chain_key certs (issuance ++ anchors) key /\
    (X5CCertificates (t_Header t) = Ok certs \/ metadata_source t (issuance ++ anchors) key);
  iv_live : NotYet (unix_claim (t_Payload t) "nbf") now = false /\ Expired (unix_claim (t_Payload t) "exp") now = false;
  iv_status : status_good fetch parseCWT trust credentialChecks now (t_ResolvedClaims t) FormatJWT None }.

Lemma sdjwt_checks_vouch now t :
  (forall c, c ∈ sdjwt_checks fetch parseCWT trust now t -> rejects c = false) -> issuer_vouches now t.
Proof using.
  intros Hall. unfold sdjwt_checks, SDJWT in Hall. cbn [Checks] in Hall.
  change (catalogue trust credentialChecks (t_Raw t)) with (@None CatalogueAnchoring) in Hall.
  change (run_now credentialChecks now) with now in Hall.
  assert (Hin : forall c, c ∈ [CheckSDJWTType t; jwtValidity (t_Payload t) now; CheckSDJWTIntegrity t] \/
      c = (jwtSignature trust credentialChecks now t None).1 \/
      c ∈ (status fetch parseCWT trust credentialChecks now (t_ResolvedClaims t) FormatJWT None).1 -> rejects c = false).
  { intros c Hc. apply Hall. rewrite !elem_of_app. destruct Hc as [Hc|[->|Hc]]; [by left|right; right; left; by left|right; right; right; by left]. }
  split.
  - apply CheckSDJWTType_pass. apply (accepted_check _ CheckType); [apply Hin; left; by left| |by left]. by apply CheckSDJWTType_name.
  - assert (Hp : c_Status (jwtSignature trust credentialChecks now t None).1 = Pass).
    { apply accepted_signature; [apply Hin; right; by left|apply jwtSignature_name]. }
    apply jwtSignature_pass in Hp as (_ & [Hne|[Hne|Hne]] & key & Hsrc & Hsig); [done|done| |done]. cbn in Hne, Hsrc.
    destruct Hsrc as [certs Hc Hk|Hk|_ Hm|leaf rest _ Ha Hc Hk]; [exists key, certs; by auto|by apply elem_of_nil in Hk| |done].
    pose proof Hm as (u & doc & jwk & _ & _ & _ & _ & [[Ha _]|(certs & _ & Hk)]); [done|]. exists key, certs. auto.
  - apply (validityCheck_live _ (unix_claim (t_Payload t) "iat") _ now "No exp claim present"). eapply accepted_check; [apply Hin; left; right; by left| |right; by left].
    apply validityCheck_name.
  - apply status_pass; [done..|]. intros c Hc Hn. apply (accepted_check _ CheckStatus); [apply Hin; auto|done|]. by repeat (first [by left|right]).
Qed.

(** C1: an SD-JWT presentation the verifier accepts is genuine: a trusted
    issuer's chain, from the x5c header or the issuer's metadata, vouches for
    the credential, which is live and not revoked; every disclosure is one the
    credential refers to, once; the holder signed this presentation for this
    request; the type and the requested claims are there.  The verifier shows
    the disclosed claims of that token. *)
Theorem accepted_presentation_is_genuine fuel now req presentation vct paths lbl log log' claims :
  verifySDJWTEntry fetch parseCWT trust fuel now req presentation vct paths lbl log = Some (log', Ok claims) ->
  exists t, Parse fuel presentation = Some (Ok t) /\ claims = disclosedClaims t /\
    issuer_vouches now t /\
    NoDup (map d_Digest (t_Disclosures t)) /\ (forall d, d ∈ t_Disclosures t -> d_Digest d ∈ ReferencedDigests t) /\
    key_bound now req presentation t /\
    Answers (get_string (t_ResolvedClaims t) "vct") (AkaVCTs (t_ResolvedClaims t)) vct = true /\
    forall path, path ∈ paths -> claimPathPresent (VObj claims) path = true.
Proof using.
  intros Hv. destruct (proj1 (verifySDJWTEntry_spec _ _ _ _ _ _ _ _ _ lbl log _) (ex_intro _ _ Hv)) as (t & Hp & [Href Htype Hi Hb Hpaths] & ->).
  exists t. apply disclosures_referenced_spec in Href as [Hn Href]. split_and!; try done; [by apply sdjwt_checks_vouch|naive_solver|].
  by apply paths_present.
Qed.

(** What an accepted mdoc establishes about the issuer. *)
Record mdoc_vouched (now : time) (doc : Document) (mso : MSO) : Prop := {
  mv_elements : forall ns items item, (ns, items) ∈ doc_NameSpaces doc -> item ∈ items ->
    exists digest_of, DigestHasher (DigestAlgorithm mso) = Ok digest_of /\ element_signed mso digest_of ns item;
  mv_key : exists leaf rest, ExtractMDOCX5ChainCertificates doc = Ok (leaf :: rest) /\ issuance ++ anchors <> [] /\
    chain_verifies (issuance ++ anchors) rest leaf = true /\ mdoc_signed_with doc (cert_PublicKey leaf);
  mv_live : forall vi, mso_ValidityInfo mso = Some vi -> NotYet (ValidFrom vi) now = false /\ Expired (ValidUntil vi) now = false;
  mv_status : status_good fetch parseCWT trust credentialChecks now (StatusClaims doc) FormatCWT None }.

Lemma mdoc_checks_vouch now doc mso :
  doc_mso doc = Some mso -> (forall c, c ∈ Checks (mdoc_result fetch parseCWT trust now doc) -> rejects c = false) -> mdoc_vouched now doc mso.
Proof using.
  intros Hm Hall. unfold mdoc_result, MDOC in Hall. cbn [Checks] in Hall.
  change (catalogue trust credentialChecks (EncodeBase64URL (doc_Raw doc))) with (@None CatalogueAnchoring) in Hall.
  change (run_now credentialChecks now) with now in Hall.
  assert (Hin : forall c, c ∈ [mdocValidity doc now; CheckMDOCIntegrity doc] \/ c = (mdocSignature trust now doc None).1 \/
      c ∈ (status fetch parseCWT trust credentialChecks now (StatusClaims doc) FormatCWT None).1 -> rejects c = false).
  { intros c Hc. apply Hall. rewrite !elem_of_app. destruct Hc as [Hc|[->|Hc]]; [by left|right; right; left; by left|by right; right; right]. }
  split.
  - intros ns items item. apply mdoc_integrity; [done|]. apply (accepted_check _ CheckIntegrity); [apply Hin; left; right; by left| |by repeat (first [by left|right])].
    apply CheckMDOCIntegrity_name.
  - assert (Hp : c_Status (mdocSignature trust now doc None).1 = Pass) by (apply accepted_signature; [apply Hin; right; by left|apply mdocSignature_name]).
    apply mdocSignature_pass in Hp as (_ & key & Hs & [Hk|(leaf & rest & Hx & Hne & Hv & ->)]); [by apply elem_of_nil in Hk| |done]. by exists leaf, rest.
  - intros vi Hvi. apply (mdocValidity_live _ _ _ _ Hm Hvi). apply (accepted_check _ CheckExpiry); [apply Hin; left; by left| |right; by left].
    apply mdocValidity_name.
  - apply status_pass; [done..|]. intros c Hc Hn. apply (accepted_check _ CheckStatus); [apply Hin; auto|done|]. by repeat (first [by left|right]).
Qed.

(** C2: an mdoc the verifier accepts is genuine: every element it shows has
    its digest in the mobile security object, a chain to a trusted issuer
    signs that object, which is live and not revoked, and the device key in it
    signed the session transcript of this request. *)
Theorem accepted_mdoc_is_genuine base now req presentation docType paths lbl log log' claims :
  verifyMDOCPresentation fetch parseCWT base trust now req presentation docType paths lbl log = Some (log', Ok claims) ->
  exists doc mso transcript, mdoc_Parse presentation = Ok doc /\ claims = mdoc_claims doc /\
    doc_mso doc = Some mso /\ mdoc_vouched now doc mso /\
    rebuildSessionTranscript base req = Ok transcript /\ holder_signed doc transcript /\
    DocType doc = docType /\ forall path, path ∈ paths -> claimPathPresent (VObj (mdoc_by_namespace doc)) path = true.
Proof using.
  intros Hv. destruct (proj1 (verifyMDOCPresentation_spec _ _ _ _ _ _ _ _ _ lbl log _) (ex_intro _ _ Hv)) as (doc & Hp & [Ht Hi (transcript & Htr & Hdev) Hpaths] & ->).
  apply VerifyDeviceAuth_ok in Hdev. pose proof Hdev as (ds & key & payload & _ & Hkey & _). apply DeviceKey_mso in Hkey as [[mso Hm] _].
  exists doc, mso, transcript. split_and!; try done; [by apply mdoc_checks_vouch|by apply paths_present].
Qed.

(** C3: a vp_token the verifier accepts answers the request: it holds only
    requested queries, satisfies the required credential sets, holds one
    presentation for a query that allows no more, and every presentation is one
    the verifier accepts for its query. *)
Theorem accepted_token_answers base decode fuel now req vpToken log log' r :
  verifyPresentation fetch parseCWT base trust decode fuel now req vpToken log = Some (log', Ok r) ->
  exists doc, decode vpToken = Some doc /\ answers_request fetch parseCWT base trust now req doc.
Proof using. apply verifyPresentation_answers. Qed.

(** *** The type of an mdoc *)

(** The document with another type in the MSO the issuer signed; the type
    outside the signature stays. *)
Definition retype (docType : string) (doc : Document) : Document :=
  let retype_mso m := mkMSO (mso_Version m) (DigestAlgorithm m) docType (ValueDigests m) (mso_ValidityInfo m) (DeviceKeyInfo m)
                        (DeviceKeyCBOR m) (mso_Status m) in
  let retype_auth ia := mkIssuerAuth (RawCOSE ia) (ProtectedHeader ia) (UnprotectedHeader ia) (ia_Payload ia) (ia_Signature ia)
                          (retype_mso <$> ia_MSO ia) in
  mkDocument (doc_Raw doc) (DocType doc) (doc_NameSpaces doc) (retype_auth <$> doc_IssuerAuth doc) (doc_DeviceSigned doc)
    (ResponseVersion doc) (ResponseStatus doc) (IsDeviceResponse doc) (Deviations doc).

Lemma retype_verify docType now doc key : mdoc_Verify now (retype docType doc) key = mdoc_Verify now doc key.
Proof.
  unfold mdoc_Verify, retype. cbn. destruct (doc_IssuerAuth doc) as [ia|]; [|done]. cbn. unfold signature_errors. cbn.
  by destruct (ia_MSO ia).
Qed.

Lemma retype_checks docType now doc :
  Checks (mdoc_result fetch parseCWT trust now (retype docType doc)) = Checks (mdoc_result fetch parseCWT trust now doc).
Proof using.
  assert (Hkeys : forall keys last, mdoc_keys now (retype docType doc) keys last = mdoc_keys now doc keys last).
  { induction keys as [|k keys IH]; intros last; simpl; [done|]. by rewrite !retype_verify, IH. }
  assert (Hwith : forall chain reasons last, mdoc_without_chain trust now (retype docType doc) chain reasons last =
                                             mdoc_without_chain trust now doc chain reasons last).
  { intros chain reasons last. unfold mdoc_without_chain. rewrite Hkeys. destruct (mdoc_keys now doc (Keys trust) last); [done|].
    destruct chain; by rewrite ?retype_verify. }
  assert (Hsig : forall c, mdocSignature trust now (retype docType doc) c = mdocSignature trust now doc c).
  { intros c. unfold mdocSignature. assert (ExtractMDOCX5ChainCertificates (retype docType doc) = ExtractMDOCX5ChainCertificates doc) as ->.
    { unfold ExtractMDOCX5ChainCertificates, retype. cbn. by destruct (doc_IssuerAuth doc). }
    destruct (TrustErr trust), (emptyTrust trust); try done. destruct (ExtractMDOCX5ChainCertificates doc) as [chain|]; [|done].
    destruct (match catalogueAnchors trust c with Some a => _ | None => _ end), chain as [|leaf rest]; rewrite ?Hwith; try done.
    destruct (certchain_Verify _ _); rewrite ?retype_verify, ?Hwith; [|done]. destruct (mr_SignatureValid _); [done|]. by rewrite ?Hwith. }
  unfold mdoc_result, MDOC. cbn [Checks]. change (doc_Raw (retype docType doc)) with (doc_Raw doc). rewrite Hsig.
  unfold mdocValidity, CheckMDOCIntegrity, VerifyValueDigests, StatusClaims, retype. cbn.
  destruct (doc_IssuerAuth doc) as [ia|]; [|done]. cbn. by destruct (ia_MSO ia).
Qed.

Lemma retype_device docType doc transcript : VerifyDeviceAuth (retype docType doc) transcript = VerifyDeviceAuth doc transcript.
Proof using.
  unfold VerifyDeviceAuth, DeviceKey, retype. cbn. destruct (_ ← doc_DeviceSigned doc; _); [|done].
  destruct (doc_IssuerAuth doc) as [ia|]; [|done]. cbn. by destruct (ia_MSO ia).
Qed.

(** The issuer-signed part of a document when its mobile security object names
    another type; alone it is a document of that type. *)
Definition issuer_signed_as (docType : string) (part : Document) : Document :=
  let part := retype docType part in
  mkDocument (doc_Raw part) docType (doc_NameSpaces part) (doc_IssuerAuth part) (doc_DeviceSigned part)
    (ResponseVersion part) (ResponseStatus part) (IsDeviceResponse part) (Deviations part).

(** C40: when a device response writes a document type beside the issuer-signed
    part, that type is the only one that counts: the verifier accepts the
    document for no other, and it accepts the document or not whatever type the
    issuer signed in the mobile security object.  The written type is the
    wallet's, signed by the device alone.  (A response that writes none is taken
    for a document of the type the issuer signed.) *)
Theorem signed_doctype_is_not_compared base now req requested signed paths data resp docMap part written :
  get_text "docType" docMap = Some written ->
  let accepts doc := accepted_mdoc fetch parseCWT base trust now req requested paths (with_response data resp docMap doc) in
  (accepts part -> requested = written) /\ (accepts part <-> accepts (issuer_signed_as signed part)).
Proof using.
  intros Hw accepts. assert (E : forall doc, DocType (with_response data resp docMap doc) = written) by (intros doc; cbn; by rewrite Hw).
  split; [intros [Ht _ _ _]; by rewrite <- Ht, E|]. unfold accepts.
  assert (with_response data resp docMap (issuer_signed_as signed part) = retype signed (with_response data resp docMap part)) as ->.
  { unfold with_response, issuer_signed_as, retype. cbn. by rewrite Hw. }
  split; intros [Ht Hi (tr & Htr & Hd) Hp]; split; try done.
  - by rewrite retype_checks.
  - exists tr. by rewrite retype_device.
  - by rewrite retype_checks in Hi.
  - exists tr. by rewrite retype_device in Hd.
Qed.
End properties.

(** ** Witnesses *)

Module VerifierToy.
#[local] Instance toy_jose : Jose := {
  ECKey := string; Cert := string;
  unmarshal_jwk _ := Some (JoseEC "holder");
  ec_coords k := Some (k, k);
  jws_valid _ _ := true;
  parse_certificate s := Some s;
  cert_ec_key _ := Some "holder";
  common_name s := s;
  verifies _ _ _ := true }.

#[local] Instance toy_hash : Hash := { sha256 s := s; sha384 s := s; sha512 s := s }.

#[local] Instance toy_pki : Pki := {
  PubKey := string; X509Cert := string;
  ParseCertificate s := Some s; cert_Raw c := c; Parse_Raw c := eq_refl;
  cert_PublicKey c := Some c; cert_Subject c := c; cert_Issuer c := c; cert_CommonName c := c;
  chain_verifies roots _ leaf := contains roots leaf;
  signs_itself _ := false;
  jose_verifies _ key := (key =? "issuer")%string;
  ParsePublicKey _ := None; url_Parse _ := None; http_get _ := Err (Text "offline"); decode_first_object _ := None;
  zlib_inflate _ := None; flate_inflate _ := ([], false) }.

(** An SD-JWT with one disclosure, and its key binding JWT. *)
Definition disclosure : string := EncodeBase64URL "name".
Definition issuer_part : string := EncodeBase64URL "h" +:+ "." +:+ EncodeBase64URL "p" +:+ ".c2ln".
Definition shown : string := issuer_part +:+ "~" +:+ disclosure +:+ "~".
Definition signature64 : string := String.concat "" (repeat "xxxxxxxx" 8).
Definition presentation : string :=
  shown +:+ EncodeBase64URL "kh" +:+ "." +:+ EncodeBase64URL "kp" +:+ "." +:+ EncodeBase64URL signature64.

Definition issuer_header : object := [("alg", VString "ES256"); ("typ", VString "dc+sd-jwt"); ("x5c", VArr [VString "aXNzdWVy"])].
Definition issuer_payload : object :=
  [("vct", VString "urn:pid"); ("cnf", VObj [("jwk", VObj [])]); ("_sd_alg", VString "sha-256");
   ("_sd", VArr [VString (EncodeBase64URL disclosure)])].
Definition kb_claims : object :=
  [("iat", VFloat (float64_of_Z 1000000)); ("nonce", VString "nonce"); ("aud", VString "x509_hash:verifier");
   ("sd_hash", VString (EncodeBase64URL shown))].

#[local] Instance toy_json : Json := {
  unmarshal_object s :=
    if (s =? "h")%string then Some issuer_header
    else if (s =? "p")%string then Some issuer_payload
    else if (s =? "kh")%string then Some [("alg", VString "ES256"); ("typ", VString "kb+jwt")]
    else if (s =? "kp")%string then Some kb_claims
    else None;
  unmarshal_array s := if (s =? "name")%string then Some [VString "salt"; VString "given_name"; VString "Alice"] else None }.

(** The CBOR documents of an mdoc presentation, each under a text that is long
    enough for it. *)
Definition padded (s : string) : string := s +:+ String.concat "" (repeat "          " 12).
Definition auth : cbor := CArr [CText "COSE_Sign1"].
Definition item : cbor := CMap [(CText "digestID", CInt KUint64 7); (CText "elementIdentifier", CText "given_name"); (CText "elementValue", CText "Alice")].
Definition wrapped (s : string) : string := "24(" +:+ s +:+ ")".
Definition issuerSigned : cbor_map :=
  [(CText "nameSpaces", CMap [(CText "pid.1", CArr [CTag 24 (CBytes (padded "item"))])]); (CText "issuerAuth", auth)].
Definition deviceSigned : cbor := CMap [(CText "deviceAuth", CMap [(CText "deviceSignature", CBytes "signed")])].
Definition deviceResponse : cbor :=
  CMap [(CText "documents", CArr [CMap [(CText "docType", CText "pid"); (CText "issuerSigned", CMap issuerSigned); (CText "deviceSigned", deviceSigned)]])].
Definition mso_cbor : cbor :=
  CMap [(CText "digestAlgorithm", CText "SHA-256"); (CText "docType", CText "pid");
        (CText "valueDigests", CMap [(CText "pid.1", CMap [(CInt KUint64 7, CBytes (wrapped (padded "item")))])]);
        (CText "deviceKeyInfo", CMap [(CText "deviceKey", CMap [])])].
Definition documents : list (string * cbor) :=
  [(padded (padded (padded "response")), deviceResponse); (padded (padded (padded "issuer")), CMap issuerSigned); (padded "item", item);
   (padded "protected", CMap [(CInt KInt64 1, CInt KInt64 (-7)); (CInt KInt64 33, CBytes "issuer")]); (padded (padded (padded "mso")), mso_cbor)].

Definition toy_decode (s : string) : option cbor := snd <$> List.find (fun kv => (kv.1 =? s)%string) documents.

Lemma toy_weight s v : toy_decode s = Some v -> (cbor_weight v <= String.length s)%nat.
Proof.
  unfold toy_decode. destruct (List.find _ documents) as [[s' v']|] eqn:E; [|done]. intros [= <-].
  apply find_some in E as [Hin He]. cbn [fst] in He. apply String.eqb_eq in He as ->. assert (Hall : forallb (fun kv => (cbor_weight kv.2 <=? String.length kv.1)%nat) documents = true) by (vm_compute; reflexivity).
  rewrite forallb_forall in Hall. by apply Hall, Nat.leb_le in Hin.
Defined.

#[local] Instance toy_cbor : Cbor := {
  cbor_decode := toy_decode;
  cbor_decode_weight := toy_weight;
  cbor_encode c := match c with
    | CMap [] => Some "{}"
    | CMap ((CText "nameSpaces", _) :: _) => Some (padded (padded (padded "issuer")))
    | CTag _ (CBytes s) => Some (wrapped s)
    | CArr (CText "COSE_Sign1" :: _) => Some "auth"
    | CArr (CNil :: _) => Some "transcript"
    | CArr (CText "DeviceAuthentication" :: _) => Some "authentication"
    | CBytes s => Some s
    | _ => Some "cbor"
    end;
  cbor_raw_tag _ := None;
  cbor_raw_array s := if (s =? "auth")%string then Some [padded "protected"; "unprotected"; padded (padded (padded "mso")); "signature"] else None;
  cbor_bytes s := Some (Some s);
  cbor_wellformed _ := true;
  print_key c := match c with CText s => s | _ => "" end;
  parse_rfc3339 _ := None }.

#[local] Instance toy_cose : Cose toy_pki := {
  sign1_parses _ := true; verifier_for _ _ := true;
  sign1_verifies _ _ key := match key with Some k => (k =? "issuer")%string | None => false end;
  CoseKey := string; cose_key s := Ok s; cose_curve _ := Some "P-256"; untagged_parses _ := true;
  es256_verifies sig payload _ := (sig =? "signed")%string && (payload =? "24(authentication)")%string }.

Definition pid : credentialQuery := mkQuery "pid" "dc+sd-jwt" "urn:pid" "" [[VString "given_name"]] false [] "".
Definition mdl : credentialQuery := mkQuery "mdl" "mso_mdoc" "" "pid" [[VString "pid.1"; VString "given_name"]] false [] "mdl".
Definition req : requestState :=
  mkRequest toy_jose "id" [pid; mdl] [] "nonce" "x509_hash:verifier" "" zero_time false "" None "pending" None [] [] "".

Definition now : time := unix 1000000.
Definition issuers : list X509Cert := ["issuer"].
Definition toy_trust : Trust := credentialTrust issuers [] [].
Definition fetch (prefer url : string) : option (string * string * string) := None.
Definition parse_cwt (s : string) (o : CheckOptions) : result token_error statusListToken := Err NoKey.
Definition no_entries : journal := mkJournal [] [].
Definition device : string := EncodeBase64URL (padded (padded (padded "response"))).
Definition texts : list (string * list string) := [("pid", [presentation]); ("mdl", [device])].
Definition decode (s : string) : option (list (string * list string)) := if (s =? "token")%string then Some texts else None.

Definition journal_of {A} (r : option (journal * result failure A)) : journal := match r with Some (log, _) => log | None => no_entries end.

Definition name_and_type : object := [("given_name", VString "Alice"); ("vct", VString "urn:pid")].
Definition verify_shown : checked object :=
  verifySDJWTEntry fetch parse_cwt toy_trust 3 now req presentation "urn:pid" [[VString "given_name"]] "".
Definition verify_device : checked object :=
  verifyMDOCPresentation fetch parse_cwt "https://demo" toy_trust now req device "pid" (q_paths mdl) "".
Definition verify_token : checked object := verifyPresentation fetch parse_cwt "https://demo" toy_trust decode 3 now req "token".

Lemma shown_accepted : verify_shown no_entries = Some (journal_of (verify_shown no_entries), Ok name_and_type).
Proof. vm_compute. reflexivity. Defined.

Lemma device_accepted : verify_device no_entries = Some (journal_of (verify_device no_entries), Ok [("given_name", VString "Alice")]).
Proof. vm_compute. reflexivity. Defined.

Lemma token_accepted :
  verify_token no_entries = Some (journal_of (verify_token no_entries), Ok (name_and_type ++ [("mdl", VObj [("given_name", VString "Alice")])])).
Proof. vm_compute. reflexivity. Defined.

Lemma accepted_presentation_is_genuine_witness :
  exists t, Parse 3 presentation = Some (Ok t) /\ name_and_type = disclosedClaims t /\
    key_bound now req presentation t /\ issuer_vouches fetch parse_cwt issuers [] [] now t.
Proof.
  destruct (accepted_presentation_is_genuine _ _ _ _ _ _ _ _ _ _ _ _ _ _ _ shown_accepted) as (t & Hp & Hc & Hi & _ & _ & Hb & _ & _).
  exists t. exact (conj Hp (conj Hc (conj Hb Hi))).
Defined.

Lemma accepted_mdoc_is_genuine_witness :
  exists doc mso transcript, mdoc_Parse device = Ok doc /\ doc_mso doc = Some mso /\
    mdoc_vouched fetch parse_cwt issuers [] [] now doc mso /\ holder_signed doc transcript.
Proof.
  destruct (accepted_mdoc_is_genuine _ _ _ _ _ _ _ _ _ _ _ _ _ _ _ device_accepted) as (doc & mso & transcript & Hp & _ & Hm & Hv & _ & Hs & _).
  exists doc, mso, transcript. exact (conj Hp (conj Hm (conj Hv Hs))).
Defined.

(** The accepted response of the witness above, whatever type its issuer signed. *)
Definition device_document : Document := match mdoc_Parse device with Ok doc => doc | Err _ => mkDocument "" "" [] None None "" None false [] end.
Definition device_members : cbor_map := match deviceResponse with CMap m => match cget "documents" m with Some (CArr (CMap d :: _)) => d | _ => [] end | _ => [] end.
Definition device_part : Document :=
  match get_map "issuerSigned" device_members with Some m => document_of (padded (padded (padded "issuer"))) m | None => device_document end.
Definition response_members : cbor_map := match deviceResponse with CMap m => m | _ => [] end.

Lemma signed_doctype_is_not_compared_witness :
  let accepts doc := accepted_mdoc fetch parse_cwt "https://demo" toy_trust now req "pid" (q_paths mdl)
                       (with_response (padded (padded (padded "response"))) response_members device_members doc) in
  with_response (padded (padded (padded "response"))) response_members device_members device_part = device_document /\
  accepts device_part /\ accepts (issuer_signed_as "org.iso.18013.5.1.mDL" device_part).
Proof.
  intros accepts. assert (E : with_response (padded (padded (padded "response"))) response_members device_members device_part = device_document) by (vm_compute; reflexivity).
  assert (H : accepts device_part).
  { unfold accepts. rewrite E. destruct (proj1 (verifyMDOCPresentation_spec _ _ _ _ _ _ _ _ _ _ _ _) (ex_intro _ _ device_accepted)) as (doc & Hp & Ha & _).
    unfold device_document. rewrite Hp. exact Ha. }
  split; [exact E|split; [exact H|]].
  exact (proj1 (proj2 (signed_doctype_is_not_compared fetch parse_cwt issuers [] [] "https://demo" now req "pid" "org.iso.18013.5.1.mDL" (q_paths mdl)
    (padded (padded (padded "response"))) response_members device_members device_part "pid" eq_refl)) H).
Defined.

Lemma accepted_token_answers_witness :
  exists doc, decode "token" = Some doc /\ answers_request fetch parse_cwt "https://demo" toy_trust now req doc.
Proof. exact (accepted_token_answers _ _ _ _ _ _ _ _ _ _ _ _ _ _ token_accepted). Defined.
End VerifierToy.
