(* ===== verification/VerifierRequest.v ===== *)
(** * VerifierRequest: the presentation requests of the demo verifier

    src/internal/demorp/verifier.go and src/internal/wallet/eudi_metadata.go:
    what a page may ask for, the queries and credential sets that become of it,
    the client identifier and the signed request object. *)

From stdpp Require Import base list strings gmap.
From Stdlib Require Import ZArith Lia Ascii.
From S2P Require Import Prelude GoStrings GoValue Format CredType Validity SDJWT WalletState Present.
From S2P Require Import Certs Rooms IssuerAuth VerifierChecks.

Local Open Scope Z_scope.

Definition TicketVCT : string := "urn:eudi-test:demo-ticket:1".

Record customCredentialTO := mkCustom {
  cc_Format : string; cc_VCT : string; cc_DocType : string; cc_Claims : list (list value); cc_Multiple : bool }.

Record createRequestBody := mkCreateBody {
  rb_Type : string; rb_Format : string; rb_VCT : string; rb_Ticket : string; rb_Multiple : bool;
  rb_Credentials : list customCredentialTO; rb_ClientIDScheme : string; rb_ClientID : string;
  rb_SigningKey : string; rb_VerifierInfo : list value; rb_Identity : string }.

(** ** What is asked for *)

(** Whether the SD-JWT and the mdoc form are wanted. *)
Definition normalizePIDFormat (format : string) : result why (bool * bool) :=
  let f := trim_space format in
  if contains [""; "both"] f then Ok (true, true)
  else if contains ["sd-jwt"; "sdjwt"; "dc+sd-jwt"] f then Ok (true, false)
  else if contains ["mdoc"; "mso_mdoc"] f then Ok (false, true)
  else Err (Text "format must be sd-jwt, mdoc or both").

Definition normalizePIDVCT (vct : string) : result why string :=
  let vct := trim_space vct in
  if (vct =? "")%string then Ok PIDVCT
  else if negb (has_prefix PIDVCTPrefix vct) then Err (Fmt "vct must be a PID type in %s" [Text PIDVCTPrefix])
  else Ok vct.

Record wanted := mkWanted { w_type : string; w_vct : string; w_docType : string; w_claims : list string; w_mdocClaims : list string }.

Definition pid_claims : list string := ["given_name"; "family_name"].

Definition wanted_ticket (ticketClaims : list string) (mode : string) (body : createRequestBody) : result why wanted :=
  if negb (mode =? "")%string
  then Err (Text "ticket applies to pid requests, which then ask for the ticket next to the PID")
  else
  let? formats := normalizePIDFormat (rb_Format body) in
  if negb formats.1 then Err (Text "the demo ticket only exists as an SD-JWT VC")
  else Ok (mkWanted "ticket" TicketVCT "" ticketClaims []).

Definition wanted_pid (mode : string) (body : createRequestBody) : result why wanted :=
  let? formats := normalizePIDFormat (rb_Format body) in
  let? requested := normalizePIDVCT (rb_VCT body) in
  let '(wantSDJWT, wantMDOC) := formats in
  let domestic := negb (requested =? PIDVCT)%string in
  if domestic && wantMDOC && negb wantSDJWT
  then Err (Fmt "a credential type has no mdoc form: every PID carries the doctype %s, so ask for the PID in mdoc instead" [Text PIDDocType])
  else
  if (mode =? "combined")%string && negb wantSDJWT
  then Err (Text "ticket: combined needs the SD-JWT PID in the request, so use format sd-jwt or both")
  else
  let mdoc := wantMDOC && negb domestic in
  Ok (mkWanted (rb_Type body) (if wantSDJWT then requested else "") (if mdoc then PIDDocType else "")
        (if wantSDJWT then pid_claims else []) (if mdoc then pid_claims else [])).

Definition wanted_of (ticketClaims : list string) (body : createRequestBody) : result why wanted :=
  let mode := trim_space (rb_Ticket body) in
  if negb (contains [""; "combined"; "optional"] mode) then Err (Fmt "ticket must be %s or %s" [Text (quoted "combined"); Text (quoted "optional")])
  else if contains [""; "ticket"] (rb_Type body) then wanted_ticket ticketClaims mode body
  else if (rb_Type body =? "pid")%string then wanted_pid mode body
  else Err (Text "type must be ticket or pid").

(** ** The query *)

Definition sdjwt_id (w : wanted) : string := if negb (w_vct w =? "")%string then w_type w else "".
Definition mdoc_id (w : wanted) : string := if negb (w_docType w =? "")%string then w_type w +:+ "_mdoc" else "".
Definition ticket_id (mode : string) : string := if negb (mode =? "")%string then "ticket" else "".

Definition request_queries (ticketClaims : list string) (w : wanted) (mode : string) (multiple : bool) : list credentialQuery :=
  (if negb (w_vct w =? "")%string then [mkQuery (sdjwt_id w) "dc+sd-jwt" (w_vct w) "" (namePaths "" (w_claims w)) multiple [] ""] else [])
  ++ (if negb (w_docType w =? "")%string
      then [mkQuery (mdoc_id w) "mso_mdoc" "" (w_docType w) (namePaths (w_docType w) (w_mdocClaims w)) multiple [] ""] else [])
  ++ (if negb (mode =? "")%string then [mkQuery "ticket" "dc+sd-jwt" TicketVCT "" (namePaths "" ticketClaims) multiple [] "ticket"] else []).

Definition pidOptions (w : wanted) : list (list string) :=
  map (fun id => [id]) (List.filter (fun id => negb (id =? "")%string) [sdjwt_id w; mdoc_id w]).

Definition request_sets (w : wanted) (mode : string) : list credentialSet :=
  if (mode =? "combined")%string then [mkSet ([sdjwt_id w; ticket_id mode] :: pidOptions w) false]
  else if (mode =? "optional")%string then [mkSet (pidOptions w) false; mkSet [[ticket_id mode]] true]
  else if (1 <? length (pidOptions w))%nat then [mkSet (pidOptions w) false] else [].

Definition custom_query (i : nat) (c : customCredentialTO) : result why credentialQuery :=
  let format := trim_space (cc_Format c) in
  if (format =? "dc+sd-jwt")%string && (trim_space (cc_VCT c) =? "")%string then Err (Text "a dc+sd-jwt credential needs a vct")
  else if (format =? "mso_mdoc")%string && (trim_space (cc_DocType c) =? "")%string then Err (Text "an mso_mdoc credential needs a doctype")
  else if negb (format =? "dc+sd-jwt")%string && negb (format =? "mso_mdoc")%string then Err (Text "format must be dc+sd-jwt or mso_mdoc")
  else
  let id := "cred_" +:+ itoa (Z.of_nat i) in
  let paths := List.filter (fun path => (0 <? length path)%nat) (cc_Claims c) in
  Ok (mkQuery id format (cc_VCT c) (cc_DocType c) paths (cc_Multiple c) [] id).

Fixpoint custom_queries (i : nat) (l : list customCredentialTO) : result why (list credentialQuery) :=
  match l with
  | [] => Ok []
  | c :: l => let? q := custom_query i c in let? rest := custom_queries (S i) l in Ok (q :: rest)
  end.

(** ** Signing material and the request object *)

Inductive pem_key (K : Type) : Type := BadKey (e : why) | NotEC | ECKeyOf (k : K).
Arguments BadKey {K} e.
Arguments NotEC {K}.
Arguments ECKeyOf {K} k.

Section material.
Context {jose : Jose} {json : Json} {hash : Hash} {pki : Pki} {signer : Signer}.
(** The PEM decoder of the standard library, block by block, its key parsers,
    the DNS names of a certificate, and whether one is a self-signed root
    ([RawSubject], [RawIssuer] and [CheckSignatureFrom]). *)
Context (pem_blocks : string -> list (string * string)).
Context (ParseECPrivateKey ParsePKCS8PrivateKey : string -> pem_key PrivateKey).
Context (DNSNames : X509Cert -> list string) (self_signed_root : X509Cert -> bool).

Fixpoint parse_bundle (blocks : list (string * string)) (key : option PrivateKey) (chain : list X509Cert) :
    result why (option PrivateKey * list X509Cert) :=
  match blocks with
  | [] => Ok (key, chain)
  | (type, bytes) :: blocks =>
      if (type =? "EC PRIVATE KEY")%string then
        match ParseECPrivateKey bytes with
        | ECKeyOf k => parse_bundle blocks (Some k) chain
        | BadKey e => Err (Fmt "parsing EC private key: %w" [e])
        | NotEC => Err (Text "parsing EC private key")
        end
      else if (type =? "PRIVATE KEY")%string then
        match ParsePKCS8PrivateKey bytes with
        | ECKeyOf k => parse_bundle blocks (Some k) chain
        | BadKey e => Err (Fmt "parsing private key: %w" [e])
        | NotEC => Err (Text "the signing key must be an EC key")
        end
      else if (type =? "CERTIFICATE")%string then
        match ParseCertificate bytes with
        | Some c => parse_bundle blocks key (chain ++ [c])
        | None => Err (Text "parsing certificate: %w")
        end
      else parse_bundle blocks key chain
  end.

Definition parseSigningKeyBundle (pemBundle : string) : result why (PrivateKey * list X509Cert) :=
  let? found := parse_bundle (pem_blocks pemBundle) None [] in
  match found with
  | (None, _) => Err (Text "the signing key PEM carries no private key")
  | (Some _, []) => Err (Text "the signing key PEM carries no certificate")
  | (Some key, chain) => Ok (key, chain)
  end.

Definition X509HashClientID (leaf : X509Cert) : string := "x509_hash:" +:+ EncodeBase64URL (sha256 (cert_Raw leaf)).

Definition customClientID (scheme : string) (chain : list X509Cert) (responseURI preRegistered : string) : result why string :=
  if (scheme =? "x509_hash")%string then
    match chain with [] => Err (Text "x509_hash needs a signing certificate") | leaf :: _ => Ok (X509HashClientID leaf) end
  else if (scheme =? "x509_san_dns")%string then
    match chain with
    | [] => Err (Text "x509_san_dns needs a signing certificate")
    | leaf :: _ =>
        match DNSNames leaf with
        | [] => Err (Text "x509_san_dns needs a certificate with a DNS SAN, so supply a signing key whose certificate carries one")
        | name :: _ => Ok ("x509_san_dns:" +:+ name)
        end
    end
  else if (scheme =? "redirect_uri")%string then Ok ("redirect_uri:" +:+ responseURI)
  else if (scheme =? "pre-registered")%string
  then Ok (if negb (trim_space preRegistered =? "")%string then trim_space preRegistered else "eudi-dev-demo-verifier")
  else Err (Fmt "unknown client_id scheme %q, use x509_hash, x509_san_dns, redirect_uri or pre-registered" [Text scheme]).

Definition WithoutSelfSignedTrustAnchor (chain : list X509Cert) : list X509Cert :=
  match last chain with
  | None => []
  | Some root => if self_signed_root root then removelast chain else chain
  end.

Definition buildJWSX5C (certs : list X509Cert) : list string :=
  let chain := match WithoutSelfSignedTrustAnchor certs with [] => certs | chain => chain end in
  map (fun cert => Std_Encode (cert_Raw cert)) chain.

Definition SignRequestObjectJWT (claims : object) (signingKey : PrivateKey) (signerCerts : list X509Cert) : result present_error string :=
  let x5c := buildJWSX5C signerCerts in
  Sign ([("alg", VString "ES256"); ("typ", VString "oauth-authz-req+jwt")]
        ++ (match x5c with [] => [] | _ => [("x5c", strings x5c)] end)) claims (Some signingKey).

(** The public key for the encrypted response. *)
Definition responseEncryptionMetadata (key : ECKey) : object :=
  let '(x, y) := default ("", "") (ec_coords key) in
  [("jwks", VObj [("keys", VArr [VObj [
      ("kty", VString "EC"); ("crv", VString "P-256"); ("use", VString "enc"); ("alg", VString "ECDH-ES");
      ("kid", VString "demo-verifier-response-enc"); ("x", VString (EncodeBase64URL x)); ("y", VString (EncodeBase64URL y))]])]);
   ("encrypted_response_enc_values_supported", strings ["A128GCM"; "A256GCM"]);
   ("vp_formats_supported", VObj [
      ("dc+sd-jwt", VObj [("sd-jwt_alg_values", strings ["ES256"]); ("kb-jwt_alg_values", strings ["ES256"])]);
      ("mso_mdoc", VObj [("issuerauth_alg_values", VArr [VInt KInt (-7)]); ("deviceauth_alg_values", VArr [VInt KInt (-7)])])])].

Definition encryption_metadata (req : requestState) : object :=
  match rq_encKey req with Some key => responseEncryptionMetadata key | None => [] end.

(** The claims of the signed request object. *)
Definition request_claims (now : time) (req : requestState) (responseURI : string) (verifierInfo : list value) : object :=
  [("iss", VString (rq_clientID req)); ("aud", VString "https://self-issued.me/v2");
   ("iat", VInt KInt64 (Unix now)); ("exp", VInt KInt64 (Unix (rq_expires req)));
   ("client_id", VString (rq_clientID req)); ("response_type", VString "vp_token"); ("response_mode", VString "direct_post.jwt");
   ("response_uri", VString responseURI); ("nonce", VString (rq_nonce req)); ("state", VString (rq_id req));
   ("dcql_query", VObj (dcqlQuery (rq_queries req) (rq_sets req))); ("client_metadata", VObj (encryption_metadata req))]
  ++ (match verifierInfo with [] => [] | l => [("verifier_info", VArr l)] end).
End material.
