(* ===== verification/Verifier.v ===== *)
(** * Verifier: the demo verifier as a server

    src/internal/demorp/verifier.go: the presentation requests the server
    holds, and the handlers that create, deliver, answer and show them.  The
    requests are shared by pointer: a handler keeps the one it looked up while
    another removes it from the map.  The Interactive Authorization of the
    demo issuer (issuer_interactive.go) puts its own requests into the map and
    verifies their presentations with the same code.

    Every locked section is one step of the handler ([Conc]).  The network and
    the trusted lists may change from one moment to the next. *)

From stdpp Require Import base list strings gmap relations.
From Stdlib Require Import ZArith Lia Ascii.
From S2P Require Import Prelude GoStrings GoValue Format CredType Validity StatusList SDJWT WalletState Present.
From S2P Require Import GoMap Conc Rooms Certs Mdoc Validate IssuerAuth VerifierChecks VerifierRequest.

Local Open Scope Z_scope.

(** ** The state *)

(** How a response to a request ended, for the proofs: the request as the
    handler saw it, when it was verified, and what came out. *)
Record outcome `{Jose} := mkOutcome {
  oc_ref : nat; oc_request : requestState; oc_claimed : time; oc_response : http_request;
  oc_checks : list entry; oc_result : result failure object }.

Record verifier `{Jose} := mkVerifier {
  clock : time;
  drawn : nat;
  requests : gmap string nat;
  heap : gmap nat requestState;
  outcomes : list outcome }.

Section setters.
Context `{Jose}.
Definition New (now : time) : verifier := mkVerifier _ now 0 ∅ ∅ [].
Definition with_clock (v : verifier) x := mkVerifier _ x (drawn v) (requests v) (heap v) (outcomes v).
Definition with_drawn (v : verifier) x := mkVerifier _ (clock v) x (requests v) (heap v) (outcomes v).
Definition with_requests (v : verifier) x := mkVerifier _ (clock v) (drawn v) x (heap v) (outcomes v).
Definition with_heap (v : verifier) x := mkVerifier _ (clock v) (drawn v) (requests v) x (outcomes v).
Definition with_outcomes (v : verifier) x := mkVerifier _ (clock v) (drawn v) (requests v) (heap v) x.

(** The mutable members of a request. *)
Definition with_answered (q : requestState) : requestState :=
  mkRequest _ (rq_id q) (rq_queries q) (rq_sets q) (rq_nonce q) (rq_clientID q) (interactiveEndpoint q) (rq_expires q) true
    (rq_requestObject q) (rq_encKey q) (rq_status q) (rq_err q) (rq_claims q) (rq_checks q) (rq_presentation q).
Definition with_presentation (p : string) (q : requestState) : requestState :=
  mkRequest _ (rq_id q) (rq_queries q) (rq_sets q) (rq_nonce q) (rq_clientID q) (interactiveEndpoint q) (rq_expires q) (rq_answered q)
    (rq_requestObject q) (rq_encKey q) (rq_status q) (rq_err q) (rq_claims q) (rq_checks q) p.
Definition with_result (checks : list entry) (r : result failure object) (q : requestState) : requestState :=
  mkRequest _ (rq_id q) (rq_queries q) (rq_sets q) (rq_nonce q) (rq_clientID q) (interactiveEndpoint q) (rq_expires q) (rq_answered q)
    (rq_requestObject q) (rq_encKey q)
    (match r with Ok _ => "verified" | Err _ => "failed" end) (match r with Ok _ => None | Err e => Some e end)
    (match r with Ok claims => claims | Err _ => [] end) checks (rq_presentation q).
End setters.

(** ** Answers *)

Inductive answer `{Jose} : Type :=
| ErrorAnswer (w : why)
| RequestCreated (id : string) (parameters : list (string * string))
| RequestObject (jar : string)
| RequestStatus (shown : string) (q : requestState)
| RedirectTo (uri : string)
| InteractionAnswer (w : why)
| PresentationRequired (openid4vp_request : object)
| NoAnswer.

Record response `{Jose} := mkResponse { status : Z; document : answer }.

(** ** The handlers *)

Section handlers.
Context {jose : Jose} {json : Json} {hash : Hash} {pki : Pki} {cbor_lib : Cbor} {cose : Cose pki} {signer : Signer} {maporder : MapOrder}.
(** The world: what the network, the wallet's trusted lists and the network's
    CWT parser answer at a moment. *)
Context (fetch : time -> string -> string -> option (string * string * string)).
Context (parseCWT : string -> CheckOptions -> result token_error statusListToken).
Context (issuance revocation : time -> list X509Cert) (verifierTrustAnchors : list X509Cert).
(** The configuration and the randomness. *)
Context (base trustAnchorAKI : string) (ticketClaims : list string).
Context (rand_text : nat -> string) (generate_key : nat -> result why ECKey).
Context (accessMaterial : result why (PrivateKey * list X509Cert)) (demoVerifierInfo : result why (list value)).
Context (AccessSigningMaterial : result why (PrivateKey * list X509Cert)) (DemoIdentityCheckVerifierInfo : result why (option (list value))).
(** The decoders of the standard library and of go-jose. *)
Context (pem_blocks : string -> list (string * string)) (ParseECPrivateKey ParsePKCS8PrivateKey : string -> pem_key PrivateKey).
Context (DNSNames : X509Cert -> list string) (self_signed_root : X509Cert -> bool).
Context (decode_body : string -> result why createRequestBody).
Context (DecryptCompactJWE : string -> ECKey -> result why string).
Context (decode_payload : string -> option (value * string)) (marshal_value : value -> option string).
Context (decode_presentations : string -> option (list (string * list string))).
Context (query_escape : string -> string).
Context (fuel : nat).

Abbreviation vprog := (prog verifier).

Definition respond (st : Z) (a : answer) : vprog response := Ret (mkResponse _ st a).
Definition refuse (st : Z) (w : why) : vprog response := respond st (ErrorAnswer w).

Definition Now : vprog time := get clock.
Definition draw (v : verifier) : verifier * nat := (with_drawn v (S (drawn v)), drawn v).
Definition randToken : vprog string := do n <- atomic draw; Ret (rand_text n).
Definition GenerateKey : vprog (result why ECKey) := do n <- atomic draw; Ret (generate_key n).

(** *** The map of requests *)

Definition ref_expires (v : verifier) (ref : nat) : time :=
  match heap v !! ref with Some q => rq_expires q | None => zero_time end.

Definition pruneLocked (v : verifier) : verifier := with_requests v (prune_map (ref_expires v) (clock v) (requests v)).

(** A new request behind a new pointer, under its id. *)
Definition store_request (q : requestState) (v : verifier) : verifier :=
  let v := pruneLocked v in
  let v := with_requests v (makeRoom (ref_expires v) (requests v)) in
  let ref := fresh (dom (heap v)) in
  with_requests (with_heap v (<[ref := q]> (heap v))) (<[rq_id q := ref]> (requests v)).

(** *** Creating requests *)

Definition requestSigningMaterial (body : createRequestBody) : result why (PrivateKey * list X509Cert) :=
  if (trim_space (rb_SigningKey body) =? "")%string then
    let? material := accessMaterial in
    match material.2 with [] => Err (Text "the wallet has no access certificate") | _ => Ok material end
  else parseSigningKeyBundle pem_blocks ParseECPrivateKey ParsePKCS8PrivateKey (rb_SigningKey body).

Definition verifierInfo (body : createRequestBody) : result why (list value) :=
  if negb (trim_space (rb_SigningKey body) =? "")%string || (rb_Identity body =? "unregistered")%string then Ok (rb_VerifierInfo body)
  else demoVerifierInfo.

Definition writeSigningMaterialError (body : createRequestBody) (e : why) : vprog response :=
  refuse (if (trim_space (rb_SigningKey body) =? "")%string then 500 else 400) (Fmt "signing material: %s" [e]).

Definition with_object (jar : string) (q : requestState) : requestState :=
  mkRequest _ (rq_id q) (rq_queries q) (rq_sets q) (rq_nonce q) (rq_clientID q) (interactiveEndpoint q) (rq_expires q) (rq_answered q)
    jar (rq_encKey q) (rq_status q) (rq_err q) (rq_claims q) (rq_checks q) (rq_presentation q).

Definition finalizeRequest (req : requestState) (responseURI : string) (signingKey : PrivateKey) (chain : list X509Cert) (info : list value) :
    vprog response :=
  do now <- Now;
  match SignRequestObjectJWT self_signed_root (request_claims now req responseURI info) signingKey chain with
  | Err _ => refuse 500 (Text "signing request object: ")
  | Ok jar =>
      do _ <- modify (store_request (with_object jar req));
      respond 201 (RequestCreated (rq_id req)
        [("client_id", rq_clientID req); ("request_uri", base +:+ "/verifier/request/" +:+ rq_id req)])
  end.

Definition deliverUnsignedRequest (req : requestState) (responseURI : string) : vprog response :=
  match marshal_object (dcqlQuery (rq_queries req) (rq_sets req)), marshal_object (encryption_metadata req) with
  | None, _ => refuse 500 (Text "encoding dcql_query: ")
  | _, None => refuse 500 (Text "encoding client_metadata: ")
  | Some dcqlJSON, Some metaJSON =>
      do _ <- modify (store_request req);
      respond 201 (RequestCreated (rq_id req)
        [("client_id", rq_clientID req); ("response_type", "vp_token"); ("response_mode", "direct_post.jwt"); ("response_uri", responseURI);
         ("nonce", rq_nonce req); ("state", rq_id req); ("dcql_query", dcqlJSON); ("client_metadata", metaJSON)])
  end.

(** A request before its client is known. *)
Definition new_request (id nonce : string) (now : time) (queries : list credentialQuery) (sets : list credentialSet)
    (clientID : string) (key : ECKey) : requestState :=
  mkRequest _ id queries sets nonce clientID "" (add now entryTTL) false "" (Some key) "pending" None [] [] "".

Definition createCustomRequest (body : createRequestBody) : vprog response :=
  match rb_Credentials body, requestSigningMaterial body with
  | [], _ => refuse 400 (Text "a custom request needs at least one credential")
  | _, Err e => writeSigningMaterialError body e
  | credentials, Ok (signingKey, chain) =>
      let scheme := if (trim_space (rb_ClientIDScheme body) =? "")%string then "x509_hash" else trim_space (rb_ClientIDScheme body) in
      let signed := contains ["x509_hash"; "x509_san_dns"] scheme in
      do encKey <- GenerateKey;
      match encKey with
      | Err e => refuse 500 (Fmt "generating response encryption key: %s" [e])
      | Ok encKey =>
          do id <- randToken;
          do nonce <- randToken;
          do now <- Now;
          let responseURI := response_uri base id in
          match customClientID DNSNames scheme chain responseURI (rb_ClientID body) with
          | Err e => refuse 400 e
          | Ok clientID =>
              if (0 <? length (rb_VerifierInfo body))%nat && negb signed
              then refuse 400 (Text "a custom verifier_info needs a signed client_id scheme (x509_hash or x509_san_dns)")
              else
              match custom_queries 0 credentials with
              | Err e => refuse 400 e
              | Ok queries =>
                  let req := new_request id nonce now queries [] clientID encKey in
                  if signed then
                    match verifierInfo body with
                    | Err e => refuse 500 (Fmt "registration certificate: %s" [e])
                    | Ok info => finalizeRequest req responseURI signingKey chain info
                    end
                  else deliverUnsignedRequest req responseURI
              end
          end
      end
  end.

(** The ticket and PID requests. *)
Definition createStandardRequest (body : createRequestBody) : vprog response :=
  match wanted_of ticketClaims body with
  | Err e => refuse 400 e
  | Ok w =>
      let mode := trim_space (rb_Ticket body) in
      do id <- randToken;
      do nonce <- randToken;
      do now <- Now;
      match requestSigningMaterial body with
      | Err e => writeSigningMaterialError body e
      | Ok (signingKey, chain) =>
          let clientID := match chain with leaf :: _ => X509HashClientID leaf | [] => "" end in
          do encKey <- GenerateKey;
          match encKey with
          | Err e => refuse 500 (Fmt "generating response encryption key: %s" [e])
          | Ok encKey =>
              match verifierInfo body with
              | Err e => refuse 500 (Fmt "registration certificate: %s" [e])
              | Ok info =>
                  finalizeRequest (new_request id nonce now (request_queries ticketClaims w mode (rb_Multiple body)) (request_sets w mode) clientID encKey)
                    (response_uri base id) signingKey chain info
              end
          end
      end
  end.

Definition handleCreateRequest (r : http_request) : vprog response :=
  match decode_body (Body r) with
  | Err _ => refuse 400 (Text "invalid JSON body")
  | Ok body =>
      if negb (contains [""; "registered"; "unregistered"] (rb_Identity body))
      then refuse 400 (Fmt "identity must be %s or %s" [Text (quoted "registered"); Text (quoted "unregistered")])
      else if (rb_Type body =? "custom")%string then createCustomRequest body
      else createStandardRequest body
  end.

(** *** Delivering and showing requests *)

(** [d.requests[id]] *)
Definition lookup_request (v : verifier) (rid : string) : option (nat * requestState) :=
  ref ← requests v !! rid; (fun q => (ref, q)) <$> heap v !! ref.

Definition live_object (rid : string) (v : verifier) : option string :=
  match lookup_request v rid with
  | Some (_, q) => if after (clock v) (rq_expires q) then None else Some (rq_requestObject q)
  | None => None
  end.

Definition handleRequestObject (id : string) : vprog response :=
  do found <- get (live_object id);
  match found with
  | None => refuse 404 (Text "unknown or expired request")
  | Some jar => if (jar =? "")%string then refuse 404 (Text "unknown or expired request") else respond 200 (RequestObject jar)
  end.

Definition shown_status (now : time) (q : requestState) : string :=
  if (rq_status q =? "pending")%string && after now (rq_expires q) then "expired" else rq_status q.

Definition shown_request (rid : string) (v : verifier) : option (string * requestState) :=
  (fun found => (shown_status (clock v) found.2, found.2)) <$> lookup_request v rid.

Definition handleRequestStatus (id : string) : vprog response :=
  do found <- get (shown_request id);
  match found with
  | None => refuse 404 (Text "unknown or expired request")
  | Some (shown, q) => respond 200 (RequestStatus shown q)
  end.

(** *** Answering requests *)

Definition decryptResponse (req : requestState) (r : http_request) : result why string :=
  let encrypted := trim_space (PostFormValue r "response") in
  if (encrypted =? "")%string then Err (Text "the response carried no encrypted response parameter (direct_post.jwt was requested)")
  else
  match rq_encKey req with
  | None => Err (Text "this request has no response encryption key")
  | Some key =>
      match DecryptCompactJWE encrypted key with
      | Err e => Err (Fmt "decrypting the response: %w" [e])
      | Ok plaintext =>
          match decode_payload plaintext with
          | None => Err (Text "parsing the decrypted response: %w")
          | Some (vpToken, state) =>
              if negb (state =? rq_id req)%string then Err (Text "the decrypted response is for a different request")
              else match vpToken, marshal_value vpToken with
                   | VNil, _ => Err (Text "the decrypted response carried no vp_token")
                   | _, None => Err (Text "re-encoding the vp_token: %w")
                   | _, Some raw => Ok raw
                   end
          end
      end
  end.

(** [d.verifyPresentation] at a moment. *)
Definition verify_at (now : time) (req : requestState) (vpToken : string) : option (journal * result failure object) :=
  verifyPresentation (fetch now) parseCWT base (credentialTrust (issuance now) (revocation now) verifierTrustAnchors)
    decode_presentations fuel now req vpToken (mkJournal [] []).

Definition update_request (ref : nat) (f : requestState -> requestState) (v : verifier) : verifier :=
  with_heap v (alter f ref (heap v)).

Definition finish_request (oc : outcome) (v : verifier) : verifier :=
  with_outcomes (update_request (oc_ref oc) (with_result (oc_checks oc) (oc_result oc)) v) (outcomes v ++ [oc]).

Definition finishRequest (oc : outcome) : vprog () := modify (finish_request oc).

Definition recordPresentation (ref : nat) (p : string) : vprog () := modify (update_request ref (with_presentation p)).

Fixpoint record_all (ref : nat) (ps : list string) : vprog () :=
  match ps with [] => Ret () | p :: ps => do _ <- recordPresentation ref p; record_all ref ps end.

(** The first response of a request takes it. *)
Inductive claim := Unknown | Replay | Claimed (ref : nat) (q : requestState) (at_ : time).

Definition claim_request (id : string) (v : verifier) : verifier * claim :=
  match lookup_request v id with
  | None => (v, Unknown)
  | Some (ref, q) =>
      if after (clock v) (rq_expires q) then (with_requests v (delete id (requests v)), Unknown)
      else if rq_answered q then (v, Replay)
      else (update_request ref with_answered v, Claimed ref q (clock v))
  end.

(** The verification and its result; without one the handler is still
    running ([NoAnswer]). *)
Definition verify_and_finish (ref : nat) (req : requestState) (claimed : time) (r : http_request) (vpToken : string)
    (k : result failure object -> vprog response) : vprog response :=
  do now <- Now;
  match verify_at now req vpToken with
  | None => respond 0 NoAnswer
  | Some (log, outcome) =>
      do _ <- record_all ref (kept log);
      do _ <- finishRequest (mkOutcome _ ref req claimed r (entries log) outcome);
      k outcome
  end.

Definition handlePresentationResponse (id : string) (r : http_request) : vprog response :=
  do found <- atomic (claim_request id);
  match found with
  | Unknown => refuse 404 (Text "unknown or expired request")
  | Replay => refuse 409 (Text "this request was already answered")
  | Claimed ref req claimed =>
      let failing w := do _ <- finishRequest (mkOutcome _ ref req claimed r [] (Err (Because w))); refuse 400 (Text "invalid_request") in
      if form_broken r then failing (Text "parsing response form: %w")
      else match decryptResponse req r with
           | Err e => failing e
           | Ok vpToken =>
               verify_and_finish ref req claimed r vpToken
                 (fun _ => respond 200 (RedirectTo (base +:+ "/verifier/?result=" +:+ query_escape id)))
           end
  end.

(** *** The requests of Interactive Authorization *)

Definition authorities : list object :=
  if (trustAnchorAKI =? "")%string then [] else [[("type", VString "aki"); ("values", strings [trustAnchorAKI])]].

Definition newInteractivePIDRequest (id nonce : string) (now : time) : requestState :=
  mkRequest _ id
    [mkQuery "pid" "dc+sd-jwt" PIDVCT "" (namePaths "" pid_claims) false authorities "";
     mkQuery "pid_mdoc" "mso_mdoc" "" PIDDocType (namePaths PIDDocType pid_claims) false authorities ""]
    [mkSet [["pid"]; ["pid_mdoc"]] false] nonce (issuerID base) (challengeEndpoint base) (add now entryTTL) false "" None "pending" None [] [] "".

(** The request as the wallet gets it: signed with the issuer's access
    certificate, or plain without one. *)
Definition interactivePresentationRequest (req : requestState) : result why object :=
  let claims := [("response_type", VString "vp_token"); ("response_mode", VString "ia_post"); ("nonce", VString (rq_nonce req));
    ("expected_origins", strings [originOf (challengeEndpoint base)]); ("dcql_query", VObj (dcqlQuery (rq_queries req) (rq_sets req)))] in
  match AccessSigningMaterial with
  | Err _ | Ok (_, []) => Ok claims
  | Ok (signingKey, leaf :: rest) =>
      let? info := DemoIdentityCheckVerifierInfo in
      let claims := match info with Some info => claims ++ [("verifier_info", VArr info)] | None => claims end in
      match SignRequestObjectJWT self_signed_root (claims ++ [("client_id", VString (X509HashClientID leaf))]) signingKey (leaf :: rest) with
      | Err _ => Ok claims
      | Ok jar => Ok [("request", VString jar)]
      end
  end.

(** The part of [startInteractiveAuthorization] that concerns the request. *)
Definition startInteractive : vprog response :=
  do id <- randToken;
  do nonce <- randToken;
  do now <- Now;
  let request := newInteractivePIDRequest id nonce now in
  do _ <- modify (store_request request);
  match interactivePresentationRequest request with
  | Err e => refuse 500 e
  | Ok openid4vp_request => respond 403 (PresentationRequired openid4vp_request)
  end.

Definition session_request (ref : nat) (v : verifier) : option (requestState * time) :=
  match heap v !! ref with
  | Some q => if (interactiveEndpoint q =? "")%string then None else Some (q, clock v)
  | None => None
  end.

(** The presentation part of [continueInteractiveAuthorization]: its session
    points to the request. *)
Definition continueInteractive (ref : nat) (r : http_request) : vprog response :=
  do found <- get (session_request ref);
  match found, unmarshal_object (PostFormValue r "openid4vp_response") with
  | None, _ => refuse 400 (Text "unknown or expired auth_session")
  | _, None => refuse 400 (Text "openid4vp_response is not a JSON object: ")
  | Some (req, looked_up), Some resp =>
      let refusal := get_string resp "error" in
      if negb (refusal =? "")%string then
        let w := Fmt "the wallet refused: %s" [Text (trim_space (refusal +:+ " " +:+ get_string resp "error_description"))] in
        do _ <- finishRequest (mkOutcome _ ref req looked_up r [] (Err (Because w)));
        refuse 400 (Fmt "the wallet did not present a credential: %s" [Text refusal])
      else
      match index resp "vp_token", marshal_value (index resp "vp_token") with
      | VNil, _ | _, None => refuse 400 (Text "openid4vp_response carried no vp_token")
      | _, Some vpToken =>
          verify_and_finish ref req looked_up r vpToken (fun outcome =>
            match outcome with
            | Err _ => refuse 400 (Text "the presentation could not be verified: ")
            | Ok _ => respond 200 (InteractionAnswer (Text "authorization_code"))
            end)
      end
  end.

(** ** The server *)

Inductive endpoint : Type :=
| CreateRequest | RequestObjectOf (id : string) | StatusOf (id : string) | ResponseTo (id : string)
| StartInteractive | ContinueInteractive (ref : nat).

Definition serve (e : endpoint) (r : http_request) : vprog response :=
  match e with
  | CreateRequest => handleCreateRequest r
  | RequestObjectOf id => handleRequestObject id
  | StatusOf id => handleRequestStatus id
  | ResponseTo id => handlePresentationResponse id r
  | StartInteractive => startInteractive
  | ContinueInteractive ref => continueInteractive ref r
  end.

(** Time passes, and the issuer prunes the maps it shares with the verifier. *)
Definition pass_time (now : time) : vprog response := do _ <- modify (fun v => with_clock v now); respond 0 NoAnswer.
Definition prune : vprog response := do _ <- modify pruneLocked; respond 0 NoAnswer.

Inductive served : vprog response -> Prop :=
| serving e r : served (serve e r)
| passing now : served (pass_time now)
| pruning : served prune.

Definition verifier_step : verifier * pool verifier response -> verifier * pool verifier response -> Prop :=
  pool_step (fun _ => True) (fun _ => True) (fun _ p => served p).

Definition reachable (v : verifier) (P : pool verifier response) : Prop :=
  exists now, rtc verifier_step (New now, ∅) (v, P).
End handlers.
