(* ===== verification/VerifierState.v ===== *)
(** * VerifierState: the invariant of the demo verifier

    The invariant of a server that runs any number of handlers at once: what a
    stored request says of the responses it got.  The proof adds to the state
    which thread holds a request, from taking its one response to finishing it
    ([held]). *)

From stdpp Require Import base list strings gmap relations.
From Stdlib Require Import ZArith Lia Ascii.
From S2P Require Import Prelude GoStrings GoValue Format CredType Validity StatusList SDJWT WalletState Present.
From S2P Require Import GoMap Conc Rooms Certs Mdoc Validate IssuerAuth VerifierChecks VerifierFacts VerifierRequest Verifier.

Section state.
Context {jose : Jose} {json : Json} {hash : Hash} {pki : Pki} {cbor_lib : Cbor} {cose : Cose pki} {signer : Signer} {maporder : MapOrder}.
Context (fetch : time -> string -> string -> option (string * string * string)).
Context (parseCWT : string -> CheckOptions -> result token_error statusListToken).
Context (issuance revocation : time -> list X509Cert) (verifierTrustAnchors : list X509Cert).
Context (base : string) (self_signed_root : X509Cert -> bool).
Context (DecryptCompactJWE : string -> ECKey -> result why string).
Context (decode_payload : string -> option (value * string)) (marshal_value : value -> option string).
Context (decode_presentations : string -> option (list (string * list string))).
Context (fuel : nat).

Abbreviation decrypt := (decryptResponse DecryptCompactJWE decode_payload marshal_value).
Abbreviation verify := (verify_at fetch parseCWT issuance revocation verifierTrustAnchors base decode_presentations fuel).

(** What never changes in a request. *)
Definition fixed (q : requestState) : requestState :=
  mkRequest _ (rq_id q) (rq_queries q) (rq_sets q) (rq_nonce q) (rq_clientID q) (interactiveEndpoint q) (rq_expires q) false
    (rq_requestObject q) (rq_encKey q) "" None [] [] "".

(** A request of the verifier itself. *)
Definition direct (q : requestState) : bool := (interactiveEndpoint q =? "")%string.

(** A response in the clear, as Interactive Authorization has it. *)
Definition posted_plain (r : http_request) (vpToken : string) : Prop :=
  exists resp, unmarshal_object (PostFormValue r "openid4vp_response") = Some resp /\ get_string resp "error" = "" /\
    index resp "vp_token" <> VNil /\ marshal_value (index resp "vp_token") = Some vpToken.

(** How a vp_token arrives: decrypted with the key of the request before it
    expired, or in the clear at the challenge endpoint for a request of
    Interactive Authorization. *)
Definition arrived (q : requestState) (claimed : time) (r : http_request) (vpToken : string) : Prop :=
  (decrypt q r = Ok vpToken /\ after claimed (rq_expires q) = false) \/ (direct q = false /\ posted_plain r vpToken).

(** A response that verified did so at some moment. *)
Definition genuine (oc : outcome) : Prop :=
  forall claims, oc_result oc = Ok claims -> exists now vpToken log,
    verify now (oc_request oc) vpToken = Some (log, Ok claims) /\ oc_checks oc = entries log /\
    arrived (oc_request oc) (oc_claimed oc) (oc_response oc) vpToken.

(** The request shows this outcome. *)
Definition shows (oc : outcome) (q : requestState) : Prop :=
  rq_status q = match oc_result oc with Ok _ => "verified" | Err _ => "failed" end /\
  rq_claims q = match oc_result oc with Ok claims => claims | Err _ => [] end /\ rq_checks q = oc_checks oc.

(** The request object a wallet fetches asks for what the response is checked
    against. *)
Definition object_ok (q : requestState) : Prop :=
  rq_requestObject q = "" \/ exists now info key chain,
    SignRequestObjectJWT self_signed_root (request_claims now q (response_uri base (rq_id q)) info) key chain = Ok (rq_requestObject q).

Record gverifier := mkGhost { real : verifier; held : gmap nat string }.

Definition of_direct (oc : outcome) : Prop := direct (oc_request oc) = true.

#[global] Instance of_direct_dec oc : Decision (of_direct oc).
Proof using. unfold of_direct. apply _. Defined.

Record Good (w : gverifier) : Prop := {
  good_size : (size (requests (real w)) <= maxEntries)%nat;
  good_ids : forall k ref, requests (real w) !! k = Some ref -> exists q, heap (real w) !! ref = Some q /\ rq_id q = k;
  good_object : forall ref q, heap (real w) !! ref = Some q -> object_ok q;
  good_outcome : forall oc, oc ∈ outcomes (real w) ->
    genuine oc /\ exists q, heap (real w) !! oc_ref oc = Some q /\ fixed q = fixed (oc_request oc);
  good_shown : forall ref q, heap (real w) !! ref = Some q ->
    rq_status q = "pending" \/ exists oc, oc ∈ outcomes (real w) /\ oc_ref oc = ref /\ shows oc q;
  good_free : forall ref q, heap (real w) !! ref = Some q -> direct q = true -> (rq_answered q = false \/ is_Some (held w !! ref)) ->
    forall oc, oc ∈ outcomes (real w) -> oc_ref oc <> ref;
  good_held : forall ref t, held w !! ref = Some t -> exists q, heap (real w) !! ref = Some q /\ direct q = true /\ rq_answered q = true;
  good_once : NoDup (oc_ref <$> filter of_direct (outcomes (real w))) }.

(** Two outcomes of one direct request are the same. *)
Lemma one_outcome w ref q oc oc' :
  Good w -> heap (real w) !! ref = Some q -> direct q = true ->
  oc ∈ outcomes (real w) -> oc_ref oc = ref -> oc' ∈ outcomes (real w) -> oc_ref oc' = ref -> oc' = oc.
Proof.
  intros Hg Hq Hd Hin Er Hin' Er'.
  assert (Hdir : forall o, o ∈ outcomes (real w) -> oc_ref o = ref -> o ∈ filter of_direct (outcomes (real w))).
  { intros o Ho E. apply list_elem_of_filter. split; [|done]. destruct (good_outcome _ Hg o Ho) as (_ & q' & Hq' & Ef). unfold of_direct.
    assert (q' = q) as -> by congruence. change (direct (fixed (oc_request o)) = true). by rewrite <- Ef. }
  apply (NoDup_key_inj oc_ref (filter of_direct (outcomes (real w)))); [apply Hg|by apply Hdir..|congruence].
Qed.

(** What every step leaves to the others. *)
Definition heap_grows (hp hp' : gmap nat requestState) : Prop :=
  forall ref q, hp !! ref = Some q -> exists q', hp' !! ref = Some q' /\ fixed q' = fixed q.

Definition wider (w w' : gverifier) : Prop := heap_grows (heap (real w)) (heap (real w')).

Definition respects (t : string) (w w' : gverifier) : Prop :=
  wider w w' /\ forall ref t', t' <> t -> held w !! ref = Some t' -> held w' !! ref = Some t'.

Lemma heap_same hp : heap_grows hp hp.
Proof. intros ref q Hq. by exists q. Qed.

Lemma fixed_direct q q' : fixed q = fixed q' -> direct q = direct q'.
Proof. intros E. change (direct (fixed q) = direct (fixed q')). by rewrite E. Qed.

Lemma fixed_id q q' : fixed q = fixed q' -> rq_id q = rq_id q'.
Proof. intros E. change (rq_id (fixed q) = rq_id (fixed q')). by rewrite E. Qed.

Lemma fixed_object q q' : fixed q = fixed q' -> object_ok q -> object_ok q'.
Proof.
  intros E. change (object_ok (fixed q) -> object_ok (fixed q')). by rewrite E.
Qed.

(** ** Updating a request *)

(** An update of one request that changes nothing fixed. *)
Lemma grows_update ref f hp : (forall q, fixed (f q) = fixed q) -> heap_grows hp (alter f ref hp).
Proof.
  intros Hf ref' q Hq. destruct (decide (ref' = ref)) as [->|Hne].
  - exists (f q). rewrite lookup_alter_eq, Hq. by split.
  - exists q. by rewrite lookup_alter_ne.
Qed.

Lemma updated ref (f : requestState -> requestState) (hp : gmap nat requestState) ref' q :
  alter f ref hp !! ref' = Some q ->
  exists q0, hp !! ref' = Some q0 /\ ((ref' = ref /\ q = f q0) \/ (ref' <> ref /\ q = q0)).
Proof.
  destruct (decide (ref' = ref)) as [->|Hne].
  - rewrite lookup_alter_eq. intros (q0 & E & Hq)%fmap_Some. exists q0. auto.
  - rewrite lookup_alter_ne by done. intros Hq. exists q. auto.
Qed.

(** Growth of the heap and new outcomes alone leave the rest of the
    invariant. *)
Lemma kept_presentation v hd ref p : Good (mkGhost v hd) -> Good (mkGhost (update_request ref (with_presentation p) v) hd).
Proof.
  intros [Hs Hi Ho Hoc Hsh Hf Hh Hn]. cbn in *. split; cbn; try done.
  - intros k r Hk. destruct (Hi k r Hk) as (q & Hq & Eid). destruct (grows_update ref (with_presentation p) _ (fun _ => eq_refl) r q Hq) as (q' & Hq' & E).
    exists q'. split; [done|]. by rewrite (fixed_id _ _ E).
  - intros r q (q0 & Hq0 & [[-> ->]|[_ ->]])%updated; [|by eapply Ho]. apply (fixed_object q0); [done|by eapply Ho].
  - intros oc Hin. destruct (Hoc oc Hin) as (Hg & q & Hq & E). split; [done|].
    destruct (grows_update ref (with_presentation p) _ (fun _ => eq_refl) _ q Hq) as (q' & Hq' & E'). exists q'. split; [done|congruence].
  - intros r q (q0 & Hq0 & [[-> ->]|[_ ->]])%updated; exact (Hsh _ _ Hq0).
  - intros r q (q0 & Hq0 & [[-> ->]|[_ ->]])%updated; exact (Hf _ _ Hq0).
  - intros r t Hr. destruct (Hh r t Hr) as (q & Hq & Hd & Ha). destruct (decide (r = ref)) as [->|Hne].
    + exists (with_presentation p q). by rewrite lookup_alter_eq, Hq.
    + exists q. by rewrite lookup_alter_ne.
Qed.

(** Taking the response of a direct request: the thread holds it. *)
Lemma kept_answer t v hd ref q :
  Good (mkGhost v hd) -> heap v !! ref = Some q -> rq_answered q = false ->
  Good (mkGhost (update_request ref with_answered v) (if direct q then <[ref := t]> hd else hd)).
Proof.
  intros [Hs Hi Ho Hoc Hsh Hf Hh Hn] Hq Ha. cbn in *.
  assert (Hgr := fun r => grows_update ref with_answered (heap v) (fun _ => eq_refl) r). split; cbn; try done.
  - intros k r Hk. destruct (Hi k r Hk) as (q1 & Hq1 & Eid). destruct (Hgr r q1 Hq1) as (q' & Hq' & E). exists q'. split; [done|]. by rewrite (fixed_id _ _ E).
  - intros r q' (q0 & Hq0 & [[-> ->]|[_ ->]])%updated; [|by eapply Ho]. apply (fixed_object q0); [done|by eapply Ho].
  - intros oc Hin. destruct (Hoc oc Hin) as (Hg & q1 & Hq1 & E). split; [done|].
    destruct (Hgr _ q1 Hq1) as (q' & Hq' & E'). exists q'. split; [done|congruence].
  - intros r q' (q0 & Hq0 & [[-> ->]|[_ ->]])%updated; exact (Hsh _ _ Hq0).
  - intros r q' (q0 & Hq0 & [[-> ->]|[Hne ->]])%updated Hd Hor.
    + simplify_eq. apply (Hf ref _ Hq); [done|by left].
    + apply (Hf r q0); [done|done|]. destruct Hor as [|Hl]; [by left|right]. destruct (direct q); [|done]. by rewrite lookup_insert_ne in Hl.
  - intros r t' Hr. assert (Hor : r = ref /\ direct q = true \/ hd !! r = Some t').
    { destruct (direct q); [|by right]. apply lookup_insert_Some in Hr as [[-> _]|[_ Hr]]; auto. }
    destruct (decide (r = ref)) as [->|Hne].
    + exists (with_answered q). rewrite lookup_alter_eq, Hq. split; [done|split; [|done]].
      destruct Hor as [[_ Hd]|Hr']; [done|]. destruct (Hh ref t' Hr') as (q1 & Hq1 & Hd & _). by simplify_eq.
    + destruct Hor as [[-> _]|Hr']; [done|]. destruct (Hh r t' Hr') as (q1 & Hq1 & ?). exists q1. by rewrite lookup_alter_ne.
Qed.

(** Finishing a request: a direct one by the thread that holds it. *)
Lemma kept_finish t v hd oc q :
  Good (mkGhost v hd) -> heap v !! oc_ref oc = Some q -> fixed q = fixed (oc_request oc) -> genuine oc ->
  (direct q = true -> hd !! oc_ref oc = Some t) ->
  Good (mkGhost (finish_request oc v) (delete (oc_ref oc) hd)).
Proof.
  intros [Hs Hi Ho Hoc Hsh Hf Hh Hn] Hq Hfix Hgen Hown. cbn in *.
  assert (Hgr := fun r => grows_update (oc_ref oc) (with_result (oc_checks oc) (oc_result oc)) (heap v) (fun _ => eq_refl) r).
  assert (Hdir : direct (oc_request oc) = direct q) by (symmetry; by apply fixed_direct). split; cbn; try done.
  - intros k r Hk. destruct (Hi k r Hk) as (q1 & Hq1 & Eid). destruct (Hgr r q1 Hq1) as (q' & Hq' & E). exists q'. split; [done|]. by rewrite (fixed_id _ _ E).
  - intros r q' (q0 & Hq0 & [[-> ->]|[_ ->]])%updated; [|by eapply Ho]. apply (fixed_object q0); [done|by eapply Ho].
  - intros oc' [Hin| ->%list_elem_of_singleton]%elem_of_app.
    + destruct (Hoc oc' Hin) as (Hg & q1 & Hq1 & E). split; [done|]. destruct (Hgr _ q1 Hq1) as (q' & Hq' & E'). exists q'. split; [done|congruence].
    + split; [done|]. destruct (Hgr _ q Hq) as (q' & Hq' & E'). exists q'. split; [done|congruence].
  - intros r q' (q0 & Hq0 & [[-> ->]|[_ ->]])%updated.
    + right. exists oc. split; [apply elem_of_app; right; by left|]. by split.
    + destruct (Hsh r q0 Hq0) as [|(oc' & Hin & Er & Hshow)]; [by left|right]. exists oc'. split; [apply elem_of_app; by left|done].
  - intros r q' (q0 & Hq0 & [[-> ->]|[Hne ->]])%updated Hd Hor oc'.
    + assert (q0 = q) as -> by congruence. destruct (Hh (oc_ref oc) t (Hown Hd)) as (q1 & Hq1 & _ & Ha). assert (q1 = q) as -> by congruence.
      destruct Hor as [Hor|[? Hor]]; [by cbn in Hor; congruence|]. by rewrite lookup_delete_eq in Hor.
    + intros [Hin| ->%list_elem_of_singleton]%elem_of_app; [|done]. apply (Hf r q0); [done|done| |done].
      destruct Hor as [|Hor]; [by left|right]. by rewrite lookup_delete_ne in Hor.
  - intros r t' [Hne Hr]%lookup_delete_Some. destruct (Hh r t' Hr) as (q1 & Hq1 & ?). exists q1. by rewrite lookup_alter_ne.
  - rewrite filter_app, fmap_app. destruct (direct q) eqn:Hd.
    + rewrite filter_cons_True by (by unfold of_direct). apply NoDup_app. split; [done|]. split; [|apply NoDup_singleton].
      intros r (oc' & -> & [_ Hin]%list_elem_of_filter)%list_elem_of_fmap Er%list_elem_of_singleton.
      refine (Hf (oc_ref oc) q Hq Hd (or_intror _) oc' Hin Er). eexists. by apply Hown.
    + rewrite filter_cons_False by (unfold of_direct; congruence). by rewrite app_nil_r.
Qed.

(** ** The map of requests *)

Lemma kept_requests v hd m : Good (mkGhost v hd) -> m ⊆ requests v -> Good (mkGhost (with_requests v m) hd).
Proof.
  intros [Hs Hi Ho Hoc Hsh Hf Hh Hn] Hm. split; cbn in *; try done; [by eapply sub_size|].
  intros k r Hk. apply Hi. by eapply lookup_weaken.
Qed.

Lemma kept_prune v hd : Good (mkGhost v hd) -> Good (mkGhost (pruneLocked v) hd).
Proof. intros Hg. apply kept_requests; [done|apply prune_sub]. Qed.

Lemma kept_clock v hd now : Good (mkGhost v hd) -> Good (mkGhost (with_clock v now) hd).
Proof. by intros []. Qed.

Lemma kept_draw v hd : Good (mkGhost v hd) -> Good (mkGhost (draw v).1 hd).
Proof. by intros []. Qed.

(** A request that nobody has answered, behind a new pointer. *)
Lemma grows_store q v : heap_grows (heap v) (heap (store_request q v)).
Proof.
  intros ref q' Hq. exists q'. split; [|done]. unfold store_request. cbn. rewrite lookup_insert_ne; [done|].
  intros <-. apply (is_fresh (dom (heap v))), elem_of_dom. by exists q'.
Qed.

Lemma kept_insert v hd m ref q :
  Good (mkGhost v hd) -> heap v !! ref = None -> m ⊆ requests v -> (size (<[rq_id q := ref]> m) <= maxEntries)%nat ->
  object_ok q -> rq_status q = "pending" -> Good (mkGhost (with_requests (with_heap v (<[ref := q]> (heap v))) (<[rq_id q := ref]> m)) hd).
Proof.
  intros [Hs Hi Ho Hoc Hsh Hf Hh Hn] Hr Hm Hsize Hobj Hst. cbn in *. split; cbn; try done.
  - intros k r [[<- <-]|[_ Hk]]%lookup_insert_Some; [exists q; by rewrite lookup_insert_eq|].
    destruct (Hi k r) as (q1 & Hq1 & E); [by eapply lookup_weaken|]. exists q1. rewrite lookup_insert_ne; [done|]. intros <-. congruence.
  - intros r q' [[<- <-]|[_ Hq']]%lookup_insert_Some; [done|by eapply Ho].
  - intros oc Hin. destruct (Hoc oc Hin) as (Hg & q1 & Hq1 & E). split; [done|]. exists q1. rewrite lookup_insert_ne; [done|]. intros Er; rewrite <- Er in Hq1; congruence.
  - intros r q' [[<- <-]|[_ Hq']]%lookup_insert_Some; [by left|by apply Hsh].
  - intros r q' [[<- <-]|[_ Hq']]%lookup_insert_Some Hd Hor oc Hin; [|by eapply Hf].
    intros Er. destruct (Hoc oc Hin) as (_ & q1 & Hq1 & _). rewrite Er in Hq1. congruence.
  - intros r t Hl. destruct (Hh r t Hl) as (q1 & Hq1 & ?). exists q1. rewrite lookup_insert_ne; [done|]. intros <-. congruence.
Qed.

Lemma kept_store v hd q :
  Good (mkGhost v hd) -> object_ok q -> rq_status q = "pending" -> Good (mkGhost (store_request q v) hd).
Proof.
  intros Hg Ho Hst. assert (Hp := kept_prune v hd Hg). unfold store_request.
  set (v1 := with_requests (pruneLocked v) (makeRoom (ref_expires (pruneLocked v)) (requests (pruneLocked v)))).
  assert (H1 : Good (mkGhost v1 hd)) by (apply kept_requests; [done|apply makeRoom_sub]).
  apply (kept_insert v1); try done; [|apply insert_room]. apply not_elem_of_dom. apply is_fresh.
Qed.

Lemma kept_new now : Good (mkGhost (New now) ∅).
Proof.
  split; cbn.
  - rewrite map_size_empty. pose proof maxEntries_pos. lia.
  - intros k ref. by rewrite lookup_empty.
  - intros ref q. by rewrite lookup_empty.
  - by intros oc ?%elem_of_nil.
  - intros ref q. by rewrite lookup_empty.
  - intros ref q. by rewrite lookup_empty.
  - intros ref t. by rewrite lookup_empty.
  - constructor.
Qed.
End state.
