(* ===== verification/VerifierServer.v ===== *)
(** * VerifierServer: the properties of the demo verifier as a server

    What holds in every state the verifier reaches, however its requests
    interleave, and a verifier over toy keys that answers a request.

    The handlers of Verifier run as threads of one pool.  A request is answered
    at most once, it shows "verified" only for a response that answers it, and
    the request object in circulation asks for exactly what the response is
    checked against. *)

From stdpp Require Import base list strings gmap relations.
From Stdlib Require Import ZArith Lia Ascii.
From S2P Require Import Prelude GoStrings GoValue Format CredType Validity StatusList SDJWT WalletState Present.
From S2P Require Import GoMap Conc Rooms Certs Mdoc Validate IssuerAuth VerifierChecks VerifierFacts VerifierProps VerifierRequest Verifier VerifierState.

Section run.
Context {jose : Jose} {json : Json} {hash : Hash} {pki : Pki} {cbor_lib : Cbor} {cose : Cose pki} {signer : Signer} {maporder : MapOrder}.
Context (fetch : time -> string -> string -> option (string * string * string)).
Context (parseCWT : string -> CheckOptions -> result token_error statusListToken).
Context (issuance revocation : time -> list X509Cert) (verifierTrustAnchors : list X509Cert).
Context (base trustAnchorAKI : string) (ticketClaims : list string).
Context (rand_text : nat -> string) (generate_key : nat -> result why ECKey).
Context (accessMaterial : result why (PrivateKey * list X509Cert)) (demoVerifierInfo : result why (list value)).
Context (AccessSigningMaterial : result why (PrivateKey * list X509Cert)) (DemoIdentityCheckVerifierInfo : result why (option (list value))).
Context (pem_blocks : string -> list (string * string)) (ParseECPrivateKey ParsePKCS8PrivateKey : string -> pem_key PrivateKey).
Context (DNSNames : X509Cert -> list string) (self_signed_root : X509Cert -> bool).
Context (decode_body : string -> result why createRequestBody).
Context (DecryptCompactJWE : string -> ECKey -> result why string).
Context (decode_payload : string -> option (value * string)) (marshal_value : value -> option string).
Context (decode_presentations : string -> option (list (string * list string))).
Context (query_escape : string -> string).
Context (fuel : nat).

Abbreviation Good := (Good fetch parseCWT issuance revocation verifierTrustAnchors base self_signed_root
  DecryptCompactJWE decode_payload marshal_value decode_presentations fuel).
Abbreviation decrypt := (decryptResponse DecryptCompactJWE decode_payload marshal_value).
Abbreviation verify := (verify_at fetch parseCWT issuance revocation verifierTrustAnchors base decode_presentations fuel).
Abbreviation gen := (genuine fetch parseCWT issuance revocation verifierTrustAnchors base
  DecryptCompactJWE decode_payload marshal_value decode_presentations fuel).
Abbreviation arrives := (arrived DecryptCompactJWE decode_payload marshal_value).
Abbreviation vsafe := (safe (fun _ : verifier => True) (fun w : gverifier => real w) Good respects).
Abbreviation vsteady := (steady (fun w : gverifier => real w) Good respects wider).

Lemma respects_grow t w w' : respects t w w' -> wider w w'.
Proof. by intros [Hg _]. Qed.

Lemma respects_own t v v' hd hd' :
  heap_grows (heap v) (heap v') -> (forall ref t', t' <> t -> hd !! ref = Some t' -> hd' !! ref = Some t') ->
  respects t (mkGhost v hd) (mkGhost v' hd').
Proof. by split. Qed.

(** ** Steps that concern no request in progress *)

Definition plain {R} (f : verifier -> verifier * R) : Prop :=
  forall v hd, Good (mkGhost v hd) -> Good (mkGhost (f v).1 hd) /\ heap_grows (heap v) (heap (f v).1).

Lemma plain_steady {R} (f : verifier -> verifier * R) : plain f -> vsteady (atomic f).
Proof using.
  intros Hf. apply steady_step. intros t [v hd] Hg. destruct (Hf v hd Hg) as [Hg' Hgr].
  exists (mkGhost (f v).1 hd). by split_and!.
Qed.

Lemma get_steady {R} (f : verifier -> R) : vsteady (get f).
Proof using. apply plain_steady. intros v hd Hg. split; [done|apply heap_same]. Qed.

Lemma draw_steady : vsteady (atomic draw).
Proof using. apply plain_steady. intros v hd Hg. split; [by apply kept_draw|apply heap_same]. Qed.

Lemma modify_steady (f : verifier -> verifier) :
  (forall v hd, Good (mkGhost v hd) -> Good (mkGhost (f v) hd) /\ heap_grows (heap v) (heap (f v))) -> vsteady (modify f).
Proof using. intros Hf. apply (plain_steady (fun v => (f v, ()))). intros v hd Hg. by apply Hf. Qed.

Lemma store_steady q : object_ok base self_signed_root q -> rq_status q = "pending" -> vsteady (modify (store_request q)).
Proof using. intros Ho Hs. apply modify_steady. intros v hd Hg. split; [by apply kept_store|apply grows_store]. Qed.

Ltac vsteady :=
  repeat first
    [ exact I
    | progress intros
    | apply steady_bind
    | apply get_steady
    | apply draw_steady
    | case_match ].

Lemma steady_finalize req uri key chain info :
  uri = response_uri base (rq_id req) -> rq_status req = "pending" ->
  vsteady (finalizeRequest base self_signed_root req uri key chain info).
Proof using.
  intros -> Hst. unfold finalizeRequest, Now. vsteady. apply store_steady; [|done]. right. eexists _, _, _, _. eassumption.
Qed.

Lemma steady_deliver req uri : rq_requestObject req = "" -> rq_status req = "pending" -> vsteady (deliverUnsignedRequest req uri).
Proof using. intros Ho Hst. unfold deliverUnsignedRequest. vsteady. apply store_steady; [by left|done]. Qed.

Lemma steady_create r :
  vsteady (handleCreateRequest base ticketClaims rand_text generate_key accessMaterial demoVerifierInfo pem_blocks ParseECPrivateKey
    ParsePKCS8PrivateKey DNSNames self_signed_root decode_body r).
Proof using.
  unfold handleCreateRequest, createCustomRequest, createStandardRequest, randToken, GenerateKey, Now.
  repeat first [by apply steady_finalize|by apply steady_deliver|exact I|progress intros|apply steady_bind|apply draw_steady|apply get_steady|case_match].
Qed.

Lemma steady_start : vsteady (startInteractive base trustAnchorAKI rand_text AccessSigningMaterial DemoIdentityCheckVerifierInfo self_signed_root).
Proof using. unfold startInteractive, randToken, Now. vsteady; try exact I. apply store_steady; [by left|done]. Qed.

Lemma steady_clock now : vsteady (pass_time now).
Proof using. unfold pass_time. vsteady. apply modify_steady. intros v hd Hg. split; [by apply kept_clock|apply heap_same]. Qed.

Lemma steady_prune : vsteady prune.
Proof using. unfold prune. vsteady. apply modify_steady. intros v hd Hg. split; [by apply kept_prune|apply heap_same]. Qed.

(** ** A response in progress *)

(** What the thread knows of the request it verifies a response for. *)
Definition working (t : string) (ref : nat) (req : requestState) (w : gverifier) : Prop :=
  (exists q, heap (real w) !! ref = Some q /\ fixed q = fixed req) /\ (direct req = true -> held w !! ref = Some t).

Lemma working_stable t ref req : stable Good respects t (working t ref req).
Proof using.
  intros w w' (_ & _ & t' & Ht & Hg & Hh) ((q & Hq & E) & Hown). split.
  - destruct (Hg ref q Hq) as (q' & Hq' & E'). exists q'. split; [done|congruence].
  - intros Hd. apply (Hh ref t); auto.
Qed.

Lemma nothing_stable t (P : Prop) : stable Good respects t (fun _ => P).
Proof using. by intros w w' _ HP. Qed.

Lemma safe_answer t (a : response) w : vsafe t (Ret a) (fun _ _ => True) w.
Proof using. by apply safe_ret; [apply nothing_stable|]. Qed.

Lemma safe_record t ref req ps w :
  Good w -> working t ref req w -> vsafe t (record_all ref ps) (fun _ => working t ref req) w.
Proof using.
  revert w. induction ps as [|p ps IH]; intros w Hg Hw; cbn [record_all]; [apply safe_ret; [apply working_stable|done]|].
  apply (safe_do _ _ _ _ t (working t ref req)); [apply working_stable|done|]. clear w Hg Hw. intros [v hd] [(q & Hq & E) Hown] Hg _.
  assert (Hgr := grows_update ref (with_presentation p) (heap v) (fun _ => eq_refl)). assert (Hg' := kept_presentation _ _ _ _ _ _ _ _ _ _ _ _ v hd ref p Hg).
  exists (mkGhost (update_request ref (with_presentation p) v) hd). split; [done|split; [by apply respects_own|split; [done|]]].
  apply IH; [done|]. split; [|done]. destruct (Hgr ref q Hq) as (q' & Hq' & E'). exists q'. split; [done|congruence].
Qed.

Lemma safe_finish t oc w :
  Good w -> working t (oc_ref oc) (oc_request oc) w -> gen oc -> vsafe t (finishRequest oc) (fun _ _ => True) w.
Proof using.
  intros Hg Hw Hgen. apply (safe_do _ _ _ _ t (working t (oc_ref oc) (oc_request oc))); [apply working_stable|done|].
  clear w Hg Hw. intros [v hd] [(q & Hq & E) Hown] Hg _. cbn [real held] in *.
  assert (Hheld : forall t', hd !! oc_ref oc = Some t' -> t' = t).
  { intros t' Ht'. destruct (good_held _ _ _ _ _ _ _ _ _ _ _ _ _ Hg _ _ Ht') as (q1 & Hq1 & Hd & _). cbn in Hq1. assert (q1 = q) as -> by congruence.
    rewrite (fixed_direct _ _ E) in Hd. specialize (Hown Hd). congruence. }
  exists (mkGhost (finish_request oc v) (delete (oc_ref oc) hd)). split; [done|split; [|split]].
  - apply respects_own; [by apply grows_update|]. intros ref t' Ht' Hr. rewrite lookup_delete_ne; [done|]. intros <-. by apply Hheld in Hr.
  - eapply kept_finish; [done|exact Hq|done|done|]. intros Hd. apply Hown. by rewrite <- (fixed_direct _ _ E).
  - by apply safe_ret; [apply nothing_stable|].
Qed.

Lemma safe_verify t ref req claimed r vpToken k w :
  Good w -> working t ref req w ->
  arrives req claimed r vpToken ->
  (forall o w, vsafe t (k o) (fun (_ : response) _ => True) w) ->
  vsafe t (verify_and_finish fetch parseCWT issuance revocation verifierTrustAnchors base decode_presentations fuel ref req claimed r vpToken k)
    (fun _ _ => True) w.
Proof using.
  intros Hg Hw Hd Hk. unfold verify_and_finish.
  apply (safe_do _ _ _ _ t (working t ref req)); [apply working_stable|done|]. clear w Hg Hw. intros w Hw Hg _.
  exists w. split; [done|split; [split; [apply heap_same|done]|split; [done|]]]. cbn [snd]. set (now := clock (real w)). clearbody now.
  destruct (verify now req vpToken) as [[log outcome]|] eqn:Ev; [|apply safe_answer].
  eapply safe_seq; [done|by apply safe_record|]. clear w Hg Hw. intros ? w Hg Hw.
  eapply safe_seq; [done|apply safe_finish; [done|done|]|].
  - intros claims Hok. cbn in Hok. subst outcome. exists now, vpToken, log. by split_and!.
  - intros _ w' _ _. apply Hk.
Qed.

Lemma safe_response t rid r w :
  Good w ->
  vsafe t (handlePresentationResponse fetch parseCWT issuance revocation verifierTrustAnchors base DecryptCompactJWE decode_payload
    marshal_value decode_presentations query_escape fuel rid r) (fun _ _ => True) w.
Proof using.
  intros Hg. unfold handlePresentationResponse.
  apply (safe_do _ _ _ _ t (fun _ => True)); [apply nothing_stable|done|]. clear w Hg. intros [v hd] _ Hg _. cbn [real].
  unfold claim_request, lookup_request. destruct (requests v !! rid) as [ref|] eqn:Er; cbn [mbind option_bind];
    [|exists (mkGhost v hd); split; [done|split; [by split; [apply heap_same|]|split; [done|apply safe_answer]]]].
  destruct (heap v !! ref) as [q|] eqn:Eq; cbn [fmap option_fmap option_map];
    [|exists (mkGhost v hd); split; [done|split; [by split; [apply heap_same|]|split; [done|apply safe_answer]]]].
  destruct (after (Verifier.clock v) (rq_expires q)) eqn:Ex.
  { exists (mkGhost (with_requests v (delete rid (requests v))) hd). split; [done|split; [by split; [apply heap_same|]|split; [|apply safe_answer]]].
    apply kept_requests; [done|apply delete_subseteq]. }
  destruct (rq_answered q) eqn:Ea.
  { exists (mkGhost v hd). split; [done|split; [by split; [apply heap_same|]|split; [done|apply safe_answer]]]. }
  assert (Hg' := kept_answer _ _ _ _ _ _ _ _ _ _ _ _ t v hd ref q Hg Eq Ea).
  eexists (mkGhost _ _). split; [reflexivity|split; [|split; [exact Hg'|]]].
  { apply respects_own; [by apply grows_update|]. intros ref' t' Ht' Hr. destruct (direct q) eqn:Ed; [|done]. rewrite lookup_insert_ne; [done|]. intros <-.
    destruct (good_held _ _ _ _ _ _ _ _ _ _ _ _ _ Hg _ _ Hr) as (q1 & Hq1 & _ & Ha1). cbn in Hq1. congruence. }
  assert (Hw : working t ref q (mkGhost (update_request ref with_answered v) (if direct q then <[ref := t]> hd else hd))).
  { split; [exists (with_answered q); cbn; by rewrite lookup_alter_eq, Eq|]. intros Hd. cbn. by rewrite Hd, lookup_insert_eq. }
  cbn [fst snd]. revert Hw Hg'. generalize (mkGhost (update_request ref with_answered v) (if direct q then <[ref := t]> hd else hd)). intros w Hw Hg'.
  assert (Hfail : forall e, vsafe t (do _ <- finishRequest (mkOutcome _ ref q (Verifier.clock v) r [] (Err (Because e))); refuse 400 (Text "invalid_request")) (fun _ _ => True) w).
  { intros e. eapply safe_seq; [done|apply safe_finish; [done|done|by intros claims]|]. intros; apply safe_answer. }
  cbv zeta. destruct (form_broken r); [apply Hfail|]. destruct (decrypt q r) as [vpToken|e] eqn:Ed; [|apply Hfail].
  apply safe_verify; [done|done|by left|]. intros; apply safe_answer.
Qed.

(** A response to a request of the interactive authorization. *)
Lemma safe_continue t ref r w :
  Good w ->
  vsafe t (continueInteractive fetch parseCWT issuance revocation verifierTrustAnchors base marshal_value decode_presentations fuel ref r)
    (fun _ _ => True) w.
Proof using.
  intros Hg. unfold continueInteractive.
  apply (safe_do _ _ _ _ t (fun _ => True)); [apply nothing_stable|done|]. clear w Hg. intros [v hd] _ Hg _. cbn [real].
  exists (mkGhost v hd). split; [done|split; [by split; [apply heap_same|]|split; [done|]]]. cbn [fst snd].
  unfold session_request. destruct (heap v !! ref) as [q|] eqn:Eq; [|apply safe_answer].
  destruct (_ =? "")%string eqn:Ed; [apply safe_answer|]. destruct (unmarshal_object _) as [resp|] eqn:Eu; [|apply safe_answer]. cbv zeta.
  assert (Hdir : direct q <> true) by (unfold direct; by rewrite Ed).
  assert (Hw : working t ref q (mkGhost v hd)) by (split; [by exists q|by intros ?%Hdir]).
  destruct (String.eqb_spec (get_string resp "error") "") as [Er|]; cbn [negb];
    [|eapply safe_seq; [done|apply safe_finish; [done|done|by intros claims]|]; intros; apply safe_answer].
  assert (Hplain : forall vpToken, index resp "vp_token" <> VNil -> marshal_value (index resp "vp_token") = Some vpToken ->
    vsafe t (verify_and_finish fetch parseCWT issuance revocation verifierTrustAnchors base decode_presentations fuel ref q (Verifier.clock v) r vpToken
      (fun outcome => match outcome with Err _ => refuse 400 (Text "the presentation could not be verified: ")
                      | Ok _ => respond 200 (InteractionAnswer (Text "authorization_code")) end)) (fun _ _ => True) (mkGhost v hd)).
  { intros vpToken Hne Hm. apply safe_verify; [done|done| |intros [claims|e] w'; apply safe_answer].
    right. split; [unfold direct; by rewrite Ed|]. by exists resp. }
  destruct (index resp "vp_token"); try apply safe_answer; (destruct (marshal_value _) as [vpToken|]; [|apply safe_answer]); by apply Hplain.
Qed.

(** ** The server *)

Abbreviation handle := (serve fetch parseCWT issuance revocation verifierTrustAnchors base trustAnchorAKI ticketClaims rand_text generate_key
  accessMaterial demoVerifierInfo AccessSigningMaterial DemoIdentityCheckVerifierInfo pem_blocks ParseECPrivateKey ParsePKCS8PrivateKey
  DNSNames self_signed_root decode_body DecryptCompactJWE
  decode_payload marshal_value decode_presentations query_escape fuel).
Abbreviation Reachable := (reachable fetch parseCWT issuance revocation verifierTrustAnchors base trustAnchorAKI ticketClaims rand_text generate_key
  accessMaterial demoVerifierInfo AccessSigningMaterial DemoIdentityCheckVerifierInfo pem_blocks ParseECPrivateKey ParsePKCS8PrivateKey
  DNSNames self_signed_root decode_body DecryptCompactJWE
  decode_payload marshal_value decode_presentations query_escape fuel).

Lemma safe_steady_program t p w : vsteady p -> Good w -> vsafe t p (fun (_ : response) _ => True) w.
Proof using.
  intros Hp _. by eapply steady_is_safe; [apply respects_grow|exact Hp| |].
Qed.

Lemma safe_verifier t e r w : Good w -> vsafe t (handle e r) (fun _ _ => True) w.
Proof using.
  intros Hg. destruct e; cbn [serve].
  - by apply safe_steady_program; [apply steady_create|].
  - apply safe_steady_program; [|done]. apply steady_bind; [apply get_steady|]. intros [jar|]; [|done]. by case_match.
  - apply safe_steady_program; [|done]. apply steady_bind; [apply get_steady|]. by intros [[shown q]|].
  - by apply safe_response.
  - by apply safe_steady_program; [apply steady_start|].
  - by apply safe_continue.
Qed.

Lemma verifier_good v P : Reachable v P -> exists hd, Good (mkGhost v hd).
Proof using.
  intros [now Hsteps].
  set (ok := pool_ok (fun _ : verifier => True) real Good respects (fun _ _ => True) (fun _ (_ : response) _ => True)).
  assert (Hend : ok (v, P)).
  { eapply pool_ok_steps; [| | |exact Hsteps|].
    - intros t. apply nothing_stable.
    - done.
    - intros t p w [e r|now'|] Hg _; [by apply safe_verifier|by apply safe_steady_program; [apply steady_clock|]|by apply safe_steady_program; [apply steady_prune|]].
    - exists (mkGhost (New now) ∅). split; [done|split; [apply kept_new|]].
      intros t. unfold thread_ok. cbn [snd]. by rewrite lookup_empty. }
  destruct Hend as ([v' hd] & E & Hg & _). simpl in E. subst v'. by exists hd.
Qed.
End run.

Section properties.
Context {jose : Jose} {json : Json} {hash : Hash} {pki : Pki} {cbor_lib : Cbor} {cose : Cose pki} {signer : Signer} {maporder : MapOrder}.
Context (fetch : time -> string -> string -> option (string * string * string)).
Context (parseCWT : string -> CheckOptions -> result token_error statusListToken).
Context (issuance revocation : time -> list X509Cert) (verifierTrustAnchors : list X509Cert).
Context (base trustAnchorAKI : string) (ticketClaims : list string).
Context (rand_text : nat -> string) (generate_key : nat -> result why ECKey).
Context (accessMaterial : result why (PrivateKey * list X509Cert)) (demoVerifierInfo : result why (list value)).
Context (AccessSigningMaterial : result why (PrivateKey * list X509Cert)) (DemoIdentityCheckVerifierInfo : result why (option (list value))).
Context (pem_blocks : string -> list (string * string)) (ParseECPrivateKey ParsePKCS8PrivateKey : string -> pem_key PrivateKey).
Context (DNSNames : X509Cert -> list string) (self_signed_root : X509Cert -> bool).
Context (decode_body : string -> result why createRequestBody).
Context (DecryptCompactJWE : string -> ECKey -> result why string).
Context (decode_payload : string -> option (value * string)) (marshal_value : value -> option string).
Context (decode_presentations : string -> option (list (string * list string))).
Context (query_escape : string -> string).
Context (fuel : nat).

Abbreviation Served := (served fetch parseCWT issuance revocation verifierTrustAnchors base trustAnchorAKI ticketClaims rand_text generate_key
  accessMaterial demoVerifierInfo AccessSigningMaterial DemoIdentityCheckVerifierInfo pem_blocks ParseECPrivateKey ParsePKCS8PrivateKey
  DNSNames self_signed_root decode_body DecryptCompactJWE
  decode_payload marshal_value decode_presentations query_escape fuel).
Abbreviation Reachable := (reachable fetch parseCWT issuance revocation verifierTrustAnchors base trustAnchorAKI ticketClaims rand_text generate_key
  accessMaterial demoVerifierInfo AccessSigningMaterial DemoIdentityCheckVerifierInfo pem_blocks ParseECPrivateKey ParsePKCS8PrivateKey
  DNSNames self_signed_root decode_body DecryptCompactJWE
  decode_payload marshal_value decode_presentations query_escape fuel).

(** A response encrypted to the key of the request that names it. *)
Definition encrypted_for (q : requestState) (r : http_request) (vpToken : string) : Prop :=
  exists key plaintext doc, rq_encKey q = Some key /\
    DecryptCompactJWE (trim_space (PostFormValue r "response")) key = Ok plaintext /\
    decode_payload plaintext = Some (doc, rq_id q) /\ marshal_value doc = Some vpToken.

Lemma decryptResponse_encrypted q r vpToken :
  decryptResponse DecryptCompactJWE decode_payload marshal_value q r = Ok vpToken -> encrypted_for q r vpToken.
Proof using.
  unfold decryptResponse, encrypted_for. destruct (_ =? "")%string; [done|]. destruct (rq_encKey q) as [key|]; [|done].
  destruct (DecryptCompactJWE _ key) as [plaintext|] eqn:Ed; [|done]. destruct (decode_payload plaintext) as [[doc state]|] eqn:Ep; [|done].
  destruct (String.eqb_spec state (rq_id q)) as [->|]; [|done]. cbn [negb]. intros Hm.
  exists key, plaintext, doc. split_and!; try done. destruct doc; simplify_eq; by destruct (marshal_value _); simplify_eq.
Qed.

(** The response that a request shows as verified: it arrived encrypted to the
    request's key before the request expired or, for a request of Interactive
    Authorization only, in the clear, and at some moment it answered the
    request. *)
Record earned_result (q : requestState) (oc : outcome) : Prop := {
  er_request : fixed (oc_request oc) = fixed q;
  er_answers : exists now vpToken doc,
    decode_presentations vpToken = Some doc /\
    answers_request (fetch now) parseCWT base (credentialTrust (issuance now) (revocation now) verifierTrustAnchors) now (oc_request oc) doc /\
    ((encrypted_for q (oc_response oc) vpToken /\ after (oc_claimed oc) (rq_expires q) = false) \/
     (interactiveEndpoint q <> "" /\ posted_plain marshal_value (oc_response oc) vpToken));
  er_claims : oc_result oc = Ok (rq_claims q) }.

(** C4: whatever requests and responses the pages and the wallets send and
    however the server's handlers interleave, a request is shown as verified
    only for a response that, as of the moment it was checked, is made of
    accepted presentations that satisfy the request's query.  That response
    arrived encrypted to the request's key, naming the request as its state,
    before the request expired; only for a request of the issuer's Interactive
    Authorization may it have arrived in the clear instead, as the vp_token of
    an Intermediate Request that reports no error, where this step looks at no
    expiry of the request.  The page shows the claims of that response. *)
Theorem verified_status_is_earned v P ref q :
  Reachable v P -> heap v !! ref = Some q -> rq_status q = "verified" ->
  exists oc, oc ∈ outcomes v /\ oc_ref oc = ref /\ earned_result q oc.
Proof using.
  intros Hr Hq Hs. destruct (verifier_good _ _ _ _ _ _ _ _ _ _ _ _ _ _ _ _ _ _ _ _ _ _ _ _ _ _ _ _ Hr) as (hd & Hg).
  destruct (good_shown _ _ _ _ _ _ _ _ _ _ _ _ _ Hg ref q Hq) as [Hp|(oc & Hin & Er & Est & Ecl & _)]; [congruence|].
  destruct (good_outcome _ _ _ _ _ _ _ _ _ _ _ _ _ Hg oc Hin) as (Hgen & q' & Hq' & Efix). cbn [real] in Hq'. rewrite Er in Hq'.
  assert (q' = q) as -> by congruence. exists oc. split; [done|split; [done|]].
  destruct (oc_result oc) as [claims|e] eqn:Eo; [|congruence].
  destruct (Hgen claims Eo) as (now & vpToken & log & Hv & _ & Hd). apply verifyPresentation_answers in Hv as (doc & Hdoc & Hans).
  assert (Edir : direct (oc_request oc) = direct q) by (symmetry; by apply fixed_direct). split; [done| |congruence].
  exists now, vpToken, doc. split; [done|split; [done|]]. destruct Hd as [[Hdec%decryptResponse_encrypted Hexp]|[Hi Hplain]]; [left; split|right; split; [|done]].
  - change (encrypted_for (fixed q) (oc_response oc) vpToken). rewrite Efix. exact Hdec.
  - assert (rq_expires q = rq_expires (oc_request oc)) as ->; [|done]. change (rq_expires (fixed q) = rq_expires (fixed (oc_request oc))). by rewrite Efix.
  - rewrite Edir in Hi. intros E. unfold direct in Hi. by rewrite E in Hi.
Qed.

(** C5: a presentation request of the verifier's own pages takes one response:
    under any interleaving of the responses it gets, the verifier records one
    outcome for it, and once its page shows a result, that is the result of
    the one outcome.  A request of the issuer's Interactive Authorization is
    not claimed before it is verified, so overlapping Intermediate Requests can
    each record an outcome for it; the statement leaves those out. *)
Theorem requests_are_answered_once v P :
  Reachable v P ->
  NoDup (oc_ref <$> filter of_direct (outcomes v)) /\
  forall ref q, heap v !! ref = Some q -> interactiveEndpoint q = "" -> rq_status q <> "pending" ->
    exists oc, shows oc q /\ forall oc', oc' ∈ outcomes v /\ oc_ref oc' = ref <-> oc' = oc.
Proof using.
  intros Hr. destruct (verifier_good _ _ _ _ _ _ _ _ _ _ _ _ _ _ _ _ _ _ _ _ _ _ _ _ _ _ _ _ Hr) as (hd & Hg).
  split; [apply Hg|]. intros ref q Hq Hd Hst.
  destruct (good_shown _ _ _ _ _ _ _ _ _ _ _ _ _ Hg ref q Hq) as [Hp|(oc & Hin & Er & Hsh)]; [by destruct Hst|]. exists oc. split; [done|].
  intros oc'. split; [|by intros ->]. intros [Hin' Er']. eapply (one_outcome _ _ _ _ _ _ _ _ _ _ _ _ (mkGhost v hd)); [exact Hg|exact Hq|unfold direct; by rewrite Hd|done..].
Qed.

(** C6: the request object a wallet fetches is the one the verifier checks the
    response against: it is signed over the nonce, client, response URI, state,
    query and encryption key of the request stored under that id, and the
    verifier holds at most [maxEntries] requests. *)
Theorem served_object_is_the_request v P id jar :
  Reachable v P -> live_object id v = Some jar -> jar <> "" ->
  (size (requests v) <= maxEntries)%nat /\
  exists ref q now info key chain, lookup_request v id = Some (ref, q) /\ rq_id q = id /\
    SignRequestObjectJWT self_signed_root (request_claims now q (response_uri base id) info) key chain = Ok jar.
Proof using.
  intros Hr Hl Hne. destruct (verifier_good _ _ _ _ _ _ _ _ _ _ _ _ _ _ _ _ _ _ _ _ _ _ _ _ _ _ _ _ Hr) as (hd & Hg).
  split; [apply Hg|]. unfold live_object in Hl. destruct (lookup_request v id) as [[ref q]|] eqn:El; [|done].
  destruct (after _ _); [done|]. injection Hl as <-. pose proof El as El'. unfold lookup_request in El'.
  destruct (requests v !! id) as [ref'|] eqn:Er; [|done]. cbn in El'. destruct (heap v !! ref') as [q'|] eqn:Eq; [|done]. injection El' as -> ->.
  destruct (good_ids _ _ _ _ _ _ _ _ _ _ _ _ _ Hg id ref Er) as (q1 & Hq1 & Eid). cbn [real] in Hq1. assert (q1 = q) as -> by congruence.
  destruct (good_object _ _ _ _ _ _ _ _ _ _ _ _ _ Hg ref q Eq) as [?|(now & info & key & chain & Hs)]; [done|].
  exists ref, q, now, info, key, chain. rewrite Eid in Hs. by split_and!.
Qed.

Lemma verifier_reachable l now : Forall (fun tp => Served tp.2) l -> exists P, Reachable (serve_all l (New now)) P.
Proof using.
  intros Hl. destruct (serve_all_steps (fun _ p => Served p) l (New now) ∅ Hl) as [P HP]; [intros t q; by rewrite lookup_empty|].
  by exists P, now.
Qed.
End properties.

(** ** A verifier over toy keys *)

Module VerifierServerToy.
Import VerifierToy.
#[local] Existing Instances toy_jose toy_hash toy_pki toy_json toy_cbor toy_cose.

#[local] Instance toy_signer : Signer := {
  PrivateKey := string;
  marshal_object _ := Some "{}";
  ecdsa_sign _ _ := Some (1%Z, 1%Z);
  curve_bits _ := 256%Z }.

#[local] Instance toy_maporder : MapOrder := { order A m := map_to_list m; order_perm A m := reflexivity (map_to_list m) }.

(** The second text a request draws is its nonce. *)
Definition random (n : nat) : string := if (n mod 3 =? 2)%nat then "nonce" else "r" +:+ itoa (Z.of_nat n).

(** The access certificate, whose hash is the client the presentation names. *)
Definition access : string := default "" (DecodeBase64URL "verifier").

Definition body : createRequestBody :=
  mkCreateBody "custom" "" "" "" false [mkCustom "dc+sd-jwt" "urn:pid" "" [[VString "given_name"]] false] "" "" "" [] "".

Abbreviation toy e r := (serve (fun _ => fetch) parse_cwt (fun _ => issuers) (fun _ => []) [] "https://demo" "" [] random
  (fun _ => Ok "enc") (Ok ("access", [access])) (Ok []) (Err (Text "")) (Err (Text "")) (fun _ => []) (fun _ => NotEC) (fun _ => NotEC) (fun _ => []) (fun _ => false)
  (fun _ => Ok body) (fun jwe _ => if (jwe =? "jwe")%string then Ok "plain" else Err (Text "not encrypted"))
  (fun _ => Some (VString "vp", "r1")) (fun _ => Some "token") (fun _ => Some [("cred_0", [presentation])]) (fun s => s) 3 e r).

Abbreviation toy_reachable := (reachable (fun _ => fetch) parse_cwt (fun _ => issuers) (fun _ => []) [] "https://demo" "" [] random
  (fun _ => Ok "enc") (Ok ("access", [access])) (Ok []) (Err (Text "")) (Err (Text "")) (fun _ => []) (fun _ => NotEC) (fun _ => NotEC) (fun _ => []) (fun _ => false)
  (fun _ => Ok body) (fun jwe _ => if (jwe =? "jwe")%string then Ok "plain" else Err (Text "not encrypted"))
  (fun _ => Some (VString "vp", "r1")) (fun _ => Some "token") (fun _ => Some [("cred_0", [presentation])]) (fun s => s) 3).

Definition posted (l : list (string * string)) : http_request :=
  mkHttp "POST" ∅ (list_to_map ((fun kv => (kv.1, [kv.2])) <$> l)) ∅ false "".

(** A page asks for a PID, the wallet fetches the request and answers it, twice. *)
Definition asked : list (string * prog verifier response) :=
  [("page", toy CreateRequest (posted [])); ("wallet", toy (RequestObjectOf "r1") (posted []))].
Definition presented : list (string * prog verifier response) :=
  asked ++ [("wallet", toy (ResponseTo "r1") (posted [("response", "jwe")])); ("other", toy (ResponseTo "r1") (posted [("response", "jwe")]))].

Definition after_asked : verifier := serve_all asked (New now).
Definition after_presented : verifier := serve_all presented (New now).

Ltac all_served := repeat (apply Forall_cons; split; [constructor|]); apply Forall_nil; exact I.

Lemma asked_reachable : exists P, toy_reachable after_asked P.
Proof. apply verifier_reachable. all_served. Qed.

Lemma presented_reachable : exists P, toy_reachable after_presented P.
Proof. apply verifier_reachable. all_served. Qed.

Definition no_request : requestState := mkRequest _ "" [] [] "" "" "" zero_time false "" None "" None [] [] "".
Definition stored (v : verifier) : requestState := default no_request (heap v !! 0%nat).

Lemma presented_verified : rq_status (stored after_presented) = "verified" /\ oc_ref <$> outcomes after_presented = [0%nat].
Proof. vm_compute. done. Qed.

Lemma presented_stored : heap after_presented !! 0%nat = Some (stored after_presented).
Proof. vm_compute. reflexivity. Qed.

Lemma asked_object : exists jar, live_object "r1" after_asked = Some jar /\ jar <> "".
Proof. eexists. split; [vm_compute; reflexivity|done]. Qed.

Lemma verified_status_is_earned_witness :
  exists oc, oc ∈ outcomes after_presented /\ oc_ref oc = 0%nat /\
    earned_result (fun _ => fetch) parse_cwt (fun _ => issuers) (fun _ => []) [] "https://demo"
      (fun jwe _ => if (jwe =? "jwe")%string then Ok "plain" else Err (Text "not encrypted")) (fun _ => Some (VString "vp", "r1"))
      (fun _ => Some "token") (fun _ => Some [("cred_0", [presentation])]) (stored after_presented) oc.
Proof.
  destruct presented_reachable as [P HP].
  exact (verified_status_is_earned _ _ _ _ _ _ _ _ _ _ _ _ _ _ _ _ _ _ _ _ _ _ _ _ _ _ _ _ 0 _ HP presented_stored (proj1 presented_verified)).
Defined.

Lemma requests_are_answered_once_witness :
  oc_ref <$> outcomes after_presented = [0%nat] /\ NoDup (oc_ref <$> filter of_direct (outcomes after_presented)) /\
  exists oc, shows oc (stored after_presented) /\ forall oc', oc' ∈ outcomes after_presented /\ oc_ref oc' = 0%nat <-> oc' = oc.
Proof.
  destruct presented_reachable as [P HP].
  destruct (requests_are_answered_once _ _ _ _ _ _ _ _ _ _ _ _ _ _ _ _ _ _ _ _ _ _ _ _ _ _ _ _ HP) as [Hn Hone].
  refine (conj (proj2 presented_verified) (conj Hn (Hone 0%nat _ presented_stored _ _))); [vm_compute; reflexivity|].
  rewrite (proj1 presented_verified). discriminate.
Defined.

Lemma served_object_is_the_request_witness :
  exists jar ref q now info key chain, live_object "r1" after_asked = Some jar /\ lookup_request after_asked "r1" = Some (ref, q) /\
    SignRequestObjectJWT (fun _ => false) (request_claims now q (response_uri "https://demo" "r1") info) key chain = Ok jar.
Proof.
  destruct asked_reachable as [P HP], asked_object as (jar & Hl & Hne).
  destruct (served_object_is_the_request _ _ _ _ _ _ _ _ _ _ _ _ _ _ _ _ _ _ _ _ _ _ _ _ _ _ _ _ "r1" jar HP Hl Hne)
    as (_ & ref & q & t & info & key & chain & Hq & _ & Hs).
  exists jar, ref, q, t, info, key, chain. exact (conj Hl (conj Hq Hs)).
Defined.
End VerifierServerToy.
