(* ===== verification/VerifierWallet.v ===== *)
(** * VerifierWallet: the wallet and the demo verifier together

    The wallet's answer to the verifier's query has the shape the verifier
    demands; the verifier finds a requested claim where the wallet selected it;
    the key binding JWT the wallet signs is the one the verifier accepts. *)

From stdpp Require Import base list strings gmap.
From Stdlib Require Import ZArith Lia Ascii.
From S2P Require Import Prelude GoStrings StringFacts GoValue Numbers Format CredType Validity StatusList SDJWT SDJWTFacts.
From S2P Require Import WalletState ClaimPath ClaimPathFacts DCQL DCQLFacts Present PresentFacts PresentWire.
From S2P Require Import Certs Mdoc Validate IssuerAuth VerifierChecks VerifierFacts.

Local Open Scope Z_scope.

(** ** The query *)

Section answer.
Context (queries : list credentialQuery) (sets : list credentialSet).
Abbreviation query := (dcqlQuery queries sets).

Lemma dcqlQuery_credentials : get_arr query "credentials" = map (fun q => VObj (query_entry q)) queries.
Proof using. unfold dcqlQuery. by destruct sets. Qed.

Lemma dcqlQuery_sets : get_arr query "credential_sets" = map (fun s => VObj (set_entry s)) sets.
Proof using. unfold dcqlQuery. by destruct sets. Qed.

Lemma query_entry_multiple q : index (query_entry q) "multiple" = if q_multiple q then VBool true else VNil.
Proof using. unfold query_entry, index. destruct (q_paths q), (q_multiple q), (trustedAuthorities q); reflexivity. Qed.

Lemma set_entry_options s : as_arr (index (set_entry s) "options") = Some (map strings (options s)).
Proof using. by unfold set_entry; destruct (optional s). Qed.

Lemma set_entry_required s : set_required (set_entry s) = negb (optional s).
Proof using. unfold set_required, set_entry. by destruct (optional s). Qed.

Lemma strings_inj l l' : strings l = strings l' -> l = l'.
Proof using.
  intros E. injection E as E. revert l' E. induction l as [|s l IH]; intros [|s' l'] E; simpl in E; [done..|].
  injection E as -> E. f_equal. by apply IH.
Qed.

Lemma credentials_entry cq : VObj cq ∈ get_arr query "credentials" -> exists q, q ∈ queries /\ cq = query_entry q.
Proof using. rewrite dcqlQuery_credentials. intros (q & E & Hq)%list_elem_of_fmap. exists q. split; [done|congruence]. Qed.

Lemma multiple_ids id : id ∈ multipleQueries (get_arr query "credentials") -> exists q, q ∈ queries /\ q_id q = id /\ q_multiple q = true.
Proof using.
  unfold multipleQueries. rewrite elem_of_list_to_set, elem_of_filter_map, dcqlQuery_credentials.
  intros (v & (q & -> & Hq)%list_elem_of_fmap & Hv). simpl default in Hv. rewrite query_entry_multiple in Hv.
  exists q. destruct (q_multiple q); [|done]. change (get_string (query_entry q) "id") with (q_id q) in Hv. split_and!; [done| |done].
  by destruct (_ =? "")%string; simplify_eq.
Qed.

Section evaluated.
Context {J : Json} {R : CredentialReader}.
Context (mode : ValidationMode) (pref : string) (rnd rnd' : string -> nat -> nat) (creds : list StoredCredential).

(** C22: whatever the mode, the stored credentials and the preferences, when the
    wallet presents credentials for the demo verifier's query, they satisfy
    it: every query without credential sets, an option of every required set,
    no credential for anything the verifier did not ask, and one for a query
    that allows no more. *)
Theorem wallet_answers_verifier_query ms opts :
  EvaluateDCQLWithOptions mode pref rnd rnd' creds (Some query) = Ok (Some ms, opts) -> NoDup (map q_id queries) ->
  unsatisfied queries sets (answered ms) = None /\
  (forall m, m ∈ ms -> exists q, q ∈ queries /\ QueryID m = q_id q) /\
  forall q, q ∈ queries -> q_multiple q = false -> (length (answers ms (q_id q)) <= 1)%nat.
Proof using.
  intros He Hn. split_and!.
  - apply unsatisfied_spec. pose proof (evaluate_inv _ _ _ _ _ _ _ _ He) as (_ & verdicts & _ & H1 & H2 & _).
    change (default [] (Some query)) with query in *. rewrite dcqlQuery_sets in H1, H2. split.
    + intros Hs q Hq. destruct H1 as [-> Hu]; [by rewrite Hs|].
      destruct (unmatched_nil _ _ (VObj (query_entry q)) Hu) as (cq & [= <-] & _ & Ha); [|exact Ha].
      rewrite dcqlQuery_credentials. apply list_elem_of_fmap. by exists q.
    + intros s Hs Ho. assert (Hin : VObj (set_entry s) ∈ map (fun s => VObj (set_entry s)) sets) by (apply list_elem_of_fmap; by exists s).
      assert (Hne : map (fun s => VObj (set_entry s)) sets <> []) by (intros E; rewrite E in Hin; by apply elem_of_nil in Hin).
      destruct (applyCredentialSets_spec _ _ _ _ (H2 Hne)) as [Ha _].
      destruct (Ha (set_entry s) _ Hin (set_entry_options s)) as (ids & Hids & Hall); [by rewrite set_entry_required, Ho|].
      apply list_elem_of_fmap in Hids as (o & E & Hin'). apply (strings_inj ids o) in E as ->. by exists o.
  - intros m Hm. destruct (evaluate_elem _ _ _ _ _ _ _ _ m He Hm) as (verdicts & Hv & Hin).
    destruct (evaluate_queries_elem _ _ _ _ _ Hv Hin) as (cq & cred & Hcq & _ & Ec & _).
    apply credentials_entry in Hcq as (q & Hq & ->). exists q. split; [done|]. symmetry in Ec.
    by apply evaluate_credential_matched in Ec as [[-> _] _].
  - intros q Hq Hmul. eapply one_presentation_per_query; [exact He|]. intros (q' & Hq' & Eid & Ht)%multiple_ids.
    assert (q' = q) as ->; [|congruence]. by eapply (NoDup_key_inj q_id).
Qed.
End evaluated.
End answer.

(** ** Claims paths *)

Lemma present_selected path path' v :
  Forall2 good_segment path path' ->
  claimPathPresent v path = true <-> exists x, x ∈ selected v path' /\ x <> VNil.
Proof.
  intros HF. revert v. induction HF as [|seg seg' path path' Hg HF IH]; intros v.
  { simpl. split; [intros H; exists v; split; [by left|by intros ->]|]. intros (x & ->%list_elem_of_singleton & Hx). by destruct v. }
  destruct Hg as [s Hs Hb|f z Hz|]; cbn [claimPathPresent selected].
  - destruct v; simpl; try (by split; [|intros (? & ?%elem_of_nil & _)]). destruct (get s m); [apply IH|by split; [|intros (? & ?%elem_of_nil & _)]].
  - cbn [index_of_step]. rewrite (int_of_index_float f z Hz). destruct Hz as (_ & Hz & _). destruct (Z.leb_spec 0 z); [|lia].
    destruct v; simpl; try (by split; [|intros (? & ?%elem_of_nil & _)]). destruct (l !! Z.to_nat z); [apply IH|by split; [|intros (? & ?%elem_of_nil & _)]].
  - destruct v; simpl; try (by split; [|intros (? & ?%elem_of_nil & _)]). rewrite existsb_exists. setoid_rewrite list_elem_of_bind. split.
    + intros (item & Hin%list_elem_of_In & (x & Hx & Hne)%IH). exists x. split; [|done]. by exists item.
    + intros (x & (item & Hx & Hin) & Hne). exists item. split; [by apply list_elem_of_In|]. apply IH. by exists x.
Qed.

(** the verifier finds a requested claim exactly when the wallet's
    selection of the same path yields a value other than null. *)
Theorem paths_read_alike root path path' :
  Forall2 good_segment path path' ->
  claimPathPresent (VObj root) path = true <-> exists x, x ∈ selectJSONClaims root path /\ x <> VNil.
Proof.
  intros HF. rewrite (present_selected path path' _ HF). unfold selectJSONClaims. rewrite (select_loop_spec path path' _ HF).
  simpl. by rewrite app_nil_r.
Qed.

(** ** The key binding JWT *)

(** What [encoding/json] documents of a round trip: strings stay, integers
    come back as doubles. *)
Definition json_reads_back {J : Json} {G : Signer} (o : object) : Prop :=
  forall s, marshal_object o = Some s -> exists o', unmarshal_object s = Some o' /\
  forall k, match get k o with
            | Some (VString v) => get k o' = Some (VString v)
            | Some (VInt KInt64 z) => get k o' = Some (VFloat (float64_of_Z z))
            | _ => True
            end.

Lemma json_reads_back_strings {J : Json} {G : Signer} o : json_reads_back o -> reads_back o.
Proof.
  intros Hr s (o' & Hu & Hk)%Hr. exists o'. split; [done|]. intros k v Hv. specialize (Hk k). by rewrite Hv in Hk.
Qed.

(** A signing key and the public key in [cnf]: what one signs as a key binding
    JWT the other verifies. *)
Definition key_pair {J : Json} {H : Hash} {G : Signer} {jose : Jose} (key : PrivateKey) (pub : ECKey) : Prop :=
  curve_bits key = 256 /\ forall payload jws, Sign kb_header payload (Some key) = Ok jws -> jws_valid jws pub = true.


(** The parameters a wallet takes from a request: those of the signed request
    object, or of the Interactive Authorization. *)
Definition asked_by {jose : Jose} (req : requestState) (params : PresentationParams) : Prop :=
  pp_Nonce params = rq_nonce req /\
  if (interactiveEndpoint req =? "")%string
  then pp_ClientID params = rq_clientID req /\ pp_ResponseMode params = "direct_post.jwt"
  else pp_InteractiveAuthorizationEndpoint params = interactiveEndpoint req /\ pp_ResponseMode params = "ia_post".

Lemma asked_audience {jose : Jose} {J : Json} {pki : Pki} req params :
  asked_by req params -> checkPresentationAudience req (sdJWTAudience params) = None.
Proof.
  intros [_ Ha]. unfold checkPresentationAudience, sdJWTAudience. destruct (interactiveEndpoint req =? "")%string eqn:Ei.
  - destruct Ha as [-> ->]. cbn. by rewrite String.eqb_refl.
  - destruct Ha as [-> ->]. cbn [isInteractiveAuthorizationResponseMode]. rewrite Ei. cbn.
    unfold interactiveAuthorizationAudience. by rewrite String.eqb_refl.
Qed.

Lemma up_to_last_free sep s : free sep s = true -> up_to_last sep s = "".
Proof.
  unfold free. induction s as [|c s IH]; simpl; [done|]. intros [Hc Hs]%andb_true_iff. rewrite (IH Hs). simpl.
  by apply negb_true_iff in Hc as ->.
Qed.

Lemma up_to_last_app sep p s : free sep s = true -> up_to_last sep (p +:+ String sep s) = p +:+ String sep "".
Proof.
  intros Hs. induction p as [|c p IH]; simpl.
  - rewrite (up_to_last_free _ _ Hs). simpl. by rewrite Ascii.eqb_refl.
  - rewrite IH. by destruct p.
Qed.

Lemma fill_bytes_length n z : length (fill_bytes n z) = n.
Proof. revert z. induction n as [|n IH]; intros z; simpl; [done|]. rewrite length_app, IH. simpl. lia. Qed.

Lemma string_of_length l : String.length (string_of l) = length l.
Proof. induction l as [|b l IH]; simpl; [done|]. by rewrite IH. Qed.

Section binding.
Context {jose : Jose} {json : Json} {reader : CredentialReader} {hash : Hash} {pki : Pki} {signer : Signer}.

Lemma Signature_length key digest sig : curve_bits key = 256 -> Signature key digest = Ok sig -> String.length sig = 64%nat.
Proof using.
  unfold Signature. intros ->. destruct (ecdsa_sign key digest) as [[r s]|]; [|done]. intros E.
  apply (f_equal (fun res => match res with Ok s => String.length s | Err _ => 0%nat end)) in E. cbv beta iota in E. rewrite <- E.
  rewrite string_of_length, length_app, !fill_bytes_length. reflexivity.
Qed.

(** The verifier parses a JWT the wallet signed. *)
Lemma signed_compact header payload key jws :
  Sign header payload (Some key) = Ok jws -> json_reads_back header -> json_reads_back payload -> curve_bits key = 256 ->
  exists c, parseCompactJWT jws = Ok c /\ c_signingInput c +:+ "." +:+ EncodeBase64URL (c_signature c) = jws /\
    String.length (c_signature c) = 64%nat /\
    (forall k v, get k header = Some (VString v) -> get k (c_header c) = Some (VString v)) /\
    (forall k v, get k payload = Some (VString v) -> get k (c_payload c) = Some (VString v)) /\
    forall k z, get k payload = Some (VInt KInt64 z) -> get k (c_payload c) = Some (VFloat (float64_of_Z z)).
Proof using.
  intros Hs Hh Hp Hbits. destruct (signed_component _ _ _ _ Hs) as (_ & Hne & Hvis).
  apply Sign_inv in Hs as (k & h & p & sig & [= <-] & Hmh & Hmp & Hsig & Ejws).
  destruct (Hh h Hmh) as (ho & Huh & Hho), (Hp p Hmp) as (po & Hup & Hpo).
  exists (mkCompact ho po sig (EncodeBase64URL h +:+ "." +:+ EncodeBase64URL p)). split_and!.
  - unfold parseCompactJWT. rewrite (visible_trimmed _ Hne Hvis), Ejws.
    rewrite (three_parts _ _ _ (encode_free_dot h) (encode_free_dot p) (encode_free_dot sig)).
    unfold decode_part. by rewrite !RawURL_Decode_Encode, Huh, Hup.
  - cbn. by rewrite Ejws, !append_assoc.
  - by eapply Signature_length.
  - intros k' v Hv. specialize (Hho k'). by rewrite Hv in Hho.
  - intros k' v Hv. specialize (Hpo k'). by rewrite Hv in Hpo.
  - intros k' z Hz. specialize (Hpo k'). by rewrite Hz in Hpo.
Qed.

(** C21: the verifier accepts the key binding of what the wallet presents: when
    the wallet answers a request with a credential bound to a key it holds,
    and the verifier checks the presentation within the accepted window, the
    key binding JWT is the holder's signature over exactly this presentation
    for this request, for direct and for interactive requests. *)
Theorem presentation_is_key_bound cred t keys signed_at params key jwk pub now req fuel s :
  holds cred t -> holder_bound (Raw cred) = true ->
  as_obj (index (get_obj (t_Payload t) "cnf") "jwk") = Some jwk -> holderKeyFromJWK jwk = Ok pub -> key_pair key pub ->
  json_reads_back kb_header -> (forall h, json_reads_back (kb_payload signed_at (pp_Nonce params) (sdJWTAudience params) h)) ->
  asked_by req params -> 0 <= signed_at < 2 ^ 53 -> age_refused now (unix signed_at) proofClockSkew proofClockSkew = false ->
  createSDJWTPresentation fuel cred keys signed_at (pp_Nonce params) (sdJWTAudience params) (Some key) = Some (Ok s) ->
  exists t', parseStructure s = Ok t' /\ t_Payload t' = t_Payload t /\ key_bound now req s t'.
Proof using.
  intros Hc Hb Hj Hpub [Hbits Hpair] Hh Hp Hask Hsec Hage Hs.
  destruct (presentation_token cred t Hc signed_at (pp_Nonce params) (sdJWTAudience params) (Some key)
              (json_reads_back_strings _ Hh) (fun h => json_reads_back_strings _ (Hp h)) fuel keys s Hs)
    as (included & prefix & kb & t' & _ & -> & Ht' & Hpay & _ & Hkb). rewrite Hb in Hkb.
  destruct Hkb as (j & Hjwt & _ & Hraw & [p Hprefix] & h & Hhash & Hsign). unfold createKBJWT in Hsign.
  destruct (signed_compact _ _ _ _ Hsign Hh (Hp h) Hbits) as (c & Hparse & Hinput & Hlen & Hhdr & Hstr & Hint).
  destruct (signed_component _ _ _ _ Hsign) as (Hfree & _ & _).
  assert (Hget : forall k v, get k (kb_payload signed_at (pp_Nonce params) (sdJWTAudience params) h) = Some (VString v) -> get_string (c_payload c) k = v).
  { intros k v Hv. unfold get_string, index. by rewrite (Hstr k v Hv). }
  exists t'. split; [done|split; [done|]]. exists j, jwk, pub, c. rewrite Hpay, Hraw. split_and!; try done.
  - unfold get_string, index. by rewrite (Hhdr "typ" "kb+jwt" eq_refl).
  - unfold verifyES256. rewrite Hlen, Hinput. by eapply Hpair.
  - unfold kb_iat_error, index. rewrite (Hint "iat" signed_at eq_refl). change (as_float64 (default VNil (Some (VFloat (float64_of_Z signed_at))))) with (Some (float64_of_Z signed_at)).
    cbv beta iota. by rewrite int_of_float64_of_Z, Hage.
  - assert (Eu : up_to_last "~" (prefix +:+ kb) = prefix) by (rewrite Hprefix, append_assoc; by apply up_to_last_app).
    by rewrite Eu, (Hget "sd_hash" h).
  - rewrite (Hget "nonce" (pp_Nonce params)) by done. apply Hask.
  - rewrite (Hget "aud" (sdJWTAudience params)) by done. by apply asked_audience.
Qed.
End binding.

(** ** Witnesses *)

Module AnswerToy.
Import DCQLToy.
#[local] Existing Instances json reader.

(** The demo verifier asks for the ticket or the PID. *)
Definition queries : list credentialQuery :=
  [mkQuery "pid" "dc+sd-jwt" PIDVCT "" [[VString "given_name"]] false [] "";
   mkQuery "ticket" "dc+sd-jwt" "urn:ticket" "" [[VString "event"]] false [] ""].
Definition sets : list credentialSet := [mkSet [["ticket"]; ["pid"]] false].

Abbreviation evaluate :=
  (@EvaluateDCQLWithOptions json reader Strict "" (fun _ _ => O) (fun _ _ => O) creds (Some (dcqlQuery queries sets))).
Definition presented : list CredentialMatch := match evaluate with Ok (Some ms, _) => ms | _ => [] end.
Definition offered : option ConsentCredentialOptions := match evaluate with Ok (_, o) => o | _ => None end.

Lemma evaluated : evaluate = Ok (Some presented, offered).
Proof. vm_compute. reflexivity. Defined.

Lemma wallet_answers_verifier_query_witness :
  QueryID <$> presented = ["pid"] /\ unsatisfied queries sets (answered presented) = None.
Proof.
  exact (conj eq_refl (proj1 (wallet_answers_verifier_query queries sets _ _ _ _ _ _ _ evaluated ltac:(by_decide)))).
Defined.

Definition address : object := [("address", VObj [("lines", VArr [VNil; VString "Heidestrasse 17"])])].
Definition line : list value := [VString "address"; VString "lines"; VFloat (float64_of_Z 1)].
Definition line' : list value := [VString "address"; VString "lines"; VInt KInt 1].

Lemma line_good : Forall2 good_segment line line'.
Proof. apply Forall2_cons. split; [by apply good_name|]. apply Forall2_cons. split; [by apply good_name|]. apply Forall2_cons. split; [|done].
  apply good_index. vm_compute. done.
Defined.

Lemma paths_read_alike_witness : claimPathPresent (VObj address) line = true.
Proof. apply (proj2 (paths_read_alike address line line' line_good)). exists (VString "Heidestrasse 17"). split; [vm_compute; left|done]. Defined.
End AnswerToy.

Module BindingToy.
#[local] Instance toy_jose : Jose := {
  ECKey := string; Cert := string;
  unmarshal_jwk _ := Some (JoseEC "holder");
  ec_coords k := Some (k, k);
  jws_valid _ _ := true;
  parse_certificate s := Some s;
  cert_ec_key _ := Some "holder";
  common_name s := s;
  verifies _ _ _ := true }.

Definition payload : object :=
  [("vct", VString "urn:pid"); ("cnf", VObj [("jwk", VObj [("kty", VString "EC")])]); ("_sd", VArr [VString (EncodeBase64URL "ZDE")])].

(** Objects come back from JSON as Go decodes them; the key binding payload
    is told apart by its hash. *)
#[local] Instance toy_json : Json := {
  unmarshal_object s :=
    match s with
    | "hdr" => Some [("typ", VString "dc+sd-jwt")]
    | "pld" => Some payload
    | "kbh" => Some kb_header
    | String "P" h =>
        Some [("iat", VFloat (float64_of_Z 1000000)); ("aud", VString "x509_hash:verifier"); ("nonce", VString "nonce"); ("sd_hash", VString h)]
    | _ => None
    end;
  unmarshal_array s := if (s =? "d1")%string then Some [VString "salt"; VString "given_name"; VString "Erika"] else None }.

#[local] Instance toy_hash : Hash := { sha256 s := s; sha384 s := s; sha512 s := s }.

#[local] Instance toy_signer : Signer := {
  PrivateKey := unit;
  marshal_object o := match get "sd_hash" o with Some (VString h) => Some (String "P" h) | _ => Some "kbh" end;
  ecdsa_sign _ _ := Some (1, 2);
  curve_bits _ := 256 }.

#[local] Instance toy_reader : CredentialReader :=
  {| Anchor := unit; holder_bound := fun _ => true; issued_at := issuedAt; chain_akis := fun _ => Some [];
     chain_ends_in := fun _ _ => false; issuance_anchors := fun _ => Err "unreachable" |}.

#[local] Instance toy_pki : Pki := {
  PubKey := string; X509Cert := string;
  ParseCertificate s := Some s; cert_Raw c := c; Parse_Raw c := eq_refl;
  cert_PublicKey c := Some c; cert_Subject c := c; cert_Issuer c := c; cert_CommonName c := c;
  chain_verifies roots _ leaf := contains roots leaf;
  signs_itself _ := false;
  jose_verifies _ key := (key =? "issuer")%string;
  ParsePublicKey _ := None; url_Parse _ := None; http_get _ := Err (Text "offline"); decode_first_object _ := None;
  zlib_inflate _ := None; flate_inflate _ := ([], false) }.

Definition raw : string := "aGRy.cGxk.c2ln~ZDE~".
Definition disclosures : list Disclosure := [mkDisclosure "ZDE" "d1" "salt" "given_name" (VString "Erika") (EncodeBase64URL "ZDE") false].
Definition token : Token := match ParseLenient 3 raw with Some (Ok t) => t | _ => mkToken "" [] [] None [] None [] [] [] end.
Definition cred : StoredCredential :=
  mkCred "1" "dc+sd-jwt" raw (t_ResolvedClaims token) "urn:pid" "" false None None "" "" 0 zero_time disclosures zero_time [].
Definition request : requestState :=
  mkRequest _ "id" [] [] "nonce" "x509_hash:verifier" "" zero_time false "" None "pending" None [] [] "".
Definition params : PresentationParams := mkParams "nonce" "x509_hash:verifier" "" "direct_post.jwt" "".
Definition holder_key : PrivateKey := tt.
Definition public_key : ECKey := "holder".
Definition sent : string :=
  match createSDJWTPresentation 3 cred ["given_name"] 1000000 "nonce" (sdJWTAudience params) (Some holder_key) with Some (Ok s) => s | _ => "" end.

Lemma bound_cred_holds : holds cred token.
Proof. split; [exists 3%nat|..]; vm_compute; reflexivity. Defined.

Lemma bound_sent_ok : createSDJWTPresentation 3 cred ["given_name"] 1000000 "nonce" (sdJWTAudience params) (Some holder_key) = Some (Ok sent).
Proof. vm_compute. reflexivity. Defined.

Lemma bound_header_reads_back : json_reads_back kb_header.
Proof.
  intros s [= <-]. exists kb_header. split; [done|]. intros k. destruct (get k kb_header) as [v|] eqn:E; [|done].
  destruct v as [| | | |[] z| | | | | |]; try done.
  unfold kb_header in E. simpl in E. repeat (case_match; simplify_eq).
Defined.

Lemma bound_payload_reads_back h : json_reads_back (kb_payload 1000000 "nonce" (sdJWTAudience params) h).
Proof.
  intros s [= <-]. eexists. split; [reflexivity|]. intros k. unfold kb_payload. simpl. repeat (case_match; simplify_eq; try done).
Defined.

Lemma presentation_is_key_bound_witness : exists t', parseStructure sent = Ok t' /\ key_bound (unix 1000100) request sent t'.
Proof.
  destruct (presentation_is_key_bound (jose := toy_jose) (json := toy_json) (reader := toy_reader) (hash := toy_hash) (pki := toy_pki) (signer := toy_signer)
    cred token ["given_name"] 1000000 params holder_key [("kty", VString "EC")] public_key (unix 1000100) request 3 sent
    bound_cred_holds ltac:(reflexivity) ltac:(vm_compute; reflexivity) ltac:(reflexivity) ltac:(by split) bound_header_reads_back bound_payload_reads_back ltac:(by split)
    ltac:(lia) ltac:(vm_compute; reflexivity) bound_sent_ok) as (t' & Ht & _ & Hb).
  exists t'. exact (conj Ht Hb).
Defined.
End BindingToy.
