(* ===== verification/VciIssuer.v ===== *)
(** * VciIssuer: the wallet and the demo issuer together

    What the wallet signs for an issuer (VciAuth, VciRequests) against what the
    demo issuer checks (IssuerAuth): DPoP proofs, client attestations with their
    proofs of possession, and key proofs. *)

From stdpp Require Import base list strings gmap.
From Stdlib Require Import ZArith Lia Ascii.
From S2P Require Import Prelude GoStrings StringFacts GoValue Numbers Format Validity SDJWT WalletState DCQL Present PresentWire Certs IssuerAuth Issuer UriQuery IssuerProps ResponseFacts.
From S2P Require Import Mdoc Validate VerifierWallet Conc Jwe VciNet VciMetadata VciAuth VciRequests VciExchangeFacts.

Local Open Scope Z_scope.

(** ** Time *)

(** The issuer's clock is at most a minute behind the wallet's and less than
    five minutes ahead, and the Unix time is an exact double. *)
Definition timely (now t : time) : Prop :=
  civil now /\ civil t /\ 0 <= t_sec t - unix_to_internal < 2 ^ 52 /\ - 60 <= t_sec now - t_sec t < 300.

Lemma timely_unix now t : timely now t -> unix (Unix t) = Time (t_sec t) 0 /\ 0 <= Unix t < 2 ^ 53.
Proof.
  intros (_ & [Hs _] & Hu & _). unfold unix, Unix. assert (Hi : unix_to_internal = 62135596800) by reflexivity.
  rewrite (wrap64_small (t_sec t - unix_to_internal)) by lia. split; [|lia]. rewrite wrap64_small by lia. f_equal. lia.
Qed.

Lemma timely_later now t : timely now t ->
  unix (Unix (add t (5 * Minute))) = Time (t_sec t + 300) 0 /\ 0 <= Unix (add t (5 * Minute)) < 2 ^ 53.
Proof.
  intros (_ & Ht & Hu & _). assert (Hi : unix_to_internal = 62135596800) by reflexivity.
  change (5 * Minute) with (300 * Second). rewrite add_whole by (done || lia). destruct Ht as [Hs _]. unfold unix, Unix. cbn [t_sec].
  rewrite (wrap64_small (t_sec t + 300 - unix_to_internal)) by lia. split; [|lia]. rewrite wrap64_small by lia. f_equal. lia.
Qed.

Lemma timely_fresh now t maxAge skew :
  timely now t -> 300 * Second <= maxAge -> 60 * Second <= skew -> age_refused now (unix (Unix t)) maxAge skew = false.
Proof.
  intros Hti Hm Hk. destruct (timely_unix _ _ Hti) as [-> _]. destruct Hti as ((Hs & Hn) & (Hs' & _) & _ & Hd).
  unfold age_refused, since, sub. cbn [t_sec t_nsec]. unfold Second in *. apply orb_false_iff. rewrite !Z.ltb_ge. lia.
Qed.

Lemma timely_not_expired now t : timely now t -> after now (unix (Unix (add t (5 * Minute)))) = false.
Proof.
  intros Hti. destruct (timely_later _ _ Hti) as [-> _]. destruct Hti as (_ & _ & _ & Hd). unfold after. cbn [t_sec t_nsec].
  apply orb_false_iff. split; [apply Z.ltb_ge; lia|]. apply andb_false_iff. left. apply Z.eqb_neq. lia.
Qed.

Lemma timely_valid now t : timely now t -> not_valid_yet now (Some (unix (Unix t))) = false.
Proof.
  intros Hti. destruct (timely_unix _ _ Hti) as [-> _]. destruct Hti as (Hc & _ & _ & Hd). unfold not_valid_yet, clockSkew.
  change Minute with (60 * Second). rewrite add_whole by (done || lia). destruct Hc as [_ Hn]. unfold before, after. cbn [t_sec t_nsec].
  apply orb_false_iff. split; [apply Z.ltb_ge; lia|]. apply andb_false_iff. right. apply Z.ltb_ge. lia.
Qed.

(** ** What the wallet signs comes back *)

Abbreviation plain := (all_bytes visible).

(** The values whose round trip through [encoding/json] matters here. *)
Definition promised (v : value) : bool :=
  match v with VString s => plain s | VInt KInt64 _ | VArr _ | VObj _ => true | _ => false end.

(** What [encoding/json] documents of a round trip; of other values nothing. *)
Inductive read_back : value -> value -> Prop :=
| back_string s : read_back (VString s) (VString s)
| back_int z : read_back (VInt KInt64 z) (VFloat (float64_of_Z z))
| back_array l l' : Forall2 read_back l l' -> read_back (VArr l) (VArr l')
| back_object m m' : (forall k, plain k = true -> option_Forall2 read_back (GoValue.get k m) (GoValue.get k m')) -> read_back (VObj m) (VObj m')
| back_other v v' : promised v = false -> read_back v v'.

Definition same_object (m m' : object) : Prop :=
  forall k, plain k = true -> option_Forall2 read_back (GoValue.get k m) (GoValue.get k m').

Section reading.
Context {m m' : object} (Hr : same_object m m').

Lemma read_value k v : plain k = true -> GoValue.get k m = Some v -> exists v', index m' k = v' /\ read_back v v'.
Proof using Hr. intros Hp Hk. pose proof (Hr k Hp) as H. rewrite Hk in H. unfold index. inversion H as [? v' Hv E1 E2|]. by exists v'. Qed.

Lemma read_none k : plain k = true -> GoValue.get k m = None -> GoValue.get k m' = None.
Proof using Hr. intros Hp Hk. pose proof (Hr k Hp) as H. rewrite Hk in H. by inversion H. Qed.

Lemma read_text k s : plain k = true -> GoValue.get k m = Some (VString s) -> plain s = true -> index m' k = VString s.
Proof using Hr.
  intros Hp Hk Hs. destruct (read_value _ _ Hp Hk) as (v' & -> & Hv). inversion Hv as [| | | |? ? Hn]; [done|].
  simpl in Hn. congruence.
Qed.

Lemma read_int k z : plain k = true -> GoValue.get k m = Some (VInt KInt64 z) -> index m' k = VFloat (float64_of_Z z).
Proof using Hr. intros Hp Hk. destruct (read_value _ _ Hp Hk) as (v' & -> & Hv). by inversion Hv. Qed.

Lemma read_object k o : plain k = true -> GoValue.get k m = Some (VObj o) -> exists o', index m' k = VObj o' /\ same_object o o'.
Proof using Hr.
  intros Hp Hk. destruct (read_value _ _ Hp Hk) as (v' & -> & Hv). inversion Hv as [| | |? o' Ho|]; [|done]. by exists o'.
Qed.

Lemma read_strings k l : plain k = true -> GoValue.get k m = Some (VArr (VString <$> l)) -> forallb plain l = true -> index m' k = VArr (VString <$> l).
Proof using Hr.
  intros Hp Hk Hl. destruct (read_value _ _ Hp Hk) as (v' & -> & Hv). inversion Hv as [| |? l' Hl'| |]; [|done]. subst. f_equal.
  clear -Hl Hl'. revert l' Hl'. induction l as [|s l IH]; intros l' Hl'; [by inversion Hl'|].
  simpl in Hl. apply andb_true_iff in Hl as [Hs Hl]. inversion Hl' as [|? ? ? ? Hv Hl'']. subst. simpl. f_equal; [|by apply IH].
  inversion Hv as [| | | |? ? Hn]; [done|]. simpl in Hn. congruence.
Qed.

Lemma read_get_string k s : plain k = true -> GoValue.get k m = Some (VString s) -> plain s = true -> get_string m' k = s.
Proof using Hr. intros Hp Hk Hs. unfold get_string. by rewrite (read_text k s Hp Hk Hs). Qed.
End reading.

Lemma encoded_plain s : plain (EncodeBase64URL s) = true.
Proof. apply (all_bytes_impl url_byte); [|apply encode_url]. intros c. unfold url_byte. rewrite !andb_true_iff. tauto. Qed.

(** What the wallet and the issuer rely on: JSON, ECDSA and the JWK reader. *)
Class JwtLaws {json : Json} {hash : Hash} {jose : Jose} {signer : Signer} (public : PrivateKey -> ECKey) := {
  json_reads : forall o s, marshal_object o = Some s -> exists o', unmarshal_object s = Some o' /\ same_object o o';
  verifies_signed : forall key header payload jws, Sign header payload (Some key) = Ok jws -> jws_valid jws (public key) = true;
  p256 : forall key, curve_bits key = 256;
  digest : forall s, sha256 s <> "";
  jwk_known : forall key m m', m = SigningJWKMap (public key) \/ m = PublicKeyJWK (public key) -> same_object m m' ->
    unmarshal_jwk m' = Some (JoseEC (public key)) }.

Section issuer.
Context {json : Json} {hash : Hash} {jose : Jose} {pki : Pki} {crypto : JweCrypto} {signer : Signer} {w : World}.
Context (decode_error : string -> option string) (public : PrivateKey -> ECKey) (url_without_query : string -> option string).
Context (wallet : vci_wallet) {laws : JwtLaws public}.

(** The issuer parses a JWT the wallet signed, and its signature verifies. *)
Lemma signed_parses header payload key jws :
  signJWT header payload key = Ok jws ->
  exists c, parseCompactJWT jws = Ok c /\ trim_space jws = jws /\ jws <> "" /\ same_object header (c_header c) /\ same_object payload (c_payload c) /\
    verifyES256 (public key) (c_signingInput c) (c_signature c) = true.
Proof.
  unfold signJWT. destruct (Sign header payload (Some key)) as [jws'|] eqn:Hs; [|done]. intros [= ->].
  pose proof (verifies_signed _ _ _ _ Hs) as Hv.
  destruct (signed_component _ _ _ _ Hs) as (_ & Hne & Hvis).
  apply Sign_inv in Hs as (k & h & p & sig & [= <-] & Hmh & Hmp & Hsig & Ejws).
  destruct (json_reads _ _ Hmh) as (ho & Huh & Hho), (json_reads _ _ Hmp) as (po & Hup & Hpo).
  exists (mkCompact ho po sig (EncodeBase64URL h +:+ "." +:+ EncodeBase64URL p)). split_and!; [|by apply (visible_trimmed _ Hne Hvis)|done|done|done|].
  - unfold parseCompactJWT. rewrite (visible_trimmed _ Hne Hvis), Ejws.
    rewrite (three_parts _ _ _ (encode_free_dot h) (encode_free_dot p) (encode_free_dot sig)).
    unfold decode_part. by rewrite !RawURL_Decode_Encode, Huh, Hup.
  - unfold verifyES256. cbn [c_signingInput c_signature]. rewrite (Signature_length key _ _ (p256 key) Hsig). simpl.
    assert (E : (EncodeBase64URL h +:+ "." +:+ EncodeBase64URL p) +:+ "." +:+ EncodeBase64URL sig = jws) by by rewrite Ejws, !append_assoc.
    by rewrite E.
Qed.

(** ** DPoP proofs *)

(** A request as the issuer receives it, with its form. *)
Definition received (r : outgoing) (form : values) : http_request :=
  mkHttp (o_Method r) ((fun v => [v]) <$> o_Header r) form ∅ false (o_Body r).

Lemma received_header r form k v : o_Header r !! k = Some v -> Header (received r form) k = v.
Proof. intros Hk. unfold Header, first_of, values_of. simpl. by rewrite lookup_fmap, Hk. Qed.

Lemma received_missing r form k : o_Header r !! k = None -> Header (received r form) k = "".
Proof. intros Hk. unfold Header, first_of, values_of. simpl. by rewrite lookup_fmap, Hk. Qed.

Lemma numeric_back m m' k z : same_object m m' -> plain k = true -> GoValue.get k m = Some (VInt KInt64 z) -> 0 <= z < 2 ^ 53 -> numeric_date m' k = Some (unix z).
Proof. intros Hr Hp Hk Hz. unfold numeric_date. rewrite (read_int Hr k z Hp Hk). cbn [as_float64]. by rewrite int_of_float64_of_Z. Qed.

Lemma jwk_private key m' : same_object (SigningJWKMap (public key)) m' -> GoValue.get "d" m' = None.
Proof.
  intros Hr. apply (read_none Hr); [done|]. unfold SigningJWKMap. by destruct (default _ _) as [[[? ?] ?] ?].
Qed.

Lemma holder_key_read key m' : same_object (SigningJWKMap (public key)) m' -> holderKeyFromJWK m' = Ok (public key).
Proof. intros Hr. unfold holderKeyFromJWK, IssuerAuth.ParseJWK. by rewrite (jwk_known key _ m' (or_introl eq_refl) Hr). Qed.

(** A DPoP proof made for a request is accepted at its endpoint. *)
Lemma dpop_accepted now q key n r form token :
  proved_for public url_without_query q n (o_Header r) -> dr_key q = Some key -> o_Method r = dr_method q -> to_upper (dr_method q) = dr_method q ->
  plain (dr_method q) = true -> plain (dr_target q) = true ->
  dpopTargetURI url_without_query (dr_target q) = dr_target q -> (token = "" \/ token = dr_token q) -> (forall a, timely now (clock a).2) ->
  verifyDPoPProof now (received r form) (dr_target q) token = Ok (KeyIDForPublicKey (public key)).
Proof.
  intros Hp Hkey Hmethod Hupper Hplain Hplain' Htarget Htoken Htime. unfold proved_for in Hp. rewrite Hkey in Hp.
  destruct Hp as (t & jti & challenge & jwt & [a Ha] & _ & Hsign & Hh). specialize (Htime a). rewrite Ha in Htime.
  destruct (signed_parses _ _ _ _ Hsign) as (c & Hparse & Htrim & Hne & Hhdr & Hpay & Hver).
  unfold verifyDPoPProof. rewrite (received_header _ _ _ _ Hh), Htrim. apply String.eqb_neq in Hne as ->. rewrite Hparse.
  rewrite (read_get_string Hhdr "typ" "dpop+jwt" eq_refl eq_refl eq_refl). cbn [negb String.eqb].
  destruct (read_object Hhdr "jwk" (SigningJWKMap (public key)) eq_refl eq_refl) as (m' & -> & Hm'). cbn [as_obj].
  rewrite (jwk_private key m' Hm'), (holder_key_read key m' Hm'), Hver. cbn [negb].
  rewrite (read_get_string Hpay "htm" (dr_method q)) by (done || by unfold dpop_payload; simpl; rewrite Hupper).
  rewrite (read_get_string Hpay "htu" (dr_target q)) by (done || by unfold dpop_payload; simpl; rewrite Htarget).
  cbn [Method received]. rewrite Hmethod. unfold EqualFold. rewrite !String.eqb_refl. cbn [negb].
  rewrite (numeric_back _ _ "iat" (Unix t) Hpay eq_refl eq_refl) by (by apply (timely_unix now)).
  rewrite (timely_fresh _ _ _ _ Htime) by (unfold dpopProofMaxAge, clockSkew, Minute, Second; lia).
  destruct (token =? "")%string eqn:Et; [done|]. apply String.eqb_neq in Et. destruct Htoken as [->| ->]; [done|]. cbn [negb andb].
  rewrite (read_get_string Hpay "ath" (EncodeBase64URL (sha256 (dr_token q)))); [by rewrite String.eqb_refl|done| |apply encoded_plain].
  unfold dpop_payload. apply String.eqb_neq in Et as ->. unfold nonempty_claim. by destruct (_ =? "")%string, (_ =? "")%string.
Qed.

(** ** Client attestations *)

Lemma encoded_nonempty s : s <> "" -> EncodeBase64URL s <> "".
Proof. intros Hs E. apply Hs. pose proof (RawURL_Decode_Encode s) as H. rewrite E in H. vm_compute in H. by injection H as <-. Qed.

Lemma drawn_nonempty n s : (forall k a, String.length (entropy k a).2 = k) -> (0 < n)%nat -> drawn n s -> s <> "".
Proof. intros Hl Hn [a <-]. apply encoded_nonempty. intros E. specialize (Hl n a). rewrite E in Hl. simpl in Hl. lia. Qed.

(** The attested client. *)
Lemma attested_client_accepted now t c clientID :
  timely now t -> same_object (attestation_payload public wallet t clientID) (c_payload c) -> clientID <> "" -> plain clientID = true ->
  attested_client now c clientID = Ok (clientID, public (vw_HolderKey wallet)).
Proof.
  intros Ht Hm Hne Hp. unfold attested_client.
  rewrite (read_get_string Hm "sub" clientID eq_refl eq_refl Hp). apply String.eqb_neq in Hne as ->. rewrite String.eqb_refl. cbn [negb andb].
  unfold checkJWTValidity. rewrite (numeric_back _ _ "exp" _ Hm eq_refl eq_refl) by (by apply (timely_later now)).
  rewrite (numeric_back _ _ "nbf" _ Hm eq_refl eq_refl) by (by apply (timely_unix now)). rewrite (timely_not_expired _ _ Ht), (timely_valid _ _ Ht).
  destruct (read_object Hm "cnf" _ eq_refl eq_refl) as (cnf & Hcnf & Hcnf'). unfold get_obj. rewrite Hcnf. cbn [as_obj default from_option id].
  destruct (read_object Hcnf' "jwk" _ eq_refl eq_refl) as (jwk & Ejwk & Hjwk). rewrite Ejwk. cbn [as_obj]. rewrite (jwk_private _ _ Hjwk).
  by rewrite (holder_key_read _ _ Hjwk).
Qed.

Lemma pop_accepted base now t jti auth clientID challenge pop :
  timely now t -> plain jti = true -> jti <> "" -> auth_Audience auth = issuerID base -> plain (issuerID base) = true -> clientID <> "" -> plain clientID = true ->
  signJWT (pop_header public wallet) (pop_payload t jti (auth_Audience auth) clientID challenge) (vw_HolderKey wallet) = Ok pop ->
  check_pop base now pop clientID (public (vw_HolderKey wallet)) = Ok ().
Proof.
  intros Ht Hpj Hj Ha Hpa Hne Hpc Hs. destruct (signed_parses _ _ _ _ Hs) as (c & Hparse & _ & _ & Hhdr & Hpay & Hver).
  unfold check_pop. rewrite Hparse.
  rewrite (read_get_string Hhdr "typ" "oauth-client-attestation-pop+jwt" eq_refl eq_refl eq_refl), (read_get_string Hhdr "alg" "ES256" eq_refl eq_refl eq_refl).
  cbn [negb String.eqb]. rewrite Hver. cbn [negb].
  rewrite (read_get_string Hpay "aud" (issuerID base)) by (done || by unfold pop_payload; simpl; rewrite Ha). rewrite String.eqb_refl. cbn [negb].
  rewrite (read_get_string Hpay "jti" jti eq_refl eq_refl Hpj). apply String.eqb_neq in Hj as ->.
  rewrite (read_text Hpay "iss" clientID eq_refl eq_refl Hpc). cbn [as_string]. apply String.eqb_neq in Hne as ->. rewrite String.eqb_refl. cbn [negb andb].
  unfold checkPoPFreshness. rewrite (numeric_back _ _ "iat" _ Hpay eq_refl eq_refl) by (by apply (timely_unix now)).
  rewrite (timely_fresh _ _ _ _ Ht) by (unfold dpopProofMaxAge, clockSkew, Minute, Second; lia).
  rewrite (numeric_back _ _ "exp" _ Hpay eq_refl eq_refl) by (by apply (timely_later now)).
  rewrite (numeric_back _ _ "nbf" _ Hpay eq_refl eq_refl) by (by apply (timely_unix now)).
  unfold expired_at. by rewrite (timely_not_expired _ _ Ht), (timely_valid _ _ Ht).
Qed.

(** The chain of the wallet provider. *)
Definition provides (leaf : Cert) (certs : list Cert) : Prop :=
  forall key x5c, vw_provider wallet = Some (Ok (key, x5c)) ->
  x5c_certificates (VString <$> x5c) = Ok (leaf :: certs) /\ cert_ec_key leaf = Some (public key) /\ x5c <> [] /\ forallb plain x5c = true.

Lemma attestation_accepted base mode anchors now auth clientID r form jkt leaf certs :
  attested_for public wallet (Some (auth, clientID)) (o_Header r) -> clientID <> "" -> plain clientID = true -> auth_Audience auth = issuerID base -> plain (issuerID base) = true ->
  (auth_CombinedPoP auth = true -> jkt = KeyIDForPublicKey (public (vw_HolderKey wallet)) /\ jkt <> "") -> provides leaf certs ->
  (forall a, timely now (clock a).2) -> (forall k a, String.length (entropy k a).2 = k) ->
  exists name, authenticateClient base mode anchors now (received r form) clientID jkt =
    Ok (IssuerAuth.mkClientAuth (if auth_CombinedPoP auth then IssuerAuth.attestationDPoPClientAuth else IssuerAuth.attestationClientAuth) clientID name
          (chainsToWalletProviderCA anchors (leaf :: certs))).
Proof.
  intros (key & x5c & t & jwt & Hprov & [a Ha] & Hsign & Hh & Hpop) Hne Hpc Haud Hpa Hcomb Hchain Htime Hent.
  destruct (Hchain _ _ Hprov) as (Hcerts & Hleaf & Hx5c & Hplain). pose proof (Htime a) as Ht. rewrite Ha in Ht.
  destruct (signed_parses _ _ _ _ Hsign) as (c & Hparse & Htrim & Hj & Hhdr & Hpay & Hver).
  exists (attester_name (mkSigner (public key) leaf (chainsToWalletProviderCA anchors (leaf :: certs))) (c_payload c)).
  assert (Hone : forall k, (1 <? length (values_of (Headers (received r form)) k))%nat = false).
  { intros k. unfold values_of. simpl. rewrite lookup_fmap. by destruct (o_Header r !! k). }
  unfold authenticateClient. rewrite !Hone. rewrite (received_header _ _ _ _ Hh), Htrim. apply String.eqb_neq in Hj as ->.
  assert (Hpossession : check_possession base now (trim_space (Header (received r form) "OAuth-Client-Attestation-PoP")) clientID jkt
            (public (vw_HolderKey wallet)) = Ok (if auth_CombinedPoP auth then IssuerAuth.attestationDPoPClientAuth else IssuerAuth.attestationClientAuth)).
  { unfold check_possession. destruct (auth_CombinedPoP auth).
    - rewrite (received_missing _ _ _ Hpop). destruct (Hcomb eq_refl) as [-> Hjkt]. apply String.eqb_neq in Hjkt as ->. change (trim_space "") with "". by rewrite !String.eqb_refl.
    - destruct Hpop as (t' & jti & challenge & pop & [a' Ha'] & Hjti & Hs & Hhp). pose proof (Htime a') as Ht'. rewrite Ha' in Ht'.
      rewrite (received_header _ _ _ _ Hhp). destruct (signed_parses _ _ _ _ Hs) as (_ & _ & -> & Hpn & _). apply String.eqb_neq in Hpn as ->.
      rewrite (pop_accepted base now t' jti auth clientID challenge pop Ht'); [done| | |done..].
      + destruct Hjti as [? <-]. apply encoded_plain.
      + by apply (drawn_nonempty 18 jti Hent); [lia|]. }
  unfold check_attestation. rewrite Hparse.
  rewrite (read_get_string Hhdr "typ" "oauth-client-attestation+jwt" eq_refl eq_refl eq_refl), (read_get_string Hhdr "alg" "ES256" eq_refl eq_refl eq_refl). cbn [negb String.eqb].
  assert (Hsigner : attestationSigner_of anchors (c_header c) =
    Ok (mkSigner (public key) leaf (chainsToWalletProviderCA anchors (leaf :: certs)))).
  { unfold attestationSigner_of, get_arr. rewrite (read_strings Hhdr "x5c" x5c eq_refl eq_refl Hplain). cbn [as_arr default from_option id].
    destruct (VString <$> x5c) eqn:El; [by apply fmap_nil_inv in El|]. by rewrite Hcerts, Hleaf. }
  rewrite Hsigner. cbn [as_key as_trusted]. rewrite Hver. cbn [negb].
  rewrite (attested_client_accepted now t c clientID Ht Hpay Hne Hpc), Hpossession. done.
Qed.

(** ** Key proofs *)

Lemma key_proof_accepted base now t key clientID cNonce extra jwt :
  timely now t -> cNonce <> "" -> plain cNonce = true -> plain (issuerID base) = true -> (forall k, k ∈ ["alg"; "typ"; "jwk"; "x5c"; "kid"] -> GoValue.get k extra = None) -> (length extra <= 1)%nat ->
  signJWT (proof_header public key extra) (proof_payload t (issuerID base) clientID cNonce) key = Ok jwt ->
  proof_checks base now jwt = Ok (public key, cNonce).
Proof.
  intros Ht Hn Hpn Hpa Hx Hlen Hs. destruct (signed_parses _ _ _ _ Hs) as (c & Hparse & _ & _ & Hhdr & Hpay & Hver).
  assert (Hget : forall k, k ∈ ["alg"; "typ"; "jwk"; "x5c"; "kid"] -> GoValue.get k (proof_header public key extra) = GoValue.get k (proof_header public key [])).
  { intros k Hk. specialize (Hx k Hk). destruct extra as [|[k' v] [|]]; [done| |simpl in Hlen; lia]. unfold proof_header. cbn [fold_left fst snd].
    simpl in Hx. destruct (String.eqb_spec k k'); [done|]. by rewrite get_set_ne. }
  unfold proof_checks. rewrite Hparse.
  rewrite (read_get_string Hhdr "typ" "openid4vci-proof+jwt") by (done || by rewrite Hget by set_solver).
  rewrite (read_get_string Hhdr "alg" "ES256") by (done || by rewrite Hget by set_solver). cbn [negb String.eqb].
  destruct (read_object Hhdr "jwk" (PublicKeyJWK (public key))) as (m' & Hjwk & Hm'); [done|by rewrite Hget by set_solver|].
  assert (Hmat : proofKeyMaterial (c_header c) = Ok (public key)).
  { unfold proofKeyMaterial. rewrite Hjwk. cbn [as_obj].
    rewrite (read_none Hhdr "x5c") by (done || by rewrite Hget by set_solver). unfold index at 1.
    rewrite (read_none Hhdr "kid") by (done || by rewrite Hget by set_solver). cbn [default as_string].
    unfold holderKeyFromJWK, IssuerAuth.ParseJWK. by rewrite (jwk_known key _ m' (or_intror eq_refl) Hm'). }
  rewrite Hmat, Hver. cbn [negb].
  rewrite (read_get_string Hpay "aud" (issuerID base) eq_refl eq_refl Hpa), String.eqb_refl. cbn [negb].
  rewrite (numeric_back _ _ "iat" _ Hpay eq_refl eq_refl) by (by apply (timely_unix now)).
  rewrite (timely_fresh _ _ _ _ Ht) by (unfold proofClockSkew, Minute, Second; lia).
  rewrite (read_get_string Hpay "nonce" cNonce); [|done| |done].
  - by apply String.eqb_neq in Hn as ->.
  - unfold proof_payload, nonempty_claim. apply String.eqb_neq in Hn as ->. by destruct (clientID =? "")%string.
Qed.

(** ** The access token *)

Lemma slices_app a b : slice_to (String.length a) (a +:+ b) = a /\ slice_from (String.length a) (a +:+ b) = b.
Proof.
  unfold slice_from. rewrite append_length, Nat.add_comm, Nat.add_sub. unfold slice_to. split; induction a as [|c a IH].
  - by destruct b.
  - simpl in *. by rewrite IH.
  - change ("" +:+ b) with b. change (String.length "") with 0%nat. induction b as [|c b IHb]; simpl; [done|]. by rewrite IHb.
  - exact IH.
Qed.

Lemma authorization_read r form scheme token :
  o_Header r !! "Authorization" = Some (scheme +:+ " " +:+ token) -> scheme = "Bearer" \/ scheme = "DPoP" -> plain token = true -> token <> "" ->
  accessToken (received r form) = Some token.
Proof.
  intros Hh Hs Hp Hne. unfold accessToken. rewrite (received_header _ _ _ _ Hh).
  assert (Htrim : trim_space (scheme +:+ " " +:+ token) = scheme +:+ " " +:+ token).
  { destruct (visible_end token Hne Hp) as (s' & c & -> & Hc). apply (trim_space_fixed _ (scheme +:+ " " +:+ s') c); [by rewrite !append_assoc|done|].
    intros e He. destruct Hs as [-> | ->]; apply cut_prefix_visible; try done;
      pose proof spaces_invisible as [Hi _]%andb_true_iff; rewrite forallb_forall in Hi; by apply Hi, list_elem_of_In. }
  rewrite Htrim, <- append_assoc. destruct (slices_app (scheme +:+ " ") token) as [H1 H2]. pose proof (visible_trimmed token Hne Hp) as H3.
  assert (Hl : forall a, (String.length a <? String.length (a +:+ token))%nat = true).
  { intros a. apply Nat.ltb_lt. rewrite append_length. destruct token; [done|]. simpl. lia. }
  specialize (Hl (scheme +:+ " ")). unfold slice_from in H2.
  destruct Hs as [-> | ->]; cbn [find_map]; unfold bearer_of at 1.
  - change "Bearer " with ("Bearer" +:+ " "). rewrite Hl, H1, H2, H3. done.
  - assert (E : EqualFold (slice_to (String.length "Bearer ") (("DPoP" +:+ " ") +:+ token)) "Bearer " = false) by done.
    rewrite E, andb_false_r. unfold bearer_of. change "DPoP " with ("DPoP" +:+ " "). rewrite Hl, H1, H2, H3. done.
Qed.

(** ** The wallet as a client of the demo issuer *)

(** What the issuer at [base], whose clock reads [now], and the wallet as
    [clientID] have agreed on. *)
Record agreed (base clientID : string) (leaf : Cert) (certs : list Cert) (now : time) : Prop := mkAgreed {
  ag_client : clientID <> "" /\ plain clientID = true;
  ag_issuer : plain (issuerID base) = true;
  ag_provider : provides leaf certs;
  ag_clocks : forall a, timely now (clock a).2;
  (** [rand.Read] fills its buffer *)
  ag_random : forall k a, String.length (entropy k a).2 = k }.

(** The thumbprint a request proves. *)
Definition jkt_of (q : dpop_request) : string := from_option (fun key => KeyIDForPublicKey (public key)) "" (dr_key q).

(** The token of [q] stands in the issuer's state, unbound or bound to the key
    [q] proves. *)
Definition holds_token (now : time) (q : dpop_request) (d : demo ECKey) (granted : tokenState) : Prop :=
  Issuer.clock d = now /\ live_token (dr_token q) d = Some granted /\ (t_jkt granted = "" \/ t_jkt granted = jkt_of q).

(** A request of [q] passes the checks of the token and the credential
    endpoint; one without an attestation is the business of the issuer's mode. *)
Definition accepted (base : string) (mode : ClientAuthMode) (anchors : list Cert) (now : time) (q : dpop_request) (auth : option ClientAuthentication)
    (clientID : string) (trusted : bool) (r : outgoing) : Prop :=
  forall form,
  (forall token, token = "" \/ token = dr_token q ->
     match dr_key q with
     | Some _ => verifyDPoPProof now (received r form) (dr_target q) token = Ok (jkt_of q)
     | None => Header (received r form) "DPoP" = ""
     end) /\
  dpopKey now (received r form) (dr_target q) = Ok (jkt_of q) /\
  (dr_token q <> "" -> forall endpoint d granted, dr_target q = issuerID base +:+ endpoint -> holds_token now q d granted ->
     (run (authorizeAccessToken base (received r form) endpoint) d).2 = Ok (dr_token q, granted)) /\
  match who (attestorFor auth clientID) with
  | Some (a, _) => exists name, authenticateClient base mode anchors now (received r form) clientID (jkt_of q) =
      Ok (IssuerAuth.mkClientAuth (if auth_CombinedPoP a then IssuerAuth.attestationDPoPClientAuth else IssuerAuth.attestationClientAuth)
            clientID name trusted)
  | None => authenticateClient base mode anchors now (received r form) clientID (jkt_of q) =
      match mode with
      | ClientAuthOptional => Ok (IssuerAuth.mkClientAuth unauthenticatedClientAuth "" "" false)
      | ClientAuthRequired => Err (mkOauthError "invalid_client"
          (Text "this authorization server requires attestation-based client authentication (OAuth-Client-Attestation and OAuth-Client-Attestation-PoP)"))
      end
  end.

(** A request for the issuer's endpoint [dr_target q]: as the URL parser writes
    it, with an upper-case method and a usable access token. *)
Record addressed (base : string) (q : dpop_request) (auth : option ClientAuthentication) : Prop := mkAddressed {
  ad_method : to_upper (dr_method q) = dr_method q /\ plain (dr_method q) = true;
  ad_target : dpopTargetURI url_without_query (dr_target q) = dr_target q /\ plain (dr_target q) = true;
  ad_token : dr_token q <> "" -> plain (dr_token q) = true /\ (dr_authScheme q = "Bearer" \/ dr_authScheme q = "DPoP");
  ad_auth : forall a, auth = Some a -> auth_Audience a = issuerID base /\ (auth_CombinedPoP a = true -> dr_key q = Some (vw_HolderKey wallet)) }.

Lemma thumbprint_nonempty key : KeyIDForPublicKey key <> "".
Proof. unfold KeyIDForPublicKey. destruct (default _ _) as [[[? ?] ?] ?]. apply encoded_nonempty, digest. Qed.

Lemma fixed_authorization q r token scheme :
  o_Header r !! "Authorization" = fixed_headers q !! "Authorization" -> dr_token q = token -> token <> "" -> dr_authScheme q = scheme -> scheme <> "" ->
  o_Header r !! "Authorization" = Some (scheme +:+ " " +:+ token).
Proof.
  intros -> <- Ht <- Hs. unfold fixed_headers. apply String.eqb_neq in Ht as ->. apply String.eqb_neq in Hs as ->. simpl.
  by rewrite lookup_insert_eq.
Qed.

Lemma made_accepted base mode anchors now leaf certs q auth clientID n r :
  agreed base clientID leaf certs now -> addressed base q auth -> made_for public url_without_query wallet q (who (attestorFor auth clientID)) n r ->
  accepted base mode anchors now q auth clientID (chainsToWalletProviderCA anchors (leaf :: certs)) r.
Proof.
  intros [[Hc Hpc] Hi Hp Hclock Hrand] [[Hm Hpm] [Ht Hpt] Htok Hauth] (Em & _ & _ & Eau & Hat & Hpr) form.
  assert (Hproof : forall token, token = "" \/ token = dr_token q ->
     match dr_key q with
     | Some _ => verifyDPoPProof now (received r form) (dr_target q) token = Ok (jkt_of q)
     | None => Header (received r form) "DPoP" = ""
     end).
  { intros token Htk. unfold jkt_of. destruct (dr_key q) as [key|] eqn:Ek.
    - by apply (dpop_accepted now q key n r form token).
    - unfold proved_for in Hpr. rewrite Ek in Hpr. by apply received_missing. }
  split_and!; [exact Hproof| | |].
  - specialize (Hproof "" (or_introl eq_refl)). unfold dpopKey. unfold jkt_of in *. destruct (dr_key q).
    + rewrite Hproof. destruct (trim_space (Header (received r form) "DPoP") =? "")%string eqn:E; [|reflexivity].
      unfold verifyDPoPProof in Hproof. cbv zeta in Hproof. rewrite E in Hproof. discriminate Hproof.
    + rewrite Hproof. assert (E : (trim_space "" =? "")%string = true) by reflexivity. rewrite E. reflexivity.
  - intros Hne endpoint d granted Etarget (Enow & Hlive & Hbound). destruct (Htok Hne) as [Hpl Hs].
    assert (Hread : accessToken (received r form) = Some (dr_token q)).
    { apply (authorization_read r form (dr_authScheme q)); [|done..].
      apply (fixed_authorization q); [apply Eau; unfold own_names, attestation_names; set_solver|done..|]. by destruct Hs as [-> | ->]. }
    specialize (Hproof (dr_token q) (or_intror eq_refl)). rewrite Etarget in Hproof. unfold authorizeAccessToken. rewrite Hread. cbv beta iota. rewrite run_bind.
    unfold get, atomic, Issuer.Now. simpl. rewrite Hlive. destruct (String.eqb_spec (t_jkt granted) "") as [|Hb]; [reflexivity|].
    destruct Hbound as [?|Hbound]; [done|]. simpl. rewrite Enow.
    unfold jkt_of in *. destruct (dr_key q); cbn [from_option] in *; [|congruence]. rewrite Hproof, Hbound, String.eqb_refl. reflexivity.
  - unfold attestorFor in *. destruct auth as [a|]; [destruct (_ =? _)%string|]; cbn [who fmap option_fmap option_map at_auth at_clientID] in *.
    + destruct (Hauth a eq_refl) as [Haud Hcomb]. apply (attestation_accepted base mode anchors now a clientID r form (jkt_of q) leaf certs);
        [exact Hat|exact Hc|exact Hpc|exact Haud|exact Hi| |exact Hp|exact Hclock|exact Hrand].
      intros E. unfold jkt_of. rewrite (Hcomb E). split; [done|]. by apply thumbprint_nonempty.
    + destruct Hat as [H1 H2]. unfold authenticateClient, values_of. cbn [Headers received]. rewrite !lookup_fmap, H1, H2.
      rewrite (received_missing _ _ _ H1), (received_missing _ _ _ H2). by destruct mode.
    + destruct Hat as [H1 H2]. unfold authenticateClient, values_of. cbn [Headers received]. rewrite !lookup_fmap, H1, H2.
      rewrite (received_missing _ _ _ H1), (received_missing _ _ _ H2). by destruct mode.
Qed.

(** C13: every request the wallet sends in one exchange with the demo issuer is a
    request for an attestation challenge or one the issuer accepts, provided the
    two clocks are close and the wallet's client identifier, method, URL and
    token are plain texts: the DPoP proof is by the wallet's key, for this method
    and URL, fresh and bound to the access token; an access token that is live
    at the issuer and not bound to another key authorizes the request; and the
    client attestation authenticates the wallet's client identifier, through its
    proof of possession or through the DPoP proof when the two are combined.  A
    request for which the wallet has no attestation passes as an unauthenticated
    client or is refused, as the issuer's mode says. *)
Theorem demo_issuer_accepts_requests base mode anchors now leaf certs q auth clientID n :
  agreed base clientID leaf certs now -> addressed base q auth ->
  runs (doDPoPRequest decode_error public url_without_query wallet q n (attestorFor auth clientID))
    (fun _ l => Forall (fun e => (exists ep, e.1 = challenge_request ep) \/
      accepted base mode anchors now q auth clientID (chainsToWalletProviderCA anchors (leaf :: certs)) e.1) l).
Proof.
  intros Hag Had. eapply runs_mono; [apply doDPoPRequest_runs|]. intros r l [Ht%tells_made _]. eapply Forall_impl; [exact Ht|].
  intros e [He|[m Hm]]; [by left|right]. by apply (made_accepted base mode anchors now leaf certs q auth clientID m).
Qed.

(** *** Key proofs *)

Lemma key_attestation_runs metadata configID cNonce keys :
  runs (createKeyAttestation public wallet metadata configID cNonce keys) (fun r l => l = [] /\
    forall jwt, r = Ok jwt -> (jwt = "") <-> (credentialKeyAttestationRequirement metadata configID).2 = false).
Proof.
  unfold createKeyAttestation. destruct (credentialKeyAttestationRequirement _ _) as [requirement required]. destruct required; cbn [negb snd].
  2: { apply runs_ret. split; [done|]. by intros jwt [= <-]. }
  destruct (vw_provider wallet) as [[[key x5c]|e]|]; [|by apply runs_ret..].
  eapply runs_bind; [apply clock_runs|]. intros now l [-> _]. apply runs_ret. split; [done|]. intros jwt.
  destruct (signJWT _ _ _) as [jws|] eqn:E; [|done]. intros [= <-]. apply signed_parses in E as (_ & _ & _ & Hne & _). done.
Qed.

Lemma proofs_accepted base now keys clientID cNonce extra :
  (forall a, timely now (clock a).2) -> cNonce <> "" -> plain cNonce = true -> plain (issuerID base) = true ->
  extra = [] \/ (exists v, extra = [("key_attestation", v)]) ->
  runs (createProofJWTs public keys (issuerID base) clientID cNonce extra) (fun r l => l = [] /\
    forall proofs, r = Ok proofs -> Forall2 (fun key proof => proof_checks base now proof = Ok (public key, cNonce)) keys proofs).
Proof.
  intros Ht Hn Hp Hi Hx. induction keys as [|key keys IH]; cbn [createProofJWTs].
  - apply runs_ret. split; [done|]. intros proofs [= <-]. constructor.
  - eapply runs_try with (R := fun r l => l = [] /\ forall proof, r = Ok proof -> proof_checks base now proof = Ok (public key, cNonce)).
    + unfold createProofJWT. eapply runs_bind; [apply clock_runs|]. intros t l [-> [a Ha]]. apply runs_ret. split; [done|].
      intros proof Hs. specialize (Ht a). rewrite Ha in Ht. apply (key_proof_accepted base now t key clientID cNonce extra proof Ht Hn Hp Hi); [| |exact Hs].
      * intros k Hk. destruct Hx as [->|[v ->]]; [reflexivity|]. by set_unfold in Hk; destruct_or?; subst.
      * by destruct Hx as [->|[v ->]]; simpl; lia.
    + intros e l [-> _]. done.
    + intros proof l [-> Hproof]. eapply runs_try; [exact IH| |].
      * intros e l [-> _]. done.
      * intros proofs l [-> Hproofs]. apply runs_ret. split; [done|]. intros all [= <-]. constructor; [by apply Hproof|by apply Hproofs].
Qed.

(** C14: the key proofs the wallet builds for a nonce of the demo issuer are ones
    it accepts: one proof by each key of the request - by the first key alone
    when the configuration requires a key attestation, which its header then
    carries - signed by that key, fresh, for this issuer and with this nonce.
    Building them sends nothing. *)
Theorem demo_issuer_accepts_key_proofs base now leaf certs a cNonce :
  agreed base (cq_clientID a) leaf certs now -> cq_issuer a = issuerID base -> cNonce <> "" -> plain cNonce = true ->
  credentialProofType (cq_metadata a) (cq_configID a) <> "attestation" ->
  runs (buildCredentialProofs public wallet a cNonce) (fun r l => l = [] /\
    forall proofs, r = Ok proofs -> cp_Type proofs = "jwt" /\
      Forall2 (fun key proof => proof_checks base now proof = Ok (public key, cNonce))
        (if (credentialKeyAttestationRequirement (cq_metadata a) (cq_configID a)).2 then take 1 (cq_proofKeys a) else cq_proofKeys a)
        (cp_Values proofs)).
Proof.
  intros [_ Hi _ Hclock _] Hiss Hn Hp Ht. unfold buildCredentialProofs. apply String.eqb_neq in Ht.
  assert (Hrun : runs (do attestation <- createKeyAttestation public wallet (cq_metadata a) (cq_configID a) cNonce (cq_proofKeys a);
      match attestation with
      | Err e => Ret (Err (Fmt "building key attestation: %w" [e]))
      | Ok attestation =>
          if (credentialProofType (cq_metadata a) (cq_configID a) =? "attestation")%string then Ret (Ok (mkProofs "attestation" [attestation]))
          else
            let '(header, keys) := attested_proof attestation (cq_proofKeys a) in
            do proofs <- createProofJWTs public keys (cq_issuer a) (cq_clientID a) cNonce header;
            Ret (match proofs with Ok proofs => Ok (mkProofs "jwt" proofs) | Err e => Err (Fmt "creating proof JWT: %w" [e]) end)
      end) (fun r l => l = [] /\ forall proofs, r = Ok proofs -> cp_Type proofs = "jwt" /\
      Forall2 (fun key proof => proof_checks base now proof = Ok (public key, cNonce))
        (if (credentialKeyAttestationRequirement (cq_metadata a) (cq_configID a)).2 then take 1 (cq_proofKeys a) else cq_proofKeys a) (cp_Values proofs))).
  { eapply runs_bind; [apply key_attestation_runs|]. intros [attestation|e] l [-> Hreq]; [|by apply runs_ret]. specialize (Hreq _ eq_refl).
    rewrite Ht, Hiss. destruct (attested_proof attestation (cq_proofKeys a)) as [header keys] eqn:E.
    assert (Hk : keys = (if (credentialKeyAttestationRequirement (cq_metadata a) (cq_configID a)).2 then take 1 (cq_proofKeys a) else cq_proofKeys a) /\
      (header = [] \/ exists v, header = [("key_attestation", v)])).
    { unfold attested_proof in E. destruct (String.eqb_spec attestation "") as [E'|E'], (credentialKeyAttestationRequirement _ _).2;
        injection E as <- <-; (split; [|by eauto]); [by apply Hreq in E'|done..|]. by destruct E'; apply Hreq. }
    destruct Hk as [-> Hh]. eapply runs_bind; [by apply (proofs_accepted base now)|]. intros [proofs|e] l [-> Hok]; [|by apply runs_ret].
    apply runs_ret. split; [done|]. intros ? [= <-]. split; [done|]. by apply Hok. }
  destruct (proofSigningAlgFinding _ _ _); [|exact Hrun]. destruct (vw_Mode wallet); [by apply runs_ret|exact Hrun].
Qed.
End issuer.

(** ** Instances for the witnesses: one key, a JSON codec for the JWTs below, and
    a server that accepts every request *)

Module ClientToy.
#[local] Existing Instances IssuerToy.toy_jose JweToy.toy_hash JweToy.toy_crypto BindingToy.toy_pki.

Fixpoint same_value (v v' : value) : bool :=
  match v, v' with
  | VString s, VString s' => String.eqb s s'
  | VInt KInt64 z, VInt KInt64 z' => z =? z'
  | VArr l, VArr l' =>
      (fix go l l' := match l, l' with [], [] => true | x :: l, y :: l' => same_value x y && go l l' | _, _ => false end) l l'
  | VObj m, VObj m' =>
      (fix go m m' := match m, m' with
                      | [], [] => true
                      | (k, x) :: m, (k', y) :: m' => String.eqb k k' && same_value x y && go m m'
                      | _, _ => false
                      end) m m'
  | _, _ => false
  end.

Lemma same_value_eq v : forall v', same_value v v' = true -> v = v'.
Proof.
  induction v as [| | | |k z| |s| | |l IH|m IH] using value_ind'; intros v' H; destruct v' as [| | | |k' z'| |s'| | |l'|m']; try discriminate H;
    try (destruct k; discriminate H).
  - destruct k; try discriminate H. destruct k'; try discriminate H. apply Z.eqb_eq in H as ->. reflexivity.
  - apply String.eqb_eq in H as ->. reflexivity.
  - f_equal. revert l' H. induction IH as [|x l Hx _ IHl]; intros [|y l'] H; try discriminate H; [reflexivity|].
    apply andb_true_iff in H as [H1 H2]. f_equal; [by apply Hx|by apply IHl].
  - f_equal. revert m' H. induction IH as [|[k x] m Hx _ IHm]; intros [|[k' y] m'] H; try discriminate H; [reflexivity|].
    apply andb_true_iff in H as [[H1 H2]%andb_true_iff H3]. apply String.eqb_eq in H1 as ->. rewrite (IHm m' H3). do 2 f_equal. by apply Hx.
Qed.

Fixpoint back (v : value) : value :=
  match v with
  | VInt KInt64 z => VFloat (float64_of_Z z)
  | VArr l => VArr (map back l)
  | VObj m => VObj (map (fun kv => (kv.1, back kv.2)) m)
  | _ => v
  end.

Lemma get_back k m : GoValue.get k (map (fun kv => (kv.1, back kv.2)) m) = back <$> GoValue.get k m.
Proof. induction m as [|[k' v] m IH]; [reflexivity|]. simpl. by destruct (String.eqb k k'). Qed.

Lemma back_reads v : read_back v (back v).
Proof.
  induction v as [| | | |k z| |s| | |l IH|m IH] using value_ind'; try by apply back_other.
  - destruct k; [..|]; try by apply back_other. apply back_int.
  - apply back_string.
  - apply back_array. by induction IH; simpl; constructor.
  - apply back_object. intros k _. rewrite get_back. induction IH as [|[k' v] m Hv _ IHm]; simpl; [constructor|].
    destruct (String.eqb k k'); [by constructor|exact IHm].
Qed.

Definition clientID : string := "https://wallet".
Definition base : string := "https://demo".
Definition token_url : string := "https://demo/issuer/token".
Definition nonce : string := "c_nonce".
Definition now : time := unix 1000000.
Definition jti : string := EncodeBase64URL (repeat_byte 18 "r").
Definition jwk : value := VObj (SigningJWKMap "key").
Definition the_time : value := VInt KInt64 1000000.
Definition later : value := VInt KInt64 1000300.

(** The JWTs of one token request, one credential request and one key proof. *)
Definition jwts : list object :=
  [[("alg", VString "ES256"); ("typ", VString "dpop+jwt"); ("jwk", jwk)];
   [("jti", VString jti); ("htm", VString "POST"); ("htu", VString token_url); ("iat", the_time)];
   [("jti", VString jti); ("htm", VString "POST"); ("htu", VString (issuerID base +:+ "/credential")); ("iat", the_time);
    ("ath", VString (EncodeBase64URL (sha256 "token")))];
   [("alg", VString "ES256"); ("typ", VString "oauth-client-attestation+jwt"); ("x5c", string_list ["QUJD"]); ("kid", VString (KeyIDForPublicKey "key"))];
   [("sub", VString clientID); ("iat", the_time); ("exp", later); ("cnf", VObj [("jwk", jwk)]); ("iss", VString "https://provider"); ("nbf", the_time)];
   [("alg", VString "ES256"); ("typ", VString "oauth-client-attestation-pop+jwt"); ("jwk", jwk)];
   [("aud", VString (issuerID base)); ("iat", the_time); ("jti", VString jti); ("iss", VString clientID); ("nbf", the_time); ("exp", later)];
   [("alg", VString "ES256"); ("typ", VString "openid4vci-proof+jwt"); ("jwk", VObj (PublicKeyJWK "key"))];
   [("aud", VString (issuerID base)); ("iat", the_time); ("iss", VString clientID); ("nonce", VString nonce)]].

(** A JWT is written as its number, in unary. *)
Fixpoint write (l : list object) (o : object) : option string :=
  match l with
  | [] => None
  | x :: l => if same_value (VObj x) (VObj o) then Some "." else String "1" <$> write l o
  end.
Fixpoint read (l : list object) (s : string) : option object :=
  match l, s with
  | x :: _, "." => Some (map (fun kv => (kv.1, back kv.2)) x)
  | _ :: l, String "1" s => read l s
  | _, _ => None
  end.

Lemma read_write l o s : write l o = Some s -> read l s = Some (map (fun kv => (kv.1, back kv.2)) o).
Proof.
  revert s. induction l as [|x l IH]; intros s; cbn [write]; [done|].
  destruct (same_value (VObj x) (VObj o)) eqn:E; [intros [= <-]; apply same_value_eq in E as [= ->]; reflexivity|].
  destruct (write l o) as [s'|]; [|done]. intros [= <-]. exact (IH s' eq_refl).
Qed.

#[local] Instance toy_json : Json := {
  unmarshal_object s := if (s =? "{}")%string then Some [] else read jwts s; unmarshal_array _ := None }.
#[local] Instance toy_signer : Signer := {
  PrivateKey := unit; marshal_object := write jwts; ecdsa_sign _ _ := Some (1, 2); curve_bits _ := 256 }.
#[local] Instance toy_world : World := {
  world := unit; serve _ a := (a, Ok (mkIn 200 ∅ "{}" None)); clock a := (a, now); entropy n a := (a, repeat_byte n "r"); NewRequest _ _ := None }.

Definition public (_ : unit) : string := "key".

#[local] Instance toy_laws : JwtLaws public.
Proof.
  split; try done.
  intros o s Hw. exists (map (fun kv => (kv.1, back kv.2)) o). split.
  - apply read_write in Hw. change ((if (s =? "{}")%string then Some [] else read jwts s) = Some (map (fun kv => (kv.1, back kv.2)) o)).
    destruct (String.eqb_spec s "{}") as [->|]; [discriminate Hw|exact Hw].
  - intros k _. rewrite get_back. destruct (GoValue.get k o); constructor. apply back_reads.
Qed.

Definition wallet : vci_wallet :=
  mkVciWallet _ Strict true false VCIVersion11 clientID "" "" "" "https://provider" true "" tt (Some (Ok (tt, ["QUJD"]))).
Definition auth : ClientAuthentication := WalletState.mkClientAuth ClientAuthAttestation (issuerID base) "" 8 false "".
Definition request : dpop_request := form_request token_url {["grant_type" := ["authorization_code"]]} (Some tt) "".
Definition token_request : dpop_request :=
  mkDpopRequest "POST" (issuerID base +:+ "/credential") "application/json" "application/json" "{}" "DPoP" "token" (Some tt).
Definition proof_request : credentialRequestAttempt :=
  mkAttempt [] (issuerID base +:+ "/credential") (issuerID base) "pid" "token" "DPoP" "" "pid" None (Some tt) [tt] clientID.

Lemma repeat_size n : String.length (repeat_byte n "r") = n.
Proof. induction n; cbn; congruence. Qed.

Lemma toy_agreed : agreed (w := toy_world) public wallet base clientID "ABC" [] now.
Proof.
  split; [done|done| | |intros; apply repeat_size].
  - intros key x5c [= <- <-]. split_and!; [vm_compute; reflexivity|reflexivity|discriminate|vm_compute; reflexivity].
  - intros a. unfold timely, civil. vm_compute. intuition congruence.
Qed.

Lemma toy_addressed : addressed (signer := toy_signer) Some wallet base request (Some auth).
Proof. split; [done|done|done|]. intros a [= <-]. done. Qed.

Lemma toy_addressed_token : addressed (signer := toy_signer) Some wallet base token_request None.
Proof. split; [done|done|intros _; split; [reflexivity|by right]|done]. Qed.

(** The issuer holds the token, bound to the wallet's key. *)
Definition granted_token : tokenState := mkToken (mkSettings [] false false 0 "") [] (jkt_of public token_request) None (add now Minute).
Definition issuer_state : demo ECKey := with_tokens (Issuer.New now) {["token" := granted_token]}.

Lemma toy_holds : holds_token public now token_request issuer_state granted_token.
Proof. split; [reflexivity|split; [vm_compute; reflexivity|by right]]. Qed.

Abbreviation send := (doDPoPRequest (w := toy_world) (fun _ => None) public Some wallet).

(** The witness's request reaches the server once, with every header signed. *)
Lemma demo_issuer_accepts_requests_witness :
  (ex_err (run (send request (Some "") (attestorFor (Some auth) clientID)) (mkNet tt [])).2 = None /\
   runs (send request (Some "") (attestorFor (Some auth) clientID))
     (fun _ l => Forall (fun e => (exists ep, e.1 = challenge_request ep) \/
       accepted public base ClientAuthRequired [] now request (Some auth) clientID (chainsToWalletProviderCA [] ["ABC"]) e.1) l)) /\
  ex_err (run (send token_request (Some "") None) (mkNet tt [])).2 = None /\ holds_token public now token_request issuer_state granted_token /\
  runs (send token_request (Some "") None)
    (fun _ l => Forall (fun e => (exists ep, e.1 = challenge_request ep) \/
      accepted public base ClientAuthRequired [] now token_request None clientID (chainsToWalletProviderCA [] ["ABC"]) e.1) l).
Proof.
  split; [split; [vm_compute; reflexivity|]|split; [vm_compute; reflexivity|split; [exact toy_holds|]]].
  - exact (demo_issuer_accepts_requests (w := toy_world) (fun _ => None) public Some wallet base ClientAuthRequired [] now "ABC" [] request (Some auth)
      clientID (Some "") toy_agreed toy_addressed).
  - exact (demo_issuer_accepts_requests (w := toy_world) (fun _ => None) public Some wallet base ClientAuthRequired [] now "ABC" [] token_request None
      clientID (Some "") toy_agreed toy_addressed_token).
Defined.

Lemma demo_issuer_accepts_key_proofs_witness :
  is_ok (run (buildCredentialProofs (w := toy_world) public wallet proof_request nonce) (mkNet tt [])).2 = true /\
  runs (buildCredentialProofs (w := toy_world) public wallet proof_request nonce) (fun r l => l = [] /\
    forall proofs, r = Ok proofs -> cp_Type proofs = "jwt" /\
      Forall2 (fun key proof => proof_checks base now proof = Ok (public key, nonce)) [tt] (cp_Values proofs)).
Proof.
  split; [vm_compute; reflexivity|].
  apply (demo_issuer_accepts_key_proofs (jose := IssuerToy.toy_jose) (signer := toy_signer) (w := toy_world) (fun _ => None) public Some wallet base now "ABC" [] proof_request nonce toy_agreed);
    [reflexivity|discriminate|reflexivity|vm_compute; discriminate].
Defined.
End ClientToy.
