(* ===== verification/VciFlowFacts.v ===== *)
(** * VciFlowFacts: where an issuance sends what

    Which requests the flows of VciFlow send, whatever the issuer answers: the
    access token goes to the credential and the notification endpoint of the
    issuer the offer names, and a code is redeemed with the verifier of its own
    authorization request. *)

From stdpp Require Import base list strings gmap.
From Stdlib Require Import ZArith Lia Ascii.
From S2P Require Import Prelude GoStrings GoValue Numbers Format Validity SDJWT WalletState DCQL Batch Present PresentWire Certs IssuerAuth UriQuery.
From S2P Require Import IssuerProps Requests RequestChecks ResponseFacts Conc Jwe Deferred MdocPresent VciNet VciMetadata VciAuth VciRequests VciExchangeFacts VciFlow VciIssuer.

Local Open Scope Z_scope.

Section facts.
Context {json : Json} {hash : Hash} {jose : Jose} {pki : Pki} {crypto : JweCrypto} {signer : Signer} {w : World}.
Context (decode_error : string -> option string) (public : PrivateKey -> ECKey) (url_without_query : string -> option string).
Context (wallet : vci_wallet).
Context (decode_refusal : string -> option (string * string * string)) (decode_text : string -> option string) (decode_texts : string -> option (list string)).
Context (holder_ecdh : option EcdhPriv) (choices : world -> world * (option EcdhPriv * (nat -> option string))).
Context (marshal_request : object -> option string).

(** ** Steps that send nothing *)

Lemma quiet_step {A} (f : net -> net * A) : (forall s, exchanges (f s).1 = exchanges s) -> quiet (atomic f).
Proof. intros H s. exists []. unfold atomic. simpl. rewrite app_nil_r. specialize (H s). by destruct (f s). Qed.

(** The form with the fields of private_key_jwt. *)
Definition authenticates (form form' : values) : Prop :=
  forall k, k <> "client_assertion_type" -> k <> "client_assertion" -> form' !! k = form !! k.

Lemma authentication_runs form auth clientID :
  runs (applyClientAuthentication public wallet form auth clientID) (fun r l => l = [] /\ forall f, r = Ok f -> authenticates form f).
Proof.
  assert (Hsame : runs (Ret (Ok form)) (fun (r : result why values) l => l = [] /\ forall f, r = Ok f -> authenticates form f)).
  { apply runs_ret. split; [done|]. by intros f [= <-]. }
  unfold applyClientAuthentication. destruct auth as [a|]; [|exact Hsame]. destruct (_ =? _)%string; [|exact Hsame].
  eapply runs_bind with (R := fun _ l => l = []).
  - unfold createClientAssertionJWT. eapply quiet_then; [apply quiet_clock|]. intros now. apply quiet_then; [apply quiet_random|]. intros jti. apply quiet_ret.
  - intros made l ->. apply runs_ret. split; [done|]. destruct made as [assertion|e]; [|done]. intros f [= <-] k H1 H2.
    unfold Set_field. by rewrite !lookup_insert_ne.
Qed.

Lemma quiet_key_attestation metadata configID cNonce keys : quiet (createKeyAttestation public wallet metadata configID cNonce keys).
Proof.
  unfold createKeyAttestation. destruct (credentialKeyAttestationRequirement _ _) as [requirement required]. destruct required; [|apply quiet_ret].
  destruct (vw_provider wallet) as [[[key x5c]|e]|]; [|apply quiet_ret..]. apply quiet_then; [apply quiet_clock|]. intros now. apply quiet_ret.
Qed.

Lemma quiet_proof_jwts keys audience clientID cNonce extra : quiet (createProofJWTs public keys audience clientID cNonce extra).
Proof.
  induction keys as [|key keys IH]; [apply quiet_ret|]. cbn [createProofJWTs]. apply quiet_then.
  - apply quiet_then; [apply quiet_clock|]. intros now. apply quiet_ret.
  - intros [proof|e]; [|apply quiet_ret]. apply quiet_then; [exact IH|]. intros [proofs|e]; apply quiet_ret.
Qed.

Lemma quiet_proofs a cNonce : quiet (buildCredentialProofs public wallet a cNonce).
Proof.
  unfold buildCredentialProofs. set (build := bind _ _). assert (Hb : quiet build).
  { apply quiet_then; [apply quiet_key_attestation|]. intros [attestation|e]; [|apply quiet_ret].
    destruct (_ =? _)%string; [apply quiet_ret|]. destruct (attested_proof _ _) as [header keys].
    apply quiet_then; [apply quiet_proof_jwts|]. intros [proofs|e]; apply quiet_ret. }
  destruct (proofSigningAlgFinding _ _ _); [|exact Hb]. destruct (vw_Mode wallet); [apply quiet_ret|exact Hb].
Qed.

(** A credential request goes out as JSON or as a JWE. *)
Definition credential_types : list string := ["application/json"; "application/jwt"].

Lemma prepared_runs metadata body :
  runs (prepareCredentialRequestBody wallet choices marshal_request metadata body) (fun r l => l = [] /\ forall b t, r = Ok (b, t) -> t ∈ credential_types).
Proof.
  unfold prepareCredentialRequestBody, credential_types. destruct (marshal_request body) as [b|]; [|by apply runs_ret].
  destruct (selectCredentialRequestEncryption _ _) as [[p|]|e]; [| |by apply runs_ret].
  - eapply runs_bind with (R := fun _ l => l = []).
    + apply quiet_step. intros s. unfold do_choose. by destruct (choices (around s)).
    + intros [eph rand_bytes] l ->. apply runs_ret. split; [done|]. intros b' t. destruct (encryptJWE _ _ _ _ _ _ _ _ _ _) as [[? ?]|]; [|done].
      intros [= _ <-]. set_solver.
  - apply runs_ret. split; [done|]. intros b' t [= _ <-]. set_solver.
Qed.

(** ** The requests of each step *)

Section sends.
(** What may be sent: everything without an access token and without a body of a
    stated type, and what each lemma below lists. *)
Context (ok : outgoing -> Prop).
Context (bare : forall r, o_Header r !! "Authorization" = None -> o_Header r !! "Content-Type" = None -> ok r).

Definition allows (q : dpop_request) : Prop := forall id n r, made_for public url_without_query wallet q id n r -> ok r.

Lemma exchange_only q n at_ : allows q -> only ok (doDPoPRequest decode_error public url_without_query wallet q n at_).
Proof.
  intros Hq. eapply runs_mono; [apply doDPoPRequest_runs|]. intros r l [Ht%tells_made _]. eapply Forall_impl; [exact Ht|].
  intros e [[ep ->]|[m Hm]]; [by apply bare|by eapply Hq].
Qed.

Lemma made_header q id n r k : made_for public url_without_query wallet q id n r -> k ∉ own_names -> o_Header r !! k = fixed_headers q !! k.
Proof. intros (_ & _ & _ & H & _). apply H. Qed.

Lemma bare_allowed q : dr_contentType q = "" -> dr_token q = "" -> allows q.
Proof.
  intros Hc Ht id n r Hm. assert (Hk : forall k, k = "Authorization" \/ k = "Content-Type" -> o_Header r !! k = None).
  { intros k Hk. rewrite (made_header _ _ _ _ _ Hm) by (unfold own_names, attestation_names; destruct Hk as [-> | ->]; set_solver).
    unfold fixed_headers, optional_header. rewrite Hc, Ht. simpl. destruct Hk as [-> | ->]; by rewrite lookup_insert_ne. }
  apply bare; apply Hk; auto.
Qed.

Abbreviation form_to := (fun url form key => form_request url form key "").

Lemma post_form_only url form key n at_ :
  allows (form_to url form key) -> only ok (postFormWithDPoP decode_error public url_without_query wallet decode_refusal decode_text decode_texts url form key "" n at_).
Proof. intros H. apply only_bind; [by apply exchange_only|]. intros r. apply only_quiet, quiet_ret. Qed.

Lemma nonce_request_only method ep n : only ok (nonceRequest decode_error public url_without_query wallet method ep n).
Proof. apply only_bind; [by apply exchange_only, bare_allowed|]. intros r. apply only_quiet, quiet_ret. Qed.

Lemma fetch_nonce_only metadata n : only ok (fetchNonce decode_error public url_without_query wallet metadata n).
Proof.
  unfold fetchNonce. destruct (_ =? "")%string; [apply only_quiet, quiet_ret|]. apply only_bind; [apply nonce_request_only|].
  intros [n' [c st]]. destruct (_ && _); [|apply only_quiet, quiet_ret]. apply only_bind; [apply nonce_request_only|].
  intros [n'' [c' st']]. apply only_quiet, quiet_ret.
Qed.

Lemma challenge_only metadata resp issuer n : only ok (issuanceChallenge decode_error public url_without_query wallet metadata resp issuer n).
Proof.
  unfold issuanceChallenge. apply only_bind; [apply fetch_nonce_only|]. intros [n' c].
  destruct (negb _); [apply only_quiet, quiet_ret|]. destruct (negb _); apply only_quiet, quiet_ret.
Qed.

(** A token request, with whatever the client authentication adds. *)
Lemma token_only r form n :
  (forall f, authenticates form f -> allows (form_to (ren_TokenEndpoint r) f (dpopKeyForRenewal wallet r))) ->
  only ok (requestAccessToken decode_error public url_without_query wallet decode_refusal decode_text decode_texts r form n).
Proof.
  intros H. unfold requestAccessToken. eapply runs_bind; [apply authentication_runs|]. intros [f|e] l [-> Hf].
  - specialize (H f (Hf f eq_refl)). cbn [app]. apply (only_bind ok); [by apply post_form_only|]. intros [n' [resp|e]]; [|apply only_quiet, quiet_ret].
    destruct (grant_of_response _ _ _) as [grant refused]. apply only_quiet, quiet_ret.
  - apply runs_ret. constructor.
Qed.

(** Requests to [ep] that carry an access token. *)
Definition allows_access (ep : string) : Prop :=
  forall contentType accept body scheme token key, contentType ∈ credential_types -> allows (mkDpopRequest "POST" ep contentType accept body scheme token key).

Lemma send_credential_only a proofs n :
  allows_access (cq_endpoint a) ->
  only ok (sendCredentialRequest decode_error public url_without_query wallet holder_ecdh choices marshal_request a proofs n).
Proof.
  intros H. unfold sendCredentialRequest. eapply runs_bind; [apply prepared_runs|]. intros [[b t]|e] l [-> Ht]; cbn [app].
  - apply (only_bind ok); [apply exchange_only, H; by eapply Ht|]. intros r. apply only_quiet, quiet_ret.
  - apply runs_ret. constructor.
Qed.

Lemma credential_only r n :
  allows_access (ren_CredentialEndpoint (rq_renewal r)) ->
  only ok (requestCredential decode_error public url_without_query wallet holder_ecdh choices marshal_request r n).
Proof.
  intros H. unfold requestCredential. apply only_bind; [apply challenge_only|]. intros [n' [c|e]]; [|apply only_quiet, quiet_ret].
  destruct (buildCredentialResponseEncryptionRequest _ _ _ _) as [enc|e]; [|apply only_quiet, quiet_ret].
  apply only_bind; [apply only_quiet, quiet_proofs|]. intros [proofs|e]; [|apply only_quiet, quiet_ret].
  apply only_bind; [|intros [n'' [out|f]]; apply only_quiet, quiet_ret].
  unfold requestCredentialWithNonceRetry. apply only_bind; [by apply send_credential_only|]. intros [n'' [out|f]]; [apply only_quiet, quiet_ret|].
  destruct (negb _); [apply only_quiet, quiet_ret|]. apply only_bind; [apply fetch_nonce_only|]. intros [n3 c'].
  destruct (_ =? "")%string; [apply only_quiet, quiet_ret|]. apply only_bind; [apply only_quiet, quiet_proofs|].
  intros [retry|e]; [by apply send_credential_only|apply only_quiet, quiet_ret].
Qed.

Lemma notify_only metadata resp token scheme key n :
  allows_access (get_string metadata "notification_endpoint") ->
  only ok (notifyCredentialAccepted decode_error public url_without_query wallet marshal_request metadata resp token scheme key n).
Proof.
  intros H. unfold notifyCredentialAccepted. destruct (_ || _); [apply only_quiet, quiet_ret|].
  apply only_bind; [|intros [? ?]; apply only_quiet, quiet_ret]. unfold sendNotificationWithDPoP.
  destruct (marshal_request _) as [b|]; [|apply only_quiet, quiet_ret]. apply only_bind; [apply exchange_only, H; unfold credential_types; set_solver|].
  intros r. apply only_quiet, quiet_ret.
Qed.

(** *** The end of an issuance *)

Context (checkReceivedCredentials : object -> string -> result why (list why)).
Context (binds : string -> PrivateKey -> bool) (pem : PrivateKey -> option string) (readable : string -> string -> bool).
Context (resolveCredentialDisplay : object -> string -> option CredentialDisplay) (importing : string -> sortedBatch -> list PrivateKey -> option why).
Context (generate_key : world -> world * option PrivateKey).

Lemma store_only metadata resp renewal display keys replaceID grant n :
  allows_access (get_string metadata "notification_endpoint") ->
  only ok (storeIssuedCredential decode_error public url_without_query wallet marshal_request checkReceivedCredentials binds pem readable importing
             metadata resp renewal display keys replaceID grant n).
Proof.
  intros H. unfold storeIssuedCredential. destruct (checkReceivedCredentials _ _); [|apply only_quiet, quiet_ret].
  destruct (sort_response _ _ _ _ _ _) as [[batch deviations]|e]; [|apply only_quiet, quiet_ret].
  destruct (importing _ _ _); [apply only_quiet, quiet_ret|]. apply only_bind; [by apply notify_only|]. intros n'. apply only_quiet, quiet_ret.
Qed.

Lemma conclude_only metadata renewal grant keys resp n :
  allows_access (get_string metadata "notification_endpoint") ->
  only ok (conclude decode_error public url_without_query wallet marshal_request checkReceivedCredentials binds pem readable resolveCredentialDisplay importing
             metadata renewal grant keys resp n).
Proof.
  intros H. unfold conclude. destruct (negb _).
  - apply only_quiet, quiet_then; [apply quiet_clock|]. intros now. apply quiet_then; [apply quiet_then; [apply quiet_draw|intros b; apply quiet_ret]|].
    intros id. apply quiet_ret.
  - apply only_bind; [by apply store_only|]. intros [d|e]; apply only_quiet, quiet_ret.
Qed.

Lemma quiet_proof_keys metadata : quiet (issuanceProofKeys wallet generate_key metadata).
Proof.
  assert (Hb : forall n, quiet (batch_keys generate_key n)).
  { induction n as [|n IH]; [apply quiet_ret|]. cbn [batch_keys]. apply quiet_then.
    - apply quiet_step. intros s. unfold do_generate. by destruct (generate_key (around s)).
    - intros [key|]; [|apply quiet_ret]. apply quiet_then; [exact IH|]. intros [keys|e]; apply quiet_ret. }
  unfold issuanceProofKeys. apply quiet_then; [apply Hb|]. intros [keys|e]; apply quiet_ret.
Qed.

(** The endpoints of an issuer that take an access token. *)
Definition allows_issuer (s : issuanceSession) : Prop :=
  allows_access (ren_CredentialEndpoint (is_renewal s)) /\ allows_access (get_string (is_metadata s) "notification_endpoint").

Abbreviation issue := (issueWithToken decode_error public url_without_query wallet decode_refusal decode_text decode_texts holder_ecdh choices marshal_request
  checkReceivedCredentials binds pem readable resolveCredentialDisplay importing generate_key).

Lemma issue_only s form :
  (forall f, authenticates form f -> allows (form_to (ren_TokenEndpoint (is_renewal s)) f (dpopKeyForRenewal wallet (is_renewal s)))) ->
  allows_issuer s -> only ok (issue s form).
Proof.
  intros Ht [Hc Hn]. unfold issueWithToken. apply only_bind; [by apply token_only|]. intros [[grant|] [e|] n]; cbn [to_err to_grant];
    try apply only_quiet, quiet_ret.
  apply only_bind; [apply only_quiet, quiet_proof_keys|]. intros [keys|e]; [|apply only_quiet, quiet_ret].
  apply only_bind; [by apply credential_only|]. intros [n' [resp|e]]; [by apply conclude_only|apply only_quiet, quiet_ret].
Qed.

(** *** The browser *)

Context (ip_loopback : string -> bool) (browse : string -> string -> world -> world * option (list values)) (redirect_query : string -> option values).

(** What the wallet accepted of an authorization response. *)
Definition validated (setup : authorizationCodeSetup) (v : values) : Prop :=
  validateAuthorizationCodeResponse wallet v (su_state setup) (su_issuer setup) (su_issRequired setup) = None.

(** An authorization response of this flow: the query of the redirect that
    answered the authorization request, or a callback that arrived while the
    browser had it open. *)
Definition received (endpoint clientID owner : string) (l : talk) (v : values) : Prop :=
  exists requestURI params url, authorizationRequestURL endpoint clientID requestURI params = Ok url /\
    ((exists resp, (mkOut "GET" url ∅ "", Ok resp) ∈ l /\ redirect_query (header_of resp "Location") = Some v) \/
     (exists a arrived, (browse url owner a).2 = Some arrived /\ v ∈ arrived)).

Lemma received_incl endpoint clientID owner (l l' : talk) v : l ⊆ l' -> received endpoint clientID owner l v -> received endpoint clientID owner l' v.
Proof.
  intros Hl (uri & params & url & Hu & [(resp & Hin & Hq)|Hb]); exists uri, params, url; (split; [done|]); [left; exists resp; split; [by apply Hl|done]|by right].
Qed.

Lemma authorization_runs setup requestURI params :
  runs (runAuthorizationCodeRequest wallet ip_loopback browse redirect_query (su_authorizationEndpoint setup) (su_clientID setup) requestURI params
          (su_redirectURI setup) (su_state setup) (su_issuer setup) (su_owner setup) (su_issRequired setup))
    (fun r l => Forall (fun e => ok e.1) l /\ forall v, r = Ok v -> validated setup v /\
       received (su_authorizationEndpoint setup) (su_clientID setup) (su_owner setup) l v).
Proof.
  unfold runAuthorizationCodeRequest, validated. destruct (authorizationRequestURL _ _ _ _) as [url|e] eqn:Eu; [|apply runs_ret; split; [constructor|done]].
  assert (Hv : forall v v' : values, unless (validateAuthorizationCodeResponse wallet v (su_state setup) (su_issuer setup) (su_issRequired setup)) (Ok v) = Ok v' ->
    v' = v /\ validateAuthorizationCodeResponse wallet v' (su_state setup) (su_issuer setup) (su_issRequired setup) = None).
  { intros v v'. destruct (validateAuthorizationCodeResponse wallet v _ _ _) eqn:E; [done|]. by intros [= <-]. }
  destruct (canUseInteractiveAuthorizationCallback _ _ _).
  - eapply runs_bind with (R := fun a l => l = [] /\ exists at_, a = (browse url (su_owner setup) at_).2).
    + intros s. exists []. unfold atomic, do_browse. simpl. rewrite app_nil_r. destruct (browse url _ (around s)) as [at_ r] eqn:E. simpl. split; [done|]. split; [done|].
      exists (around s). by rewrite E.
    + intros [arrived|] l [-> [w' Ew]]; apply runs_ret; (split; [constructor|]); intros v; [|done].
      destruct (List.filter _ arrived) as [|v0 vs] eqn:Ef; [done|]. intros [-> H]%Hv. split; [done|]. exists requestURI, params, url. split; [done|]. right.
      exists w', arrived. split; [done|]. assert (Hin : In v0 (List.filter (completes (su_state setup)) arrived)) by (rewrite Ef; by left).
      apply filter_In in Hin as [Hin _]. by apply list_elem_of_In.
  - eapply runs_bind with (R := fun r l => Forall (fun e => ok e.1) l /\ forall location body, r = Ok (location, body) -> location <> "" ->
      exists resp, (mkOut "GET" url ∅ "", Ok resp) ∈ l /\ location = header_of resp "Location").
    + unfold callAuthorizationEndpoint. destruct (NewRequest _ _); [apply runs_ret; split; [constructor|done]|].
      eapply runs_bind with (R := fun a l => l = [(mkOut "GET" url ∅ "", a)]); [by apply runs_send|]. intros a l ->. apply runs_ret. rewrite app_nil_r.
      split; [apply Forall_singleton; by apply bare; apply lookup_empty|]. intros location body. destruct a as [resp|e]; [|done].
      destruct (_ =? 200); [by intros [= <- _]|]. destruct (_ || _); [done|]. destruct (String.eqb_spec (header_of resp "Location") ""); [done|].
      intros [= <- _] _. exists resp. split; [by left|done].
    + intros [[location body]|e] l [Hl Hloc]; apply runs_ret; rewrite app_nil_r; (split; [done|]); [|done]. intros v. unfold redirected.
      destruct (String.eqb_spec location ""); [done|]. destruct (redirect_query location) as [v0|] eqn:Eq; [|done]. destruct (_ || _); [|done].
      intros [-> H]%Hv. split; [done|]. exists requestURI, params, url. split; [done|]. left. destruct (Hloc location body eq_refl) as (resp & Hin & ->); [done|].
      by exists resp.
Qed.

Abbreviation browser := (through_browser decode_error public url_without_query wallet decode_refusal decode_text decode_texts holder_ecdh choices marshal_request
  ip_loopback browse redirect_query checkReceivedCredentials binds pem readable resolveCredentialDisplay importing generate_key).

Lemma browser_only s setup parForm parEndpoint requestURI :
  (parEndpoint <> "" -> allows (form_to parEndpoint parForm (su_dpopKey setup))) ->
  (forall v f, validated setup v -> authenticates (token_form (ren_ClientID (is_renewal s)) (Get v "code") (su_redirectURI setup) (su_codeVerifier setup)) f ->
     allows (form_to (ren_TokenEndpoint (is_renewal s)) f (dpopKeyForRenewal wallet (is_renewal s)))) ->
  allows_issuer s -> only ok (browser s setup parForm parEndpoint requestURI).
Proof.
  intros Hp Ht Hi. unfold through_browser. apply only_bind.
  - destruct (_ && _) eqn:E; [|apply only_quiet, quiet_ret]. apply andb_true_iff in E as [_ E]. apply negb_true_iff, String.eqb_neq in E.
    apply only_bind; [by apply post_form_only, Hp|]. intros [n [resp|e]]; apply only_quiet, quiet_ret.
  - intros [n [uri|e]]; [|apply only_quiet, quiet_ret]. eapply runs_bind; [apply authorization_runs|]. intros [v|e] l [Hl Hv].
    + destruct (_ =? "")%string; [apply runs_ret; by rewrite app_nil_r|]. eapply runs_mono; [|intros r l' Hl'; apply Forall_app_2; [exact Hl|exact Hl']].
      unfold completeAuthorizationCodeIssuance. apply issue_only; [|exact Hi]. intros f Hf. by apply (Ht v f (proj1 (Hv v eq_refl))).
    + apply runs_ret. by rewrite app_nil_r.
Qed.
(** *** Metadata *)

Context (sdjwt_Parse : string -> result why Token).
Context (issuerARFCheck : object -> list X509Cert -> list string -> list why) (catalogueFindings : object -> list string -> list why).

Definition get_of (url accept : string) : outgoing := mkOut "GET" url {[ "Accept" := accept ]} "".

Lemma get_bare url accept : ok (get_of url accept).
Proof. by apply bare; apply lookup_singleton_ne. Qed.

Lemma attempts_runs n url accept e :
  runs (fetch_attempts n url accept e) (fun r l => Forall (fun e => ok e.1) l /\ forall resp, r = Ok resp -> (get_of url accept, Ok resp) ∈ l).
Proof.
  revert e. induction n as [|n IH]; intros e; cbn [fetch_attempts]; [by apply runs_ret|]. destruct (NewRequest _ _); [by apply runs_ret|].
  eapply runs_bind; [apply runs_send with (Q := fun a l => l = [(get_of url accept, a)]); done|]. intros a l ->.
  assert (Hstep : forall e', runs (fetch_attempts n url accept e') (fun r l' => Forall (fun e => ok e.1) ([(get_of url accept, a)] ++ l') /\
    forall resp, r = Ok resp -> (get_of url accept, Ok resp) ∈ [(get_of url accept, a)] ++ l')).
  { intros e'. eapply runs_mono; [apply IH|]. intros r l' [Hl Hr]. split; [constructor; [apply get_bare|exact Hl]|]. intros resp E. right. by apply Hr. }
  destruct a as [resp|e']; [|apply Hstep]. destruct (_ <? _); [|apply Hstep]. apply runs_ret. split; [apply Forall_singleton, get_bare|].
  intros resp' [= <-]. simpl. by left.
Qed.

(** The issuer's document behind [metadata], in the conversation. *)
Definition published (issuer : string) (metadata : object) (l : talk) : Prop :=
  exists url accept resp now body doc, wellKnownURL issuer "openid-credential-issuer" = Ok url /\ (get_of url accept, Ok resp) ∈ l /\
    ReadRemoteBody resp "issuer response" = Ok body /\
    parseIssuerMetadataDocument sdjwt_Parse now body (header_of resp "Content-Type") issuer (mkPolicy (bool_decide (vw_Mode wallet = Strict))) = Ok doc /\
    metadata = md_metadata doc /\ get_string metadata "credential_issuer" = issuer.

Lemma published_incl issuer metadata (l l' : talk) : l ⊆ l' -> published issuer metadata l -> published issuer metadata l'.
Proof.
  intros Hl (url & accept & resp & now & body & doc & Hu & Hin & H). exists url, accept, resp, now, body, doc. split; [done|]. split; [by apply Hl|done].
Qed.

Lemma metadata_runs arf issuer configurations :
  runs (loadIssuerMetadata sdjwt_Parse issuerARFCheck catalogueFindings (vw_Mode wallet) arf issuer configurations) (fun r l =>
    Forall (fun e => ok e.1) l /\ forall metadata findings, r = Ok (metadata, findings) -> published issuer metadata l).
Proof.
  unfold loadIssuerMetadata. eapply runs_bind with (R := fun r l => Forall (fun e => ok e.1) l /\ forall doc, r = Ok doc -> published issuer (md_metadata doc) l).
  - unfold fetchIssuerMetadataDocument. destruct (wellKnownURL _ _) as [url|e] eqn:Eu; [|by apply runs_ret].
    unfold fetchMetadataDocument. eapply runs_bind; [apply attempts_runs|]. intros [resp|e] l [Hl Hr]; [|apply runs_ret; by rewrite app_nil_r].
    specialize (Hr resp eq_refl). destruct (negb _); [apply runs_ret; by rewrite app_nil_r|].
    destruct (ReadRemoteBody _ _) as [body|e] eqn:Eb; [|apply runs_ret; by rewrite app_nil_r].
    eapply runs_bind; [apply clock_runs|]. intros now l' [-> _]. apply runs_ret. rewrite !app_nil_r. split; [exact Hl|]. intros doc Ed.
    eexists url, _, resp, now, body, doc. split_and!; [done|exact Hr|done|done|done|].
    unfold parseIssuerMetadataDocument in Ed. destruct (_ =? "")%string; [done|]. match type of Ed with (match ?x with Ok _ => _ | Err _ => _ end) = _ => destruct x as [doc'|]; [|done] end.
    unfold checkCredentialIssuerIdentifier, sameIdentifier in Ed.
    destruct (String.eqb_spec (get_string (md_metadata doc') "credential_issuer") issuer) as [E|E]; [|by destruct (_ =? "")%string].
    by injection Ed as <-.
  - intros [doc|e] l [Hl Hd]; apply runs_ret; rewrite app_nil_r; (split; [exact Hl|]); [|done]. intros metadata findings.
    destruct (checkIssuer _ _ _ _ _ _); [|done]. intros [= <- _]. by apply Hd.
Qed.

Lemma oauth_only server : only ok (fetchOAuthMetadata server).
Proof.
  unfold fetchOAuthMetadata. destruct (wellKnownURL _ _) as [url|e]; [|apply only_quiet, quiet_ret]. apply only_bind; [|intros a; apply only_quiet, quiet_ret].
  eapply runs_mono; [apply attempts_runs|]. by intros r l [Hl _].
Qed.

Lemma server_only metadata offer grantType : only ok (authorization_server wallet metadata offer grantType).
Proof.
  assert (Hf : forall candidates server, only ok (fallback_among candidates server grantType)).
  { induction candidates as [|c cs IH]; intros server; cbn [fallback_among]; [apply only_quiet, quiet_ret|]. destruct (_ =? _)%string; [apply IH|].
    apply only_bind; [apply oauth_only|]. intros [m|e]; [|apply IH]. destruct (contains _ _); [apply only_quiet, quiet_ret|apply IH]. }
  unfold authorization_server. destruct (selectAuthorizationServer _ _); [|apply only_quiet, quiet_ret]. apply only_bind; [apply oauth_only|].
  intros answer. destruct (checkAuthorizationServerGrant _ _ _ _); [apply only_quiet, quiet_ret|]. apply only_bind; [|intros fb; apply only_quiet, quiet_ret].
  unfold fallbackAuthorizationServer. destruct (lacks_grant _ _); [apply Hf|apply only_quiet, quiet_ret].
Qed.

(** *** Interactive Authorization *)

Context (presentation_interaction : string -> object -> bool -> string -> io (result why values)).
Context (presents : forall endpoint response consented owner, only ok (presentation_interaction endpoint response consented owner)).
Context (forms : forall url form key, allows (form_to url form key)).

Lemma interaction_only endpoint response setup :
  only ok (runAuthorizationInteraction wallet ip_loopback browse redirect_query presentation_interaction endpoint response setup).
Proof.
  unfold runAuthorizationInteraction. destruct (_ =? _)%string; [apply only_bind; [apply presents|intros [f|e]; apply only_quiet, quiet_ret]|].
  destruct (_ =? _)%string; [|destruct (_ =? _)%string; apply only_quiet, quiet_ret]. destruct (_ || _); [apply only_quiet, quiet_ret|].
  unfold runAuthViaWebInteraction. destruct (_ =? _)%string; [apply only_quiet, quiet_ret|]. apply only_bind; [|intros [v|e]; apply only_quiet, quiet_ret].
  eapply runs_mono; [apply authorization_runs|]. by intros r l [Hl _].
Qed.

Lemma converse_only rounds endpoint setup form session n :
  only ok (converse decode_error public url_without_query wallet ip_loopback browse redirect_query presentation_interaction rounds endpoint setup form session n).
Proof.
  revert form session n. induction rounds as [|rounds IH]; intros form session n; cbn [converse]; [apply only_quiet, quiet_ret|].
  apply only_bind. { unfold postAuthorizationChallenge. apply only_bind; [apply exchange_only, forms|]. intros r. apply only_quiet, quiet_ret. }
  intros [n' [response|e]]; [|apply only_quiet, quiet_ret]. destruct (authorizationChallengeCode _ _); [|apply only_quiet, quiet_ret].
  destruct (negb _); [apply only_quiet, quiet_ret|]. destruct (_ =? _)%string; [apply only_quiet, quiet_ret|]. destruct (negb _); [apply only_quiet, quiet_ret|].
  destruct (_ =? _)%string; [apply only_quiet, quiet_ret|]. apply only_bind; [apply interaction_only|]. intros [outcome|e]; [|apply only_quiet, quiet_ret].
  destruct (negb _); [apply only_quiet, quiet_ret|]. apply only_bind.
  - apply only_quiet. eapply runs_mono; [apply authentication_runs|]. by intros r l [-> _].
  - intros [next|e]; [apply IH|apply only_quiet, quiet_ret].
Qed.

Abbreviation code_flow := (processAuthorizationCodeOffer decode_error public url_without_query wallet decode_refusal decode_text decode_texts holder_ecdh choices
  marshal_request ip_loopback browse redirect_query presentation_interaction checkReceivedCredentials binds pem readable resolveCredentialDisplay importing generate_key).

Lemma code_flow_only issuerState s oauthMeta consented owner : allows_issuer s -> only ok (code_flow issuerState s oauthMeta consented owner).
Proof.
  intros [Hc Hn]. unfold processAuthorizationCodeOffer. cbv zeta. set (useInteractive := negb (interactiveAuthorizationEndpoint oauthMeta =? "")%string && _).
  do 3 match goal with |- only _ (if ?b then _ else _) => destruct b; [apply only_quiet, quiet_ret|] end.
  destruct (client_auth_refused _ _); [apply only_quiet, quiet_ret|].
  match goal with |- only _ (if ?b then _ else _) => destruct b; [apply only_quiet, quiet_ret|] end.
  apply only_bind; [apply only_quiet, quiet_random|]. intros state. apply only_bind; [apply only_quiet, quiet_random|]. intros verifier.
  apply only_bind; [apply only_quiet; eapply runs_mono; [apply authentication_runs|]; by intros r l [-> _]|]. intros [parForm|e]; [|apply only_quiet, quiet_ret].
  assert (Hend : forall m r a z redirectURI code, ren_CredentialEndpoint r = ren_CredentialEndpoint (is_renewal s) -> m = is_metadata s ->
    only ok (completeAuthorizationCodeIssuance decode_error public url_without_query wallet decode_refusal decode_text decode_texts holder_ecdh choices marshal_request
      checkReceivedCredentials binds pem readable resolveCredentialDisplay importing generate_key (mkSession m r a z) redirectURI verifier code)).
  { intros m r a z redirectURI code Er ->. apply issue_only; [intros f _; apply forms|]. split; [cbn [is_renewal]; by rewrite Er|exact Hn]. }
  destruct useInteractive; [|by apply browser_only; [intros _; apply forms|intros v f _ _; apply forms|split]].
  apply only_bind.
  - unfold obtainInteractiveAuthorizationCode. apply only_bind; [apply only_quiet; eapply runs_mono; [apply authentication_runs|]; by intros r l [-> _]|].
    intros [form|e]; [apply converse_only|apply only_quiet, quiet_ret].
  - intros [n [code viaWeb|uri|e]]; [by apply Hend| |apply only_quiet, quiet_ret]. destruct (noteRedirectToWeb _ _); [apply only_quiet, quiet_ret|].
    by apply browser_only; [intros _; apply forms|intros v f _ _; apply forms|split].
Qed.

Abbreviation from_offer := (redeem decode_error public url_without_query wallet decode_refusal decode_text decode_texts holder_ecdh choices
  marshal_request ip_loopback browse redirect_query presentation_interaction checkReceivedCredentials binds pem readable resolveCredentialDisplay importing generate_key).

Lemma redeem_only offer opts metadata authServer oauthMeta oauthErr configID tokenEndpoint credentialEndpoint :
  allows_access credentialEndpoint -> allows_access (get_string metadata "notification_endpoint") ->
  only ok (from_offer offer opts metadata authServer oauthMeta oauthErr configID tokenEndpoint credentialEndpoint).
Proof.
  intros Hc Hn. unfold redeem. destruct (_ =? "")%string.
  - destruct (strict_server_refused _ _ _ _); [apply only_quiet, quiet_ret|]. by apply code_flow_only.
  - destruct (_ && _); [apply only_quiet, quiet_ret|]. by apply issue_only; [intros f _; apply forms|split].
Qed.
End sends.

(** ** A code is redeemed with the verifier of its own request *)

Context (ip_loopback : string -> bool) (browse : string -> string -> world -> world * option (list values)) (redirect_query : string -> option values).
Context (presentation_interaction : string -> object -> bool -> string -> io (result why values)).
Context (checkReceivedCredentials : object -> string -> result why (list why)).
Context (binds : string -> PrivateKey -> bool) (pem : PrivateKey -> option string) (readable : string -> string -> bool).
Context (resolveCredentialDisplay : object -> string -> option CredentialDisplay) (importing : string -> sortedBatch -> list PrivateKey -> option why).
Context (generate_key : world -> world * option PrivateKey).

Abbreviation code_flow := (processAuthorizationCodeOffer decode_error public url_without_query wallet decode_refusal decode_text decode_texts holder_ecdh choices
  marshal_request ip_loopback browse redirect_query presentation_interaction checkReceivedCredentials binds pem readable resolveCredentialDisplay importing generate_key).

Definition form_type : string := "application/x-www-form-urlencoded".
Definition posts_form (r : outgoing) : Prop := o_Header r !! "Content-Type" = Some form_type.

(** The authorization request of one flow, with its state and the challenge of
    its verifier, pushed to [ep]. *)
Definition pushes (ep clientID state verifier : string) (r : outgoing) : Prop :=
  o_URL r = ep /\ exists form, o_Body r = Values_Encode form /\ form !! "client_id" = Some [clientID] /\ form !! "state" = Some [state] /\
    form !! "code_challenge" = Some [codeChallengeS256 verifier] /\ form !! "code_challenge_method" = Some ["S256"] /\ form !! "code_verifier" = None.

(** An authorization response of the server [issuer] to the request with [state]. *)
Definition answers (state issuer : string) (issRequired : bool) (v : values) : Prop :=
  Get v "state" = state /\ (issRequired = true -> Get v "iss" <> "") /\ (Get v "iss" <> "" -> issuer <> "" -> Get v "iss" = issuer).

(** A token request at [ep] with this code. *)
Definition redeems (ep clientID verifier code : string) (r : outgoing) : Prop :=
  o_URL r = ep /\ exists form, o_Body r = Values_Encode form /\ form !! "grant_type" = Some ["authorization_code"] /\
    form !! "code" = Some [code] /\ form !! "code_verifier" = Some [verifier] /\ form !! "client_id" = Some [clientID].

Lemma validated_answers setup v :
  vw_Mode wallet = Strict -> su_state setup <> "" -> trim_space (su_state setup) = su_state setup ->
  validated setup v -> answers (su_state setup) (su_issuer setup) (su_issRequired setup) v.
Proof.
  intros Hm Hne Htrim. unfold validated, validateAuthorizationCodeResponse, answers. rewrite Htrim. apply String.eqb_neq in Hne as ->.
  unfold reportServerDeviation, reportDeviation. rewrite Hm. destruct (String.eqb_spec (Get v "state") ""); [done|].
  destruct (String.eqb_spec (Get v "state") (su_state setup)) as [->|]; [|done]. cbn [negb].
  destruct (String.eqb_spec (Get v "iss") "") as [E|E]; cbn [negb andb].
  - rewrite E. destruct (su_issRequired setup); [done|]. done.
  - destruct (String.eqb_spec (su_issuer setup) "") as [E'|E']; cbn [negb andb]; [done|]. unfold sameIdentifier.
    destruct (String.eqb_spec (Get v "iss") (su_issuer setup)); [done|done].
Qed.

Lemma drawn_text n s : (forall k a, String.length (entropy k a).2 = k) -> (0 < n)%nat -> drawn n s -> s <> "" /\ trim_space s = s.
Proof.
  intros Hl Hn Hd. pose proof (drawn_nonempty n s Hl Hn Hd) as Hne. split; [done|]. destruct Hd as [a <-]. apply visible_trimmed; [done|]. apply encoded_plain.
Qed.

(** A form request says so, and its target and body are the form's. *)
Lemma form_made url form key id n r :
  made_for public url_without_query wallet (form_request url form key "") id n r -> o_URL r = url /\ o_Body r = Values_Encode form.
Proof. intros (_ & -> & -> & _). done. Qed.

Lemma access_posts_no_form (ok : outgoing -> Prop) ep : (forall r, ~ posts_form r -> ok r) -> allows_access ok ep.
Proof.
  intros Hok ct accept body scheme token key Hct id n r Hm. apply Hok. unfold posts_form. rewrite (made_header _ _ _ _ _ Hm) by (unfold own_names, attestation_names; set_solver).
  unfold fixed_headers, optional_header, credential_types, form_type in *. cbn [dr_contentType dr_accept dr_token dr_authScheme].
  assert (ct = "application/json" \/ ct = "application/jwt") as [-> | ->] by set_solver; cbn [String.eqb Ascii.eqb Bool.eqb]; destruct (_ && _);
    rewrite ?lookup_insert_ne by done; by rewrite lookup_insert_eq.
Qed.

Abbreviation browser := (through_browser decode_error public url_without_query wallet decode_refusal decode_text decode_texts holder_ecdh choices marshal_request
  ip_loopback browse redirect_query checkReceivedCredentials binds pem readable resolveCredentialDisplay importing generate_key).
Abbreviation responded := (received browse redirect_query).

(** The forms of the browser flow: the pushed request, and a token request with
    the code of one response. *)
Lemma browser_bound s setup parForm parEndpoint requestURI (pushed : outgoing -> Prop) (spent : string -> outgoing -> Prop) :
  (forall id n r, made_for public url_without_query wallet (form_request parEndpoint parForm (su_dpopKey setup) "") id n r -> pushed r) ->
  (forall code f, authenticates (token_form (ren_ClientID (is_renewal s)) code (su_redirectURI setup) (su_codeVerifier setup)) f ->
     forall id n r, made_for public url_without_query wallet (form_request (ren_TokenEndpoint (is_renewal s)) f (dpopKeyForRenewal wallet (is_renewal s)) "") id n r ->
     spent code r) ->
  runs (browser s setup parForm parEndpoint requestURI) (fun _ l => Forall (fun e => posts_form e.1 -> pushed e.1) l \/
    exists v, validated setup v /\ responded (su_authorizationEndpoint setup) (su_clientID setup) (su_owner setup) l v /\
      Forall (fun e => posts_form e.1 -> pushed e.1 \/ spent (Get v "code") e.1) l).
Proof.
  intros Hp Ht. set (P := fun r => posts_form r -> pushed r).
  assert (Hn : forall (ok : outgoing -> Prop) r, o_Header r !! "Authorization" = None -> o_Header r !! "Content-Type" = None -> posts_form r -> ok r).
  { intros ok r _ Hc Hr. unfold posts_form in Hr. congruence. }
  unfold through_browser. eapply runs_bind with (R := fun _ l => Forall (fun e => P e.1) l).
  - destruct (_ && _); [|apply only_quiet, quiet_ret]. apply (only_bind P); [|intros [n [resp|e]]; apply only_quiet, quiet_ret].
    apply (post_form_only P (Hn pushed)). intros id n r Hm _. by eapply Hp.
  - intros [n [uri|e]] l Hl; [|apply runs_ret; left; by rewrite app_nil_r].
    eapply runs_bind; [apply (authorization_runs P (Hn pushed))|]. intros [v|e] l2 [Hl2 Hv]; [|apply runs_ret; left; rewrite app_nil_r; by apply Forall_app_2].
    destruct (Hv v eq_refl) as [Hval Hrec]. destruct (_ =? "")%string; [apply runs_ret; left; rewrite app_nil_r; by apply Forall_app_2|].
    set (P' := fun r => posts_form r -> pushed r \/ spent (Get v "code") r).
    assert (Hweak : forall k : talk, Forall (fun e => P e.1) k -> Forall (fun e => P' e.1) k) by (intros k Hk; eapply Forall_impl; [exact Hk|]; intros e He Hf; left; by apply He).
    eapply runs_mono with (Q := fun _ l => Forall (fun e => P' e.1) l).
    + unfold completeAuthorizationCodeIssuance. apply (issue_only P'); [intros r Ha Hc Hf; by apply (Hn (fun _ => False)) in Hf| |].
      * intros f Hf id n' r Hm _. right. by eapply Ht.
      * split; apply access_posts_no_form; intros r Hnf Hf; done.
    + intros r l3 Hl3. right. exists v. split; [done|]. split; [|repeat apply Forall_app_2; auto].
      eapply received_incl; [|exact Hrec]. intros x Hx. rewrite !elem_of_app. auto.
Qed.

(** C11: in strict mode and without Interactive Authorization (an OpenID4VCI 1.0
    wallet, or a server without a challenge endpoint), the authorization code
    flow posts two kinds of forms only: the authorization request, pushed to the
    server's PAR endpoint with a fresh state and the S256 challenge of a fresh
    verifier, and the token request, at the token endpoint, with that verifier
    and the code of one response the flow received from the authorization
    endpoint, in the redirect or through the browser.  That response carries the
    state of the request, and the issuer of this server when it names one or
    the server says it always does.  So no other server's response, nor one of
    another flow, is redeemed, and the verifier goes to the token endpoint only. *)
Theorem authorization_code_is_bound issuerState s oauthMeta consented owner :
  vw_Mode wallet = Strict -> interactiveAuthorizationEndpoint oauthMeta = "" \/ UsesInteractiveAuthorization (vw_Version wallet) = false ->
  (forall k a, String.length (entropy k a).2 = k) ->
  runs (code_flow issuerState s oauthMeta consented owner) (fun _ l => l = [] \/
    exists state verifier, drawn 18 state /\ drawn 32 verifier /\
    let clientID := trim_space (vw_VCIClientID wallet) in
    let pushed := pushes (get_string oauthMeta "pushed_authorization_request_endpoint") clientID state verifier in
    Forall (fun e => posts_form e.1 -> pushed e.1) l \/
    exists v, responded (get_string oauthMeta "authorization_endpoint") clientID owner l v /\
      answers state (oauthIssuer oauthMeta "") (issAdvertised oauthMeta) v /\
      Forall (fun e => posts_form e.1 -> pushed e.1 \/ redeems (ren_TokenEndpoint (is_renewal s)) clientID verifier (Get v "code") e.1) l).
Proof.
  intros Hm Hi Hl. unfold processAuthorizationCodeOffer.
  assert (negb (interactiveAuthorizationEndpoint oauthMeta =? "")%string && UsesInteractiveAuthorization (vw_Version wallet) = false) as ->.
  { destruct Hi as [-> | ->]; [done|apply andb_false_r]. }
  cbn [negb andb].
  destruct (_ =? "")%string; [apply runs_ret; by left|]. destruct (_ =? "")%string; [apply runs_ret; by left|]. destruct (_ && _); [apply runs_ret; by left|].
  destruct (client_auth_refused _ _); [apply runs_ret; by left|]. destruct (_ =? "")%string; [apply runs_ret; by left|].
  eapply runs_bind; [apply random_runs|]. intros state l [-> Hs]. eapply runs_bind; [apply random_runs|]. intros verifier l [-> Hv].
  eapply runs_bind; [apply authentication_runs|]. intros [parForm|e] l [-> Hf]; [|apply runs_ret; by left]. specialize (Hf _ eq_refl). cbn [app].
  eapply runs_mono; [apply (browser_bound _ _ _ _ _ (pushes (get_string oauthMeta "pushed_authorization_request_endpoint") (trim_space (vw_VCIClientID wallet)) state verifier)
    (redeems (ren_TokenEndpoint (is_renewal s)) (trim_space (vw_VCIClientID wallet)) verifier))|].
  - intros id n r [H1 H2]%form_made. split; [exact H1|]. exists parForm. split; [exact H2|].
    unfold authenticates in Hf. rewrite !Hf by done. unfold par_form, optional_field, Set_field.
    destruct (issuerState =? "")%string; rewrite ?lookup_insert_ne by done; rewrite ?lookup_insert_eq; split_and!; try done;
      rewrite ?lookup_insert_ne by done; rewrite ?lookup_insert_eq; done.
  - intros code f Hf' id n r [H1 H2]%form_made. split; [exact H1|]. exists f. split_and!; [exact H2|..]; unfold authenticates in Hf'; rewrite Hf' by done;
      unfold token_form, optional_field, Set_field; cbn [su_redirectURI su_codeVerifier ren_ClientID is_renewal with_client];
      destruct (_ =? "")%string; rewrite ?lookup_insert_ne by done; by rewrite ?lookup_insert_eq.
  - intros _ l [Hl'|(v & Hval & Hrec & Hl')]; right; exists state, verifier; (split; [exact Hs|split; [exact Hv|]]); [by left|]. right. exists v. split; [exact Hrec|].
    split; [|exact Hl']. destruct (drawn_text 18 state Hl) as [Hne Htrim]; [lia|exact Hs|]. by apply (validated_answers _ _ Hm) in Hval.
Qed.

(** ** Access tokens stay with the issuer *)

Context (sdjwt_Parse : string -> result why Token).
Context (issuerARFCheck : object -> list X509Cert -> list string -> list why) (catalogueFindings : object -> list string -> list why).
Context (read_offer : string -> io (result why parsed)).

Abbreviation accept_offer := (processCredentialOffer decode_error public url_without_query wallet decode_refusal decode_text decode_texts holder_ecdh choices
  marshal_request sdjwt_Parse issuerARFCheck catalogueFindings ip_loopback browse redirect_query presentation_interaction checkReceivedCredentials binds pem readable
  resolveCredentialDisplay importing generate_key read_offer).
Abbreviation renew := (RefreshCredential decode_error public url_without_query wallet decode_refusal decode_text decode_texts holder_ecdh choices marshal_request
  sdjwt_Parse issuerARFCheck catalogueFindings checkReceivedCredentials binds pem readable importing).

(** A request with an access token. *)
Definition bears (r : outgoing) : Prop := is_Some (o_Header r !! "Authorization").
Definition bare (r : outgoing) : Prop := ~ bears r.

(** An access token reaches only the endpoints of one issuer. *)
Definition confined (endpoint : string) (metadata : object) (r : outgoing) : Prop :=
  bears r -> o_URL r = endpoint \/ o_URL r = get_string metadata "notification_endpoint".

Lemma none_bare r : o_Header r !! "Authorization" = None -> bare r.
Proof. intros E [x Hx]. congruence. Qed.

Lemma forms_bare url form key : allows bare (form_request url form key "").
Proof.
  intros id n r Hm. apply none_bare. rewrite (made_header _ _ _ _ _ Hm) by (unfold own_names, attestation_names; set_solver).
  unfold fixed_headers, optional_header. simpl. by rewrite lookup_insert_ne.
Qed.

Lemma bare_confined endpoint metadata r : bare r -> confined endpoint metadata r.
Proof. intros H Hb. by destruct H. Qed.

Lemma access_confined endpoint metadata ep :
  ep = endpoint \/ ep = get_string metadata "notification_endpoint" -> allows_access (confined endpoint metadata) ep.
Proof. intros Hep ct accept body scheme token key _ id n r (_ & Hu & _) _. by rewrite Hu. Qed.

Lemma all_confined endpoint metadata (l : talk) : Forall (fun e => bare e.1) l -> Forall (fun e => confined endpoint metadata e.1) l.
Proof. intros H. eapply Forall_impl; [exact H|]. intros e. apply bare_confined. Qed.

Lemma resolved_issuer reread approved offer :
  resolveOffer reread approved = Ok offer -> forall a, approved = Some a -> CredentialIssuer offer = CredentialIssuer a.
Proof.
  unfold resolveOffer, keepApprovedOffer. intros H a ->. destruct reread as [[o|?]|?]; try done; try by injection H as <-.
  destruct (_ =? "")%string; [by injection H as <-|]. unfold sameCredentialOffer in H.
  destruct (String.eqb_spec (CredentialIssuer a) (CredentialIssuer o)); [|by injection H as <-]. destruct (bool_decide _); by injection H as <-.
Qed.

(** *** What an issuance keeps for the renewals *)

(** Every result of a program. *)
Definition yields {A} (p : io A) (R : A -> Prop) : Prop := forall s, R (run p s).2.

Lemma yields_ret {A} (a : A) (R : A -> Prop) : R a -> yields (Ret a) R.
Proof. by intros H s. Qed.

Lemma yields_bind {A B} (p : io A) (g : A -> io B) (R : B -> Prop) : (forall a, yields (g a) R) -> yields (bind p g) R.
Proof. intros H s. rewrite run_bind. apply H. Qed.

Lemma runs_yields {A} (p : io A) (Q : A -> talk -> Prop) (R : A -> Prop) : runs p Q -> yields p R -> runs p (fun a l => Q a l /\ R a).
Proof. intros H HR s. destruct (H s) as (l & E & HQ). exists l. split; [exact E|split; [exact HQ|apply HR]]. Qed.

Definition renewal_of (i : issuance) : CredentialRenewal := match i with Delivered d => dv_renewal d | Deferred_to p => DRenewal p end.

(** The issuer and the credential endpoint a renewal will use. *)
Definition keeps (issuer endpoint : string) (r : CredentialRenewal) : Prop := ren_Issuer r = issuer /\ ren_CredentialEndpoint r = endpoint.

Definition issued_with (issuer endpoint : string) (r : result why issuance) : Prop := forall i, r = Ok i -> keeps issuer endpoint (renewal_of i).

Lemma store_yields metadata resp renewal display keys replaceID grant n :
  yields (storeIssuedCredential decode_error public url_without_query wallet marshal_request checkReceivedCredentials binds pem readable importing
            metadata resp renewal display keys replaceID grant n) (fun r => forall d, r = Ok d -> dv_renewal d = renewal).
Proof.
  unfold storeIssuedCredential. destruct (checkReceivedCredentials _ _); [|by apply yields_ret].
  destruct (sort_response _ _ _ _ _ _) as [[batch deviations]|e]; [|by apply yields_ret].
  destruct (importing _ _ _); [by apply yields_ret|]. apply yields_bind. intros n'. apply yields_ret. by intros d [= <-].
Qed.

Lemma conclude_yields metadata renewal grant keys resp n :
  yields (conclude decode_error public url_without_query wallet marshal_request checkReceivedCredentials binds pem readable resolveCredentialDisplay importing
            metadata renewal grant keys resp n) (issued_with (ren_Issuer renewal) (ren_CredentialEndpoint renewal)).
Proof.
  unfold conclude. destruct (negb _).
  - apply yields_bind. intros now. apply yields_bind. intros id. apply yields_ret. intros i. unfold newDeferredIssuance.
    destruct (_ =? "")%string; [discriminate|]. destruct (credentialTypeForConfiguration _ _). destruct (mapM pem keys); [|discriminate]. by intros [= <-].
  - intros s. rewrite run_bind. assert (Hd := store_yields metadata resp renewal (resolveCredentialDisplay metadata (ren_ConfigurationID renewal)) keys "" grant n s).
    destruct (run _ s) as [s' [d|e]]; [|done]. cbn. intros i [= <-]. unfold keeps, renewal_of. by rewrite (Hd d eq_refl).
Qed.

Abbreviation issue := (issueWithToken decode_error public url_without_query wallet decode_refusal decode_text decode_texts holder_ecdh choices marshal_request
  checkReceivedCredentials binds pem readable resolveCredentialDisplay importing generate_key).

Lemma issue_yields s form : yields (issue s form) (issued_with (ren_Issuer (is_renewal s)) (ren_CredentialEndpoint (is_renewal s))).
Proof.
  unfold issueWithToken. apply yields_bind. intros outcome. destruct (to_err outcome); [by apply yields_ret|].
  destruct (to_grant outcome) as [grant|]; [|by apply yields_ret]. apply yields_bind. intros [keys|e]; [|by apply yields_ret].
  apply yields_bind. intros [n [resp|e]]; [|by apply yields_ret].
  exact (conclude_yields _ (with_refresh (is_renewal s) _) _ _ _ _).
Qed.

Lemma browser_yields s setup parForm parEndpoint requestURI :
  yields (browser s setup parForm parEndpoint requestURI) (issued_with (ren_Issuer (is_renewal s)) (ren_CredentialEndpoint (is_renewal s))).
Proof.
  unfold through_browser. apply yields_bind. intros [n [uri|e]]; [|by apply yields_ret]. apply yields_bind. intros [v|e]; [|by apply yields_ret].
  destruct (_ =? "")%string; [by apply yields_ret|]. exact (issue_yields (mkSession _ (is_renewal s) _ _) _).
Qed.

Lemma code_flow_yields issuerState s oauthMeta consented owner :
  yields (code_flow issuerState s oauthMeta consented owner) (issued_with (ren_Issuer (is_renewal s)) (ren_CredentialEndpoint (is_renewal s))).
Proof.
  unfold processAuthorizationCodeOffer. cbv zeta. set (useInteractive := negb (interactiveAuthorizationEndpoint oauthMeta =? "")%string && _).
  do 3 match goal with |- yields (if ?b then _ else _) _ => destruct b; [by apply yields_ret|] end.
  destruct (client_auth_refused _ _); [by apply yields_ret|].
  match goal with |- yields (if ?b then _ else _) _ => destruct b; [by apply yields_ret|] end.
  do 2 (apply yields_bind; intros ?). apply yields_bind. intros [parForm|e]; [|by apply yields_ret].
  destruct useInteractive; [|exact (browser_yields (mkSession _ (with_client (is_renewal s) _ _) _ _) _ _ _ _)].
  apply yields_bind. intros [n [code viaWeb|uri|e]]; [exact (issue_yields (mkSession _ (with_client (is_renewal s) _ _) _ _) _)| |by apply yields_ret].
  destruct (noteRedirectToWeb _ _); [by apply yields_ret|]. exact (browser_yields (mkSession _ (with_client (is_renewal s) _ _) _ _) _ _ _ _).
Qed.

Lemma redeem_yields offer opts metadata authServer oauthMeta oauthErr configID tokenEndpoint credentialEndpoint :
  yields (redeem decode_error public url_without_query wallet decode_refusal decode_text decode_texts holder_ecdh choices marshal_request ip_loopback browse redirect_query
    presentation_interaction checkReceivedCredentials binds pem readable resolveCredentialDisplay importing generate_key
    offer opts metadata authServer oauthMeta oauthErr configID tokenEndpoint credentialEndpoint) (issued_with (CredentialIssuer offer) credentialEndpoint).
Proof.
  unfold redeem. destruct (_ =? "")%string.
  - destruct (strict_server_refused _ _ _ _); [by apply yields_ret|]. exact (code_flow_yields _ (mkSession _ (mkRenewal _ _ _ _ _ _ _ _) _ _) _ _ _).
  - destruct (_ && _); [by apply yields_ret|]. exact (issue_yields (mkSession _ (with_client (mkRenewal _ _ _ _ _ _ _ _) _ _) _ _) _).
Qed.

Lemma renew_yields id old : yields (renew id old) (fun r => keeps (ren_Issuer old) (ren_CredentialEndpoint old) (rn_kept r)).
Proof.
  unfold RefreshCredential. apply yields_bind. intros [[metadata findings]|e]; [|by apply yields_ret].
  apply yields_bind. intros outcome. cbv zeta. set (renewal := match to_grant outcome with Some _ => _ | None => _ end).
  assert (Hr : keeps (ren_Issuer old) (ren_CredentialEndpoint old) renewal).
  { unfold renewal. destruct (to_grant outcome) as [[g resp]|]; [|done]. by destruct (_ =? "")%string. }
  assert (Hk : keeps (ren_Issuer old) (ren_CredentialEndpoint old) (rememberRenewal old renewal)) by (unfold rememberRenewal; by destruct (_ || _)).
  destruct (to_err outcome); [by apply yields_ret|]. destruct (to_grant outcome) as [grant|]; [|by apply yields_ret].
  apply yields_bind. intros [n [resp|e]]; [|by apply yields_ret]. intros s. rewrite run_bind.
  assert (Hd := store_yields metadata resp renewal None [vw_HolderKey wallet] id grant.1 n s).
  destruct (run (storeIssuedCredential _ _ _ _ _ _ _ _ _ _ _ _ _ _ _ _ _ _) s) as [s' [d|e]]; [|exact Hk]. cbn. by rewrite (Hd d eq_refl).
Qed.

(** The credential endpoint a document names; debug mode assumes one when it
    names none. *)
Definition named_endpoint (issuer : string) (metadata : object) (endpoint : string) : Prop :=
  let named := get_string metadata "credential_endpoint" in
  named <> "" /\ endpoint = named \/ named = "" /\ vw_Mode wallet = Debug /\ endpoint = trim_right_slashes issuer +:+ "/credential".

Lemma resolved_endpoint metadata issuer endpoint : resolveCredentialEndpoint (vw_Mode wallet) metadata issuer = Ok endpoint -> named_endpoint issuer metadata endpoint.
Proof.
  unfold resolveCredentialEndpoint, named_endpoint, reportServerDeviation, reportDeviation.
  destruct (String.eqb_spec (get_string metadata "credential_endpoint") "") as [E|E]; cbn [negb]; [|intros [= <-]; by left].
  destruct (vw_Mode wallet); [done|]. intros [= <-]. by right.
Qed.

(** The requests after the metadata are known. *)
Definition confined_after (issuer : string) (metadata : object) (r : result why (issuance * list why)) (l : talk) : Prop :=
  is_ok r = false /\ Forall (fun e => bare e.1) l \/
  exists endpoint, named_endpoint issuer metadata endpoint /\ Forall (fun e => confined endpoint metadata e.1) l /\
    forall i findings, r = Ok (i, findings) -> keeps issuer endpoint (renewal_of i).

(** C12: the access token of an issuance is sent only to the credential endpoint
    and the notification endpoint of one metadata document: the one read in this
    run from the well-known URL of the issuer, which declares that issuer's
    identifier, and the issuer is the one of the approved offer.  (When that
    document names no credential endpoint, strict mode stops and debug mode takes
    the path /credential of the issuer.)  The credential keeps that issuer and
    that endpoint for its renewals, a renewal sends the token it gets only to
    the kept endpoint and to the notification endpoint of the document the kept
    issuer publishes then, and keeps both.  Nothing else carries a token,
    whatever any server answers. *)
Theorem access_tokens_stay_with_the_issuer offerURI opts :
  (forall uri, only bare (read_offer uri)) -> (forall endpoint response consented owner, only bare (presentation_interaction endpoint response consented owner)) ->
  runs (accept_offer offerURI opts) (fun r l => is_ok r = false /\ Forall (fun e => bare e.1) l \/
    exists issuer metadata endpoint, (forall approved, oo_ResolvedOffer opts = Some approved -> issuer = CredentialIssuer approved) /\
      published sdjwt_Parse issuer metadata l /\ named_endpoint issuer metadata endpoint /\ Forall (fun e => confined endpoint metadata e.1) l /\
      forall i findings, r = Ok (i, findings) -> keeps issuer endpoint (renewal_of i)) /\
  forall id old, runs (renew id old) (fun r l => keeps (ren_Issuer old) (ren_CredentialEndpoint old) (rn_kept r) /\
    (Forall (fun e => bare e.1) l \/
     exists metadata, published sdjwt_Parse (ren_Issuer old) metadata l /\ Forall (fun e => confined (ren_CredentialEndpoint old) metadata e.1) l)).
Proof.
  intros Hread Hpresent. assert (Hbare : forall r, o_Header r !! "Authorization" = None -> o_Header r !! "Content-Type" = None -> bare r) by (intros r E _; by apply none_bare).
  split.
  - unfold processCredentialOffer. eapply runs_bind; [apply Hread|]. intros reread l0 Hl0.
    destruct (resolveOffer _ _) as [offer|e] eqn:Eo; [|apply runs_ret; left; rewrite app_nil_r; by split].
    pose proof (resolved_issuer _ _ _ Eo) as Hissuer. destruct (chooseOfferConfiguration _ _) as [configID|e]; [|apply runs_ret; left; rewrite app_nil_r; by split].
    eapply runs_bind; [apply (metadata_runs bare Hbare)|]. intros [[metadata findings]|e] l1 [Hl1 Hp]; [|apply runs_ret; left; rewrite app_nil_r; split; [done|by apply Forall_app_2]].
    specialize (Hp _ _ eq_refl).
    eapply runs_mono with (Q := fun r l => confined_after (CredentialIssuer offer) metadata r l).
    + eapply runs_bind; [apply (server_only bare Hbare)|]. intros [[[authServer oauth] oauthErr]|e] l2 Hl2; [|apply runs_ret; left; rewrite app_nil_r; by split].
      destruct (resolveTokenEndpoint _ _ _ _) as [tokenEndpoint|e]; [|apply runs_ret; left; rewrite app_nil_r; by split].
      destruct (resolveCredentialEndpoint _ _ _) as [endpoint|e] eqn:Ee; [|apply runs_ret; left; rewrite app_nil_r; by split].
      destruct (haip_findings _ _ _ _) as [haip|e]; [|apply runs_ret; left; rewrite app_nil_r; by split].
      assert (Hc : forall r, o_Header r !! "Authorization" = None -> o_Header r !! "Content-Type" = None -> confined endpoint metadata r) by (intros r E E'; by apply bare_confined, Hbare).
      eapply runs_bind with (R := fun r l => Forall (fun e => confined endpoint metadata e.1) l /\ issued_with (CredentialIssuer offer) endpoint r).
      * apply runs_yields; [|apply redeem_yields]. apply (redeem_only (confined endpoint metadata) Hc); [| |apply access_confined; by left|apply access_confined; by right].
        -- intros ep response consented owner. eapply only_mono; [apply Hpresent|]. intros r. apply bare_confined.
        -- intros url form key id n r Hm. apply bare_confined. by eapply forms_bare.
      * intros r l3 [Hl3 Hi]. assert (Hl23 : Forall (fun e => confined endpoint metadata e.1) (l2 ++ l3)) by (apply Forall_app_2; [by apply all_confined|exact Hl3]).
        destruct r as [i|e]; apply runs_ret; rewrite app_nil_r; right; exists endpoint; (split; [by apply resolved_endpoint|split; [exact Hl23|]]); [|done].
        intros i' findings' [= <- _]. by apply Hi.
    + intros r l2 [[Hr Hl2]|(endpoint & He & Hl2 & Hi)]; [left; split; [exact Hr|by repeat apply Forall_app_2]|]. right. exists (CredentialIssuer offer), metadata, endpoint.
      split_and!; [exact Hissuer| |exact He| |exact Hi].
      * eapply published_incl; [|exact Hp]. intros x Hx. rewrite !elem_of_app. auto.
      * repeat apply Forall_app_2; [by apply all_confined..|exact Hl2].
  - intros id old. eapply runs_mono; [apply runs_yields; [|apply renew_yields]|intros r l [H1 H2]; split; [exact H2|exact H1]].
    unfold RefreshCredential. eapply runs_bind; [apply (metadata_runs bare Hbare)|].
    intros [[metadata findings]|e] l [Hl Hp]; [|apply runs_ret; left; by rewrite app_nil_r]. specialize (Hp _ _ eq_refl).
    set (P := confined (ren_CredentialEndpoint old) metadata).
    assert (Hc : forall r, o_Header r !! "Authorization" = None -> o_Header r !! "Content-Type" = None -> P r) by (intros r E E'; by apply bare_confined, Hbare).
    eapply runs_mono with (Q := fun _ l => Forall (fun e => P e.1) l).
    2: { intros r l' Hl'. right. exists metadata. split; [eapply published_incl; [|exact Hp]; intros x Hx; rewrite elem_of_app; auto|].
         apply Forall_app_2; [by apply all_confined|exact Hl']. }
    apply (only_bind P).
    { apply (token_only P Hc). intros f _ id' n r Hm. apply bare_confined. by eapply forms_bare. }
    intros [[grant|] [e|] n]; cbn [to_err to_grant]; try apply only_quiet, quiet_ret.
    apply (only_bind P).
    { apply (credential_only P Hc). apply access_confined. left. destruct grant as [g resp']. cbn [rq_renewal]. by destruct (refreshToken g =? "")%string. }
    intros [n' [resp|e]]; [|apply only_quiet, quiet_ret]. apply (only_bind P); [|intros [d|e]; apply only_quiet, quiet_ret].
    apply (store_only P Hc). apply access_confined. by right.
Qed.
End facts.

(** ** Instances for the witnesses: an issuer that is its own authorization
    server, whose answers are named by short texts *)

Module FlowToy.
#[local] Existing Instances IssuerToy.toy_jose JweToy.toy_hash JweToy.toy_crypto.

#[local] Instance toy_pki : Pki := {
  PubKey := string; X509Cert := string;
  ParseCertificate s := Some s; cert_Raw c := c; Parse_Raw c := eq_refl;
  cert_PublicKey c := Some c; cert_Subject c := c; cert_Issuer c := c; cert_CommonName c := c;
  chain_verifies _ _ _ := false; signs_itself _ := false; jose_verifies _ _ := false; ParsePublicKey _ := None;
  url_Parse s := if has_prefix "https://iss" s then Some (mkUrl "https" "iss" "" false "" "") else None;
  http_get _ := Err (Text "offline"); decode_first_object _ := None;
  zlib_inflate _ := None; flate_inflate _ := ([], false) }.

Definition metadata : object :=
  [("credential_issuer", VString "https://iss"); ("credential_endpoint", VString "https://iss/credential"); ("token_endpoint", VString "https://iss/token");
   ("notification_endpoint", VString "https://iss/notification");
   ("credential_configurations_supported", VObj [("pid", VObj [("format", VString "dc+sd-jwt"); ("scope", VString "pid")])])].

Definition oauthMeta : object :=
  [("issuer", VString "https://iss"); ("authorization_endpoint", VString "https://iss/authorize"); ("token_endpoint", VString "https://iss/token");
   ("pushed_authorization_request_endpoint", VString "https://iss/par"); ("authorization_response_iss_parameter_supported", VBool true)].

#[local] Instance toy_json : Json := {
  unmarshal_object s :=
    if (s =? "meta")%string then Some metadata
    else if (s =? "par")%string then Some [("request_uri", VString "urn:1")]
    else if (s =? "token")%string then Some [("access_token", VString "at"); ("token_type", VString "Bearer")]
    else if (s =? "credential")%string
    then Some [("credentials", VArr [VObj [("credential", VString "cred")]]); ("notification_id", VString "1")]
    else Some [];
  unmarshal_array _ := None }.

#[local] Instance toy_signer : Signer := { PrivateKey := unit; marshal_object _ := Some "o"; ecdsa_sign _ _ := Some (1, 2); curve_bits _ := 256 }.

Definition answer_to (url : string) : incoming :=
  let answered body := mkIn 200 ∅ body None in
  if (url =? "https://iss/.well-known/openid-credential-issuer")%string then answered "meta"
  else if (url =? "https://iss/par")%string then answered "par"
  else if (url =? "https://iss/token")%string then answered "token"
  else if (url =? "https://iss/credential")%string then answered "credential"
  else if has_prefix "https://iss/authorize" url then mkIn 302 {["Location" := ["cb"]]} "" None
  else answered "".

#[local] Instance toy_world : World := {
  world := unit; serve r a := (a, Ok (answer_to (o_URL r))); clock a := (a, unix 1000000); entropy n a := (a, repeat_byte n "r"); NewRequest _ _ := None }.

Definition state : string := EncodeBase64URL (repeat_byte 18 "r").
Definition public (_ : unit) : string := "key".
Definition wallet : vci_wallet := mkVciWallet _ Strict false false "1.0" "client" "https://wallet/cb" "" "" "" false "" tt None.
Definition redirect (_ : string) : option values := Some {["code" := ["c"]; "state" := [state]; "iss" := ["https://iss"]]}.
Definition offer : CredentialOffer := mkOffer "https://iss" ["pid"] (mkGrants "pre" None "" "") [].
Definition options : OfferOptions := mkOptions false "" "" (Some offer) "".

(** The client: a holder whose browser runs nothing by itself. *)
Abbreviation accept_offer :=
  (processCredentialOffer (w := toy_world) (fun _ => None) public Some wallet (fun _ => None) (fun _ => None) (fun _ => None) None (fun a => (a, (None, fun _ => None))) (fun _ => Some "{}")
     (fun _ => Err (Text "")) (fun _ _ _ => []) (fun _ _ => []) (fun _ => false) (fun _ _ a => (a, None)) redirect (fun _ _ _ _ => Ret (Err (Text "")))
     (fun _ _ => Ok []) (fun _ _ => true) (fun _ => None) (fun _ _ => true) (fun _ _ => None) (fun _ _ _ => None) (fun a => (a, Some tt)) (fun _ => Ret (Ok (Offer offer)))).
Abbreviation code_flow :=
  (processAuthorizationCodeOffer (w := toy_world) (fun _ => None) public Some wallet (fun _ => None) (fun _ => None) (fun _ => None) None (fun a => (a, (None, fun _ => None))) (fun _ => Some "{}")
     (fun _ => false) (fun _ _ a => (a, None)) redirect (fun _ _ _ _ => Ret (Err (Text "")))
     (fun _ _ => Ok []) (fun _ _ => true) (fun _ => None) (fun _ _ => true) (fun _ _ => None) (fun _ _ _ => None) (fun a => (a, Some tt))).

Definition session : issuanceSession :=
  mkSession metadata (mkRenewal "https://iss" "https://iss/token" "https://iss/credential" "pid" "" "" false None) None None.

Lemma toy_entropy n a : String.length (entropy n a).2 = n.
Proof. exact (ClientToy.repeat_size n). Qed.

Definition urls (l : talk) : list string := map (fun e => o_URL e.1) l.

(** The witness's flow ends with a stored credential. *)
Lemma authorization_code_is_bound_witness :
  (let out := run (code_flow "" session oauthMeta false "") (mkNet tt []) in
   is_ok out.2 = true /\
   urls (exchanges out.1) = ["https://iss/par"; "https://iss/authorize?client_id=client&request_uri=urn%3A1"; "https://iss/token"; "https://iss/credential"; "https://iss/notification"]) /\
  runs (code_flow "" session oauthMeta false "") (fun _ l => l = [] \/
    exists state verifier, drawn 18 state /\ drawn 32 verifier /\
    let clientID := trim_space (vw_VCIClientID wallet) in
    let pushed := pushes (get_string oauthMeta "pushed_authorization_request_endpoint") clientID state verifier in
    Forall (fun e => posts_form e.1 -> pushed e.1) l \/
    exists v, received (fun _ _ a => (a, None)) redirect (get_string oauthMeta "authorization_endpoint") clientID "" l v /\
      answers state (oauthIssuer oauthMeta "") (issAdvertised oauthMeta) v /\
      Forall (fun e => posts_form e.1 -> pushed e.1 \/ redeems (ren_TokenEndpoint (is_renewal session)) clientID verifier (Get v "code") e.1) l).
Proof.
  split; [vm_compute; done|].
  refine (authorization_code_is_bound (w := toy_world) (fun _ => None) public Some wallet _ _ _ _ _ _ _ _ _ _ _ _ _ _ _ _ _ "" session oauthMeta false "" _ _ _);
    [reflexivity|by right|exact toy_entropy].
Defined.

(** The witness's token is sent to the two endpoints of the metadata. *)
Lemma access_tokens_stay_with_the_issuer_witness :
  (let out := run (accept_offer "" options) (mkNet tt []) in
   is_ok out.2 = true /\
   map (fun e => o_Header e.1 !! "Authorization") (exchanges out.1) = [None; None; None; Some "Bearer at"; Some "Bearer at"]) /\
  runs (accept_offer "" options) (fun r l => is_ok r = false /\ Forall (fun e => bare e.1) l \/
    exists issuer metadata endpoint, (forall approved, oo_ResolvedOffer options = Some approved -> issuer = CredentialIssuer approved) /\
      published wallet (fun _ => Err (Text "")) issuer metadata l /\ named_endpoint wallet issuer metadata endpoint /\
      Forall (fun e => confined endpoint metadata e.1) l /\
      forall i findings, r = Ok (i, findings) -> keeps issuer endpoint (renewal_of i)).
Proof.
  split; [vm_compute; done|].
  refine (proj1 (access_tokens_stay_with_the_issuer (w := toy_world) (fun _ => None) public Some wallet _ _ _ _ _ _ _ _ _ _ _ _ _ _ _ _ _ _ _ _ _ "" options _ _));
    intros; apply only_quiet, quiet_ret.
Defined.
End FlowToy.
